(* ===== verification/_CoqProject ===== *)
-Q . S2P
Prelude.v
Policy.v
Operation.v
Connector.v
Page.v
Target.v
MemoryRegistry.v
Materializer.v
Launcher.v
Plane.v
Control.v
Wire.v
EgressPolicy.v
Capability.v
TlsHello.v
Proxy.v
Serve.v
LiveFiles.v
LiveWrite.v
AppendLog.v
Acks.v
FileEffects.v
GuestErrors.v
GuestTarget.v
GuestFiles.v
GuestInstall.v
GuestOperations.v
GuestStdin.v
DynamoTable.v
Definitions.v
Dynamo.v
AwsErrors.v
AwsSeals.v
Cache.v
Transfer.v
Prepare.v
Prog.v
AwsCalls.v
AwsClient.v
AwsLaunch.v
AwsHand.v
AwsPorts.v
AwsTraces.v
AwsSafety.v
ProcessBoundary.v
Process.v
GuestServer.v
Session.v
Image.v
Settings.v
GuestLife.v
Canary.v
Operator.v
