(* ===== verification/Prelude.v ===== *)
(** * Hands: a verification development

    Hands runs untrusted Tools of an agent (Brain) inside microVMs. Brain owns intent: it commits an operation before
    it is dispatched, and talks to a [HandPort]. This repository is the other side of that port, in seven Rust crates
    under src/crates; the development models them as they are written and follows their interactions:

    - hand-policy: identifiers, digests, secrets, the closed set of connector classes.
    - hand-core: the operation registry of a guest, live files, and the materialization of targets (a target is a
      reservation, then a launch, then a durable installation) over an abstract registry port.
    - hand-wire: the messages between the plane and a guest.
    - hand-brain-aws: the plane. It reserves memory and installs targets in DynamoDB, launches microVMs under a
      sealed request and an idempotency token, prepares sessions through caches, and serves every request of Brain by
      calls on the registry, the provider and the guest.
    - hand-guest: the process inside a microVM. It is armed once by the provider's hook, installs bundles, bindings,
      secrets and objects over an authenticated channel, runs operations under a kernel boundary, retains their
      terminals until they are acknowledged, and logs acknowledgements and file effects durably.
    - hand-egress-gateway: the CONNECT proxy through which an allowlisted sandbox reaches the network under a signed
      capability.
    - hand-lambda: the provider's lifecycle calls with their pacing, the image pipeline, the release canaries and
      the operator's commands.

    The C and JavaScript under src/image are not modelled; the supervisor's side of each of their interfaces is.

    ** How the files read

    Every file opens with the source files it models, and its definitions keep their names. Three ways of writing
    programs are used, each where the code has that shape:

    - a state-and-error monad [M S E A] (below) for methods on [&mut self] and for critical sections: an early
      return keeps the mutations made before it;
    - step relations for what interleaves: clients of the registries, concurrent requests and supervised executions
      of a guest, connections of the gateway, preparations over the caches, writers to a pipe, logs that crash;
    - [Prog] (Prog.v), programs as trees of calls, for code whose behaviour is what it asks of others: a run is the
      trace of its calls with their answers, and a small program logic ([wp], [always], [averts]) proves what every
      run of a handler does whatever is answered.

    Integers are [Z] with their width written out where the code checks, saturates or could wrap; strings are byte
    strings with UTF-8 decoding where the code looks at characters; maps are [gmap].

    ** Files

    - Prelude: machine integers, results and the monad, byte strings with the standard library's operations on
      them, sorting, sums over maps, and the tactics and lemmas the other files share.
    - Policy (hand-policy). Operation: operation.rs, with the counter-free [Ledger] as its contract. Connector:
      connector.rs and resources.rs. Page: page.rs, and the interface of a paginated listing.
    - Target, MemoryRegistry, Materializer (hand-core/src/materialization): the data with its validations; the
      in-memory registry; the materializer over the class [TargetReservations] and its laws. Launcher: the dispatch
      window of a lease. Plane composes the three: jobs, takeovers, crashes and lost microVMs under one quota.
    - LiveFiles, LiveWrite (hand-core/src/files.rs): listings, searches and reads over a file tree; staged writes.
    - Control (hand-lambda control.rs and launch.rs), Image (image.rs), Canary (canary.rs), Operator (the binary).
    - Wire (hand-wire). Session: the plane's client and the guest's server over one connection.
    - EgressPolicy, Capability, TlsHello, Proxy (hand-egress-gateway). Serve: its accept loops and the interleaved life of
      all its connections, of which the setup of Proxy is a run.
    - AppendLog, Acks, FileEffects (acks.rs, file_effects.rs): logs over a file whose bytes are durable once synced,
      with torn writes, crashes and power losses.
    - GuestErrors, GuestTarget, GuestFiles, GuestInstall, GuestOperations, GuestStdin (hand-guest/src/hand):
      arming and fencing, file requests, installed artifacts, the operation lifecycle, interactive input. GuestLife:
      the supervised tasks of executions over a bounded number of slots, shutdown, and the build hooks.
    - ProcessBoundary, Process (process.rs): the environment, system calls and seccomp program of a child, under an
      interpreter of classic BPF and a model of process trees; the executors, their deadlines and their teardown.
      GuestServer (server.rs): the framed socket, the control bearer, the install and export routes.
    - DynamoTable, Dynamo, Definitions (hand-brain-aws registry.rs, definitions.rs, dynamo.rs): conditional writes
      and transactions as a step relation, the registry and the definitions as programs over them, interrupted
      anywhere.
    - AwsErrors, AwsSeals (errors.rs, validate.rs, status.rs), Cache, Transfer, Prepare (cache.rs, transfer.rs,
      ports/preparation.rs): the preparation and bundle caches with their budgets, bounded transfers, and the
      phases of a preparation.
    - AwsCalls, AwsClient, AwsLaunch, AwsHand, AwsPorts: what the handlers call, and every handler of hand.rs,
      client.rs, launcher.rs, plane.rs and ports/. AwsTraces proves the properties of each handler, AwsSafety states
      them for every request.
    - Settings: the three configurations read from an environment.

    ** What the theorems show

    - Capacity. The memory of microVMs that may be running is always charged and never exceeds the quota (Plane),
      the DynamoDB counter equals the rows it stands for through crashes and unknown outcomes (Dynamo), a refund is
      made only on the provider's word or at the end of a lease (AwsSafety); the same for the slots and roots of the
      gateway (Proxy, Serve), the budgets of the caches (Prepare), the operation registry (Operation) and the slots of a
      guest (GuestLife).
    - At most once. Operations, file effects, acknowledgements, stdin writes and workspace writes are each done or
      recorded at most once, through retries, crashes and interleavings (GuestOperations, GuestLife, FileEffects,
      Acks, GuestStdin, GuestFiles); a submission once sent stays on its target (AwsSafety).
    - Exactness. Authorization, policy validation, the ClientHello parser, searches, publications and the fence of a
      generation accept exactly what their specification describes; the registries refine their protocols and
      ledgers; the socket session answers every request with its own reply.
    - Authority. Launches are sealed, leased and timely and replay from their seal; secrets and object authorities
      are consumed before use; installed artifacts, staged objects and child processes are confined to what was
      sealed; the gateway relays only authorized traffic (Serve); the product's own hosts are out of reach of every sandbox (Settings).
    - Ends. Executions, builds, canaries, waits and shutdowns end, on clocks that advance.

    ** Bounds and fuel

    A loop that is not structural takes fuel, and a theorem says what is enough, or that running out is not a result
    of the code. Reaping a process group needs its members and 201 turns, supervision one turn per second of the
    timeout (Process); the wait for a build takes 122 polls (Image), a canary's waits [turns s] turns of [s]
    milliseconds in two minutes (Canary), a shutdown 402 turns of ten milliseconds (GuestLife), a wait for a state
    [wait_fuel] turns (Control); reading an HTTP header, a ClientHello or a match takes its size bound. The number of
    pages a listing of images may have is an argument of [publish].

    ** What is assumed

    Brain's contract, its digests, JSON and canonical JSON, SHA-256, ECDSA, base64, IDNA, CIDR arithmetic, globs and
    regular expressions, and the clients of AWS, HTTP and WebSocket are parameters; a theorem that relies on their
    documented behaviour has it as a hypothesis (an encoding round-trips, a clock does not go back), with a witness
    where it holds. The kernel, DynamoDB and the file system are step relations or interpreters of what they
    document.

    ** What is not modelled

    Logging, Debug redaction, zeroizing on drop, lock poisoning, texts of errors, serde derives, SDK request
    building, HTTP routing and body limits of the guest; the generated Dockerfile and boot script and the archive writer; the composition roots (the constructors of the
    plane and of the guest, the main functions). The constant fields of the canaries' executions are left out. *)

From stdpp Require Export base tactics option list gmap strings numbers sorting relations.
From Stdlib Require Export ZArith Lia.
From Stdlib Require Ascii.
Export (notations) Stdlib.Strings.Ascii.
#[global] Open Scope Z_scope.

(** ** Machine integers

    [u64] and [usize] values are [Z]s; the two types have the same width on every target of the
    repository. Checked and saturating operations are written out at that width. *)
Definition U64_MAX : Z := 2 ^ 64 - 1.
Definition U16_MAX : Z := 2 ^ 16 - 1.

Definition u64 (x : Z) : Prop := 0 <= x <= U64_MAX.

Definition checked_add (a b : Z) : option Z :=
  if a + b <=? U64_MAX then Some (a + b) else None.

Definition checked_sub (a b : Z) : option Z :=
  if b <=? a then Some (a - b) else None.

Definition checked_mul (a b : Z) : option Z :=
  if a * b <=? U64_MAX then Some (a * b) else None.

Definition saturating_sub (a b : Z) : Z := Z.max 0 (a - b).

Definition saturating_add (a b : Z) : Z := Z.min U64_MAX (a + b).

Definition clamp (x lo hi : Z) : Z := if x <? lo then lo else if hi <? x then hi else x.

(** ** Results and the state-and-error monad

    [result E A] is Rust's [Result<A, E>]. [M S E A] is a method taking [&mut self]: it returns a
    result and the state it leaves behind. An early return keeps every mutation made before it, so
    [bind] does not roll the state back on an error. *)
Inductive result (E A : Type) : Type :=
  | Ok (a : A)
  | Err (e : E).
Arguments Ok {E A} a.
Arguments Err {E A} e.

Definition is_ok {E A} (r : result E A) : bool :=
  match r with Ok _ => true | Err _ => false end.

Definition is_err {E A} (r : result E A) : bool := negb (is_ok r).

Definition map_err {E F A} (f : E -> F) (r : result E A) : result F A :=
  match r with Ok a => Ok a | Err e => Err (f e) end.

Definition ok_or {E A} (e : E) (o : option A) : result E A :=
  match o with Some a => Ok a | None => Err e end.

#[global] Instance result_ret {E} : MRet (result E) := fun A => @Ok E A.
#[global] Instance result_bind {E} : MBind (result E) := fun A B f r =>
  match r with Ok a => f a | Err e => Err e end.
#[global] Instance result_fmap {E} : FMap (result E) := fun A B f r =>
  match r with Ok a => Ok (f a) | Err e => Err e end.

#[global] Instance result_eq_dec {E A} `{EqDecision E, EqDecision A} : EqDecision (result E A).
Proof. solve_decision. Defined.

(** [ensure b e]: fail with [e] unless [b]. *)
Definition ensure {E} (b : bool) (e : E) : result E unit := if b then Ok tt else Err e.

Definition M (S E A : Type) : Type := S -> result E A * S.

#[global] Instance M_ret {S E} : MRet (M S E) := fun A a s => (Ok a, s).
#[global] Instance M_bind {S E} : MBind (M S E) := fun A B f m s =>
  match m s with
  | (Ok a, s') => f a s'
  | (Err e, s') => (Err e, s')
  end.

Definition get {S E} : M S E S := fun s => (Ok s, s).
Definition put {S E} (s : S) : M S E unit := fun _ => (Ok tt, s).
Definition modify {S E} (f : S -> S) : M S E unit := fun s => (Ok tt, f s).
Definition throw {S E A} (e : E) : M S E A := fun s => (Err e, s).
Definition lift {S E A} (r : result E A) : M S E A := fun s => (r, s).

(** Observe a result instead of propagating its error ([match f().await { Ok(..) Err(..) }]). *)
Definition observed {S E F A} (m : M S E A) : M S F (result E A) := fun s => let '(r, s') := m s in (Ok r, s').

(** A block of length [n] of the [for] loops over a slice: stops at the first error. *)
Fixpoint mapM_result {E A B} (f : A -> result E B) (l : list A) : result E (list B) :=
  match l with
  | [] => Ok []
  | a :: l => b ← f a; bs ← mapM_result f l; Ok (b :: bs)
  end.

(** ** Bytes and strings

    A Rust [str] is a [string] of bytes (its UTF-8 encoding), so [len] is [String.length]. *)
Definition byte_val (c : Ascii.ascii) : Z := Z.of_N (Ascii.N_of_ascii c).

Definition bytes_of (s : string) : list Ascii.ascii := String.list_ascii_of_string s.

Definition str_len (s : string) : Z := Z.of_nat (String.length s).

Definition len {A} (l : list A) : Z := Z.of_nat (length l).

Definition is_ascii_digit (c : Ascii.ascii) : bool := (48 <=? byte_val c) && (byte_val c <=? 57).
Definition is_ascii_lower (c : Ascii.ascii) : bool := (97 <=? byte_val c) && (byte_val c <=? 122).
Definition is_ascii_upper (c : Ascii.ascii) : bool := (65 <=? byte_val c) && (byte_val c <=? 90).
Definition is_ascii_alphabetic (c : Ascii.ascii) : bool := is_ascii_lower c || is_ascii_upper c.
Definition is_ascii_alphanumeric (c : Ascii.ascii) : bool := is_ascii_alphabetic c || is_ascii_digit c.
Definition is_ascii_byte (c : Ascii.ascii) : bool := byte_val c <? 128.
Definition is_ascii (s : string) : bool := forallb is_ascii_byte (bytes_of s).

Definition ascii_shift (d : Z) (c : Ascii.ascii) : Ascii.ascii :=
  Ascii.ascii_of_N (Z.to_N (byte_val c + d)).
Definition to_lower (c : Ascii.ascii) : Ascii.ascii := if is_ascii_upper c then ascii_shift 32 c else c.
Definition to_upper (c : Ascii.ascii) : Ascii.ascii := if is_ascii_lower c then ascii_shift (-32) c else c.

Definition map_string (f : Ascii.ascii -> Ascii.ascii) (s : string) : string :=
  String.string_of_list_ascii (map f (bytes_of s)).
Definition to_ascii_lowercase : string -> string := map_string to_lower.
Definition to_ascii_uppercase : string -> string := map_string to_upper.

Fixpoint strip_prefix (p s : string) : option string :=
  match p, s with
  | EmptyString, _ => Some s
  | String a p, String b s => if Ascii.eqb a b then strip_prefix p s else None
  | String _ _, EmptyString => None
  end.
Definition starts_with (p s : string) : bool := match strip_prefix p s with Some _ => true | None => false end.

Definition string_rev (s : string) : string := String.string_of_list_ascii (rev (bytes_of s)).
Definition ends_with (p s : string) : bool := starts_with (string_rev p) (string_rev s).

Definition contains_char (c : Ascii.ascii) (s : string) : bool := existsb (Ascii.eqb c) (bytes_of s).

(** [str::split(c)]: always at least one piece. *)
Fixpoint split_on (c : Ascii.ascii) (s : string) : list string :=
  match s with
  | EmptyString => [EmptyString]
  | String a s =>
      if Ascii.eqb a c then EmptyString :: split_on c s
      else match split_on c s with
           | [] => [String a EmptyString]
           | p :: ps => String a p :: ps
           end
  end.

(** [str::split_once(c)]: the pieces before and after the first occurrence. *)
Fixpoint split_once (c : Ascii.ascii) (s : string) : option (string * string) :=
  match s with
  | EmptyString => None
  | String a s =>
      if Ascii.eqb a c then Some (EmptyString, s)
      else match split_once c s with
           | Some (l, r) => Some (String a l, r)
           | None => None
           end
  end.

(** [str::rsplit_once(c)]: the pieces around the last occurrence. *)
Fixpoint rsplit_once (c : Ascii.ascii) (s : string) : option (string * string) :=
  match s with
  | EmptyString => None
  | String a s =>
      match rsplit_once c s with
      | Some (l, r) => Some (String a l, r)
      | None => if Ascii.eqb a c then Some (EmptyString, s) else None
      end
  end.

(** [str::parse::<uN>()]: an optional [+], then decimal digits, at most [max]. *)
Fixpoint parse_digits (acc : Z) (max : Z) (l : list Ascii.ascii) : option Z :=
  match l with
  | [] => Some acc
  | c :: l =>
      if is_ascii_digit c then
        let acc' := acc * 10 + (byte_val c - 48) in
        if acc' <=? max then parse_digits acc' max l else None
      else None
  end.
Definition parse_uint (max : Z) (s : string) : option Z :=
  let l := bytes_of s in
  let digits := match l with
                | c :: r => if Ascii.eqb c "+"%char then r else l
                | [] => []
                end in
  match digits with [] => None | _ => parse_digits 0 max digits end.

(** [u64::to_string]: twenty digits are enough for every 64-bit value. *)
Definition digit_char (d : Z) : Ascii.ascii := Ascii.ascii_of_N (Z.to_N (48 + d)).
Fixpoint dec_digits (fuel : nat) (n : Z) : list Ascii.ascii :=
  match fuel with
  | O => []
  | S fuel => if n <? 10 then [digit_char n] else dec_digits fuel (n / 10) ++ [digit_char (n mod 10)]
  end.
Definition print_uint (n : Z) : string := String.string_of_list_ascii (dec_digits 20 n).

(** The Unicode scalar values of a UTF-8 byte string ([str::chars]). *)
Fixpoint utf8_chars (l : list Z) : list Z :=
  match l with
  | [] => []
  | b0 :: r0 =>
      if b0 <? 128 then b0 :: utf8_chars r0
      else match r0 with
           | [] => [b0]
           | b1 :: r1 =>
               if b0 <? 224 then ((b0 - 192) * 64 + (b1 - 128)) :: utf8_chars r1
               else match r1 with
                    | [] => [b0]
                    | b2 :: r2 =>
                        if b0 <? 240
                        then ((b0 - 224) * 4096 + (b1 - 128) * 64 + (b2 - 128)) :: utf8_chars r2
                        else match r2 with
                             | [] => [b0]
                             | b3 :: r3 =>
                                 ((b0 - 240) * 262144 + (b1 - 128) * 4096 + (b2 - 128) * 64 + (b3 - 128))
                                   :: utf8_chars r3
                             end
                    end
           end
  end.
Definition chars (s : string) : list Z := utf8_chars (map byte_val (bytes_of s)).

(** [char::is_whitespace]: the Unicode [White_Space] property. *)
Definition is_whitespace (c : Z) : bool :=
  ((9 <=? c) && (c <=? 13)) || (c =? 32) || (c =? 133) || (c =? 160) || (c =? 5760)
  || ((8192 <=? c) && (c <=? 8202)) || (c =? 8232) || (c =? 8233) || (c =? 8239)
  || (c =? 8287) || (c =? 12288).

(** [s.trim() != s]: the first or the last character is white space. *)
Definition trim_changes (s : string) : bool :=
  match chars s with
  | [] => false
  | c :: cs => is_whitespace c || is_whitespace (List.last cs c)
  end.

(** A slice sort: stable insertion, keeping equal elements in their order ([sort_by]; for a total order
    whose equal elements are identical this is also [sort_unstable]). *)
Fixpoint insert_by {A} (le : A -> A -> bool) (x : A) (l : list A) : list A :=
  match l with
  | [] => [x]
  | y :: l => if le x y then x :: y :: l else y :: insert_by le x l
  end.
Definition sort_by {A} (le : A -> A -> bool) (l : list A) : list A := foldr (insert_by le) [] l.

(** [Vec::dedup]: drops an element equal to the one kept before it. *)
Fixpoint dedup {A} `{EqDecision A} (l : list A) : list A :=
  match l with
  | [] => []
  | x :: l => match dedup l with
              | [] => [x]
              | y :: r => if decide (x = y) then y :: r else x :: y :: r
              end
  end.

(** [str::split(sep)] for a separator of two bytes. *)
Fixpoint split_on2 (a b : Ascii.ascii) (s : string) : list string :=
  match s with
  | EmptyString => [EmptyString]
  | String x ((String y rest) as tail) =>
      if Ascii.eqb x a && Ascii.eqb y b then EmptyString :: split_on2 a b rest
      else match split_on2 a b tail with
           | [] => [String x EmptyString]
           | p :: ps => String x p :: ps
           end
  | String x EmptyString => [String x EmptyString]
  end.

(** ** UTF-8 ([str::from_utf8], [str::trim]) *)
Definition is_continuation (b : Z) : bool := (128 <=? b) && (b <=? 191).
Definition in_range (lo hi b : Z) : bool := (lo <=? b) && (b <=? hi).

(** The second byte a three- or four-byte sequence admits: no overlong form, no surrogate, nothing
    above U+10FFFF. *)
Definition utf8_second (b0 b1 : Z) : bool :=
  if b0 =? 224 then in_range 160 191 b1
  else if b0 =? 237 then in_range 128 159 b1
  else if b0 =? 240 then in_range 144 191 b1
  else if b0 =? 244 then in_range 128 143 b1
  else is_continuation b1.

Fixpoint valid_utf8 (l : list Z) : bool :=
  match l with
  | [] => true
  | b0 :: r0 =>
      if b0 <? 128 then valid_utf8 r0
      else match r0 with
           | [] => false
           | b1 :: r1 =>
               if in_range 194 223 b0 then is_continuation b1 && valid_utf8 r1
               else match r1 with
                    | [] => false
                    | b2 :: r2 =>
                        if in_range 224 239 b0 then utf8_second b0 b1 && is_continuation b2 && valid_utf8 r2
                        else match r2 with
                             | [] => false
                             | b3 :: r3 =>
                                 in_range 240 244 b0 && utf8_second b0 b1 && is_continuation b2
                                 && is_continuation b3 && valid_utf8 r3
                             end
                    end
           end
  end.

(** [str::from_utf8] on a byte slice; strings are their bytes. *)
Definition from_utf8 (l : list Ascii.ascii) : option string :=
  if valid_utf8 (map byte_val l) then Some (String.string_of_list_ascii l) else None.

(** What every Rust [String] satisfies. *)
Definition utf8 (s : string) : Prop := valid_utf8 (map byte_val (bytes_of s)) = true.

(** [String::from_utf8_lossy]: every maximal part of a sequence that cannot go on becomes U+FFFD. *)
Definition REPLACEMENT : list Z := [239; 191; 189].

Fixpoint utf8_lossy (l : list Z) : list Z :=
  match l with
  | [] => []
  | b :: l1 =>
      if b <? 128 then b :: utf8_lossy l1
      else if (194 <=? b) && (b <=? 244) then
        match l1 with
        | [] => REPLACEMENT
        | c :: l2 =>
            if negb (utf8_second b c) then REPLACEMENT ++ utf8_lossy l1
            else if b <? 224 then b :: c :: utf8_lossy l2
            else match l2 with
                 | [] => REPLACEMENT
                 | d :: l3 =>
                     if negb (is_continuation d) then REPLACEMENT ++ utf8_lossy l2
                     else if b <? 240 then b :: c :: d :: utf8_lossy l3
                     else match l3 with
                          | [] => REPLACEMENT
                          | e :: l4 => if negb (is_continuation e) then REPLACEMENT ++ utf8_lossy l3 else b :: c :: d :: e :: utf8_lossy l4
                          end
                 end
        end
      else REPLACEMENT ++ utf8_lossy l1
  end.

Definition from_utf8_lossy (l : list Ascii.ascii) : list Ascii.ascii := map (fun b => Ascii.ascii_of_N (Z.to_N b)) (utf8_lossy (map byte_val l)).

(** The characters of a UTF-8 byte list as the byte groups that encode them. *)
Definition utf8_width (b : Z) : nat := if b <? 128 then 1 else if b <? 224 then 2 else if b <? 240 then 3 else 4.
Fixpoint utf8_groups (fuel : nat) (l : list Ascii.ascii) : list (list Ascii.ascii) :=
  match fuel, l with
  | S fuel, c :: _ =>
      let n := utf8_width (byte_val c) in take n l :: utf8_groups fuel (drop n l)
  | _, _ => []
  end.
Definition blank_group (g : list Ascii.ascii) : bool := existsb is_whitespace (utf8_chars (map byte_val g)).

Fixpoint drop_while {A} (f : A -> bool) (l : list A) : list A :=
  match l with [] => [] | x :: r => if f x then drop_while f r else l end.
Definition trim_both {A} (f : A -> bool) (l : list A) : list A := rev (drop_while f (rev (drop_while f l))).

(** [Iterator::find_map] *)
Fixpoint find_map {A B} (f : A -> option B) (l : list A) : option B :=
  match l with [] => None | a :: l => match f a with Some b => Some b | None => find_map f l end end.

(** [str::replace] for a nonempty pattern. *)
Fixpoint replace_loop (fuel : nat) (pattern by_ s : string) : string :=
  match fuel, s with
  | S fuel, String c rest =>
      match strip_prefix pattern s with
      | Some rest => by_ +:+ replace_loop fuel pattern by_ rest
      | None => String c (replace_loop fuel pattern by_ rest)
      end
  | _, _ => s
  end.
Definition str_replace (pattern by_ s : string) : string := replace_loop (String.length s) pattern by_ s.

(** [str::trim_end] *)
Definition trim_end (s : string) : string :=
  String.string_of_list_ascii (mjoin (rev (drop_while blank_group (rev (utf8_groups (String.length s) (bytes_of s)))))).

(** [str::trim]: every group of a string of [n] bytes is at least one byte long. *)
Definition trim (s : string) : string :=
  String.string_of_list_ascii (mjoin (trim_both blank_group (utf8_groups (String.length s) (bytes_of s)))).

(** [str::trim_end_matches(c)] *)
Definition trim_end_matches (c : Ascii.ascii) (s : string) : string :=
  String.string_of_list_ascii (rev (drop_while (Ascii.eqb c) (rev (bytes_of s)))).

(** [to_be_bytes], and fields with their length before each. *)
Fixpoint be_bytes (n : nat) (x : Z) : list Ascii.ascii :=
  match n with
  | O => []
  | S n => be_bytes n (x / 256) ++ [Ascii.ascii_of_N (Z.to_N (x mod 256))]
  end.

Definition length_prefixed (parts : list string) : list Ascii.ascii :=
  concat (map (fun part => be_bytes 8 (str_len part) ++ bytes_of part) parts).

Definition str_ltb (a b : string) : bool :=
  match String.compare a b with Lt => true | _ => false end.

Definition str_eqb (a b : string) : bool := String.eqb a b.

Definition eq_ignore_ascii_case (a b : string) : bool := str_eqb (to_ascii_lowercase a) (to_ascii_lowercase b).

(** ** Sums over finite maps *)
Section map_sum.
Context {K V : Type} `{Countable K}.
Implicit Types (m : gmap K V) (f : V -> Z).

Definition map_sum f m : Z := map_fold (fun _ v acc => f v + acc) 0 m.

(** [HashMap::values], in an arbitrary order. *)
Definition map_values m : list V := map snd (map_to_list m).
End map_sum.

(** ** Facts *)
Lemma map_sum_empty {K V} `{Countable K} (f : V -> Z) : map_sum f (∅ : gmap K V) = 0.
Proof. unfold map_sum. apply map_fold_empty. Qed.

Lemma map_sum_insert_new {K V} `{Countable K} (f : V -> Z) (m : gmap K V) k v :
  m !! k = None -> map_sum f (<[k := v]> m) = f v + map_sum f m.
Proof. intros Hk. unfold map_sum. rewrite map_fold_insert_L; [done | intros; lia | done]. Qed.

Lemma map_sum_delete {K V} `{Countable K} (f : V -> Z) (m : gmap K V) k v :
  m !! k = Some v -> map_sum f m = f v + map_sum f (delete k m).
Proof. intros Hk. rewrite <- (insert_delete_id m k v Hk) at 1.
  apply map_sum_insert_new, lookup_delete_eq. Qed.

Lemma map_sum_insert_over {K V} `{Countable K} (f : V -> Z) (m : gmap K V) k v v' :
  m !! k = Some v -> map_sum f (<[k := v']> m) = map_sum f m - f v + f v'.
Proof.
  intros Hk. rewrite (map_sum_delete f m k v Hk).
  rewrite <- insert_delete_eq, map_sum_insert_new by apply lookup_delete_eq. lia.
Qed.

Lemma map_sum_nonneg {K V} `{Countable K} (f : V -> Z) (m : gmap K V) :
  map_Forall (fun _ v => 0 <= f v) m -> 0 <= map_sum f m.
Proof.
  induction m as [|k v m Hk IH] using map_ind; intros Hall.
  - by rewrite map_sum_empty.
  - rewrite map_sum_insert_new by done. apply map_Forall_insert in Hall as [Hv Hm]; [|done].
    specialize (IH Hm). lia.
Qed.

Lemma map_sum_lookup_le {K V} `{Countable K} (f : V -> Z) (m : gmap K V) k v :
  map_Forall (fun _ v => 0 <= f v) m -> m !! k = Some v -> f v <= map_sum f m.
Proof.
  intros Hall Hk. rewrite (map_sum_delete f m k v Hk).
  pose proof (map_sum_nonneg f (delete k m) (map_Forall_delete _ _ _ Hall)). lia.
Qed.

Lemma map_sum_ext {K V} `{Countable K} (f g : V -> Z) (m : gmap K V) :
  map_Forall (fun _ v => f v = g v) m -> map_sum f m = map_sum g m.
Proof.
  induction m as [|k v m Hk IH] using map_ind; intros Hall.
  - by rewrite !map_sum_empty.
  - apply map_Forall_insert in Hall as [Hv Hm]; [|done].
    rewrite !map_sum_insert_new by done. rewrite IH by done. lia.
Qed.

Lemma map_sum_plus {K V} `{Countable K} (f g : V -> Z) (m : gmap K V) :
  map_sum (fun v => f v + g v) m = map_sum f m + map_sum g m.
Proof.
  induction m as [|k v m Hk IH] using map_ind.
  - by rewrite !map_sum_empty.
  - rewrite !map_sum_insert_new by done. lia.
Qed.

(** A sum is bounded by another map's when its entries map injectively to entries at least as large. *)
Lemma map_sum_cover {K1 K2 V1 V2} `{Countable K1, Countable K2} (f : V1 -> Z) (g : V2 -> Z) (h : V1 -> K2)
    (m1 : gmap K1 V1) (m2 : gmap K2 V2) :
  map_Forall (fun _ v => exists w, m2 !! h v = Some w /\ f v <= g w) m1 ->
  (forall k1 k2 v1 v2, m1 !! k1 = Some v1 -> m1 !! k2 = Some v2 -> h v1 = h v2 -> k1 = k2) ->
  map_Forall (fun _ w => 0 <= g w) m2 ->
  map_sum f m1 <= map_sum g m2.
Proof.
  revert m2. induction m1 as [|k v m1 Hk IH] using map_ind; intros m2 Hcov Hinj Hnn.
  - rewrite map_sum_empty. by apply map_sum_nonneg.
  - destruct (Hcov k v (lookup_insert_eq _ _ _)) as (w & Hw & Hle).
    rewrite map_sum_insert_new, (map_sum_delete g m2 _ _ Hw) by done.
    assert (map_sum f m1 <= map_sum g (delete (h v) m2)); [|lia].
    apply IH; [| |by apply map_Forall_delete].
    + intros k' v' Hv'. assert (Hne : k' <> k) by (intros ->; congruence).
      destruct (Hcov k' v' (eq_trans (lookup_insert_ne m1 k k' v (not_eq_sym Hne)) Hv')) as (w' & Hw' & Hle').
      exists w'. split; [|done]. rewrite lookup_delete_ne; [done|]. intros Heq. apply Hne. symmetry.
      apply (Hinj k k' v v'); [apply lookup_insert_eq | by rewrite lookup_insert_ne by done | done].
    + intros k1 k2 v1 v2 H1 H2. apply Hinj; rewrite lookup_insert_ne; congruence.
Qed.

(** ** Sorting and removing duplicates *)
Section sorting.
Context {A : Type} (le : A -> A -> bool).
Context (le_total : forall x y, le x y = true \/ le y x = true).
Context (le_trans : forall x y z, le x y = true -> le y z = true -> le x z = true).

Lemma insert_by_Permutation x l : insert_by le x l ≡ₚ x :: l.
Proof.
  induction l as [|y l IH]; cbn; [done|]. destruct (le x y); [done|]. rewrite IH. apply Permutation_swap.
Qed.

Lemma sort_by_Permutation l : sort_by le l ≡ₚ l.
Proof. unfold sort_by. induction l as [|x l IH]; cbn; [done|]. by rewrite insert_by_Permutation, IH. Qed.

Lemma insert_by_sorted x l : StronglySorted le l -> StronglySorted le (insert_by le x l).
Proof.
  induction 1 as [|y l Hl IH Hy]; cbn; [by repeat constructor|].
  destruct (le x y) eqn:E.
  - constructor; [by constructor|]. constructor; [by rewrite E|].
    eapply Forall_impl; [exact Hy|]. intros z Hz. cbn. apply Is_true_true. apply Is_true_true in Hz. eauto.
  - constructor; [done|]. rewrite insert_by_Permutation. constructor; [|done].
    destruct (le_total x y) as [H|H]; [congruence | by rewrite H].
Qed.

Lemma sort_by_sorted l : StronglySorted le (sort_by le l).
Proof. unfold sort_by. induction l as [|x l IH]; cbn; [constructor | by apply insert_by_sorted]. Qed.

(** Sorting a sorted list changes nothing. *)
Lemma sort_by_id l : StronglySorted le l -> sort_by le l = l.
Proof.
  unfold sort_by. induction 1 as [|x l Hl IH Hx]; cbn; [done|]. rewrite IH. destruct l as [|y l]; [done|]. cbn.
  apply Forall_cons in Hx as [Hx _]. by destruct (le x y).
Qed.

Lemma sort_by_idemp l : sort_by le (sort_by le l) = sort_by le l.
Proof. apply sort_by_id, sort_by_sorted. Qed.
End sorting.

Lemma dedup_cons_head {A} `{EqDecision A} (x : A) l : exists r, dedup (x :: l) = x :: r.
Proof. cbn. destruct (dedup l) as [|y r]; [eauto|]. case_decide; subst; eauto. Qed.

Lemma dedup_elem {A} `{EqDecision A} (x : A) l : x ∈ dedup l <-> x ∈ l.
Proof.
  induction l as [|y l IH]; [done|]. rewrite elem_of_cons, <- IH. cbn.
  destruct (dedup l) as [|z r]; [set_solver|]. case_decide; set_solver.
Qed.

Lemma dedup_length {A} `{EqDecision A} (l : list A) : (length (dedup l) <= length l)%nat.
Proof. induction l as [|x l IH]; [done|]. cbn. destruct (dedup l); [cbn; lia|]. case_decide; cbn in *; lia. Qed.

(** Nothing was dropped exactly when [dedup] is the identity. *)
Lemma dedup_id {A} `{EqDecision A} (l : list A) : length (dedup l) = length l -> dedup l = l.
Proof.
  induction l as [|x l IH]; [done|]. intros H. pose proof (dedup_length l). cbn in *.
  destruct (dedup l) as [|y r]; [cbn in *; destruct l; [done | cbn in *; lia]|].
  case_decide; cbn in *; [lia|]. f_equal. apply IH. lia.
Qed.

Lemma dedup_sorted_NoDup {A} `{EqDecision A} (le : A -> A -> bool) (l : list A) :
  (forall x y, le x y = true -> le y x = true -> x = y) ->
  StronglySorted le l -> length (dedup l) = length l -> NoDup l.
Proof.
  intros anti Hs. induction Hs as [|x l Hl IH Hx]; [by constructor|]. intros Hd.
  pose proof (dedup_id (x :: l) Hd) as Hid. pose proof (dedup_length l) as Hlen.
  assert (Hl' : length (dedup l) = length l).
  { cbn in Hd. destruct (dedup l) as [|y r]; [cbn in *; lia|]. case_decide; cbn in *; lia. }
  constructor; [|by apply IH]. intros Hin. pose proof (dedup_id l Hl') as Hid'.
  destruct l as [|y l']; [set_solver|]. cbn [dedup] in Hid. change (dedup (y :: l')) with (dedup (y :: l')) in Hid.
  change (match dedup (y :: l') with [] => [x] | z :: r => if decide (x = z) then z :: r else x :: z :: r end = x :: y :: l') in Hid.
  rewrite Hid' in Hid. case_decide as E.
  - apply (f_equal length) in Hid. cbn in Hid. lia.
  - apply elem_of_cons in Hin as [->|Hin]; [done|].
    apply StronglySorted_inv in Hl as [_ Hy]. rewrite Forall_forall in Hx, Hy.
    apply E, anti; apply Is_true_true; [apply Hx; set_solver | apply Hy; done].
Qed.

Lemma existsb_false {A} (f : A -> bool) (l : list A) :
  existsb f l = false <-> Forall (fun x => f x = false) l.
Proof.
  induction l as [|a l IH]; cbn; [by split|]. by rewrite orb_false_iff, IH, Forall_cons.
Qed.

Lemma forallb_Forall_true {A} (f : A -> bool) (l : list A) :
  forallb f l = true <-> Forall (fun x => f x = true) l.
Proof.
  induction l as [|a l IH]; cbn; [by split|]. by rewrite andb_true_iff, IH, Forall_cons.
Qed.

Lemma existsb_negb_false {A} (f : A -> bool) (l : list A) :
  existsb (fun x => negb (f x)) l = false <-> Forall (fun x => f x = true) l.
Proof.
  rewrite existsb_false, !Forall_forall. by setoid_rewrite negb_false_iff.
Qed.

Lemma existsb_str_eqb n (l : list string) : existsb (str_eqb n) l = true <-> n ∈ l.
Proof.
  rewrite existsb_exists, list_elem_of_In. setoid_rewrite String.eqb_eq.
  split; [by intros (? & ? & <-) | eauto].
Qed.

Lemma map_values_any {K V} `{Countable K} (f : V -> bool) (m : gmap K V) :
  existsb f (map_values m) = false <-> map_Forall (fun _ v => f v = false) m.
Proof.
  unfold map_values. rewrite existsb_false, map_Forall_to_list, Forall_map.
  apply Forall_iff. by intros [k v].
Qed.

Lemma size_insert_le {K V} `{Countable K} (m : gmap K V) k v :
  (size (<[k := v]> m) <= S (size m))%nat.
Proof. rewrite map_size_insert. destruct (m !! k); cbn; lia. Qed.

Lemma checked_add_Some a b c : checked_add a b = Some c <-> c = a + b /\ a + b <= U64_MAX.
Proof. unfold checked_add. destruct (Z.leb_spec (a + b) U64_MAX); split; intros; simplify_eq; naive_solver lia. Qed.

Lemma checked_add_None a b : checked_add a b = None <-> U64_MAX < a + b.
Proof. unfold checked_add. destruct (Z.leb_spec (a + b) U64_MAX); split; intros; simplify_eq; naive_solver lia. Qed.

Lemma checked_sub_Some a b c : checked_sub a b = Some c <-> c = a - b /\ b <= a.
Proof. unfold checked_sub. destruct (Z.leb_spec b a); split; intros; simplify_eq; naive_solver lia. Qed.

Lemma checked_sub_None a b : checked_sub a b = None <-> a < b.
Proof. unfold checked_sub. destruct (Z.leb_spec b a); split; intros; simplify_eq; naive_solver lia. Qed.

Lemma clamp_bounds x lo hi : lo <= hi -> lo <= clamp x lo hi <= hi.
Proof. unfold clamp. repeat case_match; lia. Qed.

Lemma clamp_id x lo hi : lo <= x <= hi -> clamp x lo hi = x.
Proof. intros H. unfold clamp. rewrite (proj2 (Z.ltb_ge _ _)), (proj2 (Z.ltb_ge _ _)) by lia. done. Qed.

Lemma ensure_Ok {E} b (e : E) : ensure b e = Ok tt <-> b = true.
Proof. unfold ensure. destruct b; naive_solver. Qed.

Lemma result_bind_Ok {E A B} (r : result E A) (f : A -> result E B) b :
  (r ≫= f) = Ok b <-> exists a, r = Ok a /\ f a = Ok b.
Proof. destruct r; cbn; naive_solver. Qed.

Lemma map_err_Ok {E F A} (f : E -> F) (r : result E A) a : map_err f r = Ok a <-> r = Ok a.
Proof. destruct r; naive_solver. Qed.

Lemma ok_or_Ok {E A} (e : E) (o : option A) a : ok_or e o = Ok a <-> o = Some a.
Proof. destruct o; cbn; split; congruence. Qed.

Lemma is_ok_true {E A} (r : result E A) : is_ok r = true <-> exists a, r = Ok a.
Proof. destruct r; naive_solver. Qed.

Lemma len_nonneg {A} (l : list A) : 0 <= len l.
Proof. unfold len. lia. Qed.

Lemma str_len_nonneg s : 0 <= str_len s.
Proof. unfold str_len. lia. Qed.

Lemma byte_val_range c : 0 <= byte_val c < 256.
Proof.
  unfold byte_val. pose proof (Ascii.N_ascii_bounded c). lia.
Qed.

Lemma str_eqb_eq a b : str_eqb a b = true <-> a = b.
Proof. apply String.eqb_eq. Qed.

Lemma str_eqb_refl a : str_eqb a a = true.
Proof. apply String.eqb_refl. Qed.

Lemma str_eqb_neq a b : str_eqb a b = false <-> a <> b.
Proof. apply String.eqb_neq. Qed.

Lemma str_eqb_spec a b : reflect (a = b) (str_eqb a b).
Proof. apply String.eqb_spec. Qed.

Lemma str_app_cons c a b : String c a +:+ b = String c (a +:+ b).
Proof. done. Qed.

Lemma str_app_nil b : EmptyString +:+ b = b.
Proof. done. Qed.

(** Valid text is read back as it is. *)
Lemma utf8_lossy_valid l : valid_utf8 l = true -> utf8_lossy l = l.
Proof.
  induction l as [l IH] using (induction_ltof1 _ (@length Z)). unfold ltof in IH.
  destruct l as [|b l1]; [done|]. cbn [valid_utf8 utf8_lossy]. destruct (Z.ltb_spec b 128); [intros Hv; f_equal; apply IH; [cbn; lia | done]|].
  destruct l1 as [|c l2]; [done|]. unfold in_range.
  destruct ((194 <=? b) && (b <=? 223)) eqn:E2.
  - replace ((194 <=? b) && (b <=? 244)) with true by lia. replace (b <? 224) with true by lia. intros [Hc Hv]%andb_true_iff.
    assert (utf8_second b c = true) as ->.
    { unfold utf8_second. rewrite !(proj2 (Z.eqb_neq b _)) by lia. done. }
    cbn [negb]. do 2 f_equal. apply IH; [cbn; lia | done].
  - destruct l2 as [|d l3]; [done|]. destruct ((224 <=? b) && (b <=? 239)) eqn:E3.
    + replace ((194 <=? b) && (b <=? 244)) with true by lia. replace (b <? 224) with false by lia. replace (b <? 240) with true by lia.
      intros [[-> ->]%andb_true_iff Hv]%andb_true_iff. cbn [negb]. do 3 f_equal. apply IH; [cbn; lia | done].
    + destruct l3 as [|e l4]; [done|]. intros [[[[Hb ->]%andb_true_iff ->]%andb_true_iff ->]%andb_true_iff Hv]%andb_true_iff.
      replace ((194 <=? b) && (b <=? 244)) with true by lia. replace (b <? 224) with false by lia. replace (b <? 240) with false by lia.
      cbn [negb]. do 4 f_equal. apply IH; [cbn; lia | done].
Qed.

Lemma bytes_of_app a b : bytes_of (a +:+ b) = bytes_of a ++ bytes_of b.
Proof. unfold bytes_of. induction a as [|c a IH]; [done|]. rewrite str_app_cons. cbn. by rewrite IH. Qed.

Lemma length_bytes_of s : length (bytes_of s) = String.length s.
Proof. unfold bytes_of. induction s; cbn; congruence. Qed.

Lemma str_len_app a b : str_len (a +:+ b) = str_len a + str_len b.
Proof. unfold str_len. rewrite <- !length_bytes_of, bytes_of_app, length_app. lia. Qed.

Lemma strip_prefix_Some p s t : strip_prefix p s = Some t <-> s = p +:+ t.
Proof.
  revert s. induction p as [|a p IH]; intros s; cbn.
  - rewrite str_app_nil. split; congruence.
  - rewrite str_app_cons. destruct s as [|b s]; [split; done|].
    destruct (Ascii.eqb_spec a b) as [->|Hne].
    + rewrite IH. split; congruence.
    + split; [done|]. congruence.
Qed.

Lemma strip_prefix_app p s : strip_prefix p (p +:+ s) = Some s.
Proof. by apply strip_prefix_Some. Qed.

Lemma starts_with_true p s : starts_with p s = true <-> exists t, s = p +:+ t.
Proof.
  unfold starts_with. destruct (strip_prefix p s) eqn:E.
  - apply strip_prefix_Some in E. naive_solver.
  - split; [done|]. intros [t ->]. by rewrite strip_prefix_app in E.
Qed.

Lemma split_once_Some c s l r : split_once c s = Some (l, r) -> s = l +:+ String c r.
Proof.
  revert l. induction s as [|a s IH]; cbn; intros l H; [done|].
  destruct (Ascii.eqb_spec a c) as [->|Hne].
  - by simplify_eq.
  - destruct (split_once c s) as [[l' r']|]; [|done]. simplify_eq. rewrite str_app_cons. by rewrite <- (IH l').
Qed.

Lemma rsplit_once_Some c s l r : rsplit_once c s = Some (l, r) -> s = l +:+ String c r /\ contains_char c r = false.
Proof.
  revert l. induction s as [|a s IH]; cbn; intros l H; [done|].
  destruct (rsplit_once c s) as [[l' r']|] eqn:E.
  - simplify_eq. rewrite str_app_cons. destruct (IH l' eq_refl) as [<- ?]. done.
  - destruct (Ascii.eqb_spec a c) as [->|]; [|done]. simplify_eq. split; [done|].
    clear IH. revert E. unfold contains_char. clear.
    induction r as [|b r IH']; cbn; [done|].
    destruct (rsplit_once c r) as [[??]|]; [done|].
    destruct (Ascii.eqb_spec b c) as [->|Hne]; [done|]. intros _.
    destruct (Ascii.eqb_spec c b); [congruence|]. by apply IH'.
Qed.

Lemma byte_val_of_N n : (n < 256)%N -> byte_val (Ascii.ascii_of_N n) = Z.of_N n.
Proof. intros H. unfold byte_val. by rewrite Ascii.N_ascii_embedding. Qed.

Lemma bytes_of_list l : bytes_of (String.string_of_list_ascii l) = l.
Proof. apply String.list_ascii_of_string_of_list_ascii. Qed.

Lemma bytes_of_inj s t : bytes_of s = bytes_of t -> s = t.
Proof.
  intros H. rewrite <- (String.string_of_list_ascii_of_string s), <- (String.string_of_list_ascii_of_string t).
  by f_equal.
Qed.

(** A property of bytes checked on all 256 of them. *)
(** *** Length prefixes *)
Lemma length_be_bytes n x : length (be_bytes n x) = n.
Proof. revert x. induction n as [|n IH]; intros x; cbn; [done|]. rewrite length_app, IH. cbn. lia. Qed.

Lemma be_bytes_inj n x y : 0 <= x < 256 ^ Z.of_nat n -> 0 <= y < 256 ^ Z.of_nat n -> be_bytes n x = be_bytes n y -> x = y.
Proof.
  revert x y. induction n as [|n IH]; intros x y Hx Hy; [cbn in *; lia|]. cbn [be_bytes].
  rewrite Nat2Z.inj_succ, Z.pow_succ_r in Hx, Hy by lia. intros H.
  apply app_inj_tail in H as [H1 H2].
  assert (Hm : x mod 256 = y mod 256).
  { pose proof (Z.mod_pos_bound x 256). pose proof (Z.mod_pos_bound y 256).
    assert (byte_val (Ascii.ascii_of_N (Z.to_N (x mod 256))) = byte_val (Ascii.ascii_of_N (Z.to_N (y mod 256)))) as Hb by by rewrite H2.
    rewrite !byte_val_of_N in Hb by lia. lia. }
  assert (Hd : x / 256 = y / 256).
  { apply IH; [| |done]; (split; [apply Z.div_pos; lia | apply Z.div_lt_upper_bound; lia]). }
  rewrite (Z.div_mod x 256), (Z.div_mod y 256), Hm, Hd; lia.
Qed.

(** Length-prefixed fields can be read back, whatever follows them. *)
Lemma length_prefixed_inj l1 l2 r1 r2 :
  length l1 = length l2 -> Forall (fun s => str_len s <= U64_MAX) l1 -> Forall (fun s => str_len s <= U64_MAX) l2 ->
  length_prefixed l1 ++ r1 = length_prefixed l2 ++ r2 -> l1 = l2 /\ r1 = r2.
Proof.
  revert l2. induction l1 as [|a l1 IH]; intros [|b l2] Hlen H1 H2 H; try done.
  apply Forall_cons in H1 as [Ha H1], H2 as [Hb H2]. unfold length_prefixed in H. cbn [map concat] in H.
  rewrite <- !app_assoc in H. apply app_inj_1 in H as [Hl H]; [|by rewrite !length_be_bytes].
  pose proof (str_len_nonneg a). pose proof (str_len_nonneg b). unfold U64_MAX in *.
  apply be_bytes_inj in Hl; [|cbn; lia..].
  apply app_inj_1 in H as [Hs H]; [|rewrite !length_bytes_of; unfold str_len in Hl; lia].
  apply bytes_of_inj in Hs as ->. by destruct (IH l2 ltac:(by injection Hlen) H1 H2 H) as [-> ->].
Qed.

Lemma ascii_all (P : Ascii.ascii -> bool) :
  forallb P (map Ascii.ascii_of_nat (seq 0 256)) = true -> forall c, P c = true.
Proof.
  intros H c. rewrite forallb_forall in H. apply H, in_map_iff.
  exists (Ascii.nat_of_ascii c). split; [apply Ascii.ascii_nat_embedding|].
  apply in_seq. pose proof (Ascii.nat_ascii_bounded c). lia.
Qed.

Ltac by_bytes c := generalize c; apply ascii_all; vm_compute; reflexivity.

Lemma contains_char_false c s :
  contains_char c s = false <-> Forall (fun d => Ascii.eqb c d = false) (bytes_of s).
Proof. apply existsb_false. Qed.

Lemma split_on_app c l r : contains_char c l = false -> split_on c (l +:+ String c r) = l :: split_on c r.
Proof.
  rewrite contains_char_false. induction l as [|a l IH]; intros H.
  - rewrite str_app_nil. cbn. by rewrite Ascii.eqb_refl.
  - change (bytes_of (String a l)) with (a :: bytes_of l) in H. apply Forall_cons in H as [Ha H].
    rewrite str_app_cons. cbn [split_on]. rewrite IH by done. by rewrite Ascii.eqb_sym, Ha.
Qed.

Lemma split_on_none c s : contains_char c s = false -> split_on c s = [s].
Proof.
  rewrite contains_char_false. induction s as [|a s IH]; intros H; [done|].
  change (bytes_of (String a s)) with (a :: bytes_of s) in H. apply Forall_cons in H as [Ha H].
  cbn [split_on]. rewrite IH by done. by rewrite Ascii.eqb_sym, Ha.
Qed.

(** Splitting distributes over concatenation at a separator, and joining inverts it. *)
Fixpoint join_on (c : Ascii.ascii) (ls : list string) : string :=
  match ls with
  | [] => EmptyString
  | [x] => x
  | x :: r => x +:+ String c (join_on c r)
  end.

Lemma split_on_nonempty c s : split_on c s <> [].
Proof. destruct s as [|a s]; cbn; [done|]. destruct (Ascii.eqb a c); [done|]. by destruct (split_on c s). Qed.

Lemma split_on_app_any c l r : split_on c (l +:+ String c r) = split_on c l ++ split_on c r.
Proof.
  induction l as [|a l IH]; [rewrite str_app_nil; cbn; by rewrite Ascii.eqb_refl|].
  rewrite str_app_cons. cbn [split_on]. rewrite IH. destruct (Ascii.eqb a c); [done|].
  destruct (split_on c l) eqn:E; [by apply split_on_nonempty in E | done].
Qed.

Lemma join_on_cons c x ls : ls <> [] -> join_on c (x :: ls) = x +:+ String c (join_on c ls).
Proof. by destruct ls. Qed.

Lemma join_split c s : join_on c (split_on c s) = s.
Proof.
  induction s as [|a s IH]; [done|]. cbn [split_on]. pose proof (split_on_nonempty c s) as Hne.
  destruct (Ascii.eqb_spec a c) as [->|_].
  - rewrite join_on_cons, IH by done. by rewrite str_app_nil.
  - destruct (split_on c s) as [|p ps]; [done|]. destruct ps; cbn [join_on] in *; [by rewrite IH|].
    rewrite str_app_cons. by rewrite IH.
Qed.

Lemma split_on_inj c s t : split_on c s = split_on c t -> s = t.
Proof. intros H. by rewrite <- (join_split c s), <- (join_split c t), H. Qed.

Lemma str_app_assoc (a b c : string) : (a +:+ b) +:+ c = a +:+ (b +:+ c).
Proof. apply bytes_of_inj. by rewrite !bytes_of_app, app_assoc. Qed.

Lemma join_on_app c l r : l <> [] -> r <> [] -> join_on c (l ++ r) = join_on c l +:+ String c (join_on c r).
Proof.
  intros Hl Hr. induction l as [|x l IH]; [done|]. destruct l as [|y l].
  - by apply join_on_cons.
  - change ((x :: y :: l) ++ r) with (x :: ((y :: l) ++ r)). rewrite join_on_cons, IH by done.
    rewrite (join_on_cons c x (y :: l)) by done. by rewrite str_app_assoc.
Qed.

Lemma split_on_alphabet c (P : Ascii.ascii -> Prop) s l :
  Forall P (bytes_of s) -> l ∈ split_on c s -> Forall P (bytes_of l).
Proof.
  revert l. induction s as [|a s IH]; intros l Hs Hl; [set_solver|].
  change (bytes_of (String a s)) with (a :: bytes_of s) in Hs. apply Forall_cons in Hs as [Ha Hs].
  cbn [split_on] in Hl. destruct (Ascii.eqb a c); [apply elem_of_cons in Hl as [->|Hl]; [by constructor | eauto]|].
  pose proof (split_on_nonempty c s). destruct (split_on c s) as [|p ps]; [done|].
  apply elem_of_cons in Hl as [->|Hl]; [|apply IH; set_solver].
  change (bytes_of (String a p)) with (a :: bytes_of p). constructor; [done | apply IH; set_solver].
Qed.

Lemma ends_with_true p s : ends_with p s = true <-> exists t, s = t +:+ p.
Proof.
  unfold ends_with, string_rev. rewrite starts_with_true. split; intros [t Ht].
  - exists (string_rev t). apply (f_equal bytes_of) in Ht. rewrite bytes_of_app, !bytes_of_list in Ht.
    apply bytes_of_inj. rewrite bytes_of_app. unfold string_rev. rewrite bytes_of_list.
    apply (f_equal (@rev _)) in Ht. by rewrite rev_app_distr, !rev_involutive in Ht.
  - subst s. exists (string_rev t). apply bytes_of_inj. unfold string_rev.
    by rewrite bytes_of_app, !bytes_of_list, !bytes_of_app, rev_app_distr, ?bytes_of_list.
Qed.

Lemma digit_char_val d : 0 <= d < 10 -> byte_val (digit_char d) = 48 + d.
Proof. intros H. unfold digit_char. rewrite byte_val_of_N; lia. Qed.

Lemma digit_char_digit d : 0 <= d < 10 -> is_ascii_digit (digit_char d) = true.
Proof. intros H. unfold is_ascii_digit. rewrite digit_char_val by done. lia. Qed.

Lemma dec_digits_digits fuel n :
  0 <= n -> Forall (fun c => is_ascii_digit c = true) (dec_digits fuel n).
Proof.
  revert n. induction fuel as [|fuel IH]; intros n Hn; cbn; [done|].
  destruct (Z.ltb_spec n 10).
  - constructor; [apply digit_char_digit; lia | done].
  - apply Forall_app. split; [apply IH; apply Z.div_pos; lia|].
    constructor; [apply digit_char_digit, Z.mod_pos_bound; lia | done].
Qed.

Lemma parse_digits_app acc max l1 l2 :
  parse_digits acc max (l1 ++ l2) = parse_digits acc max l1 ≫= fun a => parse_digits a max l2.
Proof.
  revert acc. induction l1 as [|c l1 IH]; intros acc; cbn; [done|].
  destruct (is_ascii_digit c); [|done]. case_match; [apply IH | done].
Qed.

Lemma parse_dec_digits fuel n max :
  0 <= n <= max -> n < 10 ^ Z.of_nat fuel -> (0 < fuel)%nat ->
  parse_digits 0 max (dec_digits fuel n) = Some n.
Proof.
  revert n. induction fuel as [|fuel IH]; intros n Hn Hf Hpos; [lia|]. cbn [dec_digits].
  destruct (Z.ltb_spec n 10).
  - cbn [parse_digits]. rewrite digit_char_digit, digit_char_val by lia. cbv zeta.
    replace (0 * 10 + (48 + n - 48)) with n by lia. by rewrite (proj2 (Z.leb_le n max)) by lia.
  - rewrite Nat2Z.inj_succ, Z.pow_succ_r in Hf by lia.
    pose proof (Z.div_mod n 10 ltac:(lia)). pose proof (Z.mod_pos_bound n 10 ltac:(lia)).
    assert (n / 10 < 10 ^ Z.of_nat fuel) by (apply Z.div_lt_upper_bound; lia).
    assert (1 <= n / 10) by (apply Z.div_le_lower_bound; lia).
    assert ((0 < fuel)%nat) by (destruct fuel; [cbn in *; lia | lia]).
    rewrite parse_digits_app, IH by lia. cbn [mbind option_bind parse_digits].
    rewrite digit_char_digit, digit_char_val by lia. cbv zeta.
    replace (n / 10 * 10 + (48 + n mod 10 - 48)) with n by lia. by rewrite (proj2 (Z.leb_le n max)) by lia.
Qed.

Lemma dec_digits_cons fuel n : (0 < fuel)%nat -> exists c l, dec_digits fuel n = c :: l.
Proof.
  revert n. induction fuel as [|fuel IH]; intros n H; [lia|]. cbn. case_match; [by eexists _, _|].
  destruct fuel; [by eexists _, _|]. destruct (IH (n / 10)) as (c & l & ->); [lia|]. by eexists _, _.
Qed.

(** Decimal printing and parsing are inverse within the width. *)
Lemma parse_print_uint n max : 0 <= n <= max -> n <= U64_MAX -> parse_uint max (print_uint n) = Some n.
Proof.
  intros Hn Hw. unfold parse_uint, print_uint. rewrite bytes_of_list.
  pose proof (dec_digits_digits 20 n ltac:(lia)) as Hd.
  pose proof (parse_dec_digits 20 n max Hn ltac:(unfold U64_MAX in *; cbn; lia) ltac:(lia)) as Hp.
  destruct (dec_digits_cons 20 n) as (c & l & E); [lia|]. rewrite E in *.
  apply Forall_cons in Hd as [Hc _].
  destruct (Ascii.eqb_spec c "+"%char) as [->|]; [done | exact Hp].
Qed.

(** Running the state-and-error monad on a state. *)
Lemma M_bind_run {S E A B} (m : M S E A) (f : A -> M S E B) s :
  (m ≫= f) s = match m s with (Ok a, s') => f a s' | (Err e, s') => (Err e, s') end.
Proof. done. Qed.
Lemma M_ret_run {S E A} (a : A) (s : S) : (mret a : M S E A) s = (Ok a, s).
Proof. done. Qed.
Lemma get_run {S E} (s : S) : (get : M S E S) s = (Ok s, s).
Proof. done. Qed.
Lemma throw_run {S E A} (e : E) (s : S) : (throw e : M S E A) s = (Err e, s).
Proof. done. Qed.
Lemma lift_run {S E A} (r : result E A) (s : S) : (lift r : M S E A) s = (r, s).
Proof. done. Qed.

(** ** Automation *)

(** Unfold one layer of the two monads and case-split every [match]. *)
Ltac run_step :=
  unfold mbind, mret, M_bind, M_ret, result_bind, result_ret, get, put, modify, throw, lift, ensure in *.
Ltac run_cases := run_step; repeat (case_match; simplify_eq/=); try done.

(** Turn boolean tests in the context into propositions. *)
Ltac bool_hyps :=
  repeat match goal with
    | H : (_ && _) = true |- _ => apply andb_true_iff in H; destruct H
    | H : (_ || _) = false |- _ => apply orb_false_iff in H; destruct H
    | H : (negb _) = true |- _ => apply negb_true_iff in H
    | H : (negb _) = false |- _ => apply negb_false_iff in H
    | H : str_eqb _ _ = true |- _ => apply str_eqb_eq in H
    | H : str_eqb _ _ = false |- _ => apply str_eqb_neq in H
    | H : bool_decide _ = true |- _ => apply bool_decide_eq_true in H
    | H : bool_decide _ = false |- _ => apply bool_decide_eq_false in H
    | H : (_ <=? _) = true |- _ => apply Z.leb_le in H
    | H : (_ <=? _) = false |- _ => apply Z.leb_gt in H
    | H : (_ <? _) = true |- _ => apply Z.ltb_lt in H
    | H : (_ <? _) = false |- _ => apply Z.ltb_ge in H
    | H : (_ =? _) = true |- _ => apply Z.eqb_eq in H
    | H : (_ =? _) = false |- _ => apply Z.eqb_neq in H
    end.

Create HintDb hands.
#[export] Hint Resolve len_nonneg str_len_nonneg map_sum_nonneg : hands.
Create Rewrite HintDb hands_rw.
#[export] Hint Rewrite @map_sum_empty str_eqb_refl : hands_rw.
#[export] Hint Rewrite @map_sum_insert_new @map_sum_insert_over using done : hands_rw.
