(* ===== verification/Policy.v ===== *)
(** * hand-policy: the vocabulary every other crate validates against

    Models crates/hand-policy/src: the identifier, digest and token grammars (identity.rs), the
    secret newtypes (secret.rs), the connector classes (connector.rs) and the tool environment
    policy (guest_env.rs). Brain's protocol constants and the canonical JSON encoder live outside the
    repository and are section variables. *)
From S2P Require Import Prelude.

(** One bound for every boundary that moves whole objects (lib.rs). *)
Definition MAX_OBJECT_BYTES : Z := 512 * 1024 * 1024.

(** ** Identifier grammar (identity.rs) *)
Inductive IdentityError := mkIdentityError (field : string).

Definition identifier_tail_char (ch : Ascii.ascii) : bool :=
  is_ascii_alphanumeric ch || Ascii.eqb ch "."%char || Ascii.eqb ch "_"%char
  || Ascii.eqb ch ":"%char || Ascii.eqb ch "-"%char.

Definition validate_identifier (value field : string) : result IdentityError unit :=
  match bytes_of value with
  | [] => Err (mkIdentityError field)
  | first :: rest =>
      if (128 <? str_len value) || negb (is_ascii value) || negb (is_ascii_alphanumeric first)
         || existsb (fun ch => negb (identifier_tail_char ch)) rest
      then Err (mkIdentityError field)
      else Ok tt
  end.

(** [byte.is_ascii_digit() || (b'a'..=b'f').contains(&byte)] *)
Definition is_lower_hex (c : Ascii.ascii) : bool :=
  is_ascii_digit c || ((97 <=? byte_val c) && (byte_val c <=? 102)).

Definition validate_digest (value field : string) : result IdentityError unit :=
  if negb (str_len value =? 64) || negb (forallb is_lower_hex (bytes_of value))
  then Err (mkIdentityError field)
  else Ok tt.

Definition validate_bounded_token (value field : string) (max : Z) : result IdentityError unit :=
  if (str_len value =? 0) || (max <? str_len value) || negb (is_ascii value)
     || existsb is_whitespace (chars value)
  then Err (mkIdentityError field)
  else Ok tt.

(** ** Connector classes (connector.rs) *)
Inductive ConnectorClass := ConnNone | ConnPublic | ConnAllowlist.

#[global] Instance ConnectorClass_eq_dec : EqDecision ConnectorClass.
Proof. solve_decision. Defined.

(** ** Secret newtypes (secret.rs) *)
Definition MAX_DURABLE_LAUNCH_REQUEST_BYTES : Z := 64 * 1024.
Definition CONTROL_TOKEN_PREFIX : string := "control-".
Definition CONTROL_TOKEN_HEX_BYTES : Z := 32.

Inductive SecretError := InvalidControlToken | InvalidLaunchRequest.

Record ControlToken := mkControlToken { ct_expose : string }.
Record DurableLaunchRequest := mkDurableLaunchRequest { dlr_expose : string }.

#[global] Instance ControlToken_eq_dec : EqDecision ControlToken.
Proof. solve_decision. Defined.
#[global] Instance DurableLaunchRequest_eq_dec : EqDecision DurableLaunchRequest.
Proof. solve_decision. Defined.

Definition ControlToken_new (value : string) : result SecretError ControlToken :=
  match strip_prefix CONTROL_TOKEN_PREFIX value with
  | None => Err InvalidControlToken
  | Some hex =>
      if negb (str_len hex =? CONTROL_TOKEN_HEX_BYTES * 2) || negb (forallb is_lower_hex (bytes_of hex))
      then Err InvalidControlToken
      else Ok (mkControlToken value)
  end.

Definition launch_request_in_bounds (value : string) : bool :=
  negb ((str_len value =? 0) || (MAX_DURABLE_LAUNCH_REQUEST_BYTES <? str_len value)).

Definition DurableLaunchRequest_new (value : string) : result SecretError DurableLaunchRequest :=
  if launch_request_in_bounds value then Ok (mkDurableLaunchRequest value) else Err InvalidLaunchRequest.

Definition DurableLaunchRequest_validate (r : DurableLaunchRequest) : result SecretError unit :=
  if launch_request_in_bounds (dlr_expose r) then Ok tt else Err InvalidLaunchRequest.

(** ** Tool environment policy (guest_env.rs) *)
Definition RESERVED_TOOL_NAMES : list string :=
  [ "PATH"; "HOME"; "USER"; "LOGNAME"; "LANG"; "TERM"; "CI"; "IFS"; "ENV"; "BASH_ENV"; "SHELLOPTS";
    "PS4"; "NODE_OPTIONS"; "NODE_PATH"; "NODE_REPL_EXTERNAL_MODULE"; "HTTP_PROXY"; "HTTPS_PROXY";
    "ALL_PROXY"; "NO_PROXY"; "GIT_TERMINAL_PROMPT"; "CARGO_HOME"; "RUSTUP_HOME"; "GOPATH";
    "GOMODCACHE"; "NPM_CONFIG_PREFIX"; "NPM_CONFIG_CACHE"; "PIP_CACHE_DIR"; "PIPX_HOME";
    "PIPX_BIN_DIR"; "UV_CACHE_DIR"; "GCONV_PATH"; "LOCPATH"; "NLSPATH"; "OPENSSL_CONF";
    "OPENSSL_MODULES"; "SSLKEYLOGFILE" ].

Definition reserved_tool_environment (name : string) : bool :=
  let name := to_ascii_uppercase name in
  starts_with "LD_" name || starts_with "HAND_" name || starts_with "AEX_" name
  || existsb (str_eqb name) RESERVED_TOOL_NAMES.

Inductive SecretMaterialError :=
  | TooManyNames | NamesValuesMismatch | InvalidName | InvalidValue | DocumentTooLarge.

Section guest_env.
(** Brain's custody bounds and the canonical (JCS) encoder of the value map. *)
Context (MAX_SESSION_SECRET_NAME_BYTES MAX_SESSION_SECRET_NAMES : Z).
Context (MAX_SESSION_SECRET_VALUE_UTF8_BYTES MAX_SESSION_SECRET_DOCUMENT_BYTES : Z).
Context (jcs_values : gmap string string -> option string).

Definition environment_name_is_valid (name : string) : bool :=
  match bytes_of name with
  | [] => false
  | first :: rest =>
      (str_len name <=? MAX_SESSION_SECRET_NAME_BYTES)
      && (is_ascii_alphabetic first || Ascii.eqb first "_"%char)
      && forallb (fun b => is_ascii_alphanumeric b || Ascii.eqb b "_"%char) rest
  end.

(** The loop over [env_names], with the names already seen. *)
Fixpoint check_names (prior names : list string) (values : gmap string string)
    : result SecretMaterialError unit :=
  match names with
  | [] => Ok tt
  | name :: names =>
      _ ← ensure (environment_name_is_valid name) InvalidName;
      _ ← ensure (negb (existsb (str_eqb name) prior || negb (bool_decide (is_Some (values !! name)))))
            NamesValuesMismatch;
      check_names (prior ++ [name]) names values
  end.

Definition secret_value_is_bad (value : string) : bool :=
  (MAX_SESSION_SECRET_VALUE_UTF8_BYTES <? str_len value) || contains_char "000"%char value.

Definition secret_material_fits (env_names : list string) (values : gmap string string)
    : result SecretMaterialError unit :=
  _ ← ensure (negb (MAX_SESSION_SECRET_NAMES <? len env_names)) TooManyNames;
  _ ← ensure (Z.of_nat (size values) =? len env_names) NamesValuesMismatch;
  _ ← check_names [] env_names values;
  _ ← ensure (negb (existsb secret_value_is_bad (map_values values))) InvalidValue;
  match jcs_values values with
  | None => Err DocumentTooLarge
  | Some canonical => ensure (str_len canonical <=? MAX_SESSION_SECRET_DOCUMENT_BYTES) DocumentTooLarge
  end.
End guest_env.

(** ** Shared facts about the grammars *)

(** What an accepted identifier looks like, byte by byte. *)
Definition identifier (value : string) : Prop :=
  1 <= str_len value <= 128
  /\ is_ascii value = true
  /\ exists first rest, bytes_of value = first :: rest
      /\ is_ascii_alphanumeric first = true
      /\ Forall (fun c => identifier_tail_char c = true) rest.

Definition hex_digest (value : string) : Prop :=
  str_len value = 64 /\ Forall (fun c => is_lower_hex c = true) (bytes_of value).

Lemma alnum_tail c : is_ascii_alphanumeric c = true -> identifier_tail_char c = true.
Proof. unfold identifier_tail_char. by intros ->. Qed.

Lemma validate_identifier_Ok value field :
  validate_identifier value field = Ok tt <-> identifier value.
Proof.
  unfold validate_identifier, identifier, str_len.
  rewrite <- length_bytes_of.
  destruct (bytes_of value) as [|first rest] eqn:E.
  { split; [done|]. intros (_ & _ & ? & ? & ? & _). done. }
  case_match eqn:G; split; intros H; try done.
  - exfalso. destruct H as (? & Ha & f & r & [= <- <-] & Hf & Hr).
    apply existsb_negb_false in Hr. rewrite Ha, Hf, Hr in G. cbn in G.
    rewrite !orb_false_r in G. bool_hyps. cbn [length] in *. lia.
  - bool_hyps. split; [cbn [length] in *; lia|]. split; [done|].
    exists first, rest. repeat split; try done. by apply existsb_negb_false.
Qed.

Lemma validate_digest_Ok value field :
  validate_digest value field = Ok tt <-> hex_digest value.
Proof.
  unfold validate_digest, hex_digest. rewrite <- forallb_Forall_true.
  case_match eqn:G; split; intros H; try done.
  - destruct H as [Hl Hf]. rewrite Hl, Hf in G. done.
  - bool_hyps. done.
Qed.

Lemma validate_identifier_field value f g e :
  validate_identifier value f = Err e -> validate_identifier value g = Err (mkIdentityError g).
Proof. unfold validate_identifier. repeat case_match; naive_solver. Qed.

Lemma is_ascii_app a b : is_ascii (a +:+ b) = is_ascii a && is_ascii b.
Proof. unfold is_ascii. by rewrite bytes_of_app, forallb_app. Qed.

(** An identifier can be extended by tail characters as long as it stays within 128 bytes. *)
Lemma identifier_app p v :
  identifier p -> is_ascii v = true -> Forall (fun c => identifier_tail_char c = true) (bytes_of v) ->
  str_len p + str_len v <= 128 -> identifier (p +:+ v).
Proof.
  intros (Hl & Ha & f & r & Hp & Hf & Hr) Hav Hv Hlen.
  split; [rewrite str_len_app; pose proof (str_len_nonneg v); lia|].
  split; [by rewrite is_ascii_app, Ha, Hav|].
  exists f, (r ++ bytes_of v). rewrite bytes_of_app, Hp. repeat split; [done|].
  by apply Forall_app.
Qed.

Lemma identifier_tail v :
  identifier v -> is_ascii v = true /\ Forall (fun c => identifier_tail_char c = true) (bytes_of v).
Proof.
  intros (_ & Ha & f & r & Hp & Hf & Hr). split; [done|]. rewrite Hp.
  constructor; [by apply alnum_tail | done].
Qed.

#[export] Hint Resolve alnum_tail : hands.

(** Sample digests for the witnesses. *)
Definition digest_a : string := String.string_of_list_ascii (repeat "a"%char 64).
Definition digest_b : string := String.string_of_list_ascii (repeat "b"%char 64).

Lemma digest_a_hex : hex_digest digest_a.
Proof. by apply (validate_digest_Ok _ ""). Qed.
Lemma digest_b_hex : hex_digest digest_b.
Proof. by apply (validate_digest_Ok _ ""). Qed.
#[export] Hint Resolve digest_a_hex digest_b_hex : hands.

(** ** Properties of the environment policy *)
Section guest_env_facts.
Context (NB : Z).

Lemma check_names_Ok prior names values :
  check_names NB prior names values = Ok tt <->
  Forall (fun n => environment_name_is_valid NB n = true /\ n ∉ prior /\ is_Some (values !! n)) names
  /\ NoDup names.
Proof.
  revert prior. induction names as [|n names IH]; intros prior; cbn.
  { split; [intros _; split; constructor | done]. }
  destruct (environment_name_is_valid NB n) eqn:Hv; cbn.
  2:{ split; [done|]. intros [H _]. apply Forall_cons in H as [[? _] _]. congruence. }
  pose proof (existsb_str_eqb n prior) as Hprior.
  destruct (existsb (str_eqb n) prior) eqn:Hp; cbn.
  { split; [done|]. intros [H _]. apply Forall_cons in H as [(_ & H & _) _].
    by destruct H; apply Hprior. }
  destruct (bool_decide (is_Some (values !! n))) eqn:Hs; cbn.
  2:{ split; [done|]. bool_hyps. intros [H _]. by apply Forall_cons in H as [(_ & _ & H) _]. }
  bool_hyps. rewrite IH, Forall_cons, NoDup_cons.
  assert (n ∉ prior) by (rewrite <- Hprior; done).
  rewrite !Forall_forall. setoid_rewrite elem_of_app. setoid_rewrite list_elem_of_singleton.
  split.
  - intros [H1 H2]. repeat split; try done; naive_solver.
  - intros [[_ H1] [H2 H3]]. split; [|done]. intros x Hx. destruct (H1 x Hx) as (? & ? & ?).
    repeat split; try done. intros [? | -> ]; naive_solver.
Qed.

(** Equal sizes and distinct names leave no undeclared value: the pigeonhole the length test relies on. *)
Lemma names_cover_values names (values : gmap string string) :
  NoDup names -> Forall (fun n => is_Some (values !! n)) names -> size values = length names ->
  dom values = list_to_set names.
Proof.
  intros Hnd Hin Hsz. symmetry. apply set_eq.
  intros x. split; [rewrite elem_of_list_to_set; intros Hx|].
  - apply elem_of_dom. rewrite Forall_forall in Hin. by apply Hin.
  - assert (Hsub : (list_to_set names : gset string) ⊆ dom values).
    { intros y. rewrite elem_of_list_to_set, elem_of_dom. rewrite Forall_forall in Hin. auto. }
    assert (Heq : (list_to_set names : gset string) ≡ dom values).
    { apply set_subseteq_size_equiv; [done|]. rewrite size_dom, size_list_to_set by done. lia. }
    by rewrite Heq.
Qed.
End guest_env_facts.

(** [secret_material_fits] accepts a secret document exactly when the declared names are distinct
    valid environment names, they are the keys of the value map and no others, every value is within
    its bound and free of NUL, and the canonical document is within the custody bound. *)
Theorem secret_material_fits_exact NB NN VB DB jcs names (values : gmap string string) :
  secret_material_fits NB NN VB DB jcs names values = Ok tt <->
  NoDup names
  /\ dom values = list_to_set names
  /\ len names <= NN
  /\ Forall (fun n => environment_name_is_valid NB n = true) names
  /\ map_Forall (fun _ v => str_len v <= VB /\ contains_char "000"%char v = false) values
  /\ exists canonical, jcs values = Some canonical /\ str_len canonical <= DB.
Proof.
  unfold secret_material_fits.
  assert (Hbad : existsb (secret_value_is_bad VB) (map_values values) = false <->
    map_Forall (fun _ v => str_len v <= VB /\ contains_char "000"%char v = false) values).
  { rewrite map_values_any. unfold secret_value_is_bad.
    unfold map_Forall. setoid_rewrite orb_false_iff. by setoid_rewrite Z.ltb_ge. }
  rewrite result_bind_Ok. split.
  - intros ([] & ?%ensure_Ok & H). bool_hyps.
    apply result_bind_Ok in H as ([] & ?%ensure_Ok & H). bool_hyps.
    apply result_bind_Ok in H as ([] & [Hn Hnd]%check_names_Ok & H).
    apply result_bind_Ok in H as ([] & ?%ensure_Ok & H). bool_hyps.
    assert (Hin : Forall (fun n => is_Some (values !! n)) names) by (eapply Forall_impl; [exact Hn|]; by intros ? (_ & _ & ?)).
    assert (Hlen : size values = length names) by (unfold len in *; lia).
    split; [done|]. split; [by apply names_cover_values|]. split; [lia|].
    split; [eapply Forall_impl; [exact Hn|]; by intros ? (? & _)|]. split; [by apply Hbad|].
    destruct (jcs values) as [c|]; [|done]. apply ensure_Ok in H. bool_hyps. by exists c.
  - intros (Hnd & Hdom & Hlen & Hv & Hvals & c & Hc & Hcl). exists tt.
    split; [apply ensure_Ok; lia|].
    assert (Hsz : size values = length names).
    { by rewrite <- size_dom, Hdom, size_list_to_set. }
    apply result_bind_Ok. exists tt. split; [apply ensure_Ok; unfold len; lia|].
    apply result_bind_Ok. exists tt. split.
    { apply check_names_Ok. split; [|done]. apply Forall_forall. intros n Hn.
      rewrite Forall_forall in Hv. repeat split; [by apply Hv | apply not_elem_of_nil |].
      apply elem_of_dom. rewrite Hdom. by apply elem_of_list_to_set. }
    apply result_bind_Ok. exists tt. split.
    { apply ensure_Ok. apply negb_true_iff. by apply Hbad. }
    rewrite Hc. apply ensure_Ok. lia.
Qed.
