(* ===== verification/Operation.v ===== *)
(** * hand-core operation registry

    Models crates/hand-core/src/operation.rs: reservation, deduplication and terminal-result
    retention for effectful operations. [OperationRegistry] is the detailed state with its two byte
    counters; [Ledger] is the contract it promises, a map of records and one capacity rule with no
    counter at all. *)
From S2P Require Import Prelude Policy.

(** ** Data *)
Inductive OperationState :=
  | Accepted
  | Running
  | Terminal (terminal_digest : string) (payload : string).

#[global] Instance OperationState_eq_dec : EqDecision OperationState.
Proof. solve_decision. Defined.

Record OperationRecord := mkOperationRecord {
  operation_id : string;
  request_digest : string;
  retention_reservation_bytes : Z;
  state : OperationState;
  cancel_requested : bool;
}.

#[global] Instance OperationRecord_eq_dec : EqDecision OperationRecord.
Proof. solve_decision. Defined.

Inductive Reservation := RNew | RExisting.

#[global] Instance Reservation_eq_dec : EqDecision Reservation.
Proof. solve_decision. Defined.

Inductive OperationError :=
  | InvalidIdentity (field : string)
  | IdempotencyConflict
  | Capacity
  | Unknown
  | AlreadyTerminal
  | TerminalConflict
  | TerminalCapacity
  | NotTerminal
  | TerminalDigestMismatch.

#[global] Instance OperationError_eq_dec : EqDecision OperationError.
Proof. solve_decision. Defined.

Record OperationRegistry := mkOperationRegistry {
  records : gmap string OperationRecord;
  max_records : Z;
  max_terminal_bytes : Z;
  terminal_bytes : Z;
  pending_reserved_bytes : Z;
}.

Definition registry_new (max_records max_terminal_bytes : Z) : OperationRegistry :=
  mkOperationRegistry ∅ max_records max_terminal_bytes 0 0.

(** Field updates through [&mut self]. *)
Definition set_records (m : gmap string OperationRecord) (g : OperationRegistry) : OperationRegistry :=
  mkOperationRegistry m (max_records g) (max_terminal_bytes g) (terminal_bytes g) (pending_reserved_bytes g).
Definition set_terminal_bytes (b : Z) (g : OperationRegistry) : OperationRegistry :=
  mkOperationRegistry (records g) (max_records g) (max_terminal_bytes g) b (pending_reserved_bytes g).
Definition set_pending (b : Z) (g : OperationRegistry) : OperationRegistry :=
  mkOperationRegistry (records g) (max_records g) (max_terminal_bytes g) (terminal_bytes g) b.

Definition with_state (s : OperationState) (r : OperationRecord) : OperationRecord :=
  mkOperationRecord (operation_id r) (request_digest r) (retention_reservation_bytes r) s (cancel_requested r).
Definition with_cancel (r : OperationRecord) : OperationRecord :=
  mkOperationRecord (operation_id r) (request_digest r) (retention_reservation_bytes r) (state r) true.
Definition with_terminal (d payload : string) (r : OperationRecord) : OperationRecord :=
  mkOperationRecord (operation_id r) (request_digest r) (str_len payload) (Terminal d payload) (cancel_requested r).

Definition is_terminal (s : OperationState) : bool := match s with Terminal _ _ => true | _ => false end.

(** ** Operations *)
Definition op_validate_identifier (value field : string) : result OperationError unit :=
  map_err (fun '(mkIdentityError f) => InvalidIdentity f) (validate_identifier value field).
Definition op_validate_digest (value field : string) : result OperationError unit :=
  map_err (fun '(mkIdentityError f) => InvalidIdentity f) (validate_digest value field).

Notation Op := (M OperationRegistry OperationError).

Definition reserve (id digest : string) (bytes : Z) : Op Reservation :=
  _ ← lift (op_validate_identifier id "operation_id");
  _ ← lift (op_validate_digest digest "request_digest");
  g ← get;
  match records g !! id with
  | Some existing =>
      if str_eqb (request_digest existing) digest then mret RExisting else throw IdempotencyConflict
  | None =>
      retained ← lift (ok_or Capacity
        (checked_add (terminal_bytes g) (pending_reserved_bytes g) ≫= fun b => checked_add b bytes));
      if (bytes =? 0) || (max_records g <=? Z.of_nat (size (records g))) || (max_terminal_bytes g <? retained)
      then throw Capacity
      else
        pending ← lift (ok_or Capacity (checked_add (pending_reserved_bytes g) bytes));
        _ ← modify (set_pending pending);
        _ ← modify (fun g => set_records (<[id := mkOperationRecord id digest bytes Accepted false]> (records g)) g);
        mret RNew
  end.

Definition mark_running (id : string) : Op unit :=
  g ← get;
  record ← lift (ok_or Unknown (records g !! id));
  match state record with
  | Accepted => modify (fun g => set_records (<[id := with_state Running record]> (records g)) g)
  | Running => mret tt
  | Terminal _ _ => throw AlreadyTerminal
  end.

Definition complete (id digest payload : string) : Op unit :=
  _ ← lift (op_validate_digest digest "terminal_digest");
  g ← get;
  record ← lift (ok_or Unknown (records g !! id));
  match state record with
  | Terminal d p => if str_eqb d digest && str_eqb p payload then mret tt else throw TerminalConflict
  | Accepted | Running =>
      if retention_reservation_bytes record <? str_len payload then throw TerminalCapacity
      else
        _ ← modify (set_pending (saturating_sub (pending_reserved_bytes g) (retention_reservation_bytes record)));
        terminal ← lift (ok_or TerminalCapacity (checked_add (terminal_bytes g) (str_len payload)));
        _ ← modify (set_terminal_bytes terminal);
        modify (fun g => set_records (<[id := with_terminal digest payload record]> (records g)) g)
  end.

Definition request_cancel (id : string) : Op bool :=
  g ← get;
  record ← lift (ok_or Unknown (records g !! id));
  if is_terminal (state record) then mret false
  else
    _ ← modify (fun g => set_records (<[id := with_cancel record]> (records g)) g);
    mret (negb (cancel_requested record)).

Definition observe (id : string) (g : OperationRegistry) : option OperationRecord := records g !! id.

Definition validate_terminal_ack (id digest : string) (g : OperationRegistry) : result OperationError unit :=
  _ ← op_validate_identifier id "operation_id";
  _ ← op_validate_digest digest "terminal_digest";
  record ← ok_or Unknown (records g !! id);
  match state record with
  | Terminal d _ => if str_eqb d digest then Ok tt else Err TerminalDigestMismatch
  | Accepted | Running => Err NotTerminal
  end.

(** The [unreachable!] arm, and indexing a missing key, are excluded by the check that precedes them;
    they are modelled as no release. *)
Definition acknowledge_terminal (id digest : string) : Op unit :=
  g ← get;
  _ ← lift (validate_terminal_ack id digest g);
  let bytes := match records g !! id with
               | Some r => match state r with Terminal _ p => str_len p | _ => 0 end
               | None => 0
               end in
  _ ← modify (fun g => set_records (delete id (records g)) g);
  modify (fun g => set_terminal_bytes (saturating_sub (terminal_bytes g) bytes) g).

Definition registry_len (g : OperationRegistry) : Z := Z.of_nat (size (records g)).

(** ** What the calls do to the set of records *)
Lemma reserve_records id d b g r g' :
  reserve id d b g = (r, g') ->
  (r = Ok RNew /\ records g !! id = None /\ dom (records g') = {[id]} ∪ dom (records g))
  \/ (r <> Ok RNew /\ records g' = records g).
Proof.
  unfold reserve. rewrite M_bind_run, lift_run. destruct (op_validate_identifier id _) as [[]|]; [|intros [= <- <-]; by right].
  rewrite M_bind_run, lift_run. destruct (op_validate_digest d _) as [[]|]; [|intros [= <- <-]; by right].
  rewrite M_bind_run, get_run. destruct (records g !! id) as [e|] eqn:He.
  { destruct (str_eqb _ _); intros [= <- <-]; by right. }
  rewrite M_bind_run, lift_run. destruct (ok_or _ (_ ≫= _)) as [retained|]; [|intros [= <- <-]; by right].
  destruct (_ || _); [intros [= <- <-]; by right|]. rewrite M_bind_run, lift_run.
  destruct (ok_or _ _) as [pending|]; [|intros [= <- <-]; by right].
  rewrite M_bind_run. cbn [modify]. rewrite M_bind_run. cbn. intros [= <- <-]. left. cbn. by rewrite dom_insert_L.
Qed.

(** Updating a record leaves the set of identifiers alone. *)
Lemma update_dom id (r r' : OperationRecord) (m : gmap string OperationRecord) : m !! id = Some r -> dom (<[id := r']> m) = dom m.
Proof. intros H. apply dom_insert_lookup_L. by eexists. Qed.

Lemma mark_running_dom id g : dom (records (mark_running id g).2) = dom (records g).
Proof.
  unfold mark_running. rewrite M_bind_run, get_run, M_bind_run, lift_run.
  destruct (records g !! id) as [r|] eqn:Hr; [|done]. cbn. destruct (state r); try done. cbn. by eapply update_dom.
Qed.

Lemma complete_dom id d p g : dom (records (complete id d p g).2) = dom (records g).
Proof.
  unfold complete. rewrite M_bind_run, lift_run. destruct (op_validate_digest d _); [|done].
  rewrite M_bind_run, get_run, M_bind_run, lift_run. destruct (records g !! id) as [r|] eqn:Hr; [|done]. cbn [ok_or].
  assert (Hrun : forall r', dom (<[id := r']> (records g)) = dom (records g)) by (intros; by eapply update_dom).
  destruct (state r); [| |by destruct (_ && _)]; (destruct (_ <? _); [done|]);
    rewrite M_bind_run; cbn [modify]; rewrite M_bind_run, lift_run; destruct (ok_or _ _); [|done| |done];
    rewrite M_bind_run; cbn; apply Hrun.
Qed.

Lemma request_cancel_dom id g : dom (records (request_cancel id g).2) = dom (records g).
Proof.
  unfold request_cancel. rewrite M_bind_run, get_run, M_bind_run, lift_run.
  destruct (records g !! id) as [r|] eqn:Hr; [|done]. cbn. destruct (is_terminal _); [done|]. cbn. by eapply update_dom.
Qed.

Lemma acknowledge_terminal_records id d g r g' :
  acknowledge_terminal id d g = (r, g') -> records g' = if is_ok r then delete id (records g) else records g.
Proof.
  unfold acknowledge_terminal. rewrite M_bind_run, get_run, M_bind_run, lift_run.
  destruct (validate_terminal_ack id d g); [|by intros [= <- <-]]. rewrite M_bind_run. cbn. by intros [= <- <-].
Qed.

(** A terminal record is the same after every call but its acknowledgement. *)
Lemma reserve_keeps id' d b g id r : records g !! id = Some r -> records (reserve id' d b g).2 !! id = Some r.
Proof.
  intros Hr. unfold reserve. rewrite M_bind_run, lift_run. destruct (op_validate_identifier id' _); [|done].
  rewrite M_bind_run, lift_run. destruct (op_validate_digest d _); [|done]. rewrite M_bind_run, get_run.
  destruct (records g !! id') as [e|] eqn:He; [by destruct (str_eqb _ _)|].
  rewrite M_bind_run, lift_run. destruct (ok_or _ (_ ≫= _)); [|done]. destruct (_ || _); [done|].
  rewrite M_bind_run, lift_run. destruct (ok_or _ _); [|done]. rewrite M_bind_run. cbn [modify].
  rewrite M_bind_run. cbn. rewrite lookup_insert_ne; [done|]. congruence.
Qed.

Lemma mark_running_keeps id' g id r :
  is_terminal (state r) = true -> records g !! id = Some r -> records (mark_running id' g).2 !! id = Some r.
Proof.
  intros Ht Hr. unfold mark_running. rewrite M_bind_run, get_run, M_bind_run, lift_run.
  destruct (records g !! id') as [e|] eqn:He; [|done]. cbn [ok_or]. destruct (state e) eqn:Hs; try done. cbn.
  rewrite lookup_insert_ne; [done|]. intros ->. rewrite Hr in He. injection He as ->. by rewrite Hs in Ht.
Qed.

Lemma complete_keeps id' d p g id r :
  is_terminal (state r) = true -> records g !! id = Some r -> records (complete id' d p g).2 !! id = Some r.
Proof.
  intros Ht Hr. unfold complete. rewrite M_bind_run, lift_run. destruct (op_validate_digest d _); [|done].
  rewrite M_bind_run, get_run, M_bind_run, lift_run. destruct (records g !! id') as [e|] eqn:He; [|done]. cbn [ok_or].
  assert (Hne : is_terminal (state e) = false -> id' <> id) by (intros Hf ->; congruence).
  destruct (state e) eqn:Hs; [| |by destruct (_ && _)]; (destruct (_ <? _); [done|]);
    rewrite M_bind_run; cbn [modify]; rewrite M_bind_run, lift_run; destruct (ok_or _ _); [|done| |done];
    rewrite M_bind_run; cbn; (rewrite lookup_insert_ne; [done | by apply Hne]).
Qed.

Lemma request_cancel_keeps id' g id r :
  is_terminal (state r) = true -> records g !! id = Some r -> records (request_cancel id' g).2 !! id = Some r.
Proof.
  intros Ht Hr. unfold request_cancel. rewrite M_bind_run, get_run, M_bind_run, lift_run.
  destruct (records g !! id') as [e|] eqn:He; [|done]. cbn [ok_or]. destruct (is_terminal (state e)) eqn:Hs; [done|].
  rewrite M_bind_run. cbn. rewrite lookup_insert_ne; [done|]. congruence.
Qed.

Lemma acknowledge_keeps id' d g id r dg p :
  state r = Terminal dg p -> records g !! id = Some r -> (id' = id -> d <> dg) ->
  records (acknowledge_terminal id' d g).2 !! id = Some r.
Proof.
  intros Ht Hr Hne. destruct (acknowledge_terminal id' d g) as [a g'] eqn:E. cbn.
  pose proof (acknowledge_terminal_records _ _ _ _ _ E) as ->. destruct (is_ok a) eqn:Hok; [|done].
  destruct (decide (id' = id)) as [->|]; [|by rewrite lookup_delete_ne].
  exfalso. unfold acknowledge_terminal, validate_terminal_ack in E. rewrite M_bind_run, get_run, M_bind_run, lift_run in E.
  destruct (op_validate_identifier id _) as [[]|]; [|by injection E as <- <-].
  cbn [mbind result_bind] in E. destruct (op_validate_digest d _) as [[]|]; [|by injection E as <- <-].
  cbn [mbind result_bind] in E. rewrite Hr in E. cbn [ok_or mbind result_bind] in E. rewrite Ht in E.
  destruct (str_eqb_spec dg d) as [->|]; [by apply Hne | by injection E as <- <-].
Qed.

(** ** Runs: every call a client can make on a shared registry *)
Inductive Call :=
  | CReserve (id digest : string) (bytes : Z)
  | CMarkRunning (id : string)
  | CComplete (id digest payload : string)
  | CRequestCancel (id : string)
  | CAcknowledge (id digest : string).

Inductive Reply :=
  | ReservedR (r : result OperationError Reservation)
  | UnitR (r : result OperationError unit)
  | BoolR (r : result OperationError bool).

Definition run_call (c : Call) (g : OperationRegistry) : Reply * OperationRegistry :=
  match c with
  | CReserve id d b => let '(r, g') := reserve id d b g in (ReservedR r, g')
  | CMarkRunning id => let '(r, g') := mark_running id g in (UnitR r, g')
  | CComplete id d p => let '(r, g') := complete id d p g in (UnitR r, g')
  | CRequestCancel id => let '(r, g') := request_cancel id g in (BoolR r, g')
  | CAcknowledge id d => let '(r, g') := acknowledge_terminal id d g in (UnitR r, g')
  end.

Fixpoint run_calls (cs : list Call) (g : OperationRegistry) : list Reply * OperationRegistry :=
  match cs with
  | [] => ([], g)
  | c :: cs => let '(r, g1) := run_call c g in let '(rs, g2) := run_calls cs g1 in (r :: rs, g2)
  end.

(** The argument of a call is a [usize]. *)
Definition call_wf (c : Call) : Prop := match c with CReserve _ _ b => u64 b | _ => True end.

(** ** The contract: a ledger without counters *)
Module Ledger.
Record t := mk { entries : gmap string OperationRecord; slots : Z; bytes : Z }.

(** What the retained records are charged: their whole reservation until they are terminal, their
    exact payload afterwards. *)
Definition charge (l : t) : Z := map_sum retention_reservation_bytes (entries l).

Definition update (f : OperationRecord -> OperationRecord) (id : string) (l : t) : t :=
  mk (alter f id (entries l)) (slots l) (bytes l).

Definition admits (b : Z) (l : t) : bool :=
  (0 <? b) && (Z.of_nat (size (entries l)) <? slots l) && (charge l + b <=? bytes l).

Definition reserve (id digest : string) (b : Z) (l : t) : result OperationError Reservation * t :=
  match op_validate_identifier id "operation_id", op_validate_digest digest "request_digest", entries l !! id with
  | Err e, _, _ => (Err e, l)
  | _, Err e, _ => (Err e, l)
  | _, _, Some r => (if str_eqb (request_digest r) digest then Ok RExisting else Err IdempotencyConflict, l)
  | _, _, None =>
      if admits b l
      then (Ok RNew, mk (<[id := mkOperationRecord id digest b Accepted false]> (entries l)) (slots l) (bytes l))
      else (Err Capacity, l)
  end.

Definition mark_running (id : string) (l : t) : result OperationError unit * t :=
  match entries l !! id with
  | None => (Err Unknown, l)
  | Some r => if is_terminal (state r) then (Err AlreadyTerminal, l)
              else (Ok tt, update (with_state Running) id l)
  end.

Definition complete (id digest payload : string) (l : t) : result OperationError unit * t :=
  match op_validate_digest digest "terminal_digest", entries l !! id with
  | Err e, _ => (Err e, l)
  | _, None => (Err Unknown, l)
  | _, Some r =>
      match state r with
      | Terminal d p => (if bool_decide (d = digest /\ p = payload) then Ok tt else Err TerminalConflict, l)
      | _ => if str_len payload <=? retention_reservation_bytes r
             then (Ok tt, update (with_terminal digest payload) id l)
             else (Err TerminalCapacity, l)
      end
  end.

Definition request_cancel (id : string) (l : t) : result OperationError bool * t :=
  match entries l !! id with
  | None => (Err Unknown, l)
  | Some r => if is_terminal (state r) then (Ok false, l)
              else (Ok (negb (cancel_requested r)), update with_cancel id l)
  end.

Definition acknowledge (id digest : string) (l : t) : result OperationError unit * t :=
  match op_validate_identifier id "operation_id", op_validate_digest digest "terminal_digest", entries l !! id with
  | Err e, _, _ => (Err e, l)
  | _, Err e, _ => (Err e, l)
  | _, _, None => (Err Unknown, l)
  | _, _, Some r =>
      match state r with
      | Terminal d _ => if str_eqb d digest then (Ok tt, mk (delete id (entries l)) (slots l) (bytes l))
                        else (Err TerminalDigestMismatch, l)
      | _ => (Err NotTerminal, l)
      end
  end.

Definition run_call (c : Call) (l : t) : Reply * t :=
  match c with
  | CReserve id d b => let '(r, l') := reserve id d b l in (ReservedR r, l')
  | CMarkRunning id => let '(r, l') := mark_running id l in (UnitR r, l')
  | CComplete id d p => let '(r, l') := complete id d p l in (UnitR r, l')
  | CRequestCancel id => let '(r, l') := request_cancel id l in (BoolR r, l')
  | CAcknowledge id d => let '(r, l') := acknowledge id d l in (UnitR r, l')
  end.

Fixpoint run_calls (cs : list Call) (l : t) : list Reply * t :=
  match cs with
  | [] => ([], l)
  | c :: cs => let '(r, l1) := run_call c l in let '(rs, l2) := run_calls cs l1 in (r :: rs, l2)
  end.
End Ledger.

(** The abstraction function forgets the counters. *)
Definition ledger_of (g : OperationRegistry) : Ledger.t :=
  Ledger.mk (records g) (max_records g) (max_terminal_bytes g).

(** ** Invariant *)
Definition terminal_charge (r : OperationRecord) : Z :=
  if is_terminal (state r) then retention_reservation_bytes r else 0.
Definition pending_charge (r : OperationRecord) : Z :=
  if is_terminal (state r) then 0 else retention_reservation_bytes r.

Definition record_wf (id : string) (r : OperationRecord) : Prop :=
  operation_id r = id
  /\ identifier id
  /\ hex_digest (request_digest r)
  /\ 0 <= retention_reservation_bytes r
  /\ match state r with
     | Terminal d p => hex_digest d /\ retention_reservation_bytes r = str_len p
     | _ => 0 < retention_reservation_bytes r
     end.

Record registry_inv (g : OperationRegistry) : Prop := {
  inv_wf : map_Forall record_wf (records g);
  inv_terminal : terminal_bytes g = map_sum terminal_charge (records g);
  inv_pending : pending_reserved_bytes g = map_sum pending_charge (records g);
  inv_bytes : terminal_bytes g + pending_reserved_bytes g <= max_terminal_bytes g;
  inv_slots : Z.of_nat (size (records g)) <= max_records g;
  inv_width : u64 (max_terminal_bytes g);
}.

(** ** Lemmas: identities *)
Lemma op_validate_identifier_Ok v f : op_validate_identifier v f = Ok tt <-> identifier v.
Proof. unfold op_validate_identifier. rewrite map_err_Ok. apply validate_identifier_Ok. Qed.

Lemma op_validate_digest_Ok v f : op_validate_digest v f = Ok tt <-> hex_digest v.
Proof. unfold op_validate_digest. rewrite map_err_Ok. apply validate_digest_Ok. Qed.

(** ** Lemmas: the counters are sums over the records *)
Lemma charge_split (m : gmap string OperationRecord) :
  map_sum retention_reservation_bytes m = map_sum terminal_charge m + map_sum pending_charge m.
Proof.
  rewrite <- map_sum_plus. apply map_sum_ext. intros k r _.
  unfold terminal_charge, pending_charge. destruct (is_terminal _); lia.
Qed.

Lemma record_wf_charges id r : record_wf id r -> 0 <= terminal_charge r /\ 0 <= pending_charge r.
Proof. intros (_ & _ & _ & ? & _). unfold terminal_charge, pending_charge. by destruct (is_terminal _). Qed.

Lemma registry_inv_charge g :
  registry_inv g -> Ledger.charge (ledger_of g) = terminal_bytes g + pending_reserved_bytes g.
Proof. intros []. unfold Ledger.charge. cbn. rewrite charge_split. lia. Qed.

Lemma registry_inv_nonneg g :
  registry_inv g -> 0 <= terminal_bytes g /\ 0 <= pending_reserved_bytes g.
Proof.
  intros []. rewrite inv_terminal0, inv_pending0.
  split; apply map_sum_nonneg; (eapply map_Forall_impl; [done|]); intros; by eapply record_wf_charges.
Qed.

Lemma registry_inv_record g id r :
  registry_inv g -> records g !! id = Some r ->
  record_wf id r /\ terminal_charge r <= terminal_bytes g /\ pending_charge r <= pending_reserved_bytes g.
Proof.
  intros [] Hr. split; [by apply inv_wf0|]. rewrite inv_terminal0, inv_pending0.
  split; (apply (map_sum_lookup_le _ _ id); [|done]); (eapply map_Forall_impl; [done|]); intros; by eapply record_wf_charges.
Qed.

(** Replacing one record: the counters move by the difference of its charges. *)
Lemma registry_inv_update g id r r' tb pb :
  registry_inv g -> records g !! id = Some r -> record_wf id r' ->
  tb = terminal_bytes g - terminal_charge r + terminal_charge r' ->
  pb = pending_reserved_bytes g - pending_charge r + pending_charge r' ->
  tb + pb <= max_terminal_bytes g ->
  registry_inv (mkOperationRegistry (<[id := r']> (records g)) (max_records g) (max_terminal_bytes g) tb pb).
Proof.
  intros [] Hr Hwf -> -> Hle. constructor; cbn; try done.
  - by apply map_Forall_insert_2.
  - rewrite (map_sum_insert_over _ _ _ r) by done. lia.
  - rewrite (map_sum_insert_over _ _ _ r) by done. lia.
  - by rewrite (map_size_insert_Some _ _ _ (ex_intro _ r Hr)).
Qed.

Lemma insert_is_alter {A} (f : A -> A) (m : gmap string A) id r :
  m !! id = Some r -> <[id := f r]> m = alter f id m.
Proof.
  intros H. apply map_eq. intros j. destruct (decide (id = j)) as [->|].
  - by rewrite lookup_insert_eq, lookup_alter_eq, H.
  - by rewrite lookup_insert_ne, lookup_alter_ne.
Qed.

(** ** Simulation: each operation against the ledger *)
Definition simulates {A} (op : Op A) (spec : Ledger.t -> result OperationError A * Ledger.t) : Prop :=
  forall g, registry_inv g ->
    registry_inv (op g).2 /\ spec (ledger_of g) = ((op g).1, ledger_of (op g).2).

Ltac sim_done := split; [done | reflexivity].

Lemma reserve_sim id d b : u64 b -> simulates (reserve id d b) (Ledger.reserve id d b).
Proof.
  intros Hb g Hg. unfold reserve, Ledger.reserve. run_step. cbn [Ledger.entries ledger_of].
  destruct (op_validate_identifier id _) as [[]|] eqn:Hid; [|sim_done].
  destruct (op_validate_digest d _) as [[]|] eqn:Hd; [|sim_done].
  apply op_validate_identifier_Ok in Hid. apply op_validate_digest_Ok in Hd.
  destruct (records g !! id) as [r|] eqn:Hr; [by case_match|].
  pose proof (registry_inv_nonneg g Hg). pose proof (registry_inv_charge g Hg) as Hc. pose proof Hg as [].
  unfold Ledger.admits. rewrite Hc. cbn [Ledger.entries Ledger.slots Ledger.bytes ledger_of].
  unfold u64 in *.
  replace (checked_add (terminal_bytes g) (pending_reserved_bytes g))
    with (Some (terminal_bytes g + pending_reserved_bytes g)) by (symmetry; apply checked_add_Some; lia).
  cbn. destruct (checked_add _ b) as [n|] eqn:Hn; cbn.
  - apply checked_add_Some in Hn as [-> Hn].
    replace (checked_add (pending_reserved_bytes g) b) with (Some (pending_reserved_bytes g + b))
      by (symmetry; apply checked_add_Some; lia). cbn.
    destruct (Z.eqb_spec b 0), (Z.ltb_spec 0 b); try lia; [sim_done|]. cbn.
    destruct (Z.leb_spec (max_records g) (Z.of_nat (size (records g)))),
      (Z.ltb_spec (Z.of_nat (size (records g))) (max_records g)); try lia; [sim_done|]. cbn.
    destruct (Z.ltb_spec (max_terminal_bytes g) (terminal_bytes g + pending_reserved_bytes g + b)),
      (Z.leb_spec (terminal_bytes g + pending_reserved_bytes g + b) (max_terminal_bytes g)); try lia; [sim_done|].
    cbn. split; [|done]. constructor; cbn; try done.
    + apply map_Forall_insert_2; [|done]. do 3 (split; [done|]). cbn. lia.
    + rewrite map_sum_insert_new by done. cbn. lia.
    + rewrite map_sum_insert_new by done. cbn. lia.
    + lia.
    + rewrite map_size_insert_None by done. lia.
  - apply checked_add_None in Hn.
    replace (_ + _ + b <=? _) with false by (symmetry; apply Z.leb_gt; lia). by rewrite !andb_false_r.
Qed.

Lemma mark_running_sim id : simulates (mark_running id) (Ledger.mark_running id).
Proof.
  intros g Hg. unfold mark_running, Ledger.mark_running, Ledger.update. run_step.
  cbn [Ledger.entries Ledger.slots Ledger.bytes ledger_of].
  destruct (records g !! id) as [r|] eqn:Hr; cbn; [|sim_done].
  destruct (registry_inv_record g id r Hg Hr) as ((Hid & Hi & Hdg & Hn & Hs) & _ & _).
  destruct (state r) eqn:Hst; cbn; [| |sim_done].
  - split.
    + apply (registry_inv_update g id r); try done; try (unfold terminal_charge, pending_charge; rewrite Hst; cbn; lia).
      apply Hg.
    + unfold ledger_of. cbn. by rewrite <- (insert_is_alter _ _ _ r).
  - split; [done|]. unfold ledger_of. do 2 f_equal.
    rewrite <- (insert_is_alter _ _ _ r) by done. apply insert_id.
    rewrite Hr. unfold with_state. destruct r; cbn in *. by subst.
Qed.

Lemma complete_sim id d p : simulates (complete id d p) (Ledger.complete id d p).
Proof.
  intros g Hg. unfold complete, Ledger.complete, Ledger.update. run_step.
  cbn [Ledger.entries Ledger.slots Ledger.bytes ledger_of].
  destruct (op_validate_digest d _) as [[]|] eqn:Hd; [|sim_done]. apply op_validate_digest_Ok in Hd.
  destruct (records g !! id) as [r|] eqn:Hr; cbn; [|sim_done].
  destruct (registry_inv_record g id r Hg Hr) as ((Hid & Hi & Hdg & Hn & Hs) & Ht & Hp).
  pose proof (registry_inv_nonneg g Hg). pose proof (inv_bytes g Hg). pose proof (inv_width g Hg).
  pose proof (str_len_nonneg p).
  assert (Hlive : is_terminal (state r) = false -> str_len p <= retention_reservation_bytes r ->
    registry_inv (mkOperationRegistry (<[id := with_terminal d p r]> (records g)) (max_records g)
      (max_terminal_bytes g) (terminal_bytes g + str_len p)
      (saturating_sub (pending_reserved_bytes g) (retention_reservation_bytes r)))).
  { intros Hst Hl. unfold saturating_sub, terminal_charge, pending_charge in *. rewrite Hst in *.
    assert (record_wf id (with_terminal d p r)) by (do 3 (split; [done|]); done).
    apply (registry_inv_update g id r); try done; unfold terminal_charge, pending_charge; rewrite ?Hst; cbn; lia. }
  assert (Hadd : is_terminal (state r) = false -> str_len p <= retention_reservation_bytes r ->
    checked_add (terminal_bytes g) (str_len p) = Some (terminal_bytes g + str_len p)).
  { intros Hst Hl. apply checked_add_Some. unfold u64, pending_charge in *. rewrite Hst in *. lia. }
  destruct (state r) eqn:Hst; cbn.
  3:{ split; [by case_match|]. f_equal; [|by case_match].
      destruct (str_eqb_spec terminal_digest d), (str_eqb_spec payload p); case_bool_decide; intuition congruence. }
  all: destruct (Z.ltb_spec (retention_reservation_bytes r) (str_len p)),
    (Z.leb_spec (str_len p) (retention_reservation_bytes r)); try lia; [sim_done|].
  all: rewrite Hadd by done; cbn; split; [by apply Hlive|].
  all: unfold ledger_of; cbn; by rewrite <- (insert_is_alter _ _ _ r).
Qed.

Lemma request_cancel_sim id : simulates (request_cancel id) (Ledger.request_cancel id).
Proof.
  intros g Hg. unfold request_cancel, Ledger.request_cancel, Ledger.update. run_step.
  cbn [Ledger.entries Ledger.slots Ledger.bytes ledger_of].
  destruct (records g !! id) as [r|] eqn:Hr; cbn; [|sim_done].
  destruct (is_terminal (state r)) eqn:Hst; cbn; [sim_done|]. split.
  - destruct (registry_inv_record g id r Hg Hr) as (Hwf & _ & _).
    apply (registry_inv_update g id r); try done;
      try (unfold terminal_charge, pending_charge; cbn; rewrite Hst; lia). apply Hg.
  - unfold ledger_of. cbn. by rewrite <- (insert_is_alter _ _ _ r).
Qed.

Lemma acknowledge_sim id d : simulates (acknowledge_terminal id d) (Ledger.acknowledge id d).
Proof.
  intros g Hg. unfold acknowledge_terminal, Ledger.acknowledge, validate_terminal_ack. run_step.
  cbn [Ledger.entries Ledger.slots Ledger.bytes ledger_of].
  destruct (op_validate_identifier id _) as [[]|]; [|sim_done].
  destruct (op_validate_digest d _) as [[]|]; [|sim_done].
  destruct (records g !! id) as [r|] eqn:Hr; cbn; [|sim_done].
  destruct (registry_inv_record g id r Hg Hr) as ((Hid & Hi & Hdg & Hn & Hs) & Ht & Hp).
  destruct (state r) eqn:Hst; [sim_done..|]. destruct (str_eqb _ d); [|sim_done]. cbn. split; [|done].
  destruct Hs as [_ Hs]. pose proof Hg as [].
  assert (terminal_charge r = str_len payload) as Htc by (unfold terminal_charge; rewrite Hst; cbn; lia).
  assert (pending_charge r = 0) as Hpc by (unfold pending_charge; by rewrite Hst).
  pose proof (map_sum_delete terminal_charge _ _ _ Hr). pose proof (map_sum_delete pending_charge _ _ _ Hr).
  pose proof (str_len_nonneg payload).
  unfold saturating_sub. constructor; cbn; try done; try lia.
  - by apply map_Forall_delete.
  - rewrite map_size_delete, Hr. lia.
Qed.

Lemma run_call_sim c g :
  registry_inv g -> call_wf c ->
  registry_inv (run_call c g).2 /\ Ledger.run_call c (ledger_of g) = ((run_call c g).1, ledger_of (run_call c g).2).
Proof.
  intros Hg Hc. destruct c; cbn.
  - destruct (reserve_sim id digest bytes Hc g Hg) as [? ->]. by destruct (reserve _ _ _ g).
  - destruct (mark_running_sim id g Hg) as [? ->]. by destruct (mark_running _ g).
  - destruct (complete_sim id digest payload g Hg) as [? ->]. by destruct (complete _ _ _ g).
  - destruct (request_cancel_sim id g Hg) as [? ->]. by destruct (request_cancel _ g).
  - destruct (acknowledge_sim id digest g Hg) as [? ->]. by destruct (acknowledge_terminal _ _ g).
Qed.

Lemma run_calls_sim cs g :
  registry_inv g -> Forall call_wf cs ->
  registry_inv (run_calls cs g).2
  /\ Ledger.run_calls cs (ledger_of g) = ((run_calls cs g).1, ledger_of (run_calls cs g).2).
Proof.
  revert g. induction cs as [|c cs IH]; intros g Hg Hcs; cbn; [done|].
  apply Forall_cons in Hcs as [Hc Hcs]. destruct (run_call_sim c g Hg Hc) as [Hg1 E].
  rewrite E. destruct (run_call c g) as [r g1]. destruct (IH g1 Hg1 Hcs) as [Hg2 E2].
  cbn in *. rewrite E2. by destruct (run_calls cs g1).
Qed.

Lemma registry_new_inv n b : 0 <= n -> u64 b -> registry_inv (registry_new n b).
Proof.
  intros Hn Hb. constructor; cbn; rewrite ?map_sum_empty, ?map_size_empty; try done.
  unfold u64 in *. lia.
Qed.

(** ** Lemmas: what other calls leave alone *)
Definition completes (id : string) (c : Call) : bool :=
  match c with CComplete i _ _ => str_eqb i id | _ => false end.
Definition acks (id digest : string) (c : Call) : bool :=
  match c with CAcknowledge i d => str_eqb i id && str_eqb d digest | _ => false end.

Definition live (id digest : string) (bytes : Z) (l : Ledger.t) : Prop :=
  exists r, Ledger.entries l !! id = Some r /\ is_terminal (state r) = false
    /\ request_digest r = digest /\ retention_reservation_bytes r = bytes.

Definition done_with (id digest payload : string) (l : Ledger.t) : Prop :=
  exists r, Ledger.entries l !! id = Some r /\ state r = Terminal digest payload.

(** One call of the ledger, split into its branches. *)
Ltac ledger_cases :=
  cbn; unfold Ledger.reserve, Ledger.mark_running, Ledger.complete, Ledger.request_cancel, Ledger.acknowledge,
    Ledger.update; repeat (case_match; simplify_eq/=); simplify_eq/=.

Lemma ledger_update_at f id i (l : Ledger.t) :
  Ledger.entries (Ledger.update f i l) !! id = if decide (i = id) then f <$> Ledger.entries l !! id
                                                else Ledger.entries l !! id.
Proof. cbn. case_decide; subst; [apply lookup_alter_eq | by apply lookup_alter_ne]. Qed.

Lemma live_stable id d b c l :
  completes id c = false -> live id d b l -> live id d b (Ledger.run_call c l).2.
Proof.
  intros Hc (r & Hr & Ht & Hd & Hb). unfold live. destruct c; ledger_cases; try (by exists r).
  - destruct (decide (id = id0)) as [->|]; [congruence|]. exists r. by rewrite lookup_insert_ne.
  - destruct (decide (id0 = id)) as [->|]; [|rewrite lookup_alter_ne by done; by exists r].
    rewrite lookup_alter_eq, Hr. by eexists.
  - bool_hyps. exists r. by rewrite lookup_alter_ne.
  - bool_hyps. exists r. by rewrite lookup_alter_ne.
  - destruct (decide (id0 = id)) as [->|]; [|rewrite lookup_alter_ne by done; by exists r].
    rewrite lookup_alter_eq, Hr. by eexists.
  - destruct (decide (id0 = id)) as [->|]; [|rewrite lookup_delete_ne by done; by exists r].
    exfalso. simplify_eq. by match goal with H : state r = _ |- _ => rewrite H in Ht end.
Qed.

Lemma done_stable id d p c l :
  acks id d c = false -> done_with id d p l -> done_with id d p (Ledger.run_call c l).2.
Proof.
  intros Hc (r & Hr & Hs). unfold done_with.
  assert (Ht : is_terminal (state r) = true) by (by rewrite Hs).
  destruct c; ledger_cases; try (by exists r); bool_hyps;
    (destruct (decide (id0 = id)) as [ -> |];
      [ exfalso; simplify_eq | exists r; by rewrite ?lookup_alter_ne, ?lookup_insert_ne, ?lookup_delete_ne ]);
    try congruence.
  assert (d = digest) as -> by congruence. by rewrite !str_eqb_refl in Hc.
Qed.

Lemma run_calls_preserve (P : Ledger.t -> Prop) (f : Call -> bool) cs l :
  (forall c l, f c = false -> P l -> P (Ledger.run_call c l).2) ->
  forallb (fun c => negb (f c)) cs = true -> P l -> P (Ledger.run_calls cs l).2.
Proof.
  intros Hstep. revert l. induction cs as [|c cs IH]; intros l Hcs Hl; cbn in *; [done|].
  bool_hyps. specialize (Hstep c l). destruct (Ledger.run_call c l) as [r l1].
  specialize (IH l1). destruct (Ledger.run_calls cs l1). naive_solver.
Qed.

(** A live reservation stays live, in a registry that stays well formed. *)
Definition registry_live (id digest : string) (bytes : Z) (g : OperationRegistry) : Prop :=
  registry_inv g /\ live id digest bytes (ledger_of g).

Lemma call_keeps_live c id d b g :
  call_wf c -> completes id c = false -> registry_live id d b g -> registry_live id d b (run_call c g).2.
Proof.
  intros Hc Hno [Hg Hl]. destruct (run_call_sim c g Hg Hc) as [Hg' E]. split; [done|].
  pose proof (live_stable id d b c _ Hno Hl) as H. by rewrite E in H.
Qed.

Lemma reserve_live id d bytes g g' :
  registry_inv g -> u64 bytes -> reserve id d bytes g = (Ok RNew, g') -> registry_live id d bytes g'.
Proof.
  intros Hg Hb Hr. destruct (reserve_sim id d bytes Hb g Hg) as [Hg1 E]. rewrite Hr in Hg1, E. split; [done|].
  cbn in E. unfold Ledger.reserve in E. repeat (case_match; simplify_eq/=).
  match goal with H : Ledger.mk _ _ _ = ?x |- _ => replace x with (ledger_of g') by done; rewrite <- H end.
  eexists. cbn. rewrite lookup_insert_eq. by split.
Qed.

Lemma live_record id d b g : registry_live id d b g -> is_Some (records g !! id).
Proof. intros [_ (r & Hr & _)]. by exists r. Qed.

Lemma live_not_acknowledged id d b dg g :
  registry_live id d b g -> exists e, acknowledge_terminal id dg g = (Err e, g) /\ e <> Unknown.
Proof.
  intros [_ (r & Hr & Ht & _)]. cbn in Hr. unfold acknowledge_terminal, validate_terminal_ack.
  rewrite M_bind_run, get_run, M_bind_run, lift_run. unfold op_validate_identifier, op_validate_digest.
  destruct (validate_identifier id _) as [|[]]; cbn; [|by eexists].
  destruct (validate_digest dg _) as [|[]]; cbn; [|by eexists]. rewrite Hr. cbn.
  destruct (state r); [by eexists..|done].
Qed.

Lemma complete_live_Ok id d b dg p g :
  registry_inv g -> live id d b (ledger_of g) -> hex_digest dg -> str_len p <= b ->
  (complete id dg p g).1 = Ok tt
  /\ exists r, observe id (complete id dg p g).2 = Some r /\ state r = Terminal dg p.
Proof.
  intros Hg (r & Hr & Ht & Hd & Hb) Hdg Hp. destruct (complete_sim id dg p g Hg) as [_ E].
  unfold Ledger.complete in E. apply (op_validate_digest_Ok _ "terminal_digest") in Hdg.
  rewrite Hdg, Hr in E.
  assert (Hok : (Ok tt : result OperationError unit, Ledger.update (with_terminal dg p) id (ledger_of g))
    = ((complete id dg p g).1, ledger_of (complete id dg p g).2)).
  { rewrite <- E. destruct (state r); try done; by replace (str_len p <=? _) with true by (symmetry; apply Z.leb_le; lia). }
  clear E. injection Hok as <- Hl. split; [done|].
  exists (with_terminal dg p r). split; [|done]. unfold observe.
  cbn in Hl, Hr. rewrite <- Hl, lookup_alter_eq. by rewrite Hr.
Qed.

(** ** Properties *)

(** C12: for every sequence of calls, the registry with its two running byte counters answers exactly as
    the counter-free ledger does, and keeps the same records: retention is charged as the sum of what
    is retained, whatever the order of reservations, completions, cancellations and acknowledgements. *)
Theorem registry_refines_ledger n b cs :
  0 <= n -> u64 b -> Forall call_wf cs ->
  Ledger.run_calls cs (Ledger.mk ∅ n b)
  = ((run_calls cs (registry_new n b)).1, ledger_of (run_calls cs (registry_new n b)).2).
Proof. intros Hn Hb Hcs. by destruct (run_calls_sim cs (registry_new n b) (registry_new_inv n b Hn Hb) Hcs). Qed.

(** After any sequence of calls the counters are exactly the retained and the reserved bytes, their
    sum is within the terminal budget, the record count is within its bound, and every record is
    well formed under its key (a terminal record is charged its payload's length and nothing else). *)
Theorem registry_runs_keep_invariant n b cs :
  0 <= n -> u64 b -> Forall call_wf cs -> registry_inv (run_calls cs (registry_new n b)).2.
Proof. intros Hn Hb Hcs. by destruct (run_calls_sim cs (registry_new n b) (registry_new_inv n b Hn Hb) Hcs). Qed.

(** Admission is a promise. Once a reservation of [bytes] is admitted, then whatever other calls
    follow, the terminal observation of that operation can be installed as long as it fits the
    reservation, and it is then observed exactly. *)
Theorem admitted_operation_can_complete g id d bytes cs dg p :
  registry_inv g -> u64 bytes -> (reserve id d bytes g).1 = Ok RNew ->
  Forall call_wf cs -> forallb (fun c => negb (completes id c)) cs = true ->
  hex_digest dg -> str_len p <= bytes ->
  let g' := (run_calls cs (reserve id d bytes g).2).2 in
  (complete id dg p g').1 = Ok tt
  /\ exists r, observe id (complete id dg p g').2 = Some r /\ state r = Terminal dg p.
Proof.
  intros Hg Hb Hr Hcs Hno Hdg Hp. cbn.
  destruct (reserve_live id d bytes g (reserve id d bytes g).2 Hg Hb) as [Hg1 Hl].
  { rewrite <- Hr. apply surjective_pairing. }
  destruct (run_calls_sim cs _ Hg1 Hcs) as [Hg2 E2].
  apply (complete_live_Ok id d bytes); try done.
  pose proof (run_calls_preserve (live id d bytes) (completes id) cs _ (live_stable id d bytes) Hno Hl) as H.
  by rewrite E2 in H.
Qed.

(** A terminal observation is never evicted, replaced or altered: it is retained byte for byte
    through any calls until its own digest is acknowledged. *)
Theorem terminal_retained_until_exact_ack g id d p cs r :
  registry_inv g -> Forall call_wf cs ->
  observe id g = Some r -> state r = Terminal d p ->
  forallb (fun c => negb (acks id d c)) cs = true ->
  exists r', observe id (run_calls cs g).2 = Some r' /\ state r' = Terminal d p.
Proof.
  intros Hg Hcs Hr Hs Hno. destruct (run_calls_sim cs g Hg Hcs) as [_ E].
  assert (Hd : done_with id d p (ledger_of g)) by (by exists r).
  pose proof (run_calls_preserve (done_with id d p) (acks id d) cs _ (done_stable id d p) Hno Hd) as H.
  rewrite E in H. exact H.
Qed.

(** ** Witnesses *)
Definition sample_calls : list Call :=
  [ CReserve "op-1" digest_a 512; CMarkRunning "op-1"; CReserve "op-2" digest_b 600; CRequestCancel "op-1";
    CReserve "op-1" digest_b 1; CComplete "op-1" digest_b "result"; CAcknowledge "op-1" digest_a;
    CReserve "op-2" digest_b 600 ].

Lemma sample_calls_wf : Forall call_wf sample_calls.
Proof. repeat constructor; cbn; unfold U64_MAX; lia. Qed.

Lemma registry_refines_ledger_witness :
  Ledger.run_calls sample_calls (Ledger.mk ∅ 4 1024)
  = ((run_calls sample_calls (registry_new 4 1024)).1, ledger_of (run_calls sample_calls (registry_new 4 1024)).2).
Proof. apply (registry_refines_ledger 4 1024 sample_calls); [lia | unfold u64, U64_MAX; lia | apply sample_calls_wf]. Defined.

Example sample_replies :
  (run_calls sample_calls (registry_new 4 1024)).1 =
  [ ReservedR (Ok RNew); UnitR (Ok tt); ReservedR (Err Capacity); BoolR (Ok true);
    ReservedR (Err IdempotencyConflict); UnitR (Ok tt); UnitR (Err TerminalDigestMismatch); ReservedR (Ok RNew) ].
Proof. vm_compute. reflexivity. Qed.

Lemma registry_runs_keep_invariant_witness : registry_inv (run_calls sample_calls (registry_new 4 1024)).2.
Proof. apply (registry_runs_keep_invariant 4 1024); [lia | unfold u64, U64_MAX; lia | apply sample_calls_wf]. Defined.

Definition sample_interference : list Call :=
  [ CMarkRunning "op-1"; CReserve "op-2" digest_b 512; CComplete "op-2" digest_a "x"; CRequestCancel "op-1" ].

Lemma sample_interference_wf : Forall call_wf sample_interference.
Proof. repeat constructor; cbn; unfold U64_MAX; lia. Qed.

Lemma admitted_operation_can_complete_witness :
  let g' := (run_calls sample_interference (reserve "op-1" digest_a 512 (registry_new 4 1024)).2).2 in
  (complete "op-1" digest_b "result" g').1 = Ok tt
  /\ exists r, observe "op-1" (complete "op-1" digest_b "result" g').2 = Some r /\ state r = Terminal digest_b "result".
Proof.
  apply (admitted_operation_can_complete (registry_new 4 1024) "op-1" digest_a 512 sample_interference).
  - apply registry_new_inv; unfold u64, U64_MAX; lia.
  - unfold u64, U64_MAX; lia.
  - vm_compute. reflexivity.
  - apply sample_interference_wf.
  - reflexivity.
  - apply digest_b_hex.
  - unfold str_len. cbn. lia.
Defined.

Definition sample_terminal : OperationRegistry :=
  (run_calls [CReserve "op-1" digest_a 512; CComplete "op-1" digest_b "result"] (registry_new 4 1024)).2.

Lemma sample_terminal_inv : registry_inv sample_terminal.
Proof.
  apply (run_calls_sim _ _ (registry_new_inv 4 1024 ltac:(lia) ltac:(unfold u64, U64_MAX; lia))).
  repeat constructor; cbn; unfold U64_MAX; lia.
Qed.

Lemma terminal_retained_until_exact_ack_witness :
  exists r', observe "op-1" (run_calls sample_calls sample_terminal).2 = Some r'
    /\ state r' = Terminal digest_b "result".
Proof.
  eapply (terminal_retained_until_exact_ack sample_terminal "op-1" digest_b "result" sample_calls).
  - apply sample_terminal_inv.
  - apply sample_calls_wf.
  - vm_compute. reflexivity.
  - reflexivity.
  - vm_compute. reflexivity.
Defined.
