(* ===== verification/Connector.v ===== *)
(** * hand-core connectors and resource ceilings

    Models crates/hand-core/src/connector.rs (opaque connector references, the gateway authority
    grammar and the connector catalog) and crates/hand-core/src/resources.rs. *)
From S2P Require Import Prelude Policy.

(** ** Resource ceilings (resources.rs) *)
Record ResourceRequest := mkResourceRequest { timeout_ms : Z; max_output_bytes : Z }.
Record ResourceSupport := mkResourceSupport { sup_max_timeout_ms : Z; sup_max_output_bytes : Z }.
Inductive ResourceError := TimeoutUnsupported | OutputUnsupported.

Definition ResourceSupport_validate (self : ResourceSupport) (request : ResourceRequest)
    : result ResourceError unit :=
  if (timeout_ms request =? 0) || (sup_max_timeout_ms self <? timeout_ms request)
  then Err TimeoutUnsupported
  else if (max_output_bytes request =? 0) || (sup_max_output_bytes self <? max_output_bytes request)
  then Err OutputUnsupported
  else Ok tt.

Lemma ResourceSupport_validate_Ok s r :
  ResourceSupport_validate s r = Ok tt <->
  timeout_ms r <> 0 /\ timeout_ms r <= sup_max_timeout_ms s
  /\ max_output_bytes r <> 0 /\ max_output_bytes r <= sup_max_output_bytes s.
Proof.
  unfold ResourceSupport_validate. repeat case_match; split; intros; try done;
    repeat match goal with H : (_ || _) = true |- _ => apply orb_true_iff in H as [H|H] end;
    bool_hyps; lia.
Qed.

(** ** References and authorities (connector.rs) *)
Inductive ConnectorError :=
  | InvalidReference
  | InvalidGatewayAuthority
  | MissingClass (class : ConnectorClass).

#[global] Instance ConnectorError_eq_dec : EqDecision ConnectorError.
Proof. solve_decision. Defined.

Record ConnectorRef := mkConnectorRef { ref_str : string }.

#[global] Instance ConnectorRef_eq_dec : EqDecision ConnectorRef.
Proof. solve_decision. Defined.

(** [value.trim() != value || value.is_empty() || value.chars().any(char::is_whitespace)] *)
Definition not_a_token (value : string) : bool :=
  trim_changes value || (str_len value =? 0) || existsb is_whitespace (chars value).

Definition ConnectorRef_parse (value : string) : result ConnectorError ConnectorRef :=
  if not_a_token value then Err InvalidReference else Ok (mkConnectorRef value).

Record GatewayAuthority := mkGatewayAuthority { host : string; port : Z }.

#[global] Instance GatewayAuthority_eq_dec : EqDecision GatewayAuthority.
Proof. solve_decision. Defined.

(** One decimal octet of [str::parse::<Ipv4Addr>]: no leading zero, at most three digits. *)
Definition ipv4_octet (s : string) : option Z :=
  if forallb is_ascii_digit (bytes_of s) && (1 <=? str_len s) && (str_len s <=? 3)
     && negb ((2 <=? str_len s) && starts_with "0" s)
  then parse_uint 255 s else None.

Definition parse_ipv4 (s : string) : option (Z * Z * Z * Z) :=
  match split_on "."%char s with
  | [a; b; c; d] =>
      a ← ipv4_octet a; b ← ipv4_octet b; c ← ipv4_octet c; d ← ipv4_octet d; Some (a, b, c, d)
  | _ => None
  end.

Definition host_char (c : Ascii.ascii) : bool := is_ascii_alphanumeric c || Ascii.eqb c "-"%char.

Definition valid_label (label : string) : bool :=
  negb (str_len label =? 0) && (str_len label <=? 63)
  && negb (starts_with "-" label) && negb (ends_with "-" label)
  && forallb host_char (bytes_of label).

Definition valid_gateway_host (host : string) : bool :=
  if bool_decide (is_Some (parse_ipv4 host)) then true
  else if forallb (fun ch => is_ascii_digit ch || Ascii.eqb ch "."%char) (bytes_of host) then false
  else (str_len host <=? 253) && forallb valid_label (split_on "."%char host).

(** The delimiters of [value.contains(['@', '/', '?', '#', '[', ']'])]; ["//"] is covered by ["/"]. *)
Definition authority_delimiters : list Ascii.ascii := ["@"; "/"; "?"; "#"; "["; "]"]%char.

Fixpoint contains_double_slash (l : list Ascii.ascii) : bool :=
  match l with
  | a :: ((b :: _) as l') => (Ascii.eqb a "/"%char && Ascii.eqb b "/"%char) || contains_double_slash l'
  | _ => false
  end.

Definition GatewayAuthority_parse (value : string) : result ConnectorError GatewayAuthority :=
  if not_a_token value || contains_double_slash (bytes_of value)
     || existsb (fun c => contains_char c value) authority_delimiters
  then Err InvalidGatewayAuthority
  else
    '(host, port) ← ok_or InvalidGatewayAuthority (rsplit_once ":"%char value);
    if (str_len host =? 0) || contains_char ":"%char host || negb (valid_gateway_host host)
    then Err InvalidGatewayAuthority
    else
      match parse_uint U16_MAX port with
      | Some p => if p =? 0 then Err InvalidGatewayAuthority
                  else Ok (mkGatewayAuthority (to_ascii_lowercase host) p)
      | None => Err InvalidGatewayAuthority
      end.

Definition as_authority (a : GatewayAuthority) : string := host a +:+ ":" +:+ print_uint (port a).

(** ** The catalog *)
#[global] Instance ConnectorClass_countable : Countable ConnectorClass.
Proof.
  refine (inj_countable' (fun c => match c with ConnNone => 0 | ConnPublic => 1 | ConnAllowlist => 2 end)%N
    (fun n => match n with 0 => ConnNone | 1 => ConnPublic | _ => ConnAllowlist end)%N _).
  by intros [].
Defined.

Record ConnectorCatalog := mkConnectorCatalog { refs : gmap ConnectorClass ConnectorRef }.

Definition ConnectorCatalog_new (none public allowlist : ConnectorRef) : ConnectorCatalog :=
  mkConnectorCatalog (<[ConnNone := none]> (<[ConnPublic := public]> (<[ConnAllowlist := allowlist]> ∅))).

(** [expect] panics on a missing class: [None]. *)
Definition resolve (c : ConnectorCatalog) (class : ConnectorClass) : option ConnectorRef := refs c !! class.

Definition lookup_ref (lookup : ConnectorClass -> option string) (class : ConnectorClass)
    : result ConnectorError ConnectorRef :=
  value ← ok_or (MissingClass class) (lookup class);
  ConnectorRef_parse value.

Definition from_lookup (lookup : ConnectorClass -> option string) : result ConnectorError ConnectorCatalog :=
  none ← lookup_ref lookup ConnNone;
  public ← lookup_ref lookup ConnPublic;
  allowlist ← lookup_ref lookup ConnAllowlist;
  Ok (ConnectorCatalog_new none public allowlist).

(** ** Lemmas: the alphabet of an accepted authority *)

(** What the canonical form of an authority is made of. *)
Definition authority_char (c : Ascii.ascii) : bool :=
  is_ascii_lower c || is_ascii_digit c || Ascii.eqb c "-"%char || Ascii.eqb c "."%char.

Definition authority_alphabet (s : string) : Prop := Forall (fun c => authority_char c = true) (bytes_of s).

Lemma authority_char_facts c :
  authority_char c = true ->
  is_ascii_byte c = true /\ is_whitespace (byte_val c) = false /\ Ascii.eqb ":"%char c = false
  /\ existsb (fun d => Ascii.eqb d c) authority_delimiters = false /\ to_lower c = c.
Proof.
  intros Hc.
  assert (H : implb (authority_char c) (is_ascii_byte c && negb (is_whitespace (byte_val c))
    && negb (Ascii.eqb ":"%char c) && negb (existsb (fun d => Ascii.eqb d c) authority_delimiters)
    && Ascii.eqb (to_lower c) c) = true) by by_bytes c.
  rewrite Hc in H. cbn [implb] in H. bool_hyps. repeat split; try done. by apply Ascii.eqb_eq.
Qed.

Lemma lower_host_char c : host_char c = true -> authority_char (to_lower c) = true.
Proof.
  intros Hc. assert (H : implb (host_char c) (authority_char (to_lower c)) = true) by by_bytes c.
  by rewrite Hc in H.
Qed.

Lemma digit_authority_char c : is_ascii_digit c = true -> authority_char c = true.
Proof. unfold authority_char. intros ->. by rewrite orb_true_r. Qed.

#[export] Hint Resolve digit_authority_char lower_host_char : hands.

Lemma utf8_chars_ascii l : Forall (fun b => b < 128) l -> utf8_chars l = l.
Proof.
  induction 1 as [|b l Hb Hl IH]; [done|]. cbn.
  destruct (Z.ltb_spec b 128); [by rewrite IH | lia].
Qed.

Lemma chars_ascii s : is_ascii s = true -> chars s = map byte_val (bytes_of s).
Proof.
  intros H. apply utf8_chars_ascii, Forall_map.
  apply forallb_Forall_true in H. eapply Forall_impl; [exact H|]. cbn.
  intros c Hc. unfold is_ascii_byte in Hc. bool_hyps. done.
Qed.

Lemma no_whitespace_token s :
  s <> EmptyString -> is_ascii s = true ->
  Forall (fun c => is_whitespace (byte_val c) = false) (bytes_of s) -> not_a_token s = false.
Proof.
  intros Hne Ha Hw. unfold not_a_token, trim_changes. rewrite chars_ascii by done.
  destruct s as [|c s]; [done|].
  assert (Hl : (str_len (String c s) =? 0) = false) by (apply Z.eqb_neq; unfold str_len; cbn [String.length]; lia).
  rewrite Hl. change (bytes_of (String c s)) with (c :: bytes_of s) in *.
  apply Forall_cons in Hw as [Hc Hw]. cbn [map existsb]. rewrite Hc. cbn [orb].
  assert (Hex : existsb is_whitespace (map byte_val (bytes_of s)) = false)
    by (apply existsb_false, Forall_map; done).
  rewrite Hex, !orb_false_r.
  rewrite existsb_false, Forall_forall in Hex.
  destruct (map byte_val (bytes_of s)) as [|b l] eqn:E; [done|].
  apply Hex. apply list_elem_of_In. destruct (exists_last (l := b :: l)) as (l' & x & ->); [done|].
  rewrite last_last. apply in_or_app. right. by left.
Qed.

Lemma rsplit_once_none c s : contains_char c s = false -> rsplit_once c s = None.
Proof.
  unfold contains_char. induction s as [|a s IH]; [done|].
  change (bytes_of (String a s)) with (a :: bytes_of s). cbn [existsb rsplit_once].
  intros H. bool_hyps. rewrite IH by done.
  by rewrite Ascii.eqb_sym, H.
Qed.

Lemma rsplit_once_app c l r : contains_char c r = false -> rsplit_once c (l +:+ String c r) = Some (l, r).
Proof.
  intros Hr. induction l as [|a l IH].
  - rewrite str_app_nil. cbn. rewrite rsplit_once_none by done. by rewrite Ascii.eqb_refl.
  - rewrite str_app_cons. cbn. by rewrite IH.
Qed.

(** ** Lemmas: lower-casing a host *)
Lemma bytes_of_map f s : bytes_of (map_string f s) = map f (bytes_of s).
Proof. apply bytes_of_list. Qed.

Lemma map_string_cons f c s : map_string f (String c s) = String (f c) (map_string f s).
Proof. done. Qed.

Lemma str_len_map f s : str_len (map_string f s) = str_len s.
Proof. unfold str_len. by rewrite <- !length_bytes_of, bytes_of_map, length_map. Qed.

Lemma map_string_id f s : Forall (fun c => f c = c) (bytes_of s) -> map_string f s = s.
Proof.
  intros H. apply bytes_of_inj. rewrite bytes_of_map.
  induction H as [|c l Hc _ IH]; [done|]. cbn. by rewrite Hc, IH.
Qed.

Lemma split_on_map f c s :
  (forall a, Ascii.eqb (f a) c = Ascii.eqb a c) ->
  split_on c (map_string f s) = map (map_string f) (split_on c s).
Proof.
  intros Hf. induction s as [|a s IH]; [done|]. rewrite map_string_cons. cbn [split_on].
  rewrite Hf, IH. destruct (Ascii.eqb a c); [done|]. by destruct (split_on c s).
Qed.

Lemma split_on_Forall (P : Ascii.ascii -> Prop) c s :
  P c -> Forall (fun p => Forall P (bytes_of p)) (split_on c s) -> Forall P (bytes_of s).
Proof.
  intros Hc. induction s as [|a s IH]; [constructor|]. cbn [split_on].
  change (bytes_of (String a s)) with (a :: bytes_of s).
  destruct (Ascii.eqb_spec a c) as [ -> |]; intros H.
  - apply Forall_cons in H as [_ H]. constructor; auto.
  - destruct (split_on c s) as [|p ps] eqn:E.
    + apply Forall_cons in H as [H _]. apply Forall_cons in H as [H _]. constructor; auto.
    + apply Forall_cons in H as [H1 H2]. apply Forall_cons in H1 as [H0 H1]. constructor; auto.
Qed.

Lemma lower_dash a : Ascii.eqb (to_lower a) "-"%char = Ascii.eqb a "-"%char.
Proof. apply eqb_true_iff. by_bytes a. Qed.

Lemma lower_dot a : Ascii.eqb (to_lower a) "."%char = Ascii.eqb a "."%char.
Proof. apply eqb_true_iff. by_bytes a. Qed.

Lemma lower_host a : host_char (to_lower a) = host_char a.
Proof. apply eqb_true_iff. by_bytes a. Qed.

Lemma lower_digit_dot a :
  is_ascii_digit (to_lower a) || Ascii.eqb (to_lower a) "."%char = is_ascii_digit a || Ascii.eqb a "."%char.
Proof. apply eqb_true_iff. by_bytes a. Qed.

Lemma forallb_map_lower (P : Ascii.ascii -> bool) s :
  (forall a, P (to_lower a) = P a) ->
  forallb P (bytes_of (to_ascii_lowercase s)) = forallb P (bytes_of s).
Proof. intros H. unfold to_ascii_lowercase. rewrite bytes_of_map. induction (bytes_of s); cbn; congruence. Qed.

Lemma starts_with_dash s : starts_with "-" s = match bytes_of s with a :: _ => Ascii.eqb "-"%char a | [] => false end.
Proof. unfold starts_with. destruct s as [|a s]; [done|]. cbn. by destruct a as [[] [] [] [] [] [] [] []]. Qed.

Lemma ends_with_dash s :
  ends_with "-" s = match rev (bytes_of s) with a :: _ => Ascii.eqb "-"%char a | [] => false end.
Proof. change (starts_with "-" (string_rev s) = match rev (bytes_of s) with a :: _ => Ascii.eqb "-"%char a | [] => false end).
  by rewrite starts_with_dash; unfold string_rev; rewrite bytes_of_list. Qed.

Lemma dash_lower_head l :
  match map to_lower l with a :: _ => Ascii.eqb "-"%char a | [] => false end
  = match l with a :: _ => Ascii.eqb "-"%char a | [] => false end.
Proof. destruct l as [|a l]; [done|]. cbn [map].
  by rewrite !(Ascii.eqb_sym "-"%char), lower_dash. Qed.

Lemma valid_label_lower l : valid_label (to_ascii_lowercase l) = valid_label l.
Proof.
  unfold valid_label. rewrite (forallb_map_lower host_char) by apply lower_host.
  rewrite !ends_with_dash, !starts_with_dash. unfold to_ascii_lowercase.
  by rewrite str_len_map, !bytes_of_map, <- map_rev, !dash_lower_head.
Qed.

Lemma ipv4_octet_digits s n : ipv4_octet s = Some n -> Forall (fun c => is_ascii_digit c = true) (bytes_of s).
Proof. unfold ipv4_octet. case_match eqn:E; [|done]. intros _. bool_hyps. by apply forallb_Forall_true. Qed.

Lemma parse_ipv4_alphabet h a : parse_ipv4 h = Some a -> authority_alphabet h.
Proof.
  unfold parse_ipv4. intros H. apply (split_on_Forall _ "."%char); [done|].
  destruct (split_on "."%char h) as [|p [|q [|r [|s [|]]]]]; try done.
  destruct (ipv4_octet p) eqn:Ep, (ipv4_octet q) eqn:Eq, (ipv4_octet r) eqn:Er, (ipv4_octet s) eqn:Es; try done.
  repeat (constructor; [eapply Forall_impl; [by eapply ipv4_octet_digits|]; cbn; auto with hands|]). constructor.
Qed.

Lemma alphabet_lower h : authority_alphabet h -> to_ascii_lowercase h = h.
Proof. intros H. apply map_string_id. eapply Forall_impl; [exact H|]. cbn. apply authority_char_facts. Qed.

Lemma labels_alphabet h :
  forallb valid_label (split_on "."%char h) = true -> authority_alphabet (to_ascii_lowercase h).
Proof.
  intros H. unfold authority_alphabet, to_ascii_lowercase. rewrite bytes_of_map. apply Forall_map.
  apply (split_on_Forall _ "."%char); [done|].
  apply forallb_Forall_true in H. eapply Forall_impl; [exact H|]. cbn. intros l Hl.
  unfold valid_label in Hl. bool_hyps. rewrite forallb_Forall_true in *.
  eapply Forall_impl; [eassumption|]. cbn. auto with hands.
Qed.

(** A valid host stays valid when lower-cased, and its lower-case form is in the canonical alphabet. *)
Lemma valid_host_lower h :
  valid_gateway_host h = true ->
  valid_gateway_host (to_ascii_lowercase h) = true /\ authority_alphabet (to_ascii_lowercase h).
Proof.
  unfold valid_gateway_host at 1. case_bool_decide as Hip.
  - intros _. destruct Hip as [a Hip]. pose proof (parse_ipv4_alphabet h a Hip) as Ha.
    rewrite alphabet_lower by done. split; [|done].
    unfold valid_gateway_host. by rewrite bool_decide_eq_true_2 by (by exists a).
  - case_match eqn:Hd; [done|]. intros H. bool_hyps. split; [|by apply labels_alphabet].
    unfold valid_gateway_host. case_bool_decide; [done|].
    rewrite (forallb_map_lower (fun ch => is_ascii_digit ch || Ascii.eqb ch "."%char)) by apply lower_digit_dot.
    rewrite Hd. unfold to_ascii_lowercase. rewrite str_len_map, split_on_map by apply lower_dot.
    apply andb_true_iff. split; [by apply Z.leb_le|].
    rewrite forallb_Forall_true in *. apply Forall_map. eapply Forall_impl; [eassumption|]. cbn.
    intros l Hl. by rewrite <- valid_label_lower in Hl.
Qed.

(** ** Lemmas: parsing a canonical authority *)
Lemma parse_digits_bounds acc max l n :
  0 <= acc <= max -> parse_digits acc max l = Some n -> 0 <= n <= max.
Proof.
  revert acc. induction l as [|c l IH]; intros acc Ha; cbn; [by intros [= <-]|].
  destruct (is_ascii_digit c) eqn:Hd; [|done]. unfold is_ascii_digit in Hd. bool_hyps.
  case_match; [|done]. bool_hyps. apply IH. lia.
Qed.

Lemma parse_uint_bounds max s n : 0 <= max -> parse_uint max s = Some n -> 0 <= n <= max.
Proof.
  unfold parse_uint. intros Hm. case_match; [done|]. apply parse_digits_bounds. lia.
Qed.

Lemma print_uint_digits n : 0 <= n -> Forall (fun c => is_ascii_digit c = true) (bytes_of (print_uint n)).
Proof. intros Hn. unfold print_uint. rewrite bytes_of_list. by apply dec_digits_digits. Qed.

(** Every byte of a printed authority is a host byte, the colon or a digit. *)
Definition printed_char (c : Ascii.ascii) : bool := authority_char c || Ascii.eqb c ":"%char.

Lemma printed_char_facts c :
  printed_char c = true ->
  is_ascii_byte c = true /\ is_whitespace (byte_val c) = false
  /\ existsb (fun d => Ascii.eqb d c) authority_delimiters = false.
Proof.
  intros Hc. assert (H : implb (printed_char c) (is_ascii_byte c && negb (is_whitespace (byte_val c))
    && negb (existsb (fun d => Ascii.eqb d c) authority_delimiters)) = true) by by_bytes c.
  rewrite Hc in H. cbn [implb] in H. by bool_hyps.
Qed.

Lemma no_slash_no_double l : Forall (fun c => Ascii.eqb "/"%char c = false) l -> contains_double_slash l = false.
Proof.
  induction 1 as [|a l Ha Hl IH]; [done|]. cbn.
  destruct l as [|b l]; [done|]. rewrite (Ascii.eqb_sym a), Ha. exact IH.
Qed.

Lemma printed_not_refused s :
  s <> EmptyString -> Forall (fun c => printed_char c = true) (bytes_of s) ->
  not_a_token s || contains_double_slash (bytes_of s) || existsb (fun c => contains_char c s) authority_delimiters = false.
Proof.
  intros Hne H. assert (Hd : forall d, d ∈ authority_delimiters -> Forall (fun c => Ascii.eqb d c = false) (bytes_of s)).
  { intros d Hd. eapply Forall_impl; [exact H|]. cbn. intros c Hc.
    destruct (printed_char_facts c Hc) as (_ & _ & He). rewrite existsb_false, Forall_forall in He. auto. }
  apply orb_false_iff. split; [apply orb_false_iff; split|].
  - apply no_whitespace_token; [done| |].
    + unfold is_ascii. apply forallb_Forall_true. eapply Forall_impl; [exact H|]. cbn. apply printed_char_facts.
    + eapply Forall_impl; [exact H|]. cbn. apply printed_char_facts.
  - apply no_slash_no_double, Hd. apply list_elem_of_In. cbn. auto.
  - apply existsb_false, Forall_forall. intros d Hin. apply contains_char_false. by apply Hd.
Qed.

Lemma parse_as_authority h p :
  valid_gateway_host h = true -> authority_alphabet h -> str_len h <> 0 -> 1 <= p <= U16_MAX ->
  GatewayAuthority_parse (as_authority (mkGatewayAuthority h p)) = Ok (mkGatewayAuthority h p).
Proof.
  intros Hv Ha Hne Hp. unfold GatewayAuthority_parse, as_authority. cbn [host port].
  rewrite printed_not_refused.
  2:{ destruct h; [done|]. by rewrite str_app_cons. }
  2:{ rewrite !bytes_of_app. apply Forall_app. split; [|apply Forall_app; split].
      - eapply Forall_impl; [exact Ha|]. cbn. unfold printed_char. by intros c ->.
      - by repeat constructor.
      - eapply Forall_impl; [apply print_uint_digits; lia|]. cbn. intros c Hc. unfold printed_char.
        by rewrite digit_authority_char. }
  rewrite str_app_cons, str_app_nil, rsplit_once_app.
  2:{ apply contains_char_false. eapply Forall_impl; [apply print_uint_digits; lia|]. cbn. intros c Hc.
      by apply authority_char_facts, digit_authority_char. }
  cbn [ok_or mbind result_bind].
  rewrite (proj2 (Z.eqb_neq _ _)) by done.
  rewrite (proj2 (contains_char_false ":"%char h)).
  2:{ eapply Forall_impl; [exact Ha|]. cbn. intros c Hc. by apply authority_char_facts. }
  rewrite Hv. cbn [orb negb].
  rewrite parse_print_uint by (unfold U16_MAX, U64_MAX in *; lia).
  rewrite (proj2 (Z.eqb_neq _ _)) by lia. by rewrite alphabet_lower.
Qed.

(** ** Properties *)

(** An accepted gateway authority is in canonical form (a valid lower-case host with no delimiter, a
    port in [1, 65535]), and printing it and parsing it again gives the same authority. *)
Theorem gateway_authority_roundtrip v a :
  GatewayAuthority_parse v = Ok a ->
  GatewayAuthority_parse (as_authority a) = Ok a
  /\ valid_gateway_host (host a) = true /\ authority_alphabet (host a) /\ 1 <= port a <= 65535.
Proof.
  unfold GatewayAuthority_parse at 1. intros H. case_match; [done|].
  apply result_bind_Ok in H as ([h p] & Hs & H). case_match eqn:Hh; [done|]. bool_hyps.
  destruct (parse_uint U16_MAX p) as [n|] eqn:Hn; [|done]. case_match; [done|]. simplify_eq. bool_hyps.
  apply parse_uint_bounds in Hn; [|unfold U16_MAX; lia].
  destruct (valid_host_lower h) as [Hv Ha]; [done|]. split; [|unfold U16_MAX in *; cbn [host port]; repeat split; try done; lia].
  apply parse_as_authority; try done; [|lia]. unfold to_ascii_lowercase. by rewrite str_len_map.
Qed.

Lemma gateway_authority_roundtrip_witness :
  GatewayAuthority_parse "Gateway.Internal:+8443" = Ok (mkGatewayAuthority "gateway.internal" 8443)
  /\ GatewayAuthority_parse "gateway.internal:8443" = Ok (mkGatewayAuthority "gateway.internal" 8443).
Proof.
  split; [vm_compute; reflexivity|].
  apply (gateway_authority_roundtrip "Gateway.Internal:+8443" (mkGatewayAuthority "gateway.internal" 8443)).
  vm_compute. reflexivity.
Defined.

Example refused_authorities :
  forallb (fun v => is_err (GatewayAuthority_parse v))
    [""; "10.0.0.10"; "10.0.0.10:0"; "999.0.0.1:8443"; "http://10.0.0.10:8443"; "aex:secret@10.0.0.10:8443";
     "10.0.0.10:8443/path"; "[::1]:8443"; "-a.b:1"; "a..b:1"; "a b:1"; "1.2.3.04:1"; "a:65536"] = true.
Proof. vm_compute. reflexivity. Qed.

(** catalog construction never broadens: it succeeds exactly when every class has a well-formed
    reference of its own, and then each class resolves to its own reference, never to another's. *)
Theorem connector_catalog_never_falls_back lookup c :
  from_lookup lookup = Ok c <->
  (forall class, exists v, lookup class = Some v /\ not_a_token v = false)
  /\ c = ConnectorCatalog_new (mkConnectorRef (default "" (lookup ConnNone)))
       (mkConnectorRef (default "" (lookup ConnPublic))) (mkConnectorRef (default "" (lookup ConnAllowlist)))
  /\ forall class, resolve c class = mkConnectorRef <$> lookup class.
Proof.
  assert (Hl : forall class r, lookup_ref lookup class = Ok r <->
    exists v, lookup class = Some v /\ not_a_token v = false /\ r = mkConnectorRef v).
  { intros class r. unfold lookup_ref, ConnectorRef_parse. destruct (lookup class) as [v|]; cbn; [|split; [done | by intros (? & ? & _)]].
    case_match eqn:Hv; split; [done | intros (? & [= <-] & ? & _); congruence | | by intros (? & [= <-] & _ & ->)].
    intros [= <-]. eauto. }
  assert (Hb : from_lookup lookup = Ok c <-> exists r1 r2 r3, lookup_ref lookup ConnNone = Ok r1
    /\ lookup_ref lookup ConnPublic = Ok r2 /\ lookup_ref lookup ConnAllowlist = Ok r3
    /\ c = ConnectorCatalog_new r1 r2 r3).
  { unfold from_lookup. run_step. destruct (lookup_ref lookup ConnNone), (lookup_ref lookup ConnPublic),
      (lookup_ref lookup ConnAllowlist); naive_solver. }
  rewrite Hb. setoid_rewrite Hl. split.
  - intros (? & ? & ? & (v1 & H1 & T1 & ->) & (v2 & H2 & T2 & ->) & (v3 & H3 & T3 & ->) & ->).
    split_and!; [intros []; eauto | by rewrite H1, H2, H3 | intros []; cbn; by rewrite ?H1, ?H2, ?H3].
  - intros (Hall & -> & _).
    destruct (Hall ConnNone) as (v1 & H1 & T1), (Hall ConnPublic) as (v2 & H2 & T2),
      (Hall ConnAllowlist) as (v3 & H3 & T3).
    rewrite H1, H2, H3. cbn. eauto 20.
Qed.
