(* ===== verification/Page.v ===== *)
(** * hand-core pagination

    Models crates/hand-core/src/page.rs and states, as an interface, what a paginated listing promises
    its callers: walking the cursors from the start yields the whole listing, each item once. *)
From S2P Require Import Prelude.

(** ** Data and operation *)
Definition MAX_PAGE : Z := 100.

Record Page (T : Type) := mkPage { items : list T; next_cursor : option string }.
Arguments mkPage {T} items next_cursor.
Arguments items {T} p.
Arguments next_cursor {T} p.

Class PageIdentity (T : Type) := page_identity : T -> string.

(** [None] is the panic of [items[limit - 1]] with a zero limit and a non-empty result set. *)
Definition page {T} `{PageIdentity T} (its : list T) (limit : Z) : option (Page T) :=
  next ← (if limit <? len its
          then t ← (if limit =? 0 then None else its !! Z.to_nat (limit - 1)); Some (Some (page_identity t))
          else Some None);
  Some (mkPage (take (Z.to_nat limit) its) next).

(** ** Byte order on identities ([str]'s [Ord]) *)
Definition str_lt (a b : string) : Prop := str_ltb a b = true.

Lemma str_lt_irrefl a : ~ str_lt a a.
Proof. unfold str_lt, str_ltb. pose proof (String.compare_antisym a a). by destruct (String.compare a a). Qed.

Lemma ascii_compare_trans a b c : Ascii.compare a b = Lt -> Ascii.compare b c = Lt -> Ascii.compare a c = Lt.
Proof. unfold Ascii.compare. rewrite !N.compare_lt_iff. lia. Qed.

Lemma str_compare_trans a b c : String.compare a b = Lt -> String.compare b c = Lt -> String.compare a c = Lt.
Proof.
  revert b c. induction a as [|x a IH]; intros [|y b] [|z c]; cbn; try done.
  destruct (Ascii.compare x y) eqn:Hxy; try done.
  - apply Ascii.compare_eq_iff in Hxy as ->. destruct (Ascii.compare y z) eqn:Hyz; try done. apply IH.
  - intros _. destruct (Ascii.compare y z) eqn:Hyz; try done.
    + apply Ascii.compare_eq_iff in Hyz as ->. by rewrite Hxy.
    + by rewrite (ascii_compare_trans _ _ _ Hxy Hyz).
Qed.

Lemma str_ltb_compare a b : str_ltb a b = true <-> String.compare a b = Lt.
Proof. unfold str_ltb. by destruct (String.compare a b). Qed.

#[global] Instance str_lt_trans : Transitive str_lt.
Proof. intros a b c. unfold str_lt. rewrite !str_ltb_compare. apply str_compare_trans. Qed.

Lemma str_lt_total a b : str_lt a b \/ a = b \/ str_lt b a.
Proof.
  unfold str_lt. rewrite !str_ltb_compare. destruct (String.compare a b) eqn:E; auto.
  - right. left. by apply String.compare_eq_iff.
  - right. right. rewrite String.compare_antisym, E. done.
Qed.

Lemma str_lt_app p a b : str_lt (p +:+ a) (p +:+ b) <-> str_lt a b.
Proof.
  unfold str_lt. rewrite !str_ltb_compare. induction p as [|c p IH]; [done|]. rewrite !str_app_cons. cbn.
  unfold Ascii.compare. by rewrite N.compare_refl.
Qed.

(** The order that sorts names. *)
Definition str_leb (a b : string) : bool := negb (str_ltb b a).

Lemma str_leb_total a b : str_leb a b = true \/ str_leb b a = true.
Proof.
  unfold str_leb. rewrite !negb_true_iff. destruct (str_ltb b a) eqn:E; [right | by left].
  destruct (str_ltb a b) eqn:E'; [|done]. exfalso. eapply str_lt_irrefl. etrans; [exact E | exact E'].
Qed.

Lemma str_leb_iff a b : str_leb a b = true <-> a = b \/ str_lt a b.
Proof.
  unfold str_leb. rewrite negb_true_iff. split.
  - intros Hn. destruct (str_lt_total a b) as [?|[?|H]]; [tauto | tauto | unfold str_lt in H; congruence].
  - intros [->|H]; destruct (str_ltb b _) eqn:E; try done; exfalso; eapply str_lt_irrefl; [exact E|].
    etrans; [exact H | exact E].
Qed.

Lemma str_leb_trans a b c : str_leb a b = true -> str_leb b c = true -> str_leb a c = true.
Proof. rewrite !str_leb_iff. intros [->|H1] [->|H2]; eauto. right. by etrans. Qed.

Lemma str_leb_antisym a b : str_leb a b = true -> str_leb b a = true -> a = b.
Proof. rewrite !str_leb_iff. intros [H1|H1] [H2|H2]; try done. exfalso. eapply (str_lt_irrefl a). by etrans. Qed.

(** Sorting forgets the order. *)
Lemma sort_str_perm l l' : sort_by str_leb l = sort_by str_leb l' <-> l ≡ₚ l'.
Proof.
  split; intros H.
  - by rewrite <- (sort_by_Permutation str_leb l), H, sort_by_Permutation.
  - assert (Hp : sort_by str_leb l ≡ₚ sort_by str_leb l') by by rewrite !sort_by_Permutation.
    assert (Ha : AntiSymm eq (fun a b => Is_true (str_leb a b))).
    { intros a b Hab Hba. apply str_leb_antisym; by apply Is_true_true. }
    apply (StronglySorted_unique (fun a b => Is_true (str_leb a b))); [| |done];
      apply (sort_by_sorted str_leb str_leb_total str_leb_trans).
Qed.

#[global] Instance str_lt_dec a b : Decision (str_lt a b) := decide (str_ltb a b = true).

(** ** The interface of a paginated listing *)

(** [after cursor t]: the item is past the cursor of the previous page. *)
Definition after {T} `{PageIdentity T} (cursor : option string) (t : T) : bool :=
  match cursor with Some c => str_ltb c (page_identity t) | None => true end.

Definition id_sorted {T} `{PageIdentity T} : list T -> Prop :=
  StronglySorted (fun a b => str_lt (page_identity a) (page_identity b)).

(** The cursors a client can hold: none, or the identity of an item it was given. *)
Definition cursor_of {T} `{PageIdentity T} (all : list T) (cursor : option string) : Prop :=
  match cursor with Some c => exists t, t ∈ all /\ c = page_identity t | None => True end.

(** A listing is a view of one strictly sorted sequence: it over-fetches one item past the cursor and
    trims to a page. *)
Class PageSource {T} `{PageIdentity T} (list_page : option string -> Z -> option (Page T)) (all : list T) := {
  source_sorted : id_sorted all;
  source_page : forall cursor limit, cursor_of all cursor -> 1 <= limit <= MAX_PAGE ->
    list_page cursor limit = page (take (Z.to_nat (limit + 1)) (List.filter (after cursor) all)) limit;
}.

(** A client that follows cursors until there is none. *)
Fixpoint walk {T} (list_page : option string -> Z -> option (Page T)) (limit : Z) (fuel : nat)
    (cursor : option string) : option (list T) :=
  match fuel with
  | O => None
  | S fuel =>
      p ← list_page cursor limit;
      match next_cursor p with
      | None => Some (items p)
      | Some c => rest ← walk list_page limit fuel (Some c); Some (items p ++ rest)
      end
  end.

(** ** Lemmas *)
Section page_facts.
Context {T : Type} `{PageIdentity T}.
Implicit Types (l all : list T).

(** The items past the identity of a list's own element are the ones that follow it. *)
Lemma filter_after_split l1 t l2 :
  id_sorted (l1 ++ t :: l2) -> List.filter (after (Some (page_identity t))) (l1 ++ t :: l2) = l2.
Proof.
  unfold id_sorted. induction l1 as [|a l1 IH]; cbn; intros Hs; apply StronglySorted_inv in Hs as [Hs Ha].
  - destruct (str_ltb (page_identity t) (page_identity t)) eqn:E; [by apply str_lt_irrefl in E|].
    clear E Hs. induction Ha as [|b l Hb _ IH]; [done|]. cbn. unfold str_lt in Hb. by rewrite Hb, IH.
  - apply Forall_app in Ha as [_ Ha]. apply Forall_cons in Ha as [Ha _].
    destruct (str_ltb (page_identity t) (page_identity a)) eqn:E; [|auto].
    exfalso. eapply str_lt_irrefl. etrans; [exact Ha | exact E].
Qed.

Lemma filter_after_None l : List.filter (after None) l = l.
Proof. induction l as [|a l IH]; cbn; [done|]. by rewrite IH. Qed.

(** One page of a suffix: either all of it, or its first [limit] items and the cursor of the last. *)
Lemma page_suffix l limit :
  1 <= limit ->
  (len l <= limit /\ page (take (Z.to_nat (limit + 1)) l) limit = Some (mkPage l None))
  \/ exists l1 t l2, l = (l1 ++ [t]) ++ l2 /\ l2 <> []
     /\ page (take (Z.to_nat (limit + 1)) l) limit = Some (mkPage (l1 ++ [t]) (Some (page_identity t))).
Proof.
  intros Hl. unfold page, len. rewrite length_take.
  destruct (Z.le_gt_cases (Z.of_nat (length l)) limit) as [Hle|Hgt]; [left|right].
  - split; [done|]. rewrite (proj2 (Z.ltb_ge _ _)) by lia. cbn.
    by rewrite !take_ge by (rewrite ?length_take; lia).
  - set (k := Z.to_nat (limit - 1)).
    destruct (lookup_lt_is_Some_2 l k) as [t Ht]; [lia|].
    exists (take k l), t, (drop (S k) l).
    assert (Hsplit : take k l ++ [t] = take (S k) l) by (by rewrite (take_S_r _ _ t)).
    rewrite Hsplit. split; [by rewrite take_drop|]. split.
    { intros E. apply (f_equal length) in E. rewrite length_drop in E. cbn in E. lia. }
    rewrite (proj2 (Z.ltb_lt _ _)) by lia. rewrite (proj2 (Z.eqb_neq _ _)) by lia.
    rewrite lookup_take_lt by lia. fold k. rewrite Ht. cbn.
    rewrite take_take. do 2 f_equal. f_equal. lia.
Qed.

Lemma page_total l limit : 1 <= limit -> is_Some (page l limit).
Proof.
  intros Hl. unfold page. destruct (Z.ltb_spec limit (len l)) as [Hlt|]; [|done].
  rewrite (proj2 (Z.eqb_neq _ _)) by lia.
  destruct (lookup_lt_is_Some_2 l (Z.to_nat (limit - 1))) as [t ->]; [unfold len in Hlt; lia | done].
Qed.

Lemma walk_suffix list_page all `{!PageSource list_page all} limit fuel l1 l2 cursor :
  cursor_of all cursor -> 1 <= limit <= MAX_PAGE -> all = l1 ++ l2 -> List.filter (after cursor) all = l2 ->
  (length l2 < fuel)%nat ->
  walk list_page limit fuel cursor = Some l2.
Proof.
  intros Hc Hl. revert l1 l2 cursor Hc. induction fuel as [|fuel IH]; intros l1 l2 cursor Hc Hall Hf Hlen; [lia|].
  cbn. rewrite source_page, Hf by (done || lia).
  destruct (page_suffix l2 limit ltac:(lia)) as [[_ ->] | (m & t & l3 & -> & Hne & ->)]; [done|]. cbn.
  rewrite (IH (l1 ++ m ++ [t]) l3).
  - done.
  - exists t. split; [rewrite Hall; set_solver | done].
  - rewrite Hall. by rewrite !app_assoc.
  - pose proof (source_sorted (list_page := list_page) (all := all)) as Hs. rewrite Hall in Hs |- *.
    rewrite <- !app_assoc in *. rewrite (app_assoc l1 m) in *. by apply filter_after_split.
  - rewrite !length_app in Hlen. cbn in Hlen. lia.
Qed.

(** Walking from the start with a positive limit terminates and yields exactly the listing. *)
Lemma walk_all list_page all `{!PageSource list_page all} limit fuel :
  1 <= limit <= MAX_PAGE -> (length all < fuel)%nat -> walk list_page limit fuel None = Some all.
Proof. intros Hl Hf. apply (walk_suffix list_page all limit fuel [] all); try done. apply filter_after_None. Qed.
End page_facts.
