(* ===== verification/Target.v ===== *)
(** * hand-core materialization: identities, leases and durable records

    Models crates/hand-core/src/materialization/{mod,spec,record,port}.rs: target keys, the immutable
    target spec, materialization leases, durable records and their validation. The spec digest
    (SHA-256 of canonical JSON, both outside the repository) is a section variable. *)
From S2P Require Import Prelude Policy Page.

(** ** Errors (mod.rs) *)
Inductive MaterializationError :=
  | InvalidIdentity (field : string)
  | InvalidLease
  | InvalidLaunchRequestM
  | InvalidControlTokenM
  | InvalidReplacement
  | InvalidCapacity
  | SpecConflict
  | Pending (retry_after_ms : Z)
  | Gone
  | Terminated
  | CapacityError (scope : string) (retry_after_ms : Z) (message : string)
  | LaunchRejected (message : string)
  | LaunchRetryable (message : string)
  | LaunchOutcomeUnknown (message : string)
  | ReservationLost (cleanup : option string)
  | Storage (message : string)
  | Corrupt (message : string).

#[global] Instance MaterializationError_eq_dec : EqDecision MaterializationError.
Proof. solve_decision. Defined.

Definition DEFAULT_TARGET_KEY : string := "target:default".
Definition ADDITIONAL_PREFIX : string := "target:additional:".
Definition MAX_MATERIALIZATION_POLL_MS : Z := 1000.
Definition MAX_REASON_BYTES : Z := 512.
Definition MAX_IMAGE_IDENTITY_BYTES : Z := 256.
Definition MAX_MATERIALIZED_MIB : Z := 1048576.

Definition from_secret_error (e : SecretError) : MaterializationError :=
  match e with
  | InvalidControlToken => InvalidControlTokenM
  | InvalidLaunchRequest => InvalidLaunchRequestM
  end.

Definition from_identity_error (e : IdentityError) : MaterializationError :=
  match e with mkIdentityError f => InvalidIdentity f end.

Definition mat_validate_identifier (value field : string) : result MaterializationError unit :=
  map_err from_identity_error (validate_identifier value field).
Definition mat_validate_bounded_token (value field : string) (max : Z) : result MaterializationError unit :=
  map_err from_identity_error (validate_bounded_token value field max).
Definition mat_validate_digest (value field : string) : result MaterializationError unit :=
  map_err from_identity_error (validate_digest value field).

Definition validate_reason (reason : string) : result MaterializationError unit :=
  if (str_len reason =? 0) || (MAX_REASON_BYTES <? str_len reason)
  then Err (InvalidIdentity "reason") else Ok tt.

(** ** Target keys (spec.rs) *)
Record TargetKey := mkTargetKey { root_id : string; target_key : string }.

#[global] Instance TargetKey_eq_dec : EqDecision TargetKey.
Proof. solve_decision. Defined.
#[global] Instance TargetKey_countable : Countable TargetKey.
Proof.
  refine (inj_countable' (fun k => (root_id k, target_key k)) (fun '(r, t) => mkTargetKey r t) _).
  by intros [].
Defined.

Definition for_default_target (root : string) : result MaterializationError TargetKey :=
  _ ← mat_validate_identifier root "root_id";
  Ok (mkTargetKey root DEFAULT_TARGET_KEY).

Definition additional (root sandbox_id : string) : result MaterializationError TargetKey :=
  _ ← mat_validate_identifier root "root_id";
  _ ← mat_validate_identifier sandbox_id "sandbox_id";
  Ok (mkTargetKey root (ADDITIONAL_PREFIX +:+ sandbox_id)).

Definition is_default (k : TargetKey) : bool := str_eqb (target_key k) DEFAULT_TARGET_KEY.

Definition sandbox_identity (k : TargetKey) : result MaterializationError string :=
  if is_default k then Ok "default"
  else ok_or (InvalidIdentity "target_key") (strip_prefix ADDITIONAL_PREFIX (target_key k)).

Definition TargetKey_validate (k : TargetKey) : result MaterializationError unit :=
  _ ← mat_validate_identifier (root_id k) "root_id";
  if is_default k then Ok tt
  else
    id ← sandbox_identity k;
    mat_validate_identifier id "sandbox_id".

(** ** Target specs (spec.rs) *)
Record TargetSpec := mkTargetSpec {
  connector : ConnectorClass;
  image_identity : string;
  resource_class : string;
  materialized_mib : Z;
  resource_policy_digest : string;
  network_policy_digest : string;
}.

#[global] Instance TargetSpec_eq_dec : EqDecision TargetSpec.
Proof. solve_decision. Defined.

Definition TargetSpec_new (connector : ConnectorClass) (image_identity resource_class : string)
    (materialized_mib : Z) (resource_policy_digest network_policy_digest : string)
    : result MaterializationError TargetSpec :=
  _ ← mat_validate_bounded_token image_identity "image_identity" MAX_IMAGE_IDENTITY_BYTES;
  _ ← mat_validate_identifier resource_class "resource_class";
  if (materialized_mib =? 0) || (MAX_MATERIALIZED_MIB <? materialized_mib)
  then Err InvalidCapacity
  else
    _ ← mat_validate_digest resource_policy_digest "resource_policy_digest";
    _ ← mat_validate_digest network_policy_digest "network_policy_digest";
    Ok (mkTargetSpec connector image_identity resource_class materialized_mib
          resource_policy_digest network_policy_digest).

(** ** Leases and records (record.rs) *)
Record MaterializationLease := mkMaterializationLease {
  l_key : TargetKey;
  l_spec : TargetSpec;
  l_spec_digest : string;
  l_reservation_id : string;
  l_generation : string;
  l_launch_request : DurableLaunchRequest;
  l_attempt_id : string;
  l_attempt_expires_at_ms : Z;
  l_target_expires_at_ms : Z;
  l_lease_expires_at_ms : Z;
  recovery_attempt : bool;
}.

#[global] Instance MaterializationLease_eq_dec : EqDecision MaterializationLease.
Proof. solve_decision. Defined.

Record InstalledTarget := mkInstalledTarget {
  i_key : TargetKey;
  i_spec : TargetSpec;
  i_spec_digest : string;
  i_target_ref : string;
  i_generation : string;
  i_control_token : ControlToken;
  i_installed_at_ms : Z;
  i_expires_at_ms : Z;
}.

#[global] Instance InstalledTarget_eq_dec : EqDecision InstalledTarget.
Proof. solve_decision. Defined.

Inductive Disposition := Lost | DTerminated.

#[global] Instance Disposition_eq_dec : EqDecision Disposition.
Proof. solve_decision. Defined.

Inductive DurableTargetState :=
  | Materializing (reservation_id : string) (launch_request : DurableLaunchRequest) (attempt_id : string)
      (attempt_expires_at_ms target_expires_at_ms lease_expires_at_ms : Z)
  | Installed (target_ref : string) (control_token : ControlToken) (installed_at_ms expires_at_ms : Z)
  | Closed (disposition : Disposition) (reason : string) (at_ms : Z).

#[global] Instance DurableTargetState_eq_dec : EqDecision DurableTargetState.
Proof. solve_decision. Defined.

Record DurableTargetRecord := mkDurableTargetRecord {
  r_key : TargetKey;
  r_spec : TargetSpec;
  r_spec_digest : string;
  r_generation : string;
  r_state : DurableTargetState;
  r_updated_at_ms : Z;
}.

#[global] Instance DurableTargetRecord_eq_dec : EqDecision DurableTargetRecord.
Proof. solve_decision. Defined.

#[global] Instance DurableTargetRecord_identity : PageIdentity DurableTargetRecord :=
  fun r => target_key (r_key r).

Record AcquireTarget := mkAcquireTarget {
  a_key : TargetKey;
  a_spec : TargetSpec;
  a_reservation_id : string;
  a_generation : string;
  a_launch_request : DurableLaunchRequest;
  a_attempt_id : string;
  a_attempt_duration_ms : Z;
  generation_is_fenced : bool;
  a_now_ms : Z;
  a_lease_duration_ms : Z;
  a_target_lifetime_ms : Z;
  replace_after_loss : bool;
}.

Inductive AcquireOutcome :=
  | AcqAcquired (lease : MaterializationLease)
  | AcqPending (generation : string) (retry_after_ms : Z)
  | AcqInstalled (target : InstalledTarget)
  | AcqGone
  | AcqTerminated.

Inductive InstallOutcome :=
  | InstInstalled (target : InstalledTarget)
  | InstReservationLost.

(** ** The launcher's port (port.rs) *)
Record PhysicalTarget := mkPhysicalTarget { p_target_ref : string; p_generation : string; p_control_token : ControlToken }.

#[global] Instance PhysicalTarget_eq_dec : EqDecision PhysicalTarget.
Proof. solve_decision. Defined.

Definition PhysicalTarget_new (target_ref generation : string) (token : ControlToken)
    : result MaterializationError PhysicalTarget :=
  _ ← mat_validate_identifier target_ref "target_ref";
  _ ← mat_validate_identifier generation "generation";
  Ok (mkPhysicalTarget target_ref generation token).

Inductive LaunchError :=
  | LCapacity (scope : string) (retry_after_ms : Z) (message : string)
  | KnownNoTarget (message : string)
  | RetryableKnownNoTarget (message : string)
  | OutcomeUnknown (message : string).

Section record.
(** [hex(sha256(jcs(spec)))] *)
Context (spec_digest : TargetSpec -> string).

Definition InstalledTarget_validate (t : InstalledTarget) : result MaterializationError unit :=
  _ ← TargetKey_validate (i_key t);
  _ ← mat_validate_digest (i_spec_digest t) "spec_digest";
  if negb (str_eqb (spec_digest (i_spec t)) (i_spec_digest t)) then Err SpecConflict
  else
    _ ← mat_validate_identifier (i_target_ref t) "target_ref";
    _ ← mat_validate_identifier (i_generation t) "generation";
    if (i_expires_at_ms t =? 0) || (i_expires_at_ms t <? i_installed_at_ms t)
    then Err InvalidLease else Ok tt.

Definition state_validate (updated_at_ms : Z) (s : DurableTargetState) : result MaterializationError unit :=
  match s with
  | Materializing reservation_id launch_request attempt_id attempt_expires target_expires lease_expires =>
      _ ← mat_validate_identifier reservation_id "reservation_id";
      _ ← map_err from_secret_error (DurableLaunchRequest_validate launch_request);
      _ ← mat_validate_identifier attempt_id "attempt_id";
      if (target_expires =? 0) || (lease_expires <=? target_expires) || (target_expires <? updated_at_ms)
         || (attempt_expires <=? updated_at_ms) || (lease_expires <? attempt_expires)
      then Err InvalidLease else Ok tt
  | Installed target_ref _ installed_at_ms expires_at_ms =>
      _ ← mat_validate_identifier target_ref "target_ref";
      if (expires_at_ms =? 0) || (expires_at_ms <? installed_at_ms) then Err InvalidLease else Ok tt
  | Closed _ reason _ => validate_reason reason
  end.

Definition DurableTargetRecord_validate (r : DurableTargetRecord) : result MaterializationError unit :=
  _ ← TargetKey_validate (r_key r);
  _ ← mat_validate_digest (r_spec_digest r) "spec_digest";
  if negb (str_eqb (spec_digest (r_spec r)) (r_spec_digest r)) then Err SpecConflict
  else
    _ ← mat_validate_identifier (r_generation r) "generation";
    state_validate (r_updated_at_ms r) (r_state r).

Definition AcquireTarget_validate (a : AcquireTarget) : result MaterializationError unit :=
  _ ← TargetKey_validate (a_key a);
  _ ← mat_validate_identifier (a_reservation_id a) "reservation_id";
  _ ← mat_validate_identifier (a_generation a) "generation";
  _ ← map_err from_secret_error (DurableLaunchRequest_validate (a_launch_request a));
  _ ← mat_validate_identifier (a_attempt_id a) "attempt_id";
  if (a_target_lifetime_ms a =? 0) || (a_lease_duration_ms a <=? a_target_lifetime_ms a) then Err InvalidLease
  else if (a_attempt_duration_ms a =? 0) || (a_lease_duration_ms a <=? a_attempt_duration_ms a) then Err InvalidLease
  else if replace_after_loss a && negb (is_default (a_key a)) then Err InvalidReplacement
  else Ok tt.

Definition AcquireTarget_lease (a : AcquireTarget) : result MaterializationError MaterializationLease :=
  _ ← AcquireTarget_validate a;
  lease_expires ← ok_or InvalidLease (checked_add (a_now_ms a) (a_lease_duration_ms a));
  target_expires ← ok_or InvalidLease (checked_add (a_now_ms a) (a_target_lifetime_ms a));
  attempt_expires ← ok_or InvalidLease (checked_add (a_now_ms a) (a_attempt_duration_ms a));
  Ok (mkMaterializationLease (a_key a) (a_spec a) (spec_digest (a_spec a)) (a_reservation_id a) (a_generation a)
        (a_launch_request a) (a_attempt_id a) attempt_expires target_expires lease_expires false).
End record.

Definition installed (r : DurableTargetRecord) : option InstalledTarget :=
  match r_state r with
  | Installed target_ref control_token installed_at_ms expires_at_ms =>
      Some (mkInstalledTarget (r_key r) (r_spec r) (r_spec_digest r) target_ref (r_generation r)
              control_token installed_at_ms expires_at_ms)
  | _ => None
  end.

Definition lease_from_materializing_record (r : DurableTargetRecord)
    : result MaterializationError MaterializationLease :=
  match r_state r with
  | Materializing reservation_id launch_request attempt_id attempt_expires target_expires lease_expires =>
      Ok (mkMaterializationLease (r_key r) (r_spec r) (r_spec_digest r) reservation_id (r_generation r)
            launch_request attempt_id attempt_expires target_expires lease_expires true)
  | _ => Err (Corrupt "expected materializing target")
  end.

Definition recovery_lease : DurableTargetRecord -> result MaterializationError MaterializationLease :=
  lease_from_materializing_record.

Definition materialization_poll_after (lease_expires_at_ms now_ms : Z) : Z :=
  clamp (saturating_sub lease_expires_at_ms now_ms) 1 MAX_MATERIALIZATION_POLL_MS.

(** ** Lemmas *)
Lemma mat_validate_identifier_Ok v f : mat_validate_identifier v f = Ok tt <-> identifier v.
Proof. unfold mat_validate_identifier. rewrite map_err_Ok. apply validate_identifier_Ok. Qed.

Lemma mat_validate_digest_Ok v f : mat_validate_digest v f = Ok tt <-> hex_digest v.
Proof. unfold mat_validate_digest. rewrite map_err_Ok. apply validate_digest_Ok. Qed.

(** A successful run of a chain of [?]s: split it into its successes. *)
Ltac ok_steps :=
  repeat match goal with
    | H : (_ ≫= _) = Ok _ |- _ => apply result_bind_Ok in H; destruct H as (? & ? & H)
    | H : (if ?b then _ else Err _) = Ok _ |- _ => destruct b eqn:?; [|discriminate]
    | H : (if ?b then Err _ else _) = Ok _ |- _ => destruct b eqn:?; [discriminate|]
    | H : ok_or _ ?o = Ok _ |- _ => destruct o eqn:?; cbn in H; [|discriminate]
    | H : map_err _ _ = Ok _ |- _ => apply map_err_Ok in H
    | x : unit |- _ => destruct x
    | H : Ok _ = Ok _ |- _ => injection H as H; try subst
    | H : mat_validate_identifier _ _ = Ok tt |- _ => apply mat_validate_identifier_Ok in H
    | H : mat_validate_digest _ _ = Ok tt |- _ => apply mat_validate_digest_Ok in H
    | H : checked_add _ _ = Some _ |- _ => apply checked_add_Some in H as [-> ?]
    end.

(** A target key is one of exactly two shapes. *)
Definition target_key_wf (k : TargetKey) : Prop :=
  identifier (root_id k)
  /\ (target_key k = DEFAULT_TARGET_KEY \/ exists s, identifier s /\ target_key k = ADDITIONAL_PREFIX +:+ s).

Lemma is_default_true k : is_default k = true <-> target_key k = DEFAULT_TARGET_KEY.
Proof. apply str_eqb_eq. Qed.

Lemma additional_not_default s : ADDITIONAL_PREFIX +:+ s <> DEFAULT_TARGET_KEY.
Proof. done. Qed.

Lemma TargetKey_validate_Ok k : TargetKey_validate k = Ok tt <-> target_key_wf k.
Proof.
  unfold TargetKey_validate, target_key_wf, sandbox_identity. rewrite result_bind_Ok.
  split.
  - intros ([] & H1 & H2). split; [by apply mat_validate_identifier_Ok in H1|].
    destruct (is_default k) eqn:E; [left; by apply is_default_true|]. right.
    ok_steps. match goal with H : strip_prefix _ _ = Some _ |- _ => apply strip_prefix_Some in H end.
    eexists. split; [|eassumption]. done.
  - intros [H1 H2]. exists tt. split; [by apply mat_validate_identifier_Ok|].
    destruct (is_default k) eqn:E; [done|]. destruct H2 as [H2 | (s & Hs & H2)].
    + apply is_default_true in H2. congruence.
    + rewrite H2, strip_prefix_app. cbn. by apply mat_validate_identifier_Ok.
Qed.
