(* ===== verification/MemoryRegistry.v ===== *)
(** * hand-core in-memory target registry

    Models crates/hand-core/src/materialization/memory.rs: the conformance implementation of the
    reservation and directory ports, with its plane allocation. Both locks are held for the whole of
    every operation that takes them, so an operation is one atomic state transformer; lock poisoning
    (a panic elsewhere) is not modelled. *)
From S2P Require Import Prelude Policy Page Target.

(** ** State *)
Record MemoryTargetRegistry := mkMemoryTargetRegistry {
  m_records : gmap TargetKey DurableTargetRecord;
  max_mib : Z;
  reserved_mib : Z;
}.

Definition with_capacity (max : Z) : MemoryTargetRegistry := mkMemoryTargetRegistry ∅ max 0.

Notation Mem := (M MemoryTargetRegistry MaterializationError).

Definition put_record (k : TargetKey) (r : DurableTargetRecord) : Mem unit :=
  modify (fun s => mkMemoryTargetRegistry (<[k := r]> (m_records s)) (max_mib s) (reserved_mib s)).
Definition remove_record (k : TargetKey) : Mem unit :=
  modify (fun s => mkMemoryTargetRegistry (delete k (m_records s)) (max_mib s) (reserved_mib s)).
Definition set_reserved (v : Z) : Mem unit :=
  modify (fun s => mkMemoryTargetRegistry (m_records s) (max_mib s) v).

(** ** Plane allocation *)
Definition reserve_capacity (mib : Z) : Mem unit :=
  s ← get;
  if saturating_sub (max_mib s) mib <? reserved_mib s
  then throw (CapacityError "plane_materialized_memory_mib" 1000
                (print_uint mib +:+ " MiB target exceeds remaining plane allocation"))
  else set_reserved (reserved_mib s + mib).

Definition refund_capacity (mib : Z) : Mem unit :=
  s ← get;
  v ← lift (ok_or (Corrupt "capacity counter underflow") (checked_sub (reserved_mib s) mib));
  set_reserved v.

(** ** Record transitions *)
Definition record_from_lease (l : MaterializationLease) (now_ms : Z) : DurableTargetRecord :=
  mkDurableTargetRecord (l_key l) (l_spec l) (l_spec_digest l) (l_generation l)
    (Materializing (l_reservation_id l) (l_launch_request l) (l_attempt_id l) (l_attempt_expires_at_ms l)
       (l_target_expires_at_ms l) (l_lease_expires_at_ms l)) now_ms.

Definition with_r_state (s : DurableTargetState) (r : DurableTargetRecord) : DurableTargetRecord :=
  mkDurableTargetRecord (r_key r) (r_spec r) (r_spec_digest r) (r_generation r) s (r_updated_at_ms r).
Definition with_updated (t : Z) (r : DurableTargetRecord) : DurableTargetRecord :=
  mkDurableTargetRecord (r_key r) (r_spec r) (r_spec_digest r) (r_generation r) (r_state r) t.
Definition with_generation (g : string) (r : DurableTargetRecord) : DurableTargetRecord :=
  mkDurableTargetRecord (r_key r) (r_spec r) (r_spec_digest r) g (r_state r) (r_updated_at_ms r).

Definition disposition_is_lost (s : DurableTargetState) : bool :=
  match s with Closed Lost _ _ => true | _ => false end.

Section registry.
Context (spec_digest : TargetSpec -> string).

(** The record at [k] is mutated in place, field by field, so a failing step leaves the earlier
    assignments behind. *)
Definition take_materialization_attempt (k : TargetKey) (record : DurableTargetRecord) (request : AcquireTarget)
    : Mem MaterializationLease :=
  match r_state record with
  | Materializing rid req _ attempt_expires target_expires lease_expires =>
      let record := with_r_state (Materializing rid req (a_attempt_id request) attempt_expires target_expires
                                    lease_expires) record in
      _ ← put_record k record;
      sum ← lift (ok_or InvalidLease (checked_add (a_now_ms request) (a_attempt_duration_ms request)));
      let record := with_r_state (Materializing rid req (a_attempt_id request) (Z.min sum lease_expires)
                                    target_expires lease_expires) record in
      let record := with_updated (a_now_ms request) record in
      _ ← put_record k record;
      _ ← lift (DurableTargetRecord_validate spec_digest record);
      lift (lease_from_materializing_record record)
  | _ => throw (Corrupt "expected materializing target")
  end.

(** ** TargetReservations *)
Definition acquire (request : AcquireTarget) : Mem AcquireOutcome :=
  lease ← lift (AcquireTarget_lease spec_digest request);
  s ← get;
  match m_records s !! a_key request with
  | None =>
      _ ← reserve_capacity (materialized_mib (l_spec lease));
      _ ← put_record (a_key request) (record_from_lease lease (a_now_ms request));
      mret (AcqAcquired lease)
  | Some record =>
      _ ← lift (DurableTargetRecord_validate spec_digest record);
      if negb (str_eqb (r_spec_digest record) (l_spec_digest lease)) then throw SpecConflict
      else if generation_is_fenced request && negb (str_eqb (r_generation record) (l_generation lease))
              && negb (replace_after_loss request && disposition_is_lost (r_state record))
      then throw SpecConflict
      else
        match r_state record with
        | Installed _ _ _ _ =>
            match installed record with Some t => mret (AcqInstalled t) | None => throw (Corrupt "") end
        | Materializing _ _ _ attempt_expires target_expires lease_expires =>
            if lease_expires <=? a_now_ms request then
              _ ← put_record (a_key request) (record_from_lease lease (a_now_ms request));
              mret (AcqAcquired lease)
            else if target_expires <=? a_now_ms request then
              mret (AcqPending (r_generation record) (materialization_poll_after lease_expires (a_now_ms request)))
            else if a_now_ms request <? attempt_expires then
              mret (AcqPending (r_generation record) (materialization_poll_after attempt_expires (a_now_ms request)))
            else
              lease ← take_materialization_attempt (a_key request) record request;
              mret (AcqAcquired lease)
        | Closed Lost _ _ =>
            if replace_after_loss request then
              _ ← reserve_capacity (materialized_mib (l_spec lease));
              _ ← put_record (a_key request) (record_from_lease lease (a_now_ms request));
              mret (AcqAcquired lease)
            else mret AcqGone
        | Closed DTerminated _ _ => mret AcqTerminated
        end
  end.

Definition install (lease : MaterializationLease) (target : PhysicalTarget) (now_ms : Z) : Mem InstallOutcome :=
  _ ← lift (mat_validate_identifier (p_target_ref target) "target_ref");
  _ ← lift (mat_validate_identifier (p_generation target) "generation");
  s ← get;
  match m_records s !! l_key lease with
  | None => mret InstReservationLost
  | Some record =>
      if negb (str_eqb (r_spec_digest record) (l_spec_digest lease))
         || negb (str_eqb (r_generation record) (l_generation lease))
      then mret InstReservationLost
      else
        match r_state record with
        | Materializing reservation_id _ _ _ _ _ =>
            if str_eqb reservation_id (l_reservation_id lease) then
              let record := with_r_state (Installed (p_target_ref target) (p_control_token target) now_ms
                                            (l_target_expires_at_ms lease)) record in
              let record := with_updated now_ms (with_generation (p_generation target) record) in
              _ ← put_record (l_key lease) record;
              match installed record with Some t => mret (InstInstalled t) | None => throw (Corrupt "") end
            else mret InstReservationLost
        | Installed existing control_token _ _ =>
            if str_eqb existing (p_target_ref target) && bool_decide (control_token = p_control_token target)
               && str_eqb (r_generation record) (p_generation target)
            then match installed record with Some t => mret (InstInstalled t) | None => throw (Corrupt "") end
            else mret InstReservationLost
        | Closed _ _ _ => mret InstReservationLost
        end
  end.

Definition expire_matches (lease : MaterializationLease) (record : DurableTargetRecord) : bool :=
  str_eqb (r_generation record) (l_generation lease)
  && match r_state record with
     | Materializing reservation_id _ attempt_id _ _ _ =>
         str_eqb reservation_id (l_reservation_id lease) && str_eqb attempt_id (l_attempt_id lease)
     | _ => false
     end.

Definition expire_lease (lease : MaterializationLease) (now_ms : Z) : Mem unit :=
  s ← get;
  let release := match m_records s !! l_key lease with
                 | Some record => expire_matches lease record
                 | None => false
                 end in
  if release then
    _ ← remove_record (l_key lease);
    refund_capacity (materialized_mib (l_spec lease))
  else mret tt.

(** ** TargetDirectory *)
Definition directory_get (key : TargetKey) : Mem (option DurableTargetRecord) :=
  _ ← lift (TargetKey_validate key);
  s ← get;
  mret (m_records s !! key).

Definition is_installed_as (target : InstalledTarget) (record : DurableTargetRecord) : bool :=
  match r_state record with
  | Installed target_ref _ _ _ =>
      str_eqb target_ref (i_target_ref target) && str_eqb (r_generation record) (i_generation target)
  | _ => false
  end.

Definition transition_installed (target : InstalledTarget) (transition : DurableTargetRecord -> DurableTargetRecord)
    : Mem unit :=
  s ← get;
  record ← lift (ok_or (ReservationLost None) (m_records s !! i_key target));
  match r_state record with
  | Installed _ _ _ _ =>
      if is_installed_as target record then put_record (i_key target) (transition record)
      else throw (ReservationLost None)
  | Closed _ _ _ => mret tt
  | Materializing _ _ _ _ _ _ => throw (ReservationLost None)
  end.

Definition mark_closed (target : InstalledTarget) (disposition : Disposition) (reason : string) (now_ms : Z)
    : Mem unit :=
  _ ← lift (validate_reason reason);
  s ← get;
  let was_installed := match m_records s !! i_key target with
                       | Some record => is_installed_as target record
                       | None => false
                       end in
  _ ← transition_installed target (fun r => with_updated now_ms (with_r_state (Closed disposition reason now_ms) r));
  if was_installed then refund_capacity (materialized_mib (i_spec target)) else mret tt.

(** [BTreeMap::values]: in key order, root first. *)
Definition key_le (a b : TargetKey * DurableTargetRecord) : Prop :=
  str_lt (root_id (fst a)) (root_id (fst b))
  \/ root_id (fst a) = root_id (fst b)
     /\ (str_lt (target_key (fst a)) (target_key (fst b)) \/ target_key (fst a) = target_key (fst b)).

#[global] Instance key_le_dec a b : Decision (key_le a b).
Proof. unfold key_le. apply _. Defined.

Definition btree_values (m : gmap TargetKey DurableTargetRecord) : list DurableTargetRecord :=
  map snd (merge_sort key_le (map_to_list m)).

Definition list_root (root : string) (cursor : option string) (limit : Z) : Mem (option (Page DurableTargetRecord)) :=
  _ ← lift (mat_validate_identifier root "root_id");
  let limit := clamp limit 1 MAX_PAGE in
  s ← get;
  let its := List.filter (fun r => str_eqb (root_id (r_key r)) root && after cursor r) (btree_values (m_records s)) in
  mret (page (take (Z.to_nat (limit + 1)) its) limit).
End registry.

(** ** Invariant: the allocation is exactly what the records are charged *)
Definition charged_mib (r : DurableTargetRecord) : Z :=
  match r_state r with Closed _ _ _ => 0 | _ => materialized_mib (r_spec r) end.

Section invariant.
Context (spec_digest : TargetSpec -> string).

Definition stored_wf (k : TargetKey) (r : DurableTargetRecord) : Prop :=
  r_key r = k /\ r_spec_digest r = spec_digest (r_spec r) /\ 0 <= materialized_mib (r_spec r).

Record mem_inv (s : MemoryTargetRegistry) : Prop := {
  mem_wf : map_Forall stored_wf (m_records s);
  mem_reserved : reserved_mib s = map_sum charged_mib (m_records s);
}.

(** What a request, a lease or a target must agree with for a transition to stay conserving. *)
Definition lease_agrees (s : MemoryTargetRegistry) (l : MaterializationLease) : Prop :=
  forall r, m_records s !! l_key l = Some r -> expire_matches l r = true ->
    materialized_mib (r_spec r) = materialized_mib (l_spec l).

Definition target_agrees (s : MemoryTargetRegistry) (t : InstalledTarget) : Prop :=
  forall r, m_records s !! i_key t = Some r -> is_installed_as t r = true ->
    materialized_mib (r_spec r) = materialized_mib (i_spec t).

(** ** The protocol acquire implements

    [AcquireStep req s out s']: the four ways an acquisition can end. Only a fresh reservation charges
    capacity, and only when the key has no live charge; a takeover keeps the reservation, the launch
    request and the deadlines of the record and changes nothing but the attempt. *)
Inductive AcquireStep (req : AcquireTarget) (s : MemoryTargetRegistry)
    : result MaterializationError AcquireOutcome -> MemoryTargetRegistry -> Prop :=
  | AcquireFresh lease :
      AcquireTarget_lease spec_digest req = Ok lease ->
      (m_records s !! a_key req = None
       \/ exists r, m_records s !! a_key req = Some r /\ disposition_is_lost (r_state r) = true
            /\ replace_after_loss req = true /\ r_spec_digest r = spec_digest (a_spec req)) ->
      reserved_mib s <= saturating_sub (max_mib s) (materialized_mib (a_spec req)) ->
      AcquireStep req s (Ok (AcqAcquired lease))
        (mkMemoryTargetRegistry (<[a_key req := record_from_lease lease (a_now_ms req)]> (m_records s))
           (max_mib s) (reserved_mib s + materialized_mib (a_spec req)))
  | AcquireReplaceExpired lease r rid lr att ae te le :
      AcquireTarget_lease spec_digest req = Ok lease ->
      m_records s !! a_key req = Some r -> r_state r = Materializing rid lr att ae te le ->
      r_spec_digest r = spec_digest (a_spec req) -> le <= a_now_ms req ->
      AcquireStep req s (Ok (AcqAcquired lease))
        (mkMemoryTargetRegistry (<[a_key req := record_from_lease lease (a_now_ms req)]> (m_records s))
           (max_mib s) (reserved_mib s))
  | AcquireTakeover r rid lr att ae te le :
      m_records s !! a_key req = Some r -> r_state r = Materializing rid lr att ae te le ->
      r_spec_digest r = spec_digest (a_spec req) ->
      a_now_ms req < te -> a_now_ms req < le -> ae <= a_now_ms req ->
      let ae' := Z.min (a_now_ms req + a_attempt_duration_ms req) le in
      AcquireStep req s
        (Ok (AcqAcquired (mkMaterializationLease (r_key r) (r_spec r) (r_spec_digest r) rid (r_generation r) lr
                            (a_attempt_id req) ae' te le true)))
        (mkMemoryTargetRegistry
           (<[a_key req := mkDurableTargetRecord (r_key r) (r_spec r) (r_spec_digest r) (r_generation r)
                             (Materializing rid lr (a_attempt_id req) ae' te le) (a_now_ms req)]> (m_records s))
           (max_mib s) (reserved_mib s))
  | AcquireUnchanged out :
      match out with
      | Ok (AcqAcquired _) => False
      | Ok (AcqInstalled t) => m_records s !! a_key req ≫= installed = Some t
      | Ok (AcqPending _ after) => 1 <= after <= MAX_MATERIALIZATION_POLL_MS
      | _ => True
      end ->
      AcquireStep req s out s.
End invariant.

(** ** Lemmas: running the monad *)
Lemma reserve_capacity_run mib s :
  reserve_capacity mib s =
  if saturating_sub (max_mib s) mib <? reserved_mib s
  then (Err (CapacityError "plane_materialized_memory_mib" 1000
               (print_uint mib +:+ " MiB target exceeds remaining plane allocation")), s)
  else (Ok tt, mkMemoryTargetRegistry (m_records s) (max_mib s) (reserved_mib s + mib)).
Proof. unfold reserve_capacity. rewrite M_bind_run, get_run. by destruct (_ <? _). Qed.

Lemma refund_capacity_run mib s :
  refund_capacity mib s =
  if mib <=? reserved_mib s then (Ok tt, mkMemoryTargetRegistry (m_records s) (max_mib s) (reserved_mib s - mib))
  else (Err (Corrupt "capacity counter underflow"), s).
Proof. unfold refund_capacity, checked_sub. rewrite M_bind_run, get_run. by destruct (_ <=? _). Qed.

Lemma put_record_run k r s :
  put_record k r s = (Ok tt, mkMemoryTargetRegistry (<[k := r]> (m_records s)) (max_mib s) (reserved_mib s)).
Proof. done. Qed.

Lemma remove_record_run k s :
  remove_record k s = (Ok tt, mkMemoryTargetRegistry (delete k (m_records s)) (max_mib s) (reserved_mib s)).
Proof. done. Qed.

Create Rewrite HintDb mem_run.
#[export] Hint Rewrite reserve_capacity_run refund_capacity_run put_record_run remove_record_run
  @M_bind_run @M_ret_run @get_run @throw_run @lift_run : mem_run.

(** Run a straight-line method on a state. *)
Ltac mem_run := autorewrite with mem_run; cbn [m_records max_mib reserved_mib]; try autorewrite with mem_run.

(** ** Lemmas *)
Section facts.
Context (spec_digest : TargetSpec -> string).

Lemma AcquireTarget_lease_Ok req lease :
  AcquireTarget_lease spec_digest req = Ok lease ->
  target_key_wf (a_key req) /\ identifier (a_reservation_id req) /\ identifier (a_generation req)
  /\ identifier (a_attempt_id req)
  /\ lease = mkMaterializationLease (a_key req) (a_spec req) (spec_digest (a_spec req)) (a_reservation_id req)
       (a_generation req) (a_launch_request req) (a_attempt_id req) (a_now_ms req + a_attempt_duration_ms req)
       (a_now_ms req + a_target_lifetime_ms req) (a_now_ms req + a_lease_duration_ms req) false
  /\ a_target_lifetime_ms req <> 0 /\ a_target_lifetime_ms req < a_lease_duration_ms req
  /\ a_attempt_duration_ms req <> 0 /\ a_attempt_duration_ms req < a_lease_duration_ms req
  /\ a_now_ms req + a_lease_duration_ms req <= U64_MAX.
Proof.
  unfold AcquireTarget_lease, AcquireTarget_validate. intros H. ok_steps. bool_hyps.
  match goal with H : TargetKey_validate _ = _ |- _ => apply TargetKey_validate_Ok in H end.
  repeat match goal with H : (_ || _) = false |- _ => apply orb_false_iff in H; destruct H end. bool_hyps.
  split_and!; try done; lia.
Qed.

Lemma poll_after_bounds a b : 1 <= materialization_poll_after a b <= MAX_MATERIALIZATION_POLL_MS.
Proof. apply clamp_bounds. unfold MAX_MATERIALIZATION_POLL_MS. lia. Qed.

Lemma negb_str_eqb_false a b : negb (str_eqb a b) = false -> a = b.
Proof. intros H. by bool_hyps. Qed.

(** A takeover of a valid record whose target deadline is ahead cannot fail. *)
Lemma takeover_valid req lease r rid lr att ae te le ae' :
  AcquireTarget_lease spec_digest req = Ok lease ->
  DurableTargetRecord_validate spec_digest r = Ok tt -> r_state r = Materializing rid lr att ae te le ->
  0 < a_attempt_duration_ms req ->
  a_now_ms req < te -> a_now_ms req < le -> ae' = Z.min (a_now_ms req + a_attempt_duration_ms req) le ->
  DurableTargetRecord_validate spec_digest
    (mkDurableTargetRecord (r_key r) (r_spec r) (r_spec_digest r) (r_generation r)
       (Materializing rid lr (a_attempt_id req) ae' te le) (a_now_ms req)) = Ok tt.
Proof.
  intros Hl Hv Hs Hd Ht Hle ->. apply AcquireTarget_lease_Ok in Hl as (_ & _ & _ & Hatt & _).
  unfold DurableTargetRecord_validate, state_validate in *. rewrite Hs in Hv. cbn [r_key r_spec r_spec_digest r_generation r_state r_updated_at_ms].
  apply result_bind_Ok in Hv as ([] & Hk & Hv). rewrite Hk. cbn.
  apply result_bind_Ok in Hv as ([] & Hdg & Hv). rewrite Hdg. cbn.
  destruct (negb _); [done|].
  apply result_bind_Ok in Hv as ([] & Hg & Hv). rewrite Hg. cbn.
  apply result_bind_Ok in Hv as ([] & Hr & Hv). rewrite Hr. cbn.
  apply result_bind_Ok in Hv as ([] & Hlr & Hv). rewrite Hlr. cbn.
  rewrite (proj2 (mat_validate_identifier_Ok _ _) Hatt). cbn.
  apply result_bind_Ok in Hv as ([] & _ & Hv). ok_steps. bool_hyps.
  repeat match goal with H : (_ || _) = false |- _ => apply orb_false_iff in H; destruct H end. bool_hyps.
  match goal with |- (if ?b then _ else _) = _ => assert (b = false) as ->; [|done] end.
  rewrite !orb_false_iff, Z.eqb_neq, !Z.leb_gt, !Z.ltb_ge. lia.
Qed.

Lemma acquire_step req s :
  u64 (a_attempt_duration_ms req) ->
  AcquireStep spec_digest req s (acquire spec_digest req s).1 (acquire spec_digest req s).2.
Proof.
  intros Hdur. unfold acquire. mem_run.
  destruct (AcquireTarget_lease spec_digest req) as [lease|e] eqn:Hl; [|by constructor].
  pose proof (AcquireTarget_lease_Ok _ _ Hl) as (_ & _ & _ & _ & Hlease & _ & _ & Hd0 & Hd1 & Hmax).
  assert (Hspec : l_spec lease = a_spec req) by (by rewrite Hlease).
  assert (Hdig : l_spec_digest lease = spec_digest (a_spec req)) by (by rewrite Hlease).
  mem_run. rewrite Hspec, Hdig.
  destruct (m_records s !! a_key req) as [r|] eqn:Hr.
  2:{ mem_run. destruct (Z.ltb_spec (saturating_sub (max_mib s) (materialized_mib (a_spec req))) (reserved_mib s)).
      - by apply AcquireUnchanged.
      - mem_run. apply AcquireFresh; [done | by left | done]. }
  mem_run.
  destruct (DurableTargetRecord_validate spec_digest r) as [[]|e] eqn:Hv; [|by apply AcquireUnchanged].
  destruct (negb (str_eqb (r_spec_digest r) _)) eqn:Hsd; [by apply AcquireUnchanged|].
  apply negb_str_eqb_false in Hsd.
  destruct (generation_is_fenced req && _ && _); [by apply AcquireUnchanged|].
  destruct (r_state r) as [rid lr att ae te le | tr ct ia ea | d rs am] eqn:Hst.
  - destruct (Z.leb_spec le (a_now_ms req)); [mem_run; by eapply AcquireReplaceExpired|].
    destruct (Z.leb_spec te (a_now_ms req)); [apply AcquireUnchanged, poll_after_bounds|].
    destruct (Z.ltb_spec (a_now_ms req) ae); [apply AcquireUnchanged, poll_after_bounds|].
    unfold take_materialization_attempt. rewrite Hst. mem_run.
    rewrite (proj2 (checked_add_Some (a_now_ms req) (a_attempt_duration_ms req) _)) by (split; [done | lia]).
    cbn [ok_or]. mem_run.
    unfold with_updated, with_r_state. cbn [r_key r_spec r_spec_digest r_generation r_state].
    rewrite (takeover_valid req lease r rid lr att ae te le _ Hl Hv Hst) by (unfold u64 in *; lia || done).
    mem_run. rewrite insert_insert_eq.
    by apply (AcquireTakeover spec_digest req s r rid lr att ae te le).
  - unfold installed. rewrite Hst. mem_run. apply AcquireUnchanged. cbn [fst snd]. rewrite Hr. cbn [mbind option_bind].
    unfold installed. by rewrite Hst.
  - destruct d; [|by apply AcquireUnchanged].
    destruct (replace_after_loss req) eqn:Hrep; [|by apply AcquireUnchanged].
    mem_run. destruct (Z.ltb_spec (saturating_sub (max_mib s) (materialized_mib (a_spec req))) (reserved_mib s)).
    + by apply AcquireUnchanged.
    + mem_run. apply AcquireFresh; [done | | done]. right. exists r. by rewrite Hst.
Qed.

(** Replacing a record moves the allocation by the difference of the two charges. *)
Lemma mem_inv_put s k r r' res :
  mem_inv spec_digest s -> stored_wf spec_digest k r' ->
  (m_records s !! k = Some r /\ res = reserved_mib s - charged_mib r + charged_mib r'
   \/ m_records s !! k = None /\ res = reserved_mib s + charged_mib r') ->
  mem_inv spec_digest (mkMemoryTargetRegistry (<[k := r']> (m_records s)) (max_mib s) res).
Proof.
  intros [Hwf Hres] Hr' Hcase. constructor; cbn; [by apply map_Forall_insert_2|].
  destruct Hcase as [[Hk ->] | [Hk ->]].
  - by rewrite (map_sum_insert_over _ _ _ r), Hres by done.
  - rewrite map_sum_insert_new by done. lia.
Qed.

Lemma mem_inv_remove s k r :
  mem_inv spec_digest s -> m_records s !! k = Some r ->
  mem_inv spec_digest (mkMemoryTargetRegistry (delete k (m_records s)) (max_mib s) (reserved_mib s - charged_mib r)).
Proof.
  intros [Hwf Hres] Hk. constructor; cbn; [by apply map_Forall_delete|].
  rewrite Hres, (map_sum_delete _ _ _ _ Hk). lia.
Qed.

Lemma charged_le s k r : mem_inv spec_digest s -> m_records s !! k = Some r -> 0 <= charged_mib r <= reserved_mib s.
Proof.
  intros [Hwf Hres] Hk. assert (Hnn : map_Forall (fun _ r => 0 <= charged_mib r) (m_records s)).
  { eapply map_Forall_impl; [exact Hwf|]. intros k' r' (_ & _ & H). unfold charged_mib. by case_match. }
  split; [by apply (Hnn k)|]. rewrite Hres. by apply (map_sum_lookup_le _ _ k).
Qed.

Lemma charged_open r : (forall d rs t, r_state r <> Closed d rs t) -> charged_mib r = materialized_mib (r_spec r).
Proof. unfold charged_mib. destruct (r_state r); naive_solver. Qed.

Context (digest_seals : forall a b, spec_digest a = spec_digest b -> materialized_mib a = materialized_mib b).

Lemma acquire_inv req s :
  mem_inv spec_digest s -> u64 (a_attempt_duration_ms req) -> 0 <= materialized_mib (a_spec req) ->
  mem_inv spec_digest (acquire spec_digest req s).2.
Proof.
  intros Hs Hd Hm. pose proof (acquire_step req s Hd) as H.
  destruct (acquire spec_digest req s) as [out s']. cbn in *.
  assert (Hfresh : forall lease, AcquireTarget_lease spec_digest req = Ok lease ->
    stored_wf spec_digest (a_key req) (record_from_lease lease (a_now_ms req))
    /\ charged_mib (record_from_lease lease (a_now_ms req)) = materialized_mib (a_spec req)).
  { intros lease Hl. by apply AcquireTarget_lease_Ok in Hl as (_ & _ & _ & _ & -> & _). }
  destruct H as [lease Hl Hfree Hcap | lease r rid lr att ae te le Hl Hr Hst Hdg Hle
    | r rid lr att ae te le Hr Hst Hdg Hte Hle Hae ae' | ]; [| | | done].
  - destruct (Hfresh lease Hl) as [Hwf Hch].
    destruct Hfree as [Hn | (r & Hr & Hlost & _ & _)].
    + apply (mem_inv_put _ _ (record_from_lease lease (a_now_ms req))); [done..|]. right. by rewrite Hch.
    + apply (mem_inv_put _ _ r); [done..|]. left. split; [done|]. rewrite Hch.
      unfold charged_mib. destruct (r_state r); try done. lia.
  - destruct (Hfresh lease Hl) as [Hwf Hch]. apply (mem_inv_put _ _ r); [done..|]. left. split; [done|].
    rewrite Hch. destruct (mem_wf _ _ Hs _ _ Hr) as (_ & Hd' & _).
    rewrite charged_open by (intros; congruence). rewrite (digest_seals (r_spec r) (a_spec req)) by congruence. lia.
  - destruct (mem_wf _ _ Hs _ _ Hr) as (Hk & Hd' & Hm'). apply (mem_inv_put _ _ r); [done..|]. left. split; [done|].
    unfold charged_mib. rewrite Hst. cbn. lia.
Qed.

Lemma install_inv lease t now s :
  mem_inv spec_digest s -> mem_inv spec_digest (install lease t now s).2.
Proof.
  intros Hs. unfold install. mem_run. repeat (case_match; mem_run; try done).
  all: destruct (mem_wf _ _ Hs _ _ ltac:(eassumption)) as (? & ? & ?).
  all: eapply mem_inv_put; [done | done | left; split; [eassumption|]].
  all: unfold charged_mib; cbn; match goal with H : r_state _ = _ |- _ => rewrite H end; lia.
Qed.

Lemma expire_lease_inv lease now s :
  mem_inv spec_digest s -> lease_agrees s lease ->
  mem_inv spec_digest (expire_lease lease now s).2 /\ (expire_lease lease now s).1 = Ok tt.
Proof.
  intros Hs Ha. unfold expire_lease. mem_run. destruct (m_records s !! l_key lease) as [r|] eqn:Hr; [|by mem_run].
  destruct (expire_matches lease r) eqn:He; [|by mem_run]. mem_run.
  pose proof (charged_le s _ r Hs Hr). rewrite <- (Ha r Hr He).
  unfold expire_matches in He. assert (Hc : charged_mib r = materialized_mib (r_spec r)).
  { unfold charged_mib. destruct (r_state r); try done. by rewrite andb_false_r in He. }
  rewrite <- Hc, (proj2 (Z.leb_le _ _)) by lia. split; [|done]. by apply mem_inv_remove.
Qed.

(** What each transition does to the state, for a registry whose allocation is conserved. *)
Lemma expire_lease_run lease now s :
  mem_inv spec_digest s -> lease_agrees s lease ->
  (expire_lease lease now s).2 = s
  \/ exists r, m_records s !! l_key lease = Some r /\ expire_matches lease r = true
       /\ (expire_lease lease now s).2
          = mkMemoryTargetRegistry (delete (l_key lease) (m_records s)) (max_mib s) (reserved_mib s - charged_mib r).
Proof.
  intros Hs Ha. unfold expire_lease. mem_run. destruct (m_records s !! l_key lease) as [r|] eqn:Hr; [|by left].
  destruct (expire_matches lease r) eqn:He; [|by left]. right. exists r. mem_run.
  pose proof (charged_le s _ r Hs Hr). rewrite <- (Ha r Hr He).
  unfold expire_matches in He. assert (Hc : charged_mib r = materialized_mib (r_spec r)).
  { unfold charged_mib. destruct (r_state r); try done. by rewrite andb_false_r in He. }
  rewrite <- Hc, (proj2 (Z.leb_le _ _)) by lia. done.
Qed.

Lemma install_run lease t now s :
  (install lease t now s).2 = s
  \/ exists r lr att ae te le,
       m_records s !! l_key lease = Some r /\ r_state r = Materializing (l_reservation_id lease) lr att ae te le
       /\ (install lease t now s).2
          = mkMemoryTargetRegistry
              (<[l_key lease := mkDurableTargetRecord (r_key r) (r_spec r) (r_spec_digest r) (p_generation t)
                 (Installed (p_target_ref t) (p_control_token t) now (l_target_expires_at_ms lease)) now]> (m_records s))
              (max_mib s) (reserved_mib s).
Proof.
  unfold install. mem_run. repeat (case_match; mem_run; try (by left)). right.
  bool_hyps. subst. eexists _, _, _, _, _, _. split; [done|]. split; [done|]. done.
Qed.

Lemma mark_closed_run t d reason now s :
  mem_inv spec_digest s -> target_agrees s t ->
  (mark_closed t d reason now s).2 = s
  \/ exists r, m_records s !! i_key t = Some r /\ is_installed_as t r = true
       /\ (mark_closed t d reason now s).2
          = mkMemoryTargetRegistry
              (<[i_key t := mkDurableTargetRecord (r_key r) (r_spec r) (r_spec_digest r) (r_generation r)
                 (Closed d reason now) now]> (m_records s))
              (max_mib s) (reserved_mib s - charged_mib r).
Proof.
  intros Hs Ha. unfold mark_closed, transition_installed. mem_run.
  destruct (validate_reason reason); [|by left]. mem_run.
  destruct (m_records s !! i_key t) as [r|] eqn:Hr; cbn [ok_or]; mem_run; [|by left].
  destruct (is_installed_as t r) eqn:Hi; [|left; by destruct (r_state r); mem_run].
  right. exists r. split; [done|]. split; [done|].
  pose proof (charged_le s _ r Hs Hr). rewrite <- (Ha r Hr Hi).
  unfold is_installed_as in Hi. destruct (r_state r) as [| tr ct ia ea |] eqn:Hst; try done. mem_run.
  assert (Hc : charged_mib r = materialized_mib (r_spec r)) by (unfold charged_mib; by rewrite Hst).
  rewrite <- Hc, (proj2 (Z.leb_le _ _)) by lia. done.
Qed.

Lemma mark_closed_inv t d reason now s :
  mem_inv spec_digest s -> target_agrees s t -> mem_inv spec_digest (mark_closed t d reason now s).2.
Proof.
  intros Hs Ha. unfold mark_closed, transition_installed. mem_run.
  destruct (validate_reason reason); [|done]. mem_run.
  destruct (m_records s !! i_key t) as [r|] eqn:Hr; cbn [ok_or]; mem_run; [|done].
  destruct (is_installed_as t r) eqn:Hi; [|by destruct (r_state r); mem_run].
  destruct (r_state r) as [| tr ct ia ea |] eqn:Hst; unfold is_installed_as in Hi; rewrite Hst in Hi; try done.
  mem_run.
  pose proof (charged_le s _ r Hs Hr). rewrite <- (Ha r Hr) by (unfold is_installed_as; by rewrite Hst).
  assert (Hc : charged_mib r = materialized_mib (r_spec r)) by (unfold charged_mib; by rewrite Hst).
  rewrite <- Hc, (proj2 (Z.leb_le _ _)) by lia.
  destruct (mem_wf _ _ Hs _ _ Hr) as (Hk & Hd & Hm).
  apply (mem_inv_put _ _ r); [done | done | left; split; [exact Hr|]].
  change (charged_mib (with_updated now (with_r_state (Closed d reason now) r))) with 0. lia.
Qed.
End facts.

(** ** Listing *)
Section listing.

Definition keyed (m : gmap TargetKey DurableTargetRecord) : Prop := map_Forall (fun k r => r_key r = k) m.

(** The sorted listing of one root. *)
Definition root_listing (root : string) (s : MemoryTargetRegistry) : list DurableTargetRecord :=
  List.filter (fun r => str_eqb (root_id (r_key r)) root) (btree_values (m_records s)).

Definition list_root_page (root : string) (s : MemoryTargetRegistry) (cursor : option string) (limit : Z)
    : option (Page DurableTargetRecord) :=
  match (list_root root cursor limit s).1 with Ok p => p | Err _ => None end.

Lemma key_le_total : forall a b, key_le a b \/ key_le b a.
Proof.
  intros [[r1 t1] v1] [[r2 t2] v2]. unfold key_le. cbn.
  destruct (str_lt_total r1 r2) as [?|[ -> |?]]; auto.
  destruct (str_lt_total t1 t2) as [?|[ -> |?]]; auto 7.
Qed.

#[local] Instance key_le_Total : Total key_le.
Proof. intros a b. apply key_le_total. Qed.

#[local] Instance key_le_Trans : Transitive key_le.
Proof.
  intros [[r1 t1] v1] [[r2 t2] v2] [[r3 t3] v3]. unfold key_le. cbn.
  intros [H1|[ -> [H1| -> ]]] [H2|[ -> [H2| -> ]]]; auto; try (left; by etrans); auto.
  right. split; [done|]. left. by etrans.
Qed.

Lemma merged_sorted (m : gmap TargetKey DurableTargetRecord) : StronglySorted key_le (merge_sort key_le (map_to_list m)).
Proof. apply StronglySorted_merge_sort; apply _. Qed.

Lemma merged_elem (m : gmap TargetKey DurableTargetRecord) kr :
  kr ∈ merge_sort key_le (map_to_list m) <-> m !! fst kr = Some (snd kr).
Proof. rewrite merge_sort_Permutation. destruct kr. apply elem_of_map_to_list. Qed.

Lemma merged_nodup (m : gmap TargetKey DurableTargetRecord) : NoDup (map fst (merge_sort key_le (map_to_list m))).
Proof. rewrite merge_sort_Permutation. apply NoDup_fst_map_to_list. Qed.

Lemma btree_values_elem m r : r ∈ btree_values m <-> exists k, m !! k = Some r.
Proof.
  unfold btree_values. rewrite list_elem_of_fmap. split.
  - intros ([k v] & -> & H). apply merged_elem in H. by exists k.
  - intros [k H]. exists (k, r). split; [done|]. by apply merged_elem.
Qed.

(** A sorted, keyed association list without duplicates lists one root strictly by target key. *)
Lemma filtered_sorted (l : list (TargetKey * DurableTargetRecord)) root :
  StronglySorted key_le l -> NoDup (map fst l) -> Forall (fun kr => r_key (snd kr) = fst kr) l ->
  id_sorted (List.filter (fun r => str_eqb (root_id (r_key r)) root) (map snd l)).
Proof.
  induction l as [|[k r] l IH]; cbn; intros Hs Hnd Hk; [constructor|].
  apply StronglySorted_inv in Hs as [Hs Hall]. apply NoDup_cons in Hnd as [Hnin Hnd].
  apply Forall_cons in Hk as [Hkr Hk]. cbn in Hkr. specialize (IH Hs Hnd Hk).
  destruct (str_eqb_spec (root_id (r_key r)) root) as [Hroot|]; [|done].
  constructor; [done|]. apply Forall_forall. intros r' Hr'.
  apply list_elem_of_In, filter_In in Hr' as [Hr' Hroot']. apply str_eqb_eq in Hroot'.
  apply list_elem_of_In, list_elem_of_fmap in Hr' as ([k' v'] & -> & Hin). cbn in *.
  rewrite !Forall_forall in Hall, Hk. specialize (Hall _ Hin). specialize (Hk _ Hin). cbn in *.
  subst k k'. unfold page_identity, DurableTargetRecord_identity.
  destruct Hall as [Hlt | [_ [Hlt | Heq]]]; cbn in *.
  - rewrite Hroot, Hroot' in Hlt. by apply str_lt_irrefl in Hlt.
  - done.
  - exfalso. apply Hnin, list_elem_of_fmap. exists (r_key v', v'). split; [|done]. cbn.
    destruct (r_key r), (r_key v'); cbn in *; congruence.
Qed.

Lemma filter_filter {A} (f g : A -> bool) l : List.filter f (List.filter g l) = List.filter (fun x => g x && f x) l.
Proof. induction l as [|x l IH]; cbn; [done|]. destruct (g x); cbn; [|done]. by rewrite IH. Qed.

Lemma list_root_is_source root s :
  identifier root -> keyed (m_records s) -> PageSource (list_root_page root s) (root_listing root s).
Proof.
  intros Hroot Hk. constructor.
  - apply filtered_sorted; [apply merged_sorted | apply merged_nodup |].
    apply Forall_forall. intros [k r] Hin. apply merged_elem in Hin. cbn. by apply Hk.
  - intros cursor limit _ Hl. unfold list_root_page, list_root. mem_run.
    rewrite (proj2 (mat_validate_identifier_Ok _ _) Hroot). mem_run. cbn [fst].
    rewrite clamp_id by done. unfold root_listing. by rewrite filter_filter.
Qed.
End listing.

(** ** Properties *)

(** Every acquisition is one of the protocol's steps: a fresh reservation that charges exactly the
    requested memory when it fits, the reuse of an expired reservation's charged slot, the takeover of
    the one durable attempt (same reservation, launch request and deadlines, marked as recovery), or no
    change at all; a caller told to wait polls within a second. *)
Theorem acquire_follows_protocol spec_digest req s :
  u64 (a_attempt_duration_ms req) ->
  AcquireStep spec_digest req s (acquire spec_digest req s).1 (acquire spec_digest req s).2.
Proof. apply acquire_step. Qed.

(** Following the cursors of [list_root] from the start terminates and returns every record of the
    root exactly once, in key order, and no record of another root. *)
Theorem list_root_walk_is_complete root s limit :
  identifier root -> keyed (m_records s) -> 1 <= limit <= MAX_PAGE ->
  walk (list_root_page root s) limit (S (length (root_listing root s))) None = Some (root_listing root s)
  /\ id_sorted (root_listing root s)
  /\ forall r, r ∈ root_listing root s <-> root_id (r_key r) = root /\ exists k, m_records s !! k = Some r.
Proof.
  intros Hroot Hk Hl. pose proof (list_root_is_source root s Hroot Hk) as Hsrc.
  split; [by apply (walk_all _ _); [|lia]|]. split; [by apply (source_sorted (PageSource := Hsrc))|].
  intros r. unfold root_listing. rewrite list_elem_of_In, filter_In, <- list_elem_of_In, btree_values_elem, str_eqb_eq.
  tauto.
Qed.

(** A reservation is admitted exactly when it fits the plane, except that a target larger than the
    whole plane is admitted when nothing is reserved, which leaves the plane over-committed. *)
Theorem reserve_capacity_exact mib s :
  0 <= mib -> 0 <= reserved_mib s ->
  is_ok (reserve_capacity mib s).1 = true <->
  reserved_mib s + mib <= max_mib s \/ (max_mib s < mib /\ reserved_mib s = 0).
Proof.
  intros Hm Hr. rewrite reserve_capacity_run. unfold saturating_sub.
  destruct (Z.ltb_spec (Z.max 0 (max_mib s - mib)) (reserved_mib s)); cbn; split; intros; try done; lia.
Qed.

Lemma reserve_capacity_exact_witness :
  (reserve_capacity 4096 (with_capacity 2048)).1 = Ok tt
  /\ (is_ok (reserve_capacity 4096 (with_capacity 2048)).1 = true <->
      0 + 4096 <= 2048 \/ (2048 < 4096 /\ 0 = 0)).
Proof. split; [vm_compute; reflexivity | apply (reserve_capacity_exact 4096 (with_capacity 2048)); cbn; lia]. Defined.

(** ** Witnesses *)
Definition sample_digest (s : TargetSpec) : string :=
  String.string_of_list_ascii
    (repeat "a"%char 44 ++ repeat "0"%char (20 - String.length (print_uint (materialized_mib s)))
     ++ bytes_of (print_uint (materialized_mib s))).

Definition sample_spec (mib : Z) : TargetSpec := mkTargetSpec ConnPublic "image-1" "standard" mib digest_a digest_b.

Definition sample_key (root : string) : TargetKey := mkTargetKey root DEFAULT_TARGET_KEY.

Definition sample_acquire (key : TargetKey) (rid att : string) (mib now : Z) : AcquireTarget :=
  mkAcquireTarget key (sample_spec mib) rid "generation-1" (mkDurableLaunchRequest "launch") att 30000 false now
    29100000 28800000 (is_default key).

Definition sample_registry : MemoryTargetRegistry :=
  (acquire sample_digest (sample_acquire (sample_key "root-1") "res-1" "att-1" 2048 1000) (with_capacity 8192)).2.

Lemma acquire_follows_protocol_witness :
  let req := sample_acquire (sample_key "root-1") "res-2" "att-2" 2048 40000 in
  AcquireStep sample_digest req sample_registry (acquire sample_digest req sample_registry).1
    (acquire sample_digest req sample_registry).2.
Proof.
  apply (acquire_follows_protocol sample_digest (sample_acquire (sample_key "root-1") "res-2" "att-2" 2048 40000)
    sample_registry). unfold u64, U64_MAX. cbn. lia.
Defined.

(** The takeover happens in that witness: the reservation stays, the attempt is the new worker's. *)
Example sample_takeover :
  match (acquire sample_digest (sample_acquire (sample_key "root-1") "res-2" "att-2" 2048 40000) sample_registry).1 with
  | Ok (AcqAcquired l) =>
      (l_reservation_id l, l_attempt_id l, recovery_attempt l, l_lease_expires_at_ms l)
      = ("res-1", "att-2", true, 29101000)
  | _ => False
  end.
Proof. vm_compute. reflexivity. Qed.

Definition sample_listing : MemoryTargetRegistry :=
  let put k s := (acquire sample_digest (sample_acquire k "res-1" "att-1" 1024 1000) s).2 in
  put (mkTargetKey "root-1" "target:additional:b") (put (mkTargetKey "root-2" DEFAULT_TARGET_KEY)
    (put (mkTargetKey "root-1" "target:additional:a") (put (sample_key "root-1") (with_capacity 8192)))).

Lemma list_root_walk_is_complete_witness :
  walk (list_root_page "root-1" sample_listing) 2 (S (length (root_listing "root-1" sample_listing))) None
  = Some (root_listing "root-1" sample_listing)
  /\ map (fun r => target_key (r_key r)) (root_listing "root-1" sample_listing)
     = ["target:additional:a"; "target:additional:b"; "target:default"].
Proof.
  split; [|vm_compute; reflexivity].
  apply (list_root_walk_is_complete "root-1" sample_listing 2).
  - by apply (mat_validate_identifier_Ok _ "root_id").
  - apply map_Forall_to_list. vm_compute. repeat constructor.
  - unfold MAX_PAGE. lia.
Defined.
