(* ===== verification/Materializer.v ===== *)
(** * hand-core materializer: reservation, launch, install

    Models crates/hand-core/src/materialization/materializer.rs against the reservation port of
    port.rs. The port is a type class over the state of the whole world, so the launcher may let other
    workers change the registry while a launch is in progress; [LawfulReservations] is what the port
    promises, and the in-memory registry discharges it. *)
From S2P Require Import Prelude Policy Page Target MemoryRegistry.

(** ** The reservation port *)
Class TargetReservations (W : Type) := {
  port_acquire : AcquireTarget -> M W MaterializationError AcquireOutcome;
  port_install : MaterializationLease -> PhysicalTarget -> Z -> M W MaterializationError InstallOutcome;
  port_expire_lease : MaterializationLease -> Z -> M W MaterializationError unit;
}.

(** The record at a key is the one a lease was issued for. *)
Definition holds_lease (l : MaterializationLease) (r : DurableTargetRecord) : Prop :=
  r_key r = l_key l /\ r_spec_digest r = l_spec_digest l /\ expire_matches l r = true.

Class LawfulReservations (W : Type) `{TargetReservations W}
    (durable : W -> TargetKey -> option DurableTargetRecord) (consistent : W -> Prop) := {
  acquire_consistent : forall req w, consistent w -> u64 (a_attempt_duration_ms req) -> consistent (port_acquire req w).2;
  install_consistent : forall l t now w, consistent w -> consistent (port_install l t now w).2;
  (** An [Installed] answer is backed by an installed record. *)
  acquire_installed : forall req w t w',
    consistent w -> u64 (a_attempt_duration_ms req) -> port_acquire req w = (Ok (AcqInstalled t), w') ->
    durable w' (a_key req) ≫= installed = Some t;
  (** An [Acquired] answer is backed by a materializing record holding exactly that lease. *)
  acquire_acquired : forall req w l w',
    consistent w -> u64 (a_attempt_duration_ms req) -> port_acquire req w = (Ok (AcqAcquired l), w') ->
    l_key l = a_key req /\ exists r, durable w' (a_key req) = Some r /\ holds_lease l r;
  (** A successful installation is durable and is the launched target's. *)
  install_installed : forall l t now w it w',
    consistent w -> port_install l t now w = (Ok (InstInstalled it), w') ->
    durable w' (l_key l) ≫= installed = Some it
    /\ i_target_ref it = p_target_ref t /\ i_generation it = p_generation t /\ i_control_token it = p_control_token t;
  (** Expiry touches nothing but a record that still holds the lease and its attempt. *)
  expire_only_own : forall l now w k,
    consistent w -> durable (port_expire_lease l now w).2 k = durable w k
    \/ (k = l_key l /\ durable (port_expire_lease l now w).2 k = None
        /\ exists r, durable w k = Some r /\ expire_matches l r = true);
}.

(** ** The materializer *)
Section materializer.
Context {W : Type} `{TR : TargetReservations W}.
Context (launch : MaterializationLease -> M W LaunchError PhysicalTarget).
Context (terminate_stale : PhysicalTarget -> M W string unit).

Definition FENCED_PREFIX : string := "exact launch recovery returned no target; reservation remains fenced: ".

(** What a failed launch does with the reservation, and the error it reports. *)
Definition launch_failed (lease : MaterializationLease) (now_ms : Z) (e : LaunchError)
    : M W MaterializationError InstalledTarget :=
  match e with
  | LCapacity scope retry_after_ms message =>
      _ ← (if negb (recovery_attempt lease) then port_expire_lease lease now_ms else mret tt);
      throw (CapacityError scope retry_after_ms message)
  | KnownNoTarget message =>
      if recovery_attempt lease then throw (LaunchOutcomeUnknown (FENCED_PREFIX +:+ message))
      else
        _ ← port_expire_lease lease now_ms;
        throw (LaunchRejected message)
  | RetryableKnownNoTarget message =>
      _ ← (if negb (recovery_attempt lease) then port_expire_lease lease now_ms else mret tt);
      throw (LaunchRetryable message)
  | OutcomeUnknown message => throw (LaunchOutcomeUnknown message)
  end.

Definition materialize (lease : MaterializationLease) (now_ms : Z) : M W MaterializationError InstalledTarget :=
  launched ← observed (launch lease);
  match launched with
  | Err e => launch_failed lease now_ms e
  | Ok physical =>
      out ← port_install lease physical now_ms;
      match out with
      | InstInstalled target => mret target
      | InstReservationLost =>
          stopped ← observed (terminate_stale physical);
          throw (ReservationLost (match stopped with Err e => Some e | Ok _ => None end))
      end
  end.

Definition ensure_target (request : AcquireTarget) : M W MaterializationError InstalledTarget :=
  out ← port_acquire request;
  match out with
  | AcqInstalled target => mret target
  | AcqAcquired lease => materialize lease (a_now_ms request)
  | AcqPending _ retry_after_ms => throw (Pending retry_after_ms)
  | AcqGone => throw Gone
  | AcqTerminated => throw Terminated
  end.
End materializer.

(** ** The in-memory registry implements the port

    The second component of the world is whatever the launcher keeps. *)
Definition on_registry {L A} (m : M MemoryTargetRegistry MaterializationError A)
    : M (MemoryTargetRegistry * L) MaterializationError A :=
  fun w => let '(r, s') := m (fst w) in (r, (s', snd w)).

Section memory_port.
Context {L : Type} (spec_digest : TargetSpec -> string).

#[global] Instance memory_reservations : TargetReservations (MemoryTargetRegistry * L) := {
  port_acquire req := on_registry (acquire spec_digest req);
  port_install l t now := on_registry (install l t now);
  port_expire_lease l now := on_registry (expire_lease l now);
}.

Definition memory_durable (w : MemoryTargetRegistry * L) (k : TargetKey) : option DurableTargetRecord :=
  m_records (fst w) !! k.

Definition memory_consistent (w : MemoryTargetRegistry * L) : Prop := keyed (m_records (fst w)).

Lemma on_registry_run {A} (m : M MemoryTargetRegistry MaterializationError A) (w : MemoryTargetRegistry * L) :
  on_registry m w = ((m (fst w)).1, ((m (fst w)).2, snd w)).
Proof. unfold on_registry. by destruct (m (fst w)). Qed.

Lemma step_keyed req s out s' :
  keyed (m_records s) -> AcquireStep spec_digest req s out s' -> keyed (m_records s').
Proof.
  intros Hk [lease Hl _ _ | lease r rid lr att ae te le Hl _ _ _ _ | r rid lr att ae te le Hr _ _ _ _ _ |]; [| | |done];
    apply map_Forall_insert_2; try done; cbn.
  1,2: by apply AcquireTarget_lease_Ok in Hl as (_ & _ & _ & _ & -> & _).
  by apply (Hk _ _ Hr).
Qed.

Lemma step_acquired req s l s' :
  keyed (m_records s) -> AcquireStep spec_digest req s (Ok (AcqAcquired l)) s' ->
  l_key l = a_key req /\ exists r, m_records s' !! a_key req = Some r /\ holds_lease l r.
Proof.
  intros Hk Hs. inversion Hs as [lease Hl Hf Hc E1 E2 | lease r rid lr att ae te le Hl Hr Hst Hd Hle E1 E2
    | r rid lr att ae te le Hr Hst Hd Hte Hle Hae ae' E1 E2 | out Hout E1 E2]; subst; [| | |done]; cbn;
    rewrite lookup_insert_eq.
  1,2: apply AcquireTarget_lease_Ok in Hl as (_ & _ & _ & _ & -> & _); split; [done|]; eexists; split; [done|];
    unfold holds_lease, expire_matches; cbn; by rewrite !str_eqb_refl.
  split; [by apply (Hk _ _ Hr)|]. eexists. split; [done|].
  unfold holds_lease, expire_matches. cbn. by rewrite !str_eqb_refl.
Qed.

Lemma install_result l t now s :
  keyed (m_records s) ->
  keyed (m_records (install l t now s).2)
  /\ forall it, (install l t now s).1 = Ok (InstInstalled it) ->
       m_records (install l t now s).2 !! l_key l ≫= installed = Some it
       /\ i_target_ref it = p_target_ref t /\ i_generation it = p_generation t
       /\ i_control_token it = p_control_token t.
Proof.
  intros Hk. unfold install. mem_run.
  destruct (mat_validate_identifier (p_target_ref t) _); [|done]. mem_run.
  destruct (mat_validate_identifier (p_generation t) _); [|done]. mem_run.
  destruct (m_records s !! l_key l) as [r|] eqn:Hr; [|done].
  destruct (_ || _); [done|].
  destruct (r_state r) as [rid lr att ae te le | tr ct ia ea | d rs am] eqn:Hst; [| |done].
  - destruct (str_eqb rid _); [|done]. mem_run. cbn [installed r_state with_r_state with_updated with_generation].
    mem_run. cbn [fst snd]. split.
    + apply map_Forall_insert_2; [|done]. cbn. by apply (Hk _ _ Hr).
    + intros it [= <-]. cbn [m_records]. by rewrite lookup_insert_eq.
  - destruct (_ && _ && _) eqn:Heq; [|done].
    assert (Hi : installed r = Some (mkInstalledTarget (r_key r) (r_spec r) (r_spec_digest r) tr (r_generation r) ct ia ea))
      by (unfold installed; by rewrite Hst).
    rewrite Hi. mem_run. cbn [fst snd]. split; [done|]. intros it [= <-]. bool_hyps. rewrite Hr. cbn [mbind option_bind]. by rewrite Hi.
Qed.

Lemma expire_lease_at l now s k :
  m_records (expire_lease l now s).2 !! k = m_records s !! k
  \/ (k = l_key l /\ m_records (expire_lease l now s).2 !! k = None
      /\ exists r, m_records s !! k = Some r /\ expire_matches l r = true).
Proof.
  unfold expire_lease. mem_run. destruct (m_records s !! l_key l) as [r|] eqn:Hr; [|by left].
  destruct (expire_matches l r) eqn:He; [|by left]. mem_run.
  assert (Hd : m_records (if materialized_mib (l_spec l) <=? reserved_mib s
    then (Ok () : result MaterializationError unit, mkMemoryTargetRegistry (delete (l_key l) (m_records s)) (max_mib s)
            (reserved_mib s - materialized_mib (l_spec l)))
    else (Err (Corrupt "capacity counter underflow"),
          mkMemoryTargetRegistry (delete (l_key l) (m_records s)) (max_mib s) (reserved_mib s))).2
    = delete (l_key l) (m_records s)) by (by case_match).
  rewrite Hd. destruct (decide (k = l_key l)) as [->|].
  - right. rewrite lookup_delete_eq. eauto.
  - left. by rewrite lookup_delete_ne.
Qed.

#[global] Instance memory_lawful :
  LawfulReservations (MemoryTargetRegistry * L) memory_durable memory_consistent.
Proof.
  constructor; unfold memory_durable, memory_consistent; intros; cbn [port_acquire port_install port_expire_lease
    memory_reservations] in *; rewrite ?on_registry_run in *; cbn [fst snd] in *.
  - by eapply step_keyed; [|apply acquire_step].
  - by apply install_result.
  - pose proof (acquire_step spec_digest req (fst w) ltac:(done)) as Hs.
    destruct (acquire spec_digest req (fst w)) as [o s']. simplify_eq/=.
    inversion Hs as [| | |out Hout E1 E2]; by subst.
  - pose proof (acquire_step spec_digest req (fst w) ltac:(done)) as Hs.
    destruct (acquire spec_digest req (fst w)) as [o s']. simplify_eq/=. by eapply step_acquired.
  - simplify_eq/=. by apply install_result.
  - apply expire_lease_at.
Qed.
End memory_port.

(** ** Properties *)
Section properties.
Context {W : Type} `{TR : TargetReservations W}.
Context (launch : MaterializationLease -> M W LaunchError PhysicalTarget).
Context (terminate_stale : PhysicalTarget -> M W string unit).

Lemma observed_run {S E F A} (m : M S E A) (s : S) : (observed m : M S F (result E A)) s = (Ok (m s).1, (m s).2).
Proof. unfold observed. by destruct (m s). Qed.

(** How a materialization that got its lease can end. *)
Lemma materialize_run l now w :
  materialize launch terminate_stale l now w =
  match launch l w with
  | (Err e, w1) => launch_failed l now e w1
  | (Ok p, w1) =>
      match port_install l p now w1 with
      | (Ok (InstInstalled t), w2) => (Ok t, w2)
      | (Ok InstReservationLost, w2) =>
          (Err (ReservationLost (match (terminate_stale p w2).1 with Err e => Some e | Ok _ => None end)),
           (terminate_stale p w2).2)
      | (Err e, w2) => (Err e, w2)
      end
  end.
Proof.
  unfold materialize. rewrite M_bind_run, observed_run. destruct (launch l w) as [[p|e] w1]; cbn [fst snd]; [|done].
  rewrite M_bind_run. destruct (port_install l p now w1) as [[[t|]|e] w2]; [done| |done].
  by rewrite M_bind_run, observed_run.
Qed.

Lemma launch_failed_never_ok l now e w t : (launch_failed l now e w).1 <> Ok t.
Proof.
  unfold launch_failed. destruct e; rewrite ?M_bind_run; try (destruct (recovery_attempt l); cbn [negb]);
    rewrite ?M_bind_run, ?M_ret_run; try done; by destruct (port_expire_lease l now w) as [[]?].
Qed.
End properties.

(** C2: [ensure] never hands out a target whose routing is not durable: whatever the launcher and the
    other workers do meanwhile, an [Ok] answer is the projection of the installed record that the
    registry holds at the requested key when it returns. *)
Theorem ensure_returns_only_durable_targets {W} `{LR : LawfulReservations W durable consistent} launch
    terminate_stale req w t w' :
  consistent w -> u64 (a_attempt_duration_ms req) ->
  (forall l v, consistent v -> consistent (launch l v).2) ->
  ensure_target launch terminate_stale req w = (Ok t, w') ->
  durable w' (a_key req) ≫= installed = Some t.
Proof.
  intros Hc Hd Hlaunch. unfold ensure_target. rewrite M_bind_run.
  pose proof (acquire_consistent req w Hc Hd) as Hc1.
  destruct (port_acquire req w) as [[[l|g a|t'| |]|e] w1] eqn:Ha; try done.
  - destruct (acquire_acquired req w l w1 Hc Hd Ha) as [Hk _]. rewrite materialize_run.
    pose proof (Hlaunch l w1 Hc1) as Hc2. destruct (launch l w1) as [[p|e] w2].
    + destruct (port_install l p (a_now_ms req) w2) as [[[it|]|e] w3] eqn:Hi; [|done..].
      intros [= <- <-]. rewrite <- Hk. by apply (install_installed l p (a_now_ms req) w2).
    + intros Hbad. exfalso. apply (launch_failed_never_ok l (a_now_ms req) e w2 t). by rewrite Hbad.
  - rewrite M_ret_run. intros [= <- <-]. by apply (acquire_installed req w).
Qed.

(** A reservation is released only on proof that no target exists. When the failed attempt was a
    recovery, or its outcome is unknown, [ensure] leaves the world exactly as the launch left it; when
    a first attempt is known to have created nothing, it performs exactly one expiry of its own lease.
    In no case does a failed launch yield a target. *)
Theorem ensure_keeps_uncertain_reservations {W} `{TR : TargetReservations W} launch terminate_stale req w l w1 e w2 :
  port_acquire req w = (Ok (AcqAcquired l), w1) -> launch l w1 = (Err e, w2) ->
  let '(out, w3) := ensure_target launch terminate_stale req w in
  is_ok out = false
  /\ w3 = (if recovery_attempt l || match e with OutcomeUnknown _ => true | _ => false end
           then w2 else (port_expire_lease l (a_now_ms req) w2).2).
Proof.
  intros Ha Hl. destruct (ensure_target launch terminate_stale req w) as [out w3] eqn:He. revert He.
  unfold ensure_target. rewrite M_bind_run, Ha, materialize_run, Hl. unfold launch_failed.
  destruct e; rewrite ?M_bind_run; destruct (recovery_attempt l); cbn [negb orb]; rewrite ?M_bind_run, ?M_ret_run, ?throw_run;
    try (by intros [= <- <-]); destruct (port_expire_lease l (a_now_ms req) w2) as [[]?]; by intros [= <- <-].
Qed.

(** ** Witnesses *)
Definition sample_token : ControlToken := mkControlToken ("control-" +:+ digest_a).

(** A provider that names its one microVM and lets an unrelated worker reserve meanwhile. *)
Definition sample_launch (l : MaterializationLease) : M (MemoryTargetRegistry * unit) LaunchError PhysicalTarget :=
  fun w => (Ok (mkPhysicalTarget "vm-1" (l_generation l) sample_token),
            (port_acquire (TargetReservations := memory_reservations sample_digest)
               (sample_acquire (sample_key "root-9") "res-9" "att-9" 1024 1000) w).2).

Lemma sample_launch_consistent l v :
  memory_consistent v -> memory_consistent (sample_launch l v).2.
Proof. intros Hv. apply (acquire_consistent (LawfulReservations := memory_lawful sample_digest)); [done|]. by vm_compute. Qed.

Definition sample_request : AcquireTarget := sample_acquire (sample_key "root-1") "res-1" "att-1" 2048 1000.

Definition sample_run :=
  ensure_target (TR := memory_reservations sample_digest) sample_launch (fun _ => mret tt) sample_request (with_capacity 8192, tt).

Lemma ensure_returns_only_durable_targets_witness :
  exists t w', sample_run = (Ok t, w') /\ memory_durable w' (sample_key "root-1") ≫= installed = Some t
    /\ i_target_ref t = "vm-1".
Proof.
  destruct sample_run as [[t|] w'] eqn:E; [|by vm_compute in E].
  exists t, w'. split; [done|]. split.
  - apply (ensure_returns_only_durable_targets (LR := memory_lawful sample_digest) sample_launch (fun _ => mret tt)
      sample_request (with_capacity 8192, tt) t w'); [apply map_Forall_empty | by vm_compute | | exact E].
    apply sample_launch_consistent.
  - vm_compute in E. by injection E as <- <-.
Defined.

(** A first attempt the provider refuses releases its reservation; an unknown outcome keeps it. *)
Definition refused_launch (e : LaunchError) (l : MaterializationLease)
    : M (MemoryTargetRegistry * unit) LaunchError PhysicalTarget := throw e.

Definition refused_run (e : LaunchError) :=
  ensure_target (TR := memory_reservations sample_digest) (refused_launch e) (fun _ => mret tt) sample_request
    (with_capacity 8192, tt).

Definition sample_lease : MaterializationLease :=
  match (acquire sample_digest sample_request (with_capacity 8192)).1 with
  | Ok (AcqAcquired l) => l
  | _ => mkMaterializationLease (sample_key "") (sample_spec 0) "" "" "" (mkDurableLaunchRequest "") "" 0 0 0 false
  end.

Lemma ensure_keeps_uncertain_reservations_witness :
  reserved_mib (fst (refused_run (OutcomeUnknown "timeout")).2) = 2048
  /\ reserved_mib (fst (refused_run (KnownNoTarget "refused")).2) = 0
  /\ (let '(out, w3) := refused_run (OutcomeUnknown "timeout") in
      is_ok out = false /\ w3 = ((acquire sample_digest sample_request (with_capacity 8192)).2, tt)).
Proof.
  split; [vm_compute; reflexivity|]. split; [vm_compute; reflexivity|].
  apply (ensure_keeps_uncertain_reservations (TR := memory_reservations sample_digest)
    (refused_launch (OutcomeUnknown "timeout")) (fun _ => mret tt) sample_request (with_capacity 8192, tt)
    sample_lease ((acquire sample_digest sample_request (with_capacity 8192)).2, tt) (OutcomeUnknown "timeout")
    ((acquire sample_digest sample_request (with_capacity 8192)).2, tt)); vm_compute; reflexivity.
Defined.
