(* ===== verification/Launcher.v ===== *)
(** * hand-brain-aws launcher: dispatch windows around a lease

    Models the pure part of crates/hand-brain-aws/src/launcher.rs (the dispatch deadline, the admission
    of a provider dispatch, recovery requests and recovery errors), the lease constants of
    crates/hand-brain-aws/src/lib.rs and the acquisition request of crates/hand-brain-aws/src/hand.rs. The sealing of
    the provider request and the launcher port are in AwsLaunch.v. *)
From S2P Require Import Prelude Policy Target.

(** [hand_lambda::MAX_DURATION_SECONDS] is eight hours. *)
Definition MAX_DURATION_SECONDS : Z := 28800.
Definition TARGET_LEASE_MS : Z := MAX_DURATION_SECONDS * 1000 + 5 * 60 * 1000.
Definition TARGET_LIFETIME_MS : Z := MAX_DURATION_SECONDS * 1000.
Definition TARGET_ATTEMPT_MS : Z := 30000.
Definition TARGET_DISPATCH_WINDOW_MS : Z := 4 * 60 * 1000.

Definition launch_dispatch_deadline (l : MaterializationLease) : result MaterializationError Z :=
  reserved_at_ms ← ok_or InvalidLease (checked_sub (l_target_expires_at_ms l) TARGET_LIFETIME_MS);
  deadline ← ok_or InvalidLease (checked_add reserved_at_ms TARGET_DISPATCH_WINDOW_MS);
  if (l_lease_expires_at_ms l <=? deadline)
     || (saturating_sub (l_lease_expires_at_ms l) deadline <? TARGET_LIFETIME_MS)
  then Err InvalidLease
  else Ok deadline.

Definition admit_provider_dispatch (l : MaterializationLease) (dispatch_deadline_at_ms now_ms : Z)
    : result LaunchError unit :=
  if now_ms <=? dispatch_deadline_at_ms then Ok tt
  else if recovery_attempt l
  then Err (OutcomeUnknown "exact launch recovery window elapsed; possible target remains capacity-fenced")
  else Err (KnownNoTarget "provider dispatch deadline elapsed before the first RunMicrovm call").

(** The attempt identifier is freshly random in the code. *)
Definition recovery_request (l : MaterializationLease) (attempt_id : string) (now_ms : Z) : AcquireTarget :=
  mkAcquireTarget (l_key l) (l_spec l) (l_reservation_id l) (l_generation l) (l_launch_request l) attempt_id
    TARGET_ATTEMPT_MS true now_ms TARGET_LEASE_MS TARGET_LIFETIME_MS false.

Definition recovery_launch_error (e : LaunchError) : MaterializationError :=
  match e with
  | LCapacity scope retry_after_ms message => CapacityError scope retry_after_ms message
  | KnownNoTarget message =>
      LaunchOutcomeUnknown ("exact launch recovery returned no target; reservation remains fenced: " +:+ message)
  | RetryableKnownNoTarget message => LaunchRetryable message
  | OutcomeUnknown message => LaunchOutcomeUnknown message
  end.

(** The request [materialize] builds: the durations are always the plane's constants. *)
Definition plane_request (key : TargetKey) (spec : TargetSpec) (reservation_id generation attempt_id : string)
    (launch_request : DurableLaunchRequest) (fenced replace : bool) (now_ms : Z) : AcquireTarget :=
  mkAcquireTarget key spec reservation_id generation launch_request attempt_id TARGET_ATTEMPT_MS fenced now_ms
    TARGET_LEASE_MS TARGET_LIFETIME_MS replace.

(** ** Lemmas *)

(** An admitted dispatch is early enough for a whole provider lifetime to fit in the lease. *)
Lemma dispatch_deadline_fits l d :
  launch_dispatch_deadline l = Ok d ->
  d = l_target_expires_at_ms l - TARGET_LIFETIME_MS + TARGET_DISPATCH_WINDOW_MS
  /\ d + TARGET_LIFETIME_MS <= l_lease_expires_at_ms l.
Proof.
  unfold launch_dispatch_deadline. intros H. apply result_bind_Ok in H as (r & Hr & H).
  destruct (checked_sub _ _) as [r'|] eqn:Hs; [|done]. injection Hr as ->. apply checked_sub_Some in Hs as [-> _].
  apply result_bind_Ok in H as (d' & Hd & H).
  destruct (checked_add _ _) as [d''|] eqn:Ha; [|done]. injection Hd as ->. apply checked_add_Some in Ha as [-> _].
  destruct (_ || _) eqn:Hb; [done|]. injection H as <-. bool_hyps. unfold saturating_sub, TARGET_LIFETIME_MS, MAX_DURATION_SECONDS in *. lia.
Qed.

Lemma admit_Ok l d now : admit_provider_dispatch l d now = Ok tt <-> now <= d.
Proof. unfold admit_provider_dispatch. destruct (Z.leb_spec now d); [done|]. destruct (recovery_attempt l); split; done || lia. Qed.
