(* ===== verification/Plane.v ===== *)
(** * The plane: concurrent materialization under a memory quota

    The composition of the registry ([MemoryRegistry]), the materializer's steps ([Materializer]) and
    the launcher's dispatch guard ([Launcher]) as a step relation over one plane: any number of jobs
    acquire, dispatch, install and expire concurrently, crash at any point (a job that takes no further
    step), and the provider starts and loses microVMs on its own. The relation's side conditions are
    the provider's documented behaviour (idempotency by client token, the maximum duration, an attested
    refusal) and the freshness of random identifiers. The theorem is the one the lease constants exist
    for: the memory of the microVMs that may be running never exceeds the plane's quota. *)
From stdpp Require Import pretty.
From S2P Require Import Prelude Policy Page Target MemoryRegistry Launcher.

(** ** State *)
Record MicroVm := mkMicroVm { vm_ref : string; vm_key : TargetKey; vm_mib : Z; vm_started_ms : Z; vm_dead : bool }.

(** What a reservation identifier was first issued for. *)
Record Seal := mkSeal { seal_key : TargetKey; seal_mib : Z; seal_lease_expires_ms : Z; seal_attempt : string }.

Inductive Phase :=
  | Holding        (** the job acquired its lease *)
  | Dispatched (at_ms : Z)  (** the provider request was admitted at this time and may still be in flight *)
  | Refused        (** the provider attested that this first attempt created nothing *)
  | Launched (target_ref : string).

Record Job := mkJob { job_lease : MaterializationLease; job_phase : Phase }.

Record Plane := mkPlane {
  clock : Z;
  registry : MemoryTargetRegistry;
  vms : gmap string MicroVm;      (** by client token, which is the reservation identifier *)
  jobs : gmap nat Job;
  seals : gmap string Seal;       (** every reservation identifier ever issued *)
  attempts : gset string;         (** every attempt identifier ever used *)
}.

Definition plane_init (max_mib now : Z) : Plane := mkPlane now (with_capacity max_mib) ∅ ∅ ∅ ∅.

(** The provider may still be running the microVM. *)
Definition may_run (now : Z) (v : MicroVm) : Prop :=
  vm_dead v = false /\ now < vm_started_ms v + TARGET_LIFETIME_MS.

(** The longest a dispatched request may take to start its microVM: what is left of the lease beyond
    the lifetime and the dispatch window. *)
Definition DISPATCH_SLACK_MS : Z := TARGET_LEASE_MS - TARGET_LIFETIME_MS - TARGET_DISPATCH_WINDOW_MS.

Definition seal_of (l : MaterializationLease) : Seal :=
  mkSeal (l_key l) (materialized_mib (l_spec l)) (l_lease_expires_at_ms l) (l_attempt_id l).

Definition record_seal (l : MaterializationLease) (ss : gmap string Seal) : gmap string Seal :=
  if recovery_attempt l then ss else <[l_reservation_id l := seal_of l]> ss.

Section plane.
Context (spec_digest : TargetSpec -> string).

(** The requests a job makes: the plane's constant durations, fresh identifiers, a spec that fits the
    quota, and a clock that is not ahead of the plane's. *)
Definition request_ok (p : Plane) (req : AcquireTarget) : Prop :=
  a_attempt_duration_ms req = TARGET_ATTEMPT_MS /\ a_lease_duration_ms req = TARGET_LEASE_MS
  /\ a_target_lifetime_ms req = TARGET_LIFETIME_MS /\ a_now_ms req <= clock p
  /\ 0 <= materialized_mib (a_spec req) <= max_mib (registry p)
  /\ seals p !! a_reservation_id req = None /\ a_attempt_id req ∉ attempts p.

Inductive plane_step (p : Plane) : Plane -> Prop :=
  | StepTick now : clock p <= now ->
      plane_step p (mkPlane now (registry p) (vms p) (jobs p) (seals p) (attempts p))
  | StepAcquire j req l reg' :
      jobs p !! j = None -> request_ok p req ->
      acquire spec_digest req (registry p) = (Ok (AcqAcquired l), reg') ->
      plane_step p (mkPlane (clock p) reg' (vms p) (<[j := mkJob l Holding]> (jobs p))
                      (record_seal l (seals p)) ({[a_attempt_id req]} ∪ attempts p))
  | StepDispatch j l d :
      jobs p !! j = Some (mkJob l Holding) ->
      launch_dispatch_deadline l = Ok d -> admit_provider_dispatch l d (clock p) = Ok tt ->
      plane_step p (mkPlane (clock p) (registry p) (vms p) (<[j := mkJob l (Dispatched (clock p))]> (jobs p))
                      (seals p) (attempts p))
  | StepDispatchRefused j l d e :
      jobs p !! j = Some (mkJob l Holding) ->
      launch_dispatch_deadline l = Ok d -> admit_provider_dispatch l d (clock p) = Err (KnownNoTarget e) ->
      plane_step p (mkPlane (clock p) (registry p) (vms p) (<[j := mkJob l Refused]> (jobs p)) (seals p) (attempts p))
  | StepStart j l at_ms ref :
      jobs p !! j = Some (mkJob l (Dispatched at_ms)) -> clock p <= at_ms + DISPATCH_SLACK_MS ->
      vms p !! l_reservation_id l = None ->
      (forall rid v, vms p !! rid = Some v -> vm_ref v <> ref) ->
      plane_step p (mkPlane (clock p) (registry p)
                      (<[l_reservation_id l := mkMicroVm ref (l_key l) (materialized_mib (l_spec l)) (clock p) false]> (vms p))
                      (jobs p) (seals p) (attempts p))
  | StepReply j l at_ms v :
      jobs p !! j = Some (mkJob l (Dispatched at_ms)) -> vms p !! l_reservation_id l = Some v ->
      plane_step p (mkPlane (clock p) (registry p) (vms p) (<[j := mkJob l (Launched (vm_ref v))]> (jobs p))
                      (seals p) (attempts p))
  | StepRefuse j l at_ms :
      jobs p !! j = Some (mkJob l (Dispatched at_ms)) -> vms p !! l_reservation_id l = None ->
      recovery_attempt l = false ->
      plane_step p (mkPlane (clock p) (registry p) (vms p) (<[j := mkJob l Refused]> (jobs p)) (seals p) (attempts p))
  | StepGiveUp j job :
      jobs p !! j = Some job ->
      plane_step p (mkPlane (clock p) (registry p) (vms p)
                      (match job_phase job with Dispatched _ => jobs p | _ => delete j (jobs p) end)
                      (seals p) (attempts p))
  | StepExpire j l :
      jobs p !! j = Some (mkJob l Refused) ->
      plane_step p (mkPlane (clock p) (expire_lease l (clock p) (registry p)).2 (vms p) (delete j (jobs p))
                      (seals p) (attempts p))
  | StepInstall j l ref token now :
      jobs p !! j = Some (mkJob l (Launched ref)) ->
      plane_step p (mkPlane (clock p) (install l (mkPhysicalTarget ref (l_generation l) token) now (registry p)).2
                      (vms p) (delete j (jobs p)) (seals p) (attempts p))
  | StepDie rid v :
      vms p !! rid = Some v ->
      plane_step p (mkPlane (clock p) (registry p)
                      (<[rid := mkMicroVm (vm_ref v) (vm_key v) (vm_mib v) (vm_started_ms v) true]> (vms p))
                      (jobs p) (seals p) (attempts p))
  | StepClose t disposition reason now rid v :
      vms p !! rid = Some v -> vm_ref v = i_target_ref t -> vm_mib v = materialized_mib (i_spec t) ->
      ~ may_run (clock p) v ->
      plane_step p (mkPlane (clock p) (mark_closed t disposition reason now (registry p)).2 (vms p) (jobs p)
                      (seals p) (attempts p)).

Definition plane_reachable (max now : Z) : Plane -> Prop := rtc plane_step (plane_init max now).
End plane.

(** ** Invariant *)
Section invariant.
Context (spec_digest : TargetSpec -> string).

(** The record at a key stands for the microVM of a reservation. *)
Definition stands_for (rid ref : string) (r : DurableTargetRecord) : Prop :=
  match r_state r with
  | Materializing rid' _ _ _ _ _ => rid' = rid
  | Installed ref' _ _ _ => ref' = ref
  | Closed _ _ _ => False
  end.

Definition record_ok (p : Plane) (k : TargetKey) (r : DurableTargetRecord) : Prop :=
  match r_state r with
  | Materializing rid _ att _ te le =>
      le = te + (TARGET_LEASE_MS - TARGET_LIFETIME_MS) /\ att ∈ attempts p
      /\ exists s, seals p !! rid = Some s /\ seal_key s = k /\ seal_mib s = materialized_mib (r_spec r)
           /\ seal_lease_expires_ms s = le
  | Installed ref _ _ _ => exists rid v, vms p !! rid = Some v /\ vm_ref v = ref /\ vm_mib v = materialized_mib (r_spec r)
  | Closed _ _ _ => True
  end.

(** What a job's lease agrees with. *)
Definition lease_ok (p : Plane) (l : MaterializationLease) : Prop :=
  l_attempt_id l ∈ attempts p
  /\ l_lease_expires_at_ms l = l_target_expires_at_ms l + (TARGET_LEASE_MS - TARGET_LIFETIME_MS)
  /\ exists s, seals p !! l_reservation_id l = Some s /\ seal_key s = l_key l
       /\ seal_mib s = materialized_mib (l_spec l) /\ seal_lease_expires_ms s = l_lease_expires_at_ms l
       /\ (recovery_attempt l = false -> l_attempt_id l = seal_attempt s).

Definition phase_ok (p : Plane) (l : MaterializationLease) (ph : Phase) : Prop :=
  match ph with
  | Holding => True
  | Dispatched at_ms => at_ms <= l_lease_expires_at_ms l - TARGET_LIFETIME_MS - DISPATCH_SLACK_MS
  | Refused => recovery_attempt l = false
  | Launched ref => exists v, vms p !! l_reservation_id l = Some v /\ vm_ref v = ref
  end.

(** A request of this lease may still start a microVM. *)
Definition may_start (p : Plane) (l : MaterializationLease) : Prop :=
  clock p <= l_lease_expires_at_ms l - TARGET_LIFETIME_MS /\ vms p !! l_reservation_id l = None.

Definition materializing_as (rid : string) (r : DurableTargetRecord) : Prop :=
  match r_state r with Materializing rid' _ _ _ _ _ => rid' = rid | _ => False end.

Definition start_ok (p : Plane) (l : MaterializationLease) (ph : Phase) : Prop :=
  match ph with
  | Holding | Dispatched _ =>
      may_start p l -> exists r, m_records (registry p) !! l_key l = Some r /\ materializing_as (l_reservation_id l) r
  | _ => True
  end.

(** While a record still carries the attempt that created its reservation, no recovery job of that
    reservation exists; and while the creating job has not dispatched, or was refused, no microVM does. *)
Definition first_ok (p : Plane) (l : MaterializationLease) (ph : Phase) : Prop :=
  forall r lr att ae te le s,
    m_records (registry p) !! l_key l = Some r -> r_state r = Materializing (l_reservation_id l) lr att ae te le ->
    seals p !! l_reservation_id l = Some s -> att = seal_attempt s ->
    recovery_attempt l = false
    /\ match ph with Holding | Refused => vms p !! l_reservation_id l = None | _ => True end.

Definition job_ok (p : Plane) (jb : Job) : Prop :=
  lease_ok p (job_lease jb) /\ phase_ok p (job_lease jb) (job_phase jb)
  /\ start_ok p (job_lease jb) (job_phase jb) /\ first_ok p (job_lease jb) (job_phase jb).

Definition vm_ok (p : Plane) (rid : string) (v : MicroVm) : Prop :=
  exists s, seals p !! rid = Some s /\ vm_key v = seal_key s /\ vm_mib v = seal_mib s
    /\ vm_started_ms v + TARGET_LIFETIME_MS <= seal_lease_expires_ms s
    /\ (may_run (clock p) v -> exists r, m_records (registry p) !! vm_key v = Some r
          /\ stands_for rid (vm_ref v) r /\ charged_mib r = vm_mib v).

Record plane_inv (p : Plane) : Prop := {
  pi_registry : mem_inv spec_digest (registry p);
  pi_quota : reserved_mib (registry p) <= max_mib (registry p);
  pi_records : map_Forall (record_ok p) (m_records (registry p));
  pi_jobs : map_Forall (fun _ => job_ok p) (jobs p);
  pi_attempts : forall i j a b, jobs p !! i = Some a -> jobs p !! j = Some b ->
    l_attempt_id (job_lease a) = l_attempt_id (job_lease b) -> i = j;
  pi_vms : map_Forall (vm_ok p) (vms p);
  pi_refs : forall r1 r2 v1 v2, vms p !! r1 = Some v1 -> vms p !! r2 = Some v2 -> vm_ref v1 = vm_ref v2 -> r1 = r2;
  pi_seals : map_Forall (fun _ s => seal_attempt s ∈ attempts p) (seals p);
}.
End invariant.

(** ** Lemmas: arithmetic of the lease constants *)
Lemma slack_is_the_rest :
  TARGET_LEASE_MS = TARGET_LIFETIME_MS + TARGET_DISPATCH_WINDOW_MS + DISPATCH_SLACK_MS
  /\ 0 < DISPATCH_SLACK_MS /\ 0 < TARGET_LIFETIME_MS.
Proof. done. Qed.

Ltac plane_lia :=
  pose proof slack_is_the_rest; destruct_and?; unfold TARGET_LEASE_MS, TARGET_LIFETIME_MS, DISPATCH_SLACK_MS,
    TARGET_DISPATCH_WINDOW_MS, MAX_DURATION_SECONDS in *; lia.

(** ** Lemmas: frames *)
Section frames.
Context (spec_digest : TargetSpec -> string).

Record extends (p p' : Plane) : Prop := {
  ext_clock : clock p <= clock p';
  ext_seals : seals p ⊆ seals p';
  ext_attempts : attempts p ⊆ attempts p';
}.

(** microVMs may appear or die, but a known one keeps its identity and its start. *)
Definition vms_grow (p p' : Plane) : Prop :=
  forall rid v, vms p !! rid = Some v -> exists v', vms p' !! rid = Some v' /\ vm_ref v' = vm_ref v /\ vm_mib v' = vm_mib v.

Lemma record_ok_frame p p' k r : extends p p' -> vms_grow p p' -> record_ok p k r -> record_ok p' k r.
Proof.
  intros [_ Hs Ha] Hv. unfold record_ok. destruct (r_state r); [| |done].
  - intros (? & ? & s & Hl & ?). split; [done|]. split; [set_solver|]. exists s. split; [|done].
    by eapply lookup_weaken.
  - intros (rid & v & Hr & <- & <-). destruct (Hv rid v Hr) as (v' & ? & ? & ?). by exists rid, v'.
Qed.

Lemma lease_ok_frame p p' l : extends p p' -> lease_ok p l -> lease_ok p' l.
Proof.
  intros [_ Hs Ha] (? & ? & s & Hl & ?). split; [set_solver|]. split; [done|]. exists s. split; [|done].
  by eapply lookup_weaken.
Qed.

Lemma phase_ok_frame p p' l ph : vms_grow p p' -> phase_ok p l ph -> phase_ok p' l ph.
Proof.
  intros Hv. destruct ph; try done. intros (v & Hr & <-). destruct (Hv _ _ Hr) as (v' & ? & ? & _). by exists v'.
Qed.

Lemma start_ok_frame p p' l ph :
  extends p p' -> (vms p' !! l_reservation_id l = None -> vms p !! l_reservation_id l = None) ->
  (forall r, m_records (registry p) !! l_key l = Some r -> materializing_as (l_reservation_id l) r -> may_start p' l ->
     exists r', m_records (registry p') !! l_key l = Some r' /\ materializing_as (l_reservation_id l) r') ->
  start_ok p l ph -> start_ok p' l ph.
Proof.
  intros [Hc _ _] Hv Hr Hs. assert (Hm : may_start p' l -> may_start p l) by (intros [??]; split; [lia | auto]).
  destruct ph; try done; intros Hp; destruct (Hs (Hm Hp)) as (r & ? & ?); by apply (Hr r).
Qed.

Lemma first_ok_frame p p' l ph :
  extends p p' -> lease_ok p l -> (vms p !! l_reservation_id l = None -> vms p' !! l_reservation_id l = None) ->
  (forall r', m_records (registry p') !! l_key l = Some r' -> materializing_as (l_reservation_id l) r' ->
     m_records (registry p) !! l_key l = Some r') ->
  first_ok p l ph -> first_ok p' l ph.
Proof.
  intros [_ Hs _] (_ & _ & s0 & Hs0 & _) Hv Hr Hf r lr att ae te le s Hrec Hst Hsl Hatt.
  assert (s = s0) as -> by (pose proof (lookup_weaken _ _ _ _ Hs0 Hs); congruence).
  destruct (Hf r lr att ae te le s0) as [? Hph]; try done.
  - apply Hr; [done|]. unfold materializing_as. by rewrite Hst.
  - split; [done|]. destruct ph; auto.
Qed.

(** Nothing but the jobs, the clock and the ghost sets moved. *)
Lemma job_ok_frame p p' jb :
  extends p p' -> registry p' = registry p -> vms p' = vms p -> job_ok p jb -> job_ok p' jb.
Proof.
  intros He Hr Hv (Hl & Hp & Hs & Hf). split_and!.
  - by eapply lease_ok_frame.
  - eapply phase_ok_frame; [|done]. intros rid v. rewrite Hv. eauto.
  - eapply start_ok_frame; [done| | |done]; [by rewrite Hv | rewrite Hr; eauto].
  - eapply first_ok_frame; [done|done| | |done]; [by rewrite Hv | by rewrite Hr].
Qed.

Lemma vm_ok_frame p p' rid v :
  extends p p' -> registry p' = registry p -> vm_ok p rid v -> vm_ok p' rid v.
Proof.
  intros [Hc Hs _] Hr (s & Hl & ? & ? & ? & Hrun). exists s. split; [by eapply lookup_weaken|].
  split_and!; try done. intros [Hd Ht]. rewrite Hr. apply Hrun. split; [done | lia].
Qed.

(** Steps that only change jobs, the clock or the ghost sets. *)
Lemma quiet_step p p' :
  plane_inv spec_digest p -> extends p p' -> registry p' = registry p -> vms p' = vms p ->
  map_Forall (fun _ s => seal_attempt s ∈ attempts p') (seals p') ->
  (forall j jb, jobs p' !! j = Some jb -> job_ok p' jb \/ jobs p !! j = Some jb) ->
  (forall j jb, jobs p' !! j = Some jb -> exists jb0, jobs p !! j = Some jb0 /\ l_attempt_id (job_lease jb) = l_attempt_id (job_lease jb0)) ->
  plane_inv spec_digest p'.
Proof.
  intros [Hreg Hq Hrec Hjobs Hatt Hvms Hrefs Hseals] He Hr Hv Hss Hj Ha. constructor.
  - by rewrite Hr.
  - by rewrite Hr.
  - rewrite Hr. eapply map_Forall_impl; [exact Hrec|]. intros k r. apply record_ok_frame; [done|].
    intros rid v. rewrite Hv. eauto.
  - intros j jb H. destruct (Hj j jb H) as [?|H0]; [done|]. eapply job_ok_frame; [done..|]. by apply (Hjobs j).
  - intros i j a b H1 H2. destruct (Ha _ _ H1) as (a0 & ? & ->), (Ha _ _ H2) as (b0 & ? & ->). by apply Hatt.
  - rewrite Hv. eapply map_Forall_impl; [exact Hvms|]. intros rid v. by apply vm_ok_frame.
  - by rewrite Hv.
  - done.
Qed.

(** A step that only moves one job to its next phase. *)
Lemma phase_step p j l ph ph' :
  plane_inv spec_digest p -> jobs p !! j = Some (mkJob l ph) ->
  (job_ok p (mkJob l ph) -> job_ok p (mkJob l ph')) ->
  plane_inv spec_digest (mkPlane (clock p) (registry p) (vms p) (<[j := mkJob l ph']> (jobs p)) (seals p) (attempts p)).
Proof.
  intros Hi Hj Hok. assert (He : extends p (mkPlane (clock p) (registry p) (vms p) (<[j := mkJob l ph']> (jobs p)) (seals p) (attempts p)))
    by (constructor; cbn; done || lia).
  apply (quiet_step p); try done; cbn.
  - apply (pi_seals _ _ Hi).
  - intros i jb. rewrite lookup_insert. case_decide; [|by right]. intros [= <-]. left.
    eapply job_ok_frame; [exact He | done | done |]. apply Hok, (pi_jobs _ _ Hi j _ Hj).
  - intros i jb. rewrite lookup_insert. case_decide; [subst | by eauto]. intros [= <-]. by eexists.
Qed.

Lemma tick_inv p now :
  plane_inv spec_digest p -> clock p <= now ->
  plane_inv spec_digest (mkPlane now (registry p) (vms p) (jobs p) (seals p) (attempts p)).
Proof.
  intros Hi Hn. apply (quiet_step p); try done; cbn; [apply (pi_seals _ _ Hi) | by right | eauto].
Qed.

Lemma drop_job_inv p j :
  plane_inv spec_digest p ->
  plane_inv spec_digest (mkPlane (clock p) (registry p) (vms p) (delete j (jobs p)) (seals p) (attempts p)).
Proof.
  intros Hi. apply (quiet_step p); try done; cbn; [apply (pi_seals _ _ Hi) | | ].
  - intros i jb. rewrite lookup_delete_Some. intros [_ ?]. by right.
  - intros i jb. rewrite lookup_delete_Some. intros [_ ?]. eauto.
Qed.

Lemma dispatch_inv p j l d :
  plane_inv spec_digest p -> jobs p !! j = Some (mkJob l Holding) ->
  launch_dispatch_deadline l = Ok d -> admit_provider_dispatch l d (clock p) = Ok tt ->
  plane_inv spec_digest (mkPlane (clock p) (registry p) (vms p) (<[j := mkJob l (Dispatched (clock p))]> (jobs p)) (seals p) (attempts p)).
Proof.
  intros Hi Hj Hd Ha. apply (phase_step _ _ _ Holding); [done..|]. intros (Hl & _ & Hs & Hf).
  split_and!; [done| |done|].
  - apply dispatch_deadline_fits in Hd as [-> _]. apply admit_Ok in Ha. unfold phase_ok. cbn in *. destruct Hl as (_ & Hle & _). plane_lia.
  - intros r lr att ae te le s H1 H2 H3 H4. by destruct (Hf r lr att ae te le s H1 H2 H3 H4).
Qed.

Lemma refused_before_dispatch_inv p j l d e :
  plane_inv spec_digest p -> jobs p !! j = Some (mkJob l Holding) ->
  admit_provider_dispatch l d (clock p) = Err (KnownNoTarget e) ->
  plane_inv spec_digest (mkPlane (clock p) (registry p) (vms p) (<[j := mkJob l Refused]> (jobs p)) (seals p) (attempts p)).
Proof.
  intros Hi Hj Ha. apply (phase_step _ _ _ Holding); [done..|]. intros (Hl & _ & Hs & Hf).
  split_and!; [done| |done|done].
  unfold admit_provider_dispatch in Ha. case_match; [done|]. unfold phase_ok. cbn. by destruct (recovery_attempt l).
Qed.

Lemma refused_inv p j l at_ms :
  plane_inv spec_digest p -> jobs p !! j = Some (mkJob l (Dispatched at_ms)) ->
  vms p !! l_reservation_id l = None -> recovery_attempt l = false ->
  plane_inv spec_digest (mkPlane (clock p) (registry p) (vms p) (<[j := mkJob l Refused]> (jobs p)) (seals p) (attempts p)).
Proof. intros Hi Hj Hv Hr. apply (phase_step _ _ _ (Dispatched at_ms)); [done..|]. intros (Hl & _ & Hs & Hf). by split_and!. Qed.

Lemma reply_inv p j l at_ms v :
  plane_inv spec_digest p -> jobs p !! j = Some (mkJob l (Dispatched at_ms)) ->
  vms p !! l_reservation_id l = Some v ->
  plane_inv spec_digest (mkPlane (clock p) (registry p) (vms p) (<[j := mkJob l (Launched (vm_ref v))]> (jobs p)) (seals p) (attempts p)).
Proof.
  intros Hi Hj Hv. apply (phase_step _ _ _ (Dispatched at_ms)); [done..|]. intros (Hl & _ & Hs & Hf).
  split_and!; [done| |done|]; [by exists v|].
  intros r lr att ae te le s H1 H2 H3 H4. by destruct (Hf r lr att ae te le s H1 H2 H3 H4).
Qed.

(** Two leases of one reservation agree on its key; if both are first attempts, on the attempt. *)
Lemma lease_keys p l l' :
  lease_ok p l -> lease_ok p l' -> l_reservation_id l = l_reservation_id l' -> l_key l = l_key l'.
Proof. intros (_ & _ & s & Hs & <- & _) (_ & _ & s' & Hs' & <- & _) E. congruence. Qed.

Lemma first_job_attempts p l l' :
  lease_ok p l -> lease_ok p l' -> l_reservation_id l' = l_reservation_id l ->
  recovery_attempt l = false -> recovery_attempt l' = false -> l_attempt_id l = l_attempt_id l'.
Proof.
  intros (_ & _ & s1 & Hs1 & _ & _ & _ & H1) (_ & _ & s2 & Hs2 & _ & _ & _ & H2) E F1 F2.
  rewrite H1, H2 by done. congruence.
Qed.

(** The provider starts a microVM, or loses one. *)
Lemma start_inv p j l at_ms ref :
  plane_inv spec_digest p -> jobs p !! j = Some (mkJob l (Dispatched at_ms)) ->
  clock p <= at_ms + DISPATCH_SLACK_MS -> vms p !! l_reservation_id l = None ->
  (forall rid v, vms p !! rid = Some v -> vm_ref v <> ref) ->
  plane_inv spec_digest (mkPlane (clock p) (registry p)
    (<[l_reservation_id l := mkMicroVm ref (l_key l) (materialized_mib (l_spec l)) (clock p) false]> (vms p))
    (jobs p) (seals p) (attempts p)).
Proof.
  intros Hi Hj Hc Hv Hnew. set (vm := mkMicroVm _ _ _ _ _).
  destruct (pi_jobs _ _ Hi j _ Hj) as (Hl & Hp & Hs & Hf). cbn in Hl, Hp, Hs, Hf.
  set (p' := mkPlane _ _ _ _ _ _).
  assert (He : extends p p') by (constructor; cbn; done || lia).
  assert (Hg : vms_grow p p').
  { intros rid v Hr. exists v. split; [|done]. cbn. rewrite lookup_insert_ne; [done|]. intros <-. congruence. }
  pose proof Hi as [Hreg Hq Hrec Hjobs Hatt Hvms Hrefs Hseals].
  unfold phase_ok in Hp.
  assert (Hstart : clock p <= l_lease_expires_at_ms l - TARGET_LIFETIME_MS) by lia.
  destruct Hs as (r0 & Hr0 & Hm0); [done|].
  constructor; try done; cbn.
  - eapply map_Forall_impl; [exact Hrec|]. intros k r. by apply record_ok_frame.
  - intros i jb Hjb. destruct (Hjobs i jb Hjb) as (Hl' & Hp' & Hs' & Hf'). split_and!.
    + by eapply lease_ok_frame.
    + by eapply phase_ok_frame.
    + eapply start_ok_frame; [done| |by eauto|done]. cbn. rewrite lookup_insert. by case_decide.
    + intros r lr att ae te le s H1 H2 H3 H4. destruct (Hf' r lr att ae te le s H1 H2 H3 H4) as [Hrec' Hph].
      split; [done|]. cbn. rewrite lookup_insert. case_decide as Heq; [|done].
      assert (jobs p !! i = Some (mkJob l (Dispatched at_ms))) as Hsame; [|by simplify_eq].
      rewrite <- Hj. f_equal. apply (Hatt i j jb (mkJob l (Dispatched at_ms)) Hjb Hj). cbn.
      apply (first_job_attempts p (job_lease jb) l); try done.
      rewrite <- Heq in H2, H3. rewrite <- (lease_keys p l (job_lease jb) Hl Hl' Heq) in H1.
      by destruct (Hf r lr att ae te le s H1 H2 H3 H4).
  - intros rid v. rewrite lookup_insert. case_decide as Heq; [subst|]; intros Hr'.
    + injection Hr' as <-. destruct Hl as (_ & Hle & s & Hs & Hk & Hmib & Hex & _). exists s. cbn.
      split_and!; try done; [rewrite Hex; lia|]. intros _. exists r0. split; [done|].
      unfold materializing_as in Hm0. unfold stands_for, charged_mib.
      specialize (Hrec _ _ Hr0). unfold record_ok in Hrec.
      destruct (r_state r0) as [rid lr att ae te le | |] eqn:Hst; [|done|done]. subst rid. split; [done|].
      destruct Hrec as (_ & _ & s' & Hs' & _ & Hm & _). congruence.
    + destruct (Hvms rid v Hr') as (s & ? & ? & ? & ? & ?). exists s. by split_and!.
  - intros r1 r2 v1 v2. rewrite !lookup_insert. repeat case_decide; intros; simplify_eq; try done.
    + exfalso. eapply Hnew; [eassumption|]. cbn in *. congruence.
    + exfalso. eapply Hnew; [eassumption|]. cbn in *. congruence.
    + by eapply Hrefs.
Qed.

Lemma die_inv p rid v :
  plane_inv spec_digest p -> vms p !! rid = Some v ->
  plane_inv spec_digest (mkPlane (clock p) (registry p)
    (<[rid := mkMicroVm (vm_ref v) (vm_key v) (vm_mib v) (vm_started_ms v) true]> (vms p)) (jobs p) (seals p) (attempts p)).
Proof.
  intros Hi Hv. set (p' := mkPlane _ _ _ _ _ _).
  assert (He : extends p p') by (constructor; cbn; done || lia).
  assert (Hat : forall r w, vms p' !! r = Some w -> exists w0, vms p !! r = Some w0 /\ vm_ref w = vm_ref w0
    /\ (w = w0 \/ vm_dead w = true /\ vm_key w = vm_key w0 /\ vm_mib w = vm_mib w0 /\ vm_started_ms w = vm_started_ms w0)).
  { intros r w. cbn. rewrite lookup_insert. case_decide; [intros [= <-]; subst; exists v | intros ?; exists w]; eauto 10. }
  assert (Hg : vms_grow p p').
  { intros r w Hr. cbn. rewrite lookup_insert. case_decide; [simplify_eq; by eexists | by exists w]. }
  assert (Hnone : forall r, vms p' !! r = None <-> vms p !! r = None).
  { intros r. cbn. rewrite lookup_insert. case_decide; [subst | done]. by rewrite Hv. }
  pose proof Hi as [Hreg Hq Hrec Hjobs Hatt Hvms Hrefs Hseals]. constructor; try done.
  - eapply map_Forall_impl; [exact Hrec|]. intros k r. by apply record_ok_frame.
  - intros i jb Hjb. destruct (Hjobs i jb Hjb) as (Hl' & Hp' & Hs' & Hf'). split_and!.
    + by eapply lease_ok_frame.
    + by eapply phase_ok_frame.
    + eapply start_ok_frame; [done| by apply Hnone | by eauto | done].
    + eapply first_ok_frame; [done..| by apply Hnone | by eauto | done].
  - intros r w Hr. destruct (Hat r w Hr) as (w0 & H0 & _ & Hw). destruct (Hvms r w0 H0) as (s & ? & ? & ? & ? & ?).
    destruct Hw as [-> | (Hd & Hk & Hm & Hst)]; exists s; [by split_and!|].
    rewrite Hk, Hm, Hst. split_and!; try done. intros [? _]. congruence.
  - intros r1 r2 v1 v2 H1 H2. destruct (Hat _ _ H1) as (? & ? & -> & _), (Hat _ _ H2) as (? & ? & -> & _). by apply Hrefs.
Qed.

(** A step that changes the registry at one key. *)
Lemma registry_step p p' k :
  plane_inv spec_digest p -> extends p p' -> vms p' = vms p ->
  mem_inv spec_digest (registry p') -> reserved_mib (registry p') <= max_mib (registry p') ->
  (forall k', k' <> k -> m_records (registry p') !! k' = m_records (registry p) !! k') ->
  (forall r, m_records (registry p') !! k = Some r -> record_ok p' k r) ->
  (forall j jb, jobs p' !! j = Some jb ->
     jobs p !! j = Some jb
     /\ (l_key (job_lease jb) = k -> start_ok p' (job_lease jb) (job_phase jb) /\ first_ok p' (job_lease jb) (job_phase jb))
     \/ job_ok p' jb) ->
  (forall i j a b, jobs p' !! i = Some a -> jobs p' !! j = Some b ->
     l_attempt_id (job_lease a) = l_attempt_id (job_lease b) -> i = j) ->
  (forall rid v, vms p !! rid = Some v -> vm_key v = k -> may_run (clock p') v ->
     exists r, m_records (registry p') !! k = Some r /\ stands_for rid (vm_ref v) r /\ charged_mib r = vm_mib v) ->
  map_Forall (fun _ s => seal_attempt s ∈ attempts p') (seals p') ->
  plane_inv spec_digest p'.
Proof.
  intros Hi He Hv Hreg' Hq' Hother Hk Hj Hatt' Hrun Hss.
  pose proof Hi as [Hreg Hq Hrec Hjobs Hatt Hvms Hrefs Hseals].
  assert (Hg : vms_grow p p') by (intros rid v; rewrite Hv; eauto).
  constructor; try done.
  - intros k' r Hr. destruct (decide (k' = k)) as [->|Hne]; [by apply Hk|].
    rewrite Hother in Hr by done. eapply record_ok_frame; [done..|]. by apply Hrec.
  - intros j jb Hjb. destruct (Hj j jb Hjb) as [[H0 Hat]|]; [|done].
    destruct (Hjobs j jb H0) as (Hl & Hp & Hs & Hf).
    assert (Hl' : lease_ok p' (job_lease jb)) by (by eapply lease_ok_frame).
    assert (Hp' : phase_ok p' (job_lease jb) (job_phase jb)) by (by eapply phase_ok_frame).
    destruct (decide (l_key (job_lease jb) = k)) as [Hkey|Hne]; [destruct (Hat Hkey); by split_and!|].
    split_and!; try done.
    + eapply start_ok_frame; [done | by rewrite Hv | | done]. rewrite Hother by done. eauto.
    + eapply first_ok_frame; [done..| by rewrite Hv | | done]. by rewrite Hother by done.
  - rewrite Hv. intros rid v Hr. destruct (Hvms rid v Hr) as (s & Hs & ? & ? & ? & Hcov).
    exists s. destruct He as [Hc Hse _]. split; [by eapply lookup_weaken|]. split_and!; try done.
    intros Hmr. destruct (decide (vm_key v = k)) as [Heq|Hne]; [rewrite Heq; by apply Hrun|].
    rewrite Hother by done. apply Hcov. destruct Hmr. split; [done | lia].
  - by rewrite Hv.
Qed.

(** Facts about what a microVM or a possible start says of the record at its key. *)
Lemma running_record p rid v :
  plane_inv spec_digest p -> vms p !! rid = Some v -> may_run (clock p) v ->
  exists r, m_records (registry p) !! vm_key v = Some r /\ stands_for rid (vm_ref v) r /\ charged_mib r = vm_mib v.
Proof. intros Hi Hv Hr. destruct (pi_vms _ _ Hi rid v Hv) as (s & _ & _ & _ & _ & H). by apply H. Qed.

Lemma lease_agrees_job p l :
  plane_inv spec_digest p -> lease_ok p l -> lease_agrees (registry p) l.
Proof.
  intros Hi (_ & _ & s & Hs & _ & Hm & _) r Hr He. unfold expire_matches in He.
  pose proof (pi_records _ _ Hi _ _ Hr) as Hok. unfold record_ok in Hok.
  destruct (r_state r) as [rid lr att ae te le | |]; [|by rewrite andb_false_r in He..]. bool_hyps. subst rid.
  destruct Hok as (_ & _ & s' & Hs' & _ & Hm' & _). congruence.
Qed.

Lemma materializing_as_state rid r :
  materializing_as rid r -> exists lr att ae te le, r_state r = Materializing rid lr att ae te le.
Proof. unfold materializing_as. destruct (r_state r); try done. intros ->. by repeat eexists. Qed.

Lemma expire_inv p j l :
  plane_inv spec_digest p -> jobs p !! j = Some (mkJob l Refused) ->
  plane_inv spec_digest (mkPlane (clock p) (expire_lease l (clock p) (registry p)).2 (vms p) (delete j (jobs p))
    (seals p) (attempts p)).
Proof.
  intros Hi Hj. destruct (pi_jobs _ _ Hi j _ Hj) as (Hl & Hp & _ & Hf). cbn in Hl, Hf. unfold phase_ok in Hp. cbn in Hp.
  pose proof (lease_agrees_job p l Hi Hl) as Ha.
  destruct (expire_lease_run spec_digest l (clock p) (registry p) (pi_registry _ _ Hi) Ha) as [-> | (r & Hr & Hm & Heq)];
    [by apply drop_job_inv|].
  destruct (expire_lease_inv spec_digest l (clock p) (registry p) (pi_registry _ _ Hi) Ha) as [Hinv _].
  rewrite Heq in *. pose proof (charged_le spec_digest _ _ r (pi_registry _ _ Hi) Hr) as Hch.
  unfold expire_matches in Hm. destruct (r_state r) as [rid lr att ae te le | |] eqn:Hst; [|by rewrite andb_false_r in Hm..].
  bool_hyps. subst rid att. pose proof Hl as (_ & _ & s & Hs & _ & _ & _ & Hfirst).
  destruct (Hf r lr (l_attempt_id l) ae te le s Hr Hst Hs (Hfirst Hp)) as [_ Hnovm].
  set (p' := mkPlane _ _ _ _ _ _). assert (He : extends p p') by (constructor; cbn; done || lia).
  apply (registry_step p p' (l_key l)); try done; cbn.
  - pose proof (pi_quota _ _ Hi). lia.
  - intros k' Hne. by rewrite lookup_delete_ne.
  - intros r'. by rewrite lookup_delete_eq.
  - intros i jb. rewrite lookup_delete_Some. intros [Hne Hjb]. left. split; [done|]. intros Hkey.
    destruct (pi_jobs _ _ Hi i jb Hjb) as (Hl' & _ & Hs' & Hf'). split.
    + assert (Hno : ~ may_start p (job_lease jb) \/ match job_phase jb with Refused | Launched _ => True | _ => False end).
      { destruct (job_phase jb) eqn:Hph; auto; left; intros Hms; cbn in Hs'; destruct (Hs' Hms) as (r' & Hr' & Hm').
        all: rewrite Hkey, Hr in Hr'; injection Hr' as <-; unfold materializing_as in Hm'; rewrite Hst in Hm'.
        all: assert (Hrec' : recovery_attempt (job_lease jb) = false) by
          (destruct (Hf' r lr (l_attempt_id l) ae te le s); rewrite ?Hkey, <- ?Hm'; auto).
        all: apply Hne; apply (pi_attempts _ _ Hi j i _ _ Hj Hjb); cbn; by apply (first_job_attempts p). }
      destruct (job_phase jb); try done; intros Hms; destruct Hno; done.
    + intros r'. cbn. rewrite Hkey, lookup_delete_eq. done.
  - intros i1 i2 a b. rewrite !lookup_delete_Some. intros [_ ?] [_ ?]. by apply (pi_attempts _ _ Hi).
  - intros rid v Hv Hkey Hrun. exfalso. destruct (running_record p rid v Hi Hv Hrun) as (r' & Hr' & Hst' & _).
    rewrite Hkey, Hr in Hr'. injection Hr' as <-. unfold stands_for in Hst'. rewrite Hst in Hst'. congruence.
  - apply (pi_seals _ _ Hi).
Qed.

(** When the record at a key changes, the jobs of that key keep their obligations if none of them may
    still start a microVM or the record still materializes for them, and if a first-attempt record is
    not newly created for them. *)
Lemma start_ok_change p p' l ph :
  extends p p' -> vms p' = vms p -> start_ok p l ph ->
  (forall r, m_records (registry p) !! l_key l = Some r -> materializing_as (l_reservation_id l) r -> may_start p' l ->
     exists r', m_records (registry p') !! l_key l = Some r' /\ materializing_as (l_reservation_id l) r') ->
  start_ok p' l ph.
Proof. intros He Hv Hs Hr. eapply start_ok_frame; [done| by rewrite Hv | exact Hr | exact Hs]. Qed.

Lemma install_inv_plane p j l ref token now :
  plane_inv spec_digest p -> jobs p !! j = Some (mkJob l (Launched ref)) ->
  plane_inv spec_digest (mkPlane (clock p)
    (install l (mkPhysicalTarget ref (l_generation l) token) now (registry p)).2 (vms p) (delete j (jobs p))
    (seals p) (attempts p)).
Proof.
  intros Hi Hj. destruct (pi_jobs _ _ Hi j _ Hj) as (Hl & (v & Hv & Href) & _ & _). cbn in Hl, Hv.
  set (t := mkPhysicalTarget _ _ _).
  pose proof (install_inv spec_digest l t now (registry p) (pi_registry _ _ Hi)) as Hinv.
  destruct (install_run l t now (registry p)) as [-> | (r & lr & att & ae & te & le & Hr & Hst & Heq)];
    [by apply drop_job_inv|].
  rewrite Heq in *. set (r' := mkDurableTargetRecord _ _ _ _ _ _) in *.
  set (p' := mkPlane _ _ _ _ _ _). assert (He : extends p p') by (constructor; cbn; done || lia).
  destruct (pi_vms _ _ Hi _ _ Hv) as (s & Hs & Hk & Hm & _).
  pose proof (pi_records _ _ Hi _ _ Hr) as Hok. unfold record_ok in Hok. rewrite Hst in Hok.
  destruct Hok as (_ & _ & s' & Hs' & _ & Hm' & _).
  assert (Hmib : vm_mib v = materialized_mib (r_spec r)) by congruence.
  apply (registry_step p p' (l_key l)); try done; cbn.
  - apply (pi_quota _ _ Hi).
  - intros k' Hne. by rewrite lookup_insert_ne.
  - intros r0. rewrite lookup_insert_eq. intros [= <-]. unfold record_ok. cbn. by exists (l_reservation_id l), v.
  - intros i jb. rewrite lookup_delete_Some. intros [Hne Hjb]. left. split; [done|]. intros Hkey.
    destruct (pi_jobs _ _ Hi i jb Hjb) as (Hl' & _ & Hs0 & Hf'). split.
    + eapply start_ok_change; [done..|]. rewrite Hkey, Hr. intros r0 [= <-] Hm0 [_ Hnone].
      unfold materializing_as in Hm0. rewrite Hst in Hm0. cbn in Hnone. congruence.
    + intros r0 lr0 att0 ae0 te0 le0 s0. cbn. rewrite Hkey, lookup_insert_eq. intros [= <-]. done.
  - intros i1 i2 a b. rewrite !lookup_delete_Some. intros [_ ?] [_ ?]. by apply (pi_attempts _ _ Hi).
  - intros rid w Hw Hkey Hrun. destruct (running_record p rid w Hi Hw Hrun) as (r0 & Hr0 & Hst0 & Hch).
    rewrite Hkey, Hr in Hr0. injection Hr0 as <-. unfold stands_for in Hst0. rewrite Hst in Hst0. subst rid.
    assert (w = v) as -> by congruence. exists r'. rewrite lookup_insert_eq. split; [done|].
    split; [by unfold stands_for; cbn|]. unfold charged_mib in *. cbn. by rewrite Hst in Hch.
  - apply (pi_seals _ _ Hi).
Qed.

(** A target identified by a microVM of the plane has that microVM's memory. *)
Lemma target_agrees_vm p t rid v :
  plane_inv spec_digest p -> vms p !! rid = Some v -> vm_ref v = i_target_ref t ->
  vm_mib v = materialized_mib (i_spec t) -> target_agrees (registry p) t.
Proof.
  intros Hi Hv Href Hmib r Hr Hit. unfold is_installed_as in Hit.
  destruct (r_state r) as [| tr ct ia ea |] eqn:Hst; try done. bool_hyps.
  pose proof (pi_records _ _ Hi _ _ Hr) as Hok. unfold record_ok in Hok. rewrite Hst in Hok.
  destruct Hok as (rid' & v' & Hv' & Href' & Hm').
  assert (rid' = rid) as -> by (apply (pi_refs _ _ Hi _ _ v' v); congruence). congruence.
Qed.

Lemma close_inv p t d reason now rid v :
  plane_inv spec_digest p -> vms p !! rid = Some v -> vm_ref v = i_target_ref t ->
  vm_mib v = materialized_mib (i_spec t) -> ~ may_run (clock p) v ->
  plane_inv spec_digest (mkPlane (clock p) (mark_closed t d reason now (registry p)).2 (vms p) (jobs p)
    (seals p) (attempts p)).
Proof.
  intros Hi Hv Href Hmib Hdead.
  pose proof (target_agrees_vm p t rid v Hi Hv Href Hmib) as Ha.
  pose proof (mark_closed_inv spec_digest t d reason now (registry p) (pi_registry _ _ Hi) Ha) as Hinv.
  destruct (mark_closed_run spec_digest t d reason now (registry p) (pi_registry _ _ Hi) Ha) as [Heq | (r & Hr & Hit & Heq)];
    rewrite Heq in *; [by destruct p|].
  pose proof (charged_le spec_digest _ _ r (pi_registry _ _ Hi) Hr) as Hch.
  unfold is_installed_as in Hit. destruct (r_state r) as [| tr ct ia ea |] eqn:Hst; try done. bool_hyps. subst tr.
  set (p' := mkPlane _ _ _ _ _ _). assert (He : extends p p') by (constructor; cbn; done || lia).
  apply (registry_step p p' (i_key t)); try done; cbn.
  - pose proof (pi_quota _ _ Hi). lia.
  - intros k' Hne. by rewrite lookup_insert_ne.
  - intros r0. rewrite lookup_insert_eq. by intros [= <-].
  - intros i jb Hjb. left. split; [done|]. intros Hkey. destruct (pi_jobs _ _ Hi i jb Hjb) as (Hl' & _ & Hs0 & Hf'). split.
    + eapply start_ok_change; [done..|]. rewrite Hkey, Hr. intros r0 [= <-] Hm0.
      unfold materializing_as in Hm0. by rewrite Hst in Hm0.
    + intros r0 lr0 att0 ae0 te0 le0 s0. cbn. rewrite Hkey, lookup_insert_eq. by intros [= <-].
  - apply (pi_attempts _ _ Hi).
  - intros rid' w Hw Hkey Hrun. exfalso. destruct (running_record p rid' w Hi Hw Hrun) as (r0 & Hr0 & Hst0 & _).
    rewrite Hkey, Hr in Hr0. injection Hr0 as <-. unfold stands_for in Hst0. rewrite Hst in Hst0.
    assert (rid' = rid) as -> by (apply (pi_refs _ _ Hi _ _ w v); congruence). congruence.
  - apply (pi_seals _ _ Hi).
Qed.

(** A new job joins the plane, and the record at its key is replaced by one that materializes for it. *)
Lemma acquire_step_inv p j l att res r ss :
  plane_inv spec_digest p -> jobs p !! j = None -> att ∉ attempts p -> l_attempt_id l = att ->
  let reg := mkMemoryTargetRegistry (<[l_key l := r]> (m_records (registry p))) (max_mib (registry p)) res in
  let p' := mkPlane (clock p) reg (vms p) (<[j := mkJob l Holding]> (jobs p)) ss ({[att]} ∪ attempts p) in
  mem_inv spec_digest reg -> res <= max_mib (registry p) -> seals p ⊆ ss ->
  map_Forall (fun _ s => seal_attempt s ∈ {[att]} ∪ attempts p) ss ->
  record_ok p' (l_key l) r -> job_ok p' (mkJob l Holding) ->
  (forall i jb, jobs p !! i = Some jb -> l_key (job_lease jb) = l_key l ->
     (may_start p (job_lease jb) -> (exists r0, m_records (registry p) !! l_key l = Some r0
        /\ materializing_as (l_reservation_id (job_lease jb)) r0) -> materializing_as (l_reservation_id (job_lease jb)) r)
     /\ (forall lr a ae te le s, r_state r = Materializing (l_reservation_id (job_lease jb)) lr a ae te le ->
           seals p !! l_reservation_id (job_lease jb) = Some s -> a <> seal_attempt s)) ->
  (forall rid v, vms p !! rid = Some v -> vm_key v = l_key l -> may_run (clock p) v ->
     stands_for rid (vm_ref v) r /\ charged_mib r = vm_mib v) ->
  plane_inv spec_digest p'.
Proof.
  intros Hi Hj Hfresh Hatt reg p' Hreg Hres Hss Hsa Hrec Hjob Hold Hrun.
  assert (He : extends p p') by (constructor; cbn; [lia | done | set_solver]).
  apply (registry_step p p' (l_key l)); try done; cbn.
  - intros k' Hne. by rewrite lookup_insert_ne.
  - intros r0. rewrite lookup_insert_eq. by intros [= <-].
  - intros i jb. rewrite lookup_insert. case_decide; [intros [= <-]; by right|]. intros Hjb. left. split; [done|].
    intros Hkey. destruct (pi_jobs _ _ Hi i jb Hjb) as (Hl' & _ & Hs0 & Hf').
    destruct (Hold i jb Hjb Hkey) as [Hst Hfi]. split.
    + eapply start_ok_change; [done..|]. cbn. rewrite Hkey, lookup_insert_eq. intros r0 Hr0 Hm0 [Hc Hn].
      exists r. split; [done|]. apply Hst; [done|]. by exists r0.
    + intros r0 lr a ae te le s. cbn. rewrite Hkey, lookup_insert_eq. intros [= <-] Hr0 Hsl ->.
      destruct Hl' as (_ & _ & s0 & Hs0' & _). assert (s = s0) as ->.
      { pose proof (lookup_weaken _ _ _ _ Hs0' Hss). congruence. }
      exfalso. by eapply Hfi.
  - intros i1 i2 a b. rewrite !lookup_insert.
    assert (Hne : forall i jb, jobs p !! i = Some jb -> l_attempt_id (job_lease jb) <> l_attempt_id l).
    { intros i jb Hjb Heq. destruct (pi_jobs _ _ Hi i jb Hjb) as ((Hin & _) & _). congruence. }
    repeat case_decide; intros H1 H2 Heq; simplify_eq/=; try done.
    + exfalso. by eapply Hne.
    + exfalso. by eapply Hne.
    + by eapply (pi_attempts _ _ Hi).
  - intros rid v Hv Hkey Hmr. exists r. rewrite lookup_insert_eq. split; [done|]. by apply Hrun.
Qed.

(** A fresh reservation at a key that holds no record, a closed one, or one whose lease has run out. *)
Lemma fresh_inv p j req l res :
  plane_inv spec_digest p -> jobs p !! j = None -> request_ok p req ->
  AcquireTarget_lease spec_digest req = Ok l ->
  let r := record_from_lease l (a_now_ms req) in
  mem_inv spec_digest (mkMemoryTargetRegistry (<[a_key req := r]> (m_records (registry p))) (max_mib (registry p)) res) ->
  res <= max_mib (registry p) ->
  (forall r0, m_records (registry p) !! a_key req = Some r0 ->
     (exists d rs t, r_state r0 = Closed d rs t)
     \/ exists rid lr a ae te le, r_state r0 = Materializing rid lr a ae te le /\ le <= clock p) ->
  plane_inv spec_digest (mkPlane (clock p)
    (mkMemoryTargetRegistry (<[a_key req := r]> (m_records (registry p))) (max_mib (registry p)) res) (vms p)
    (<[j := mkJob l Holding]> (jobs p)) (record_seal l (seals p)) ({[a_attempt_id req]} ∪ attempts p)).
Proof.
  intros Hi Hj (Hd1 & Hd2 & Hd3 & Hnow & Hmib & Hrid & Hatt) Hl r Hinv Hres Hfree.
  apply AcquireTarget_lease_Ok in Hl as (_ & _ & _ & _ & Hl & _). unfold r in *. rewrite Hl in *. clear Hl l r.
  unfold record_seal. cbn [recovery_attempt l_reservation_id].
  assert (Hnovm : vms p !! a_reservation_id req = None).
  { destruct (vms p !! a_reservation_id req) as [v|] eqn:Hv; [|done].
    destruct (pi_vms _ _ Hi _ _ Hv) as (s & Hs & _). congruence. }
  match goal with |- context [mkJob ?l Holding] =>
    change (a_key req) with (l_key l) in |- *; apply (acquire_step_inv p j l (a_attempt_id req)) end; try done; cbn.
  - by apply insert_subseteq.
  - apply map_Forall_insert_2; [set_solver|]. eapply map_Forall_impl; [apply (pi_seals _ _ Hi)|]. set_solver.
  - unfold record_ok. cbn. split; [plane_lia|]. split; [set_solver|]. eexists. by rewrite lookup_insert_eq.
  - split_and!; try done; cbn.
    + split; [set_solver|]. cbn. split; [plane_lia|]. eexists. by rewrite lookup_insert_eq.
    + intros _. eexists. by rewrite lookup_insert_eq.
  - intros i jb Hjb Hkey. destruct (pi_jobs _ _ Hi i jb Hjb) as ((_ & _ & s & Hs & _ & _ & Hle & _) & _). split.
    + intros [Hc _] (r0 & Hr0 & Hm0). exfalso. apply materializing_as_state in Hm0 as (lr & a & ae & te & le & Hst).
      destruct (Hfree r0 Hr0) as [(d & rs & t & Hst') | (rid' & lr' & a' & ae' & te' & le' & Hst' & Hexp)]; [congruence|].
      pose proof (pi_records _ _ Hi _ _ Hr0) as Hok. unfold record_ok in Hok. rewrite Hst in Hok.
      destruct Hok as (_ & _ & s' & Hs' & _ & _ & Hle'). assert (s' = s) as -> by congruence.
      assert (le' = le) as -> by congruence. plane_lia.
    + intros lr a ae te le s' [= Heq] Hs'. intros _. rewrite <- Heq in Hs'. congruence.
  - intros rid v Hv Hkey Hrun. exfalso. destruct (running_record p rid v Hi Hv Hrun) as (r0 & Hr0 & Hst0 & _).
    rewrite Hkey in Hr0. unfold stands_for in Hst0.
    destruct (Hfree r0 Hr0) as [(d & rs & t & Hst') | (rid' & lr' & a' & ae' & te' & le' & Hst' & Hexp)];
      rewrite Hst' in Hst0; [done|]. subst rid'.
    pose proof (pi_records _ _ Hi _ _ Hr0) as Hok. unfold record_ok in Hok. rewrite Hst' in Hok.
    destruct Hok as (_ & _ & s' & Hs' & _ & _ & Hle'). destruct (pi_vms _ _ Hi _ _ Hv) as (s & Hs & _ & _ & Hst & _).
    assert (s' = s) as -> by congruence. destruct Hrun as [_ Hrun]. lia.
Qed.

(** A takeover of the attempt of a record whose target deadline is ahead. *)
Lemma takeover_inv p j req r rid lr att ae te le ae' :
  plane_inv spec_digest p -> jobs p !! j = None -> request_ok p req ->
  m_records (registry p) !! a_key req = Some r -> r_state r = Materializing rid lr att ae te le ->
  let r' := mkDurableTargetRecord (r_key r) (r_spec r) (r_spec_digest r) (r_generation r)
              (Materializing rid lr (a_attempt_id req) ae' te le) (a_now_ms req) in
  let l := mkMaterializationLease (r_key r) (r_spec r) (r_spec_digest r) rid (r_generation r) lr
             (a_attempt_id req) ae' te le true in
  let reg := mkMemoryTargetRegistry (<[a_key req := r']> (m_records (registry p))) (max_mib (registry p))
               (reserved_mib (registry p)) in
  mem_inv spec_digest reg ->
  plane_inv spec_digest (mkPlane (clock p) reg (vms p) (<[j := mkJob l Holding]> (jobs p)) (record_seal l (seals p))
    ({[a_attempt_id req]} ∪ attempts p)).
Proof.
  intros Hi Hj (_ & _ & _ & _ & _ & _ & Hatt) Hr Hst r' l reg Hinv.
  pose proof (pi_records _ _ Hi _ _ Hr) as Hok. unfold record_ok in Hok. rewrite Hst in Hok.
  destruct Hok as (Hle & _ & s & Hs & Hk & Hm & Hse).
  destruct (mem_wf _ _ (pi_registry _ _ Hi) _ _ Hr) as (Hkey & _ & _).
  assert (Hnew : forall x s0, seals p !! x = Some s0 -> a_attempt_id req <> seal_attempt s0).
  { intros x s0 Hx E. apply Hatt. rewrite E. apply (pi_seals _ _ Hi _ _ Hx). }
  unfold reg in *. rewrite <- Hkey in *. change (r_key r) with (l_key l) in Hinv |- *.
  eapply (acquire_step_inv p j _ (a_attempt_id req)); try done; cbn.
  - apply (pi_quota _ _ Hi).
  - eapply map_Forall_impl; [apply (pi_seals _ _ Hi)|]. set_solver.
  - unfold record_ok. cbn. split; [done|]. split; [set_solver|]. by exists s.
  - split_and!; try done; cbn.
    + split; [set_solver|]. split; [done|]. by exists s.
    + intros _. eexists. by rewrite lookup_insert_eq.
    + intros r0 lr0 att0 ae0 te0 le0 s0. cbn. rewrite lookup_insert_eq. intros [= <-] [= <- <- <- <- <-] Hs0 Heq.
      by apply Hnew in Hs0.
  - intros i jb Hjb Hkey'. split.
    + intros _ (r0 & Hr0 & Hm0). rewrite Hr in Hr0. injection Hr0 as <-. unfold materializing_as in *.
      rewrite Hst in Hm0. exact Hm0.
    + intros lr0 a0 ae0 te0 le0 s0 [= <- <- <- <- <- <-] Hs0. by apply Hnew in Hs0.
  - intros rid' v Hv Hkey' Hrun. destruct (running_record p rid' v Hi Hv Hrun) as (r0 & Hr0 & Hst0 & Hch).
    rewrite Hkey', Hr in Hr0. injection Hr0 as <-. unfold stands_for, charged_mib in *. rewrite Hst in Hst0, Hch. done.
Qed.

Context (digest_seals : forall a b, spec_digest a = spec_digest b -> materialized_mib a = materialized_mib b).

Lemma acquire_inv_plane p j req l reg' :
  plane_inv spec_digest p -> jobs p !! j = None -> request_ok p req ->
  acquire spec_digest req (registry p) = (Ok (AcqAcquired l), reg') ->
  plane_inv spec_digest (mkPlane (clock p) reg' (vms p) (<[j := mkJob l Holding]> (jobs p)) (record_seal l (seals p))
    ({[a_attempt_id req]} ∪ attempts p)).
Proof.
  intros Hi Hj Hreq Hacq. pose proof Hreq as (Hd1 & _ & _ & Hnow & Hmib & _).
  assert (Hu : u64 (a_attempt_duration_ms req)) by (rewrite Hd1; by vm_compute).
  pose proof (acquire_step spec_digest req (registry p) Hu) as Hs.
  pose proof (acquire_inv spec_digest digest_seals req (registry p) (pi_registry _ _ Hi) Hu ltac:(lia)) as Hinv.
  rewrite Hacq in Hs, Hinv. cbn [fst snd] in *.
  inversion Hs as [lease Hl Hf Hc E1 E2 | lease r rid lr att ae te le Hl Hr Hst Hd Hle E1 E2
    | r rid lr att ae te le Hr Hst Hd Hte Hle Hae ae' E1 E2 | out Hout E1 E2]; subst; [| | |done].
  - apply fresh_inv; try done.
    + unfold saturating_sub in Hc. pose proof (pi_quota _ _ Hi). lia.
    + intros r0 Hr0. destruct Hf as [Hn | (r & Hr & Hlost & _)]; [congruence|]. left.
      assert (r0 = r) as -> by congruence. unfold disposition_is_lost in Hlost. destruct (r_state r); try done. eauto.
  - apply fresh_inv; try done; [apply (pi_quota _ _ Hi)|]. intros r0 Hr0. right.
    assert (r0 = r) as -> by congruence. do 6 eexists. split; [done | lia].
  - by apply (takeover_inv p j req r rid lr att ae te le).
Qed.

Lemma plane_step_inv p p' : plane_inv spec_digest p -> plane_step spec_digest p p' -> plane_inv spec_digest p'.
Proof.
  intros Hi [now Hn | j req l reg' Hj Hreq Hacq | j l d Hj Hd Ha | j l d e Hj Hd Ha | j l at_ms ref Hj Hc Hv Hnew
    | j l at_ms v Hj Hv | j l at_ms Hj Hv Hr | j job Hj | j l Hj | j l ref token now Hj | rid v Hv
    | t d reason now rid v Hv Href Hmib Hdead].
  - by apply tick_inv.
  - by apply acquire_inv_plane.
  - by apply (dispatch_inv p j l d).
  - by apply (refused_before_dispatch_inv p j l d e).
  - by apply (start_inv p j l at_ms).
  - by apply (reply_inv p j l at_ms).
  - by apply (refused_inv p j l at_ms).
  - destruct (job_phase job); (by apply drop_job_inv) || (by destruct p).
  - by apply expire_inv.
  - by apply install_inv_plane.
  - by apply die_inv.
  - by apply (close_inv p t d reason now rid v).
Qed.

Lemma plane_reachable_inv max now p : 0 <= max -> plane_reachable spec_digest max now p -> plane_inv spec_digest p.
Proof.
  intros Hm Hr. assert (H0 : plane_inv spec_digest (plane_init max now)).
  { by constructor. }
  revert H0. induction Hr as [|x y z Hxy _ IH]; [done|]. intros Hx. apply IH. by eapply plane_step_inv.
Qed.

Lemma step_keeps_quota p p' :
  plane_inv spec_digest p -> plane_step spec_digest p p' -> max_mib (registry p') = max_mib (registry p).
Proof.
  intros Hi Hs. pose proof (plane_step_inv p p' Hi Hs) as Hi'.
  destruct Hs as [| j req l reg' Hj (Hd1 & _) Hacq | | | | | | | j l Hj | j l ref token now Hj | | t d reason now rid v Hv Href Hmib Hdead];
    cbn; try done.
  - pose proof (acquire_step spec_digest req (registry p) ltac:(rewrite Hd1; by vm_compute)) as H.
    rewrite Hacq in H. cbn in H. by inversion H; subst.
  - unfold expire_lease. mem_run. repeat (case_match; mem_run); done.
  - unfold install. mem_run. repeat (case_match; mem_run); done.
  - pose proof (target_agrees_vm p t rid v Hi Hv Href Hmib) as Ha.
    by destruct (mark_closed_run spec_digest t d reason now (registry p) (pi_registry _ _ Hi) Ha) as [-> | (r & _ & _ & ->)].
Qed.

Lemma reachable_quota max now p :
  0 <= max -> plane_reachable spec_digest max now p -> max_mib (registry p) = max.
Proof.
  intros Hm Hr. assert (H0 : plane_inv spec_digest (plane_init max now) /\ max_mib (registry (plane_init max now)) = max).
  { split; [by apply (plane_reachable_inv max now); [|apply rtc_refl] | done]. }
  revert H0. induction Hr as [|x y z Hxy _ IH]; [naive_solver|]. intros [Hx Hq]. apply IH. split; [by eapply plane_step_inv|].
  by rewrite (step_keeps_quota x y).
Qed.
End frames.




(** ** Properties *)

#[global] Instance may_run_dec now v : Decision (may_run now v).
Proof. unfold may_run. apply _. Defined.

(** The memory of the microVMs that may be running. *)
Definition running_mib (p : Plane) : Z := map_sum vm_mib (filter (fun kv => may_run (clock p) kv.2) (vms p)).


(** ** Witnesses: one job acquires, dispatches and gets a running microVM *)
Definition mib_digest (s : TargetSpec) : string := pretty (materialized_mib s).

Lemma mib_digest_seals a b : mib_digest a = mib_digest b -> materialized_mib a = materialized_mib b.
Proof. unfold mib_digest. intros H. by apply (inj (pretty : Z -> string)) in H. Qed.

Definition sample_plane_request : AcquireTarget :=
  plane_request (sample_key "root-1") (sample_spec 2048) "res-1" "generation-1" "att-1"
    (mkDurableLaunchRequest "launch") false true 1000.

Definition sample_plane_lease : MaterializationLease :=
  match AcquireTarget_lease mib_digest sample_plane_request with
  | Ok l => l
  | Err _ => mkMaterializationLease (sample_key "") (sample_spec 0) "" "" "" (mkDurableLaunchRequest "") "" 0 0 0 false
  end.

Definition sample_p0 : Plane := plane_init 4096 1000.
Definition sample_p1 : Plane :=
  mkPlane (clock sample_p0) (acquire mib_digest sample_plane_request (registry sample_p0)).2 (vms sample_p0)
    (<[0%nat := mkJob sample_plane_lease Holding]> (jobs sample_p0)) (record_seal sample_plane_lease (seals sample_p0))
    ({[a_attempt_id sample_plane_request]} ∪ attempts sample_p0).
Definition sample_p2 : Plane :=
  mkPlane (clock sample_p1) (registry sample_p1) (vms sample_p1)
    (<[0%nat := mkJob sample_plane_lease (Dispatched (clock sample_p1))]> (jobs sample_p1)) (seals sample_p1) (attempts sample_p1).
Definition sample_vm : MicroVm :=
  mkMicroVm "vm-1" (l_key sample_plane_lease) (materialized_mib (l_spec sample_plane_lease)) (clock sample_p2) false.
Definition sample_p3 : Plane :=
  mkPlane (clock sample_p2) (registry sample_p2) (<[l_reservation_id sample_plane_lease := sample_vm]> (vms sample_p2))
    (jobs sample_p2) (seals sample_p2) (attempts sample_p2).

Lemma sample_p3_reachable : plane_reachable mib_digest 4096 1000 sample_p3.
Proof.
  apply (rtc_l _ _ sample_p1); [|apply (rtc_l _ _ sample_p2); [|apply (rtc_l _ _ sample_p3); [|apply rtc_refl]]].
  - apply (StepAcquire mib_digest sample_p0 0%nat sample_plane_request sample_plane_lease); [done| |vm_compute; reflexivity].
    unfold request_ok. cbn. repeat split; try done; vm_compute; discriminate || set_solver.
  - apply (StepDispatch mib_digest sample_p1 0%nat sample_plane_lease 241000); [done | vm_compute; reflexivity..].
  - apply (StepStart mib_digest sample_p2 0%nat sample_plane_lease 1000 "vm-1"); try done.
Qed.

