(* ===== verification/Control.v ===== *)
(** * hand-lambda: lifecycle control of microVMs

    Models crates/hand-lambda/src/control.rs and crates/hand-lambda/src/launch.rs: the classification of
    provider failures, the pacing of lifecycle calls by token buckets, the sealed RunMicrovm request and the
    wait for a state. The AWS SDK is outside the repository: a call is a function of the world that answers
    with a response or an error, the clock, the timer and the random source are functions of the world too.
    The WebSocket connection and the SDK's request builders are not modelled. *)
From S2P Require Import Prelude Policy Connector Launcher.

(** ** Failures *)
Inductive ControlError :=
  | Capacity (scope : string) (retry_after_ms : Z) (message : string)
  | Throttled (message : string)
  | Retryable (message : string)
  | ControlGone (message : string)
  | UnknownOutcome (message : string)
  | Fatal (message : string).

#[global] Instance ControlError_eq_dec : EqDecision ControlError.
Proof. solve_decision. Defined.

Definition one_of (code : string) (codes : list string) : bool := existsb (str_eqb code) codes.

Definition classify (code : option string) (message : string) (effect : bool) : ControlError :=
  match code with
  | Some code =>
      if str_eqb code "ResourceNotFoundException" then ControlGone message
      else if one_of code ["ServiceQuotaExceededException"; "ResourceLimitExceededException"]
      then Capacity code 5000 message
      else if one_of code ["InsufficientCapacityException"; "InsufficientInstanceCapacity"]
      then Capacity code 1000 message
      else if one_of code ["ThrottlingException"; "TooManyRequestsException"] then Throttled message
      else if one_of code ["InternalServerException"; "ServiceUnavailableException"]
      then if effect then UnknownOutcome message else Retryable message
      else if str_eqb code "ConflictException" && effect then UnknownOutcome message
      else Fatal message
  | None => if effect then UnknownOutcome message else Retryable message
  end.

(** The SDK's error, as far as it is read. *)
Inductive ProviderError :=
  | ProviderService (code message : option string)
  | ProviderConstruction
  | ProviderOther (text : string).

Definition sdk_error (e : ProviderError) (effect : bool) : ControlError :=
  match e with
  | ProviderService code message => classify code (default "service error" message) effect
  | ProviderConstruction => Fatal "request construction"
  | ProviderOther text => classify None text effect
  end.
Definition effect_error (e : ProviderError) : ControlError := sdk_error e true.
Definition read_error (e : ProviderError) : ControlError := sdk_error e false.

(** ** States *)
Inductive MicrovmState :=
  | VmPending | VmRunning | VmSuspending | VmSuspended | VmTerminating | VmTerminated | VmOther (name : string).

#[global] Instance MicrovmState_eq_dec : EqDecision MicrovmState.
Proof. solve_decision. Defined.

Definition is_gone (s : MicrovmState) : bool := match s with VmTerminating | VmTerminated => true | _ => false end.
Definition is_terminated (s : MicrovmState) : bool := match s with VmTerminated => true | _ => false end.

Record Microvm := mkMicrovm { mv_id : string; mv_state : MicrovmState; mv_endpoint : option string }.

(** ** The sealed request *)
Definition MAX_IDLE_SECONDS : Z := 180.
Definition ALL_INGRESS : string := "ALL_INGRESS".

Record ExactRunMicrovmRequest := mkExactRunMicrovmRequest {
  image_identifier : string;
  image_version : string;
  ingress_network_connector : string;
  egress_network_connector : string;
  max_idle_duration_seconds : Z;
  suspended_duration_seconds : Z;
  auto_resume_enabled : bool;
  maximum_duration_seconds : Z;
  run_hook_payload : string;
  client_token : string }.

Definition connector_arn (region name : string) : string :=
  if starts_with "arn:" name then name
  else "arn:aws:lambda:" +:+ region +:+ ":aws:network-connector:aws-network-connector:" +:+ name.

Definition exact_run_request (region image_arn image_version run_hook_payload client_token : string)
    (egress_connector : ConnectorRef) : ExactRunMicrovmRequest :=
  mkExactRunMicrovmRequest image_arn image_version (connector_arn region ALL_INGRESS)
    (connector_arn region (ref_str egress_connector)) MAX_IDLE_SECONDS MAX_DURATION_SECONDS true
    MAX_DURATION_SECONDS run_hook_payload client_token.

Definition is_empty (s : string) : bool := str_len s =? 0.

Definition validate_exact_run_request (region : string) (r : ExactRunMicrovmRequest) : result ControlError unit :=
  if is_empty (image_identifier r) || is_empty (image_version r)
     || negb (str_eqb (ingress_network_connector r) (connector_arn region ALL_INGRESS))
     || is_empty (egress_network_connector r) || is_empty (run_hook_payload r) || is_empty (client_token r)
     || (128 <? str_len (client_token r))
     || (max_idle_duration_seconds r =? 0)
     || (maximum_duration_seconds r <? max_idle_duration_seconds r)
     || (suspended_duration_seconds r =? 0) || (MAX_DURATION_SECONDS <? suspended_duration_seconds r)
     || (maximum_duration_seconds r =? 0) || (MAX_DURATION_SECONDS <? maximum_duration_seconds r)
     || negb (auto_resume_enabled r)
  then Err (Fatal "sealed RunMicrovm request is outside the supported boundary")
  else Ok tt.

(** ** Pacing configuration *)
Record ControlPacingConfig := mkControlPacingConfig {
  run_rate_per_second : Z; run_burst : Z;
  resume_rate_per_second : Z; resume_burst : Z;
  suspend_rate_per_second : Z; suspend_burst : Z;
  terminate_rate_per_second : Z; terminate_burst : Z }.

Definition pacing_default : ControlPacingConfig := mkControlPacingConfig 1 1 5 5 2 2 10 10.

Definition U32_MAX : Z := 2 ^ 32 - 1.

(** One bounded setting; the error is the name of the refused variable. *)
Definition pacing_value (lookup : string -> option string) (name : string) (default maximum : Z) : result string Z :=
  let raw := match lookup name with Some raw => raw | None => print_uint default end in
  parsed ← ok_or name (parse_uint U32_MAX raw);
  if (1 <=? parsed) && (parsed <=? maximum) then Ok parsed else Err name.

Definition pacing_from_lookup (lookup : string -> option string) : result string ControlPacingConfig :=
  let d := pacing_default in
  run_rate ← pacing_value lookup "HAND_PROVIDER_RUN_RATE_PER_SECOND" (run_rate_per_second d) 5;
  run_burst ← pacing_value lookup "HAND_PROVIDER_RUN_BURST" (run_burst d) 5;
  resume_rate ← pacing_value lookup "HAND_PROVIDER_RESUME_RATE_PER_SECOND" (resume_rate_per_second d) 5;
  resume_burst ← pacing_value lookup "HAND_PROVIDER_RESUME_BURST" (resume_burst d) 5;
  suspend_rate ← pacing_value lookup "HAND_PROVIDER_SUSPEND_RATE_PER_SECOND" (suspend_rate_per_second d) 2;
  suspend_burst ← pacing_value lookup "HAND_PROVIDER_SUSPEND_BURST" (suspend_burst d) 2;
  terminate_rate ← pacing_value lookup "HAND_PROVIDER_TERMINATE_RATE_PER_SECOND" (terminate_rate_per_second d) 10;
  terminate_burst ← pacing_value lookup "HAND_PROVIDER_TERMINATE_BURST" (terminate_burst d) 10;
  Ok (mkControlPacingConfig run_rate run_burst resume_rate resume_burst suspend_rate suspend_burst
        terminate_rate terminate_burst).

(** ** Token buckets: instants and durations in nanoseconds; [INSTANT_MIN] is the earliest instant the platform
    represents *)
Record TokenBucket := mkTokenBucket { interval : Z; burst : Z; theoretical_arrival : option Z }.

Definition bucket_new (rate_per_second burst : Z) : TokenBucket :=
  mkTokenBucket (1000000000 / rate_per_second) burst None.

Record ControlPacing := mkControlPacing {
  gate_run : TokenBucket; gate_resume : TokenBucket; gate_suspend : TokenBucket; gate_terminate : TokenBucket }.

Definition pacing_of (c : ControlPacingConfig) : ControlPacing :=
  mkControlPacing (bucket_new (run_rate_per_second c) (run_burst c))
    (bucket_new (resume_rate_per_second c) (resume_burst c))
    (bucket_new (suspend_rate_per_second c) (suspend_burst c))
    (bucket_new (terminate_rate_per_second c) (terminate_burst c)).

Section bucket.
Context (INSTANT_MIN : Z).

Definition instant_checked_sub (i d : Z) : option Z := if INSTANT_MIN <=? i - d then Some (i - d) else None.

(** The delay until admission, and the bucket after it. *)
Definition bucket_reserve (now : Z) (b : TokenBucket) : Z * TokenBucket :=
  let prior := default now (theoretical_arrival b) in
  let tolerance := interval b * saturating_sub (burst b) 1 in
  let earliest := default now (instant_checked_sub prior tolerance) in
  let admitted_at := Z.max earliest now in
  (saturating_sub admitted_at now, mkTokenBucket (interval b) (burst b) (Some (Z.max prior admitted_at + interval b))).

(** The instants at which a sequence of calls is admitted, each with its own reading of the clock. *)
Fixpoint admissions (nows : list Z) (b : TokenBucket) : list Z :=
  match nows with
  | [] => []
  | now :: nows => let '(delay, b) := bucket_reserve now b in (now + delay) :: admissions nows b
  end.
End bucket.

(** ** Paced calls *)
Definition jittered_throttle_backoff (attempt entropy : Z) : Z :=
  let cap_ms := Z.min (Z.min U64_MAX (100 * Z.shiftl 1 (Z.min attempt 4))) 2000 in
  entropy mod (cap_ms + 1).

Section calls.
(** The world outside the process: its clock, timer and random source, in nanoseconds. *)
Context {W : Type} (INSTANT_MIN : Z).
Context (clock : W -> Z) (sleep_until : Z -> W -> W) (random : W -> Z * W).

(** A gate is shared by the calls of one kind, so it is part of the state they change. *)
Notation Paced := (M (TokenBucket * W) ControlError).

Definition acquire_gate : Paced unit := fun '(gate, w) =>
  let '(delay, gate) := bucket_reserve INSTANT_MIN (clock w) gate in
  (Ok tt, (gate, if delay =? 0 then w else sleep_until (clock w + delay) w)).

Definition backoff (attempt : Z) : Paced unit := fun '(gate, w) =>
  let '(sample, w) := random w in
  (Ok tt, (gate, sleep_until (clock w + jittered_throttle_backoff attempt sample * 1000000) w)).

Definition MAX_ATTEMPTS : nat := 4.

(** [more] further attempts are allowed after this one. *)
Fixpoint paced_loop {T : Type} (send : Paced T) (more : nat) (attempt : Z) : Paced T :=
  _ ← acquire_gate;
  sent ← (observed send : Paced (result ControlError T));
  match sent, more with
  | Err (Throttled _), S more =>
      _ ← backoff attempt;
      paced_loop send more (attempt + 1)
  | sent, _ => lift sent
  end.

Definition paced {T : Type} (send : Paced T) : Paced T := paced_loop send (MAX_ATTEMPTS - 1) 0.

(** ** The calls: [None] is a call that exceeded its timeout *)
Definition effect_call {T : Type} (timed_out : string) (call : M W ProviderError T) (in_time : W -> bool)
    : Paced T := fun '(gate, w) =>
  let '(r, w') := call w in
  (if in_time w' then map_err effect_error r else Err (UnknownOutcome timed_out), (gate, w')).

Definition read_call {T : Type} (timed_out : string) (call : M W ProviderError T) (in_time : W -> bool)
    : M W ControlError T := fun w =>
  let '(r, w') := call w in
  (if in_time w' then map_err read_error r else Err (Retryable timed_out), w').

Context (in_time : W -> bool).

Definition run_exact (region : string) (run_microvm : ExactRunMicrovmRequest -> M W ProviderError Microvm)
    (request : ExactRunMicrovmRequest) : Paced Microvm :=
  _ ← lift (validate_exact_run_request region request);
  paced (effect_call "RunMicrovm timed out after dispatch" (run_microvm request) in_time).

Definition control_get (get_microvm : string -> M W ProviderError Microvm) (id : string) : M W ControlError Microvm :=
  read_call "GetMicrovm timed out" (get_microvm id) in_time.

Definition suspend (suspend_microvm : string -> M W ProviderError unit) (id : string) : Paced unit :=
  paced (effect_call "SuspendMicrovm timed out after dispatch" (suspend_microvm id) in_time).
Definition resume (resume_microvm : string -> M W ProviderError unit) (id : string) : Paced unit :=
  paced (effect_call "ResumeMicrovm timed out after dispatch" (resume_microvm id) in_time).
Definition control_terminate (terminate_microvm : string -> M W ProviderError unit) (id : string) : Paced unit :=
  paced (effect_call "TerminateMicrovm timed out after dispatch" (terminate_microvm id) in_time).

(** The response is the map of the tokens it carries. *)
Definition AUTH_HEADER : string := "X-aws-proxy-auth".
Definition auth_token (create_auth_token : string -> M W ProviderError (gmap string string)) (id : string)
    : M W ControlError string :=
  out ← read_call "auth token request timed out" (create_auth_token id) in_time;
  match out !! AUTH_HEADER with
  | Some t => if is_empty t then throw (Fatal "response carried no auth token") else mret t
  | None => throw (Fatal "response carried no auth token")
  end.

(** The pages of ListMicrovms; the loop has no bound of its own. *)
Fixpoint control_list (fuel : nat) (list_microvms : option string -> M W ProviderError (list (string * MicrovmState) * option string))
    (vms : list (string * MicrovmState)) (next : option string) : M W ControlError (option (list (string * MicrovmState))) :=
  match fuel with
  | O => mret None
  | S fuel =>
      out ← (fun w => let '(r, w) := list_microvms next w in (map_err read_error r, w)) : M W ControlError _;
      let vms := vms ++ out.1 in
      match out.2 with
      | None => mret (Some vms)
      | next => control_list fuel list_microvms vms next
      end
  end.

(** ** Launch (launch.rs) *)
Definition launch_exact (region : string) (run_microvm : ExactRunMicrovmRequest -> M W ProviderError Microvm)
    (request : ExactRunMicrovmRequest) : Paced string :=
  vm ← run_exact region run_microvm request;
  mret (mv_id vm).

Inductive WaitFailure :=
  | NotReached | ReadOverran | GoneWhileWaiting (state : MicrovmState) | WaitControl (e : ControlError).

Definition POLL_NS : Z := 500 * 1000000.

(** [get_until]: [Control::get] under a timeout at the deadline; [None] when it overran. *)
Fixpoint wait_loop (fuel : nat) (get_until : Z -> M W ControlError (option Microvm)) (want : MicrovmState) (deadline : Z)
    : M W WaitFailure (option Microvm) := fun w =>
  match fuel with
  | O => (Ok None, w)
  | S fuel =>
      if deadline <=? clock w then (Err NotReached, w)
      else
        let '(r, w) := get_until deadline w in
        match r with
        | Ok None => (Err ReadOverran, w)
        | Ok (Some vm) =>
            if decide (mv_state vm = want) then (Ok (Some vm), w)
            else if is_gone (mv_state vm) then (Err (GoneWhileWaiting (mv_state vm)), w)
            else wait_loop fuel get_until want deadline (sleep_until (Z.min (clock w + POLL_NS) deadline) w)
        | Err (Retryable _) | Err (Throttled _) =>
            wait_loop fuel get_until want deadline (sleep_until (Z.min (clock w + POLL_NS) deadline) w)
        | Err e => (Err (WaitControl e), w)
        end
  end.

(** Every turn but the last sleeps for a poll or to the deadline. *)
Definition wait_fuel (timeout : Z) : nat := Z.to_nat (timeout / POLL_NS + 2).

Definition wait_for_state (get_until : Z -> M W ControlError (option Microvm)) (want : MicrovmState) (timeout : Z)
    : M W WaitFailure (option Microvm) := fun w =>
  wait_loop (wait_fuel timeout) get_until want (clock w + timeout) w.
End calls.

(** ** Endpoints *)
Fixpoint trim_start_loop (fuel : nat) (p s : string) : string :=
  match fuel with
  | O => s
  | S fuel => match strip_prefix p s with Some s' => trim_start_loop fuel p s' | None => s end
  end.
(** [str::trim_start_matches] for a nonempty pattern. *)
Definition trim_start_matches (p s : string) : string := trim_start_loop (String.length s) p s.

Definition bare_host (endpoint : string) : string :=
  trim_start_matches "http://" (trim_start_matches "https://" (trim_end_matches "/"%char endpoint)).
Definition normalise_endpoint (endpoint : string) : string := "https://" +:+ bare_host (trim endpoint).
Definition ws_url (endpoint : string) : string := "wss://" +:+ bare_host endpoint +:+ "/".

Lemma endpoint_samples :
  ws_url "https://x/" = "wss://x/" /\ normalise_endpoint " mvm-1.on.aws/ " = "https://mvm-1.on.aws"
  /\ normalise_endpoint "https://mvm-1.on.aws/" = "https://mvm-1.on.aws".
Proof. vm_compute. done. Qed.

(** ** Pacing *)
Section pacing.
Context (INSTANT_MIN : Z).

(** The arrival time a bucket carries; the first call brings its own. *)
Lemma bucket_reserve_run now b :
  INSTANT_MIN <= now -> 0 <= interval b -> 1 <= burst b ->
  let prior := default now (theoretical_arrival b) in
  let admitted := Z.max (prior - interval b * (burst b - 1)) now in
  bucket_reserve INSTANT_MIN now b
  = (admitted - now, mkTokenBucket (interval b) (burst b) (Some (Z.max prior admitted + interval b))).
Proof.
  intros Hmin Hi Hb. cbv zeta. unfold bucket_reserve, instant_checked_sub, saturating_sub.
  rewrite (Z.max_r 0 (burst b - 1)) by lia.
  set (prior := default now (theoretical_arrival b)). set (tolerance := interval b * (burst b - 1)).
  destruct (Z.leb_spec INSTANT_MIN (prior - tolerance)); cbn [default].
  - by rewrite (Z.max_r 0) by lia.
  - rewrite (Z.max_r (prior - tolerance) now), Z.max_id, (Z.max_r 0) by lia. done.
Qed.

(** No call is admitted earlier than the arrival time less the tolerance, and the arrival time advances by
    an interval with every call. *)
Lemma admissions_after nows b a0 :
  Forall (fun now => INSTANT_MIN <= now) nows -> 0 <= interval b -> 1 <= burst b -> theoretical_arrival b = Some a0 ->
  forall j t, admissions INSTANT_MIN nows b !! j = Some t -> a0 + (Z.of_nat j + 1 - burst b) * interval b <= t.
Proof.
  intros Hmin. revert b a0. induction Hmin as [|now nows Hnow _ IH]; intros b a0 Hi Hb Ha j t; [done|].
  cbn [admissions]. rewrite bucket_reserve_run by done. rewrite Ha. cbn [default].
  destruct j as [|j]; cbn [lookup list_lookup]; intros Hj.
  - injection Hj as <-. nia.
  - apply (IH (mkTokenBucket (interval b) (burst b) _) _ Hi Hb eq_refl) in Hj. cbn [interval burst] in Hj.
    revert Hj. unfold id. generalize (Z.le_max_l a0 (Z.max (a0 - interval b * (burst b - 1)) now)).
    generalize (Z.max a0 (Z.max (a0 - interval b * (burst b - 1)) now)). intros m Hm Hj. rewrite Nat2Z.inj_succ. lia.
Qed.

Lemma admissions_later nows b :
  Forall (fun now => INSTANT_MIN <= now) nows -> 0 <= interval b -> 1 <= burst b ->
  forall i j s t, (i <= j)%nat -> admissions INSTANT_MIN nows b !! i = Some s -> admissions INSTANT_MIN nows b !! j = Some t ->
  i <> j -> s + (Z.of_nat (j - i) + 1 - burst b) * interval b <= t.
Proof.
  intros Hmin. revert b. induction Hmin as [|now nows Hnow Hmin IH]; intros b Hi Hb i j s t Hij Hs Ht Hne; [done|].
  cbn [admissions] in *. rewrite bucket_reserve_run in * by done. destruct j as [|j]; [lia|].
  cbn [lookup list_lookup] in *. destruct i as [|i]; cbn [lookup list_lookup] in *.
  - injection Hs as <-. apply (admissions_after nows (mkTokenBucket (interval b) (burst b) _) _ Hmin Hi Hb eq_refl) in Ht.
    cbn [interval burst] in Ht. nia.
  - change (S j - S i)%nat with (j - i)%nat. eapply (IH (mkTokenBucket (interval b) (burst b) _)); try done; lia.
Qed.

Lemma admissions_immediate nows b now0 k :
  Forall (fun now => INSTANT_MIN <= now) nows -> StronglySorted Z.le (now0 :: nows) -> 0 <= interval b ->
  default now0 (theoretical_arrival b) <= now0 + Z.of_nat k * interval b -> 1 <= burst b ->
  forall i t, Z.of_nat (i + k) < burst b -> admissions INSTANT_MIN nows b !! i = Some t -> nows !! i = Some t.
Proof.
  intros Hmin. revert b now0 k. induction Hmin as [|now nows Hnow Hmin IH]; intros b now0 k Hs Hi Ha Hb i t Hik; [done|].
  apply StronglySorted_inv in Hs as [Hs Hle]. apply Forall_cons in Hle as [Hle _].
  cbn [admissions]. rewrite bucket_reserve_run by done.
  assert (Hp : default now (theoretical_arrival b) <= now + Z.of_nat k * interval b)
    by (destruct (theoretical_arrival b); cbn in *; nia).
  replace (Z.max (default now (theoretical_arrival b) - interval b * (burst b - 1)) now) with now by nia.
  destruct i as [|i]; cbn [lookup list_lookup].
  - intros [= <-]. f_equal. lia.
  - apply (IH (mkTokenBucket (interval b) (burst b) _) now (S k)); cbn [interval burst theoretical_arrival default];
      [done | done | | done | lia].
    rewrite Nat2Z.inj_succ, Z.mul_succ_l. assert (0 <= Z.of_nat k * interval b) by (apply Z.mul_nonneg_nonneg; lia).
    revert Hp. generalize (default now (theoretical_arrival b)). intros p Hp. unfold id. lia.
Qed.

(** Lifecycle calls of one kind are paced whatever their concurrency and whatever order their clock
    readings come in: between two admissions with [n] others in between there are at least
    [n + 2 - burst] intervals, so no window of [k] intervals admits more than [burst + k] calls; no call is
    admitted before its own instant, and the first [burst] calls of a process are not delayed at all. *)
Theorem lifecycle_calls_are_paced rate burst nows i j s t :
  1 <= rate -> 1 <= burst -> Forall (fun now => INSTANT_MIN <= now) nows -> (i < j)%nat ->
  admissions INSTANT_MIN nows (bucket_new rate burst) !! i = Some s ->
  admissions INSTANT_MIN nows (bucket_new rate burst) !! j = Some t ->
  s + (Z.of_nat (j - i) + 1 - burst) * interval (bucket_new rate burst) <= t
  /\ (exists now, nows !! j = Some now /\ now <= t)
  /\ (StronglySorted Z.le nows -> Z.of_nat j < burst -> nows !! j = Some t).
Proof.
  intros Hr Hb Hmin Hij Hs Ht.
  assert (Hi : 0 <= interval (bucket_new rate burst)) by (cbn; apply Z.div_pos; lia).
  split; [eapply (admissions_later nows (bucket_new rate burst)); try done; lia|]. split.
  - clear Hs Hij. revert Ht. generalize (bucket_new rate burst). clear -Hmin. revert j.
    induction nows as [|now nows IH]; intros j b; [done|]. apply Forall_cons in Hmin as [_ Hmin].
    cbn [admissions]. destruct (bucket_reserve INSTANT_MIN now b) as [delay b'] eqn:E.
    destruct j as [|j]; cbn [lookup list_lookup]; [|by apply IH]. intros [= <-]. exists now. split; [done|].
    unfold bucket_reserve in E. injection E as <- _. unfold saturating_sub. lia.
  - intros Hsort Hlt. destruct nows as [|n0 nows]; [done|].
    eapply (admissions_immediate _ (bucket_new rate burst) n0 0); try done; cbn [theoretical_arrival bucket_new default]; try lia.
    + apply StronglySorted_inv in Hsort as [Hsort Hle]. constructor; [by constructor|]. by constructor.
    + by rewrite Nat.add_0_r.
Qed.
End pacing.

(** ** Repeated calls *)
Definition is_throttled {T : Type} (r : result ControlError T) : Prop :=
  match r with Err (Throttled _) => True | _ => False end.

Lemma classify_throttled code message effect m :
  classify code message effect = Throttled m ->
  m = message /\ exists c, code = Some c /\ c ∈ ["ThrottlingException"; "TooManyRequestsException"].
Proof.
  destruct code as [c|]; [|by destruct effect]. unfold classify.
  repeat match goal with |- context [if ?b then _ else _] => destruct b eqn:?; try done end.
  intros [= <-]. split; [done|]. exists c. split; [done|]. by apply existsb_str_eqb.
Qed.

(** What an error of a state-changing call attests: a code that says so, or an outcome left open. *)
Lemma effect_error_attested e :
  match effect_error e with
  | Retryable _ => False
  | Throttled _ => exists c m, e = ProviderService (Some c) m /\ c ∈ ["ThrottlingException"; "TooManyRequestsException"]
  | ControlGone _ => exists m, e = ProviderService (Some "ResourceNotFoundException") m
  | Capacity c _ _ => exists m, e = ProviderService (Some c) m
  | Fatal _ => e = ProviderConstruction \/ exists c m, e = ProviderService (Some c) m
  | UnknownOutcome _ => True
  end.
Proof.
  destruct e as [code message| |text]; cbn; [|by left|done].
  destruct (classify code (default "service error" message) true) eqn:E; try done;
    destruct code as [c|]; try done; unfold classify in E;
    repeat match type of E with context [if ?b then _ else _] => destruct b eqn:?; try done end.
  - injection E as <- _ _. eauto.
  - injection E as <- _ _. eauto.
  - exists c, message. split; [done|]. by apply existsb_str_eqb.
  - rewrite str_eqb_eq in *. subst. eauto.
  - eauto.
Qed.

Section repeats.
Context {W T L : Type} (INSTANT_MIN : Z) (clock : W -> Z) (sleep_until : Z -> W -> W) (random : W -> Z * W).
(** The sends that reached the provider, and what became of each: waiting and drawing a sample send nothing. *)
Context (sent : W -> list L) (verdict : L -> result ControlError T).
Context (sleep_sends_nothing : forall t w, sent (sleep_until t w) = sent w).
Context (random_sends_nothing : forall w, sent (random w).2 = sent w).

Lemma acquire_gate_run g w : exists g' w',
  acquire_gate INSTANT_MIN clock sleep_until (g, w) = (Ok tt, (g', w')) /\ sent w' = sent w.
Proof.
  unfold acquire_gate. destruct (bucket_reserve INSTANT_MIN (clock w) g) as [delay g']. eexists _, _. split; [done|].
  by destruct (delay =? 0).
Qed.

Lemma paced_loop_sends (send : M (TokenBucket * W) ControlError T) more attempt g w :
  (forall g w, exists x, sent (send (g, w)).2.2 = sent w ++ [x] /\ verdict x = (send (g, w)).1) ->
  exists refusals last g' w',
  paced_loop INSTANT_MIN clock sleep_until random send more attempt (g, w) = (verdict last, (g', w'))
  /\ sent w' = sent w ++ refusals ++ [last] /\ Forall (fun x => is_throttled (verdict x)) refusals
  /\ (length refusals <= more)%nat /\ (is_throttled (verdict last) -> length refusals = more).
Proof.
  intros Hsend. revert attempt g w. induction more as [|more IH]; intros attempt g w; cbn [paced_loop]; rewrite M_bind_run;
    destruct (acquire_gate_run g w) as (g1 & w1 & -> & Hw1); rewrite M_bind_run; unfold observed;
    destruct (Hsend g1 w1) as (x & Hlog & Hx); destruct (send (g1, w1)) as [r [g2 w2]]; cbn in Hlog, Hx; subst r.
  - exists [], x, g2, w2. rewrite <- Hw1. by destruct (verdict x) as [|[]].
  - destruct (verdict x) as [a|[]] eqn:Hv.
    3: { cbn. rewrite M_bind_run. unfold backoff. destruct (random w2) as [sample w3] eqn:Er.
         pose proof (random_sends_nothing w2) as Hr. rewrite Er in Hr. cbn in Hr. set (w4 := sleep_until _ w3).
         destruct (IH (attempt + 1) g2 w4) as (refusals & last & g' & w' & -> & Hs & Hf & Hl & Ho).
         exists (x :: refusals), last, g', w'. split; [done|].
         rewrite Hs. unfold w4. rewrite sleep_sends_nothing, Hr, Hlog, Hw1, <- app_assoc.
         split_and!; [done | constructor; [by rewrite Hv | done] | cbn; lia | cbn; auto]. }
    all: exists [], x, g2, w2; rewrite <- Hw1, Hv; split_and!; [done | done | by constructor | cbn; lia | intros []].
Qed.
End repeats.

Section effects.
Context {W T : Type} (INSTANT_MIN : Z) (clock : W -> Z) (sleep_until : Z -> W -> W) (random : W -> Z * W).
Context (in_time : W -> bool) (timed_out : string).
(** Every request that left the process: the provider's answer, and whether it came in time. *)
Context (sent : W -> list (result ProviderError T * bool)).
Context (sleep_sends_nothing : forall t w, sent (sleep_until t w) = sent w).
Context (random_sends_nothing : forall w, sent (random w).2 = sent w).

Definition effect_verdict (x : result ProviderError T * bool) : result ControlError T :=
  if x.2 then map_err effect_error x.1 else Err (UnknownOutcome timed_out).

(** The provider said it refused the request before applying it. *)
Definition attested_throttle (x : result ProviderError T * bool) : Prop :=
  exists c m, x = (Err (ProviderService (Some c) m), true) /\ c ∈ ["ThrottlingException"; "TooManyRequestsException"].

Lemma throttled_attested x : is_throttled (effect_verdict x) -> attested_throttle x.
Proof.
  destruct x as [[a|e] timely]; destruct timely; cbn; try done.
  pose proof (effect_error_attested e) as Ha. destruct (effect_error e); try done. intros _.
  destruct Ha as (c & m & -> & Hc). by exists c, m.
Qed.

(** A state-changing call of the provider (run, suspend, resume, terminate) is sent at most four times, and
    sent again only after the provider attested that it throttled the request before; the answer is the one of
    the last send, an answer that came too late counting as an unknown outcome. A failure is never called
    retryable: throttled, refused for capacity, gone and fatal are all attested by a code of the provider, or
    the request was never built, and everything else is an unknown outcome. *)
Theorem effects_repeat_only_after_throttles call gate w :
  (forall w, sent (call w).2 = sent w ++ [((call w).1, in_time (call w).2)]) ->
  exists throttled last gate' w',
  paced INSTANT_MIN clock sleep_until random (effect_call timed_out call in_time) (gate, w)
    = (effect_verdict last, (gate', w'))
  /\ sent w' = sent w ++ throttled ++ [last] /\ Forall attested_throttle throttled /\ (length throttled <= 3)%nat
  /\ match effect_verdict last with
     | Ok a => last = (Ok a, true)
     | Err (Retryable _) => False
     | Err (Throttled _) => attested_throttle last /\ length throttled = 3%nat
     | Err (ControlGone _) => exists m, last = (Err (ProviderService (Some "ResourceNotFoundException") m), true)
     | Err (Capacity c _ _) => exists m, last = (Err (ProviderService (Some c) m), true)
     | Err (Fatal _) => last = (Err ProviderConstruction, true) \/ exists c m, last = (Err (ProviderService (Some c) m), true)
     | Err (UnknownOutcome _) => True
     end.
Proof.
  intros Hcall.
  destruct (paced_loop_sends INSTANT_MIN clock sleep_until random sent effect_verdict sleep_sends_nothing
    random_sends_nothing (effect_call timed_out call in_time) 3 0 gate w) as (refusals & last & g' & w' & Hrun & Hs & Hf & Hl & Ho).
  { intros g w0. exists ((call w0).1, in_time (call w0).2). specialize (Hcall w0). unfold effect_call.
    destruct (call w0) as [r w1]. by split. }
  exists refusals, last, g', w'. split_and!; try done.
  - eapply Forall_impl; [exact Hf|]. intros x. apply throttled_attested.
  - destruct last as [[a|e] []]; cbn; try done. pose proof (effect_error_attested e) as Ha.
    cbn in Ho. destruct (effect_error e); try done; destruct_and?.
    + destruct Ha as [m ->]. by exists m.
    + split; [|by apply Ho]. destruct Ha as (c & m & -> & Hc). by exists c, m.
    + destruct Ha as [m ->]. by exists m.
    + destruct Ha as [-> | (c & m & ->)]; [by left | right; by eexists _, _].
Qed.
End effects.

(** ** Waiting for a state *)
Section waiting.
Context {W : Type} (clock : W -> Z) (sleep_until : Z -> W -> W).
Context (sleeps : forall t w, t <= clock (sleep_until t w)).
Context (get_until : Z -> M W ControlError (option Microvm)).
Context (time_passes : forall d w, clock w <= clock (get_until d w).2).

Lemma wait_loop_ends want deadline fuel w :
  (0 < fuel)%nat -> deadline - clock w <= (Z.of_nat fuel - 1) * POLL_NS ->
  match (wait_loop clock sleep_until fuel get_until want deadline w).1 with
  | Ok None => False
  | Ok (Some vm) => mv_state vm = want
  | Err _ => True
  end.
Proof.
  revert w. induction fuel as [|fuel IH]; intros w Hpos Hf; [lia|]. cbn [wait_loop].
  destruct (Z.leb_spec deadline (clock w)); [done|].
  assert (Hnext : forall w1, clock w <= clock w1 ->
    deadline - clock (sleep_until (Z.min (clock w1 + POLL_NS) deadline) w1) <= (Z.of_nat fuel - 1) * POLL_NS /\ (0 < fuel)%nat).
  { intros w1 Hw. pose proof (sleeps (Z.min (clock w1 + POLL_NS) deadline) w1). unfold POLL_NS in *. lia. }
  pose proof (time_passes deadline w) as Ht. destruct (get_until deadline w) as [r w1]. cbn in Ht.
  destruct (Hnext w1 Ht) as [Hn Hp].
  destruct r as [[vm|]|[]]; cbn; try done; try (by apply IH).
  case_decide; [done|]. destruct (is_gone (mv_state vm)); [done | by apply IH].
Qed.

(** The wait always ends: with the microVM in the wanted state, or with a failure. *)
Lemma wait_for_state_ends want timeout w :
  0 <= timeout ->
  match (wait_for_state clock sleep_until get_until want timeout w).1 with
  | Ok None => False
  | Ok (Some vm) => mv_state vm = want
  | Err _ => True
  end.
Proof.
  intros Ht. apply wait_loop_ends; unfold wait_fuel; [unfold POLL_NS; pose proof (Z.div_pos timeout POLL_NS); unfold POLL_NS in *; lia|].
  pose proof (Z.mul_succ_div_gt timeout POLL_NS ltac:(done)). pose proof (Z.div_pos timeout POLL_NS Ht ltac:(done)).
  unfold POLL_NS in *. lia.
Qed.
End waiting.

(** ** Configuration and requests *)
Lemma pacing_value_Ok lookup name d maximum v : pacing_value lookup name d maximum = Ok v -> 1 <= v <= maximum.
Proof.
  unfold pacing_value. intros H. apply result_bind_Ok in H as (p & _ & H).
  destruct (_ && _) eqn:E; [|done]. injection H as <-. bool_hyps. lia.
Qed.

(** Every accepted pacing configuration is within the provider's published quotas. *)
Lemma pacing_from_lookup_bounds lookup c :
  pacing_from_lookup lookup = Ok c ->
  1 <= run_rate_per_second c <= 5 /\ 1 <= run_burst c <= 5 /\ 1 <= resume_rate_per_second c <= 5
  /\ 1 <= resume_burst c <= 5 /\ 1 <= suspend_rate_per_second c <= 2 /\ 1 <= suspend_burst c <= 2
  /\ 1 <= terminate_rate_per_second c <= 10 /\ 1 <= terminate_burst c <= 10.
Proof.
  unfold pacing_from_lookup. intros H.
  repeat (apply result_bind_Ok in H as (? & ?%pacing_value_Ok & H)). injection H as <-. done.
Qed.

(** A request built here is dispatched, as long as its identities are present. *)
Lemma built_request_is_valid region image_arn version payload token c :
  image_arn <> EmptyString -> version <> EmptyString -> payload <> EmptyString -> ref_str c <> EmptyString ->
  1 <= str_len token <= 128 ->
  validate_exact_run_request region (exact_run_request region image_arn version payload token c) = Ok tt.
Proof.
  intros H1 H2 H3 H4 Ht. unfold validate_exact_run_request. cbn.
  assert (Hne : forall s, s <> EmptyString -> is_empty s = false) by (by intros []).
  rewrite !Hne, str_eqb_refl, (proj2 (Z.ltb_ge 128 _)); try done; try lia.
  all: try (intros ->; vm_compute in Ht; naive_solver).
  all: unfold connector_arn; by destruct (starts_with "arn:" (ref_str c)).
Qed.

(** ** Witnesses *)
Lemma lifecycle_calls_are_paced_witness :
  let admitted := admissions 0 [7000; 7000; 6000; 7000] (bucket_new 2 2) in
  admitted = [7000; 7000; 500007000; 1000007000]
  /\ 7000 + (Z.of_nat 3 + 1 - 2) * 500000000 <= 1000007000.
Proof.
  split; [vm_compute; reflexivity|].
  exact (proj1 (lifecycle_calls_are_paced 0 2 2 [7000; 7000; 6000; 7000] 0 3 7000 1000007000 ltac:(lia) ltac:(lia)
    ltac:(repeat constructor; lia) ltac:(lia) eq_refl eq_refl)).
Defined.

(** A provider that throttles once and then accepts. *)
Notation SampleWorld := (list (result ProviderError unit) * list (result ProviderError unit * bool))%type.
Definition sample_terminate : M SampleWorld ProviderError unit := fun '(script, log) =>
  match script with
  | [] => (Ok tt, ([], log ++ [(Ok tt, true)]))
  | r :: script => (r, (script, log ++ [(r, true)]))
  end.
Definition sample_provider : SampleWorld := ([Err (ProviderService (Some "ThrottlingException") None)], []).

Lemma effects_repeat_only_after_throttles_witness :
  (exists throttled last gate' w',
    paced 0 (fun _ : SampleWorld => 0) (fun _ w => w) (fun w => (0, w)) (effect_call "late" sample_terminate (fun _ => true))
      (bucket_new 10 10, sample_provider) = (effect_verdict "late" last, (gate', w'))
    /\ snd w' = [] ++ throttled ++ [last])
  /\ snd (paced 0 (fun _ : SampleWorld => 0) (fun _ w => w) (fun w => (0, w)) (effect_call "late" sample_terminate (fun _ => true))
      (bucket_new 10 10, sample_provider)).2.2
     = [(Err (ProviderService (Some "ThrottlingException") None), true); (Ok tt, true)].
Proof.
  split; [|vm_compute; reflexivity].
  destruct (effects_repeat_only_after_throttles 0 (fun _ : SampleWorld => 0) (fun _ w => w) (fun w => (0, w)) (fun _ => true)
    "late" snd (fun _ _ => eq_refl) (fun _ => eq_refl) sample_terminate (bucket_new 10 10) sample_provider)
    as (throttled & last & g & w & Hrun & Hs & _).
  - intros [[|r script] log]; reflexivity.
  - exists throttled, last, g, w. split; [exact Hrun | exact Hs].
Defined.
