(* ===== verification/Wire.v ===== *)
(** * hand-wire: the private transport's data

    Models crates/hand-wire/src/lib.rs: the request and reply envelopes with the method tags that pair
    them, and the identity, reservation and stored result of a file effect. Brain's payload types are
    outside the repository and are type parameters; of its two file-effect results the three fields the
    code reads are fields here and the rest is a parameter. *)
From S2P Require Import Prelude Policy.

Definition MAX_INLINE_FILE_BYTES : Z := 1024 * 1024.
Definition MAX_WIRE_FRAME_BYTES : Z := 2 * 1024 * 1024.
Definition MAX_INSTALL_METADATA_BYTES : Z := 64 * 1024.

Inductive FileEffectKind := Write | CopyImport | CopyExport.

#[global] Instance FileEffectKind_eq_dec : EqDecision FileEffectKind.
Proof. solve_decision. Defined.

Record FileEffectIdentity := mkFileEffectIdentity {
  fe_kind : FileEffectKind;
  fe_operation_id : string;
  fe_request_digest : string;
}.

#[global] Instance FileEffectIdentity_eq_dec : EqDecision FileEffectIdentity.
Proof. solve_decision. Defined.

(** [SandboxFileWriteResult] and [SandboxCopyResult], with the fields the repository reads. *)
Record EffectResult (P : Type) := mkEffectResult {
  res_operation_id : string;
  res_request_digest : string;
  res_replayed : bool;
  res_payload : P;
}.
Arguments mkEffectResult {P} _ _ _ _.
Arguments res_operation_id {P} _.
Arguments res_request_digest {P} _.
Arguments res_replayed {P} _.
Arguments res_payload {P} _.

Inductive FileEffectStoredResult (W C : Type) :=
  | StoredWrite (result : EffectResult W)
  | StoredCopy (result : EffectResult C).
Arguments StoredWrite {W C} _.
Arguments StoredCopy {W C} _.

Inductive FileEffectReservation (R : Type) :=
  | ReservationNew
  | ReservationReplay (result : R).
Arguments ReservationNew {R}.
Arguments ReservationReplay {R} _.

(** ** Requests, replies and their method tags *)

(** The payloads of the requests and the replies: Brain's types, and the stored results above. *)
Class WireTypes : Type := {
  TSubmit : Type; TObserve : Type; TCancel : Type; TAcknowledge : Type; TList : Type; TStat : Type; TRead : Type;
  TWriteFile : Type; TSearch : Type; TExecute : Type; TStdin : Type; TStored : Type;
  TReceipt : Type; TObservation : Type; TCancellation : Type; TAcknowledgement : Type; TStatus : Type; TFileList : Type;
  TFileEntry : Type; TContent : Type; TStdinReceipt : Type;
}.

Section envelopes.
Context {T : WireTypes}.

Inductive RequestCall :=
  | CallSubmit (p : TSubmit) | CallObserve (p : TObserve) | CallCancel (p : TCancel) | CallAcknowledgeTerminal (p : TAcknowledge)
  | CallStatus | CallListFiles (p : TList) | CallStatFile (p : TStat) | CallReadFile (p : TRead) | CallWriteFile (p : TWriteFile)
  | CallReserveFileEffect (i : FileEffectIdentity) | CallClaimFileEffect (i : FileEffectIdentity)
  | CallCompleteFileEffect (p : TStored) | CallFindFiles (p : TSearch) | CallGrepFiles (p : TSearch)
  | CallExecuteSandbox (p : TExecute) | CallWriteStdin (p : TStdin).

Inductive ResponseReply :=
  | ReplySubmit (p : TReceipt) | ReplyObserve (p : TObservation) | ReplyCancel (p : TCancellation)
  | ReplyAcknowledgeTerminal (p : TAcknowledgement) | ReplyStatus (p : TStatus) | ReplyListFiles (p : TFileList)
  | ReplyStatFile (p : TFileEntry) | ReplyReadFile (p : TContent) | ReplyWriteFile (p : TStored)
  | ReplyReserveFileEffect (p : FileEffectReservation TStored) | ReplyClaimFileEffect (p : FileEffectReservation TStored)
  | ReplyCompleteFileEffect (p : TStored) | ReplyFindFiles (p : TFileList) | ReplyGrepFiles (p : TFileList)
  | ReplyExecuteSandbox (p : TReceipt) | ReplyWriteStdin (p : TStdinReceipt).

Definition request_method (c : RequestCall) : string :=
  match c with
  | CallSubmit _ => "submit"
  | CallObserve _ => "observe"
  | CallCancel _ => "cancel"
  | CallAcknowledgeTerminal _ => "acknowledge_terminal"
  | CallStatus => "status"
  | CallListFiles _ => "list_files"
  | CallStatFile _ => "stat_file"
  | CallReadFile _ => "read_file"
  | CallWriteFile _ => "write_file"
  | CallReserveFileEffect _ => "reserve_file_effect"
  | CallClaimFileEffect _ => "claim_file_effect"
  | CallCompleteFileEffect _ => "complete_file_effect"
  | CallFindFiles _ => "find_files"
  | CallGrepFiles _ => "grep_files"
  | CallExecuteSandbox _ => "execute_sandbox"
  | CallWriteStdin _ => "write_stdin"
  end.

Definition reply_method (r : ResponseReply) : string :=
  match r with
  | ReplySubmit _ => "submit"
  | ReplyObserve _ => "observe"
  | ReplyCancel _ => "cancel"
  | ReplyAcknowledgeTerminal _ => "acknowledge_terminal"
  | ReplyStatus _ => "status"
  | ReplyListFiles _ => "list_files"
  | ReplyStatFile _ => "stat_file"
  | ReplyReadFile _ => "read_file"
  | ReplyWriteFile _ => "write_file"
  | ReplyReserveFileEffect _ => "reserve_file_effect"
  | ReplyClaimFileEffect _ => "claim_file_effect"
  | ReplyCompleteFileEffect _ => "complete_file_effect"
  | ReplyFindFiles _ => "find_files"
  | ReplyGrepFiles _ => "grep_files"
  | ReplyExecuteSandbox _ => "execute_sandbox"
  | ReplyWriteStdin _ => "write_stdin"
  end.

(** The envelopes: a response answers the request with its identifier, with a reply or with a refusal. *)
Record RequestFrame := mkRequestFrame { rf_request_id : string; rf_contract_digest : string; rf_call : RequestCall }.
Record ResponseFrame {E : Type} := mkResponseFrame { rs_request_id : string; rs_result : result E ResponseReply }.
End envelopes.
Arguments ResponseFrame {T} E.
Arguments mkResponseFrame {T E}.
