(* ===== verification/EgressPolicy.v ===== *)
(** * hand-egress-gateway: destination policy

    Models crates/hand-egress-gateway/src/policy.rs: the permanent denies, the validation of a signed
    destination list and the authorization of a CONNECT target, with every alias and every address of the
    answer checked before one is dialed. IDNA, the CIDR arithmetic of ipnet, Brain's classification of
    public addresses and the DNS resolver are outside the repository and are section variables. *)
From S2P Require Import Prelude Connector.

(** ** The addresses [str::parse::<IpAddr>] reads *)
Inductive IpAddr := V4 (address : Z) | V6.

Definition ipv4_value (o : Z * Z * Z * Z) : Z :=
  let '(a, b, c, d) := o in ((a * 256 + b) * 256 + c) * 256 + d.

Definition is_hex_digit (c : Ascii.ascii) : bool :=
  is_ascii_digit c || in_range 97 102 (byte_val c) || in_range 65 70 (byte_val c).

Fixpoint span {A} (f : A -> bool) (l : list A) : list A * list A :=
  match l with
  | [] => ([], [])
  | x :: r => if f x then let '(a, b) := span f r in (x :: a, b) else ([], l)
  end.

(** A number of the textual form, and the rest of the input. *)
Definition read_h16 (l : list Ascii.ascii) : option (list Ascii.ascii) :=
  let '(digits, rest) := span is_hex_digit l in
  if (1 <=? len digits) && (len digits <=? 4) then Some rest else None.

Definition read_octet (l : list Ascii.ascii) : option (list Ascii.ascii) :=
  let '(digits, rest) := span is_ascii_digit l in
  match ipv4_octet (String.string_of_list_ascii digits) with Some _ => Some rest | None => None end.

Definition read_char (c : Ascii.ascii) (l : list Ascii.ascii) : option (list Ascii.ascii) :=
  match l with x :: r => if Ascii.eqb x c then Some r else None | [] => None end.

Definition read_v4 (l : list Ascii.ascii) : option (list Ascii.ascii) :=
  l ← read_octet l; l ← read_char "."%char l; l ← read_octet l; l ← read_char "."%char l;
  l ← read_octet l; l ← read_char "."%char l; read_octet l.

(** At most [left] groups separated by colons, the last two of which may be an embedded IPv4 address: how
    many were read, whether they end in an IPv4 address, and the rest. *)
Fixpoint read_groups (left : nat) (first : bool) (l : list Ascii.ascii) : nat * bool * list Ascii.ascii :=
  match left with
  | O => (O, false, l)
  | S left' =>
      let body := if first then Some l else read_char ":"%char l in
      match (if (1 <=? left')%nat then body ≫= read_v4 else None) with
      | Some rest => (2%nat, true, rest)
      | None =>
          match body ≫= read_h16 with
          | Some rest => let '(n, v4, r) := read_groups left' false rest in (S n, v4, r)
          | None => (O, false, l)
          end
      end
  end.

Definition parse_ipv6 (s : string) : bool :=
  let '(n, v4, rest) := read_groups 8 true (bytes_of s) in
  if (n =? 8)%nat then bool_decide (rest = [])
  else if v4 then false
  else match read_char ":"%char rest ≫= read_char ":"%char with
       | Some r => let '(_, _, r') := read_groups (7 - n) true r in bool_decide (r' = [])
       | None => false
       end.

Definition parse_ip (s : string) : option IpAddr :=
  match parse_ipv4 s with
  | Some o => Some (V4 (ipv4_value o))
  | None => if parse_ipv6 s then Some V6 else None
  end.

Example parse_ip_samples :
  map parse_ip ["8.8.8.8"; "::1"; "2001:db8::7:1"; "::ffff:1.2.3.4"; "1:2:3:4:5:6:7:8"; "1::2::3"; "12345::"; "a.b"; "01.2.3.4"]
  = [Some (V4 134744072); Some V6; Some V6; Some V6; Some V6; None; None; None; None].
Proof. vm_compute. reflexivity. Qed.

(** ** Destinations and errors *)
Definition MAX_PORTS_PER_DESTINATION : Z := 32.

Inductive PolicyError :=
  | MalformedPolicy | MalformedTarget | Ipv6Unsupported | PermanentDeny | Denied | ResolutionFailed.

#[global] Instance PolicyError_eq_dec : EqDecision PolicyError.
Proof. solve_decision. Defined.

(** capability.rs *)
Inductive DestinationProtocol := Tls | Tcp.

#[global] Instance DestinationProtocol_eq_dec : EqDecision DestinationProtocol.
Proof. solve_decision. Defined.

Record CapabilityDestination {Net : Type} := mkCapabilityDestination {
  d_host : option string;
  d_cidr : option Net;
  d_ports : list Z;
  d_protocol : DestinationProtocol }.
Arguments CapabilityDestination : clear implicits.
Arguments mkCapabilityDestination {Net} d_host d_cidr d_ports d_protocol.

#[global] Instance CapabilityDestination_eq_dec {Net} `{EqDecision Net} : EqDecision (CapabilityDestination Net).
Proof. solve_decision. Defined.

Inductive ValidatedDestination {Net : Type} :=
  | HostRule (pattern : string) (port : Z)
  | CidrRule (cidr : Net) (port : Z).
Arguments ValidatedDestination : clear implicits.

Record DenyPolicy {Net : Type} := mkDenyPolicy { hosts : list string; cidrs : list Net }.
Arguments DenyPolicy : clear implicits.
Arguments mkDenyPolicy {Net} hosts cidrs.

(** The data of one record of a DNS answer. *)
Inductive RData := CNAME (alias : string) | A (address : Z) | AAAA | OtherData.

Record AuthorizedTarget := mkAuthorizedTarget {
  at_address : Z;
  at_port : Z;
  expected_sni : option string }.

(** ** Host names *)
Definition host_matches (pattern host : string) : bool :=
  match strip_prefix "*." pattern with
  | Some suffix =>
      (str_len suffix + 1 <? str_len host) && ends_with suffix host
      && match bytes_of host !! (String.length host - String.length suffix - 1)%nat with
         | Some c => Ascii.eqb c "."%char
         | None => false
         end
  | None => str_eqb pattern host
  end.

Section policy.
Context {Net : Type} (cidr_contains : Net -> Z -> bool).
Context (domain_to_ascii_strict : string -> option string).
Context (is_public_unicast : Z -> bool).
Context (lookup_ip : string -> option (list RData)).

Definition normalize_host (value : string) : result PolicyError string :=
  if (str_len value =? 0) || (253 <? str_len value) || starts_with "." value || ends_with "." value
     || contains_char "*"%char value || existsb is_whitespace (chars value)
  then Err MalformedTarget
  else
    ascii ← ok_or MalformedTarget (domain_to_ascii_strict value);
    let ascii := to_ascii_lowercase ascii in
    if (str_len ascii =? 0)
       || existsb (fun label => (str_len label =? 0) || (63 <? str_len label)) (split_on "."%char ascii)
    then Err MalformedTarget
    else Ok ascii.

Definition normalize_host_pattern (value : string) : result PolicyError string :=
  match strip_prefix "*." value with
  | Some suffix =>
      suffix ← normalize_host suffix;
      if negb (contains_char "."%char suffix) then Err MalformedPolicy else Ok ("*." +:+ suffix)
  | None => normalize_host value
  end.

Definition normalize_dns_name (value : string) : result PolicyError string :=
  normalize_host (trim_end_matches "."%char value).

(** ** Permanent denies *)
Definition denies_host (self : DenyPolicy Net) (host : string) : bool :=
  existsb (fun pattern => host_matches pattern host) (hosts self).
Definition denies_ip (self : DenyPolicy Net) (address : Z) : bool :=
  existsb (fun cidr => cidr_contains cidr address) (cidrs self).

Definition check_ip (deny : DenyPolicy Net) (address : Z) : result PolicyError unit :=
  if negb (is_public_unicast address) || denies_ip deny address then Err PermanentDeny else Ok tt.

(** ** Validated policies *)
Definition validated_ports (ports : list Z) : result PolicyError (list Z) :=
  if (len ports =? 0) || (MAX_PORTS_PER_DESTINATION <? len ports) then Err MalformedPolicy
  else
    let sorted := dedup (sort_by Z.leb ports) in
    if negb (len sorted =? len ports) || existsb (Z.eqb 0) sorted then Err MalformedPolicy else Ok sorted.

Definition validate_destination (d : CapabilityDestination Net)
    : result PolicyError (list (ValidatedDestination Net)) :=
  ports ← validated_ports (d_ports d);
  match d_host d, d_cidr d, d_protocol d with
  | Some host, None, Tls =>
      if bool_decide (ports = [443]) then
        pattern ← normalize_host_pattern host;
        Ok [HostRule pattern 443]
      else Err MalformedPolicy
  | None, Some cidr, Tcp => Ok (map (CidrRule cidr) ports)
  | _, _, _ => Err MalformedPolicy
  end.

Definition ValidatedPolicy_new (destinations : list (CapabilityDestination Net))
    : result PolicyError (list (ValidatedDestination Net)) :=
  validated ← mapM_result validate_destination destinations;
  Ok (concat validated).

(** ** Authorization *)
Definition host_allows (host : string) (port : Z) (d : ValidatedDestination Net) : bool :=
  match d with HostRule pattern allowed_port => (allowed_port =? port) && host_matches pattern host | _ => false end.
Definition cidr_allows (address port : Z) (d : ValidatedDestination Net) : bool :=
  match d with CidrRule cidr allowed_port => (allowed_port =? port) && cidr_contains cidr address | _ => false end.

Fixpoint checked_ipv4_answers (deny : DenyPolicy Net) (records : list RData) : result PolicyError (list Z) :=
  match records with
  | [] => Ok []
  | CNAME cname :: records =>
      alias ← normalize_dns_name cname;
      if denies_host deny alias then Err PermanentDeny else checked_ipv4_answers deny records
  | A address :: records =>
      _ ← check_ip deny address;
      addresses ← checked_ipv4_answers deny records;
      Ok (address :: addresses)
  | AAAA :: _ => Err Ipv6Unsupported
  | OtherData :: records => checked_ipv4_answers deny records
  end.

Definition authorize_address (policy : list (ValidatedDestination Net)) (deny : DenyPolicy Net)
    (address port : Z) : result PolicyError AuthorizedTarget :=
  _ ← check_ip deny address;
  if existsb (cidr_allows address port) policy then Ok (mkAuthorizedTarget address port None) else Err Denied.

Definition authorize_name (policy : list (ValidatedDestination Net)) (deny : DenyPolicy Net)
    (authority : string) (port : Z) : result PolicyError AuthorizedTarget :=
  host ← normalize_host authority;
  if denies_host deny host then Err PermanentDeny
  else
    let host_rule := existsb (host_allows host port) policy in
    records ← ok_or ResolutionFailed (lookup_ip (host +:+ "."));
    addresses ← checked_ipv4_answers deny records;
    match dedup (sort_by Z.leb addresses) with
    | [] => Err ResolutionFailed
    | (first :: _) as addresses =>
        let cidr_rule := forallb (fun address => existsb (cidr_allows address port) policy) addresses in
        if negb host_rule && negb cidr_rule then Err Denied
        else Ok (mkAuthorizedTarget first port (if host_rule then Some host else None))
    end.

Definition authorize (policy : list (ValidatedDestination Net)) (deny : DenyPolicy Net)
    (authority : string) (port : Z) : result PolicyError AuthorizedTarget :=
  if port =? 0 then Err MalformedTarget
  else
    match parse_ip authority with
    | Some V6 => Err Ipv6Unsupported
    | Some (V4 address) => authorize_address policy deny address port
    | None => authorize_name policy deny authority port
    end.
End policy.

(** ** Host matching *)
Lemma host_matches_suffix s h :
  host_matches ("*." +:+ s) h = true <-> exists pre, pre <> EmptyString /\ h = pre +:+ String "."%char s.
Proof.
  unfold host_matches. rewrite strip_prefix_app. rewrite !andb_true_iff, ends_with_true, Z.ltb_lt.
  split.
  - intros [[Hlen [t ->]] Hdot]. rewrite str_len_app in Hlen.
    destruct (bytes_of (t +:+ s) !! _) as [c|] eqn:Hc; [|done]. apply Ascii.eqb_eq in Hdot as ->.
    rewrite bytes_of_app, lookup_app_l in Hc; rewrite <- !length_bytes_of, ?bytes_of_app, ?length_app in *;
      [|unfold str_len in Hlen; rewrite <- !length_bytes_of in Hlen; lia].
    replace (length (bytes_of t) + length (bytes_of s) - length (bytes_of s) - 1)%nat
      with (pred (length (bytes_of t))) in Hc by lia.
    rewrite <- last_lookup in Hc. apply last_Some in Hc as [l Hl].
    exists (String.string_of_list_ascii l). split.
    + intros Hnil%(f_equal bytes_of). rewrite bytes_of_list in Hnil. cbn in Hnil. subst l.
      unfold str_len in Hlen. rewrite <- !length_bytes_of, Hl in Hlen. cbn in Hlen. lia.
    + apply bytes_of_inj. change (String "."%char s) with ("." +:+ s). rewrite !bytes_of_app, bytes_of_list, Hl.
      by rewrite <- app_assoc.
  - intros (pre & Hpre & ->). change (String "."%char s) with ("." +:+ s).
    assert (Hp : (0 < length (bytes_of pre))%nat) by (destruct pre; [done | cbn; lia]).
    rewrite <- str_app_assoc. split; [split; [|by eexists]|].
    + rewrite !str_len_app. unfold str_len. rewrite <- !length_bytes_of. cbn. lia.
    + rewrite !bytes_of_app, <- !length_bytes_of, !bytes_of_app, !length_app. cbn [length bytes_of].
      change (length (bytes_of ".")) with 1%nat.
      replace (length (bytes_of pre) + 1 + length (bytes_of s) - length (bytes_of s) - 1)%nat
        with (length (bytes_of pre) + 0)%nat by lia.
      rewrite <- app_assoc, lookup_app_r by lia. by replace (_ - _)%nat with 0%nat by lia.
Qed.

(** The alphabet IDNA's strict profile admits in its output (STD3 rules): letters, digits, hyphens and
    the label separator. *)
Definition host_alphabet (c : Ascii.ascii) : bool := host_char c || Ascii.eqb c "."%char.

Definition label_ok (label : string) : bool := negb ((str_len label =? 0) || (63 <? str_len label)).

(** A normalized host: lower-case letters, digits, hyphens and dots in non-empty labels. *)
Definition normal_host (h : string) : Prop :=
  h <> EmptyString /\ authority_alphabet h /\ Forall (fun l => label_ok l = true) (split_on "."%char h).

(** A normalized pattern: a host, or a wildcard over a host of at least two labels. *)
Definition normal_pattern (p : string) : Prop :=
  normal_host p
  \/ exists s, p = "*." +:+ s /\ normal_host s /\ contains_char "."%char s = true.

Lemma lower_alphabet a :
  Forall (fun c => host_alphabet c = true) (bytes_of a) -> authority_alphabet (to_ascii_lowercase a).
Proof.
  intros H. unfold authority_alphabet, to_ascii_lowercase, map_string. rewrite bytes_of_list, Forall_map.
  eapply Forall_impl; [exact H|]. intros c Hc. cbn.
  assert (Hx : implb (host_alphabet c) (authority_char (to_lower c)) = true) by by_bytes c.
  by rewrite Hc in Hx.
Qed.

Lemma alphabet_no_star s : authority_alphabet s -> contains_char "*"%char s = false.
Proof.
  intros H. apply contains_char_false. eapply Forall_impl; [exact H|]. intros c Hc. cbn.
  assert (Hx : implb (authority_char c) (negb (Ascii.eqb "*"%char c)) = true) by by_bytes c.
  rewrite Hc in Hx. by apply negb_true_iff.
Qed.

Lemma star_label_excluded s : authority_alphabet s -> ~ "*" ∈ split_on "."%char s.
Proof.
  intros H Hin. pose proof (split_on_alphabet _ _ _ _ H Hin) as Hx.
  change (bytes_of "*") with ["*"%char] in Hx. apply Forall_cons in Hx as [Hx _]. done.
Qed.

Lemma labels_nonempty h : normal_host h -> ~ EmptyString ∈ split_on "."%char h.
Proof. intros (_ & _ & H) Hin. rewrite Forall_forall in H. specialize (H _ Hin). done. Qed.

(** Normalizing a normalized host changes nothing, given that IDNA's strict profile bounds the length of its
    output and maps its own (lower-case) output to itself. *)
Lemma contains_char_alphabet c s :
  authority_alphabet s -> authority_char c = false -> contains_char c s = false.
Proof.
  intros H Hc. apply contains_char_false. eapply Forall_impl; [exact H|]. intros d Hd. cbn.
  destruct (Ascii.eqb_spec c d) as [->|]; [congruence | done].
Qed.

Lemma alphabet_ascii s : authority_alphabet s -> is_ascii s = true.
Proof.
  intros H. apply forallb_Forall_true. eapply Forall_impl; [exact H|]. intros c Hc. by apply authority_char_facts.
Qed.

Lemma alphabet_no_whitespace s : authority_alphabet s -> existsb is_whitespace (chars s) = false.
Proof.
  intros H. rewrite chars_ascii by by apply alphabet_ascii. apply existsb_false, Forall_map.
  eapply Forall_impl; [exact H|]. intros c Hc. by apply authority_char_facts.
Qed.

Lemma alphabet_lowercase s : authority_alphabet s -> to_ascii_lowercase s = s.
Proof.
  intros H. apply bytes_of_inj. unfold to_ascii_lowercase, map_string. rewrite bytes_of_list.
  induction H as [|c l Hc H IH]; [done|]. cbn. rewrite IH. f_equal. by apply authority_char_facts.
Qed.

Lemma normal_host_no_edge_dot h : normal_host h -> starts_with "." h = false /\ ends_with "." h = false.
Proof.
  intros Hn. pose proof (labels_nonempty h Hn) as Hl. split; apply not_true_is_false.
  - intros Hs. apply starts_with_true in Hs as [t ->]. apply Hl. change ("." +:+ t) with (String "."%char t).
    cbn. set_solver.
  - intros Hs. apply ends_with_true in Hs as [t ->]. apply Hl. change "." with (String "."%char EmptyString).
    rewrite split_on_app_any. set_solver.
Qed.

Section facts.
Context {Net : Type}.
Context (domain_to_ascii_strict : string -> option string).
Context (idna_std3 : forall v a, domain_to_ascii_strict v = Some a ->
  Forall (fun c => host_alphabet c = true) (bytes_of a)).

Lemma normalize_host_normal v h : normalize_host domain_to_ascii_strict v = Ok h -> normal_host h.
Proof.
  unfold normalize_host. intros H. case_match; [done|]. apply result_bind_Ok in H as (a & Ha & H).
  apply ok_or_Ok, idna_std3, lower_alphabet in Ha. case_match eqn:E; [done|]. injection H as <-.
  apply orb_false_iff in E as [E1 E2]. split_and!; [|done|].
  - intros Heq. by rewrite Heq in E1.
  - apply existsb_false in E2. eapply Forall_impl; [exact E2|]. intros l Hl. unfold label_ok. by rewrite Hl.
Qed.

Lemma normalize_pattern_normal v p :
  normalize_host_pattern domain_to_ascii_strict v = Ok p -> normal_pattern p.
Proof.
  unfold normalize_host_pattern. destruct (strip_prefix "*." v) as [s|] eqn:E.
  - intros H. apply result_bind_Ok in H as (s' & Hs & H). case_match eqn:Hd; [done|].
    injection H as <-. apply negb_false_iff in Hd. right. exists s'. split_and!; [done | | done].
    by eapply normalize_host_normal.
  - intros H. left. by eapply normalize_host_normal.
Qed.

Lemma split_wildcard s : split_on "."%char ("*." +:+ s) = "*" :: split_on "."%char s.
Proof. done. Qed.

Lemma host_matches_plain p h : normal_host p -> host_matches p h = str_eqb p h.
Proof.
  intros (_ & Ha & _). unfold host_matches. destruct (strip_prefix "*." p) as [s|] eqn:E; [|done].
  apply strip_prefix_Some in E as ->. by apply alphabet_no_star in Ha.
Qed.

(** On normalized names, the byte comparison of [host_matches] is label matching: a plain pattern
    matches exactly its own name, and a wildcard matches exactly the names that put at least one label in
    front of its suffix, so neither the suffix itself nor a longer last label is ever matched. *)
Theorem host_matches_is_label_matching pattern host v w
    (Hp : normalize_host_pattern domain_to_ascii_strict v = Ok pattern)
    (Hh : normalize_host domain_to_ascii_strict w = Ok host) :
  host_matches pattern host = true <->
  split_on "."%char pattern = split_on "."%char host
  \/ exists pre suffix, pre <> [] /\ split_on "."%char pattern = "*" :: suffix
       /\ split_on "."%char host = pre ++ suffix.
Proof.
  apply normalize_pattern_normal in Hp. apply normalize_host_normal in Hh.
  destruct Hp as [Hp | (s & -> & Hs & Hdot)].
  - rewrite host_matches_plain, str_eqb_eq by done. split; [intros ->; by left|].
    intros [H | (pre & suffix & _ & H & _)]; [by eapply split_on_inj|].
    exfalso. apply (star_label_excluded pattern (proj1 (proj2 Hp))). rewrite H. set_solver.
  - rewrite host_matches_suffix, split_wildcard. split.
    + intros (pre & Hne & ->). right. exists (split_on "."%char pre), (split_on "."%char s).
      rewrite split_on_app_any. split; [apply split_on_nonempty | done].
    + intros [H | (pre & suffix & Hne & H & Hh')].
      * exfalso. apply (star_label_excluded host (proj1 (proj2 Hh))). rewrite <- H. set_solver.
      * injection H as <-. exists (join_on "."%char pre). split.
        -- intros Hj. pose proof (labels_nonempty host Hh) as Hl. rewrite Hh' in Hl.
           destruct pre as [|x [|y pre]]; [done | |].
           ++ cbn in Hj. subst x. apply Hl. set_solver.
           ++ rewrite join_on_cons in Hj by done. destruct x; done.
        -- rewrite <- (join_split "."%char host), Hh', join_on_app, join_split; [done | done|].
           apply split_on_nonempty.
Qed.

(** ** Validation *)
Definition grants (d : CapabilityDestination Net) (r : ValidatedDestination Net) : Prop :=
  match r with
  | HostRule pattern port =>
      port = 443 /\ d_protocol d = Tls /\ d_ports d = [443] /\ d_cidr d = None
      /\ exists v, d_host d = Some v /\ normalize_host_pattern domain_to_ascii_strict v = Ok pattern
  | CidrRule cidr port =>
      d_protocol d = Tcp /\ d_cidr d = Some cidr /\ d_host d = None /\ port ∈ d_ports d
  end.

Definition rule_ok (r : ValidatedDestination Net) : Prop :=
  match r with
  | HostRule pattern port => port = 443 /\ normal_pattern pattern
  | CidrRule _ port => 0 < port <= U16_MAX
  end.

Lemma Zleb_total x y : (x <=? y) = true \/ (y <=? x) = true.
Proof. lia. Qed.
Lemma Zleb_trans x y z : (x <=? y) = true -> (y <=? z) = true -> (x <=? z) = true.
Proof. lia. Qed.

Lemma validated_ports_Ok ports sorted :
  validated_ports ports = Ok sorted ->
  sorted ≡ₚ ports /\ NoDup ports /\ ports <> [] /\ len ports <= MAX_PORTS_PER_DESTINATION /\ 0 ∉ ports
  /\ sorted = sort_by Z.leb ports.
Proof.
  unfold validated_ports. intros H. case_match eqn:E1; [done|]. case_match eqn:E2; [done|]. injection H as <-.
  apply orb_false_iff in E1 as [E1 E1']. apply orb_false_iff in E2 as [E2 E2']. bool_hyps.
  pose proof (sort_by_Permutation Z.leb ports) as Hperm.
  assert (Hlen : length (dedup (sort_by Z.leb ports)) = length (sort_by Z.leb ports))
    by (pose proof (Permutation_length Hperm); unfold len in E2; lia).
  pose proof (dedup_id _ Hlen) as Hid. rewrite Hid in E2'. rewrite Hid. split_and!; try done.
  - rewrite <- Hperm. eapply (dedup_sorted_NoDup Z.leb); [lia | | done].
    apply sort_by_sorted; [apply Zleb_total | apply Zleb_trans].
  - intros ->. done.
  - rewrite <- Hperm. intros Hin. apply existsb_false in E2'. rewrite Forall_forall in E2'.
    by specialize (E2' _ Hin).
Qed.

Lemma validate_destination_Ok d rules :
  validate_destination domain_to_ascii_strict d = Ok rules ->
  (forall r, r ∈ rules <-> grants d r)
  /\ NoDup (d_ports d) /\ d_ports d <> [] /\ len (d_ports d) <= MAX_PORTS_PER_DESTINATION /\ 0 ∉ d_ports d.
Proof.
  unfold validate_destination. intros H. apply result_bind_Ok in H as (ports & Hports & H).
  apply validated_ports_Ok in Hports as (Hperm & Hnd & Hne & Hmax & H0 & _). split; [|done].
  destruct (d_host d) as [host|] eqn:Eh, (d_cidr d) as [cidr|] eqn:Ec, (d_protocol d) eqn:Ep; try done.
  - case_bool_decide as E443; [|done]. apply result_bind_Ok in H as (pattern & Hpat & H). injection H as <-.
    subst ports. apply Permutation_singleton_l in Hperm.
    intros r. rewrite list_elem_of_singleton. unfold grants. rewrite Eh, Ec, Ep, <- Hperm. split.
    + intros ->. split_and!; try done. eauto.
    + destruct r as [p port|]; [|naive_solver]. intros (-> & _ & _ & _ & v & Hv & Hp'). congruence.
  - injection H as <-. intros r. rewrite list_elem_of_fmap. unfold grants. rewrite Eh, Ec, Ep.
    setoid_rewrite Hperm. destruct r as [|c port]; [naive_solver|]. split.
    + intros (y & Hy & Hin). by simplify_eq.
    + intros (_ & Hc & _ & Hin). simplify_eq. eauto.
Qed.

Lemma ValidatedPolicy_new_rules ds policy :
  ValidatedPolicy_new domain_to_ascii_strict ds = Ok policy ->
  Forall (fun d => exists rules, validate_destination domain_to_ascii_strict d = Ok rules
                                 /\ Forall (fun r => r ∈ policy) rules) ds
  /\ (forall r, r ∈ policy -> exists d, d ∈ ds /\ grants d r).
Proof.
  unfold ValidatedPolicy_new. intros H. apply result_bind_Ok in H as (vs & Hvs & H). injection H as <-.
  revert vs Hvs. induction ds as [|d ds IH]; intros vs Hvs; cbn in Hvs; [simplify_eq; set_solver|].
  apply result_bind_Ok in Hvs as (rules & Hd & Hvs). apply result_bind_Ok in Hvs as (vs' & Hds & Hvs).
  injection Hvs as <-. destruct (IH _ Hds) as [Hall Hfrom]. cbn [concat]. split.
  - constructor.
    + exists rules. split; [done|]. apply Forall_forall. set_solver.
    + eapply Forall_impl; [exact Hall|]. intros d' (rules' & ? & Hin). exists rules'. split; [done|].
      eapply Forall_impl; [exact Hin|]. set_solver.
  - intros r. rewrite elem_of_app. intros [Hr|Hr].
    + exists d. split; [set_solver|]. by apply (proj1 (validate_destination_Ok d rules Hd)).
    + destruct (Hfrom r Hr) as (d' & ? & ?). exists d'. set_solver.
Qed.

(** C29: a validated policy is well formed and exact: its rules are exactly the ones its destinations grant
    (a TLS host on port 443, or a CIDR block on each of its listed ports), every pattern is in normal form,
    every port is a non-zero 16-bit port, and a destination listing a port twice never validates. *)
Theorem validated_policy_is_exact ds policy
    (ports_u16 : Forall (fun d => Forall (fun p => 0 <= p <= U16_MAX) (d_ports d)) ds)
    (H : ValidatedPolicy_new domain_to_ascii_strict ds = Ok policy) :
  (forall r, r ∈ policy <-> exists d, d ∈ ds /\ grants d r)
  /\ Forall rule_ok policy
  /\ Forall (fun d => NoDup (d_ports d) /\ 0 < len (d_ports d) <= MAX_PORTS_PER_DESTINATION) ds.
Proof.
  apply ValidatedPolicy_new_rules in H as [Hall Hfrom].
  assert (Hiff : forall r, r ∈ policy <-> exists d, d ∈ ds /\ grants d r).
  { intros r. split; [apply Hfrom|]. intros (d & Hd & Hg). rewrite Forall_forall in Hall.
    destruct (Hall d Hd) as (rules & Hv & Hin). rewrite Forall_forall in Hin. apply Hin.
    by apply (proj1 (validate_destination_Ok d rules Hv)). }
  split_and!; [done | |].
  - apply Forall_forall. intros r Hr. apply Hiff in Hr as (d & Hd & Hg).
    rewrite Forall_forall in Hall, ports_u16. destruct (Hall d Hd) as (rules & Hv & _).
    apply validate_destination_Ok in Hv as (_ & _ & _ & _ & H0).
    destruct r as [pattern port | cidr port]; cbn in *.
    + destruct Hg as (-> & _ & _ & _ & v & _ & Hv). split; [done|]. by eapply normalize_pattern_normal.
    + destruct Hg as (_ & _ & _ & Hport). specialize (ports_u16 d Hd). rewrite Forall_forall in ports_u16.
      specialize (ports_u16 port Hport). assert (port <> 0) by (intros ->; done). lia.
  - eapply Forall_impl; [exact Hall|]. intros d (rules & Hv & _).
    apply validate_destination_Ok in Hv as (_ & Hnd & Hne & Hmax & _). split; [done|].
    unfold len in *. destruct (d_ports d); [done | cbn in *; lia].
Qed.

(** ** Idempotence *)
Context (idna_length : forall v a, domain_to_ascii_strict v = Some a -> str_len a <= 253).
Context (idna_stable : forall v a, domain_to_ascii_strict v = Some a ->
  domain_to_ascii_strict (to_ascii_lowercase a) = Some (to_ascii_lowercase a)).

Lemma normalize_host_idem v h :
  normalize_host domain_to_ascii_strict v = Ok h -> normalize_host domain_to_ascii_strict h = Ok h.
Proof.
  intros H. pose proof (normalize_host_normal _ _ H) as Hn. revert H. unfold normalize_host at 1. intros H.
  case_match; [done|]. apply result_bind_Ok in H as (a & Ha & H). apply ok_or_Ok in Ha.
  case_match eqn:E; [done|]. injection H as Hh. pose proof (idna_length _ _ Ha) as Hlen.
  pose proof (idna_stable _ _ Ha) as Hst. rewrite Hh in *.
  assert (Hlh : str_len h = str_len a).
  { rewrite <- Hh. unfold str_len, to_ascii_lowercase, map_string. rewrite <- !length_bytes_of, bytes_of_list.
    by rewrite length_map. }
  destruct (normal_host_no_edge_dot h Hn) as [Hs He]. destruct Hn as (Hne & Halpha & _).
  unfold normalize_host. rewrite Hs, He, alphabet_no_star, alphabet_no_whitespace by done.
  apply orb_false_iff in E as [E1 E2]. rewrite E1. rewrite (proj2 (Z.ltb_ge 253 (str_len h))) by lia.
  cbn [orb]. rewrite Hst. cbn [ok_or]. unfold mbind, result_bind. rewrite alphabet_lowercase by done.
  by rewrite E1, E2.
Qed.

Lemma normalize_pattern_idem v p :
  normalize_host_pattern domain_to_ascii_strict v = Ok p -> normalize_host_pattern domain_to_ascii_strict p = Ok p.
Proof.
  unfold normalize_host_pattern. destruct (strip_prefix "*." v) as [s|] eqn:E.
  - intros H. apply result_bind_Ok in H as (s' & Hs & H). case_match eqn:Hd; [done|]. injection H as <-.
    rewrite strip_prefix_app, (normalize_host_idem _ _ Hs). unfold mbind, result_bind. by rewrite Hd.
  - intros H. destruct (strip_prefix "*." p) as [s|] eqn:E'; [|by eapply normalize_host_idem].
    apply strip_prefix_Some in E' as ->. apply normalize_host_normal in H as (_ & Ha & _).
    by apply alphabet_no_star in Ha.
Qed.

(** ** Authorization *)
Context (cidr_contains : Net -> Z -> bool) (is_public_unicast : Z -> bool).
Context (lookup_ip : string -> option (list RData)).

Definition address_permitted (deny : DenyPolicy Net) (a : Z) : Prop :=
  is_public_unicast a = true /\ denies_ip cidr_contains deny a = false.

Definition record_permitted (deny : DenyPolicy Net) (r : RData) : Prop :=
  match r with
  | CNAME cname => exists alias, normalize_dns_name domain_to_ascii_strict cname = Ok alias
                                 /\ denies_host deny alias = false
  | A a => address_permitted deny a
  | AAAA => False
  | OtherData => True
  end.

(** What the signed policy, the permanent denies and the resolver's answer permit. *)
Definition authorized (policy : list (ValidatedDestination Net)) (deny : DenyPolicy Net)
    (authority : string) (port : Z) (t : AuthorizedTarget) : Prop :=
  port <> 0 /\ at_port t = port
  /\ match parse_ip authority with
     | Some V6 => False
     | Some (V4 a) =>
         at_address t = a /\ expected_sni t = None /\ address_permitted deny a
         /\ existsb (cidr_allows cidr_contains a port) policy = true
     | None =>
         exists host records,
           normalize_host domain_to_ascii_strict authority = Ok host
           /\ denies_host deny host = false
           /\ lookup_ip (host +:+ ".") = Some records
           /\ Forall (record_permitted deny) records
           /\ A (at_address t) ∈ records /\ (forall a, A a ∈ records -> at_address t <= a)
           /\ (if existsb (host_allows host port) policy
               then expected_sni t = Some host
               else expected_sni t = None
                    /\ forall a, A a ∈ records -> existsb (cidr_allows cidr_contains a port) policy = true)
     end.

Lemma check_ip_Ok deny a : check_ip cidr_contains is_public_unicast deny a = Ok tt <-> address_permitted deny a.
Proof.
  unfold check_ip, address_permitted. destruct (is_public_unicast a), (denies_ip cidr_contains deny a);
    cbn; split; naive_solver.
Qed.

Definition record_address (r : RData) : option Z := match r with A a => Some a | _ => None end.

Lemma checked_ipv4_answers_Ok deny records addresses :
  checked_ipv4_answers cidr_contains domain_to_ascii_strict is_public_unicast deny records = Ok addresses <->
  Forall (record_permitted deny) records /\ addresses = omap record_address records.
Proof.
  revert addresses. induction records as [|r records IH]; intros addresses; cbn.
  { split; [intros [= <-]; by split | by intros [_ ->]]. }
  rewrite Forall_cons. destruct r as [cname | a | |]; cbn.
  - rewrite result_bind_Ok. split.
    + intros (alias & Ha & H). case_match eqn:Hd; [done|]. apply IH in H as [? ->]. naive_solver.
    + intros [[(alias & Ha & Hd) Hr] ->]. exists alias. split; [done|]. rewrite Hd. by apply IH.
  - rewrite result_bind_Ok. split.
    + intros ([] & Ha & H). apply check_ip_Ok in Ha. apply result_bind_Ok in H as (as' & H & [= <-]).
      apply IH in H as [? ->]. done.
    + intros [[Ha Hr] ->]. exists tt. split; [by apply check_ip_Ok|]. apply result_bind_Ok.
      exists (omap record_address records). split; [by apply IH | done].
  - naive_solver.
  - rewrite IH. naive_solver.
Qed.

Lemma omap_address_elem a (records : list RData) : a ∈ omap record_address records <-> A a ∈ records.
Proof.
  rewrite list_elem_of_omap. split; [|intros H; by exists (A a)]. intros (r & Hr & Ha). by destruct r; simplify_eq/=.
Qed.

(** The smallest address of an answer. *)
Lemma sorted_head l first rest :
  dedup (sort_by Z.leb l) = first :: rest -> first ∈ l /\ (forall a, a ∈ l -> first <= a) /\ (forall a, a ∈ l <-> a ∈ first :: rest).
Proof.
  intros H. assert (Hin : forall a, a ∈ l <-> a ∈ first :: rest)
    by (intros a; by rewrite <- H, dedup_elem, sort_by_Permutation).
  pose proof (sort_by_sorted Z.leb Zleb_total Zleb_trans l) as Hs.
  destruct (sort_by Z.leb l) as [|x s] eqn:E; [done|].
  destruct (dedup_cons_head x s) as [r Hr]. rewrite Hr in H. injection H as -> ->.
  split_and!; [apply Hin; set_solver | | done].
  intros a Ha. rewrite <- (sort_by_Permutation Z.leb l), E in Ha. apply elem_of_cons in Ha as [->|Ha]; [done|].
  apply StronglySorted_inv in Hs as [_ Hs]. rewrite Forall_forall in Hs. specialize (Hs a Ha).
  apply Is_true_true in Hs. lia.
Qed.

Lemma dedup_sort_nil l : dedup (sort_by Z.leb l) = [] <-> l = [].
Proof.
  split; [|by intros ->]. intros H. destruct l as [|x l]; [done|]. exfalso.
  assert (Hx : x ∈ dedup (sort_by Z.leb (x :: l))) by (rewrite dedup_elem, sort_by_Permutation; set_solver).
  rewrite H in Hx. set_solver.
Qed.

Lemma authorize_name_exact policy deny authority port t :
  authorize_name cidr_contains domain_to_ascii_strict is_public_unicast lookup_ip policy deny authority port = Ok t <->
  at_port t = port
  /\ exists host records,
       normalize_host domain_to_ascii_strict authority = Ok host
       /\ denies_host deny host = false
       /\ lookup_ip (host +:+ ".") = Some records
       /\ Forall (record_permitted deny) records
       /\ A (at_address t) ∈ records /\ (forall a, A a ∈ records -> at_address t <= a)
       /\ (if existsb (host_allows host port) policy
           then expected_sni t = Some host
           else expected_sni t = None
                /\ forall a, A a ∈ records -> existsb (cidr_allows cidr_contains a port) policy = true).
Proof.
  unfold authorize_name. rewrite result_bind_Ok. split.
  - intros (host & Hhost & H). case_match eqn:Hdeny; [done|]. apply result_bind_Ok in H as (records & Hrec & H).
    apply ok_or_Ok in Hrec. apply result_bind_Ok in H as (as' & Has & H).
    apply checked_ipv4_answers_Ok in Has as [Hperm ->].
    destruct (dedup _) as [|first rest] eqn:Hsort; [done|]. apply sorted_head in Hsort as (Hin & Hmin & Hall).
    case_match eqn:Hrule; [done|]. injection H as <-. cbn. split; [done|]. exists host, records.
    apply omap_address_elem in Hin.
    split_and!; try done; [intros a Ha; by apply Hmin, omap_address_elem|].
    destruct (existsb (host_allows host port) policy); [done|]. split; [done|].
    apply negb_false_iff in Hrule. rewrite forallb_forall in Hrule. intros a Ha.
    by apply Hrule, list_elem_of_In, Hall, omap_address_elem.
  - intros (Hport & host & records & Hhost & Hdeny & Hrec & Hperm & Hin & Hmin & Hrule).
    exists host. split; [done|]. rewrite Hdeny, Hrec. cbn [ok_or]. apply result_bind_Ok. exists records.
    split; [done|]. apply result_bind_Ok. exists (omap record_address records).
    split; [by apply checked_ipv4_answers_Ok|]. apply omap_address_elem in Hin.
    destruct (dedup _) as [|first rest] eqn:Hsort.
    { apply (proj1 (dedup_sort_nil _)) in Hsort. rewrite Hsort in Hin. set_solver. }
    apply sorted_head in Hsort as (Hin' & Hmin' & Hall).
    assert (first = at_address t) as -> by (apply omap_address_elem, Hmin in Hin'; specialize (Hmin' _ Hin); lia).
    destruct t as [ad po sni]; cbn in *. subst po. destruct (existsb (host_allows host port) policy).
    + cbn. by subst sni.
    + destruct Hrule as [-> Hr].
      assert (Hf : forallb (fun address => existsb (cidr_allows cidr_contains address port) policy) (ad :: rest) = true)
        by (apply forallb_forall; intros a Ha; apply Hr, omap_address_elem, Hall, list_elem_of_In, Ha).
      cbn [forallb] in Hf. by rewrite Hf.
Qed.

(** C28: a CONNECT target is authorized exactly when the signed policy permits it and no permanent deny
    covers it: the address dialed is public, denied by no CIDR rule and taken from an answer all of whose
    aliases and addresses pass the same checks (an IPv6 answer fails it), it is the smallest address of that
    answer, and either the name itself is granted, and then it is the SNI the tunnel must show, or every
    address of the answer is granted by a CIDR rule. *)
Theorem authorize_reaches_exactly_permitted_targets policy deny authority port t :
  authorize cidr_contains domain_to_ascii_strict is_public_unicast lookup_ip policy deny authority port = Ok t <->
  authorized policy deny authority port t.
Proof.
  unfold authorize, authorized. destruct (Z.eqb_spec port 0) as [->|Hport]; [naive_solver|].
  destruct (parse_ip authority) as [[a|]|].
  - unfold authorize_address. rewrite result_bind_Ok. split.
    + intros ([] & Hc & H). apply check_ip_Ok in Hc. case_match; [|done]. by injection H as <-.
    + intros (_ & Hp & Ha & Hsni & Hc & Hr). exists tt. split; [by apply check_ip_Ok|]. rewrite Hr.
      destruct t; cbn in *. by subst.
  - naive_solver.
  - rewrite authorize_name_exact. naive_solver.
Qed.
End facts.

(** ** Witnesses *)
Definition sample_idna (v : string) : option string :=
  if forallb host_alphabet (bytes_of v) && (str_len v <=? 253) then Some v else None.

Lemma sample_idna_std3 v a : sample_idna v = Some a -> Forall (fun c => host_alphabet c = true) (bytes_of a).
Proof.
  unfold sample_idna. intros H. case_match eqn:E; [|done]. injection H as <-. bool_hyps. by apply forallb_Forall_true.
Qed.

Lemma sample_idna_length v a : sample_idna v = Some a -> str_len a <= 253.
Proof. unfold sample_idna. intros H. case_match eqn:E; [|done]. injection H as <-. by bool_hyps. Qed.

Lemma sample_idna_stable v a :
  sample_idna v = Some a -> sample_idna (to_ascii_lowercase a) = Some (to_ascii_lowercase a).
Proof.
  intros H. pose proof (sample_idna_length _ _ H) as Hl. apply sample_idna_std3, lower_alphabet in H.
  assert (Hlen : str_len (to_ascii_lowercase a) = str_len a).
  { unfold str_len, to_ascii_lowercase, map_string. rewrite <- !length_bytes_of, bytes_of_list. by rewrite length_map. }
  unfold sample_idna. rewrite Hlen, (proj2 (Z.leb_le _ _) Hl), (proj2 (forallb_Forall_true _ _)); [done|].
  eapply Forall_impl; [exact H|]. intros c Hc.
  assert (Hx : implb (authority_char c) (host_alphabet c) = true) by by_bytes c. by rewrite Hc in Hx.
Qed.

Lemma host_matches_is_label_matching_witness :
  host_matches "*.example.com" "api.example.com" = true <->
  split_on "."%char "*.example.com" = split_on "."%char "api.example.com"
  \/ exists pre suffix, pre <> [] /\ split_on "."%char "*.example.com" = "*" :: suffix
       /\ split_on "."%char "api.example.com" = pre ++ suffix.
Proof.
  apply (host_matches_is_label_matching sample_idna sample_idna_std3 "*.example.com" "api.example.com"
           "*.EXAMPLE.com" "API.example.com"); vm_compute; reflexivity.
Defined.

Definition sample_destination : CapabilityDestination Z := mkCapabilityDestination None (Some 8) [443; 80] Tcp.

Lemma validated_policy_is_exact_witness :
  Forall rule_ok [CidrRule 8 80; CidrRule 8 443].
Proof.
  refine (proj1 (proj2 (validated_policy_is_exact sample_idna sample_idna_std3
    [sample_destination] [CidrRule 8 80; CidrRule 8 443] _ _))).
  - repeat constructor; vm_compute; congruence.
  - vm_compute. reflexivity.
Defined.

(** [/8] networks by their first byte; the name resolves through one alias. *)
Definition sample_contains (net address : Z) : bool := address / 16777216 =? net.
Definition sample_lookup (name : string) : option (list RData) :=
  if str_eqb name "www.example.com." then Some [CNAME "cdn.example.net."; A 134744073; A 134744072] else None.

Lemma authorize_reaches_exactly_permitted_targets_witness :
  authorized sample_idna sample_contains (fun _ => true) sample_lookup [HostRule "*.example.com" 443]
    (mkDenyPolicy ["bad.example.com"] [10]) "www.example.com" 443 (mkAuthorizedTarget 134744072 443 (Some "www.example.com")).
Proof.
  refine (proj1 (authorize_reaches_exactly_permitted_targets sample_idna sample_idna_std3 sample_idna_length
    sample_idna_stable sample_contains (fun _ => true) sample_lookup [HostRule "*.example.com" 443]
    (mkDenyPolicy ["bad.example.com"] [10]) "www.example.com" 443 (mkAuthorizedTarget 134744072 443 (Some "www.example.com"))) _).
  vm_compute. reflexivity.
Defined.
