(* ===== verification/Capability.v ===== *)
(** * hand-egress-gateway: signed capabilities

    Models crates/hand-egress-gateway/src/capability.rs: the canonical payload of a capability, the token
    that carries it with its signature, and its verification. base64, the ECDSA implementation, the JSON
    codec and IDNA are outside the repository and are section variables. *)
From S2P Require Import Prelude Policy Connector Page EgressPolicy.

Definition MAX_CAPABILITY_PAYLOAD_BYTES : Z := 7607.
Definition MAX_ENCODED_TOKEN_BYTES : Z := 10 * 1024.
Definition MAX_DER_SIGNATURE_BYTES : Z := 72.
Definition MAX_DESTINATIONS : Z := 128.
Definition MAX_GENERATION_LIFETIME_MS : Z := 8 * 60 * 60 * 1000.
Definition CLOCK_SKEW_MS : Z := 60000.
Definition MAX_DESTINATIONS_MESSAGE : string := "destinations must contain between 1 and 128 entries".

Inductive CapabilityError :=
  | TooLarge | MalformedToken | MalformedSignature | BadSignature | Json | NonCanonical | NotYetValid
  | Expired | Lifetime | Invalid (field : string) | Policy (e : PolicyError).

Record Capability {Net : Type} := mkCapability {
  c_root_id : string;
  c_session_id : string;
  c_sandbox_id : string;
  c_generation : string;
  issued_at_ms : Z;
  expires_at_ms : Z;
  policy_digest : string;
  destinations : list (CapabilityDestination Net) }.
Arguments Capability : clear implicits.

Record VerifiedCapability {Net : Type} := mkVerifiedCapability {
  capability : Capability Net;
  v_policy : list (ValidatedDestination Net) }.
Arguments VerifiedCapability : clear implicits.

Definition validate_identity (value field : string) : result CapabilityError unit :=
  match bytes_of value with
  | [] => Err (Invalid field)
  | first :: rest =>
      if (128 <? str_len value) || negb (is_ascii value) || negb (is_ascii_alphanumeric first)
         || existsb (fun ch => negb (identifier_tail_char ch)) rest
      then Err (Invalid field) else Ok tt
  end.

Definition cap_validate_digest (value field : string) : result CapabilityError unit :=
  if negb (str_len value =? 64) || negb (forallb is_lower_hex (bytes_of value)) then Err (Invalid field) else Ok tt.

Definition lifetime_is_valid {Net} (c : Capability Net) : bool :=
  negb ((expires_at_ms c <=? issued_at_ms c)
        || (MAX_GENERATION_LIFETIME_MS <? expires_at_ms c - issued_at_ms c)).

Definition with_destinations {Net} (ds : list (CapabilityDestination Net)) (c : Capability Net) : Capability Net :=
  mkCapability _ (c_root_id c) (c_session_id c) (c_sandbox_id c) (c_generation c) (issued_at_ms c)
    (expires_at_ms c) (policy_digest c) ds.

#[global] Instance Capability_eq_dec {Net} `{EqDecision Net} : EqDecision (Capability Net).
Proof. solve_decision. Defined.

Section capability.
Context {Net Signature VerifyingKey : Type} `{EqDecision Net}.
Context (domain_to_ascii_strict : string -> option string).
Context (destination_json : CapabilityDestination Net -> string).
Context (to_json : Capability Net -> option (list Ascii.ascii)).
Context (from_json : list Ascii.ascii -> option (Capability Net)).
Context (b64_encode : list Ascii.ascii -> string) (b64_decode : string -> option (list Ascii.ascii)).
Context (from_der : list Ascii.ascii -> option Signature).
Context (verify : VerifyingKey -> list Ascii.ascii -> Signature -> bool).

(** Ordering of destinations by their JSON text. *)
Definition json_leb (left right : CapabilityDestination Net) : bool :=
  negb (str_ltb (destination_json right) (destination_json left)).

Definition canonical_destination (d : CapabilityDestination Net)
    : result CapabilityError (CapabilityDestination Net) :=
  host ← (match d_host d with
          | Some host => Some <$> map_err Policy (normalize_host_pattern domain_to_ascii_strict host)
          | None => Ok None
          end);
  Ok (mkCapabilityDestination host (d_cidr d) (sort_by Z.leb (d_ports d)) (d_protocol d)).

Definition unsigned_capability_bytes (c : Capability Net) : result CapabilityError (list Ascii.ascii) :=
  _ ← validate_identity (c_root_id c) "root_id";
  _ ← validate_identity (c_session_id c) "session_id";
  _ ← validate_identity (c_sandbox_id c) "sandbox_id";
  _ ← validate_identity (c_generation c) "generation";
  _ ← cap_validate_digest (policy_digest c) "policy_digest";
  _ ← ensure (lifetime_is_valid c) Lifetime;
  _ ← ensure (negb ((len (destinations c) =? 0) || (MAX_DESTINATIONS <? len (destinations c))))
        (Invalid MAX_DESTINATIONS_MESSAGE);
  ds ← mapM_result canonical_destination (destinations c);
  let sorted := sort_by json_leb ds in
  let canonical := dedup sorted in
  _ ← ensure (len canonical =? len sorted) (Invalid "duplicate destination");
  _ ← map_err Policy (ValidatedPolicy_new domain_to_ascii_strict canonical);
  bytes ← ok_or Json (to_json (with_destinations canonical c));
  _ ← ensure (len bytes <=? MAX_CAPABILITY_PAYLOAD_BYTES) TooLarge;
  Ok bytes.

Definition encode_signed_token (payload der_signature : list Ascii.ascii) : result CapabilityError string :=
  _ ← ensure (negb ((len payload =? 0) || (MAX_CAPABILITY_PAYLOAD_BYTES <? len payload)
                    || (MAX_DER_SIGNATURE_BYTES <? len der_signature))) TooLarge;
  _ ← ok_or MalformedSignature (from_der der_signature);
  let token := b64_encode payload +:+ "." +:+ b64_encode der_signature in
  _ ← ensure (str_len token <=? MAX_ENCODED_TOKEN_BYTES) TooLarge;
  Ok token.

Definition verify_token (token : string) (public_key : VerifyingKey) (now_ms : Z)
    : result CapabilityError (VerifiedCapability Net) :=
  _ ← ensure (negb ((MAX_ENCODED_TOKEN_BYTES <? str_len token) || existsb is_whitespace (chars token))) TooLarge;
  '(payload, signature) ← ok_or MalformedToken (split_once "."%char token);
  _ ← ensure (negb (contains_char "."%char signature)) MalformedToken;
  payload ← ok_or MalformedToken (b64_decode payload);
  signature ← ok_or MalformedToken (b64_decode signature);
  _ ← ensure (negb ((len payload =? 0) || (MAX_CAPABILITY_PAYLOAD_BYTES <? len payload)
                    || (MAX_DER_SIGNATURE_BYTES <? len signature))) TooLarge;
  signature ← ok_or MalformedSignature (from_der signature);
  _ ← ensure (verify public_key payload signature) BadSignature;
  capability ← ok_or Json (from_json payload);
  bytes ← unsigned_capability_bytes capability;
  _ ← ensure (bool_decide (bytes = payload)) NonCanonical;
  _ ← ensure (negb (saturating_add now_ms CLOCK_SKEW_MS <? issued_at_ms capability)) NotYetValid;
  _ ← ensure (negb (expires_at_ms capability <=? now_ms)) Expired;
  _ ← ensure (lifetime_is_valid capability) Lifetime;
  policy ← map_err Policy (ValidatedPolicy_new domain_to_ascii_strict (destinations capability));
  Ok (mkVerifiedCapability _ capability policy).
End capability.

(** ** Lemmas *)
Lemma ensure_bind_Ok {E A} b (e : E) (k : unit -> result E A) a :
  (ensure b e ≫= k) = Ok a <-> b = true /\ k tt = Ok a.
Proof. unfold ensure, mbind, result_bind. destruct b; naive_solver. Qed.

Lemma ok_or_bind_Ok {E A B} (e : E) (o : option A) (k : A -> result E B) b :
  (ok_or e o ≫= k) = Ok b <-> exists a, o = Some a /\ k a = Ok b.
Proof. unfold ok_or, mbind, result_bind. destruct o; naive_solver. Qed.

Lemma mapM_result_Ok_nil {E A B} (f : A -> result E B) : mapM_result f [] = Ok [].
Proof. done. Qed.

Lemma mapM_result_Forall2 {E A B} (f : A -> result E B) l bs :
  mapM_result f l = Ok bs <-> Forall2 (fun a b => f a = Ok b) l bs.
Proof.
  revert bs. induction l as [|a l IH]; intros bs; cbn.
  - split; [intros [= <-]; constructor | by intros ->%Forall2_nil_inv_l].
  - rewrite result_bind_Ok. setoid_rewrite result_bind_Ok. split.
    + intros (b & Hb & bs' & Hbs & [= <-]). constructor; [done | by apply IH].
    + intros (b & bs' & Hb & Hbs & ->)%Forall2_cons_inv_l. exists b. split; [done|]. exists bs'.
      split; [by apply IH | done].
Qed.

Section facts.
Context {Net Signature VerifyingKey : Type} `{EqDecision Net}.
Context (domain_to_ascii_strict : string -> option string).
Context (destination_json : CapabilityDestination Net -> string).
Context (to_json : Capability Net -> option (list Ascii.ascii)).
Context (from_json : list Ascii.ascii -> option (Capability Net)).
Context (b64_encode : list Ascii.ascii -> string) (b64_decode : string -> option (list Ascii.ascii)).
Context (from_der : list Ascii.ascii -> option Signature).
Context (verify : VerifyingKey -> list Ascii.ascii -> Signature -> bool).

Local Notation unsigned := (unsigned_capability_bytes domain_to_ascii_strict destination_json to_json).
Local Notation leb := (json_leb destination_json).

Lemma json_leb_total x y : leb x y = true \/ leb y x = true.
Proof.
  unfold json_leb. rewrite !negb_true_iff.
  destruct (str_ltb (destination_json y) (destination_json x)) eqn:E1; [|by left].
  destruct (str_ltb (destination_json x) (destination_json y)) eqn:E2; [|by right].
  exfalso. by apply (str_lt_irrefl (destination_json x)), (str_lt_trans _ (destination_json y)).
Qed.

Lemma json_leb_trans x y z : leb x y = true -> leb y z = true -> leb x z = true.
Proof.
  unfold json_leb. rewrite !negb_true_iff. intros H1 H2.
  destruct (str_ltb (destination_json z) (destination_json x)) eqn:E; [|done]. exfalso.
  destruct (str_lt_total (destination_json x) (destination_json y)) as [H|[H|H]].
  - pose proof (str_lt_trans (destination_json z) (destination_json x) (destination_json y) E H) as Hc. unfold str_lt in Hc. congruence.
  - rewrite <- H in H2. congruence.
  - unfold str_lt in H. congruence.
Qed.

(** A destination in canonical form is its own canonical form. *)
Context (idna_std3 : forall v a, domain_to_ascii_strict v = Some a ->
  Forall (fun c => host_alphabet c = true) (bytes_of a)).
Context (idna_length : forall v a, domain_to_ascii_strict v = Some a -> str_len a <= 253).
Context (idna_stable : forall v a, domain_to_ascii_strict v = Some a ->
  domain_to_ascii_strict (to_ascii_lowercase a) = Some (to_ascii_lowercase a)).

Lemma canonical_destination_idem d d' :
  canonical_destination (Net := Net) domain_to_ascii_strict d = Ok d' ->
  canonical_destination (Net := Net) domain_to_ascii_strict d' = Ok d'.
Proof.
  unfold canonical_destination. intros H. apply result_bind_Ok in H as (host & Hh & [= <-]). cbn [d_host d_cidr d_ports d_protocol].
  rewrite (sort_by_idemp Z.leb Zleb_total Zleb_trans). apply result_bind_Ok. exists host. split; [|done].
  destruct (d_host d) as [v|]; [|by injection Hh as <-].
  destruct (normalize_host_pattern domain_to_ascii_strict v) as [p|] eqn:E; [|done]. injection Hh as <-.
  by rewrite (normalize_pattern_idem _ idna_std3 idna_length idna_stable _ _ E).
Qed.

(** What minting requires of the fields outside the destination list. *)
Definition header_ok (c : Capability Net) : Prop :=
  validate_identity (c_root_id c) "root_id" = Ok tt /\ validate_identity (c_session_id c) "session_id" = Ok tt
  /\ validate_identity (c_sandbox_id c) "sandbox_id" = Ok tt
  /\ validate_identity (c_generation c) "generation" = Ok tt
  /\ cap_validate_digest (policy_digest c) "policy_digest" = Ok tt /\ lifetime_is_valid c = true.

(** [ds] is the canonical destination list of [c] and [payload] its canonical encoding. *)
Definition mints (c : Capability Net) (ds : list (CapabilityDestination Net)) (payload : list Ascii.ascii) : Prop :=
  header_ok c /\ 0 < len (destinations c) <= MAX_DESTINATIONS
  /\ (exists ds', mapM_result (canonical_destination domain_to_ascii_strict) (destinations c) = Ok ds'
                  /\ ds = sort_by leb ds')
  /\ length (dedup ds) = length ds
  /\ (exists policy, ValidatedPolicy_new domain_to_ascii_strict ds = Ok policy)
  /\ to_json (with_destinations ds c) = Some payload /\ len payload <= MAX_CAPABILITY_PAYLOAD_BYTES.

Lemma unsigned_Ok c payload : unsigned c = Ok payload <-> exists ds, mints c ds payload.
Proof.
  unfold unsigned_capability_bytes, mints, header_ok. split.
  - intros H. do 7 (apply result_bind_Ok in H as ([] & ? & H)).
    repeat match goal with H : ensure _ _ = Ok tt |- _ => apply ensure_Ok in H end.
    apply result_bind_Ok in H as (ds' & Hds & H). rewrite ensure_bind_Ok in H.
    destruct H as (Hdd & H). apply result_bind_Ok in H as (policy & Hp & H). apply map_err_Ok in Hp.
    rewrite ok_or_bind_Ok in H. destruct H as (bytes & Hb & H). rewrite ensure_bind_Ok in H.
    destruct H as (Hmax & [= ->]). apply Z.eqb_eq in Hdd.
    assert (Hlen : length (dedup (sort_by leb ds')) = length (sort_by leb ds'))
      by (unfold len in Hdd; lia).
    rewrite (dedup_id _ Hlen) in *.
    exists (sort_by leb ds'). pose proof (len_nonneg (destinations c)). bool_hyps. split_and!; eauto; lia.
  - intros (ds & (H1 & H2 & H3 & H4 & H5 & Hl) & Hd & (ds' & Hds & ->) & Hlen & (policy & Hp) & Hb & Hmax).
    rewrite H1, H2, H3, H4, H5. cbn. unfold mbind, result_bind. rewrite Hl. cbn.
    rewrite (proj2 (Z.eqb_neq _ _)), (proj2 (Z.ltb_ge _ _)) by lia. cbn. rewrite Hds.
    rewrite (dedup_id _ Hlen), Z.eqb_refl. cbn.
    rewrite Hp. cbn. rewrite Hb. cbn. by rewrite (proj2 (Z.leb_le _ _)).
Qed.

Lemma with_destinations_twice ds ds' (c : Capability Net) :
  with_destinations ds (with_destinations ds' c) = with_destinations ds c.
Proof. done. Qed.

(** The canonical capability mints the same payload as the capability it comes from. *)
Lemma mints_canonical c ds payload : mints c ds payload -> mints (with_destinations ds c) ds payload.
Proof.
  intros (Hh & Hd & (ds' & Hds & ->) & Hlen & Hp & Hb & Hmax). unfold mints.
  assert (Hperm : sort_by leb ds' ≡ₚ ds') by apply sort_by_Permutation.
  assert (Hn : length ds' = length (destinations c)) by (symmetry; eapply Forall2_length, mapM_result_Forall2, Hds).
  split_and!; [done | | | | done | done | done | done]; cbn [destinations with_destinations].
  - unfold len in *. rewrite (Permutation_length Hperm), Hn. lia.
  - unfold len in *. rewrite (Permutation_length Hperm), Hn. lia.
  - exists (sort_by leb ds'). split; [|symmetry; apply sort_by_idemp; [apply json_leb_total | apply json_leb_trans]].
    apply mapM_result_Forall2, Forall_Forall2_diag. rewrite Hperm.
    apply mapM_result_Forall2 in Hds. apply Forall_forall. intros d Hin.
    apply list_elem_of_lookup in Hin as (i & Hi). destruct (Forall2_lookup_r _ _ _ _ _ Hds Hi) as (d0 & _ & Hd0).
    by eapply canonical_destination_idem.
Qed.
(** ** Tokens *)
Local Notation encode := (encode_signed_token b64_encode from_der).
Local Notation verified := (verify_token domain_to_ascii_strict destination_json to_json from_json b64_decode
  from_der verify).

(** The documented behaviour of the URL-safe base64 codec and of the derived JSON codec. *)
Context (b64_roundtrip : forall l, b64_decode (b64_encode l) = Some l).
Context (b64_alphabet : forall l,
  Forall (fun c => is_ascii_alphanumeric c || Ascii.eqb c "-"%char || Ascii.eqb c "_"%char = true) (bytes_of (b64_encode l))).
Context (json_roundtrip : forall c payload, to_json c = Some payload -> from_json payload = Some c).

Lemma b64_no_dot l : contains_char "."%char (b64_encode l) = false.
Proof.
  apply contains_char_false. eapply Forall_impl; [apply b64_alphabet|]. intros c Hc. cbn.
  assert (Hx : implb (is_ascii_alphanumeric c || Ascii.eqb c "-"%char || Ascii.eqb c "_"%char)
    (negb (Ascii.eqb "."%char c)) = true) by by_bytes c.
  rewrite Hc in Hx. by apply negb_true_iff.
Qed.

Lemma no_whitespace_bytes s :
  Forall (fun c => is_ascii_byte c && negb (is_whitespace (byte_val c)) = true) (bytes_of s) ->
  existsb is_whitespace (chars s) = false.
Proof.
  intros H. rewrite chars_ascii.
  - apply existsb_false, Forall_map. eapply Forall_impl; [exact H|].
    intros c [_ Hc]%andb_true_iff. by apply negb_true_iff.
  - apply forallb_Forall_true. eapply Forall_impl; [exact H|]. by intros c [Hc _]%andb_true_iff.
Qed.

Lemma b64_plain l : Forall (fun c => is_ascii_byte c && negb (is_whitespace (byte_val c)) = true) (bytes_of (b64_encode l)).
Proof.
  eapply Forall_impl; [apply b64_alphabet|]. intros c Hc. cbn.
  assert (Hx : implb (is_ascii_alphanumeric c || Ascii.eqb c "-"%char || Ascii.eqb c "_"%char)
    (is_ascii_byte c && negb (is_whitespace (byte_val c))) = true) by by_bytes c.
  by rewrite Hc in Hx.
Qed.

Lemma token_pieces payload der :
  split_once "."%char (b64_encode payload +:+ "." +:+ b64_encode der) = Some (b64_encode payload, b64_encode der).
Proof.
  pose proof (b64_no_dot payload) as H. apply contains_char_false in H. revert H.
  generalize (b64_encode payload) as s. induction s as [|a s IH]; [done|].
  change (bytes_of (String a s)) with (a :: bytes_of s). intros [Ha Hs]%Forall_cons.
  rewrite str_app_cons. cbn [split_once]. rewrite Ascii.eqb_sym, Ha. by rewrite (IH Hs).
Qed.

Lemma token_no_whitespace payload der :
  existsb is_whitespace (chars (b64_encode payload +:+ "." +:+ b64_encode der)) = false.
Proof.
  apply no_whitespace_bytes. rewrite !bytes_of_app. apply Forall_app. split; [apply b64_plain|].
  apply Forall_app. split; [by apply Forall_singleton | apply b64_plain].
Qed.

(** Minting and verifying are inverse: a token minted for a capability and signed with the key's
    signature verifies, during its validity, to the canonical form of that capability, with the policy its
    destinations validate to. *)
Theorem minted_token_verifies c payload der token key signature now
    (minted : unsigned c = Ok payload) (encoded : encode payload der = Ok token)
    (parsed : from_der der = Some signature) (signed : verify key payload signature = true)
    (started : issued_at_ms c <= saturating_add now CLOCK_SKEW_MS) (live : now < expires_at_ms c) :
  exists ds policy, mints c ds payload /\ ValidatedPolicy_new domain_to_ascii_strict ds = Ok policy
    /\ verified token key now = Ok (mkVerifiedCapability _ (with_destinations ds c) policy).
Proof.
  apply unsigned_Ok in minted as (ds & Hm). pose proof Hm as (Hh & _ & _ & _ & (policy & Hp) & Hb & Hmax).
  exists ds, policy. split_and!; [done | done|].
  unfold encode_signed_token in encoded. rewrite ensure_bind_Ok in encoded. destruct encoded as [Hlen encoded].
  rewrite parsed in encoded. cbn in encoded. rewrite ensure_bind_Ok in encoded. destruct encoded as [Htok [= <-]].
  apply Z.leb_le in Htok. unfold verify_token.
  rewrite token_no_whitespace, (proj2 (Z.ltb_ge _ _) Htok). cbn [orb negb ensure]. unfold mbind, result_bind.
  rewrite token_pieces. cbn [ok_or]. rewrite b64_no_dot. cbn [negb ensure]. rewrite !b64_roundtrip. cbn [ok_or].
  rewrite Hlen. cbn [ensure]. rewrite parsed. cbn [ok_or]. rewrite signed. cbn [ensure].
  rewrite (json_roundtrip _ _ Hb). cbn [ok_or].
  rewrite (proj2 (unsigned_Ok _ _) (ex_intro _ ds (mints_canonical _ _ _ Hm))).
  rewrite bool_decide_eq_true_2 by done. cbn [ensure issued_at_ms expires_at_ms with_destinations destinations].
  rewrite (proj2 (Z.ltb_ge _ _) started), (proj2 (Z.leb_gt _ _) live). cbn [negb ensure].
  destruct Hh as (_ & _ & _ & _ & _ & Hl). change (lifetime_is_valid (with_destinations ds c)) with (lifetime_is_valid c).
  rewrite Hl. cbn [ensure]. by rewrite Hp.
Qed.

(** C30: whatever a token says, an accepted one carries a signature of the key over its exact payload, that
    payload is the only encoding of the capability it yields (which is its own canonical form), the
    capability is inside its validity, which is at most eight hours, and the policy it is enforced with is
    the one its destinations validate to. *)
Theorem verified_token_is_canonical token key now v (accepted : verified token key now = Ok v) :
  exists payload der signature,
    split_once "."%char token ≫= (fun '(p, d) => p ← b64_decode p; d ← b64_decode d; Some (p, d)) = Some (payload, der)
    /\ from_der der = Some signature /\ verify key payload signature = true
    /\ to_json (capability v) = Some payload /\ from_json payload = Some (capability v)
    /\ mints (capability v) (destinations (capability v)) payload
    /\ issued_at_ms (capability v) <= saturating_add now CLOCK_SKEW_MS /\ now < expires_at_ms (capability v)
    /\ expires_at_ms (capability v) <= issued_at_ms (capability v) + MAX_GENERATION_LIFETIME_MS
    /\ ValidatedPolicy_new domain_to_ascii_strict (destinations (capability v)) = Ok (v_policy v).
Proof.
  unfold verify_token in accepted. rewrite ensure_bind_Ok in accepted. destruct accepted as [_ H].
  apply ok_or_bind_Ok in H as ([p d] & Hs & H). rewrite ensure_bind_Ok in H. destruct H as [_ H].
  apply ok_or_bind_Ok in H as (payload & Hpay & H). apply ok_or_bind_Ok in H as (der & Hder & H).
  rewrite ensure_bind_Ok in H. destruct H as [_ H]. apply ok_or_bind_Ok in H as (signature & Hsig & H).
  rewrite ensure_bind_Ok in H. destruct H as [Hver H]. apply ok_or_bind_Ok in H as (c & Hc & H).
  apply result_bind_Ok in H as (bytes & Hbytes & H). rewrite !ensure_bind_Ok in H.
  destruct H as (Heq & Hstart & Hlive & Hlife & H). apply bool_decide_eq_true in Heq as ->.
  apply result_bind_Ok in H as (policy & Hp & [= <-]). apply map_err_Ok in Hp. cbn [capability v_policy].
  apply unsigned_Ok in Hbytes as (ds & Hm). pose proof Hm as (_ & _ & _ & _ & _ & Hb & _).
  pose proof (json_roundtrip _ _ Hb) as Hc'. rewrite Hc in Hc'. injection Hc' as Hc'.
  assert (ds = destinations c) as -> by (by rewrite Hc'). rewrite <- Hc' in Hb.
  unfold lifetime_is_valid in Hlife. bool_hyps.
  exists payload, der, signature. rewrite Hs. cbn. rewrite Hpay. cbn. rewrite Hder. split_and!; try done; lia.
Qed.

(** base64 without padding: four characters for every three bytes. *)
Context (b64_length : forall l, str_len (b64_encode l) = (4 * len l + 2) / 3).

(** The transport bound of a token never rejects a payload and signature within their own bounds, so
    minting fails only for one of those; and it is tight: the largest of both fill it exactly. *)
Theorem encode_signed_token_exact payload der :
  (forall token, encode payload der = Ok token <->
     0 < len payload <= MAX_CAPABILITY_PAYLOAD_BYTES /\ len der <= MAX_DER_SIGNATURE_BYTES
     /\ is_Some (from_der der) /\ token = b64_encode payload +:+ "." +:+ b64_encode der)
  /\ (len payload = MAX_CAPABILITY_PAYLOAD_BYTES -> len der = MAX_DER_SIGNATURE_BYTES ->
      str_len (b64_encode payload +:+ "." +:+ b64_encode der) = MAX_ENCODED_TOKEN_BYTES).
Proof.
  pose proof (len_nonneg payload) as H1. pose proof (len_nonneg der) as H2.
  assert (Hlen : str_len (b64_encode payload +:+ "." +:+ b64_encode der)
                 = (4 * len payload + 2) / 3 + 1 + (4 * len der + 2) / 3)
    by (rewrite !str_len_app, !b64_length; change (str_len ".") with 1; lia).
  unfold MAX_CAPABILITY_PAYLOAD_BYTES, MAX_DER_SIGNATURE_BYTES, MAX_ENCODED_TOKEN_BYTES. split.
  - intros token. unfold encode_signed_token. rewrite ensure_bind_Ok, ok_or_bind_Ok. setoid_rewrite ensure_bind_Ok.
    unfold MAX_CAPABILITY_PAYLOAD_BYTES, MAX_DER_SIGNATURE_BYTES, MAX_ENCODED_TOKEN_BYTES. split.
    + intros (Hb & s & Hs & _ & [= <-]). bool_hyps. split_and!; [lia | lia | lia | by eexists | done].
    + intros (Hp & Hd & [s Hs] & ->). split; [lia|]. exists s. split; [done|]. split; [|done].
      apply Z.leb_le. rewrite Hlen. pose proof (Z.div_le_mono (4 * len payload + 2) (4 * 7607 + 2) 3).
      pose proof (Z.div_le_mono (4 * len der + 2) (4 * 72 + 2) 3).
      change ((4 * 7607 + 2) / 3) with 10143 in *. change ((4 * 72 + 2) / 3) with 96 in *. lia.
  - intros Hp Hd. rewrite Hlen, Hp, Hd. reflexivity.
Qed.
End facts.

(** ** Witnesses

    A concrete URL-safe base64 codec, six bits at a time. *)
Definition b64_chars : string := "ABCDEFGHIJKLMNOPQRSTUVWXYZabcdefghijklmnopqrstuvwxyz0123456789-_".
Definition sextet (a b c d e f : bool) : Ascii.ascii :=
  let bit (x : bool) := if x then 1%N else 0%N in
  let n := (bit a + 2 * (bit b + 2 * (bit c + 2 * (bit d + 2 * (bit e + 2 * bit f)))))%N in
  default "A"%char (bytes_of b64_chars !! N.to_nat n).
Definition unsextet (c : Ascii.ascii) : option (bool * bool * bool * bool * bool * bool) :=
  '(i, _) ← list_find (fun d => Ascii.eqb c d = true) (bytes_of b64_chars);
  Some (Nat.testbit i 0, Nat.testbit i 1, Nat.testbit i 2, Nat.testbit i 3, Nat.testbit i 4, Nat.testbit i 5).

Fixpoint enc64 (l : list Ascii.ascii) : list Ascii.ascii :=
  match l with
  | Ascii.Ascii a0 a1 a2 a3 a4 a5 a6 a7 :: Ascii.Ascii b0 b1 b2 b3 b4 b5 b6 b7
      :: Ascii.Ascii c0 c1 c2 c3 c4 c5 c6 c7 :: r =>
      sextet a0 a1 a2 a3 a4 a5 :: sextet a6 a7 b0 b1 b2 b3 :: sextet b4 b5 b6 b7 c0 c1
        :: sextet c2 c3 c4 c5 c6 c7 :: enc64 r
  | [Ascii.Ascii a0 a1 a2 a3 a4 a5 a6 a7; Ascii.Ascii b0 b1 b2 b3 b4 b5 b6 b7] =>
      [sextet a0 a1 a2 a3 a4 a5; sextet a6 a7 b0 b1 b2 b3; sextet b4 b5 b6 b7 false false]
  | [Ascii.Ascii a0 a1 a2 a3 a4 a5 a6 a7] => [sextet a0 a1 a2 a3 a4 a5; sextet a6 a7 false false false false]
  | [] => []
  end.

Fixpoint dec64 (l : list Ascii.ascii) : option (list Ascii.ascii) :=
  match l with
  | w :: x :: y :: z :: r =>
      '(a0, a1, a2, a3, a4, a5) ← unsextet w; '(a6, a7, b0, b1, b2, b3) ← unsextet x;
      '(b4, b5, b6, b7, c0, c1) ← unsextet y; '(c2, c3, c4, c5, c6, c7) ← unsextet z; rest ← dec64 r;
      Some (Ascii.Ascii a0 a1 a2 a3 a4 a5 a6 a7 :: Ascii.Ascii b0 b1 b2 b3 b4 b5 b6 b7
              :: Ascii.Ascii c0 c1 c2 c3 c4 c5 c6 c7 :: rest)
  | [w; x; y] =>
      '(a0, a1, a2, a3, a4, a5) ← unsextet w; '(a6, a7, b0, b1, b2, b3) ← unsextet x;
      '(b4, b5, b6, b7, _, _) ← unsextet y;
      Some [Ascii.Ascii a0 a1 a2 a3 a4 a5 a6 a7; Ascii.Ascii b0 b1 b2 b3 b4 b5 b6 b7]
  | [w; x] =>
      '(a0, a1, a2, a3, a4, a5) ← unsextet w; '(a6, a7, _, _, _, _) ← unsextet x;
      Some [Ascii.Ascii a0 a1 a2 a3 a4 a5 a6 a7]
  | [_] => None
  | [] => Some []
  end.

Definition sample_b64 (l : list Ascii.ascii) : string := String.string_of_list_ascii (enc64 l).
Definition sample_unb64 (s : string) : option (list Ascii.ascii) := dec64 (bytes_of s).

Lemma unsextet_sextet a b c d e f : unsextet (sextet a b c d e f) = Some (a, b, c, d, e, f).
Proof. by destruct a, b, c, d, e, f. Qed.

(** Induction three bytes at a time. *)
Lemma triple_ind {A} (P : list A -> Prop) :
  P [] -> (forall a, P [a]) -> (forall a b, P [a; b]) ->
  (forall a b c l, P l -> P (a :: b :: c :: l)) -> forall l, P l.
Proof.
  intros H0 H1 H2 H3. fix IH 1. intros [|a [|b [|c l]]]; [done | done | done|]. apply H3, IH.
Qed.

Lemma dec_enc64 l : dec64 (enc64 l) = Some l.
Proof.
  induction l as [|[] |[] [] |[] [] [] l IH] using triple_ind; cbn [enc64 dec64]; [done | | |];
    rewrite !unsextet_sextet; cbn; [done | done|]. by rewrite IH.
Qed.

Lemma sample_b64_roundtrip l : sample_unb64 (sample_b64 l) = Some l.
Proof. unfold sample_unb64, sample_b64. by rewrite bytes_of_list, dec_enc64. Qed.

Lemma sextet_alphabet a b c d e f :
  is_ascii_alphanumeric (sextet a b c d e f) || Ascii.eqb (sextet a b c d e f) "-"%char
  || Ascii.eqb (sextet a b c d e f) "_"%char = true.
Proof. by destruct a, b, c, d, e, f. Qed.

Lemma sample_b64_alphabet l :
  Forall (fun c => is_ascii_alphanumeric c || Ascii.eqb c "-"%char || Ascii.eqb c "_"%char = true) (bytes_of (sample_b64 l)).
Proof.
  unfold sample_b64. rewrite bytes_of_list.
  induction l as [|[] |[] [] |[] [] [] l IH] using triple_ind; cbn [enc64];
    repeat (constructor; [apply sextet_alphabet|]); [constructor | constructor | constructor | exact IH].
Qed.

Lemma enc64_length l : len (enc64 l) = (4 * len l + 2) / 3.
Proof.
  induction l as [|[] |[] [] |[] [] [] l IH] using triple_ind; [done | done | done|]. cbn [enc64].
  unfold len in *. cbn [length]. rewrite !Nat2Z.inj_succ, IH.
  replace (4 * Z.succ (Z.succ (Z.succ (Z.of_nat (length l)))) + 2) with (4 * Z.of_nat (length l) + 2 + 4 * 3) by lia.
  rewrite Z.div_add by lia. lia.
Qed.

Lemma sample_b64_length l : str_len (sample_b64 l) = (4 * len l + 2) / 3.
Proof. unfold sample_b64, str_len. rewrite <- length_bytes_of, bytes_of_list. apply enc64_length. Qed.

Definition sample_host (h : string) : CapabilityDestination Z := mkCapabilityDestination (Some h) None [443] Tls.
Definition sample_block : CapabilityDestination Z := mkCapabilityDestination None (Some 8) [443; 80] Tcp.
Definition sample_capability (ds : list (CapabilityDestination Z)) : Capability Z :=
  mkCapability _ "root-1" "session-1" "default" "generation-1" 1000000 1060000
    (String.string_of_list_ascii (repeat "a"%char 64)) ds.

Definition sample_canonical : Capability Z :=
  sample_capability [mkCapabilityDestination None (Some 8) [80; 443] Tcp; sample_host "example.com"].
Definition sample_text (d : CapabilityDestination Z) : string := default "" (d_host d).
Definition sample_cap_json (c : Capability Z) : option (list Ascii.ascii) :=
  if decide (c = sample_canonical) then Some (bytes_of "capability") else None.
Definition sample_cap_unjson (l : list Ascii.ascii) : option (Capability Z) :=
  if decide (l = bytes_of "capability") then Some sample_canonical else None.
Definition sample_der (l : list Ascii.ascii) : option Z := if decide (l = []) then None else Some (len l).
Definition sample_verify (key : Z) (payload : list Ascii.ascii) (signature : Z) : bool := signature =? key.

Lemma sample_cap_roundtrip c l : sample_cap_json c = Some l -> sample_cap_unjson l = Some c.
Proof. unfold sample_cap_json, sample_cap_unjson. intros H. case_decide as Hc; [|done]. injection H as <-. by rewrite Hc. Qed.

Definition sample_request : Capability Z := sample_capability [sample_host "EXAMPLE.com"; sample_block].
Definition sample_signature : list Ascii.ascii := bytes_of "der".
Definition sample_token : string := sample_b64 (bytes_of "capability") +:+ "." +:+ sample_b64 sample_signature.
Definition sample_verified : VerifiedCapability Z :=
  mkVerifiedCapability _ sample_canonical [CidrRule 8 80; CidrRule 8 443; HostRule "example.com" 443].

Lemma minted_token_verifies_witness :
  exists ds policy, mints sample_idna sample_text sample_cap_json sample_request ds (bytes_of "capability")
    /\ ValidatedPolicy_new sample_idna ds = Ok policy
    /\ verify_token sample_idna sample_text sample_cap_json sample_cap_unjson sample_unb64 sample_der sample_verify
         sample_token 3 1000000 = Ok (mkVerifiedCapability _ (with_destinations ds sample_request) policy).
Proof.
  apply (minted_token_verifies sample_idna sample_text sample_cap_json sample_cap_unjson sample_b64 sample_unb64
           sample_der sample_verify sample_idna_std3 sample_idna_length sample_idna_stable sample_b64_roundtrip
           sample_b64_alphabet sample_cap_roundtrip sample_request (bytes_of "capability") sample_signature sample_token
           3 3 1000000); vm_compute; (reflexivity || congruence).
Defined.

Lemma verified_token_is_canonical_witness :
  expires_at_ms (capability sample_verified) <= issued_at_ms (capability sample_verified) + MAX_GENERATION_LIFETIME_MS
  /\ ValidatedPolicy_new sample_idna (destinations (capability sample_verified)) = Ok (v_policy sample_verified).
Proof.
  destruct (verified_token_is_canonical sample_idna sample_text sample_cap_json sample_cap_unjson sample_unb64
    sample_der sample_verify sample_cap_roundtrip sample_token 3 1000000 sample_verified)
    as (payload & der & signature & _ & _ & _ & _ & _ & _ & _ & _ & H); [vm_compute; reflexivity | exact H].
Defined.

Lemma encode_signed_token_exact_witness :
  encode_signed_token sample_b64 sample_der (bytes_of "capability") sample_signature = Ok sample_token.
Proof.
  apply (encode_signed_token_exact sample_b64 sample_der sample_b64_length (bytes_of "capability") sample_signature).
  split_and!; [vm_compute; reflexivity | vm_compute; congruence | vm_compute; congruence | by eexists | reflexivity].
Defined.
