(* ===== verification/TlsHello.v ===== *)
(** * hand-egress-gateway: the visible ClientHello

    Models crates/hand-egress-gateway/src/tls.rs: the bounds-checked cursor, the ClientHello and server-name
    parsers, and the reader that collects handshake records from the client while keeping the exact bytes
    to forward. The stream is the list of bytes the client will send, followed by silence (a timeout) or by
    the end of the connection. *)
From S2P Require Import Prelude Connector EgressPolicy.

Definition MAX_CLIENT_HELLO_BYTES : Z := 64 * 1024.
Definition HANDSHAKE_CONTENT_TYPE : Z := 22.
Definition CLIENT_HELLO_TYPE : Z := 1.
Definition SERVER_NAME_EXTENSION : Z := 0.
Definition ECH_EXTENSION : Z := 65037.

Inductive TlsError :=
  | Timeout | Truncated | TlsTooLarge | NotClientHello | Malformed | MissingSni | EchUnsupported
  | TlsPolicy (e : PolicyError).

(** ** The cursor *)
Record Cursor := mkCursor { cur_bytes : list Ascii.ascii; position : nat }.

Definition Cursor_new (bytes : list Ascii.ascii) : Cursor := mkCursor bytes 0.

Definition remaining (c : Cursor) : Z := saturating_sub (len (cur_bytes c)) (Z.of_nat (position c)).

Notation Parse := (M Cursor TlsError).

(** [self.bytes.get(self.position..end)] is [None] when [end] is past the slice. *)
Definition take_bytes (n : Z) : Parse (list Ascii.ascii) :=
  c ← get;
  end_ ← lift (ok_or Malformed (checked_add (Z.of_nat (position c)) n));
  _ ← lift (ensure (end_ <=? len (cur_bytes c)) Truncated);
  _ ← put (mkCursor (cur_bytes c) (Z.to_nat end_));
  mret (take (Z.to_nat n) (drop (position c) (cur_bytes c))).

Definition byte_at (l : list Ascii.ascii) (i : nat) : Z := match l !! i with Some b => byte_val b | None => 0 end.

Definition u8 : Parse Z := bytes ← take_bytes 1; mret (byte_at bytes 0).
Definition u16 : Parse Z := bytes ← take_bytes 2; mret (byte_at bytes 0 * 256 + byte_at bytes 1).
Definition u24 : Parse Z :=
  bytes ← take_bytes 3;
  mret (Z.lor (Z.lor (Z.shiftl (byte_at bytes 0) 16) (Z.shiftl (byte_at bytes 1) 8)) (byte_at bytes 2)).

Section tls.
Context (normalize : string -> result PolicyError string).

(** The [while list.remaining() > 0] loop of [parse_sni]; every turn consumes three bytes or more. *)
Fixpoint sni_loop (fuel : nat) (host : option string) : Parse (option string) :=
  match fuel with
  | O => throw Malformed
  | S fuel =>
      list ← get;
      if 0 <? remaining list then
        kind ← u8;
        n ← u16;
        value ← take_bytes n;
        if kind =? 0 then
          match host with
          | Some _ => throw Malformed
          | None =>
              value ← lift (ok_or Malformed (from_utf8 value));
              host ← lift (map_err TlsPolicy (normalize value));
              sni_loop fuel (Some host)
          end
        else sni_loop fuel host
      else mret host
  end.

Definition parse_sni_body : Parse (list Ascii.ascii) :=
  list_len ← u16;
  list ← take_bytes list_len;
  cursor ← get;
  if negb (remaining cursor =? 0) then throw Malformed else mret list.

Definition parse_sni (bytes : list Ascii.ascii) : result TlsError string :=
  list ← (parse_sni_body (Cursor_new bytes)).1;
  host ← (sni_loop (S (length list)) None (Cursor_new list)).1;
  ok_or MissingSni host.

(** The [while extensions.remaining() > 0] loop; every turn consumes four bytes or more. *)
Fixpoint ext_loop (fuel : nat) (sni : option string) : Parse (option string) :=
  match fuel with
  | O => throw Malformed
  | S fuel =>
      extensions ← get;
      if 0 <? remaining extensions then
        kind ← u16;
        data_len ← u16;
        data ← take_bytes data_len;
        if kind =? ECH_EXTENSION then throw EchUnsupported
        else if kind =? SERVER_NAME_EXTENSION then
          match sni with
          | Some _ => throw Malformed
          | None => name ← lift (parse_sni data); ext_loop fuel (Some name)
          end
        else ext_loop fuel sni
      else mret sni
  end.

(** Up to the extension block. *)
Definition parse_hello_body : Parse (list Ascii.ascii) :=
  kind ← u8;
  _ ← lift (ensure (kind =? CLIENT_HELLO_TYPE) NotClientHello);
  declared ← u24;
  cursor ← get;
  _ ← lift (ensure (declared =? remaining cursor) Truncated);
  _ ← take_bytes (2 + 32);
  session ← u8;
  _ ← take_bytes session;
  ciphers ← u16;
  _ ← lift (ensure (negb ((ciphers =? 0) || negb (ciphers mod 2 =? 0))) Malformed);
  _ ← take_bytes ciphers;
  compression ← u8;
  _ ← take_bytes compression;
  extensions_len ← u16;
  extensions ← take_bytes extensions_len;
  cursor ← get;
  _ ← lift (ensure (remaining cursor =? 0) Malformed);
  mret extensions.

Definition parse_client_hello (bytes : list Ascii.ascii) : result TlsError string :=
  extensions ← (parse_hello_body (Cursor_new bytes)).1;
  sni ← (ext_loop (S (length extensions)) None (Cursor_new extensions)).1;
  ok_or MissingSni sni.

(** ** Reading the records *)
Record ClientStream := mkClientStream { incoming : list Ascii.ascii; goes_silent : bool }.

Notation Read := (M ClientStream TlsError).

Definition read_exact_timeout (n : Z) : Read (list Ascii.ascii) :=
  s ← get;
  if n <=? len (incoming s) then
    _ ← put (mkClientStream (drop (Z.to_nat n) (incoming s)) (goes_silent s));
    mret (take (Z.to_nat n) (incoming s))
  else
    _ ← put (mkClientStream [] (goes_silent s));
    throw (if goes_silent s then Timeout else Truncated).

(** [4 + ((handshake[1] as usize) << 16) + ((handshake[2] as usize) << 8) + handshake[3] as usize] *)
Definition wanted_bytes (handshake : list Ascii.ascii) : Z :=
  4 + Z.shiftl (byte_at handshake 1) 16 + Z.shiftl (byte_at handshake 2) 8 + byte_at handshake 3.

(** [None] is the fuel running out, which never happens ([client_hello_is_forwarded_exactly]). *)
Fixpoint record_loop (fuel : nat) (raw handshake : list Ascii.ascii)
    : Read (option (list Ascii.ascii * list Ascii.ascii * Z)) :=
  match fuel with
  | O => mret None
  | S fuel =>
      header ← read_exact_timeout 5;
      if negb (byte_at header 0 =? HANDSHAKE_CONTENT_TYPE) then throw NotClientHello
      else
        let length := byte_at header 3 * 256 + byte_at header 4 in
        if (length =? 0) || (MAX_CLIENT_HELLO_BYTES <? len raw + 5 + length) then throw TlsTooLarge
        else
          record ← read_exact_timeout length;
          let raw := raw ++ header ++ record in
          let handshake := handshake ++ record in
          if 4 <=? len handshake then
            if negb (byte_at handshake 0 =? CLIENT_HELLO_TYPE) then throw NotClientHello
            else
              let wanted := wanted_bytes handshake in
              if MAX_CLIENT_HELLO_BYTES <? wanted then throw TlsTooLarge
              else if wanted <=? len handshake then mret (Some (raw, handshake, wanted))
              else record_loop fuel raw handshake
          else record_loop fuel raw handshake
  end.

(** A record is at least six bytes, so the bound is reached within this many of them. *)
Definition RECORD_FUEL : nat := Z.to_nat (MAX_CLIENT_HELLO_BYTES / 6 + 2).

Definition read_client_hello : Read (option (list Ascii.ascii * string)) :=
  collected ← record_loop RECORD_FUEL [] [];
  match collected with
  | None => mret None
  | Some (raw, handshake, wanted) =>
      sni ← lift (parse_client_hello (take (Z.to_nat wanted) handshake));
      mret (Some (raw, sni))
  end.
End tls.

(** ** The reference grammar of RFC 8446 (section 4.1.2) and RFC 6066 (section 3) *)
Definition byte_of (n : Z) : Ascii.ascii := Ascii.ascii_of_N (Z.to_N n).
Definition be16 (n : Z) : list Ascii.ascii := [byte_of (n / 256); byte_of (n mod 256)].
Definition be24 (n : Z) : list Ascii.ascii := [byte_of (n / 65536); byte_of (n / 256 mod 256); byte_of (n mod 256)].
Definition vec8 (l : list Ascii.ascii) : list Ascii.ascii := byte_of (len l) :: l.
Definition vec16 (l : list Ascii.ascii) : list Ascii.ascii := be16 (len l) ++ l.

Record Hello := mkHello {
  h_version_random : list Ascii.ascii;
  h_session : list Ascii.ascii;
  h_ciphers : list Ascii.ascii;
  h_compression : list Ascii.ascii;
  h_extensions : list (Z * list Ascii.ascii) }.

Definition encode_extension (e : Z * list Ascii.ascii) : list Ascii.ascii := be16 e.1 ++ vec16 e.2.
Definition encode_body (h : Hello) : list Ascii.ascii :=
  h_version_random h ++ vec8 (h_session h) ++ vec16 (h_ciphers h) ++ vec8 (h_compression h)
  ++ vec16 (concat (map encode_extension (h_extensions h))).
Definition encode_hello (h : Hello) : list Ascii.ascii :=
  byte_of CLIENT_HELLO_TYPE :: be24 (len (encode_body h)) ++ encode_body h.

Definition encode_name (n : Z * list Ascii.ascii) : list Ascii.ascii := byte_of n.1 :: vec16 n.2.
Definition encode_names (ns : list (Z * list Ascii.ascii)) : list Ascii.ascii := vec16 (concat (map encode_name ns)).

Definition u8_bounded (l : list Ascii.ascii) : Prop := len l < 256.
Definition u16_bounded (l : list Ascii.ascii) : Prop := len l < 65536.

Definition extension_ok (e : Z * list Ascii.ascii) : Prop := 0 <= e.1 < 65536 /\ u16_bounded e.2.
Definition name_ok (n : Z * list Ascii.ascii) : Prop := 0 <= n.1 < 256 /\ u16_bounded n.2.

Definition hello_ok (h : Hello) : Prop :=
  len (h_version_random h) = 34 /\ u8_bounded (h_session h)
  /\ u16_bounded (h_ciphers h) /\ len (h_ciphers h) <> 0 /\ len (h_ciphers h) mod 2 = 0
  /\ u8_bounded (h_compression h)
  /\ Forall extension_ok (h_extensions h) /\ u16_bounded (concat (map encode_extension (h_extensions h)))
  /\ len (encode_body h) < 16777216.

(** ** Bytes and big-endian numbers *)
Lemma byte_of_val b : byte_of (byte_val b) = b.
Proof. unfold byte_of, byte_val. by rewrite N2Z.id, Ascii.ascii_N_embedding. Qed.

Lemma byte_val_of n : 0 <= n < 256 -> byte_val (byte_of n) = n.
Proof. intros H. unfold byte_of. rewrite byte_val_of_N; lia. Qed.

Lemma be16_iff b0 b1 n : byte_val b0 * 256 + byte_val b1 = n <-> 0 <= n < 65536 /\ [b0; b1] = be16 n.
Proof.
  pose proof (byte_val_range b0). pose proof (byte_val_range b1). unfold be16. split.
  - intros <-. split; [lia|]. rewrite Z.div_add_l, Z.div_small, Z.add_0_r by lia.
    replace (byte_val b0 * 256 + byte_val b1) with (byte_val b1 + byte_val b0 * 256) by lia.
    rewrite Z.mod_add, Z.mod_small by lia. by rewrite !byte_of_val.
  - intros [Hn [= -> ->]]. assert (0 <= n / 256 < 256) by (split; [apply Z.div_pos | apply Z.div_lt_upper_bound]; lia).
    pose proof (Z.mod_pos_bound n 256 ltac:(lia)). rewrite !byte_val_of by lia. pose proof (Z.div_mod n 256). lia.
Qed.

Lemma be16_val n : 0 <= n < 65536 -> byte_val (byte_of (n / 256)) * 256 + byte_val (byte_of (n mod 256)) = n.
Proof. intros H. by apply be16_iff. Qed.

Lemma lor_bytes a b c :
  0 <= a < 256 -> 0 <= b < 256 -> 0 <= c < 256 ->
  Z.lor (Z.lor (Z.shiftl a 16) (Z.shiftl b 8)) c = a * 65536 + b * 256 + c.
Proof.
  intros Ha Hb Hc.
  assert (H : forall x y n, 0 <= y < 2 ^ n -> 0 <= n -> Z.lor (Z.shiftl x n) y = x * 2 ^ n + y).
  { intros x y n Hy Hn. rewrite Z.shiftl_mul_pow2 by done. rewrite Z.lor_comm.
    pose proof (Z.add_lor_land y (x * 2 ^ n)) as Hadd.
    assert (Hl : Z.land y (x * 2 ^ n) = 0).
    { apply Z.bits_inj'. intros i Hi. rewrite Z.land_spec, Z.bits_0.
      destruct (Z.lt_ge_cases i n); [rewrite Z.mul_pow2_bits_low by lia; apply andb_false_r|].
      destruct (Z.eq_dec y 0) as [->|]; [by rewrite Z.bits_0|].
      rewrite Z.bits_above_log2; [done | lia|]. apply Z.log2_lt_pow2; [lia|].
      eapply Z.lt_le_trans; [apply Hy | by apply Z.pow_le_mono_r]. }
    rewrite Hl in Hadd. lia. }
  replace (Z.lor (Z.shiftl a 16) (Z.shiftl b 8)) with (Z.shiftl (a * 256 + b) 8).
  - rewrite H by lia. lia.
  - rewrite (H a) by (try (rewrite Z.shiftl_mul_pow2 by lia); lia). rewrite !Z.shiftl_mul_pow2 by lia. lia.
Qed.

Lemma be24_iff b0 b1 b2 n :
  Z.lor (Z.lor (Z.shiftl (byte_val b0) 16) (Z.shiftl (byte_val b1) 8)) (byte_val b2) = n
  <-> 0 <= n < 16777216 /\ [b0; b1; b2] = be24 n.
Proof.
  pose proof (byte_val_range b0) as H0. pose proof (byte_val_range b1) as H1. pose proof (byte_val_range b2) as H2.
  rewrite lor_bytes by done. unfold be24. split.
  - intros <-. split; [lia|].
    assert (E1 : (byte_val b0 * 65536 + byte_val b1 * 256 + byte_val b2) / 65536 = byte_val b0)
      by (symmetry; apply (Z.div_unique_pos _ _ _ (byte_val b1 * 256 + byte_val b2)); lia).
    assert (E2 : (byte_val b0 * 65536 + byte_val b1 * 256 + byte_val b2) / 256 = byte_val b0 * 256 + byte_val b1)
      by (symmetry; apply (Z.div_unique_pos _ _ _ (byte_val b2)); lia).
    assert (E3 : (byte_val b0 * 65536 + byte_val b1 * 256 + byte_val b2) mod 256 = byte_val b2)
      by (symmetry; apply (Z.mod_unique_pos _ _ (byte_val b0 * 256 + byte_val b1)); lia).
    assert (E4 : (byte_val b0 * 256 + byte_val b1) mod 256 = byte_val b1)
      by (symmetry; apply (Z.mod_unique_pos _ _ (byte_val b0)); lia).
    by rewrite E1, E2, E3, E4, !byte_of_val.
  - intros [Hn [= -> -> ->]].
    assert (0 <= n / 65536 < 256) by (split; [apply Z.div_pos | apply Z.div_lt_upper_bound]; lia).
    pose proof (Z.mod_pos_bound n 256 ltac:(lia)). pose proof (Z.mod_pos_bound (n / 256) 256 ltac:(lia)).
    rewrite !byte_val_of by lia. pose proof (Z.div_mod n 256 ltac:(lia)). pose proof (Z.div_mod (n / 256) 256 ltac:(lia)).
    rewrite Z.div_div in * by lia. change (256 * 256) with 65536 in *. lia.
Qed.

(** ** The cursor reads a list *)
Definition cursor_at (l : list Ascii.ascii) (c : Cursor) : Prop :=
  exists consumed, c = mkCursor (consumed ++ l) (length consumed) /\ len (consumed ++ l) <= U64_MAX.

Definition advance (n : Z) (c : Cursor) : Cursor := mkCursor (cur_bytes c) (position c + Z.to_nat n).

Lemma cursor_at_new l : len l <= U64_MAX -> cursor_at l (Cursor_new l).
Proof. intros H. by exists []. Qed.

Lemma cursor_at_advance v l n c : cursor_at (v ++ l) c -> len v = n -> cursor_at l (advance n c).
Proof.
  intros (consumed & -> & Hb) <-. exists (consumed ++ v). unfold advance, len. cbn.
  rewrite Nat2Z.id, length_app, <- app_assoc. done.
Qed.

Lemma remaining_at l c : cursor_at l c -> remaining c = len l.
Proof.
  intros (consumed & -> & _). unfold remaining, saturating_sub, len. cbn. rewrite length_app. lia.
Qed.

Lemma len_app {A} (l k : list A) : len (l ++ k) = len l + len k.
Proof. unfold len. rewrite length_app. lia. Qed.

Lemma len_cons {A} (x : A) l : len (x :: l) = len l + 1.
Proof. unfold len. cbn [length]. lia. Qed.

Lemma take_bind_Ok {A} n (k : list Ascii.ascii -> M Cursor TlsError A) l c a :
  cursor_at l c -> 0 <= n ->
  ((take_bytes n ≫= k) c).1 = Ok a <->
  exists v l', l = v ++ l' /\ len v = n /\ cursor_at l' (advance n c) /\ (k v (advance n c)).1 = Ok a.
Proof.
  intros Hc Hn. pose proof Hc as (consumed & -> & Hb). unfold take_bytes.
  rewrite !M_bind_run, get_run, !M_bind_run, lift_run. cbn [cur_bytes position]. rewrite len_app in Hb.
  pose proof (len_nonneg consumed) as Hc0. destruct (Z.leb_spec n (len l)) as [Hle|Hgt].
  - assert (Hadd : checked_add (Z.of_nat (length consumed)) n = Some (Z.of_nat (length consumed) + n))
      by (apply checked_add_Some; unfold len in *; lia).
    rewrite Hadd. cbn [ok_or]. rewrite !M_bind_run, lift_run. unfold ensure.
    rewrite (proj2 (Z.leb_le _ _)) by (unfold len in *; rewrite ?length_app; lia).
    cbn. rewrite drop_app_length. rewrite Z2Nat.inj_add, Nat2Z.id by lia.
    assert (Hs : l = take (Z.to_nat n) l ++ drop (Z.to_nat n) l) by (by rewrite take_drop).
    assert (Hl : len (take (Z.to_nat n) l) = n) by (unfold len in *; rewrite length_take; lia).
    split.
    + intros H. exists (take (Z.to_nat n) l), (drop (Z.to_nat n) l). split_and!; try done.
      eapply cursor_at_advance; [by rewrite take_drop | done].
    + intros (v & l' & -> & Hv & _ & H). unfold len in Hv. rewrite take_app_length' by lia. exact H.
  - split.
    + intros H. exfalso. revert H. destruct (checked_add _ _) as [e|] eqn:Hadd; [|done].
      apply checked_add_Some in Hadd as [-> _]. cbn [ok_or]. rewrite !M_bind_run, lift_run. unfold ensure.
      rewrite (proj2 (Z.leb_gt _ _)) by (unfold len in *; rewrite ?length_app; lia). done.
    + intros (v & l' & -> & Hv & _). rewrite len_app in Hgt. pose proof (len_nonneg l'). lia.
Qed.

Lemma take1 (v : list Ascii.ascii) : len v = 1 -> exists b, v = [b].
Proof. unfold len. destruct v as [|b [|]]; cbn; intros; try lia. by eexists. Qed.
Lemma take2 (v : list Ascii.ascii) : len v = 2 -> exists b0 b1, v = [b0; b1].
Proof. unfold len. destruct v as [|b0 [|b1 [|]]]; cbn; intros; try lia. by eexists _, _. Qed.
Lemma take3 (v : list Ascii.ascii) : len v = 3 -> exists b0 b1 b2, v = [b0; b1; b2].
Proof. unfold len. destruct v as [|b0 [|b1 [|b2 [|]]]]; cbn; intros; try lia. by eexists _, _, _. Qed.

Lemma M_bind_assoc {S E A B C} (m : M S E A) (f : A -> M S E B) (g : B -> M S E C) s :
  ((m ≫= f) ≫= g) s = (m ≫= (fun a => f a ≫= g)) s.
Proof. rewrite !M_bind_run. by destruct (m s) as [[a|e] s']. Qed.

Lemma u8_bind_Ok {A} (k : Z -> M Cursor TlsError A) l c a :
  cursor_at l c ->
  ((u8 ≫= k) c).1 = Ok a <->
  exists n l', l = byte_of n :: l' /\ 0 <= n < 256 /\ cursor_at l' (advance 1 c) /\ (k n (advance 1 c)).1 = Ok a.
Proof.
  intros Hc. unfold u8. rewrite M_bind_assoc, (take_bind_Ok _ _ l) by (done || lia). split.
  - intros (v & l' & -> & (b & ->)%take1 & Hc' & H). exists (byte_val b), l'. rewrite byte_of_val. by pose proof (byte_val_range b).
  - intros (n & l' & -> & Hn & Hc' & H). exists [byte_of n], l'. split_and!; [done | done | done|].
    rewrite M_bind_run, M_ret_run. cbn. by rewrite byte_val_of.
Qed.

Lemma u16_bind_Ok {A} (k : Z -> M Cursor TlsError A) l c a :
  cursor_at l c ->
  ((u16 ≫= k) c).1 = Ok a <->
  exists n l', l = be16 n ++ l' /\ 0 <= n < 65536 /\ cursor_at l' (advance 2 c) /\ (k n (advance 2 c)).1 = Ok a.
Proof.
  intros Hc. unfold u16. rewrite M_bind_assoc, (take_bind_Ok _ _ l) by (done || lia). split.
  - intros (v & l' & -> & (b0 & b1 & ->)%take2 & Hc' & H). exists (byte_val b0 * 256 + byte_val b1), l'.
    destruct (proj1 (be16_iff b0 b1 _) eq_refl) as [Hr <-]. done.
  - intros (n & l' & -> & Hn & Hc' & H). exists (be16 n), l'. split_and!; [done | done | done|].
    rewrite M_bind_run, M_ret_run. cbn. by rewrite be16_val.
Qed.

Lemma u24_bind_Ok {A} (k : Z -> M Cursor TlsError A) l c a :
  cursor_at l c ->
  ((u24 ≫= k) c).1 = Ok a <->
  exists n l', l = be24 n ++ l' /\ 0 <= n < 16777216 /\ cursor_at l' (advance 3 c) /\ (k n (advance 3 c)).1 = Ok a.
Proof.
  intros Hc. unfold u24. rewrite M_bind_assoc, (take_bind_Ok _ _ l) by (done || lia). split.
  - intros (v & l' & -> & (b0 & b1 & b2 & ->)%take3 & Hc' & H). eexists _, l'.
    destruct (proj1 (be24_iff b0 b1 b2 _) eq_refl) as [Hr <-]. split_and!; [done | apply Hr | apply Hr | done | exact H].
  - intros (n & l' & -> & Hn & Hc' & H). exists (be24 n), l'. split_and!; [done | done | done|].
    rewrite M_bind_run, M_ret_run. cbn [byte_at be24 lookup list_lookup].
    by rewrite (proj2 (be24_iff _ _ _ n) (conj Hn eq_refl)).
Qed.

(** A length-prefixed vector. *)
Lemma vec16_bind_Ok {A} (k : list Ascii.ascii -> M Cursor TlsError A) l c a :
  cursor_at l c ->
  ((n ← u16; take_bytes n ≫= k) c).1 = Ok a <->
  exists v l', l = vec16 v ++ l' /\ u16_bounded v /\ cursor_at l' (advance (len v) (advance 2 c))
    /\ (k v (advance (len v) (advance 2 c))).1 = Ok a.
Proof.
  intros Hc. rewrite (u16_bind_Ok _ l) by done. unfold vec16, u16_bounded. split.
  - intros (n & l' & -> & Hn & Hc' & H). apply (take_bind_Ok _ _ l') in H as (v & l'' & -> & <- & Hc'' & H); [|done|lia].
    exists v, l''. rewrite <- app_assoc. split_and!; [done | lia | done | done].
  - intros (v & l' & -> & Hv & Hc' & H). exists (len v), (v ++ l'). pose proof (len_nonneg v).
    assert (Hc2 : cursor_at (v ++ l') (advance 2 c)) by (rewrite <- app_assoc in Hc; by eapply cursor_at_advance).
    rewrite <- app_assoc. split_and!; [done | lia | lia | done|].
    apply (take_bind_Ok _ _ (v ++ l')); [done | lia|]. by exists v, l'.
Qed.

Lemma get_bind_run {S E A} (k : S -> M S E A) s : ((get : M S E S) ≫= k) s = k s s.
Proof. done. Qed.

Lemma lift_bind_Ok {S E A B} (r : result E A) (k : A -> M S E B) s b :
  ((lift r ≫= k) s).1 = Ok b <-> exists a, r = Ok a /\ (k a s).1 = Ok b.
Proof. rewrite M_bind_run, lift_run. destruct r; naive_solver. Qed.

Lemma len_zero {A} (l : list A) : len l = 0 <-> l = [].
Proof. unfold len. destruct l; cbn; split; intros; (done || lia). Qed.

(** ** The loops *)
Section once.
Context {A : Type} (wanted : A -> bool) (value : A -> option string).

(** Keep the value of the only wanted element; a second one is an error. *)
Fixpoint fold_once (acc : option string) (l : list A) : option (option string) :=
  match l with
  | [] => Some acc
  | x :: l =>
      if wanted x then
        match acc with
        | Some _ => None
        | None => match value x with Some v => fold_once (Some v) l | None => None end
        end
      else fold_once acc l
  end.

Lemma fold_once_after h l r : fold_once (Some h) l = Some r <-> r = Some h /\ filter (fun x => wanted x = true) l = [].
Proof.
  induction l as [|x l IH]; cbn [fold_once]; [cbn; naive_solver|]. destruct (wanted x) eqn:E.
  - rewrite filter_cons_True by done. naive_solver.
  - rewrite filter_cons_False by congruence. exact IH.
Qed.

Lemma fold_once_Some l h :
  fold_once None l = Some (Some h) <-> exists x, filter (fun x => wanted x = true) l = [x] /\ value x = Some h.
Proof.
  induction l as [|x l IH]; cbn [fold_once]; [cbn; naive_solver|]. destruct (wanted x) eqn:E.
  - rewrite filter_cons_True by done. destruct (value x) as [v|] eqn:Ev.
    + rewrite fold_once_after. split; [intros [[= ->] ->]; eauto|].
      intros (y & [= -> ->] & Hy). split; [congruence | done].
    + split; [done|]. intros (y & [= -> _] & Hy). congruence.
  - rewrite filter_cons_False by congruence. exact IH.
Qed.
End once.

Section facts.
Context (normalize : string -> result PolicyError string).

Definition name_value (n : Z * list Ascii.ascii) : option string :=
  match from_utf8 n.2 with
  | Some s => match normalize s with Ok h => Some h | Err _ => None end
  | None => None
  end.
Definition is_host_name (n : Z * list Ascii.ascii) : bool := n.1 =? 0.

Lemma vec16_length v : length (vec16 v) = S (S (length v)).
Proof. done. Qed.

(** One entry of a name list, and one extension. *)
Lemma name_bind_Ok {A} (k : Z -> list Ascii.ascii -> M Cursor TlsError A) l c a :
  cursor_at l c ->
  ((kind ← u8; n ← u16; value ← take_bytes n; k kind value) c).1 = Ok a <->
  exists n v l', l = encode_name (n, v) ++ l' /\ name_ok (n, v)
    /\ cursor_at l' (advance (len v) (advance 2 (advance 1 c)))
    /\ (k n v (advance (len v) (advance 2 (advance 1 c)))).1 = Ok a.
Proof.
  intros Hc. rewrite (u8_bind_Ok _ l) by done. split.
  - intros (n & l1 & -> & Hn & Hc1 & H). apply (vec16_bind_Ok _ l1) in H as (v & l2 & -> & Hv & Hc2 & H); [|done].
    by exists n, v, l2.
  - intros (n & v & l' & -> & [Hn Hv] & Hc' & H). exists n, (vec16 v ++ l').
    assert (Hc1 : cursor_at (vec16 v ++ l') (advance 1 c)) by (by eapply (cursor_at_advance [byte_of n])).
    split_and!; [done | apply Hn | apply Hn | done|]. apply (vec16_bind_Ok _ (vec16 v ++ l')); [done|]. by exists v, l'.
Qed.

Lemma extension_bind_Ok {A} (k : Z -> list Ascii.ascii -> M Cursor TlsError A) l c a :
  cursor_at l c ->
  ((kind ← u16; n ← u16; value ← take_bytes n; k kind value) c).1 = Ok a <->
  exists n v l', l = encode_extension (n, v) ++ l' /\ extension_ok (n, v)
    /\ cursor_at l' (advance (len v) (advance 2 (advance 2 c)))
    /\ (k n v (advance (len v) (advance 2 (advance 2 c)))).1 = Ok a.
Proof.
  intros Hc. rewrite (u16_bind_Ok _ l) by done. split.
  - intros (n & l1 & -> & Hn & Hc1 & H). apply (vec16_bind_Ok _ l1) in H as (v & l2 & -> & Hv & Hc2 & H); [|done].
    by exists n, v, l2.
  - intros (n & v & l' & -> & [Hn Hv] & Hc' & H). exists n, (vec16 v ++ l').
    assert (Hc1 : cursor_at (vec16 v ++ l') (advance 2 c)) by (by eapply (cursor_at_advance (be16 n))).
    split_and!; [done | apply Hn | apply Hn | done|]. apply (vec16_bind_Ok _ (vec16 v ++ l')); [done|]. by exists v, l'.
Qed.

Lemma at_end l c : cursor_at l c -> (0 <? remaining c) = false -> l = [].
Proof. intros Hc H. rewrite (remaining_at l) in H by done. bool_hyps. apply len_zero. pose proof (len_nonneg l). lia. Qed.

Lemma sni_loop_Ok fuel host l c r :
  cursor_at l c -> (length l < fuel)%nat ->
  (sni_loop normalize fuel host c).1 = Ok r <->
  exists ns, l = concat (map encode_name ns) /\ Forall name_ok ns
    /\ fold_once is_host_name name_value host ns = Some r.
Proof.
  revert host l c. induction fuel as [|fuel IH]; intros host l c Hc Hf; [lia|]. cbn [sni_loop].
  rewrite get_bind_run. destruct (0 <? remaining c) eqn:Hrem.
  2: { apply (at_end l) in Hrem as ->; [|done]. rewrite M_ret_run. split; [intros [= <-]; by exists []|].
       intros ([|n ns] & Hl & _ & Hr); [by injection Hr as <- | done]. }
  rewrite (name_bind_Ok _ l) by done. split.
  - intros (n & v & l' & -> & Hok & Hc' & H). rewrite length_app in Hf. cbn in Hf.
    assert (Hns : exists ns, l' = concat (map encode_name ns) /\ Forall name_ok ns
      /\ fold_once is_host_name name_value host ((n, v) :: ns) = Some r).
    { cbn [fold_once]. unfold is_host_name at 1. cbn [fst]. destruct (n =? 0); [|apply (IH _ l') in H; [done | done | lia]].
      destruct host as [h|]; [done|]. apply lift_bind_Ok in H as (s & Hs & H). apply ok_or_Ok in Hs.
      apply lift_bind_Ok in H as (h & Hh & H). apply map_err_Ok in Hh. unfold name_value at 1. cbn [snd].
      rewrite Hs, Hh. apply (IH _ l') in H; [done | done | lia]. }
    destruct Hns as (ns & -> & Hns & Hr). exists ((n, v) :: ns). split_and!; [done | by constructor | done].
  - intros ([|[n v] ns] & -> & Hns & Hr).
    { rewrite (remaining_at []) in Hrem by done. done. }
    apply Forall_cons in Hns as [Hok Hns]. exists n, v, (concat (map encode_name ns)).
    change (concat (map encode_name ((n, v) :: ns))) with (encode_name (n, v) ++ concat (map encode_name ns)) in *.
    assert (Hc' : cursor_at (concat (map encode_name ns)) (advance (len v) (advance 2 (advance 1 c)))).
    { apply (cursor_at_advance v); [|done]. apply (cursor_at_advance (be16 (len v))); [|done].
      by apply (cursor_at_advance [byte_of n]). }
    split_and!; [done | done | done|]. rewrite length_app in Hf. cbn in Hf.
    cbn [fold_once] in Hr. unfold is_host_name at 1 in Hr. cbn [fst] in Hr.
    destruct (n =? 0); [|apply (IH _ (concat (map encode_name ns))); [done | lia | by exists ns]].
    destruct host as [h|]; [done|]. unfold name_value at 1 in Hr. cbn [snd] in Hr.
    destruct (from_utf8 v) as [s|]; [|done]. destruct (normalize s) as [h|e] eqn:Eh; [|done].
    apply lift_bind_Ok. exists s. split; [done|]. apply lift_bind_Ok. exists h. rewrite Eh. split; [done|].
    apply (IH _ (concat (map encode_name ns))); [done | lia | by exists ns].
Qed.

(** A server-name extension that names exactly one host, in normal form [host]. *)
Definition names_host (data : list Ascii.ascii) (host : string) : Prop :=
  exists ns, data = encode_names ns /\ Forall name_ok ns /\ u16_bounded (concat (map encode_name ns))
    /\ exists n, filter (fun n => is_host_name n = true) ns = [n] /\ name_value n = Some host.

Lemma sni_run_Ok list host :
  len list <= U64_MAX ->
  (exists o, (sni_loop normalize (S (length list)) None (Cursor_new list)).1 = Ok o /\ ok_or MissingSni o = Ok host)
  <-> exists ns, list = concat (map encode_name ns) /\ Forall name_ok ns
        /\ exists n, filter (fun n => is_host_name n = true) ns = [n] /\ name_value n = Some host.
Proof.
  intros Hb. pose proof (cursor_at_new list Hb) as Hc. split.
  - intros (o & H & Ho). apply ok_or_Ok in Ho as ->. apply (sni_loop_Ok _ _ list) in H as (ns & -> & Hns & Hr); [|done|lia].
    apply fold_once_Some in Hr. by exists ns.
  - intros (ns & Hl & Hns & Hn). exists (Some host). split; [|done].
    apply (sni_loop_Ok _ _ list); [done | lia|]. exists ns. by rewrite fold_once_Some.
Qed.

Lemma parse_sni_Ok data host : len data <= U64_MAX -> parse_sni normalize data = Ok host <-> names_host data host.
Proof.
  intros Hb. pose proof (cursor_at_new data Hb) as Hc. unfold parse_sni, parse_sni_body, names_host.
  rewrite result_bind_Ok. split.
  - intros (list & H & Hrun). apply result_bind_Ok in Hrun.
    apply (vec16_bind_Ok _ data) in H as (v & l' & -> & Hv & Hc' & H); [|done].
    rewrite get_bind_run, (remaining_at l') in H by done. destruct (len l' =? 0) eqn:E; [|done].
    apply Z.eqb_eq, len_zero in E as ->. cbn in H. injection H as <-. rewrite app_nil_r in *.
    apply sni_run_Ok in Hrun as (ns & -> & Hns & Hn); [|unfold u16_bounded, U64_MAX in *; lia]. by exists ns.
  - intros (ns & Hd & Hns & Hu & Hn). exists (concat (map encode_name ns)). split.
    + apply (vec16_bind_Ok _ data); [done|]. exists (concat (map encode_name ns)), [].
      rewrite app_nil_r. unfold encode_names in Hd. subst data.
      assert (Hc' : cursor_at [] (advance (len (concat (map encode_name ns))) (advance 2 (Cursor_new (encode_names ns))))).
      { eapply cursor_at_advance; [|done]. rewrite app_nil_r.
        by apply (cursor_at_advance (be16 (len (concat (map encode_name ns))))). }
      split_and!; [done | done | done|]. by rewrite get_bind_run, (remaining_at []).
    + apply result_bind_Ok, sni_run_Ok; [unfold u16_bounded, U64_MAX in *; lia|]. by exists ns.
Qed.

Definition is_server_name (e : Z * list Ascii.ascii) : bool := e.1 =? SERVER_NAME_EXTENSION.
Definition sni_value (e : Z * list Ascii.ascii) : option string :=
  match parse_sni normalize e.2 with Ok h => Some h | Err _ => None end.

Lemma ext_loop_Ok fuel sni l c r :
  cursor_at l c -> (length l < fuel)%nat ->
  (ext_loop normalize fuel sni c).1 = Ok r <->
  exists es, l = concat (map encode_extension es) /\ Forall extension_ok es
    /\ Forall (fun e => e.1 <> ECH_EXTENSION) es /\ fold_once is_server_name sni_value sni es = Some r.
Proof.
  revert sni l c. induction fuel as [|fuel IH]; intros sni l c Hc Hf; [lia|]. cbn [ext_loop].
  rewrite get_bind_run. destruct (0 <? remaining c) eqn:Hrem.
  2: { apply (at_end l) in Hrem as ->; [|done]. rewrite M_ret_run. split; [intros [= <-]; by exists []|].
       intros ([|e es] & Hl & _ & _ & Hr); [by injection Hr as <- | done]. }
  rewrite (extension_bind_Ok _ l) by done. split.
  - intros (n & v & l' & -> & Hok & Hc' & H). rewrite length_app in Hf. cbn in Hf.
    destruct (Z.eqb_spec n ECH_EXTENSION) as [|Hech]; [done|].
    assert (Hes : exists es, l' = concat (map encode_extension es) /\ Forall extension_ok es
      /\ Forall (fun e => e.1 <> ECH_EXTENSION) es
      /\ fold_once is_server_name sni_value sni ((n, v) :: es) = Some r).
    { cbn [fold_once]. unfold is_server_name at 1. cbn [fst].
      destruct (n =? SERVER_NAME_EXTENSION); [|apply (IH _ l') in H; [done | done | lia]].
      destruct sni as [h|]; [done|]. apply lift_bind_Ok in H as (h & Hh & H). unfold sni_value at 1. cbn [snd].
      rewrite Hh. apply (IH _ l') in H; [done | done | lia]. }
    destruct Hes as (es & -> & Hes & Hne & Hr). exists ((n, v) :: es). split_and!; [done | by constructor | by constructor | done].
  - intros ([|[n v] es] & -> & Hes & Hne & Hr).
    { rewrite (remaining_at []) in Hrem by done. done. }
    apply Forall_cons in Hes as [Hok Hes]. apply Forall_cons in Hne as [Hech Hne]. cbn [fst] in Hech.
    exists n, v, (concat (map encode_extension es)).
    change (concat (map encode_extension ((n, v) :: es))) with (encode_extension (n, v) ++ concat (map encode_extension es)) in *.
    assert (Hc' : cursor_at (concat (map encode_extension es)) (advance (len v) (advance 2 (advance 2 c)))).
    { apply (cursor_at_advance v); [|done]. apply (cursor_at_advance (be16 (len v))); [|done].
      by apply (cursor_at_advance (be16 n)). }
    split_and!; [done | done | done|]. rewrite length_app in Hf. cbn in Hf.
    rewrite (proj2 (Z.eqb_neq _ _) Hech). cbn [fold_once] in Hr. unfold is_server_name at 1 in Hr. cbn [fst] in Hr.
    destruct (n =? SERVER_NAME_EXTENSION);
      [|apply (IH _ (concat (map encode_extension es))); [done | lia | by exists es]].
    destruct sni as [h|]; [done|]. unfold sni_value at 1 in Hr. cbn [snd] in Hr.
    destruct (parse_sni normalize v) as [h|e] eqn:Eh; [|done].
    apply lift_bind_Ok. exists h. split; [done|].
    apply (IH _ (concat (map encode_extension es))); [done | lia | by exists es].
Qed.

(** ** The hello *)
Definition hello_fields (vr session ciphers compression extensions : list Ascii.ascii) : Prop :=
  len vr = 34 /\ u8_bounded session /\ u16_bounded ciphers /\ len ciphers <> 0
  /\ len ciphers mod 2 = 0 /\ u8_bounded compression /\ u16_bounded extensions.

Definition body_of (vr session ciphers compression extensions : list Ascii.ascii) : list Ascii.ascii :=
  vr ++ byte_of (len session) :: session ++ be16 (len ciphers) ++ ciphers
  ++ byte_of (len compression) :: compression ++ vec16 extensions.

Lemma parse_hello_body_sound bytes extensions :
  len bytes <= U64_MAX -> (parse_hello_body (Cursor_new bytes)).1 = Ok extensions ->
  exists vr session ciphers compression,
    bytes = byte_of CLIENT_HELLO_TYPE :: be24 (len (body_of vr session ciphers compression extensions))
              ++ body_of vr session ciphers compression extensions
    /\ len (body_of vr session ciphers compression extensions) < 16777216
    /\ hello_fields vr session ciphers compression extensions.
Proof.
  intros Hb H. pose proof (cursor_at_new bytes Hb) as Hc. unfold parse_hello_body in H.
  apply (u8_bind_Ok _ bytes) in H as (t & l0 & -> & Ht & Hc0 & H); [|done].
  apply lift_bind_Ok in H as ([] & Et & H). apply ensure_Ok, Z.eqb_eq in Et as ->.
  apply (u24_bind_Ok _ l0) in H as (n & l1 & -> & Hn & Hc1 & H); [|done].
  rewrite get_bind_run in H. apply lift_bind_Ok in H as ([] & En & H). apply ensure_Ok, Z.eqb_eq in En.
  rewrite (remaining_at l1) in En by done. subst n. destruct Hn as [_ Hn].
  apply (take_bind_Ok _ _ l1) in H as (vr & l2 & -> & Hvr & Hc2 & H); [|done|lia].
  apply (u8_bind_Ok _ l2) in H as (sn & l3 & -> & Hsn & Hc3 & H); [|done].
  apply (take_bind_Ok _ _ l3) in H as (session & l4 & -> & <- & Hc4 & H); [|done|lia].
  apply (u16_bind_Ok _ l4) in H as (cn & l5 & -> & Hcn & Hc5 & H); [|done].
  apply lift_bind_Ok in H as ([] & Ec & H). apply ensure_Ok in Ec. bool_hyps.
  apply (take_bind_Ok _ _ l5) in H as (ciphers & l6 & -> & <- & Hc6 & H); [|done|lia].
  apply (u8_bind_Ok _ l6) in H as (pn & l7 & -> & Hpn & Hc7 & H); [|done].
  apply (take_bind_Ok _ _ l7) in H as (compression & l8 & -> & <- & Hc8 & H); [|done|lia].
  apply (vec16_bind_Ok _ l8) in H as (es & l9 & -> & Hes & Hc9 & H); [|done].
  rewrite get_bind_run, (remaining_at l9) in H by done. apply lift_bind_Ok in H as ([] & El & H).
  apply ensure_Ok, Z.eqb_eq, len_zero in El as ->. cbn in H. injection H as ->. rewrite app_nil_r in Hn |- *.
  exists vr, session, ciphers, compression. unfold body_of, hello_fields, u8_bounded, u16_bounded.
  split_and!; done || lia.
Qed.

(** The same steps read forwards: what is next in the input is what the cursor answers. *)
Lemma take_step {A} v l' n (k : list Ascii.ascii -> M Cursor TlsError A) c a :
  cursor_at (v ++ l') c -> len v = n -> (forall c', cursor_at l' c' -> (k v c').1 = Ok a) ->
  ((take_bytes n ≫= k) c).1 = Ok a.
Proof.
  intros Hc Hn Hk. pose proof (len_nonneg v). pose proof (cursor_at_advance _ _ _ _ Hc Hn) as Hc'.
  apply (take_bind_Ok _ _ (v ++ l')); [done | lia|]. exists v, l'. eauto.
Qed.

Lemma u8_step {A} n l' (k : Z -> M Cursor TlsError A) c a :
  cursor_at (byte_of n :: l') c -> 0 <= n < 256 -> (forall c', cursor_at l' c' -> (k n c').1 = Ok a) ->
  ((u8 ≫= k) c).1 = Ok a.
Proof.
  intros Hc Hn Hk. assert (Hc' : cursor_at l' (advance 1 c)) by (by apply (cursor_at_advance [byte_of n])).
  apply (u8_bind_Ok _ (byte_of n :: l')); [done|]. exists n, l'. eauto.
Qed.

Lemma u16_step {A} n l' (k : Z -> M Cursor TlsError A) c a :
  cursor_at (be16 n ++ l') c -> 0 <= n < 65536 -> (forall c', cursor_at l' c' -> (k n c').1 = Ok a) ->
  ((u16 ≫= k) c).1 = Ok a.
Proof.
  intros Hc Hn Hk. assert (Hc' : cursor_at l' (advance 2 c)) by (by apply (cursor_at_advance (be16 n))).
  apply (u16_bind_Ok _ (be16 n ++ l')); [done|]. exists n, l'. eauto.
Qed.

Lemma u24_step {A} n l' (k : Z -> M Cursor TlsError A) c a :
  cursor_at (be24 n ++ l') c -> 0 <= n < 16777216 -> (forall c', cursor_at l' c' -> (k n c').1 = Ok a) ->
  ((u24 ≫= k) c).1 = Ok a.
Proof.
  intros Hc Hn Hk. assert (Hc' : cursor_at l' (advance 3 c)) by (by apply (cursor_at_advance (be24 n))).
  apply (u24_bind_Ok _ (be24 n ++ l')); [done|]. exists n, l'. eauto.
Qed.

Lemma lift_step {S E A B} (r : result E A) x (k : A -> M S E B) s b :
  r = Ok x -> (k x s).1 = Ok b -> ((lift r ≫= k) s).1 = Ok b.
Proof. intros -> H. exact H. Qed.

Lemma parse_hello_body_complete vr session ciphers compression extensions :
  hello_fields vr session ciphers compression extensions ->
  len (body_of vr session ciphers compression extensions) < 16777216 ->
  (parse_hello_body (Cursor_new (byte_of CLIENT_HELLO_TYPE
     :: be24 (len (body_of vr session ciphers compression extensions))
          ++ body_of vr session ciphers compression extensions))).1 = Ok extensions.
Proof.
  intros (Hvr & Hs & Hci & Hci0 & Hci2 & Hp & He) Hbody. unfold u8_bounded, u16_bounded in *.
  remember (body_of vr session ciphers compression extensions) as body eqn:Eb.
  assert (Hc : cursor_at (byte_of CLIENT_HELLO_TYPE :: be24 (len body) ++ body)
                 (Cursor_new (byte_of CLIENT_HELLO_TYPE :: be24 (len body) ++ body))).
  { apply cursor_at_new. rewrite len_cons, len_app. change (len (be24 (len body))) with 3. unfold U64_MAX. lia. }
  unfold parse_hello_body. eapply u8_step; [exact Hc | done|]. clear Hc. intros c Hc. eapply lift_step; [done|].
  eapply u24_step; [exact Hc | pose proof (len_nonneg body); lia|]. clear Hc. intros c' Hc.
  rewrite get_bind_run. eapply lift_step; [by rewrite (remaining_at body), Z.eqb_refl|].
  rewrite Eb in Hc. eapply take_step; [exact Hc | lia|]. clear Hc. intros c2 Hc.
  eapply u8_step; [exact Hc | pose proof (len_nonneg session); lia|]. clear Hc. intros c3 Hc.
  eapply take_step; [exact Hc | done|]. clear Hc. intros c4 Hc.
  eapply u16_step; [exact Hc | pose proof (len_nonneg ciphers); lia|]. clear Hc. intros c5 Hc.
  eapply lift_step; [by rewrite Hci2, (proj2 (Z.eqb_neq _ _) Hci0)|].
  eapply take_step; [exact Hc | done|]. clear Hc. intros c6 Hc.
  eapply u8_step; [exact Hc | pose proof (len_nonneg compression); lia|]. clear Hc. intros c7 Hc.
  eapply take_step; [exact Hc | done|]. clear Hc. intros c8 Hc. rewrite <- (app_nil_r (vec16 extensions)) in Hc.
  unfold vec16 in Hc. rewrite <- app_assoc in Hc.
  eapply u16_step; [exact Hc | pose proof (len_nonneg extensions); lia|]. clear Hc. intros c9 Hc.
  eapply take_step; [exact Hc | done|]. clear Hc. intros c10 Hc. rewrite get_bind_run.
  eapply lift_step; [by rewrite (remaining_at []) | done].
Qed.

(** The reference meaning of a hello: it has exactly one server-name extension, which names exactly one
    host, and no encrypted ClientHello. *)
Definition shows_host (h : Hello) (host : string) : Prop :=
  Forall (fun e => e.1 <> ECH_EXTENSION) (h_extensions h)
  /\ exists e, filter (fun e => is_server_name e = true) (h_extensions h) = [e] /\ names_host e.2 host.

Lemma encode_body_of h :
  encode_body h = body_of (h_version_random h) (h_session h) (h_ciphers h) (h_compression h)
                    (concat (map encode_extension (h_extensions h))).
Proof. done. Qed.

Lemma ext_run_Ok extensions host :
  len extensions < 65536 ->
  (exists o, (ext_loop normalize (S (length extensions)) None (Cursor_new extensions)).1 = Ok o
             /\ ok_or MissingSni o = Ok host)
  <-> exists es, extensions = concat (map encode_extension es) /\ Forall extension_ok es
        /\ Forall (fun e => e.1 <> ECH_EXTENSION) es
        /\ exists e, filter (fun e => is_server_name e = true) es = [e] /\ names_host e.2 host.
Proof.
  intros Hb. assert (Hc : cursor_at extensions (Cursor_new extensions)) by (apply cursor_at_new; unfold U64_MAX; lia).
  assert (Hv : forall es e, Forall extension_ok es -> filter (fun e => is_server_name e = true) es = [e] ->
                 sni_value e = Some host <-> names_host e.2 host).
  { intros es e Hes Hf. assert (Hin : e ∈ es) by (eapply (list_elem_of_filter (fun e => is_server_name e = true)); rewrite Hf; set_solver).
    rewrite Forall_forall in Hes. destruct (Hes e Hin) as [_ He]. unfold sni_value, u16_bounded in *.
    rewrite <- parse_sni_Ok by (unfold U64_MAX; lia). destruct (parse_sni normalize e.2); naive_solver. }
  split.
  - intros (o & H & Ho). apply ok_or_Ok in Ho as ->.
    apply (ext_loop_Ok _ _ extensions) in H as (es & -> & Hes & Hne & Hr); [|done|lia].
    apply fold_once_Some in Hr as (e & Hf & He). exists es. split_and!; try done. exists e. split; [done|].
    by apply (Hv es e).
  - intros (es & Hl & Hes & Hne & e & Hf & He). exists (Some host). split; [|done].
    apply (ext_loop_Ok _ _ extensions); [done | lia|]. exists es. split_and!; try done. apply fold_once_Some.
    exists e. split; [done|]. by apply (Hv es e).
Qed.

(** C31: the parser is exactly the inverse of the TLS grammar: it answers a host for a byte string just when
    that string is the encoding of a well-formed ClientHello whose only visible server name normalizes to
    that host and which carries no encrypted ClientHello. *)
Theorem parse_client_hello_exact bytes host (in_memory : len bytes <= U64_MAX) :
  parse_client_hello normalize bytes = Ok host <->
  exists h, hello_ok h /\ bytes = encode_hello h /\ shows_host h host.
Proof.
  unfold parse_client_hello, shows_host. rewrite result_bind_Ok. split.
  - intros (extensions & H & Hrun). apply result_bind_Ok in Hrun.
    apply parse_hello_body_sound in H as (vr & session & ciphers & compression & -> & Hlen & Hf); [|done].
    apply ext_run_Ok in Hrun as (es & -> & Hes & Hne & Hsni); [|apply Hf].
    exists (mkHello vr session ciphers compression es).
    unfold hello_ok, encode_hello, hello_fields in *. rewrite encode_body_of. cbn. naive_solver.
  - intros (h & (Hvr & Hs & Hci & Hci0 & Hci2 & Hp & Hes & He & Hb) & -> & Hne & Hsni).
    exists (concat (map encode_extension (h_extensions h))). split.
    + unfold encode_hello. rewrite encode_body_of in *. by apply parse_hello_body_complete.
    + apply result_bind_Ok, ext_run_Ok; [done|]. by exists (h_extensions h).
Qed.
End facts.

(** ** Reading records *)
Definition encode_record (r : Ascii.ascii * Ascii.ascii * list Ascii.ascii) : list Ascii.ascii :=
  byte_of HANDSHAKE_CONTENT_TYPE :: r.1.1 :: r.1.2 :: vec16 r.2.
Definition record_ok (r : Ascii.ascii * Ascii.ascii * list Ascii.ascii) : Prop := 0 < len r.2 < 65536.

Lemma read_exact_run n s :
  0 <= n ->
  (exists v rest, incoming s = v ++ rest /\ len v = n
     /\ read_exact_timeout n s = (Ok v, mkClientStream rest (goes_silent s)))
  \/ (exists e s', read_exact_timeout n s = (Err e, s')).
Proof.
  intros Hn. unfold read_exact_timeout. rewrite M_bind_run, get_run.
  destruct (Z.leb_spec n (len (incoming s))) as [Hle|Hgt]; [left | right; by eexists _, _].
  exists (take (Z.to_nat n) (incoming s)), (drop (Z.to_nat n) (incoming s)).
  rewrite take_drop. split_and!; [done | unfold len in *; rewrite length_take; lia | done].
Qed.

Lemma take5 (v : list Ascii.ascii) : len v = 5 -> exists b0 b1 b2 b3 b4, v = [b0; b1; b2; b3; b4].
Proof.
  unfold len. destruct v as [|b0 [|b1 [|b2 [|b3 [|b4 [|]]]]]]; cbn; intros; try lia. by eexists _, _, _, _, _.
Qed.

(** What one turn of the loop has read when it does not stop with an error. *)
Lemma record_turn fuel raw handshake s r s' :
  record_loop (S fuel) raw handshake s = (Ok r, s') ->
  exists rec rest, record_ok rec /\ incoming s = encode_record rec ++ rest
    /\ len (raw ++ encode_record rec) <= MAX_CLIENT_HELLO_BYTES
    /\ ((r = Some (raw ++ encode_record rec, handshake ++ rec.2, wanted_bytes (handshake ++ rec.2))
         /\ wanted_bytes (handshake ++ rec.2) <= len (handshake ++ rec.2) /\ incoming s' = rest)
        \/ record_loop fuel (raw ++ encode_record rec) (handshake ++ rec.2)
             (mkClientStream rest (goes_silent s)) = (Ok r, s')).
Proof.
  cbn [record_loop]. rewrite M_bind_run.
  destruct (read_exact_run 5 s) as [(v & rest & Hs & Hv & ->)|(e & s1 & ->)]; [lia | | done].
  apply take5 in Hv as (b0 & b1 & b2 & b3 & b4 & ->). cbn [byte_at lookup list_lookup].
  destruct (Z.eqb_spec (byte_val b0) HANDSHAKE_CONTENT_TYPE) as [H0|]; [|done]. cbn [negb].
  assert (Eb0 : byte_of HANDSHAKE_CONTENT_TYPE = b0) by (by rewrite <- H0, byte_of_val). clear H0.
  destruct (proj1 (be16_iff b3 b4 _) eq_refl) as [Hn Hbe]. remember (byte_val b3 * 256 + byte_val b4) as n eqn:En.
  case_match eqn:Elen; [done|]. apply orb_false_iff in Elen as [En0 Emax]. bool_hyps. rewrite M_bind_run.
  destruct (read_exact_run n (mkClientStream rest (goes_silent s))) as [(payload & rest' & Hr & Hp & ->)|(e & s1 & ->)];
    [lia | | done].
  cbn [incoming goes_silent] in *.
  assert (Henc : [b0; b1; b2; b3; b4] ++ payload = encode_record (b1, b2, payload)).
  { unfold encode_record, vec16. cbn [fst snd]. rewrite Eb0, Hp, <- Hbe. done. }
  rewrite Henc. intros H. exists (b1, b2, payload), rest'. cbn [snd].
  split_and!; [unfold record_ok; cbn [snd]; lia | | |].
  - by rewrite Hs, Hr, <- Henc, <- app_assoc.
  - rewrite <- Henc, !len_app. change (len [b0; b1; b2; b3; b4]) with 5. lia.
  - case_match; [|by right]. case_match; [done|]. case_match; [done|]. case_match eqn:Ew; [|by right].
    left. injection H as <- <-. bool_hyps. done.
Qed.

Lemma record_loop_Ok fuel raw handshake s r s' :
  record_loop fuel raw handshake s = (Ok r, s') ->
  MAX_CLIENT_HELLO_BYTES < len raw + 6 * Z.of_nat fuel -> len raw <= MAX_CLIENT_HELLO_BYTES ->
  exists records, Forall record_ok records
    /\ incoming s = concat (map encode_record records) ++ incoming s'
    /\ let raw := raw ++ concat (map encode_record records) in
       let handshake := handshake ++ concat (map snd records) in
       len raw <= MAX_CLIENT_HELLO_BYTES /\ wanted_bytes handshake <= len handshake
       /\ r = Some (raw, handshake, wanted_bytes handshake).
Proof.
  revert raw handshake s. induction fuel as [|fuel IH]; intros raw handshake s H Hfuel Hraw; [lia|].
  apply record_turn in H as (rec & rest & Hok & Hs & Hmax & H).
  destruct H as [(-> & Hw & <-) | H].
  - exists [rec]. cbn [map concat snd]. rewrite !app_nil_r. split_and!; [by constructor | done | done | done | done].
  - apply IH in H as (records & Hrecs & Hin & Hlen & Hwanted & ->); [| |done].
    + exists (rec :: records). cbn [map concat]. rewrite Hs. cbn [incoming] in Hin. rewrite Hin, !app_assoc.
      rewrite <- !app_assoc in *. split_and!; [by constructor | by rewrite app_assoc | done | done | done].
    + rewrite len_app. unfold record_ok in Hok. unfold encode_record, vec16. rewrite !len_cons, len_app.
      change (len (be16 _)) with 2. lia.
Qed.

(** A ClientHello that was collected was taken from the client byte by byte. *)
Lemma read_client_hello_consumes normalize s raw sni s' :
  read_client_hello normalize s = (Ok (Some (raw, sni)), s') -> incoming s = raw ++ incoming s'.
Proof.
  unfold read_client_hello. rewrite M_bind_run.
  destruct (record_loop RECORD_FUEL [] [] s) as [[o|e] s1] eqn:E; [|done].
  apply record_loop_Ok in E as (records & _ & Hin & _ & _ & ->); [|vm_compute; congruence..].
  rewrite !app_nil_l in *. rewrite M_bind_run, lift_run. intros H.
  destruct (parse_client_hello _ _) as [host|e]; [|done].
  cbn in H. injection H as <- _ <-. exact Hin.
Qed.

(** Collecting the ClientHello always ends (the bound is reached before the fuel), and on success the
    bytes handed on for forwarding are exactly the bytes taken from the client, at most 64 KiB of whole
    handshake records, and the host is what the parser reads from the handshake bytes those records carry. *)
Theorem client_hello_is_forwarded_exactly normalize s r s' :
  read_client_hello normalize s = (r, s') ->
  r <> Ok None
  /\ forall raw sni, r = Ok (Some (raw, sni)) ->
       incoming s = raw ++ incoming s' /\ len raw <= MAX_CLIENT_HELLO_BYTES
       /\ exists records, Forall record_ok records /\ raw = concat (map encode_record records)
            /\ let handshake := concat (map snd records) in
               wanted_bytes handshake <= len handshake
               /\ parse_client_hello normalize (take (Z.to_nat (wanted_bytes handshake)) handshake) = Ok sni.
Proof.
  unfold read_client_hello. rewrite M_bind_run.
  destruct (record_loop RECORD_FUEL [] [] s) as [[o|e] s1] eqn:E; [|intros [= <- <-]; by split].
  apply record_loop_Ok in E as (records & Hrecs & Hin & Hlen & Hw & ->); [|vm_compute; congruence..].
  rewrite !app_nil_l in *. rewrite M_bind_run, lift_run. intros H.
  destruct (parse_client_hello _ _) as [host|e] eqn:Ep; injection H as <- <-; [|by split].
  split; [done|]. intros raw sni [= <- <-]. split_and!; try done. by exists records.
Qed.

(** ** Witnesses *)
Definition sample_normalize (s : string) : result PolicyError string := normalize_host sample_idna s.
Definition sample_names : list (Z * list Ascii.ascii) := [(0, bytes_of "EXAMPLE.com")].
Definition sample_hello : Hello :=
  mkHello (repeat (byte_of 3) 34) [] [byte_of 19; byte_of 1] [byte_of 0] [(0, encode_names sample_names); (16, [])].

Lemma parse_client_hello_exact_witness :
  parse_client_hello sample_normalize (encode_hello sample_hello) = Ok "example.com".
Proof.
  apply (parse_client_hello_exact sample_normalize); [vm_compute; congruence|].
  exists sample_hello. split; [|split; [reflexivity|]].
  - unfold hello_ok, extension_ok, u8_bounded, u16_bounded. split_and!; try (vm_compute; congruence).
    repeat constructor; vm_compute; congruence.
  - split; [repeat constructor; vm_compute; congruence|].
    exists (0, encode_names sample_names). split; [reflexivity|]. exists sample_names.
    split_and!; [reflexivity | | vm_compute; congruence | exists (0, bytes_of "EXAMPLE.com"); split; vm_compute; reflexivity].
    unfold name_ok, u16_bounded. repeat constructor; vm_compute; congruence.
Defined.

Lemma client_hello_is_forwarded_exactly_witness :
  incoming (mkClientStream (encode_record (byte_of 3, byte_of 1, encode_hello sample_hello) ++ [byte_of 7]) true)
  = encode_record (byte_of 3, byte_of 1, encode_hello sample_hello) ++ [byte_of 7].
Proof.
  refine (proj1 (proj2 (client_hello_is_forwarded_exactly sample_normalize
    (mkClientStream (encode_record (byte_of 3, byte_of 1, encode_hello sample_hello) ++ [byte_of 7]) true)
    (Ok (Some (encode_record (byte_of 3, byte_of 1, encode_hello sample_hello), "example.com")))
    (mkClientStream [byte_of 7] true) _) _ "example.com" eq_refl)).
  vm_compute. reflexivity.
Defined.
