(* ===== verification/Proxy.v ===== *)
(** * hand-egress-gateway: the CONNECT proxy

    Models crates/hand-egress-gateway/src/proxy.rs (the header reader, the CONNECT and authorization
    parsers, setup with its quotas and guards, the tunnel prologue, the relay and its byte budget, the HTTP
    answers); its settings are in Settings.v and its accept loops, with connections interleaved, in Serve.v.
    Socket and timer outcomes are inputs: a client is the bytes it will send followed by silence or by the end of
    the connection, and each awaited step is told whether it finished in time. *)
From S2P Require Import Prelude Policy Connector EgressPolicy Capability TlsHello.

Definition MAX_HTTP_HEADER_BYTES : Z := 16 * 1024.
Definition CONNECT_HEADER_HEADROOM_BYTES : Z := 2 * 1024.

Inductive ProxyError :=
  | Io | SetupTimeout | MalformedRequest | UnsupportedProtocol | RequestTooLarge | Authentication | Capacity
  | RootCapacity | RelayLimit | CapabilityExpired | Upstream | SniMismatch
  | PCapability (e : CapabilityError) | PPolicy (e : PolicyError) | PTls (e : TlsError).

Definition http_response (e : ProxyError) : option (Z * string) :=
  match e with
  | MalformedRequest => Some (400, "Bad Request")
  | Authentication => Some (407, "Proxy Authentication Required")
  | PCapability _ | PPolicy _ => Some (403, "Forbidden")
  | RootCapacity => Some (429, "Too Many Requests")
  | RequestTooLarge => Some (431, "Request Header Fields Too Large")
  | Upstream => Some (502, "Bad Gateway")
  | Capacity => Some (503, "Service Unavailable")
  | SetupTimeout => Some (504, "Gateway Timeout")
  | Io | UnsupportedProtocol | RelayLimit | CapabilityExpired | SniMismatch | PTls _ => None
  end.

(** ** Parsing the request *)
Record ConnectRequest := mkConnectRequest { authority : string; cr_port : Z; token : option string }.

Definition parse_authority (authority : string) : result ProxyError (string * Z) :=
  if starts_with "[" authority then Err (PPolicy Ipv6Unsupported)
  else
    '(host, port) ← ok_or MalformedRequest (rsplit_once ":"%char authority);
    if (str_len host =? 0) || contains_char ":"%char host then Err MalformedRequest
    else
      port ← ok_or MalformedRequest (parse_uint U16_MAX port);
      Ok (host, port).

Section proxy.
Context (b64_standard_decode : string -> option (list Ascii.ascii)).

Definition parse_proxy_authorization (value : string) : result ProxyError string :=
  if MAX_HTTP_HEADER_BYTES - CONNECT_HEADER_HEADROOM_BYTES <? str_len value then Err Authentication
  else
    match strip_prefix "Bearer " value with
    | Some token =>
        if (str_len token =? 0) || (MAX_ENCODED_TOKEN_BYTES <? str_len token) then Err Authentication else Ok token
    | None =>
        encoded ← ok_or Authentication (strip_prefix "Basic " value);
        decoded ← ok_or Authentication (b64_standard_decode encoded);
        decoded ← ok_or Authentication (from_utf8 decoded);
        token ← ok_or Authentication (strip_prefix "aex:" decoded);
        if (str_len token =? 0) || (MAX_ENCODED_TOKEN_BYTES <? str_len token) then Err Authentication else Ok token
    end.

(** The header lines, up to the first empty one. *)
Fixpoint parse_headers (token : option string) (lines : list string) : result ProxyError (option string) :=
  match lines with
  | [] => Ok token
  | line :: lines =>
      if str_len line =? 0 then Ok token
      else if starts_with " " line || starts_with (String "009"%char EmptyString) line then Err MalformedRequest
      else
        '(name, value) ← ok_or MalformedRequest (split_once ":"%char line);
        if eq_ignore_ascii_case name "proxy-authorization" then
          match token with
          | Some _ => Err MalformedRequest
          | None => parsed ← parse_proxy_authorization (trim value); parse_headers (Some parsed) lines
          end
        else parse_headers token lines
  end.

Definition CR : Ascii.ascii := "013"%char.
Definition LF : Ascii.ascii := "010"%char.

Definition parse_connect (request : string) : result ProxyError ConnectRequest :=
  match split_on2 CR LF request with
  | [] => Err MalformedRequest
  | line :: lines =>
      match split_on " "%char line with
      | method :: rest =>
          if negb (str_eqb method "CONNECT") then Err MalformedRequest
          else
            match rest with
            | [] => Err MalformedRequest
            | authority :: rest =>
                match rest with
                | [version] =>
                    if negb (str_eqb version "HTTP/1.1") then Err MalformedRequest
                    else
                      '(host, port) ← parse_authority authority;
                      token ← parse_headers None lines;
                      Ok (mkConnectRequest host port token)
                | _ => Err MalformedRequest
                end
            end
      | [] => Err MalformedRequest
      end
  end.

(** ** Reading the request *)
Notation Socket := (M ClientStream ProxyError).

Definition read_u8 : Socket Ascii.ascii :=
  s ← get;
  match incoming s with
  | b :: rest => _ ← put (mkClientStream rest (goes_silent s)); mret b
  | [] => throw (if goes_silent s then SetupTimeout else Io)
  end.

Definition ends_header (bytes : list Ascii.ascii) : bool :=
  match rev bytes with
  | d :: c :: b :: a :: _ => Ascii.eqb a CR && Ascii.eqb b LF && Ascii.eqb c CR && Ascii.eqb d LF
  | _ => false
  end.

(** [fuel] bounds the bytes still read; [None] is the fuel running out. *)
Fixpoint header_loop (fuel : nat) (bytes : list Ascii.ascii) : Socket (option (list Ascii.ascii)) :=
  match fuel with
  | O => mret None
  | S fuel =>
      if ends_header bytes then mret (Some bytes)
      else if MAX_HTTP_HEADER_BYTES <=? len bytes then throw RequestTooLarge
      else b ← read_u8; header_loop fuel (bytes ++ [b])
  end.

Definition HEADER_FUEL : nat := Z.to_nat (MAX_HTTP_HEADER_BYTES + 1).

Definition read_http_header (first : Ascii.ascii) : Socket (option string) :=
  bytes ← header_loop HEADER_FUEL [first];
  match bytes with
  | None => mret None
  | Some bytes => request ← lift (ok_or MalformedRequest (from_utf8 bytes)); mret (Some request)
  end.

(** [handle_health]: the status line answered. *)
Definition first_line (request : string) : string :=
  match split_on LF request with
  | line :: _ => match rev (bytes_of line) with
                 | c :: r => if Ascii.eqb c CR then String.string_of_list_ascii (rev r) else line
                 | [] => line
                 end
  | [] => EmptyString
  end.

Definition handle_health (first : Ascii.ascii) : Socket (option Z) :=
  request ← read_http_header first;
  match request with
  | None => mret None
  | Some request =>
      let line := first_line request in
      if negb (str_eqb line "GET /healthz HTTP/1.1") && negb (str_eqb line "GET /healthz HTTP/1.0")
      then mret (Some 404) else mret (Some 200)
  end.

(** The separate health listener: only a request that starts with [G] is answered. *)
Definition handle_health_connection : Socket (option Z) :=
  first ← read_u8;
  if negb (Ascii.eqb first "G"%char) then throw MalformedRequest else handle_health first.

(** ** Quotas *)
(** [acquire]: the entry is created before it is compared with the limit. *)
Definition quota_acquire (max : Z) (root_id : string) (active : gmap string Z) : bool * gmap string Z :=
  let count := default 0 (active !! root_id) in
  let active := <[root_id := count]> active in
  if max <=? count then (false, active) else (true, <[root_id := count + 1]> active).

(** [Drop for RootPermit] *)
Definition quota_drop (root_id : string) (active : gmap string Z) : gmap string Z :=
  match active !! root_id with
  | None => active
  | Some count => if count - 1 =? 0 then delete root_id active else <[root_id := count - 1]> active
  end.
End proxy.

(** ** Setup *)
(** The shared capacity: the root quotas, and the permits held of the tunnel and setup semaphores. *)
Record Gateway := mkGateway { g_active : gmap string Z; g_tunnels : Z; g_setups : Z }.

Definition set_active (a : gmap string Z) (g : Gateway) : Gateway := mkGateway a (g_tunnels g) (g_setups g).
Definition set_tunnels (n : Z) (g : Gateway) : Gateway := mkGateway (g_active g) n (g_setups g).
Definition set_setups (n : Z) (g : Gateway) : Gateway := mkGateway (g_active g) (g_tunnels g) n.

Record GatewayLimits := mkGatewayLimits {
  max_connections : Z; max_connections_per_root : Z; max_pending_setups : Z; max_relay_bytes : Z }.

(** What the awaited steps of one setup come to before its deadline. *)
Record SetupOutcome := mkSetupOutcome { authorized_in_time : bool; tunnel_in_time : bool; dialed : bool }.

Record EstablishedConnect := mkEstablishedConnect {
  e_target : AuthorizedTarget; e_expires_at_ms : Z; e_root : string }.

Section setup.
Context {Net Signature VerifyingKey : Type} `{EqDecision Net}.
Context (cidr_contains : Net -> Z -> bool).
Context (domain_to_ascii_strict : string -> option string).
Context (is_public_unicast : Z -> bool).
Context (lookup_ip : string -> option (list RData)).
Context (destination_json : CapabilityDestination Net -> string).
Context (to_json : Capability Net -> option (list Ascii.ascii)).
Context (from_json : list Ascii.ascii -> option (Capability Net)).
Context (b64_decode b64_standard_decode : string -> option (list Ascii.ascii)).
Context (from_der : list Ascii.ascii -> option Signature).
Context (verify : VerifyingKey -> list Ascii.ascii -> Signature -> bool).
Context (public_key : VerifyingKey) (deny : DenyPolicy Net) (limits : GatewayLimits).

Definition authenticate (request : string) (now_ms : Z) : result ProxyError (VerifiedCapability Net) :=
  parsed ← parse_connect b64_standard_decode request;
  token ← ok_or Authentication (token parsed);
  map_err PCapability
    (verify_token domain_to_ascii_strict destination_json to_json from_json b64_decode from_der verify
       token public_key now_ms).

Notation Setup := (M (ClientStream * Gateway) ProxyError).

Definition on_client {A : Type} (m : M ClientStream ProxyError A) : Setup A := fun '(c, g) =>
  let '(r, c') := m c in (r, (c', g)).
Definition modify_gateway (f : Gateway -> Gateway) : Setup unit := modify (fun '(c, g) => (c, f g)).

Definition drop_root (root : string) : Setup unit :=
  modify_gateway (fun g => set_active (quota_drop root (g_active g)) g).
Definition drop_tunnel : Setup unit := modify_gateway (fun g => set_tunnels (g_tunnels g - 1) g).
Definition drop_setup : Setup unit := modify_gateway (fun g => set_setups (g_setups g - 1) g).

(** From the tunnel permit on: the setup permit goes back before the dial, and a failed dial drops the
    tunnel permit. *)
Definition dial_target (outcome : SetupOutcome) (target : AuthorizedTarget) : Setup unit :=
  '(_, g) ← get;
  if negb (tunnel_in_time outcome && (g_tunnels g <? max_connections limits)) then
    _ ← drop_setup; throw Capacity
  else
    _ ← modify_gateway (set_tunnels (g_tunnels g + 1));
    _ ← drop_setup;
    if dialed outcome then mret tt else (_ ← drop_tunnel; throw Upstream).

(** Everything after the root permit; the caller drops the permit when this fails. *)
Definition setup_rooted (outcome : SetupOutcome) (v : VerifiedCapability Net) (request : ConnectRequest)
    : Setup AuthorizedTarget :=
  target ← (if authorized_in_time outcome
            then lift (map_err PPolicy
                   (authorize cidr_contains domain_to_ascii_strict is_public_unicast lookup_ip (v_policy v) deny
                      (authority request) (cr_port request)))
            else throw SetupTimeout);
  _ ← dial_target outcome target;
  mret target.

Definition acquire_root (root : string) : Setup unit :=
  '(_, g) ← get;
  let '(granted, active) := quota_acquire (max_connections_per_root limits) root (g_active g) in
  _ ← modify_gateway (set_active active);
  if granted then mret tt else throw RootCapacity.

(** A setup that fails before the dial drops its setup permit at the end. *)
Definition dropping_setup {A : Type} (m : Setup A) : Setup A :=
  r ← observed m;
  match r with Ok a => mret a | Err e => _ ← drop_setup; throw e end.

Definition connect_setup (outcome : SetupOutcome) (first : Ascii.ascii) (now_ms : Z)
    : Setup (option EstablishedConnect) :=
  request ← dropping_setup (on_client (read_http_header first));
  match request with
  | None => mret None
  | Some request =>
      v ← dropping_setup (lift (authenticate request now_ms));
      parsed ← dropping_setup (lift (parse_connect b64_standard_decode request));
      let root := c_root_id (capability v) in
      _ ← dropping_setup (acquire_root root);
      r ← observed (setup_rooted outcome v parsed);
      match r with
      | Ok target => mret (Some (mkEstablishedConnect target (expires_at_ms (capability v)) root))
      | Err e =>
          _ ← (match e with Capacity | Upstream => mret tt | _ => drop_setup end);
          _ ← drop_root root;
          throw e
      end
  end.

(** [handle]: the first byte selects the protocol; a rejected setup is answered by [http_response]. *)
Inductive Handled := HTunnel (e : EstablishedConnect) | HHealth (status : Z) | HOutOfFuel.

Definition handle (outcome : SetupOutcome) (now_ms : Z) : Setup Handled :=
  first ← dropping_setup (on_client read_u8);
  if Ascii.eqb first "C"%char then
    established ← connect_setup outcome first now_ms;
    mret (match established with Some e => HTunnel e | None => HOutOfFuel end)
  else if Ascii.eqb first "G"%char then
    status ← dropping_setup (on_client (handle_health first));
    _ ← drop_setup;
    mret (match status with Some s => HHealth s | None => HOutOfFuel end)
  else if byte_val first =? 5 then _ ← drop_setup; throw UnsupportedProtocol
  else _ ← drop_setup; throw MalformedRequest.
End setup.

(** ** The relay *)
Definition consume (remaining bytes : Z) : option Z := checked_sub remaining bytes.

(** The prologue of [tunnel]: with an expected name, the ClientHello is read, compared, charged and
    forwarded before anything else flows. [hello_written] is the outcome of that write. *)
Section tunnel.
Context (normalize : string -> result PolicyError string).

Definition lift_tls {A : Type} (m : M ClientStream TlsError A) : M ClientStream ProxyError A := fun c =>
  let '(r, c') := m c in (map_err PTls r, c').

Definition tunnel_prologue (target : AuthorizedTarget) (max_bytes expires_at_ms now_ms : Z)
    (hello_written : result ProxyError unit) : M ClientStream ProxyError (option (list Ascii.ascii * Z)) :=
  flowed ← (match expected_sni target with
            | Some expected =>
                hello ← lift_tls (read_client_hello normalize);
                match hello with
                | None => mret None
                | Some (raw, actual_sni) =>
                    if negb (str_eqb actual_sni expected) then throw SniMismatch
                    else
                      match consume max_bytes (len raw) with
                      | None => throw RelayLimit
                      | Some budget => _ ← lift hello_written; mret (Some (raw, budget))
                      end
                end
            | None => mret (Some ([], max_bytes))
            end);
  if saturating_sub expires_at_ms now_ms =? 0 then throw CapabilityExpired else mret flowed.
End tunnel.

(** One direction of [copy_with_idle]: what was read, what was written on, and where the loop is. *)
Inductive FlowStatus := Reading | Writing (chunk : list Ascii.ascii) | Finished | Stopped.
Record Flow := mkFlow { received : list Ascii.ascii; forwarded : list Ascii.ascii; f_status : FlowStatus }.

Definition flow_start (already : list Ascii.ascii) : Flow := mkFlow already already Reading.

Inductive ReadOutcome := ReadFailed | ReadBytes (chunk : list Ascii.ascii).
(** A write that fails may have sent any prefix of its chunk. *)
Inductive WriteOutcome := WriteDone | WriteFailed (sent : nat).

Definition BUFFER_BYTES : Z := 16 * 1024.

Definition flow_read (outcome : ReadOutcome) (f : Flow) (budget : Z) : Flow * Z :=
  match outcome with
  | ReadFailed => (mkFlow (received f) (forwarded f) Stopped, budget)
  | ReadBytes [] => (mkFlow (received f) (forwarded f) Finished, budget)
  | ReadBytes chunk =>
      match consume budget (len chunk) with
      | None => (mkFlow (received f ++ chunk) (forwarded f) Stopped, budget)
      | Some budget => (mkFlow (received f ++ chunk) (forwarded f) (Writing chunk), budget)
      end
  end.

Definition flow_write (outcome : WriteOutcome) (chunk : list Ascii.ascii) (f : Flow) : Flow :=
  match outcome with
  | WriteDone => mkFlow (received f) (forwarded f ++ chunk) Reading
  | WriteFailed sent => mkFlow (received f) (forwarded f ++ take sent chunk) Stopped
  end.

(** Both directions share one atomic budget; the first error ends both ([try_join]). *)
Record Relay := mkRelay { budget : Z; upward : Flow; downward : Flow }.

Definition running (r : Relay) : Prop := f_status (upward r) <> Stopped /\ f_status (downward r) <> Stopped.

Inductive relay_step : Relay -> Relay -> Prop :=
  | read_up r outcome f b :
      running r -> f_status (upward r) = Reading ->
      (forall chunk, outcome = ReadBytes chunk -> len chunk <= BUFFER_BYTES) ->
      flow_read outcome (upward r) (budget r) = (f, b) -> relay_step r (mkRelay b f (downward r))
  | read_down r outcome f b :
      running r -> f_status (downward r) = Reading ->
      (forall chunk, outcome = ReadBytes chunk -> len chunk <= BUFFER_BYTES) ->
      flow_read outcome (downward r) (budget r) = (f, b) -> relay_step r (mkRelay b (upward r) f)
  | write_up r outcome chunk :
      running r -> f_status (upward r) = Writing chunk ->
      relay_step r (mkRelay (budget r) (flow_write outcome chunk (upward r)) (downward r))
  | write_down r outcome chunk :
      running r -> f_status (downward r) = Writing chunk ->
      relay_step r (mkRelay (budget r) (upward r) (flow_write outcome chunk (downward r))).

(** ** Capacity across connections

    Connections interleave: each holds a setup slot, then also a root permit, then a tunnel slot in place of
    the setup slot; a failure at any point gives back what is held. *)
Inductive Phase := PSetup | PRooted (root : string) | PTunnel (root : string).
Record System := mkSystem { gateway : Gateway; conns : gmap nat Phase }.

Definition holds_root (root : string) (p : Phase) : Z :=
  match p with PRooted r | PTunnel r => if str_eqb r root then 1 else 0 | PSetup => 0 end.
Definition holds_setup (p : Phase) : Z := match p with PTunnel _ => 0 | _ => 1 end.
Definition holds_tunnel (p : Phase) : Z := match p with PTunnel _ => 1 | _ => 0 end.

Section capacity.
Context (limits : GatewayLimits).

Inductive gateway_step : System -> System -> Prop :=
  | accept g cs i :
      cs !! i = None -> g_setups g < max_pending_setups limits ->
      gateway_step (mkSystem g cs) (mkSystem (set_setups (g_setups g + 1) g) (<[i := PSetup]> cs))
  | leave_setup g cs i :
      cs !! i = Some PSetup -> gateway_step (mkSystem g cs) (mkSystem (set_setups (g_setups g - 1) g) (delete i cs))
  | take_root g cs i root a :
      cs !! i = Some PSetup -> quota_acquire (max_connections_per_root limits) root (g_active g) = (true, a) ->
      gateway_step (mkSystem g cs) (mkSystem (set_active a g) (<[i := PRooted root]> cs))
  | refuse_root g cs i root a :
      cs !! i = Some PSetup -> quota_acquire (max_connections_per_root limits) root (g_active g) = (false, a) ->
      gateway_step (mkSystem g cs) (mkSystem (set_setups (g_setups g - 1) (set_active a g)) (delete i cs))
  | leave_rooted g cs i root :
      cs !! i = Some (PRooted root) ->
      gateway_step (mkSystem g cs)
        (mkSystem (set_active (quota_drop root (g_active g)) (set_setups (g_setups g - 1) g)) (delete i cs))
  | take_tunnel g cs i root :
      cs !! i = Some (PRooted root) -> g_tunnels g < max_connections limits ->
      gateway_step (mkSystem g cs)
        (mkSystem (set_setups (g_setups g - 1) (set_tunnels (g_tunnels g + 1) g)) (<[i := PTunnel root]> cs))
  | leave_tunnel g cs i root :
      cs !! i = Some (PTunnel root) ->
      gateway_step (mkSystem g cs)
        (mkSystem (set_active (quota_drop root (g_active g)) (set_tunnels (g_tunnels g - 1) g)) (delete i cs)).

Definition gateway_start : System := mkSystem (mkGateway ∅ 0 0) ∅.

Definition capacity_ok (s : System) : Prop :=
  (forall root, default 0 (g_active (gateway s) !! root) = map_sum (holds_root root) (conns s))
  /\ map_Forall (fun _ c => 0 < c <= max_connections_per_root limits) (g_active (gateway s))
  /\ (g_tunnels (gateway s) = map_sum holds_tunnel (conns s) /\ g_tunnels (gateway s) <= max_connections limits)
  /\ g_setups (gateway s) = map_sum holds_setup (conns s) /\ g_setups (gateway s) <= max_pending_setups limits.

(** What acquiring and dropping a root permit does to the counts. *)
Lemma quota_acquire_counts max root a b a' :
  1 <= max -> map_Forall (fun _ c => 0 < c <= max) a -> quota_acquire max root a = (b, a') ->
  map_Forall (fun _ c => 0 < c <= max) a'
  /\ (forall r, default 0 (a' !! r) = default 0 (a !! r) + (if b then if str_eqb root r then 1 else 0 else 0))
  /\ (b = true <-> default 0 (a !! root) < max) /\ (b = false -> a' = a).
Proof.
  intros Hmax Ha H. unfold quota_acquire in H. destruct (Z.leb_spec max (default 0 (a !! root))) as [Hle|Hlt].
  - injection H as <- <-. assert (Heq : <[root:=default 0 (a !! root)]> a = a).
    { destruct (a !! root) as [c|] eqn:E; cbn in *; [by apply insert_id | lia]. }
    rewrite Heq. split_and!; [done | intros r; lia | split; [done | lia] | done].
  - injection H as <- <-. rewrite insert_insert_eq. split_and!; [| | split; [lia | done] | done].
    + apply map_Forall_insert_2; [|done]. destruct (a !! root) as [c|] eqn:E; cbn in *; [apply Ha in E; lia | lia].
    + intros r. destruct (str_eqb_spec root r) as [->|Hne]; [by rewrite lookup_insert_eq|].
      rewrite lookup_insert_ne by done. lia.
Qed.

Lemma quota_drop_counts max root a :
  map_Forall (fun _ c => 0 < c <= max) a -> 1 <= default 0 (a !! root) ->
  map_Forall (fun _ c => 0 < c <= max) (quota_drop root a)
  /\ forall r, default 0 (quota_drop root a !! r) = default 0 (a !! r) - (if str_eqb root r then 1 else 0).
Proof.
  intros Ha H1. unfold quota_drop. destruct (a !! root) as [c|] eqn:E; cbn in H1; [|lia].
  pose proof (Ha _ _ E) as Hc. cbn in Hc. destruct (Z.eqb_spec (c - 1) 0) as [H0|H0].
  - split; [by apply map_Forall_delete|]. intros r. destruct (str_eqb_spec root r) as [<-|Hne].
    + rewrite lookup_delete_eq, E. cbn. lia.
    + rewrite lookup_delete_ne by done. lia.
  - split; [apply map_Forall_insert_2; [lia | done]|]. intros r. destruct (str_eqb_spec root r) as [<-|Hne].
    + rewrite lookup_insert_eq, E. cbn. lia.
    + rewrite lookup_insert_ne by done. lia.
Qed.

Lemma holds_root_nonneg root (cs : gmap nat Phase) : map_Forall (fun _ p => 0 <= holds_root root p) cs.
Proof. intros i p _. destruct p; cbn; repeat case_match; lia. Qed.

Lemma root_is_held (cs : gmap nat Phase) i root p :
  cs !! i = Some p -> holds_root root p = 1 -> 1 <= map_sum (holds_root root) cs.
Proof. intros Hi Hp. rewrite <- Hp. by apply (map_sum_lookup_le _ _ i), Hi; apply holds_root_nonneg. Qed.

Lemma capacity_step s s' :
  1 <= max_connections_per_root limits -> gateway_step s s' -> capacity_ok s -> capacity_ok s'.
Proof.
  intros Hmax Hstep (Hroots & Hpos & [Ht Htm] & [Hs Hsm]). destruct Hstep as
    [g cs i Hi Hlt | g cs i Hi | g cs i root a Hi Hq | g cs i root a Hi Hq | g cs i root Hi | g cs i root Hi Hlt
    | g cs i root Hi]; unfold capacity_ok; cbn [gateway conns g_active g_tunnels g_setups set_setups set_active set_tunnels] in *.
  - rewrite !map_sum_insert_new by done. cbn. split_and!; try done; try lia.
    intros r. rewrite map_sum_insert_new by done. cbn. rewrite Hroots. lia.
  - rewrite (map_sum_delete holds_tunnel _ _ _ Hi) in *. rewrite (map_sum_delete holds_setup _ _ _ Hi) in *. cbn in *.
    split_and!; try done; try lia. intros r. rewrite Hroots, (map_sum_delete _ _ _ _ Hi). cbn. lia.
  - apply quota_acquire_counts in Hq as (Hpos' & Hcount & _); [|done..].
    rewrite !(map_sum_insert_over _ _ _ _ _ Hi). cbn. split_and!; try done; try lia.
    intros r. rewrite (map_sum_insert_over _ _ _ _ _ Hi), Hcount, Hroots. cbn. lia.
  - apply quota_acquire_counts in Hq as (_ & _ & _ & Heq); [|done..]. rewrite (Heq eq_refl).
    rewrite (map_sum_delete holds_tunnel _ _ _ Hi) in *. rewrite (map_sum_delete holds_setup _ _ _ Hi) in *. cbn in *.
    split_and!; try done; try lia. intros r. rewrite Hroots, (map_sum_delete _ _ _ _ Hi). cbn. lia.
  - assert (H1 : 1 <= default 0 (g_active g !! root))
      by (rewrite Hroots; eapply root_is_held; [exact Hi | cbn; by rewrite str_eqb_refl]).
    destruct (quota_drop_counts _ root _ Hpos H1) as [Hpos' Hcount].
    rewrite (map_sum_delete holds_tunnel _ _ _ Hi) in *. rewrite (map_sum_delete holds_setup _ _ _ Hi) in *. cbn in *.
    split_and!; try done; try lia. intros r. rewrite Hcount, Hroots, (map_sum_delete _ _ _ _ Hi). cbn. lia.
  - rewrite !(map_sum_insert_over _ _ _ _ _ Hi). cbn. split_and!; try done; try lia.
    intros r. rewrite (map_sum_insert_over _ _ _ _ _ Hi), Hroots. cbn. lia.
  - assert (H1 : 1 <= default 0 (g_active g !! root))
      by (rewrite Hroots; eapply root_is_held; [exact Hi | cbn; by rewrite str_eqb_refl]).
    destruct (quota_drop_counts _ root _ Hpos H1) as [Hpos' Hcount].
    rewrite (map_sum_delete holds_tunnel _ _ _ Hi) in *. rewrite (map_sum_delete holds_setup _ _ _ Hi) in *. cbn in *.
    split_and!; try done; try lia. intros r. rewrite Hcount, Hroots, (map_sum_delete _ _ _ _ Hi). cbn. lia.
Qed.

Lemma capacity_start : 0 <= max_connections limits -> 0 <= max_pending_setups limits -> capacity_ok gateway_start.
Proof. intros. unfold capacity_ok, gateway_start. cbn. setoid_rewrite map_sum_empty. split_and!; done. Qed.

Lemma capacity_run s s' :
  1 <= max_connections_per_root limits -> rtc gateway_step s s' -> capacity_ok s -> capacity_ok s'.
Proof. intros Hmax H. induction H as [|s1 s2 s3 Hstep _ IH]; [done|]. intros Hok. by eapply IH, capacity_step. Qed.

(** Whatever connections arrive, fail and end in whatever order, each root's entry counts exactly the
    connections that hold one of its permits, is never zero and never above the limit per root, and the
    setup and tunnel slots in use are exactly those of live connections, within their limits. *)
Theorem quotas_count_live_connections s
    (positive : 1 <= max_connections_per_root limits) (no_connections : 0 <= max_connections limits)
    (no_setups : 0 <= max_pending_setups limits) (Hreach : rtc gateway_step gateway_start s) :
  capacity_ok s.
Proof.
  by eapply capacity_run, capacity_start.
Qed.
End capacity.

(** ** The relay never exceeds the budget *)
Definition flow_ok (f : Flow) : Prop :=
  match f_status f with
  | Writing chunk => received f = forwarded f ++ chunk
  | Reading | Finished => received f = forwarded f
  | Stopped => forwarded f `prefix_of` received f
  end.

(** The bytes charged to a flow: what was sent on, and what is being sent. *)
Definition charged (f : Flow) : Z :=
  len (forwarded f) + match f_status f with Writing chunk => len chunk | _ => 0 end.

Definition relay_ok (max : Z) (r : Relay) : Prop :=
  flow_ok (upward r) /\ flow_ok (downward r) /\ 0 <= budget r
  /\ charged (upward r) + charged (downward r) + budget r <= max.

Lemma flow_read_ok outcome f b f' b' :
  f_status f = Reading -> flow_ok f -> 0 <= b -> flow_read outcome f b = (f', b') ->
  flow_ok f' /\ 0 <= b' /\ charged f' + b' = charged f + b.
Proof.
  intros Hst Hok Hb H. unfold flow_ok, charged in *. rewrite Hst in *. destruct outcome as [|chunk]; cbn in H.
  - injection H as <- <-. cbn. rewrite Hok. split_and!; [done | done | lia].
  - destruct chunk as [|x chunk]; [injection H as <- <-; cbn; split_and!; [done | done | lia]|].
    remember (x :: chunk) as c eqn:Ec. pose proof (len_nonneg c). unfold consume in H.
    destruct (checked_sub b (len c)) as [b2|] eqn:E; injection H as <- <-; cbn.
    + apply checked_sub_Some in E as [-> Hle]. rewrite Hok. split_and!; [done | lia | lia].
    + rewrite Hok. split_and!; [by apply prefix_app_r | done | lia].
Qed.

Lemma flow_write_ok outcome chunk f :
  f_status f = Writing chunk -> flow_ok f ->
  flow_ok (flow_write outcome chunk f) /\ charged (flow_write outcome chunk f) <= charged f.
Proof.
  intros Hst Hok. unfold flow_ok, charged in *. rewrite Hst in *. destruct outcome as [|n]; cbn; rewrite len_app.
  - split; [done | lia].
  - rewrite Hok. split; [apply prefix_app, prefix_take|]. unfold len. rewrite length_take. lia.
Qed.

Lemma relay_step_ok max r r' : relay_step r r' -> relay_ok max r -> relay_ok max r'.
Proof.
  unfold relay_ok. intros Hstep (Hu & Hd & Hb & Hmax). destruct Hstep as
    [r outcome f b _ Hst _ H | r outcome f b _ Hst _ H | r outcome chunk _ Hst | r outcome chunk _ Hst];
    cbn [budget upward downward].
  - apply flow_read_ok in H as (Hf & Hb' & Hc); [|done..]. split_and!; (done || lia).
  - apply flow_read_ok in H as (Hf & Hb' & Hc); [|done..]. split_and!; (done || lia).
  - destruct (flow_write_ok outcome chunk _ Hst Hu) as [Hf Hc]. split_and!; (done || lia).
  - destruct (flow_write_ok outcome chunk _ Hst Hd) as [Hf Hc]. split_and!; (done || lia).
Qed.

Lemma forwarded_charged f : len (forwarded f) <= charged f.
Proof. unfold charged. case_match; try lia. pose proof (len_nonneg chunk). lia. Qed.

Lemma flow_ok_prefix f : flow_ok f -> forwarded f `prefix_of` received f.
Proof. unfold flow_ok. intros H. repeat case_match; rewrite ?H; (done || by apply prefix_app_r). Qed.

(** What a prologue that succeeds has taken, charged and checked. *)
Lemma tunnel_prologue_Ok normalize target max expires now written client hello budget client' :
  0 <= max ->
  tunnel_prologue normalize target max expires now written client = (Ok (Some (hello, budget)), client') ->
  len hello + budget <= max /\ 0 <= budget /\ now < expires /\ incoming client = hello ++ incoming client'
  /\ forall name, expected_sni target = Some name -> read_client_hello normalize client = (Ok (Some (hello, name)), client').
Proof.
  intros bounded prologue. unfold tunnel_prologue in prologue. rewrite M_bind_run in prologue.
  destruct (expected_sni target) as [name|].
  - rewrite M_bind_run in prologue. unfold lift_tls in prologue.
    destruct (read_client_hello normalize client) as [[[[raw sni]|]|e] c1] eqn:Eh; cbn [map_err] in prologue;
      [|cbn in prologue; by case_match|done].
    destruct (str_eqb_spec sni name) as [->|]; [|done]. cbn [negb] in prologue.
    destruct (consume max (len raw)) as [b|] eqn:Eb; [|done]. rewrite M_bind_run, lift_run in prologue.
    destruct written as [[]|]; [|done]. cbn in prologue. case_match eqn:Ez; [done|]. injection prologue as -> -> ->.
    apply checked_sub_Some in Eb as [-> Hle]. pose proof (len_nonneg hello). apply Z.eqb_neq in Ez. unfold saturating_sub in Ez.
    split_and!; [lia | lia | lia | by apply read_client_hello_consumes in Eh |]. by intros ? [= <-].
  - cbn in prologue. case_match eqn:Ez; [done|]. injection prologue as <- <- <-. apply Z.eqb_neq in Ez.
    unfold saturating_sub in Ez. change (len []) with 0. split_and!; [lia | lia | lia | done | done].
Qed.

Lemma relay_start_ok max hello budget :
  len hello + budget <= max -> 0 <= budget -> relay_ok max (mkRelay budget (flow_start hello) (flow_start [])).
Proof. unfold relay_ok, flow_ok, charged. cbn. change (len []) with 0. intros. split_and!; (done || lia). Qed.

(** A tunnel never forwards more than its byte budget, in both directions and the ClientHello together,
    and what it forwards in a direction is always a prefix of what it read there; with an expected name, the
    first bytes forwarded are a ClientHello showing exactly that name. *)
Theorem tunnel_stays_within_budget normalize target max expires now written client hello budget client' r
    (bounded : 0 <= max)
    (prologue : tunnel_prologue normalize target max expires now written client = (Ok (Some (hello, budget)), client'))
    (Hreach : rtc relay_step (mkRelay budget (flow_start hello) (flow_start [])) r) :
  len (forwarded (upward r)) + len (forwarded (downward r)) <= max
  /\ forwarded (upward r) `prefix_of` received (upward r)
  /\ forwarded (downward r) `prefix_of` received (downward r)
  /\ now < expires
  /\ forall name, expected_sni target = Some name ->
       read_client_hello normalize client = (Ok (Some (hello, name)), client') /\ incoming client = hello ++ incoming client'.
Proof.
  apply tunnel_prologue_Ok in prologue as (Hlen & Hb & Hexp & Hin & Hname); [|done].
  assert (Hok : relay_ok max r).
  { revert Hreach. apply (rtc_ind_r (relay_ok max)); [by apply relay_start_ok|].
    intros r1 r2 _ Hstep. by apply relay_step_ok. }
  destruct Hok as (Hu & Hd & Hb' & Hmax). split_and!; try by apply flow_ok_prefix.
  - pose proof (forwarded_charged (upward r)). pose proof (forwarded_charged (downward r)). lia.
  - done.
  - intros name Hn. by split; [apply Hname|].
Qed.

(** ** Reading the header *)
Lemma header_loop_spec fuel bytes s r s' :
  header_loop fuel bytes s = (r, s') -> MAX_HTTP_HEADER_BYTES < len bytes + Z.of_nat fuel -> len bytes <= MAX_HTTP_HEADER_BYTES ->
  match r with
  | Ok None => False
  | Ok (Some out) => exists suffix, out = bytes ++ suffix /\ incoming s = suffix ++ incoming s'
                       /\ ends_header out = true /\ len out <= MAX_HTTP_HEADER_BYTES
  | Err e => e = RequestTooLarge \/ e = SetupTimeout \/ e = Io
  end.
Proof.
  revert bytes s. induction fuel as [|fuel IH]; intros bytes s H Hfuel Hlen; [lia|]. cbn [header_loop] in H.
  destruct (ends_header bytes) eqn:E; [injection H as <- <-; exists []; by rewrite app_nil_r|].
  destruct (Z.leb_spec MAX_HTTP_HEADER_BYTES (len bytes)); [injection H as <- <-; by left|].
  rewrite M_bind_run in H. unfold read_u8 in H. rewrite M_bind_run, get_run in H.
  destruct (incoming s) as [|b rest] eqn:Ein; [injection H as <- <-; case_match; auto|]. cbn in H.
  apply IH in H; [|rewrite len_app; change (len [b]) with 1; lia..].
  destruct r as [[out|]|e]; [|done|done]. destruct H as (suffix & -> & Hin & He & Hl).
  exists (b :: suffix). rewrite <- app_assoc in *. cbn [incoming] in Hin. by rewrite Hin.
Qed.

Definition answered (e : ProxyError) : Prop := e = Io \/ is_Some (http_response e).

Lemma read_http_header_spec first s r s' :
  read_http_header first s = (r, s') ->
  match r with
  | Ok None => False
  | Ok (Some request) => bytes_of request ++ incoming s' = first :: incoming s
                         /\ ends_header (bytes_of request) = true /\ str_len request <= MAX_HTTP_HEADER_BYTES
  | Err e => answered e
  end.
Proof.
  unfold read_http_header. rewrite M_bind_run.
  destruct (header_loop HEADER_FUEL [first] s) as [r1 s1] eqn:E.
  apply header_loop_spec in E; [|vm_compute; congruence..]. destruct r1 as [[out|]|e]; [| done |].
  - destruct E as (suffix & -> & Hin & He & Hl). rewrite M_bind_run, lift_run. unfold from_utf8.
    destruct (valid_utf8 _); cbn [ok_or]; intros [= <- <-]; [|right; by eexists].
    change (String first (String.string_of_list_ascii suffix)) with (String.string_of_list_ascii ([first] ++ suffix)).
    unfold str_len. rewrite <- length_bytes_of, bytes_of_list, Hin. by split_and!.
  - intros [= <- <-]. destruct E as [->|[->| ->]]; [right | right | left]; (done || by eexists).
Qed.

(** Parsing and authentication fail only with errors that have an HTTP answer. *)
Lemma bind_answered {A B} (r : result ProxyError A) (k : A -> result ProxyError B) e :
  (forall e, r = Err e -> answered e) -> (forall a e, r = Ok a -> k a = Err e -> answered e) ->
  (r ≫= k) = Err e -> answered e.
Proof. intros Hr Hk H. destruct r as [a|e']; [by eapply Hk | injection H as ->; by apply Hr]. Qed.

Lemma ok_or_answered {A} (o : option A) e e' : answered e -> ok_or e o = Err e' -> answered e'.
Proof. destruct o; cbn; congruence. Qed.

Lemma answered_malformed : answered MalformedRequest.
Proof. right. by eexists. Qed.
Lemma answered_authentication : answered Authentication.
Proof. right. by eexists. Qed.
Lemma answered_policy e : answered (PPolicy e).
Proof. right. by eexists. Qed.
Lemma answered_capability e : answered (PCapability e).
Proof. right. by eexists. Qed.
#[local] Hint Resolve answered_malformed answered_authentication answered_policy answered_capability : core.

Lemma parse_authority_answered a e : parse_authority a = Err e -> answered e.
Proof.
  unfold parse_authority. case_match; [intros [= <-]; auto|]. apply bind_answered.
  - intros e'. apply ok_or_answered. auto.
  - intros [h p] e' _. case_match; [intros [= <-]; auto|]. apply bind_answered; [|done]. intros e''. apply ok_or_answered. auto.
Qed.

Lemma parse_proxy_authorization_answered d v e : parse_proxy_authorization d v = Err e -> answered e.
Proof.
  unfold parse_proxy_authorization. case_match; [intros [= <-]; auto|]. case_match.
  - case_match; [intros [= <-]; auto | done].
  - repeat (apply bind_answered; [intros ?; apply ok_or_answered; auto | intros ? ? _]).
    case_match; [intros [= <-]; auto | done].
Qed.

Lemma parse_headers_answered d t lines e : parse_headers d t lines = Err e -> answered e.
Proof.
  revert t e. induction lines as [|line lines IH]; intros t e; cbn [parse_headers]; [done|]. case_match; [done|].
  case_match; [intros [= <-]; auto|]. apply bind_answered; [intros ?; apply ok_or_answered; auto|].
  intros [n v] e' _. case_match; [|apply IH]. case_match; [intros [= <-]; auto|].
  apply bind_answered; [apply parse_proxy_authorization_answered | intros ? ? _; apply IH].
Qed.

Lemma parse_connect_answered d request e : parse_connect d request = Err e -> answered e.
Proof.
  unfold parse_connect. repeat (case_match; try (intros [= <-]; by auto)).
  apply bind_answered; [apply parse_authority_answered|]. intros [h p] e' _.
  apply bind_answered; [apply parse_headers_answered | done].
Qed.

Section setup_facts.
Context {Net Signature VerifyingKey : Type} `{EqDecision Net}.
Context (cidr_contains : Net -> Z -> bool).
Context (domain_to_ascii_strict : string -> option string).
Context (is_public_unicast : Z -> bool).
Context (lookup_ip : string -> option (list RData)).
Context (destination_json : CapabilityDestination Net -> string).
Context (to_json : Capability Net -> option (list Ascii.ascii)).
Context (from_json : list Ascii.ascii -> option (Capability Net)).
Context (b64_decode b64_standard_decode : string -> option (list Ascii.ascii)).
Context (from_der : list Ascii.ascii -> option Signature).
Context (verify : VerifyingKey -> list Ascii.ascii -> Signature -> bool).
Context (public_key : VerifyingKey) (deny : DenyPolicy Net) (limits : GatewayLimits).

Local Notation auth := (authenticate domain_to_ascii_strict destination_json to_json from_json b64_decode
  b64_standard_decode from_der verify public_key).
Local Notation setup := (connect_setup cidr_contains domain_to_ascii_strict is_public_unicast lookup_ip
  destination_json to_json from_json b64_decode b64_standard_decode from_der verify public_key deny limits).
Local Notation rooted := (setup_rooted cidr_contains domain_to_ascii_strict is_public_unicast lookup_ip deny limits).
Local Notation authorized_as := (authorize cidr_contains domain_to_ascii_strict is_public_unicast lookup_ip).

Lemma authenticate_answered request now e : auth request now = Err e -> answered e.
Proof.
  unfold authenticate. apply bind_answered; [apply parse_connect_answered|]. intros parsed e' _.
  apply bind_answered; [intros ?; apply ok_or_answered; auto|]. intros tok e'' _.
  destruct (verify_token _ _ _ _ _ _ _ _ _ _); cbn; [done|]. intros [= <-]. auto.
Qed.

Lemma dropping_setup_run {A : Type} (m : M (ClientStream * Gateway) ProxyError A) s :
  dropping_setup m s = match m s with
                       | (Ok a, s') => (Ok a, s')
                       | (Err e, (c, g)) => (Err e, (c, set_setups (g_setups g - 1) g))
                       end.
Proof.
  unfold dropping_setup. rewrite M_bind_run. unfold observed. destruct (m s) as [[a|e] [c g]]; done.
Qed.

Lemma acquire_root_run root c g :
  acquire_root limits root (c, g)
  = let '(granted, a) := quota_acquire (max_connections_per_root limits) root (g_active g) in
    (if granted then Ok tt else Err RootCapacity, (c, set_active a g)).
Proof.
  unfold acquire_root. rewrite M_bind_run, get_run. by destruct (quota_acquire _ _ _) as [[] a].
Qed.

(** What the part under the root permit comes to, in steps of connection [i]. *)
Lemma setup_rooted_steps outcome v request c g cs i root r c' g' :
  cs !! i = Some (PRooted root) -> rooted outcome v request (c, g) = (r, (c', g')) ->
  c' = c
  /\ match r with
     | Ok target =>
         authorized_as (v_policy v) deny (authority request) (cr_port request) = Ok target
         /\ gateway_step limits (mkSystem g cs) (mkSystem g' (<[i := PTunnel root]> cs))
     | Err e =>
         answered e
         /\ rtc (gateway_step limits) (mkSystem g cs)
              (mkSystem (set_active (quota_drop root (g_active g'))
                 (match e with Capacity | Upstream => g' | _ => set_setups (g_setups g' - 1) g' end)) (delete i cs))
     end.
Proof.
  intros Hi H. pose proof (leave_rooted limits g cs i root Hi) as Hleave.
  unfold setup_rooted in H. rewrite M_bind_run in H. destruct (authorized_in_time outcome).
  2: { rewrite throw_run in H. injection H as <- <- <-. split; [done|]. split; [right; by eexists|]. by apply rtc_once. }
  rewrite lift_run in H. destruct (authorize _ _ _ _ _ _ _ _) as [target|e] eqn:Ea; cbn [map_err] in H.
  2: { injection H as <- <- <-. split; [done|]. split; [right; by eexists|]. by apply rtc_once. }
  rewrite M_bind_run in H. unfold dial_target in H. rewrite M_bind_run, get_run in H.
  destruct (tunnel_in_time outcome && (g_tunnels g <? max_connections limits)) eqn:Et; cbn in H.
  2: { injection H as <- <- <-. split; [done|]. split; [right; by eexists|]. by apply rtc_once. }
  apply andb_true_iff in Et as [_ Hlt%Z.ltb_lt].
  pose proof (take_tunnel limits g cs i root Hi Hlt) as Htake.
  destruct (dialed outcome); cbn in H; injection H as <- <- <-; (split; [done|]); [by split|].
  split; [right; by eexists|]. eapply rtc_l; [exact Htake|]. apply rtc_once.
  pose proof (leave_tunnel limits (set_setups (g_setups g - 1) (set_tunnels (g_tunnels g + 1) g))
    (<[i := PTunnel root]> cs) i root (lookup_insert_eq _ _ _)) as Hl.
  rewrite delete_insert_eq in Hl. apply Hl.
Qed.

(** C33: a CONNECT setup is a run of the capacity protocol, whatever its steps come to: it always returns; a
    success leaves its connection holding one tunnel slot and one permit of the root its token names, for a
    target that the verified policy and the deny list authorize; a failure gives back everything it held,
    and is answered over HTTP unless the socket itself broke. *)
Theorem connect_setup_refines_capacity outcome first now c g cs i r c' g'
    (waiting : cs !! i = Some PSetup) (H : setup outcome first now (c, g) = (r, (c', g'))) :
  match r with
  | Ok None => False
  | Ok (Some e) =>
      rtc (gateway_step limits) (mkSystem g cs) (mkSystem g' (<[i := PTunnel (e_root e)]> cs))
      /\ exists request parsed tok v,
           bytes_of request ++ incoming c' = first :: incoming c /\ ends_header (bytes_of request) = true
           /\ parse_connect b64_standard_decode request = Ok parsed /\ token parsed = Some tok
           /\ verify_token domain_to_ascii_strict destination_json to_json from_json b64_decode from_der verify
                tok public_key now = Ok v
           /\ authorized_as (v_policy v) deny (authority parsed) (cr_port parsed) = Ok (e_target e)
           /\ e_expires_at_ms e = expires_at_ms (capability v) /\ e_root e = c_root_id (capability v)
  | Err e => rtc (gateway_step limits) (mkSystem g cs) (mkSystem g' (delete i cs)) /\ answered e
  end.
Proof.
  pose proof (leave_setup limits g cs i waiting) as Hleave.
  unfold connect_setup in H. rewrite M_bind_run, dropping_setup_run in H. unfold on_client in H.
  destruct (read_http_header first c) as [r1 c1] eqn:Er. apply read_http_header_spec in Er.
  destruct r1 as [[request|]|e]; [|done|].
  2: { injection H as <- <- <-. split; [by apply rtc_once | done]. }
  destruct Er as (Hbytes & Hends & _). rewrite M_bind_run, dropping_setup_run, lift_run in H.
  destruct (auth request now) as [v|e] eqn:Eauth.
  2: { injection H as <- <- <-. split; [by apply rtc_once | by eapply authenticate_answered]. }
  unfold authenticate in Eauth. apply result_bind_Ok in Eauth as (parsed & Hparsed & Eauth).
  rewrite ok_or_bind_Ok in Eauth. destruct Eauth as (tok & Htok & Hv%map_err_Ok).
  rewrite M_bind_run, dropping_setup_run, lift_run, Hparsed in H. rewrite M_bind_run, dropping_setup_run in H.
  rewrite acquire_root_run in H. destruct (quota_acquire _ _ _) as [[] a] eqn:Eq; cbn iota in H.
  2: { injection H as <- <- <-. split; [|right; by eexists]. apply rtc_once. by eapply refuse_root. }
  set (root := c_root_id (capability v)) in *.
  assert (Htake : gateway_step limits (mkSystem g cs) (mkSystem (set_active a g) (<[i := PRooted root]> cs)))
    by (by apply take_root).
  rewrite M_bind_run in H. unfold observed at 1 in H.
  destruct (rooted outcome v parsed (c1, set_active a g)) as [r2 [c2 g2]] eqn:Erooted.
  eapply (setup_rooted_steps _ _ _ _ _ (<[i := PRooted root]> cs) i root) in Erooted as [-> Hr]; [|apply lookup_insert_eq].
  destruct r2 as [target|e].
  - destruct Hr as [Hauth Hstep]. cbn in H. injection H as <- <- <-. rewrite insert_insert_eq in Hstep. split.
    + eapply rtc_l; [exact Htake | by apply rtc_once].
    + exists request, parsed, tok, v. by split_and!.
  - destruct Hr as [Hans Hstep]. rewrite delete_insert_eq in Hstep. rewrite M_bind_run in H.
    assert (Hend : r = Err e /\ g' = set_active (quota_drop root (g_active g2))
              (match e with Capacity | Upstream => g2 | _ => set_setups (g_setups g2 - 1) g2 end))
      by (destruct e; cbn in H; by injection H as <- <- <-).
    destruct Hend as [-> ->]. split; [|done]. eapply rtc_l; [exact Htake | exact Hstep].
Qed.
End setup_facts.

(** ** Witnesses *)
Definition sample_limits : GatewayLimits := mkGatewayLimits 2 1 4 100000.
Definition sample_one : System := mkSystem (mkGateway ∅ 0 1) {[ 0%nat := PSetup ]}.

Lemma quotas_count_live_connections_witness : capacity_ok sample_limits sample_one.
Proof.
  apply (quotas_count_live_connections sample_limits sample_one); [vm_compute; congruence.. |].
  apply rtc_once. apply (accept sample_limits (mkGateway ∅ 0 0) ∅ 0%nat); [done | reflexivity].
Defined.

Definition sample_crlf : string := String CR (String LF EmptyString).
Definition sample_request_text : string :=
  "CONNECT example.com:443 HTTP/1.1" +:+ sample_crlf +:+ "Proxy-Authorization: Bearer " +:+ sample_token
  +:+ sample_crlf +:+ sample_crlf.
Definition sample_client : ClientStream :=
  mkClientStream (tail (bytes_of sample_request_text) ++ bytes_of "hi") true.
Definition sample_lookup (name : string) : option (list RData) :=
  if str_eqb name "example.com." then Some [CNAME "cdn.example.net."; A 134744072] else None.

Lemma connect_setup_refines_capacity_witness :
  rtc (gateway_step sample_limits) sample_one
    (mkSystem (mkGateway {[ "root-1" := 1 ]} 1 0) (<[0%nat := PTunnel "root-1"]> {[ 0%nat := PSetup ]})).
Proof.
  refine (proj1 (connect_setup_refines_capacity (fun net a => (net =? 8) && (a / 16777216 =? 8)) sample_idna (fun _ => true)
    sample_lookup sample_text sample_cap_json sample_cap_unjson sample_unb64 sample_unb64 sample_der sample_verify
    3 (mkDenyPolicy ["aex.dev"; "*.aex.dev"] []) sample_limits (mkSetupOutcome true true true) "C"%char 1000000
    sample_client (mkGateway ∅ 0 1) {[ 0%nat := PSetup ]} 0%nat
    (Ok (Some (mkEstablishedConnect (mkAuthorizedTarget 134744072 443 (Some "example.com")) 1060000 "root-1")))
    (mkClientStream (bytes_of "hi") true) (mkGateway {[ "root-1" := 1 ]} 1 0) eq_refl _)).
  vm_compute. reflexivity.
Defined.

Definition sample_record : list Ascii.ascii := encode_record (byte_of 3, byte_of 1, encode_hello sample_hello).
Lemma tunnel_stays_within_budget_witness :
  len sample_record + 0 <= 1000 /\ 1000000 < 1060000.
Proof.
  destruct (tunnel_stays_within_budget sample_normalize (mkAuthorizedTarget 134744072 443 (Some "example.com")) 1000
    1060000 1000000 (Ok tt) (mkClientStream (sample_record ++ bytes_of "hi") true) sample_record (1000 - len sample_record)
    (mkClientStream (bytes_of "hi") true) (mkRelay (1000 - len sample_record) (flow_start sample_record) (flow_start [])))
    as (H1 & _ & _ & H2 & _); [lia | vm_compute; reflexivity | apply rtc_refl | split; [exact H1 | exact H2]].
Defined.
