(* ===== verification/Serve.v ===== *)
(** * hand-egress-gateway: the serving loops

    Models the rest of crates/hand-egress-gateway/src/proxy.rs on top of Proxy.v: the two accept loops, the
    bytes every connection is answered with, and the life of each connection from its setup slot to its
    close, as a step relation in which all connections share the gateway's capacity and interleave at every
    point where the code awaits. Whatever may happen while a step waits (a peer that stays silent, a timer, a
    broken socket) is an outcome the step is free to have. *)
From stdpp Require Import pretty.
From S2P Require Import Prelude Policy Connector EgressPolicy Capability TlsHello Proxy.

Local Notation bytes := (list Ascii.ascii).

(** ** The answers *)
Definition CRLF : string := String CR (String LF EmptyString).

Definition write_http_error (status : Z) (reason : string) : bytes :=
  bytes_of ("HTTP/1.1 " +:+ pretty status +:+ " " +:+ reason +:+ CRLF
            +:+ "Content-Length: 0" +:+ CRLF +:+ "Connection: close" +:+ CRLF +:+ CRLF).

Definition AUTHENTICATION_REQUIRED : bytes :=
  bytes_of ("HTTP/1.1 407 Proxy Authentication Required" +:+ CRLF +:+ "Content-Length: 0" +:+ CRLF
            +:+ "Connection: close" +:+ CRLF +:+ "Proxy-Authenticate: Bearer" +:+ CRLF +:+ CRLF).

Definition HEALTH_OK : bytes :=
  bytes_of ("HTTP/1.1 200 OK" +:+ CRLF +:+ "Content-Length: 2" +:+ CRLF +:+ "Connection: close" +:+ CRLF +:+ CRLF
            +:+ "ok").

Definition ESTABLISHED : bytes := bytes_of ("HTTP/1.1 200 Connection Established" +:+ CRLF +:+ CRLF).

(** What [handle_http] writes for a setup that failed. *)
Definition rejection_answer (e : ProxyError) : bytes :=
  match http_response e with
  | Some (status, reason) =>
      if status =? 407 then AUTHENTICATION_REQUIRED else write_http_error status reason
  | None => []
  end.

Definition health_answer (status : Z) : bytes :=
  if status =? 200 then HEALTH_OK else write_http_error status "Not Found".

(** What a [write_all] that ends this way has sent. *)
Definition sent (outcome : WriteOutcome) (b : bytes) : bytes :=
  match outcome with WriteDone => b | WriteFailed n => take n b end.

Definition written (outcome : WriteOutcome) : result ProxyError unit :=
  match outcome with WriteDone => Ok tt | WriteFailed _ => Err Io end.

Section serve.
Context {Net Signature VerifyingKey : Type} `{EqDecision Net}.
Context (cidr_contains : Net -> Z -> bool).
Context (domain_to_ascii_strict : string -> option string).
Context (is_public_unicast : Z -> bool).
Context (lookup_ip : string -> option (list RData)).
Context (destination_json : CapabilityDestination Net -> string).
Context (to_json : Capability Net -> option (list Ascii.ascii)).
Context (from_json : list Ascii.ascii -> option (Capability Net)).
Context (b64_decode b64_standard_decode : string -> option (list Ascii.ascii)).
Context (from_der : list Ascii.ascii -> option Signature).
Context (verify : VerifyingKey -> list Ascii.ascii -> Signature -> bool).
Context (public_key : VerifyingKey) (deny : DenyPolicy Net) (limits : GatewayLimits).

Local Notation auth := (authenticate domain_to_ascii_strict destination_json to_json from_json b64_decode
  b64_standard_decode from_der verify public_key).
Local Notation parsed_as := (parse_connect b64_standard_decode).
Local Notation authorized_as := (authorize cidr_contains domain_to_ascii_strict is_public_unicast lookup_ip).
Local Notation normalize := (normalize_host domain_to_ascii_strict).
Local Notation prologue := (tunnel_prologue normalize).

(** ** A connection *)
(** Where its task is: [Waiting] is the accept loop holding the setup slot of a connection still to come. *)
Inductive Stage :=
  | Waiting
  | Accepted
  | Checked (v : VerifiedCapability Net) (request : ConnectRequest)
  | Rooted (v : VerifiedCapability Net) (request : ConnectRequest)
  | Dialing (v : VerifiedCapability Net) (target : AuthorizedTarget)
  | Tunnelled (v : VerifiedCapability Net) (target : AuthorizedTarget)
  | Relaying (v : VerifiedCapability Net) (target : AuthorizedTarget) (r : Relay)
  | HealthAccepted
  | Closed.

(** [c_input] is all the client sends, [c_client] what of it is still unread; the rest is what the gateway
    wrote to either side. *)
Record Conn := mkConn {
  c_input : ClientStream; c_client : ClientStream; c_stage : Stage; c_to_client : bytes; c_to_upstream : bytes }.

Definition accepted (stage : Stage) (input : ClientStream) : Conn := mkConn input input stage [] [].
Definition moved (stage : Stage) (client : ClientStream) (c : Conn) : Conn :=
  mkConn (c_input c) client stage (c_to_client c) (c_to_upstream c).
(** The task writes its last answer and ends; the sockets close. *)
Definition answered_with (b : bytes) (outcome : WriteOutcome) (c : Conn) : Conn :=
  mkConn (c_input c) (c_client c) Closed (c_to_client c ++ sent outcome b) (c_to_upstream c).
Definition closed (c : Conn) : Conn := moved Closed (c_client c) c.

Definition root_of (v : VerifiedCapability Net) : string := c_root_id (capability v).

(** [handle_health] with its answer. [None] of the reader is its fuel, which is enough. *)
Definition serve_health_request (first : Ascii.ascii) (outcome : WriteOutcome) (c : Conn) : Conn :=
  match (handle_health first (c_client c)).1 with
  | Ok (Some status) => answered_with (health_answer status) outcome c
  | _ => closed c
  end.

(** [handle_health_connection] on the health listener. *)
Definition serve_health_connection (outcome : WriteOutcome) (c : Conn) : Conn :=
  match read_u8 (c_client c) with
  | (Ok first, client) =>
      if Ascii.eqb first "G"%char then serve_health_request first outcome (moved (c_stage c) client c) else closed c
  | _ => closed c
  end.

(** [connect_setup] up to the root permit. *)
Definition read_connect (first : Ascii.ascii) (now_ms : Z) (outcome : WriteOutcome) (c : Conn) : Conn :=
  match read_http_header first (c_client c) with
  | (Ok (Some request), client) =>
      match (v ← auth request now_ms; parsed ← parsed_as request; Ok (v, parsed)) with
      | Ok (v, parsed) => moved (Checked v parsed) client c
      | Err e => answered_with (rejection_answer e) outcome c
      end
  | (Ok None, _) => closed c
  | (Err e, _) => answered_with (rejection_answer e) outcome c
  end.

(** [handle] up to the root permit. *)
Definition begin_connection (now_ms : Z) (outcome : WriteOutcome) (c : Conn) : Conn :=
  match read_u8 (c_client c) with
  | (Ok first, client) =>
      let c := moved (c_stage c) client c in
      if Ascii.eqb first "C"%char then read_connect first now_ms outcome c
      else if Ascii.eqb first "G"%char then serve_health_request first outcome c
      else closed c
  | _ => closed c
  end.

(** The ClientHello bytes that reach the upstream when the prologue ends: none before the name is compared
    and the budget is charged. *)
Definition hello_sent (target : AuthorizedTarget) (outcome : WriteOutcome) (client : ClientStream) : bytes :=
  match expected_sni target with
  | None => []
  | Some expected =>
      match (read_client_hello normalize client).1 with
      | Ok (Some (raw, actual)) =>
          if str_eqb actual expected then
            match consume (max_relay_bytes limits) (len raw) with Some _ => sent outcome raw | None => [] end
          else []
      | _ => []
      end
  end.

(** The relay of a tunnel, with what the client was already told and what either side was sent. *)
Definition relaying v target (r : Relay) (client : ClientStream) (c : Conn) : Conn :=
  mkConn (c_input c) client (Relaying v target r) (ESTABLISHED ++ forwarded (downward r)) (forwarded (upward r)).

(** [tunnel] up to its relay. *)
Definition open_tunnel v target (now_ms : Z) (outcome : WriteOutcome) (c : Conn) : Conn :=
  match prologue target (max_relay_bytes limits) (expires_at_ms (capability v)) now_ms (written outcome) (c_client c) with
  | (Ok (Some (hello, budget)), client) =>
      relaying v target (mkRelay budget (flow_start hello) (flow_start [])) client c
  | (_, client) => mkConn (c_input c) client Closed (c_to_client c) (hello_sent target outcome (c_client c))
  end.

(** ** The steps of one connection over the shared capacity *)
Definition release_setup (g : Gateway) : Gateway := set_setups (g_setups g - 1) g.
Definition release_root (v : VerifiedCapability Net) (g : Gateway) : Gateway :=
  set_active (quota_drop (root_of v) (g_active g)) g.
(** Dropping [TunnelGuards]. *)
Definition release_guards (v : VerifiedCapability Net) (g : Gateway) : Gateway :=
  release_root v (set_tunnels (g_tunnels g - 1) g).

Definition is_closed (c : Conn) : bool := match c_stage c with Closed => true | _ => false end.

(** What [authorize] and the tunnel permit may fail with before the deadline or at it. *)
Definition setup_fails (v : VerifiedCapability Net) (request : ConnectRequest) (e : ProxyError) : Prop :=
  e = SetupTimeout \/ e = Capacity
  \/ map_err PPolicy (authorized_as (v_policy v) deny (authority request) (cr_port request)) = Err e.

Inductive conn_step : Gateway * Conn -> Gateway * Conn -> Prop :=
  | begins g c now_ms outcome c' :
      c_stage c = Accepted -> begin_connection now_ms outcome c = c' ->
      conn_step (g, c) (if is_closed c' then release_setup g else g, c')
  (** [set_nodelay] may fail where a task starts, and again where the tunnel opens. *)
  | fails_socket g c : c_stage c = Accepted -> conn_step (g, c) (release_setup g, closed c)
  | fails_health_socket g c : c_stage c = HealthAccepted -> conn_step (g, c) (g, closed c)
  | fails_tunnel_socket g c v target :
      c_stage c = Tunnelled v target -> conn_step (g, c) (release_guards v g, closed c)
  | health_answers g c outcome :
      c_stage c = HealthAccepted -> conn_step (g, c) (g, serve_health_connection outcome c)
  | takes_root g c v request a :
      c_stage c = Checked v request ->
      quota_acquire (max_connections_per_root limits) (root_of v) (g_active g) = (true, a) ->
      conn_step (g, c) (set_active a g, moved (Rooted v request) (c_client c) c)
  | refuses_root g c v request a outcome :
      c_stage c = Checked v request ->
      quota_acquire (max_connections_per_root limits) (root_of v) (g_active g) = (false, a) ->
      conn_step (g, c) (release_setup (set_active a g), answered_with (rejection_answer RootCapacity) outcome c)
  | fails_setup g c v request e outcome :
      c_stage c = Rooted v request -> setup_fails v request e ->
      conn_step (g, c) (release_root v (release_setup g), answered_with (rejection_answer e) outcome c)
  | takes_tunnel g c v request target :
      c_stage c = Rooted v request ->
      authorized_as (v_policy v) deny (authority request) (cr_port request) = Ok target ->
      g_tunnels g < max_connections limits ->
      conn_step (g, c) (release_setup (set_tunnels (g_tunnels g + 1) g), moved (Dialing v target) (c_client c) c)
  | fails_dial g c v target outcome :
      c_stage c = Dialing v target ->
      conn_step (g, c) (release_guards v g, answered_with (rejection_answer Upstream) outcome c)
  | dials g c v target :
      c_stage c = Dialing v target ->
      conn_step (g, c)
        (g, mkConn (c_input c) (c_client c) (Tunnelled v target) (c_to_client c ++ ESTABLISHED) (c_to_upstream c))
  | loses_client g c v target n :
      c_stage c = Dialing v target -> conn_step (g, c) (release_guards v g, answered_with ESTABLISHED (WriteFailed n) c)
  | opens_tunnel g c v target now_ms outcome c' :
      c_stage c = Tunnelled v target -> open_tunnel v target now_ms outcome c = c' ->
      conn_step (g, c) (if is_closed c' then release_guards v g else g, c')
  | relays g c v target r r' chunk rest :
      c_stage c = Relaying v target r -> relay_step r r' ->
      received (upward r') = received (upward r) ++ chunk -> incoming (c_client c) = chunk ++ rest ->
      conn_step (g, c) (g, relaying v target r' (mkClientStream rest (goes_silent (c_client c))) c)
  (** Both directions ended, one failed, or the capability's lifetime ran out. *)
  | ends_relay g c v target r :
      c_stage c = Relaying v target r -> conn_step (g, c) (release_guards v g, closed c).

(** ** The server *)
Record Server := mkServer { s_gateway : Gateway; s_conns : gmap nat Conn; s_serving : bool }.

(** [serve]: the proxy loop takes a setup slot before it accepts; a failed accept of either listener ends
    both loops, which drops the slot of a connection that never came. *)
Inductive server_step : Server -> Server -> Prop :=
  | takes_slot g cs i :
      cs !! i = None -> map_Forall (fun _ c => c_stage c <> Waiting) cs -> g_setups g < max_pending_setups limits ->
      server_step (mkServer g cs true)
        (mkServer (set_setups (g_setups g + 1) g) (<[i := accepted Waiting (mkClientStream [] false)]> cs) true)
  | accepts g cs i c input :
      cs !! i = Some c -> c_stage c = Waiting ->
      server_step (mkServer g cs true) (mkServer g (<[i := accepted Accepted input]> cs) true)
  | accepts_health g cs i input :
      cs !! i = None -> server_step (mkServer g cs true) (mkServer g (<[i := accepted HealthAccepted input]> cs) true)
  | fails_accept g cs : server_step (mkServer g cs true) (mkServer g cs false)
  | drops_slot g cs i c :
      cs !! i = Some c -> c_stage c = Waiting ->
      server_step (mkServer g cs false) (mkServer (release_setup g) (delete i cs) false)
  | serves g cs i c g' c' b :
      cs !! i = Some c -> conn_step (g, c) (g', c') -> server_step (mkServer g cs b) (mkServer g' (<[i := c']> cs) b).

Definition server_start : Server := mkServer (mkGateway ∅ 0 0) ∅ true.

(** The steps that may close a connection, where they do not. *)
Lemma begins_open g c now_ms outcome c' :
  c_stage c = Accepted -> begin_connection now_ms outcome c = c' -> is_closed c' = false -> conn_step (g, c) (g, c').
Proof. intros Hc Hb Ho. pose proof (begins g c now_ms outcome c' Hc Hb) as H. by rewrite Ho in H. Qed.

Lemma opens_relay g c v target now_ms outcome c' :
  c_stage c = Tunnelled v target -> open_tunnel v target now_ms outcome c = c' -> is_closed c' = false ->
  conn_step (g, c) (g, c').
Proof. intros Hc Hb Ho. pose proof (opens_tunnel g c v target now_ms outcome c' Hc Hb) as H. by rewrite Ho in H. Qed.

(** Where only the upstream side of a relay moves. *)
Lemma relays_down g c v target r r' c' :
  c_stage c = Relaying v target r -> relay_step r r' -> received (upward r') = received (upward r) ->
  relaying v target r' (c_client c) c = c' -> conn_step (g, c) (g, c').
Proof.
  intros Hc Hstep Hrec <-. pose proof (relays g c v target r r' [] (incoming (c_client c)) Hc Hstep) as H.
  rewrite app_nil_r in H. specialize (H Hrec eq_refl). by destruct (c_client c).
Qed.

(** ** The server runs the capacity protocol *)
(** What a connection holds of the shared capacity. *)
Definition phase_of (c : Conn) : option Phase :=
  match c_stage c with
  | Waiting | Accepted | Checked _ _ => Some PSetup
  | Rooted v _ => Some (PRooted (root_of v))
  | Dialing v _ | Tunnelled v _ | Relaying v _ _ => Some (PTunnel (root_of v))
  | HealthAccepted | Closed => None
  end.

Definition system_of (s : Server) : System := mkSystem (s_gateway s) (omap phase_of (s_conns s)).

Lemma phase_lookup (cs : gmap nat Conn) i c p :
  cs !! i = Some c -> phase_of c = Some p -> omap phase_of cs !! i = Some p.
Proof. intros Hi Hp. by rewrite lookup_omap, Hi. Qed.

Lemma phase_keep (cs : gmap nat Conn) i c c' :
  cs !! i = Some c -> phase_of c' = phase_of c -> omap phase_of (<[i := c']> cs) = omap phase_of cs.
Proof.
  intros Hi Hp. apply map_eq. intros j. rewrite !lookup_omap. destruct (decide (i = j)) as [<-|].
  - by rewrite lookup_insert_eq, Hi.
  - by rewrite lookup_insert_ne.
Qed.

(** Every way a connection is served leaves it closed or one stage on. *)
Lemma serve_health_request_closed first outcome c : c_stage (serve_health_request first outcome c) = Closed.
Proof. unfold serve_health_request. by repeat case_match. Qed.

Lemma serve_health_connection_closed outcome c : c_stage (serve_health_connection outcome c) = Closed.
Proof. unfold serve_health_connection. repeat case_match; (done || apply serve_health_request_closed). Qed.

Lemma begin_connection_stage now_ms outcome c :
  c_stage (begin_connection now_ms outcome c) = Closed
  \/ exists v request, c_stage (begin_connection now_ms outcome c) = Checked v request.
Proof.
  unfold begin_connection, read_connect.
  repeat case_match; (by left) || (by right; eauto) || (left; apply serve_health_request_closed).
Qed.

Lemma open_tunnel_stage v target now_ms outcome c :
  c_stage (open_tunnel v target now_ms outcome c) = Closed
  \/ exists r, c_stage (open_tunnel v target now_ms outcome c) = Relaying v target r.
Proof. unfold open_tunnel. repeat case_match; (by left) || (by right; eauto). Qed.

Lemma setup_released (cs : gmap nat Conn) i g c' :
  omap phase_of cs !! i = Some PSetup -> phase_of c' = None ->
  rtc (gateway_step limits) (mkSystem g (omap phase_of cs)) (mkSystem (release_setup g) (omap phase_of (<[i := c']> cs))).
Proof. intros Hi Hc. rewrite omap_insert, Hc. apply rtc_once. by apply leave_setup. Qed.

Lemma guards_released (cs : gmap nat Conn) i g v c' :
  omap phase_of cs !! i = Some (PTunnel (root_of v)) -> phase_of c' = None ->
  rtc (gateway_step limits) (mkSystem g (omap phase_of cs)) (mkSystem (release_guards v g) (omap phase_of (<[i := c']> cs))).
Proof. intros Hi Hc. rewrite omap_insert, Hc. apply rtc_once. by apply (leave_tunnel limits g _ i (root_of v)). Qed.

Lemma conn_step_capacity (cs : gmap nat Conn) i g c g' c' :
  cs !! i = Some c -> conn_step (g, c) (g', c') ->
  rtc (gateway_step limits) (mkSystem g (omap phase_of cs)) (mkSystem g' (omap phase_of (<[i := c']> cs))).
Proof.
  intros Hi Hstep. pose proof (fun p => phase_lookup cs i c p Hi) as Hat. pose proof (phase_keep cs i c c' Hi) as Hkeep.
  inversion Hstep; subst; unfold phase_of at 1 in Hat; unfold phase_of at 2 in Hkeep;
    match goal with H : c_stage c = _ |- _ => rewrite H in Hat, Hkeep end; try specialize (Hat _ eq_refl).
  - destruct (begin_connection_stage now_ms outcome c) as [E|(v & request & E)]; unfold is_closed; rewrite E.
    + apply setup_released; [done | unfold phase_of; by rewrite E].
    + rewrite Hkeep; [done|]. unfold phase_of. by rewrite E.
  - by apply setup_released.
  - by rewrite Hkeep.
  - by apply guards_released.
  - rewrite Hkeep; [done|]. unfold phase_of. by rewrite serve_health_connection_closed.
  - rewrite omap_insert. apply rtc_once. by apply (take_root limits g _ i (root_of v)).
  - rewrite omap_insert. apply rtc_once. by apply (refuse_root limits g _ i (root_of v)).
  - rewrite omap_insert. apply rtc_once. by apply (leave_rooted limits g _ i (root_of v)).
  - rewrite omap_insert. apply rtc_once. by apply (take_tunnel limits g _ i (root_of v)).
  - by apply guards_released.
  - by rewrite Hkeep.
  - by apply guards_released.
  - destruct (open_tunnel_stage v target now_ms outcome c) as [E|(r & E)]; unfold is_closed; rewrite E.
    + apply guards_released; [done | unfold phase_of; by rewrite E].
    + rewrite Hkeep; [done|]. unfold phase_of. by rewrite E.
  - by rewrite Hkeep.
  - by apply guards_released.
Qed.

(** Every step of the server is a run of the protocol of Proxy.v. *)
Lemma server_step_capacity s s' : server_step s s' -> rtc (gateway_step limits) (system_of s) (system_of s').
Proof.
  intros H. destruct H as
    [g cs i Hi _ Hlt | g cs i c input Hi Hw | g cs i input Hi | g cs | g cs i c Hi Hw | g cs i c g' c' b Hi Hstep];
    unfold system_of; cbn [s_gateway s_conns].
  - rewrite omap_insert. apply rtc_once. apply accept; [by rewrite lookup_omap, Hi | done].
  - erewrite phase_keep; [done | exact Hi | unfold phase_of; by rewrite Hw].
  - rewrite omap_insert. cbn [phase_of accepted c_stage]. by rewrite delete_id; [|by rewrite lookup_omap, Hi].
  - done.
  - rewrite omap_delete. apply rtc_once, leave_setup. eapply phase_lookup; [exact Hi | unfold phase_of; by rewrite Hw].
  - by eapply conn_step_capacity.
Qed.

(** ** What a connection may have been sent *)
(** The client's first request, up to [client], names [request] under a token that verifies to [v]. *)
Definition request_ok (input client : ClientStream) (v : VerifiedCapability Net) (request : ConnectRequest) : Prop :=
  exists text tok now_ms,
    bytes_of text ++ incoming client = incoming input /\ parsed_as text = Ok request /\ token request = Some tok
    /\ verify_token domain_to_ascii_strict destination_json to_json from_json b64_decode from_der verify
         tok public_key now_ms = Ok v.

(** The same, and the verified policy and the deny list authorize [target] for it. *)
Definition permitted (input client : ClientStream) (v : VerifiedCapability Net) (target : AuthorizedTarget) : Prop :=
  exists request, request_ok input client v request
    /\ authorized_as (v_policy v) deny (authority request) (cr_port request) = Ok target.

Definition gateway_answer (b : bytes) : Prop :=
  b = ESTABLISHED \/ (exists status, b = health_answer status) \/ exists e, b = rejection_answer e.

(** Nothing reached an upstream, and the client saw at most one of the gateway's own answers. *)
Definition only_answered (c : Conn) : Prop :=
  c_to_upstream c = [] /\ exists answer, gateway_answer answer /\ c_to_client c `prefix_of` answer.

(** [up] and [down] flowed for a client whose bytes after the request are [rest]. *)
Definition traffic_ok (target : AuthorizedTarget) (rest : ClientStream) (up down : bytes) : Prop :=
  up `prefix_of` incoming rest /\ len up + len down <= max_relay_bytes limits
  /\ forall name, expected_sni target = Some name ->
       up = [] /\ down = []
       \/ exists raw rest', read_client_hello normalize rest = (Ok (Some (raw, name)), rest')
            /\ (up `prefix_of` raw /\ down = [] \/ raw `prefix_of` up).

Definition tunnelled (c : Conn) : Prop :=
  exists v target rest down, permitted (c_input c) rest v target /\ c_to_client c = ESTABLISHED ++ down
    /\ traffic_ok target rest (c_to_upstream c) down.

Definition unanswered (c : Conn) : Prop := c_to_client c = [] /\ c_to_upstream c = [].

Definition conn_ok (c : Conn) : Prop :=
  match c_stage c with
  | Waiting | Accepted | HealthAccepted => c_client c = c_input c /\ unanswered c
  | Checked v request | Rooted v request => request_ok (c_input c) (c_client c) v request /\ unanswered c
  | Dialing v target => permitted (c_input c) (c_client c) v target /\ unanswered c
  | Tunnelled v target =>
      permitted (c_input c) (c_client c) v target /\ c_to_client c = ESTABLISHED /\ c_to_upstream c = []
  | Relaying v target r =>
      exists rest, permitted (c_input c) rest v target /\ relay_ok (max_relay_bytes limits) r
        /\ received (upward r) ++ incoming (c_client c) = incoming rest
        /\ (forall name, expected_sni target = Some name -> exists raw rest',
               read_client_hello normalize rest = (Ok (Some (raw, name)), rest') /\ raw `prefix_of` forwarded (upward r))
        /\ c_to_client c = ESTABLISHED ++ forwarded (downward r) /\ c_to_upstream c = forwarded (upward r)
  | Closed => only_answered c \/ tunnelled c
  end.

Lemma sent_prefix outcome b : sent outcome b `prefix_of` b.
Proof. destruct outcome; [done | apply prefix_take]. Qed.

Lemma answered_with_ok b outcome c : gateway_answer b -> unanswered c -> only_answered (answered_with b outcome c).
Proof.
  intros Hb [Hc Hu]. split; [done|]. exists b. split; [done|]. cbn. rewrite Hc. apply sent_prefix.
Qed.

Lemma rejected_ok e outcome c : unanswered c -> only_answered (answered_with (rejection_answer e) outcome c).
Proof. apply answered_with_ok. right. right. by exists e. Qed.

Lemma closed_ok c : unanswered c -> only_answered (closed c).
Proof. intros [Hc Hu]. split; [done|]. exists ESTABLISHED. split; [by left|]. cbn. rewrite Hc. apply prefix_nil. Qed.

Lemma serve_health_request_ok first outcome c : unanswered c -> only_answered (serve_health_request first outcome c).
Proof.
  intros Hc. unfold serve_health_request. repeat case_match; try by apply closed_ok.
  apply answered_with_ok; [|done]. right. left. by eexists.
Qed.

Lemma serve_health_connection_ok outcome c : unanswered c -> only_answered (serve_health_connection outcome c).
Proof.
  intros Hc. unfold serve_health_connection. repeat case_match; try by apply closed_ok.
  by apply serve_health_request_ok.
Qed.

Lemma read_u8_Ok s b s' : read_u8 s = (Ok b, s') -> incoming s = b :: incoming s'.
Proof. unfold read_u8. rewrite M_bind_run, get_run. destruct (incoming s) as [|x l]; [done|]. by intros [= <- <-]. Qed.

Lemma begin_connection_ok now_ms outcome c :
  c_client c = c_input c -> unanswered c -> conn_ok (begin_connection now_ms outcome c).
Proof.
  intros Hfresh Hc. unfold begin_connection. destruct (read_u8 (c_client c)) as [[first|e] client] eqn:Eu; [|by left; apply closed_ok].
  apply read_u8_Ok in Eu. case_match.
  2: { case_match; [|by left; apply closed_ok]. unfold conn_ok. rewrite serve_health_request_closed.
       left. by apply serve_health_request_ok. }
  unfold read_connect. cbn [c_client moved].
  destruct (read_http_header first client) as [[[text|]|e] client'] eqn:Er; apply read_http_header_spec in Er; [|done|].
  2: { left. by apply rejected_ok. }
  destruct Er as (Hbytes & _ & _). destruct (auth text now_ms) as [v|e] eqn:Ea; cbn; [|by left; apply rejected_ok].
  destruct (parsed_as text) as [request|e] eqn:Ep; cbn; [|by left; apply rejected_ok].
  unfold authenticate in Ea. rewrite Ep in Ea. cbn in Ea. destruct (token request) as [tok|] eqn:Et; [|done].
  cbn in Ea. apply map_err_Ok in Ea. split; [|done]. exists text, tok, now_ms. cbn. by rewrite Hbytes, <- Eu, Hfresh.
Qed.

Lemma nothing_sent_ok target rest : 0 <= max_relay_bytes limits -> traffic_ok target rest [] [].
Proof. intros H. split; [apply prefix_nil|]. split; [done|]. intros name _. by left. Qed.

Lemma hello_sent_ok target outcome client :
  0 <= max_relay_bytes limits -> traffic_ok target client (hello_sent target outcome client) [].
Proof.
  intros Hmax. unfold hello_sent. destruct (expected_sni target) as [expected|] eqn:Ex; [|by apply nothing_sent_ok].
  destruct (read_client_hello normalize client) as [[[[raw actual]|]|e] client'] eqn:Er; cbn [fst]; try by apply nothing_sent_ok.
  destruct (str_eqb_spec actual expected) as [->|]; [|by apply nothing_sent_ok].
  destruct (consume (max_relay_bytes limits) (len raw)) as [b|] eqn:Eb; [|by apply nothing_sent_ok].
  apply checked_sub_Some in Eb as [_ Hle]. pose proof (sent_prefix outcome raw) as Hpre.
  pose proof (read_client_hello_consumes _ _ _ _ _ Er) as Hin. split; [|split].
  - rewrite Hin. etrans; [exact Hpre | by apply prefix_app_r].
  - apply prefix_length in Hpre. unfold len in *. cbn. lia.
  - intros name Hname. right. exists raw, client'. rewrite Ex in Hname. injection Hname as ->. split; [done|]. by left.
Qed.

Lemma open_tunnel_ok v target now_ms outcome c :
  0 <= max_relay_bytes limits -> permitted (c_input c) (c_client c) v target -> c_to_client c = ESTABLISHED ->
  conn_ok (open_tunnel v target now_ms outcome c).
Proof.
  intros Hmax Hperm Hc. unfold open_tunnel.
  assert (Hclosed : forall client, conn_ok (mkConn (c_input c) client Closed (c_to_client c) (hello_sent target outcome (c_client c)))).
  { intros client. right. exists v, target, (c_client c), []. cbn. rewrite app_nil_r. split_and!; try done. by apply hello_sent_ok. }
  destruct (prologue _ _ _ _ _ _) as [[[[hello budget]|]|e] client] eqn:Ep; [|apply Hclosed..].
  apply tunnel_prologue_Ok in Ep as (Hlen & Hb & _ & Hin & Hname); [|done].
  exists (c_client c). cbn. split_and!; try done; [by apply relay_start_ok|].
  intros name Hn. exists hello, client. split; [by apply Hname|]. done.
Qed.

Lemma relay_step_grows r r' : relay_step r r' -> forwarded (upward r) `prefix_of` forwarded (upward r').
Proof.
  intros H. destruct H as [r outcome f b _ _ _ H | r outcome f b _ _ _ H | r outcome chunk _ _ | r outcome chunk _ _];
    cbn [upward downward]; try done.
  - unfold flow_read in H. repeat case_match; by injection H as <- <-.
  - destruct outcome; by apply prefix_app_r.
Qed.

(** What a live relay has sent is allowed. *)
Lemma relaying_tunnelled v target r c : c_stage c = Relaying v target r -> conn_ok c -> tunnelled c.
Proof.
  unfold conn_ok. intros -> (rest & Hperm & (Hu & Hd & Hb & Hmax) & Hin & Hname & Hc & Hup).
  exists v, target, rest, (forwarded (downward r)). split_and!; try done. rewrite Hup. split; [|split].
  - rewrite <- Hin. etrans; [by apply flow_ok_prefix | by apply prefix_app_r].
  - pose proof (forwarded_charged (upward r)). pose proof (forwarded_charged (downward r)). lia.
  - intros name Hn. right. destruct (Hname name Hn) as (raw & rest' & Hr & Hpre). exists raw, rest'. split; [done|]. by right.
Qed.

Lemma relay_conn_ok v target r r' chunk rest c :
  c_stage c = Relaying v target r -> relay_step r r' -> received (upward r') = received (upward r) ++ chunk ->
  incoming (c_client c) = chunk ++ rest -> conn_ok c ->
  conn_ok (relaying v target r' (mkClientStream rest (goes_silent (c_client c))) c).
Proof.
  intros Hst Hstep Hrec Hinc. unfold conn_ok. rewrite Hst. intros (first & Hperm & Hok & Hin & Hname & _ & _).
  exists first. cbn. split_and!; try done.
  - by eapply relay_step_ok.
  - by rewrite Hrec, <- Hin, Hinc, app_assoc.
  - intros name Hn. destruct (Hname name Hn) as (raw & rest' & Hr & Hpre). exists raw, rest'. split; [done|].
    etrans; [exact Hpre | by apply relay_step_grows].
Qed.

Lemma conn_step_ok g c g' c' :
  0 <= max_relay_bytes limits -> conn_step (g, c) (g', c') -> conn_ok c -> conn_ok c'.
Proof.
  intros Hmax Hstep Hok. pose proof Hok as Hc. unfold conn_ok in Hc.
  inversion Hstep; subst; match goal with H : c_stage c = _ |- _ => rewrite H in Hc end.
  - destruct Hc as [Hf Hc]. by apply begin_connection_ok.
  - destruct Hc. left. by apply closed_ok.
  - destruct Hc. left. by apply closed_ok.
  - destruct Hc as (Hperm & Hc & Hu). right. exists v, target, (c_client c), []. cbn.
    rewrite Hc, Hu, app_nil_r. split_and!; try done. by apply nothing_sent_ok.
  - unfold conn_ok. rewrite serve_health_connection_closed. destruct Hc. left. by apply serve_health_connection_ok.
  - done.
  - destruct Hc. left. by apply rejected_ok.
  - destruct Hc. left. by apply rejected_ok.
  - destruct Hc as [Hreq Hc]. split; [|done]. by exists request.
  - destruct Hc. left. by apply rejected_ok.
  - destruct Hc as (Hperm & Hc & Hu). unfold conn_ok. cbn. by rewrite Hc, Hu.
  - left. apply answered_with_ok; [by left | by destruct Hc].
  - destruct Hc as (Hperm & Hc & Hu). by apply open_tunnel_ok.
  - by eapply relay_conn_ok.
  - right. eapply relaying_tunnelled in Hok; [|done]. exact Hok.
Qed.

Lemma server_step_ok s s' :
  0 <= max_relay_bytes limits -> server_step s s' ->
  map_Forall (fun _ => conn_ok) (s_conns s) -> map_Forall (fun _ => conn_ok) (s_conns s').
Proof.
  intros Hmax H Hok. destruct H as
    [g cs i Hi _ Hlt | g cs i c input Hi Hw | g cs i input Hi | g cs | g cs i c Hi Hw | g cs i c g' c' b Hi Hstep];
    cbn [s_conns] in *; try done; try (apply map_Forall_insert_2; [done | done]).
  - by apply map_Forall_delete.
  - apply map_Forall_insert_2; [|done]. eapply conn_step_ok; [done | exact Hstep | by apply (Hok i)].
Qed.

(** At any moment a connection was either only answered by the gateway or had its traffic permitted. *)
Lemma conn_ok_traffic c : 0 <= max_relay_bytes limits -> conn_ok c -> only_answered c \/ tunnelled c.
Proof.
  intros Hmax Hok. pose proof Hok as Hc. unfold conn_ok in Hc.
  assert (Hnone : unanswered c -> only_answered c).
  { intros H. apply closed_ok in H. exact H. }
  destruct (c_stage c) eqn:E; try (left; apply Hnone; by destruct Hc).
  - right. destruct Hc as (Hperm & Hc & Hu). exists v, target, (c_client c), [].
    rewrite Hc, Hu, app_nil_r. split_and!; try done. by apply nothing_sent_ok.
  - right. by eapply relaying_tunnelled.
  - done.
Qed.

(** C32: whatever the clients send, however their connections interleave and whichever sockets, timers and
    accepts fail, the gateway's slots and root permits are exactly those its live connections hold, within
    their limits, and each connection either was shown at most one of the gateway's own answers and reached
    no upstream, or asked under a token that verifies for a target its policy and the deny list authorize:
    then what the upstream got is a prefix of what the client sent after its request, both directions
    together stay within the byte budget, and with an expected name nothing flows either way before a
    ClientHello that shows exactly that name. *)
Theorem gateway_relays_only_permitted_traffic s
    (positive : 1 <= max_connections_per_root limits) (no_connections : 0 <= max_connections limits)
    (no_setups : 0 <= max_pending_setups limits) (no_bytes : 0 <= max_relay_bytes limits)
    (Hreach : rtc server_step server_start s) :
  capacity_ok limits (system_of s) /\ forall i c, s_conns s !! i = Some c -> only_answered c \/ tunnelled c.
Proof.
  assert (H : capacity_ok limits (system_of s) /\ map_Forall (fun _ => conn_ok) (s_conns s)).
  { revert Hreach. apply (rtc_ind_r (fun s => capacity_ok limits (system_of s) /\ map_Forall (fun _ => conn_ok) (s_conns s))).
    - split; [|apply map_Forall_empty]. by apply capacity_start.
    - intros s1 s2 _ Hstep [Hcap Hok]. split; [|by eapply server_step_ok].
      eapply capacity_run; [done | by apply server_step_capacity | done]. }
  destruct H as [Hcap Hok]. split; [done|]. intros i c Hi. apply conn_ok_traffic; [done|]. by apply (Hok i).
Qed.

(** ** The setup of Proxy.v is a run of these steps *)
Local Notation handled := (handle cidr_contains domain_to_ascii_strict is_public_unicast lookup_ip
  destination_json to_json from_json b64_decode b64_standard_decode from_der verify public_key deny limits).
Local Notation setup := (connect_setup cidr_contains domain_to_ascii_strict is_public_unicast lookup_ip
  destination_json to_json from_json b64_decode b64_standard_decode from_der verify public_key deny limits).
Local Notation rooted := (setup_rooted cidr_contains domain_to_ascii_strict is_public_unicast lookup_ip deny limits).

Lemma handle_health_answers first cl : (handle_health first cl).1 <> Ok None.
Proof.
  unfold handle_health. rewrite M_bind_run. destruct (read_http_header first cl) as [[[text|]|e] cl1] eqn:Er;
    apply read_http_header_spec in Er; [|done|done]. by case_match.
Qed.

Lemma conn_run_l g c g1 c1 s :
  conn_step (g, c) (g1, c1) -> rtc conn_step (g1, c1) s -> rtc conn_step (g, c) s.
Proof. intros. by eapply rtc_l. Qed.

(** A run of one connection, among any others, is a run of the server. *)
Lemma conn_run_served (cs : gmap nat Conn) i b s s' :
  rtc conn_step s s' -> cs !! i = Some s.2 -> rtc server_step (mkServer s.1 cs b) (mkServer s'.1 (<[i := s'.2]> cs) b).
Proof.
  intros H. revert cs. induction H as [[g c]|[g c] [g1 c1] s' Hstep _ IH]; intros cs Hi; cbn in *.
  - by rewrite insert_id.
  - eapply rtc_l; [by eapply serves|]. specialize (IH (<[i := c1]> cs) (lookup_insert_eq _ _ _)).
    by rewrite insert_insert_eq in IH.
Qed.

Lemma setup_rooted_run outcome v request c g r cl g' :
  c_stage c = Rooted v request -> rooted outcome v request (c_client c, g) = (r, (cl, g')) ->
  match r with
  | Ok target => exists c', rtc conn_step (g, c) (g', c') /\ c_stage c' = Dialing v target /\ cl = c_client c'
  | Err e => exists c', rtc conn_step (g, c)
                 (release_root v (match e with Capacity | Upstream => g' | _ => release_setup g' end), c')
               /\ is_closed c' = true
  end.
Proof.
  intros Hc H.
  assert (Hfail : forall e, setup_fails v request e -> exists c',
             rtc conn_step (g, c) (release_root v (release_setup g), c') /\ is_closed c' = true).
  { intros e He. eexists. split; [by apply rtc_once, (fails_setup g c v request e WriteDone)|]. done. }
  unfold setup_rooted in H. rewrite M_bind_run in H. destruct (authorized_in_time outcome).
  2: { rewrite throw_run in H. injection H as <- <- <-. apply (Hfail SetupTimeout). by left. }
  rewrite lift_run in H. destruct (authorized_as _ _ _ _) as [target|e] eqn:Ea; cbn [map_err] in H.
  2: { injection H as <- <- <-. apply (Hfail (PPolicy e)). right. right. by rewrite Ea. }
  rewrite M_bind_run in H. unfold dial_target in H. rewrite M_bind_run, get_run in H.
  destruct (tunnel_in_time outcome && (g_tunnels g <? max_connections limits)) eqn:Et; cbn in H.
  2: { injection H as <- <- <-. apply (Hfail Capacity). by right; left. }
  apply andb_true_iff in Et as [_ Hlt%Z.ltb_lt]. pose proof (takes_tunnel g c v request target Hc Ea Hlt) as Htake.
  destruct (dialed outcome); cbn in H; injection H as <- <- <-.
  - eexists. split; [by apply rtc_once|]. done.
  - pose proof (fails_dial (release_setup (set_tunnels (g_tunnels g + 1) g)) (moved (Dialing v target) (c_client c) c)
      v target WriteDone eq_refl) as Hfails.
    eexists. split; [eapply conn_run_l; [exact Htake|]; by apply rtc_once, Hfails|]. done.
Qed.

(** From the root permit on. *)
Lemma checked_run outcome v request c g r cl g' :
  c_stage c = Checked v request ->
  (_ ← dropping_setup (acquire_root limits (root_of v));
   r ← observed (rooted outcome v request);
   match r with
   | Ok target => mret (Some (mkEstablishedConnect target (expires_at_ms (capability v)) (root_of v)))
   | Err e => _ ← (match e with Capacity | Upstream => mret tt | _ => drop_setup end); _ ← drop_root (root_of v); throw e
   end) (c_client c, g) = (r, (cl, g')) ->
  exists c', rtc conn_step (g, c) (g', c')
    /\ match r with
       | Ok (Some e) => exists v, c_stage c' = Dialing v (e_target e) /\ cl = c_client c' /\ e_root e = root_of v
       | Ok None => False
       | Err _ => is_closed c' = true
       end.
Proof.
  intros Hc H. rewrite M_bind_run, dropping_setup_run, acquire_root_run in H.
  destruct (quota_acquire _ _ _) as [[] a] eqn:Eq; cbn iota in H.
  2: { injection H as <- <- <-. eexists. split; [by apply rtc_once, (refuses_root g c v request a WriteDone)|]. done. }
  pose proof (takes_root g c v request a Hc Eq) as Htake.
  rewrite M_bind_run in H. unfold observed in H.
  destruct (rooted outcome v request (c_client c, set_active a g)) as [r2 [c2 g2]] eqn:Erooted.
  apply (setup_rooted_run outcome v request (moved (Rooted v request) (c_client c) c)) in Erooted; [|done].
  destruct r2 as [target|e]; destruct Erooted as (c' & Hrun & Hend).
  - cbn in H. injection H as <- <- <-. destruct Hend as [Hst ->]. exists c'. split; [by eapply rtc_l|]. by exists v.
  - assert (Hr : r = Err e /\ g' = release_root v (match e with Capacity | Upstream => g2 | _ => release_setup g2 end))
      by (destruct e; cbn in H; by injection H as <- <- <-).
    destruct Hr as [-> ->]. exists c'. split; [by eapply rtc_l|]. done.
Qed.

Lemma connect_setup_run outcome first now_ms c g cl1 r cl g' :
  c_stage c = Accepted -> read_u8 (c_client c) = (Ok first, cl1) -> first = "C"%char ->
  setup outcome first now_ms (cl1, g) = (r, (cl, g')) ->
  exists c', rtc conn_step (g, c) (g', c')
    /\ match r with
       | Ok (Some e) => exists v, c_stage c' = Dialing v (e_target e) /\ cl = c_client c' /\ e_root e = root_of v
       | Ok None => False
       | Err _ => is_closed c' = true
       end.
Proof.
  intros Hc Eu -> H. pose proof (begins g c now_ms WriteDone _ Hc eq_refl) as Hbegin.
  unfold begin_connection in Hbegin. rewrite Eu in Hbegin. cbn [Ascii.eqb Bool.eqb] in Hbegin.
  unfold read_connect in Hbegin. cbn [c_client moved] in Hbegin.
  unfold connect_setup in H. rewrite M_bind_run, dropping_setup_run in H. unfold on_client in H.
  destruct (read_http_header "C" cl1) as [[[text|]|e] cl2] eqn:Er;
    [|by apply read_http_header_spec in Er|injection H as <- <- <-; eexists; split; [by apply rtc_once, Hbegin|]; done].
  rewrite M_bind_run, dropping_setup_run, lift_run in H.
  destruct (auth text now_ms) as [v|e]; [|injection H as <- <- <-; eexists; split; [by apply rtc_once, Hbegin|]; done].
  rewrite M_bind_run, dropping_setup_run, lift_run in H. cbn in Hbegin.
  destruct (parsed_as text) as [request|e]; cbn in Hbegin;
    [|injection H as <- <- <-; eexists; split; [by apply rtc_once, Hbegin|]; done].
  eapply (checked_run outcome v request (moved (Checked v request) cl2 (moved (c_stage c) cl1 c))) in H
    as (c' & Hrun & Hend); [|done].
  exists c'. split; [by eapply rtc_l|done].
Qed.

(** Served with nothing in between, a connection does what [handle] says: a setup that succeeds is dialed for
    its target, with the same bytes left to read and the same capacity taken, and anything else closes it
    with the capacity given back as [handle] gives it back. *)
Lemma handle_is_a_run outcome now_ms c g r cl g' :
  c_stage c = Accepted -> handled outcome now_ms (c_client c, g) = (r, (cl, g')) ->
  exists c', rtc conn_step (g, c) (g', c')
    /\ match r with
       | Ok (HTunnel e) => exists v, c_stage c' = Dialing v (e_target e) /\ cl = c_client c' /\ e_root e = root_of v
       | Ok HOutOfFuel => False
       | _ => is_closed c' = true
       end.
Proof.
  intros Hc H. unfold handle in H. rewrite M_bind_run, dropping_setup_run in H. unfold on_client in H.
  pose proof (begins g c now_ms WriteDone _ Hc eq_refl) as Hbegin. unfold begin_connection in Hbegin.
  destruct (read_u8 (c_client c)) as [[first|e] cl1] eqn:Eu.
  2: { injection H as <- <- <-. eexists. split; [by apply rtc_once, Hbegin|]. done. }
  destruct (Ascii.eqb_spec first "C"%char) as [->|].
  - rewrite M_bind_run in H. destruct (setup outcome "C" now_ms (cl1, g)) as [r1 [cl2 g2]] eqn:Es.
    eapply connect_setup_run in Es as (c' & Hrun & Hend); [|done..].
    destruct r1 as [[e|]|e]; [|done|]; cbn in H; injection H as <- <- <-; by exists c'.
  - destruct (Ascii.eqb first "G"%char) eqn:Eg.
    + assert (Hc' : is_closed (serve_health_request first WriteDone (moved (c_stage c) cl1 c)) = true)
        by (unfold is_closed; by rewrite serve_health_request_closed).
      rewrite Hc' in Hbegin. assert (Hg : g' = release_setup g /\ r <> Ok HOutOfFuel /\ forall e, r <> Ok (HTunnel e)).
      { rewrite M_bind_run, dropping_setup_run in H. pose proof (handle_health_answers first cl1) as Hh.
        destruct (handle_health first cl1) as [[[status|]|e] cl2]; [|done|]; cbn in H; by injection H as <- <- <-. }
      destruct Hg as (-> & Hfuel & Hnone). eexists. split; [by apply rtc_once, Hbegin|].
      destruct r as [[e|status|]|e]; (done || by destruct (Hnone e)).
    + destruct (byte_val first =? 5); cbn in H; injection H as <- <- <-;
        (eexists; split; [by apply rtc_once, Hbegin|]; done).
Qed.

(** The health listener answers whatever the proxy listener's slots and connections are: no capacity is
    needed and nothing else moves. *)
Lemma health_needs_no_slot g (cs : gmap nat Conn) i input :
  cs !! i = None -> (handle_health_connection input).1 = Ok (Some 200) ->
  exists c, rtc server_step (mkServer g cs true) (mkServer g (<[i := c]> cs) true)
    /\ is_closed c = true /\ c_to_client c = HEALTH_OK.
Proof.
  intros Hi H. set (c := accepted HealthAccepted input). exists (serve_health_connection WriteDone c). split.
  - eapply rtc_l; [by apply (accepts_health g cs i input)|]. rewrite <- (insert_insert_eq cs i (serve_health_connection WriteDone c) c).
    apply (conn_run_served (<[i := c]> cs) i true (g, c) (g, serve_health_connection WriteDone c)); [|apply lookup_insert_eq].
    by apply rtc_once, health_answers.
  - split; [unfold is_closed; by rewrite serve_health_connection_closed|].
    unfold handle_health_connection in H. rewrite M_bind_run in H. unfold serve_health_connection. cbn [c_client c accepted].
    destruct (read_u8 input) as [[first|e] cl]; [|done]. destruct (Ascii.eqb first "G"%char); [|done].
    cbn [negb] in H. unfold serve_health_request. cbn [c_client moved]. by rewrite H.
Qed.
End serve.

(** ** Witness: a client's CONNECT is answered, its ClientHello goes up and a reply comes down *)
Module Sample.
Definition hello : bytes := sample_record.
Definition input : ClientStream := mkClientStream (bytes_of sample_request_text ++ hello ++ bytes_of "hi") true.
Definition contains (net a : Z) : bool := (net =? 8) && (a / 16777216 =? 8).
Definition deny : DenyPolicy Z := mkDenyPolicy ["aex.dev"; "*.aex.dev"] [].
Definition key : Z := 3.

Local Notation steps := (server_step contains sample_idna (fun _ => true) sample_lookup sample_text sample_cap_json
  sample_cap_unjson sample_unb64 sample_unb64 sample_der sample_verify key deny sample_limits).
Local Notation conn_steps := (conn_step contains sample_idna (fun _ => true) sample_lookup sample_text sample_cap_json
  sample_cap_unjson sample_unb64 sample_unb64 sample_der sample_verify key deny sample_limits).

Definition request : ConnectRequest := mkConnectRequest "example.com" 443 (Some sample_token).
Definition target : AuthorizedTarget := mkAuthorizedTarget 134744072 443 (Some "example.com").
Definition after_request : ClientStream := mkClientStream (hello ++ bytes_of "hi") true.
Definition after_hello : ClientStream := mkClientStream (bytes_of "hi") true.
Definition budget_left : Z := 100000 - len hello.
Definition opened : Relay := mkRelay budget_left (flow_start hello) (flow_start []).
Definition replied : Relay :=
  mkRelay (budget_left - 2) (flow_start hello) (mkFlow (bytes_of "yo") (bytes_of "yo") Reading).

Definition at_stage stage client to_client to_upstream : Conn (Net := Z) := mkConn input client stage to_client to_upstream.
Definition held : Gateway := mkGateway {[ "root-1" := 1 ]} 1 0.
Definition served : Server :=
  mkServer held {[ 0%nat := at_stage (Relaying sample_verified target replied) after_hello
                              (ESTABLISHED ++ bytes_of "yo") hello ]} true.

Lemma only_moved (c c' : Conn (Net := Z)) : <[0%nat := c']> {[ 0%nat := c ]} = ({[ 0%nat := c' ]} : gmap nat _).
Proof. apply insert_insert_eq. Qed.

Lemma serves_alone g c g' c' :
  conn_steps (g, c) (g', c') -> steps (mkServer g {[ 0%nat := c ]} true) (mkServer g' {[ 0%nat := c' ]} true).
Proof.
  intros H. rewrite <- (only_moved c c'). eapply serves; [apply lookup_insert_eq | exact H].
Qed.

(** The setup, step by step. *)
Lemma served_setup :
  rtc steps (mkServer (mkGateway ∅ 0 1) {[ 0%nat := accepted Accepted input ]} true)
    (mkServer held {[ 0%nat := at_stage (Tunnelled sample_verified target) after_request ESTABLISHED [] ]} true).
Proof.
  apply (rtc_l _ _ (mkServer (mkGateway ∅ 0 1) {[ 0%nat := at_stage (Checked sample_verified request) after_request [] [] ]} true)).
  { apply serves_alone. eapply begins_open with (now_ms := 1000000) (outcome := WriteDone); [reflexivity | vm_compute; reflexivity | reflexivity]. }
  apply (rtc_l _ _ (mkServer (mkGateway {[ "root-1" := 1 ]} 0 1) {[ 0%nat := at_stage (Rooted sample_verified request) after_request [] [] ]} true)).
  { apply serves_alone. by eapply (takes_root _ _ _ _ _ _ _ _ _ _ _ _ _ _ (mkGateway ∅ 0 1)). }
  apply (rtc_l _ _ (mkServer held {[ 0%nat := at_stage (Dialing sample_verified target) after_request [] [] ]} true)).
  { apply serves_alone.
    change held with (release_setup (set_tunnels (0 + 1) (mkGateway {[ "root-1" := 1 ]} 0 1))).
    by eapply takes_tunnel; [done | vm_compute; reflexivity |]. }
  apply rtc_once, serves_alone. by eapply dials.
Qed.

(** The tunnel: the ClientHello goes up, a reply is read and written down. *)
Lemma served_tunnel :
  rtc steps (mkServer held {[ 0%nat := at_stage (Tunnelled sample_verified target) after_request ESTABLISHED [] ]} true) served.
Proof.
  apply (rtc_l _ _ (mkServer held {[ 0%nat := relaying sample_verified target opened after_hello
                                               (at_stage Closed after_hello [] []) ]} true)).
  { apply serves_alone.
    eapply opens_relay with (now_ms := 1000000) (outcome := WriteDone); [reflexivity | vm_compute; reflexivity | reflexivity]. }
  set (reading := mkRelay (budget_left - 2) (flow_start hello) (mkFlow (bytes_of "yo") [] (Writing (bytes_of "yo")))).
  apply (rtc_l _ _ (mkServer held {[ 0%nat := relaying sample_verified target reading after_hello
                                               (at_stage Closed after_hello [] []) ]} true)).
  { apply serves_alone. eapply relays_down with (r := opened) (r' := reading); [reflexivity | | reflexivity | reflexivity].
    apply (read_down opened (ReadBytes (bytes_of "yo"))); [done | done | by intros ? [= <-] | by vm_compute]. }
  apply rtc_once, serves_alone.
  eapply relays_down with (r := reading) (r' := replied); [reflexivity | | reflexivity | reflexivity].
  by apply (write_down reading WriteDone (bytes_of "yo")).
Qed.

Lemma served_reachable : rtc steps server_start served.
Proof.
  apply (rtc_l _ _ (mkServer (mkGateway ∅ 0 1) {[ 0%nat := accepted Waiting (mkClientStream [] false) ]} true)).
  { by apply (takes_slot _ _ _ _ _ _ _ _ _ _ _ _ _ _ (mkGateway ∅ 0 0) ∅ 0%nat). }
  eapply rtc_l.
  { by apply (accepts _ _ _ _ _ _ _ _ _ _ _ _ _ _ (mkGateway ∅ 0 1) _ 0%nat _ input (lookup_singleton_eq _ _)). }
  etrans; [|exact served_tunnel]. etrans; [|exact served_setup].
  by rewrite only_moved.
Qed.

Lemma gateway_relays_only_permitted_traffic_witness :
  capacity_ok sample_limits (system_of served) /\ forall i c, s_conns served !! i = Some c ->
    only_answered c
    \/ tunnelled contains sample_idna (fun _ => true) sample_lookup sample_text sample_cap_json sample_cap_unjson
         sample_unb64 sample_unb64 sample_der sample_verify key deny sample_limits c.
Proof.
  apply (gateway_relays_only_permitted_traffic contains sample_idna (fun _ => true) sample_lookup sample_text
    sample_cap_json sample_cap_unjson sample_unb64 sample_unb64 sample_der sample_verify key deny sample_limits served);
    [vm_compute; congruence..|exact served_reachable].
Defined.
End Sample.
