(* ===== verification/LiveFiles.v ===== *)
(** * hand-core live files

    Models crates/hand-core/src/files.rs: logical paths beneath [/workspace], paged directory listings and
    searches, bounded reads, and the staged writes that publish a file atomically. cap-std, globset, regex
    and SHA-256 are outside the repository: the read side takes a snapshot of the filesystem as functions,
    the write side keeps the contents of the two capability directories and is told the outcome of every
    system call. *)
From S2P Require Import Prelude Page.

Definition LOGICAL_WORKSPACE : string := "/workspace".
Definition MAX_LIVE_FILE_BYTES : Z := 16 * 1024 * 1024.
Definition MAX_LIVE_OBJECT_BYTES : Z := 512 * 1024 * 1024.
Definition MAX_LOGICAL_PATH_BYTES : Z := 4096.
Definition MAX_SEARCH_ENTRIES : Z := 100000.
Definition MAX_SEARCH_PATH_BYTES : Z := 16 * 1024 * 1024.
Definition MAX_GREP_FILE_BYTES : Z := 8 * 1024 * 1024.
Definition MAX_GREP_TOTAL_BYTES : Z := 64 * 1024 * 1024.

Inductive LiveFileKind := File | Directory | Symlink.

Record LiveFileEntry := mkLiveFileEntry {
  le_path : string;
  le_kind : LiveFileKind;
  le_bytes : Z;
  le_sha256 : option string;
  le_modified_at_ms : Z }.

Record LiveFileContent := mkLiveFileContent { lc_entry : LiveFileEntry; lc_bytes : list Ascii.ascii }.

#[global] Instance LiveFileEntry_identity : PageIdentity LiveFileEntry := le_path.

Inductive LiveFileError :=
  | InvalidPath | OutsideScope | NotFound | NotFile | NotDirectory | AlreadyExists | TooLarge
  | UnsupportedFileType | SourceChanged | InvalidExpression | SearchBoundExceeded | InvalidCursor
  | Io | UnsafeStaging.

#[global] Instance LiveFileError_eq_dec : EqDecision LiveFileError.
Proof. solve_decision. Defined.

(** [std::io::ErrorKind], as far as the module looks at it. *)
Inductive IoKind := KNotFound | KNotADirectory | KAlreadyExists | KOther.

Definition map_not_found (e : IoKind) : LiveFileError := match e with KNotFound => NotFound | _ => Io end.
Definition map_directory (e : IoKind) : LiveFileError :=
  match e with KNotFound => NotFound | KNotADirectory => NotDirectory | _ => Io end.
Definition map_already_exists (e : IoKind) : LiveFileError := match e with KAlreadyExists => AlreadyExists | _ => Io end.
Definition io_error (e : IoKind) : LiveFileError := Io.

(** ** Paths

    A path beneath the workspace is the list of its components. *)
Definition RelPath : Type := list string.

(** [PathBuf]'s order: component by component. *)
Fixpoint path_leb (a b : RelPath) : bool :=
  match a, b with
  | [], _ => true
  | _ :: _, [] => false
  | x :: a, y :: b => match String.compare x y with Lt => true | Eq => path_leb a b | Gt => false end
  end.

(** [OsStr::as_encoded_bytes] of a relative path. *)
Definition path_bytes (p : RelPath) : Z := str_len (join_on "/"%char p).

Definition segment_ok (segment : string) : bool :=
  negb (contains_char "\"%char segment || str_eqb segment "." || str_eqb segment "..").

Definition NUL : Ascii.ascii := Ascii.ascii_of_N 0.

Definition relative (logical_path : string) : result LiveFileError RelPath :=
  if (str_len logical_path =? 0) || (4096 <? str_len logical_path) || contains_char NUL logical_path
  then Err InvalidPath
  else
    rel ← (if str_eqb logical_path LOGICAL_WORKSPACE then Ok EmptyString
           else ok_or OutsideScope (strip_prefix "/workspace/" logical_path));
    let segments := List.filter (fun s => negb (str_len s =? 0)) (split_on "/"%char rel) in
    if negb (forallb segment_ok segments) then Err OutsideScope
    else if negb (str_len rel =? 0) && existsb (fun s => str_len s =? 0) (split_on "/"%char rel) then Err InvalidPath
    else Ok segments.

Definition validate_cursor (cursor : option string) : result LiveFileError unit :=
  match cursor with
  | Some c => if (MAX_LOGICAL_PATH_BYTES <? str_len c)
                 || negb (str_eqb c LOGICAL_WORKSPACE || starts_with "/workspace/" c)
              then Err InvalidCursor else Ok tt
  | None => Ok tt
  end.

(** ** A snapshot of the filesystem *)
Inductive FileType := TFile | TDir | TSymlink | TOther.
(** [m_modified_at_ms] is the modification time in milliseconds, zero when there is none after 1970. *)
Record Metadata := mkMetadata { m_type : FileType; m_len : Z; m_modified_at_ms : Z }.

Record Fs := mkFs {
  fs_open_dir : RelPath -> result IoKind (list (result IoKind string));
  fs_symlink_metadata : RelPath -> result IoKind Metadata;
  fs_read_link : RelPath -> result IoKind string;
  fs_open : RelPath -> result IoKind (Metadata * result IoKind (list Ascii.ascii)) }.

Section live_files.
Context (to_string_lossy : string -> string) (sha256_hex : list Ascii.ascii -> string).
Context (fs : Fs).

Definition slashes (c : Ascii.ascii) : Ascii.ascii := if Ascii.eqb c "\"%char then "/"%char else c.

Definition project_logical_path (p : RelPath) : string :=
  let rel := map_string slashes (to_string_lossy (join_on "/"%char p)) in
  if str_len rel =? 0 then LOGICAL_WORKSPACE else LOGICAL_WORKSPACE +:+ "/" +:+ rel.

Definition entry_without_hash (path : RelPath) (logical_path : string) : result LiveFileError LiveFileEntry :=
  metadata ← map_err map_not_found (fs_symlink_metadata fs path);
  kind ← (match m_type metadata with
          | TSymlink => Ok Symlink | TDir => Ok Directory | TFile => Ok File
          | TOther => Err UnsupportedFileType
          end);
  bytes ← (match kind with
           | File => Ok (m_len metadata)
           | Symlink => str_len <$> map_err io_error (fs_read_link fs path)
           | Directory => Ok 0
           end);
  Ok (mkLiveFileEntry logical_path kind bytes None (m_modified_at_ms metadata)).

Definition regular_file_entry (logical_path : string) (metadata : Metadata) : result LiveFileError LiveFileEntry :=
  match m_type metadata with
  | TFile => Ok (mkLiveFileEntry logical_path File (m_len metadata) None (m_modified_at_ms metadata))
  | _ => Err NotFile
  end.

(** An entry past [max] fails the whole collection before it is looked at. *)
Fixpoint bounded_directory_entries (max : nat) (entries : list (result IoKind string)) {struct entries}
    : result LiveFileError (list string) :=
  match entries with
  | [] => Ok []
  | e :: rest =>
      match max with
      | O => Err SearchBoundExceeded
      | S max => name ← map_err io_error e; names ← bounded_directory_entries max rest; Ok (name :: names)
      end
  end.

Definition past_cursor (cursor : option string) (logical : string) : bool :=
  match cursor with Some c => str_ltb c logical | None => true end.

(** ** Listing one directory *)
Fixpoint list_loop (cursor : option string) (limit : Z) (dir : RelPath) (names : list string)
    (projected : list LiveFileEntry) : result LiveFileError (list LiveFileEntry) :=
  match names with
  | [] => Ok projected
  | name :: names =>
      let child := dir ++ [name] in
      let logical := project_logical_path child in
      if negb (past_cursor cursor logical) then list_loop cursor limit dir names projected
      else
        entry ← entry_without_hash child logical;
        let projected := projected ++ [entry] in
        if limit <? len projected then Ok projected else list_loop cursor limit dir names projected
  end.

Definition list_directory (logical_path : string) (cursor : option string) (limit : Z)
    : result LiveFileError (option (Page LiveFileEntry)) :=
  dir ← relative logical_path;
  entries ← map_err map_directory (fs_open_dir fs dir);
  _ ← validate_cursor cursor;
  let limit := clamp limit 1 MAX_PAGE in
  names ← bounded_directory_entries (Z.to_nat MAX_SEARCH_ENTRIES) entries;
  projected ← list_loop cursor limit dir (sort_by str_leb names) [];
  Ok (page projected limit).

Definition stat (logical_path : string) : result LiveFileError LiveFileEntry :=
  path ← relative logical_path;
  entry_without_hash path logical_path.

(** ** Bounded reads *)
Definition read (logical_path : string) (max_bytes : Z) : result LiveFileError LiveFileContent :=
  let max_bytes := Z.min max_bytes MAX_LIVE_FILE_BYTES in
  if max_bytes =? 0 then Err TooLarge
  else
    path ← relative logical_path;
    '(metadata, content) ← map_err map_not_found (fs_open fs path);
    match m_type metadata with
    | TFile =>
        if max_bytes <? m_len metadata then Err TooLarge
        else
          content ← map_err io_error content;
          let bytes := take (Z.to_nat (saturating_add max_bytes 1)) content in
          if max_bytes <? len bytes then Err TooLarge
          else
            entry ← regular_file_entry logical_path metadata;
            Ok (mkLiveFileContent
                  (mkLiveFileEntry (le_path entry) (le_kind entry) (le_bytes entry) (Some (sha256_hex bytes))
                     (le_modified_at_ms entry)) bytes)
    | _ => Err NotFile
    end.

Definition open_reader (logical_path : string) : result LiveFileError LiveFileEntry :=
  path ← relative logical_path;
  '(metadata, _) ← map_err map_not_found (fs_open fs path);
  regular_file_entry logical_path metadata.

Definition open_directory (logical_path : string) : result LiveFileError unit :=
  path ← relative logical_path;
  _ ← map_err map_directory (fs_open_dir fs path);
  Ok tt.

(** ** Searching a tree *)
(** The children of one directory: every path is charged, and real directories are pushed. *)
Fixpoint scan_entries (dir : RelPath) (names : list string) (pending paths : list RelPath) (bytes : Z)
    : result LiveFileError (list RelPath * list RelPath * Z) :=
  match names with
  | [] => Ok (pending, paths, bytes)
  | name :: names =>
      let child := dir ++ [name] in
      bytes ← ok_or SearchBoundExceeded (checked_add bytes (path_bytes child));
      if MAX_SEARCH_PATH_BYTES <? bytes then Err SearchBoundExceeded
      else
        metadata ← map_err map_not_found (fs_symlink_metadata fs child);
        let pending := match m_type metadata with TDir => child :: pending | _ => pending end in
        scan_entries dir names pending (paths ++ [child]) bytes
  end.

(** [pending] is the stack, its top first. [None] is the fuel running out, which never happens
    ([search_always_ends]). *)
Fixpoint collect (fuel : nat) (pending paths : list RelPath) (bytes : Z)
    : result LiveFileError (option (list RelPath)) :=
  match fuel with
  | O => Ok None
  | S fuel =>
      match pending with
      | [] => Ok (Some paths)
      | dir :: pending =>
          if MAX_SEARCH_ENTRIES <=? len paths then Err SearchBoundExceeded
          else
            entries ← map_err map_directory (fs_open_dir fs dir);
            names ← bounded_directory_entries (Z.to_nat (MAX_SEARCH_ENTRIES - len paths)) entries;
            '(pending, paths, bytes) ← scan_entries dir (sort_by str_leb names) pending paths bytes;
            collect fuel pending paths bytes
      end
  end.

Definition SEARCH_FUEL : nat := Z.to_nat (MAX_SEARCH_ENTRIES + 2).

(** The matcher of [find] is pure; that of [grep] carries the bytes it has read. *)
Section matching.
Context {S : Type} (matches : RelPath -> RelPath -> Metadata -> M S LiveFileError bool).

Fixpoint match_loop (cursor : option string) (limit : Z) (base : RelPath) (paths : list RelPath)
    (projected : list LiveFileEntry) : M S LiveFileError (list LiveFileEntry) :=
  match paths with
  | [] => mret projected
  | child :: paths =>
      let logical := project_logical_path child in
      if negb (past_cursor cursor logical) then match_loop cursor limit base paths projected
      else
        metadata ← lift (map_err map_not_found (fs_symlink_metadata fs child));
        matched ← matches (drop (length base) child) child metadata;
        if matched : bool then
          entry ← lift (entry_without_hash child logical);
          let projected := projected ++ [entry] in
          if limit <? len projected then mret projected else match_loop cursor limit base paths projected
        else match_loop cursor limit base paths projected
  end.

Definition search (logical_path : string) (cursor : option string) (limit : Z)
    : M S LiveFileError (option (option (Page LiveFileEntry))) :=
  base ← lift (relative logical_path);
  _ ← lift (map_err map_directory (fs_open_dir fs base));
  _ ← lift (validate_cursor cursor);
  let limit := clamp limit 1 MAX_PAGE in
  collected ← lift (collect SEARCH_FUEL [base] [] 0);
  match collected with
  | None => mret None
  | Some paths =>
      projected ← match_loop cursor limit base (sort_by path_leb paths) [];
      mret (Some (page projected limit))
  end.
End matching.

(** [find]: the glob, when it compiles, decides on the path relative to the base. *)
Definition find (glob : string -> option (RelPath -> bool)) (logical_path expression : string)
    (cursor : option string) (limit : Z) : result LiveFileError (option (option (Page LiveFileEntry))) :=
  matcher ← ok_or InvalidExpression (glob expression);
  (search (fun rel _ _ => mret (matcher rel)) logical_path cursor limit tt).1.

(** [grep]: regular files of bounded size, within a total; a file with a zero byte never matches. *)
Definition grep_matches (matcher : list Ascii.ascii -> bool) (rel path : RelPath) (metadata : Metadata)
    : M Z LiveFileError bool :=
  match m_type metadata with
  | TFile =>
      if MAX_GREP_FILE_BYTES <? m_len metadata then mret false
      else
        total ← get;
        let total := saturating_add total (m_len metadata) in
        _ ← put total;
        if MAX_GREP_TOTAL_BYTES <? total then throw SearchBoundExceeded
        else
          '(_, content) ← lift (map_err map_not_found (fs_open fs path));
          content ← lift (map_err io_error content);
          let bytes := take (Z.to_nat (saturating_add (m_len metadata) 1)) content in
          mret (negb (existsb (Ascii.eqb NUL) bytes) && matcher bytes)
  | _ => mret false
  end.

Definition grep (regex : string -> option (list Ascii.ascii -> bool)) (logical_path expression : string)
    (cursor : option string) (limit : Z) : result LiveFileError (option (option (Page LiveFileEntry))) :=
  matcher ← ok_or InvalidExpression (regex expression);
  (search (grep_matches matcher) logical_path cursor limit 0).1.
End live_files.

(** ** The tree a search visits *)
Section search_facts.
Context (fs : Fs).

(** The real directories reached from [base] without following a symbolic link. *)
Inductive visited (base : RelPath) : RelPath -> Prop :=
  | visited_base : visited base base
  | visited_dir d entries name metadata :
      visited base d -> fs_open_dir fs d = Ok entries -> Ok name ∈ entries ->
      fs_symlink_metadata fs (d ++ [name]) = Ok metadata -> m_type metadata = TDir ->
      visited base (d ++ [name]).

(** The directory entries strictly beneath [base]. *)
Definition below (base p : RelPath) : Prop :=
  exists d entries name, visited base d /\ fs_open_dir fs d = Ok entries /\ Ok name ∈ entries /\ p = d ++ [name].

Definition child_directory (d : RelPath) (name : string) : Prop :=
  exists metadata, fs_symlink_metadata fs (d ++ [name]) = Ok metadata /\ m_type metadata = TDir.

Lemma bounded_directory_entries_Ok max entries names :
  bounded_directory_entries max entries = Ok names ->
  entries = map Ok names /\ (length names <= max)%nat.
Proof.
  revert max names. induction entries as [|e entries IH]; intros max names; cbn.
  - intros [= <-]. split; [done | cbn; lia].
  - destruct max as [|max]; [done|]. intros [name [He H]]%result_bind_Ok.
    apply result_bind_Ok in H as [rest [Hrest [= <-]]].
    apply map_err_Ok in He. apply IH in Hrest as [-> Hlen]. subst e. split; [done | cbn; lia].
Qed.

Lemma bounded_directory_entries_map max names :
  (length names <= max)%nat -> bounded_directory_entries max (map Ok names) = Ok names.
Proof.
  revert max. induction names as [|n names IH]; intros [|max] Hl; cbn in *; try done; [lia|]. by rewrite IH by lia.
Qed.

Lemma elem_of_map_Ok (names : list string) name : (Ok name : result IoKind string) ∈ map Ok names <-> name ∈ names.
Proof. change (map Ok names) with (Ok <$> names : list (result IoKind string)). rewrite list_elem_of_fmap. naive_solver. Qed.

Lemma sort_by_elem {A} (le : A -> A -> bool) (l : list A) x : x ∈ sort_by le l <-> x ∈ l.
Proof. by rewrite sort_by_Permutation. Qed.

Lemma scan_entries_Ok dir names pending paths bytes pending' paths' bytes' :
  scan_entries fs dir names pending paths bytes = Ok (pending', paths', bytes') ->
  paths' = paths ++ map (fun n => dir ++ [n]) names
  /\ (forall d, d ∈ pending' <-> d ∈ pending \/ exists n, n ∈ names /\ d = dir ++ [n] /\ child_directory dir n)
  /\ (length pending' <= length pending + length names)%nat.
Proof.
  revert pending paths bytes. induction names as [|n names IH]; intros pending paths bytes; cbn.
  - intros [= -> -> ->]. rewrite app_nil_r. split; [done|]. split; [set_solver | lia].
  - intros [b [_ H]]%result_bind_Ok. destruct (MAX_SEARCH_PATH_BYTES <? b); [done|].
    apply result_bind_Ok in H as [m [Hm H]]. apply map_err_Ok in Hm.
    apply IH in H as (-> & Hp & Hlen). rewrite <- app_assoc. split; [done|].
    set (pushed := match m_type m with TDir => _ | _ => pending end) in Hp, Hlen.
    assert (Hpush : forall d, d ∈ pushed <-> d ∈ pending \/ (d = dir ++ [n] /\ child_directory dir n)).
    { assert (Hc : child_directory dir n <-> m_type m = TDir)
        by (split; [intros (m' & Hm' & ?); congruence | by exists m]).
      intros d. subst pushed. rewrite Hc. destruct (m_type m); rewrite ?elem_of_cons; intuition discriminate. }
    assert (Hl : (length pushed <= S (length pending))%nat) by (subst pushed; destruct (m_type m); cbn; lia).
    split; [|cbn; lia]. intros d. rewrite Hp, Hpush. setoid_rewrite elem_of_cons. clear. firstorder (subst; eauto).
Qed.

(** The worklist invariant: the directories in [seen] have been expanded, those in [pending] are still to be. *)
Record search_state (base : RelPath) (seen pending paths : list RelPath) : Prop := {
  ss_base : base ∈ seen ++ pending;
  ss_visited : Forall (visited base) (seen ++ pending);
  ss_below : Forall (below base) paths;
  ss_expanded : forall d entries name, d ∈ seen -> fs_open_dir fs d = Ok entries -> Ok name ∈ entries ->
    d ++ [name] ∈ paths /\ (child_directory d name -> d ++ [name] ∈ seen ++ pending);
}.

Lemma search_state_step base seen dir pending paths names pending' paths' entries :
  fs_open_dir fs dir = Ok entries -> entries = map Ok names ->
  paths' = paths ++ map (fun n => dir ++ [n]) (sort_by str_leb names) ->
  (forall d, d ∈ pending' <-> d ∈ pending \/ exists n, n ∈ names /\ d = dir ++ [n] /\ child_directory dir n) ->
  search_state base seen (dir :: pending) paths -> search_state base (dir :: seen) pending' paths'.
Proof.
  intros Hopen -> -> Hp [Hb Hv Hbl He]. setoid_rewrite elem_of_app in He. setoid_rewrite elem_of_cons in He.
  assert (Hdir : visited base dir) by (rewrite Forall_forall in Hv; apply Hv; set_solver).
  assert (Hin : forall n, n ∈ names -> Ok n ∈ (map Ok names : list (result IoKind string)))
    by (intros n; apply elem_of_map_Ok).
  split.
  - rewrite elem_of_app in Hb |- *. rewrite elem_of_cons in Hb |- *. rewrite Hp. tauto.
  - rewrite Forall_forall in Hv |- *. intros d. rewrite elem_of_app, elem_of_cons, Hp.
    intros [[->|?]|[?|(n & Hn & -> & m & ? & ?)]]; [done | apply Hv; set_solver.. |].
    by eapply visited_dir; eauto.
  - apply Forall_app; split; [done|]. apply Forall_forall. intros p Hin'.
    apply list_elem_of_fmap in Hin' as (n & -> & Hn). rewrite sort_by_elem in Hn.
    exists dir, (map Ok names), n. auto.
  - intros d es n Hd Hes Hn. setoid_rewrite elem_of_app. setoid_rewrite Hp. setoid_rewrite elem_of_cons.
    apply elem_of_cons in Hd as [->|Hd].
    + rewrite Hopen in Hes. injection Hes as <-. apply elem_of_map_Ok in Hn. split; [|eauto 8].
      right. apply list_elem_of_fmap. exists n. by rewrite sort_by_elem.
    + destruct (He d es n Hd Hes Hn) as [? Hc]. split; [tauto|]. intros [?|[?|?]]%Hc; tauto.
Qed.

Lemma collect_Ok base fuel seen pending paths bytes out :
  collect fs fuel pending paths bytes = Ok (Some out) -> search_state base seen pending paths ->
  exists seen', search_state base seen' [] out.
Proof.
  revert seen pending paths bytes. induction fuel as [|fuel IH]; intros seen pending paths bytes; cbn; [done|].
  destruct pending as [|dir pending]; [intros [= ->]; eauto|].
  destruct (MAX_SEARCH_ENTRIES <=? len paths); [done|]. intros H Hs.
  apply result_bind_Ok in H as [entries [Ho H]]. apply map_err_Ok in Ho.
  apply result_bind_Ok in H as [names [Hn H]]. apply bounded_directory_entries_Ok in Hn as [Hn _].
  apply result_bind_Ok in H as [[[pending' paths'] bytes'] [Hscan H]].
  apply scan_entries_Ok in Hscan as (Hpaths & Hp & _). setoid_rewrite sort_by_elem in Hp.
  eapply IH; [exact H|]. eapply search_state_step; eauto.
Qed.

(** What a search collects is exactly the tree beneath its base. *)
Lemma collect_exact base fuel out p :
  collect fs fuel [base] [] 0 = Ok (Some out) -> (p ∈ out <-> below base p).
Proof.
  intros H. eapply (collect_Ok base _ []) in H as [seen [Hb _ Hbl He]].
  2: { split; [set_solver | repeat constructor | constructor | set_solver]. }
  split; [by rewrite Forall_forall in Hbl; apply Hbl|]. rewrite app_nil_r in *.
  assert (Hseen : forall d, visited base d -> d ∈ seen).
  { induction 1 as [|d entries n m Hd IH Ho Hn Hm Ht]; [done|].
    destruct (He d entries n IH Ho Hn) as [_ Hc]. apply Hc. by exists m. }
  intros (d & entries & n & Hd & Ho & Hn & ->). by eapply He; eauto.
Qed.

(** Every expansion of a directory costs one path already charged, so the fuel is never used up. *)
Lemma collect_ends fuel pending paths bytes :
  len pending + MAX_SEARCH_ENTRIES - len paths < Z.of_nat fuel -> len paths <= MAX_SEARCH_ENTRIES ->
  collect fs fuel pending paths bytes <> Ok None.
Proof.
  revert pending paths bytes. induction fuel as [|fuel IH]; intros pending paths bytes Hf Hle H.
  { pose proof (len_nonneg pending). lia. }
  cbn in H. destruct pending as [|dir pending]; [done|].
  destruct (Z.leb_spec MAX_SEARCH_ENTRIES (len paths)) as [|Hlt]; [done|].
  apply result_bind_Ok in H as [entries [Ho H]]. apply result_bind_Ok in H as [names [Hn H]].
  apply bounded_directory_entries_Ok in Hn as [_ Hn].
  apply result_bind_Ok in H as [[[pending' paths'] bytes'] [Hscan H]].
  apply scan_entries_Ok in Hscan as (Hpaths & _ & Hp).
  assert (Hs : length (sort_by str_leb names) = length names) by apply Permutation_length, sort_by_Permutation.
  revert H. apply IH; subst paths'; unfold len in *; rewrite ?length_app, ?length_map, ?Hs in *; cbn in *; lia.
Qed.
End search_facts.

(** ** Orders *)
Lemma path_leb_total a b : path_leb a b = true \/ path_leb b a = true.
Proof.
  revert b. induction a as [|x a IH]; intros [|y b]; cbn; try tauto.
  rewrite (String.compare_antisym y x). destruct (String.compare x y); cbn; auto.
Qed.

Lemma path_leb_trans a b c : path_leb a b = true -> path_leb b c = true -> path_leb a c = true.
Proof.
  revert b c. induction a as [|x a IH]; intros [|y b] [|z c]; cbn; try done.
  destruct (String.compare x y) eqn:Hxy; try done.
  - apply String.compare_eq_iff in Hxy as ->. destruct (String.compare y z); try done. apply IH.
  - intros _. destruct (String.compare y z) eqn:Hyz; try done.
    + apply String.compare_eq_iff in Hyz as ->. by rewrite Hxy.
    + by rewrite (str_compare_trans _ _ _ Hxy Hyz).
Qed.

Lemma take_snoc {A} k (l r : list A) x : (k = length l + 1)%nat -> take k (l ++ x :: r) = l ++ [x].
Proof. intros ->. by rewrite take_app_add. Qed.

(** ** Pages of a search *)
Section find_facts.
Context (lossy : string -> string) (fs : Fs).
Local Notation logical := (project_logical_path lossy).

(** [es] are the entries of the paths [ps], in order. *)
Definition entries_of (ps : list RelPath) (es : list LiveFileEntry) : Prop :=
  Forall2 (fun p e => entry_without_hash fs p (logical p) = Ok e) ps es.

Lemma entries_of_snoc ps es p e : entries_of ps es -> entry_without_hash fs p (logical p) = Ok e ->
  entries_of (ps ++ [p]) (es ++ [e]).
Proof. intros H He. apply Forall2_app; [done | by repeat constructor]. Qed.

Definition candidates (f : RelPath -> bool) (base : RelPath) (cursor : option string) : list RelPath -> list RelPath :=
  List.filter (fun p => past_cursor cursor (logical p) && f (drop (length base) p)).

Lemma match_loop_pure {S : Type} (f : RelPath -> bool) cursor limit base paths done projected (s s' : S) out :
  match_loop lossy fs (fun rel _ _ => mret (f rel)) cursor limit base paths projected s = (Ok out, s') ->
  entries_of done projected -> len projected <= limit ->
  entries_of (take (Z.to_nat (limit + 1)) (done ++ candidates f base cursor paths)) out.
Proof.
  revert done projected s. induction paths as [|p paths IH]; intros done projected s; cbn [match_loop candidates List.filter].
  { intros [= <- <-] Hd Hl. cbn. rewrite app_nil_r, take_ge; [done|].
    apply Forall2_length in Hd. unfold len in Hl. lia. }
  destruct (past_cursor cursor (logical p)) eqn:Hc; cbn [negb andb]; [|by apply IH].
  rewrite M_bind_run, lift_run. destruct (map_err _ _) as [m|] eqn:Hm; [|done].
  rewrite M_bind_run, M_ret_run. destruct (f _); [|by apply IH].
  rewrite M_bind_run, lift_run. destruct (entry_without_hash _ _ _) as [e|] eqn:He; [|done].
  intros H Hd Hl. pose proof (entries_of_snoc _ _ _ _ Hd He) as Hd'. pose proof (Forall2_length _ _ _ Hd') as Hlen.
  rewrite !length_app in Hlen. cbn in Hlen.
  destruct (Z.ltb_spec limit (len (projected ++ [e]))) as [Hlt|Hge].
  - injection H as <- <-. unfold len in *. rewrite length_app in Hlt. cbn in Hlt.
    rewrite take_snoc by lia. done.
  - eapply IH in H; [|exact Hd' | done]. by rewrite <- app_assoc in H.
Qed.

Lemma search_ends {S : Type} (matches : RelPath -> RelPath -> Metadata -> M S LiveFileError bool) path cursor limit s :
  (search lossy fs matches path cursor limit s).1 <> Ok None.
Proof.
  unfold search. rewrite M_bind_run, lift_run. destruct (relative path) as [base|]; [|done].
  rewrite M_bind_run, lift_run. destruct (map_err _ _); [|done].
  rewrite M_bind_run, lift_run. destruct (validate_cursor cursor); [|done].
  rewrite M_bind_run, lift_run. destruct (collect _ _ _ _ _) as [[paths|]|] eqn:E; [| |done].
  - rewrite M_bind_run. by destruct (match_loop _ _ _ _ _ _ _ _ s) as [[|] ?].
  - exfalso. revert E. apply collect_ends; unfold SEARCH_FUEL, MAX_SEARCH_ENTRIES, len; cbn [length]; lia.
Qed.

(** C35: a search of a tree of any shape, [find] or [grep], ends within its bounds; and when [find] answers,
    it has looked at exactly the entries beneath the directory, following no symbolic link, in path order:
    the page holds, in order, the first ones whose relative path the glob matches and whose logical path is
    past the cursor, one more than the limit being fetched to decide whether there is a next page. *)
Theorem find_is_exact glob regex path expression cursor limit :
  grep lossy fs regex path expression cursor limit <> Ok None
  /\ match find lossy fs glob path expression cursor limit with
     | Err _ => True
     | Ok None => False
     | Ok (Some pg) =>
         exists matcher base paths es,
           glob expression = Some matcher /\ relative path = Ok base
           /\ (forall p, p ∈ paths <-> below fs base p) /\ StronglySorted path_leb paths
           /\ entries_of (take (Z.to_nat (clamp limit 1 MAX_PAGE + 1)) (candidates matcher base cursor paths)) es
           /\ pg = page es (clamp limit 1 MAX_PAGE) /\ is_Some pg
     end.
Proof.
  split.
  - unfold grep. destruct (regex expression) as [m|]; [|done]. cbn. apply search_ends.
  - unfold find. destruct (glob expression) as [matcher|] eqn:Hg; [|done]. cbn [ok_or mbind result_bind].
    pose proof (search_ends (fun rel _ _ => mret (matcher rel)) path cursor limit tt) as Hends. revert Hends.
    unfold search. rewrite M_bind_run, lift_run. destruct (relative path) as [base|] eqn:Hr; [|done].
    rewrite M_bind_run, lift_run. destruct (map_err _ _); [|done].
    rewrite M_bind_run, lift_run. destruct (validate_cursor cursor); [|done].
    rewrite M_bind_run, lift_run. destruct (collect _ _ _ _ _) as [[paths|]|] eqn:Hc; [| intros H; by destruct H | done].
    intros _. rewrite M_bind_run. destruct (match_loop _ _ _ _ _ _ _ _ tt) as [[es|] s'] eqn:Hm; [|done]. cbn.
    exists matcher, base, (sort_by path_leb paths), es. split; [done|]. split; [done|].
    split; [intros p; rewrite sort_by_elem; by eapply collect_exact|].
    split; [apply sort_by_sorted; [apply path_leb_total | apply path_leb_trans]|].
    pose proof (clamp_bounds limit 1 MAX_PAGE ltac:(done)) as Hb. split; [|split; [done|]].
    + apply (match_loop_pure matcher _ _ _ _ [] [] _ _ _ Hm (proj2 (Forall2_nil _) I)).
      unfold len. cbn [length]. lia.
    + apply page_total. lia.
Qed.
End find_facts.

(** ** Pages of a listing *)
Section list_facts.
Context (lossy : string -> string) (fs : Fs) (path : string) (dir : RelPath) (names : list string).
Context (entry : string -> LiveFileEntry).

(** The directory as the listing finds it: distinct names whose projection is the identity, each with its entry. *)
Record listable : Prop := {
  l_dir : relative path = Ok dir;
  l_open : fs_open_dir fs dir = Ok (map Ok names);
  l_bound : len names <= MAX_SEARCH_ENTRIES;
  l_distinct : NoDup names;
  l_project : forall n, n ∈ names -> project_logical_path lossy (dir ++ [n]) = join_on "/"%char (LOGICAL_WORKSPACE :: dir ++ [n]);
  l_cursor : forall n, n ∈ names -> str_len (join_on "/"%char (LOGICAL_WORKSPACE :: dir ++ [n])) <= MAX_LOGICAL_PATH_BYTES;
  l_entry : forall n, n ∈ names ->
    entry_without_hash fs (dir ++ [n]) (project_logical_path lossy (dir ++ [n])) = Ok (entry n);
}.

Definition listing (cursor : option string) (limit : Z) : option (Page LiveFileEntry) :=
  match list_directory lossy fs path cursor limit with Ok (Some p) => Some p | _ => None end.

Definition all_entries : list LiveFileEntry := map entry (sort_by str_leb names).

Lemma entry_path p l e : entry_without_hash fs p l = Ok e -> le_path e = l.
Proof.
  unfold entry_without_hash. intros [m [_ H]]%result_bind_Ok. apply result_bind_Ok in H as [k [_ H]].
  apply result_bind_Ok in H as [b [_ [= <-]]]. done.
Qed.

Lemma list_loop_total cursor limit ns projected :
  (forall n, n ∈ ns ->
    entry_without_hash fs (dir ++ [n]) (project_logical_path lossy (dir ++ [n])) = Ok (entry n)) ->
  len projected <= limit ->
  list_loop lossy fs cursor limit dir ns projected
  = Ok (take (Z.to_nat (limit + 1)) (projected ++ List.filter (after cursor) (map entry ns))).
Proof.
  revert projected. induction ns as [|n ns IH]; intros projected He Hl; cbn [list_loop map List.filter].
  { rewrite app_nil_r, take_ge; [done|]. unfold len in Hl. lia. }
  pose proof (He n (list_elem_of_here _ _)) as Hn.
  assert (Hc : past_cursor cursor (project_logical_path lossy (dir ++ [n])) = after cursor (entry n)).
  { unfold past_cursor, after, page_identity, LiveFileEntry_identity. by rewrite (entry_path _ _ _ Hn). }
  rewrite Hc. destruct (after cursor (entry n)); cbn [negb]; [|by apply IH; [set_solver|]].
  rewrite Hn. cbn [mbind result_bind]. unfold len in *. rewrite length_app. cbn [length].
  destruct (Z.ltb_spec limit (Z.of_nat (length projected + 1))) as [Hlt|Hge].
  - rewrite take_snoc by lia. done.
  - rewrite IH; [by rewrite <- app_assoc | set_solver | rewrite length_app; cbn; lia].
Qed.

Lemma logical_path_app n : join_on "/"%char (LOGICAL_WORKSPACE :: dir ++ [n])
  = join_on "/"%char (LOGICAL_WORKSPACE :: dir) +:+ String "/" n.
Proof. by rewrite app_comm_cons, join_on_app. Qed.

Lemma all_entries_sorted : listable -> id_sorted all_entries.
Proof.
  intros H. unfold all_entries. assert (Hin : forall n, n ∈ sort_by str_leb names -> n ∈ names) by (intros n; by rewrite sort_by_elem).
  assert (Hnd : NoDup (sort_by str_leb names)) by (rewrite sort_by_Permutation; apply H).
  pose proof (sort_by_sorted str_leb str_leb_total str_leb_trans names) as Hs.
  induction Hs as [|n ns Hs IH Hall]; [constructor|]. apply NoDup_cons in Hnd as [Hn Hnd].
  constructor; [apply IH; [set_solver | done]|]. apply Forall_map, Forall_forall. intros n' Hn'.
  rewrite Forall_forall in Hall. pose proof (Hall n' Hn') as Hle. apply Is_true_true, str_leb_iff in Hle.
  destruct Hle as [->|Hlt]; [done|]. unfold page_identity, LiveFileEntry_identity.
  rewrite (entry_path _ _ _ (l_entry H n ltac:(set_solver))), (entry_path _ _ _ (l_entry H n' ltac:(set_solver))).
  rewrite !(l_project H) by set_solver. rewrite !logical_path_app. apply str_lt_app. change (String "/" ?x) with ("/" +:+ x).
  by apply str_lt_app.
Qed.
Lemma listing_cursor_valid cursor : listable -> cursor_of all_entries cursor -> validate_cursor cursor = Ok tt.
Proof.
  intros H. destruct cursor as [c|]; [|done]. intros (e & He & ->).
  apply list_elem_of_fmap in He as (n & -> & Hn). rewrite sort_by_elem in Hn.
  unfold page_identity, LiveFileEntry_identity, validate_cursor.
  rewrite (entry_path _ _ _ (l_entry H n Hn)), (l_project H n Hn).
  rewrite (proj2 (Z.ltb_ge _ _)) by by apply (l_cursor H).
  assert (starts_with "/workspace/" (join_on "/"%char (LOGICAL_WORKSPACE :: dir ++ [n])) = true) as ->.
  { apply starts_with_true. rewrite join_on_cons by by destruct dir. by eexists. }
  by rewrite orb_true_r.
Qed.

(** A directory of listable names is a page source. *)
Lemma listing_is_source : listable -> PageSource listing all_entries.
Proof.
  intros H. constructor; [by apply all_entries_sorted|]. intros cursor limit Hc Hl.
  unfold listing, list_directory. rewrite (l_dir H). cbn [mbind result_bind]. rewrite (l_open H). cbn [map_err mbind result_bind].
  rewrite (listing_cursor_valid _ H Hc). cbn [mbind result_bind].
  rewrite bounded_directory_entries_map by (pose proof (l_bound H); unfold len in *; lia). cbn [mbind result_bind].
  rewrite clamp_id by done. rewrite list_loop_total.
  - cbn [mbind result_bind app]. by destruct (page _ limit).
  - intros n. rewrite sort_by_elem. apply H.
  - unfold len. cbn [length]. lia.
Qed.

(** A client that follows the cursors of a directory listing sees every entry of the directory exactly
    once, in order, whatever its page size, and then gets no further cursor. *)
Theorem list_walk_is_complete limit fuel :
  listable -> 1 <= limit <= MAX_PAGE -> (length names < fuel)%nat ->
  walk listing limit fuel None = Some all_entries
  /\ Permutation (map le_path all_entries) (map (fun n => project_logical_path lossy (dir ++ [n])) names).
Proof.
  intros H Hl Hf. pose proof (listing_is_source H) as Hsrc. split.
  - apply (walk_all listing all_entries); [done|]. unfold all_entries. rewrite length_map.
    by rewrite (Permutation_length (sort_by_Permutation str_leb names)).
  - unfold all_entries. rewrite map_map.
    rewrite <- (Permutation_map (fun n => project_logical_path lossy (dir ++ [n])) (sort_by_Permutation str_leb names)).
    apply Permutation_refl', map_ext_in. intros n Hn%list_elem_of_In. rewrite sort_by_elem in Hn.
    by eapply entry_path, (l_entry H).
Qed.
End list_facts.

(** ** Example: a directory [a] with one file, beside [a.txt] and [b.txt] *)
Definition sample_fs : Fs :=
  let file := mkMetadata TFile 3 7 in
  mkFs (fun d => match d with [] => Ok [Ok "b.txt"; Ok "a"; Ok "a.txt"] | ["a"] => Ok [Ok "b"] | _ => Err KNotADirectory end)
       (fun p => match p with
                 | [] | ["a"] => Ok (mkMetadata TDir 0 7)
                 | ["a"; "b"] | ["a.txt"] | ["b.txt"] => Ok file
                 | _ => Err KNotFound end)
       (fun _ => Err KOther)
       (fun p => match p with
                 | ["a"; "b"] | ["a.txt"] | ["b.txt"] => Ok (file, Ok ["x"; "y"; "z"]%char)
                 | _ => Err KNotFound end).

Definition sample_entry (n : string) : LiveFileEntry :=
  mkLiveFileEntry ("/workspace/" +:+ n) (if str_eqb n "a" then Directory else File) (if str_eqb n "a" then 0 else 3) None 7.

Definition sample_names : list string := ["b.txt"; "a"; "a.txt"].

Lemma sample_listable : listable id sample_fs "/workspace" [] sample_names sample_entry.
Proof.
  constructor; try done; try (repeat constructor; set_solver);
    intros n Hn; unfold sample_names in Hn; repeat (apply elem_of_cons in Hn as [->|Hn]; [done|]); set_solver.
Qed.

Lemma list_walk_is_complete_witness :
  walk (listing id sample_fs "/workspace") 2 4 None = Some (all_entries sample_names sample_entry)
  /\ Permutation (map le_path (all_entries sample_names sample_entry))
       (map (fun n => project_logical_path id ([] ++ [n])) sample_names).
Proof. apply (list_walk_is_complete id sample_fs "/workspace" [] sample_names sample_entry 2 4); [apply sample_listable | done | cbn; lia]. Defined.

Definition find_pages (fs : Fs) (glob : string -> option (RelPath -> bool)) (path expression : string)
    (cursor : option string) (limit : Z) : option (Page LiveFileEntry) :=
  match find id fs glob path expression cursor limit with Ok (Some p) => p | _ => None end.

(** [find] sorts its candidates component by component, and filters them by comparing logical paths as
    strings, which is another order: [a/b] sorts before [a.txt] but ['/'] is above ['.']. A client that
    follows the cursors of [find] with pages of two never sees [a.txt], which one large page does list. *)
Theorem find_pages_skip_entries :
  option_map (map le_path) (walk (find_pages sample_fs (fun _ => Some (fun _ => true)) "/workspace" "**") 2 10 None)
  = Some ["/workspace/a"; "/workspace/a/b"; "/workspace/b.txt"]
  /\ option_map (map le_path) (walk (find_pages sample_fs (fun _ => Some (fun _ => true)) "/workspace" "**") 100 10 None)
     = Some ["/workspace/a"; "/workspace/a/b"; "/workspace/a.txt"; "/workspace/b.txt"].
Proof. split; vm_compute; reflexivity. Qed.
