(* ===== verification/LiveWrite.v ===== *)
(** * hand-core live files: staged writes

    Models LiveFiles::write and LiveFiles::write_from_file of crates/hand-core/src/files.rs. A write is
    staged under a fresh name in the supervisor's own directory and published into the workspace by one
    hard link or one rename. The disk is the two directories' contents; the outcome of every system call is
    an input, and so is what the sandbox's processes do to the workspace up to the publishing call. *)
From S2P Require Import Prelude LiveFiles.

(** A path component that stays where it is: not empty, no separator of any platform, not a dot name. *)
Definition plain_segment (segment : string) : Prop :=
  segment <> EmptyString /\ contains_char "/"%char segment = false /\ contains_char "\"%char segment = false
  /\ segment <> "." /\ segment <> "..".

Lemma split_on_no_separator c s l : l ∈ split_on c s -> contains_char c l = false.
Proof.
  revert l. induction s as [|a s IH]; intros l Hl; cbn [split_on] in Hl; [by apply list_elem_of_singleton in Hl as ->|].
  destruct (Ascii.eqb a c) eqn:E; [apply elem_of_cons in Hl as [->|Hl]; [done | auto]|].
  pose proof (split_on_nonempty c s). destruct (split_on c s) as [|p ps]; [done|].
  apply elem_of_cons in Hl as [->|Hl]; [|apply IH; set_solver].
  change (contains_char c (String a p)) with (Ascii.eqb c a || contains_char c p).
  rewrite IH by set_solver. by rewrite Ascii.eqb_sym, E.
Qed.

Lemma relative_plain logical_path path :
  relative logical_path = Ok path -> path <> [] ->
  logical_path = join_on "/"%char (LOGICAL_WORKSPACE :: path) /\ Forall plain_segment path.
Proof.
  unfold relative. destruct (_ || _); [done|]. intros [rel [Hrel H]]%result_bind_Ok Hne.
  destruct (negb (forallb _ _)) eqn:Hok; [done|]. destruct (_ && _) eqn:Hempty in H; [done|]. injection H as <-.
  apply negb_false_iff, forallb_Forall_true in Hok.
  assert (Hlog : logical_path = "/workspace/" +:+ rel).
  { destruct (str_eqb_spec logical_path LOGICAL_WORKSPACE); [by injection Hrel as <-|].
    by apply ok_or_Ok, strip_prefix_Some in Hrel. }
  destruct (Z.eqb_spec (str_len rel) 0) as [E|E]; cbn [negb andb] in Hempty.
  { destruct rel; [by cbn in Hne | cbn in E; unfold str_len in E; cbn in E; lia]. }
  assert (Hall : List.filter (fun s => negb (str_len s =? 0)) (split_on "/"%char rel) = split_on "/"%char rel).
  { clear -Hempty. induction (split_on "/"%char rel) as [|s l IH]; cbn in *; [done|].
    apply orb_false_iff in Hempty as [-> Hl]. cbn. by rewrite IH. }
  split.
  - rewrite Hall, join_on_cons, join_split by apply split_on_nonempty. exact Hlog.
  - apply Forall_forall. intros s Hs. rewrite Forall_forall in Hok. pose proof (Hok s Hs) as Hseg.
    unfold segment_ok in Hseg. bool_hyps.
    apply list_elem_of_In, filter_In in Hs as [Hs Hne0]. apply list_elem_of_In in Hs. bool_hyps.
    split; [by intros ->|]. split; [by eapply split_on_no_separator|]. done.
Qed.

Inductive Node := NFile (content : list Ascii.ascii) | NDir | NOther.

(** [d_root] is the workspace by resolved path, [d_staging] the staging directory by name. *)
Record Disk := mkDisk { d_root : gmap RelPath Node; d_staging : gmap string (list Ascii.ascii) }.

#[global] Instance Node_eq_dec : EqDecision Node.
Proof. solve_decision. Defined.
#[global] Instance Disk_eq_dec : EqDecision Disk.
Proof. solve_decision. Defined.

Definition with_root (f : gmap RelPath Node -> gmap RelPath Node) (d : Disk) : Disk :=
  mkDisk (f (d_root d)) (d_staging d).
Definition with_staging (f : gmap string (list Ascii.ascii) -> gmap string (list Ascii.ascii)) (d : Disk) : Disk :=
  mkDisk (d_root d) (f (d_staging d)).

(** The outcomes of the system calls of one write; [None] is success. *)
Record WriteIo := mkWriteIo {
  io_dirs : list RelPath * option IoKind;    (* the directories create_dir_all made, and its failure *)
  io_create : option IoKind;
  io_write : nat * option IoKind;            (* how much reached the staged file before the failure *)
  io_sync : option IoKind;
  io_permissions : option IoKind;
  io_guest : gmap RelPath Node -> gmap RelPath Node;  (* the sandbox's own changes before the publication *)
  io_publish : option IoKind;                (* hard_link or rename *)
  io_unlink : option IoKind;                 (* remove_file after a hard link *)
  io_cleanup : option IoKind }.              (* remove_file after a failure *)

Section writes.
Context (sha256_hex : list Ascii.ascii -> string).
(** What the kernel reports of a disk, and the entry a path names once its parent is resolved. *)
Context (view : Disk -> Fs) (resolve : RelPath -> RelPath).

Notation W := (M Disk LiveFileError).

Definition syscall (outcome : option IoKind) (map_error : IoKind -> LiveFileError) : W unit :=
  match outcome with None => mret tt | Some e => throw (map_error e) end.

Definition create_dir_all (io : WriteIo) : W unit :=
  _ ← modify (with_root (fun root => foldr (fun p m => match m !! p with None => <[p := NDir]> m | _ => m end) root (io_dirs io).1));
  syscall (io_dirs io).2 io_error.

Definition staged (temporary : string) : W (option (list Ascii.ascii)) := d ← get; mret (d_staging d !! temporary).

(** [open_with] under [create_new]. *)
Definition create_new (temporary : string) (outcome : option IoKind) : W unit :=
  _ ← syscall outcome io_error;
  present ← staged temporary;
  match present with
  | Some _ => throw (io_error KAlreadyExists)
  | None => modify (with_staging <[temporary := []]>)
  end.

(** [write_all] on the file just created: a failure leaves some prefix behind. *)
Definition write_all (temporary : string) (outcome : nat * option IoKind) (bytes : list Ascii.ascii) : W unit :=
  match outcome with
  | (_, None) => modify (with_staging <[temporary := bytes]>)
  | (n, Some e) =>
      _ ← modify (with_staging <[temporary := take n bytes]>);
      throw (io_error e)
  end.

Definition hard_link (temporary : string) (path : RelPath) (outcome : option IoKind) : W unit :=
  _ ← syscall outcome map_already_exists;
  d ← get;
  match d_staging d !! temporary, d_root d !! resolve path with
  | None, _ => throw (map_already_exists KNotFound)
  | _, Some _ => throw (map_already_exists KAlreadyExists)
  | Some content, None => modify (with_root <[resolve path := NFile content]>)
  end.

Definition remove_file (temporary : string) (outcome : option IoKind) : W unit :=
  _ ← syscall outcome io_error;
  present ← staged temporary;
  match present with
  | None => throw (io_error KNotFound)
  | Some _ => modify (with_staging (delete temporary))
  end.

Definition rename (temporary : string) (path : RelPath) (outcome : option IoKind) : W unit :=
  _ ← syscall outcome io_error;
  d ← get;
  match d_staging d !! temporary, d_root d !! resolve path with
  | None, _ => throw (io_error KNotFound)
  | _, Some NDir => throw (io_error KOther)
  | Some content, _ =>
      _ ← modify (with_root <[resolve path := NFile content]>);
      modify (with_staging (delete temporary))
  end.

(** The end of both closures: durable, readable by the workspace's group, then visible at once. *)
Definition publish (io : WriteIo) (temporary : string) (path : RelPath) (overwrite : bool) : W unit :=
  _ ← syscall (io_sync io) io_error;
  _ ← syscall (io_permissions io) io_error;
  _ ← modify (with_root (io_guest io));
  if negb overwrite then
    _ ← hard_link temporary path (io_publish io);
    remove_file temporary (io_unlink io)
  else rename temporary path (io_publish io).

Definition temporary_path (path : RelPath) (pid nanos : Z) : string :=
  "." +:+ List.last path "file" +:+ ".hand-write-" +:+ print_uint pid +:+ "-" +:+ print_uint nanos.

(** The part [write] and [write_from_file] share around their closures. *)
Definition staged_write (io : WriteIo) (temporary : string) (path : RelPath) (logical_path sha256 : string)
    (closure : W unit) : W LiveFileEntry :=
  _ ← create_dir_all io;
  outcome ← observed closure;
  _ ← (if is_err outcome then _ ← (observed (remove_file temporary (io_cleanup io)) : W (Prelude.result LiveFileError unit)); mret tt
       else mret tt : W unit);
  _ ← lift outcome;
  d ← get;
  entry ← lift (entry_without_hash (view d) path logical_path);
  mret (mkLiveFileEntry (le_path entry) (le_kind entry) (le_bytes entry) (Some sha256) (le_modified_at_ms entry)).

Definition write (io : WriteIo) (pid nanos : Z) (logical_path : string) (bytes : list Ascii.ascii) (overwrite : bool)
    : W LiveFileEntry :=
  if MAX_LIVE_FILE_BYTES <? len bytes then throw TooLarge
  else
    path ← lift (relative logical_path);
    match path with
    | [] => throw NotFile
    | _ :: _ =>
        let temporary := temporary_path path pid nanos in
        staged_write io temporary path logical_path (sha256_hex bytes)
          (_ ← create_new temporary (io_create io);
           _ ← write_all temporary (io_write io) bytes;
           publish io temporary path overwrite)
    end.

(** [source] is the file at the source path: the failure to open it, or its content; [io_write] also
    covers a failure to read it. *)
Definition write_from_file (io : WriteIo) (pid nanos : Z) (logical_path : string)
    (source : result IoKind (list Ascii.ascii)) (expected_bytes : Z) (expected_sha256 : string) (overwrite : bool)
    : W LiveFileEntry :=
  if MAX_LIVE_OBJECT_BYTES <? expected_bytes then throw TooLarge
  else
    path ← lift (relative logical_path);
    match path with
    | [] => throw NotFile
    | _ :: _ =>
        let temporary := temporary_path path pid nanos in
        staged_write io temporary path logical_path expected_sha256
          (source ← lift (map_err io_error source);
           let copied := take (Z.to_nat (saturating_add expected_bytes 1)) source in
           _ ← create_new temporary (io_create io);
           _ ← write_all temporary (io_write io) copied;
           if negb (len copied =? expected_bytes) then throw SourceChanged
           else publish io temporary path overwrite)
    end.

(** ** What a write promises *)

(** The workspace before the write's own publication: its directories made, then the sandbox's changes. *)
Definition made_directories (io : WriteIo) (root : gmap RelPath Node) : gmap RelPath Node :=
  foldr (fun p m => match m !! p with None => <[p := NDir]> m | _ => m end) root (io_dirs io).1.

Definition published (path : RelPath) (content : list Ascii.ascii) (tree : gmap RelPath Node) : gmap RelPath Node := <[resolve path := NFile content]> tree.

(** The outcome of the closure: published whole, or not at all unless only the staged name could not be removed. *)
Definition closure_outcome (io : WriteIo) (temporary : string) (path : RelPath) (content : list Ascii.ascii)
    (overwrite : bool) (d : Disk) (r : result LiveFileError unit) (d' : Disk) : Prop :=
  let tree := io_guest io (d_root d) in
  match r with
  | Ok _ => d' = mkDisk (published path content tree) (d_staging d) /\ (overwrite = false -> tree !! resolve path = None)
  | Err _ => delete temporary (d_staging d') = d_staging d
             /\ (d_root d' = d_root d \/ d_root d' = tree
                 \/ d_root d' = published path content tree /\ overwrite = false /\ tree !! resolve path = None /\ io_unlink io <> None)
  end.

Lemma publish_outcome io temporary path content overwrite d staging :
  staging !! temporary = None -> d_staging d = <[temporary := content]> staging ->
  let '(r, d') := publish io temporary path overwrite d in
  closure_outcome io temporary path content overwrite (mkDisk (d_root d) staging) r d'.
Proof.
  intros Hfree Hd. unfold publish, hard_link, rename, remove_file, staged, syscall, closure_outcome.
  assert (Hdel : delete temporary (<[temporary := content]> staging) = staging) by by apply delete_insert_id.
  destruct d as [root st]. cbn in Hd. subst st. unfold published.
  run_step. unfold with_root, with_staging. cbn.
  destruct (io_sync io); [by auto|]. destruct (io_permissions io); [by auto|]. cbn.
  destruct overwrite; cbn; (destruct (io_publish io); [by auto|]); cbn; rewrite lookup_insert_eq.
  - destruct (io_guest io root !! resolve path) as [[| |]|]; cbn; rewrite ?Hdel; by auto.
  - destruct (io_guest io root !! resolve path) eqn:Ht; cbn; [by auto|].
    destruct (io_unlink io); cbn; [by auto 10|]. rewrite lookup_insert_eq. cbn. rewrite Hdel. auto.
Qed.

(** A closure that stages [content] and, if that succeeds and is accepted, publishes it. *)
Lemma staging_outcome io temporary path content overwrite (accepted : bool) d r d' :
  d_staging d !! temporary = None ->
  (_ ← create_new temporary (io_create io);
   _ ← write_all temporary (io_write io) content;
   if negb accepted then throw SourceChanged else publish io temporary path overwrite) d = (r, d') ->
  closure_outcome io temporary path content overwrite d r d' /\ (is_ok r = true -> accepted = true).
Proof.
  intros Hfree. destruct d as [root st]. cbn in Hfree.
  unfold create_new, write_all, staged, syscall. run_step. cbn.
  assert (Hdel : forall x, delete temporary (<[temporary := x]> st) = st) by (intros; by apply delete_insert_id).
  destruct (io_create io); cbn; [intros [= <- <-]; cbn; rewrite delete_id by done; by split; auto|].
  rewrite Hfree. unfold with_staging.
  destruct (io_write io) as [n [e|]]; cbn; rewrite insert_insert_eq; [intros [= <- <-]; cbn; rewrite Hdel; by split; auto|].
  destruct accepted; cbn; [|intros [= <- <-]; cbn; rewrite Hdel; by split; auto]. intros Hrun.
  pose proof (publish_outcome io temporary path content overwrite
    (mkDisk root (<[temporary := content]> st)) st Hfree eq_refl) as H. rewrite Hrun in H. auto.
Qed.

(** What a whole write promises: an answer means the content is in place, whole, and its staging name gone;
    an error means that the workspace is as the sandbox left it, unless the file is already published and
    what failed is the removal of its staging name or the final look at it. *)
Definition all_or_nothing (io : WriteIo) (path : RelPath) (logical_path sha256 : string) (content : list Ascii.ascii)
    (overwrite : bool) (d : Disk) (r : result LiveFileError LiveFileEntry) (d' : Disk) : Prop :=
  let before := made_directories io (d_root d) in
  let tree := io_guest io before in
  match r with
  | Ok entry =>
      d' = mkDisk (published path content tree) (d_staging d)
      /\ (overwrite = false -> tree !! resolve path = None)
      /\ le_path entry = logical_path /\ le_sha256 entry = Some sha256
  | Err e =>
      (io_cleanup io = None -> d_staging d' = d_staging d)
      /\ (d_root d' = before \/ d_root d' = tree
          \/ d_root d' = published path content tree /\ (overwrite = false -> tree !! resolve path = None)
             /\ (io_unlink io <> None \/ entry_without_hash (view d') path logical_path = Err e))
  end.

Lemma create_dir_all_run io d :
  create_dir_all io d
  = (match (io_dirs io).2 with None => Ok tt | Some e => Err (io_error e) end,
     mkDisk (made_directories io (d_root d)) (d_staging d)).
Proof. unfold create_dir_all, syscall. rewrite M_bind_run. cbn. by destruct (io_dirs io).2. Qed.

(** Removing the staged name afterwards, whatever the attempt says. *)
Lemma cleanup_run temporary outcome d :
  exists d', (_ ← (observed (remove_file temporary outcome) : M Disk LiveFileError (result LiveFileError unit)); mret tt) d = (Ok tt, d')
    /\ d_root d' = d_root d /\ (outcome = None -> d_staging d' = delete temporary (d_staging d)).
Proof.
  unfold remove_file, staged, syscall, observed. run_step. cbn.
  destruct outcome; cbn; [by eexists|]. destruct (d_staging d !! temporary) eqn:E; cbn; eexists; split; try done.
  split; [done|]. intros _. by rewrite delete_id.
Qed.

Lemma staged_write_outcome io temporary path logical_path sha256 content overwrite closure accepted d r d' :
  (forall root r d', closure (mkDisk root (d_staging d)) = (r, d') ->
     closure_outcome io temporary path content overwrite (mkDisk root (d_staging d)) r d'
     /\ (is_ok r = true -> accepted = true)) ->
  staged_write io temporary path logical_path sha256 closure d = (r, d') ->
  all_or_nothing io path logical_path sha256 content overwrite d r d'
  /\ (is_ok r = true -> accepted = true).
Proof.
  intros Hclosure. unfold staged_write, all_or_nothing. rewrite M_bind_run, create_dir_all_run.
  destruct (io_dirs io).2; [intros [= <- <-]; by split; auto|]. rewrite M_bind_run. unfold observed at 1.
  destruct (closure _) as [[[]|e] d1] eqn:Hrun; apply Hclosure in Hrun as [Hc Ha]; cbn [closure_outcome d_root d_staging is_err is_ok negb fst] in *.
  - destruct Hc as [-> Hn]. rewrite !M_bind_run, M_ret_run, M_bind_run, lift_run, M_bind_run, get_run, M_bind_run, lift_run.
    destruct (entry_without_hash _ _ _) as [entry|e] eqn:He; intros [= <- <-]; cbn.
    + rewrite (entry_path _ _ _ _ He). auto.
    + auto 10.
  - destruct Hc as [Hst Hroot]. rewrite M_bind_run.
    destruct (cleanup_run temporary (io_cleanup io) d1) as (d2 & -> & Hr2 & Hs2). rewrite M_bind_run, lift_run. intros [= <- <-].
    split; [|done]. split; [intros Hcl; by rewrite Hs2, Hst|]. rewrite Hr2. naive_solver.
Qed.

(** C34: a write to the workspace, from memory or from a transferred file, is all or nothing whatever fails on
    the way: it names a plain path beneath [/workspace]; when it answers, the path holds exactly the bytes it
    was given, nothing else has moved and the staged name is gone, and without [overwrite] the path was free at
    the moment of publication even if the sandbox created it during the write; when it fails, no partial
    content is ever visible. A transferred file is published only if it has exactly the expected length. *)
Theorem write_publishes_all_or_nothing io pid nanos logical_path path overwrite d :
  relative logical_path = Ok path -> d_staging d !! temporary_path path pid nanos = None ->
  (path <> [] -> logical_path = join_on "/"%char (LOGICAL_WORKSPACE :: path) /\ Forall plain_segment path)
  /\ (forall bytes, let '(r, d') := write io pid nanos logical_path bytes overwrite d in
      (path <> [] /\ len bytes <= MAX_LIVE_FILE_BYTES
       /\ all_or_nothing io path logical_path (sha256_hex bytes) bytes overwrite d r d')
      \/ d' = d /\ (r = Err TooLarge \/ r = Err NotFile))
  /\ (forall content expected sha256, 0 <= expected ->
      let '(r, d') := write_from_file io pid nanos logical_path (Ok content) expected sha256 overwrite d in
      (path <> [] /\ expected <= MAX_LIVE_OBJECT_BYTES
       /\ all_or_nothing io path logical_path sha256 (take (Z.to_nat (expected + 1)) content) overwrite d r d'
       /\ (is_ok r = true -> len content = expected))
      \/ d' = d /\ (r = Err TooLarge \/ r = Err NotFile)).
Proof.
  intros Hrel Hfree. split; [intros Hne; by apply relative_plain|]. split.
  - intros bytes. unfold write. destruct (Z.ltb_spec MAX_LIVE_FILE_BYTES (len bytes)); [rewrite throw_run; auto|].
    rewrite M_bind_run, lift_run, Hrel. destruct path as [|p ps]; [rewrite throw_run; auto|].
    destruct (staged_write _ _ _ _ _ _ d) as [r d'] eqn:Hrun. left. split; [done|]. split; [done|].
    eapply (staged_write_outcome _ _ _ _ _ bytes overwrite _ true) in Hrun; [apply Hrun|].
    intros root r1 d1 Hr. by apply (staging_outcome _ _ _ _ _ true) in Hr.
  - intros content expected sha256 Hpos. unfold write_from_file.
    destruct (Z.ltb_spec MAX_LIVE_OBJECT_BYTES expected) as [|Hmax]; [rewrite throw_run; auto|].
    rewrite M_bind_run, lift_run, Hrel. destruct path as [|p ps]; [rewrite throw_run; auto|].
    replace (saturating_add expected 1) with (expected + 1)
      by (unfold saturating_add, U64_MAX, MAX_LIVE_OBJECT_BYTES in *; lia).
    destruct (staged_write _ _ _ _ _ _ d) as [r d'] eqn:Hrun. left. split; [done|]. split; [done|].
    eapply (staged_write_outcome _ _ _ _ _ (take (Z.to_nat (expected + 1)) content) overwrite _
              (len (take (Z.to_nat (expected + 1)) content) =? expected)) in Hrun.
    + destruct Hrun as [Ha Hok]. split; [done|]. intros Hr%Hok. apply Z.eqb_eq in Hr.
      unfold len in *. rewrite length_take in Hr. lia.
    + intros root r1 d1 Hr. by apply (staging_outcome _ _ _ _ _ (_ =? _)) in Hr.
Qed.
End writes.

(** ** Example: the sandbox creates another file while one is written *)
Definition sample_io : WriteIo :=
  mkWriteIo ([], None) None (0%nat, None) None None (fun root => <[["other.txt"] := NFile []]> root) None None None.
Definition sample_disk : Disk := mkDisk ∅ ∅.
Definition sample_view (d : Disk) : Fs :=
  mkFs (fun _ => Err KOther)
       (fun p => match d_root d !! p with
                 | Some (NFile content) => Ok (mkMetadata TFile (len content) 5)
                 | Some NDir => Ok (mkMetadata TDir 0 5)
                 | Some NOther => Ok (mkMetadata TOther 0 5)
                 | None => Err KNotFound end)
       (fun _ => Err KOther) (fun _ => Err KOther).
Definition sample_hex (l : list Ascii.ascii) : string := print_uint (len l).
Definition sample_bytes : list Ascii.ascii := ["h"; "i"]%char.

Lemma write_publishes_all_or_nothing_witness :
  let '(r, d') := write sample_hex sample_view id sample_io 7 9 "/workspace/notes.txt" sample_bytes false sample_disk in
  r = Ok (mkLiveFileEntry "/workspace/notes.txt" File 2 (Some "2") 5)
  /\ ((["notes.txt"] <> [] /\ len sample_bytes <= MAX_LIVE_FILE_BYTES
       /\ all_or_nothing sample_view id sample_io ["notes.txt"] "/workspace/notes.txt" (sample_hex sample_bytes)
            sample_bytes false sample_disk r d')
      \/ d' = sample_disk /\ (r = Err TooLarge \/ r = Err NotFile)).
Proof.
  split; [vm_compute; reflexivity|].
  apply (proj1 (proj2 (write_publishes_all_or_nothing sample_hex sample_view id sample_io 7 9 "/workspace/notes.txt"
    ["notes.txt"] false sample_disk eq_refl eq_refl)) sample_bytes).
Defined.
