(* ===== verification/AppendLog.v ===== *)
(** * Append-only logs of newline-terminated records

    The file model shared by the two durable logs of hand-guest (crates/hand-guest/src/acks.rs and
    file_effects.rs): a file whose written bytes become durable at [sync_data], torn and failed writes,
    process crashes, power losses, and the recovery both [open]s perform (discard the tail after the
    last newline, then read the lines). *)
From S2P Require Import Prelude Policy.

Definition NL : Ascii.ascii := "010"%char.

(** ** Files *)

(** [durable] bytes from the start are known to be on the device; the rest may be lost. *)
Record LogFile := mkLogFile { content : list Ascii.ascii; durable : nat }.

Definition file_set_len (n : nat) (f : LogFile) : LogFile :=
  mkLogFile (take n (content f)) (Nat.min n (durable f)).

Definition file_write_at (start : nat) (data : list Ascii.ascii) (f : LogFile) : LogFile :=
  mkLogFile (take start (content f) ++ data ++ drop (start + length data) (content f)) (Nat.min start (durable f)).

Definition file_sync (f : LogFile) : LogFile := mkLogFile (content f) (length (content f)).

(** What the device did with one [write_all]: everything, or an error after some of the bytes, followed
    by a [set_len] back to the start that may fail too. *)
Inductive WriteOutcome := WriteOk | WriteFailed (written : nat) (truncated : bool).

(** The device's answers to one call, in program order. *)
Record IoOracle := mkIoOracle { io_presync : bool; io_seek : bool; io_write : WriteOutcome; io_sync : bool }.

(** The device's answers to one [open]. *)
Record OpenIo := mkOpenIo { oi_open : bool; oi_truncate : bool; oi_sync : bool; oi_seek : bool }.

Definition empty_log : LogFile := mkLogFile [] 0.

Definition io_good : IoOracle := mkIoOracle true true WriteOk true.
Definition io_sync_fails : IoOracle := mkIoOracle true true WriteOk false.
Definition open_good : OpenIo := mkOpenIo true true true true.

(** A failed write wrote strictly less than the whole record. *)
Definition write_file (start : nat) (data : list Ascii.ascii) (w : WriteOutcome) (f : LogFile) : bool * LogFile :=
  match w with
  | WriteOk => (true, file_write_at start data f)
  | WriteFailed n truncated =>
      let f := file_write_at start (take (Nat.min n (length data - 1)) data) f in
      (false, if truncated then file_set_len start f else f)
  end.

(** What is left of a file when the device loses what was not synced. *)
Definition power_loss (f f' : LogFile) : Prop :=
  exists n, (durable f <= n)%nat /\ (n <= length (content f))%nat /\ f' = mkLogFile (take n (content f)) n.

(** ** Recovery *)

(** [bytes.iter().rposition(|b| *b == b'\n').map_or(0, |i| i + 1)], and the whole length when the last
    byte is a newline: the length of the longest prefix that ends in a newline. *)
Fixpoint valid_len (l : list Ascii.ascii) : nat :=
  match l with
  | [] => 0
  | b :: l' => match valid_len l' with
               | O => if Ascii.eqb b NL then 1%nat else 0%nat
               | S n => S (S n)
               end
  end.

(** [bytes.split(|b| *b == b'\n')] *)
Fixpoint split_lines (l : list Ascii.ascii) : list (list Ascii.ascii) :=
  match l with
  | [] => [[]]
  | b :: l' =>
      if Ascii.eqb b NL then [] :: split_lines l'
      else match split_lines l' with
           | [] => [[b]]
           | p :: ps => (b :: p) :: ps
           end
  end.

Definition nonempty_lines (l : list Ascii.ascii) : list (list Ascii.ascii) :=
  List.filter (fun p => negb (Nat.eqb (length p) 0)) (split_lines l).

Definition recover_file (f : LogFile) : LogFile :=
  if Nat.eqb (valid_len (content f)) (length (content f)) then f
  else file_sync (file_set_len (valid_len (content f)) f).

(** ** Encoded logs *)
Definition no_newline (l : list Ascii.ascii) : Prop := Forall (fun b => Ascii.eqb b NL = false) l.

Definition frame (line : list Ascii.ascii) : list Ascii.ascii := line ++ [NL].

Definition framed (ls : list (list Ascii.ascii)) : list Ascii.ascii := concat (map frame ls).

(** A line of the log: a non-empty encoding without a newline. *)
Definition line_ok (line : list Ascii.ascii) : Prop := line <> [] /\ no_newline line.

(** The file holds exactly these complete lines, and possibly a torn tail. *)
Definition holds (ls : list (list Ascii.ascii)) (f : LogFile) : Prop :=
  Forall line_ok ls /\ exists junk, content f = framed ls ++ junk /\ no_newline junk
  /\ (durable f <= length (content f))%nat.

(** The first [k] lines are durable. *)
Definition synced (k : nat) (ls : list (list Ascii.ascii)) (f : LogFile) : Prop :=
  (k <= length ls)%nat /\ (length (framed (take k ls)) <= durable f)%nat.

(** ** Lemmas *)
Lemma framed_app l1 l2 : framed (l1 ++ l2) = framed l1 ++ framed l2.
Proof. unfold framed. by rewrite map_app, concat_app. Qed.

Lemma framed_cons l ls : framed (l :: ls) = frame l ++ framed ls.
Proof. done. Qed.

Lemma framed_snoc ls l : framed (ls ++ [l]) = framed ls ++ frame l.
Proof. rewrite framed_app. unfold framed. cbn. by rewrite app_nil_r. Qed.

Lemma no_newline_app a b : no_newline (a ++ b) <-> no_newline a /\ no_newline b.
Proof. apply Forall_app. Qed.

Lemma no_newline_take n l : no_newline l -> no_newline (take n l).
Proof. apply Forall_take. Qed.

Lemma no_newline_drop n l : no_newline l -> no_newline (drop n l).
Proof. apply Forall_drop. Qed.

Lemma valid_len_no_newline l : no_newline l -> valid_len l = 0%nat.
Proof. induction 1 as [|b l Hb _ IH]; [done|]. cbn. by rewrite IH, Hb. Qed.

Lemma valid_len_frame line l : valid_len (frame line ++ l) = (length (frame line) + valid_len l)%nat.
Proof.
  unfold frame. rewrite <- app_assoc. induction line as [|b line IH]; cbn in *.
  - by destruct (valid_len l).
  - rewrite IH, length_app. cbn. destruct (length line + 1 + valid_len l)%nat eqn:E; lia.
Qed.

Lemma valid_len_framed ls junk : no_newline junk -> valid_len (framed ls ++ junk) = length (framed ls).
Proof.
  intros Hj. induction ls as [|l ls IH]; [by apply valid_len_no_newline|].
  rewrite framed_cons. rewrite <- app_assoc, valid_len_frame, IH, length_app. done.
Qed.

Lemma split_lines_frame line l : no_newline line -> split_lines (frame line ++ l) = line :: split_lines l.
Proof.
  unfold frame. rewrite <- app_assoc. induction 1 as [|b line Hb _ IH]; cbn in *; [done|].
  by rewrite Hb, IH.
Qed.

Lemma split_lines_nonnil l : split_lines l <> [].
Proof. destruct l as [|b l]; cbn; [done|]. destruct (Ascii.eqb b NL); [done|]. by destruct (split_lines l). Qed.

Lemma nonempty_lines_framed ls : Forall line_ok ls -> nonempty_lines (framed ls) = ls.
Proof.
  unfold nonempty_lines. induction 1 as [|l ls [Hne Hnl] _ IH]; [done|].
  rewrite framed_cons. rewrite split_lines_frame by done. cbn.
  destruct l; [done|]. cbn. by rewrite IH.
Qed.

(** Any prefix of a framed log followed by a torn tail recovers to a prefix of its lines. *)
Lemma take_framed ls junk n :
  Forall line_ok ls -> no_newline junk ->
  exists k junk', (k <= length ls)%nat /\ take n (framed ls ++ junk) = framed (take k ls) ++ junk' /\ no_newline junk'
    /\ forall d, (d <= length ls)%nat -> (length (framed (take d ls)) <= n)%nat -> (d <= k)%nat.
Proof.
  intros Hls Hj. revert n. induction Hls as [|l ls [Hne Hnl] Hls IH]; intros n.
  { exists 0%nat, (take n junk). split_and!; try done. by apply no_newline_take. }
  rewrite framed_cons. rewrite <- app_assoc.
  destruct (decide (length (frame l) <= n)%nat) as [Hle|Hgt].
  - destruct (IH (n - length (frame l))%nat) as (k & junk' & Hk & Ht & Hj' & Hmax).
    exists (S k), junk'. rewrite take_app, take_ge, Ht by done. cbn [take length]. split_and!; [lia| |done|].
    + by rewrite framed_cons, app_assoc.
    + intros [|d] Hd Hn; [lia|]. cbn [take length] in Hd, Hn. rewrite framed_cons, length_app in Hn.
      assert (d <= k)%nat; [apply Hmax|]; lia.
  - exists 0%nat, (take n (frame l)). rewrite take_app.
    replace (n - length (frame l))%nat with 0%nat by lia. rewrite take_0, app_nil_r. split_and!; [lia|done| |].
    + unfold frame in *. rewrite length_app in Hgt. cbn in Hgt. rewrite take_app_le by lia. by apply no_newline_take.
    + intros [|d] Hd Hn; [lia|]. exfalso. cbn [take] in Hn. rewrite framed_cons, length_app in Hn. lia.
Qed.

(** ** What each file operation does to a held log *)
Lemma holds_lines ls f : holds ls f -> nonempty_lines (take (valid_len (content f)) (content f)) = ls.
Proof.
  intros (Hls & junk & Hc & Hj & _). rewrite Hc, valid_len_framed, take_app_length by done.
  by apply nonempty_lines_framed.
Qed.

Lemma recover_file_holds ls f : holds ls f -> holds ls (recover_file f) /\ content (recover_file f) = framed ls.
Proof.
  intros (Hls & junk & Hc & Hj & Hd). unfold recover_file. rewrite Hc, valid_len_framed by done.
  destruct (Nat.eqb_spec (length (framed ls)) (length (framed ls ++ junk))) as [E|E].
  - rewrite length_app in E. destruct junk; [|cbn in E; lia]. rewrite app_nil_r in *. split; [|done].
    split; [done|]. exists []. by rewrite app_nil_r.
  - unfold file_sync, file_set_len. cbn. rewrite Hc, take_app_length. split; [|done].
    split; [done|]. exists []. cbn. rewrite app_nil_r. split_and!; [done | constructor | lia].
Qed.

Lemma recover_file_synced k ls f : holds ls f -> synced k ls f -> synced k ls (recover_file f).
Proof.
  intros (Hls & junk & Hc & Hj & Hd) [Hk Hs]. split; [done|]. unfold recover_file.
  destruct (Nat.eqb _ _); [done|]. cbn. rewrite Hc, valid_len_framed, take_app_length by done.
  rewrite <- (take_drop k ls) at 2. rewrite framed_app, length_app. lia.
Qed.

Lemma sync_holds ls f : holds ls f -> holds ls (file_sync f) /\ synced (length ls) ls (file_sync f).
Proof.
  intros (Hls & junk & Hc & Hj & Hd). split.
  - split; [done|]. exists junk. cbn. split_and!; done || lia.
  - split; [done|]. cbn. rewrite firstn_all, Hc, length_app. lia.
Qed.

Lemma write_holds k ls f data line w :
  holds ls f -> synced k ls f -> line_ok line -> data = frame line ->
  let '(ok, f') := write_file (length (framed ls)) data w f in
  (if ok then holds (ls ++ [line]) f' else holds ls f') /\ synced k ls f'.
Proof.
  intros (Hls & junk & Hc & Hj & Hd) [Hk Hs] Hline ->. unfold write_file, synced.
  assert (Hle : (length (framed (take k ls)) <= length (framed ls))%nat).
  { rewrite <- (take_drop k ls) at 2. rewrite framed_app, length_app. lia. }
  destruct w as [|n truncated].
  - unfold file_write_at. rewrite Hc, take_app_length. split; [|cbn; lia].
    split; [apply Forall_app; split; [done | by apply Forall_singleton]|].
    exists (drop (length (framed ls) + length (frame line)) (framed ls ++ junk)). cbn.
    rewrite framed_snoc, app_assoc. split_and!; [done| |rewrite !length_app; lia].
    rewrite drop_app_ge by lia. by apply no_newline_drop.
  - assert (Hcut : exists cut, take (Nat.min n (length (frame line) - 1)) (frame line) = cut /\ no_newline cut).
    { eexists. split; [done|]. unfold frame. rewrite length_app. cbn.
      rewrite take_app_le by lia. apply no_newline_take, Hline. }
    destruct Hcut as (cut & -> & Hcut). unfold file_write_at. rewrite Hc, take_app_length.
    assert (Hdrop : no_newline (drop (length (framed ls) + length cut) (framed ls ++ junk))).
    { rewrite drop_app_ge by lia. by apply no_newline_drop. }
    destruct truncated; unfold file_set_len; cbn.
    + rewrite take_app_length. split; [|lia]. split; [done|]. exists []. rewrite app_nil_r. split_and!; [done | by apply Forall_nil_2 | cbn; lia].
    + split; [|lia]. split; [done|]. eexists. split; [reflexivity|]. split; [by apply no_newline_app|].
      cbn. rewrite !length_app. lia.
Qed.

(** A power loss keeps a prefix of the lines, at least the synced ones, and what it keeps is durable. *)
Lemma power_loss_holds k ls f f' :
  holds ls f -> synced k ls f -> power_loss f f' ->
  exists n, (k <= n)%nat /\ (n <= length ls)%nat /\ holds (take n ls) f' /\ synced n (take n ls) f'.
Proof.
  intros (Hls & junk & Hc & Hj & Hd) [Hk Hs] (n & Hn1 & Hn2 & ->).
  destruct (take_framed ls junk n Hls Hj) as (m & junk' & Hm & Ht & Hj' & Hmax).
  exists m. rewrite Hc in *. split_and!; [apply Hmax; lia | done | |].
  - split; [by apply Forall_take|]. exists junk'. cbn. split_and!; [done..|].
    rewrite length_take. lia.
  - split; [rewrite length_take; lia|]. cbn. rewrite take_take, Nat.min_id.
    pose proof (f_equal length Ht) as Hlen. rewrite length_take, !length_app in Hlen. lia.
Qed.

Lemma write_file_length start data w f :
  (length (content (write_file start data w f).2) <= Nat.max (length (content f)) (start + length data))%nat.
Proof.
  unfold write_file, file_write_at, file_set_len. destruct w as [|n []]; cbn;
    rewrite ?length_take, !length_app, ?length_take, ?length_drop; lia.
Qed.

Lemma synced_app k ls tl f : synced k ls f -> synced k (ls ++ tl) f.
Proof.
  intros [Hk Hd]. split; [rewrite length_app; lia|]. rewrite take_app_le by lia. done.
Qed.

(** Discarding the torn tail changes neither what is held nor what is synced. *)
Lemma cut_holds k ls f :
  holds ls f -> synced k ls f ->
  holds ls (file_set_len (valid_len (content f)) f) /\ synced k ls (file_set_len (valid_len (content f)) f).
Proof.
  intros (Hls & junk & Hc & Hj & Hd) [Hk Hs]. unfold file_set_len. split.
  - split; [done|]. exists []. cbn. rewrite Hc, valid_len_framed, take_app_length, app_nil_r by done.
    split_and!; [done | by apply Forall_nil_2 | lia].
  - split; [done|]. cbn. rewrite Hc, valid_len_framed by done.
    rewrite <- (take_drop k ls) at 2. rewrite framed_app, length_app. lia.
Qed.

Lemma set_len_length n f : (length (content (file_set_len n f)) <= length (content f))%nat.
Proof. cbn. rewrite length_take. lia. Qed.

Lemma recover_file_length f : (length (content (recover_file f)) <= length (content f))%nat.
Proof. unfold recover_file. case_match; [done|]. cbn. rewrite length_take. lia. Qed.

Lemma power_loss_length f f' : power_loss f f' -> (length (content f') <= length (content f))%nat.
Proof. intros (n & _ & _ & ->). cbn. rewrite length_take. lia. Qed.

Lemma holds_length ls f : holds ls f -> len (framed ls) <= len (content f).
Proof. intros (_ & junk & -> & _). unfold len. rewrite length_app. lia. Qed.

(** The lines [open] reads from the recovered file. *)
Lemma recovered_lines ls f :
  holds ls f -> nonempty_lines (take (valid_len (content f)) (content (recover_file f))) = ls
  /\ valid_len (content f) = length (framed ls).
Proof.
  intros Hh. assert (Hn : valid_len (content f) = length (framed ls)).
  { destruct Hh as (_ & junk & -> & Hj & _). by apply valid_len_framed. }
  destruct (recover_file_holds ls f Hh) as [_ Hc]. rewrite Hn, Hc, firstn_all.
  split; [apply nonempty_lines_framed, Hh | done].
Qed.

(** ** Bytes a bar-separated sample encoding may hold *)
Definition plain_byte (c : Ascii.ascii) : bool := negb (Ascii.eqb NL c) && negb (Ascii.eqb "|"%char c).

Lemma plain_facts s :
  Forall (fun c => plain_byte c = true) (bytes_of s) -> no_newline (bytes_of s) /\ contains_char "|" s = false.
Proof.
  intros H. rewrite contains_char_false. split; (eapply Forall_impl; [exact H|]); intros c Hc;
    unfold plain_byte in Hc; bool_hyps; rewrite ?(Ascii.eqb_sym c); done.
Qed.

Lemma digest_plain s : hex_digest s -> Forall (fun c => plain_byte c = true) (bytes_of s).
Proof.
  intros [_ H]. eapply Forall_impl; [exact H|]. intros c Hc.
  assert (Hi : implb (is_lower_hex c) (plain_byte c) = true) by by_bytes c. by rewrite Hc in Hi.
Qed.

Lemma identifier_plain s : identifier s -> Forall (fun c => plain_byte c = true) (bytes_of s).
Proof.
  intros (_ & _ & c0 & rest & -> & H0 & H). apply Forall_cons. split.
  - assert (Hi : implb (is_ascii_alphanumeric c0) (plain_byte c0) = true) by by_bytes c0. by rewrite H0 in Hi.
  - eapply Forall_impl; [exact H|]. intros c Hc.
    assert (Hi : implb (identifier_tail_char c) (plain_byte c) = true) by by_bytes c. by rewrite Hc in Hi.
Qed.

Lemma no_newline_bar a b :
  no_newline (bytes_of a) -> no_newline (bytes_of b) -> no_newline (bytes_of (a +:+ String "|" b)).
Proof.
  intros Ha Hb. rewrite bytes_of_app. apply no_newline_app. split; [done|].
  apply Forall_cons. by split.
Qed.
