(* ===== verification/Acks.v ===== *)
(** * hand-guest acknowledgement fences

    Models crates/hand-guest/src/acks.rs: the append-only log of acknowledged operations, its recovery,
    the submission fence and the durable retention of an acknowledgement. The JSON codec of one line and
    Brain's operation reference with its canonical digest are outside the repository and are section
    variables; each I/O call takes the device's answers as an argument. *)
From S2P Require Import Prelude Policy AppendLog.

Definition MAX_ACKNOWLEDGEMENT_LOG_BYTES : Z := 64 * 1024 * 1024.

Record AcknowledgedOperation := mkAcknowledgedOperation {
  ack_operation_id : string;
  ack_request_digest : string;
  ack_operation_ref_digest : string;
  ack_terminal_digest : string;
}.

#[global] Instance AcknowledgedOperation_eq_dec : EqDecision AcknowledgedOperation.
Proof. solve_decision. Defined.

Inductive SubmissionFence := Clear | Acknowledged.
Inductive AckRetention := AckNew | AckReplay.

Inductive AckStoreError :=
  | AckConflict
  | AckCapacity
  | AckCorrupt (what : string)
  | AckInvalid (what : string)
  | AckIo.

(** The index and the writer under their two locks; lock poisoning is not modelled. *)
Record AckStore := mkAckStore {
  ack_records : gmap string AcknowledgedOperation;
  ack_file : LogFile;
  ack_bytes : nat;
  ack_dirty : bool;
  ack_max_bytes : Z;
}.

Notation Ack := (M AckStore AckStoreError).

Definition set_ack_file (f : LogFile) (s : AckStore) : AckStore :=
  mkAckStore (ack_records s) f (ack_bytes s) (ack_dirty s) (ack_max_bytes s).
Definition set_ack_dirty (b : bool) (s : AckStore) : AckStore :=
  mkAckStore (ack_records s) (ack_file s) (ack_bytes s) b (ack_max_bytes s).
Definition set_ack_bytes (n : nat) (s : AckStore) : AckStore :=
  mkAckStore (ack_records s) (ack_file s) n (ack_dirty s) (ack_max_bytes s).
Definition set_ack_records (m : gmap string AcknowledgedOperation) (s : AckStore) : AckStore :=
  mkAckStore m (ack_file s) (ack_bytes s) (ack_dirty s) (ack_max_bytes s).

Definition ack_validate_identifier (value : string) : result AckStoreError unit :=
  map_err (fun _ => AckInvalid "operation_id") (validate_identifier value "operation_id").
Definition ack_validate_digest (value : string) : result AckStoreError unit :=
  map_err (fun _ => AckInvalid "digest") (validate_digest value "digest").

Definition ack_validate (r : AcknowledgedOperation) : result AckStoreError unit :=
  _ ← ack_validate_identifier (ack_operation_id r);
  _ ← ack_validate_digest (ack_request_digest r);
  _ ← ack_validate_digest (ack_operation_ref_digest r);
  ack_validate_digest (ack_terminal_digest r).

Section acks.
Context (to_json : AcknowledgedOperation -> option (list Ascii.ascii)).
Context (from_json : list Ascii.ascii -> option AcknowledgedOperation).
Context {OperationRef : Type} (op_id op_request_digest : OperationRef -> string).
Context (canonical_digest : OperationRef -> option string).

Definition acknowledged_new (operation : OperationRef) (terminal_digest : string)
    : result AckStoreError AcknowledgedOperation :=
  d ← ok_or (AckInvalid "operation reference is not canonicalizable") (canonical_digest operation);
  Ok (mkAcknowledgedOperation (op_id operation) (op_request_digest operation) d terminal_digest).

(** The loop over the recovered lines. *)
Fixpoint ack_index (records : gmap string AcknowledgedOperation) (lines : list (list Ascii.ascii))
    : result AckStoreError (gmap string AcknowledgedOperation) :=
  match lines with
  | [] => Ok records
  | line :: lines =>
      record ← ok_or (AckCorrupt "invalid complete JSON record") (from_json line);
      _ ← ack_validate record;
      match records !! ack_operation_id record with
      | Some existing =>
          if bool_decide (existing = record) then ack_index records lines
          else Err (AckCorrupt "one operation id has conflicting tombstones")
      | None => ack_index (<[ack_operation_id record := record]> records) lines
      end
  end.

(** [open_with_limit]: the result and the file it leaves. *)
Definition ack_open (max_bytes : Z) (io : OpenIo) (f : LogFile) : result AckStoreError AckStore * LogFile :=
  if negb (oi_open io) then (Err AckIo, f)
  else if max_bytes <? len (content f) then (Err AckCapacity, f)
  else
    let n := valid_len (content f) in
    let torn := negb (Nat.eqb n (length (content f))) in
    if torn && negb (oi_truncate io) then (Err AckIo, f)
    else if torn && negb (oi_sync io) then (Err AckIo, file_set_len n f)
    else
      let f := recover_file f in
      (records ← ack_index ∅ (nonempty_lines (take n (content f)));
       _ ← ensure (oi_seek io) AckIo;
       Ok (mkAckStore records f n false max_bytes), f).

Definition fence_submission (operation_id request_digest : string) (s : AckStore)
    : result AckStoreError SubmissionFence :=
  match ack_records s !! operation_id with
  | None => Ok Clear
  | Some record =>
      if str_eqb (ack_request_digest record) request_digest then Ok Acknowledged else Err AckConflict
  end.

(** [writer.file.sync_data().map_err(Io)?; writer.dirty = false]. *)
Definition ack_sync (ok : bool) : Ack unit :=
  if ok then
    s ← get;
    _ ← modify (set_ack_file (file_sync (ack_file s)));
    modify (set_ack_dirty false)
  else throw AckIo.

Definition ack_flush (ok : bool) : Ack unit :=
  s ← get;
  if ack_dirty s then ack_sync ok else mret tt.

Definition acknowledgement_exists (io : IoOracle) (operation : OperationRef) (terminal_digest : string) : Ack bool :=
  candidate ← lift (acknowledged_new operation terminal_digest);
  _ ← ack_flush (io_presync io);
  s ← get;
  match ack_records s !! ack_operation_id candidate with
  | None => mret false
  | Some existing => if bool_decide (existing = candidate) then mret true else throw AckConflict
  end.

Definition ack_write (io : IoOracle) (start : nat) (data : list Ascii.ascii) : Ack unit :=
  s ← get;
  let '(ok, f) := write_file start data (io_write io) (ack_file s) in
  _ ← modify (set_ack_file f);
  if ok then mret tt else throw AckIo.

Definition retain (io : IoOracle) (operation : OperationRef) (terminal_digest : string) : Ack AckRetention :=
  candidate ← lift (acknowledged_new operation terminal_digest);
  _ ← lift (ack_validate candidate);
  _ ← ack_flush (io_presync io);
  s ← get;
  match ack_records s !! ack_operation_id candidate with
  | Some existing => if bool_decide (existing = candidate) then mret AckReplay else throw AckConflict
  | None =>
      line ← lift (ok_or (AckInvalid "acknowledgement is not serializable") (to_json candidate));
      let encoded := frame line in
      next ← lift (ok_or AckCapacity (checked_add (Z.of_nat (ack_bytes s)) (len encoded)));
      if ack_max_bytes s <? next then throw AckCapacity
      else
        _ ← lift (ensure (io_seek io) AckIo);
        _ ← ack_write io (ack_bytes s) encoded;
        _ ← modify (set_ack_bytes (Z.to_nat next));
        _ ← modify (set_ack_dirty true);
        _ ← modify (fun s => set_ack_records (<[ack_operation_id candidate := candidate]> (ack_records s)) s);
        _ ← ack_sync (io_sync io);
        mret AckNew
  end.
End acks.

(** ** What the calls do to the index *)
Section records.
Context (to_json : AcknowledgedOperation -> option (list Ascii.ascii)).
Context {OperationRef : Type} (op_id op_request_digest : OperationRef -> string).
Context (canonical_digest : OperationRef -> option string).

Lemma ack_flush_records ok s : ack_records (ack_flush ok s).2 = ack_records s.
Proof. unfold ack_flush, ack_sync. run_step. by destruct (ack_dirty s), ok. Qed.

Lemma acknowledged_new_id o t c :
  acknowledged_new op_id op_request_digest canonical_digest o t = Ok c -> ack_operation_id c = op_id o.
Proof. unfold acknowledged_new. intros [d [_ [= <-]]]%result_bind_Ok. done. Qed.

Lemma acknowledgement_exists_records io o t s r s' :
  acknowledgement_exists op_id op_request_digest canonical_digest io o t s = (r, s') ->
  ack_records s' = ack_records s /\ (r = Ok true -> is_Some (ack_records s !! op_id o)).
Proof.
  unfold acknowledgement_exists. rewrite M_bind_run, lift_run.
  destruct (acknowledged_new _ _ _ o t) as [c|] eqn:Hc; [|by intros [= <- <-]].
  apply acknowledged_new_id in Hc. rewrite M_bind_run. pose proof (ack_flush_records (io_presync io) s) as Hf.
  destruct (ack_flush _ s) as [[[]|] s1]; cbn in Hf; [|by intros [= <- <-]].
  rewrite M_bind_run, get_run, Hc, Hf. destruct (ack_records s !! op_id o) as [e|]; [|by intros [= <- <-]].
  case_bool_decide; intros [= <- <-]; split; try done.
Qed.

(** A retention adds at most the operation it names, and has it when it answers. *)
Lemma retain_records io o t s r s' :
  retain to_json op_id op_request_digest canonical_digest io o t s = (r, s') ->
  ack_records s ⊆ ack_records s' /\ (forall id, id <> op_id o -> ack_records s' !! id = ack_records s !! id)
  /\ (is_ok r = true -> is_Some (ack_records s' !! op_id o)).
Proof.
  unfold retain. rewrite M_bind_run, lift_run.
  destruct (acknowledged_new _ _ _ o t) as [c|] eqn:Hc; [|by intros [= <- <-]].
  apply acknowledged_new_id in Hc. rewrite M_bind_run, lift_run. destruct (ack_validate c); [|by intros [= <- <-]].
  rewrite M_bind_run. pose proof (ack_flush_records (io_presync io) s) as Hf.
  destruct (ack_flush _ s) as [[[]|] s1]; cbn in Hf; [|intros [= <- <-]; by rewrite Hf].
  rewrite M_bind_run, get_run, Hc, Hf. destruct (ack_records s !! op_id o) as [e|] eqn:He.
  { case_bool_decide; intros [= <- <-]; rewrite Hf; split_and!; try done. }
  rewrite M_bind_run, lift_run. destruct (ok_or _ (to_json c)) as [line|]; [|intros [= <- <-]; by rewrite Hf].
  cbv zeta. rewrite M_bind_run, lift_run. destruct (ok_or _ (checked_add _ _)) as [next|]; [|intros [= <- <-]; by rewrite Hf].
  destruct (ack_max_bytes s1 <? next); [intros [= <- <-]; by rewrite Hf|].
  rewrite M_bind_run, lift_run. destruct (ensure _ _) as [[]|]; [|intros [= <- <-]; by rewrite Hf].
  rewrite M_bind_run. unfold ack_write. run_step.
  destruct (write_file _ _ _ _) as [ok f]. destruct ok; [|intros [= <- <-]; cbn; by rewrite Hf].
  cbn. unfold ack_sync. run_step. destruct (io_sync io); cbn; intros [= <- <-]; cbn; rewrite ?Hf, ?Hc;
    (split; [by apply insert_subseteq|]; split; [intros id Hne; by rewrite lookup_insert_ne by done|]);
    intros; rewrite ?lookup_insert_eq; try done; by eexists.
Qed.
End records.

(** ** The store over its life: calls, process crashes, power losses and reopenings *)
Inductive AckSystem := Up (s : AckStore) | Down (f : LogFile).

Section system.
Context (to_json : AcknowledgedOperation -> option (list Ascii.ascii)).
Context (from_json : list Ascii.ascii -> option AcknowledgedOperation).
Context {OperationRef : Type} (op_id op_request_digest : OperationRef -> string).
Context (canonical_digest : OperationRef -> option string) (max_bytes : Z).

Inductive ack_step : AckSystem -> AckSystem -> Prop :=
  | AckRetainCall s io o t :
      ack_step (Up s) (Up (retain to_json op_id op_request_digest canonical_digest io o t s).2)
  | AckExistsCall s io o t :
      ack_step (Up s) (Up (acknowledgement_exists op_id op_request_digest canonical_digest io o t s).2)
  | AckProcessCrash s : ack_step (Up s) (Down (ack_file s))
  | AckPowerLossUp s f : power_loss (ack_file s) f -> ack_step (Up s) (Down f)
  | AckPowerLossDown f f' : power_loss f f' -> ack_step (Down f) (Down f')
  | AckOpen io f f' s : ack_open from_json max_bytes io f = (Ok s, f') -> ack_step (Down f) (Up s)
  | AckOpenFailed io f f' e : ack_open from_json max_bytes io f = (Err e, f') -> ack_step (Down f) (Down f').

Definition ack_reachable : AckSystem -> Prop := rtc ack_step (Down empty_log).

(** The codec's documented behaviour on valid records: compact JSON has no raw newline, is not empty,
    and decodes to what was encoded. *)
Definition codec_ok : Prop :=
  forall r line, ack_validate r = Ok tt -> to_json r = Some line -> line_ok line /\ from_json line = Some r.

(** ** Invariant *)
Definition ack_map (evs : list AcknowledgedOperation) : gmap string AcknowledgedOperation :=
  foldl (fun m r => <[ack_operation_id r := r]> m) ∅ evs.

(** The file holds the lines of these records, the first [k] of them durably. *)
Definition ack_log (evs : list AcknowledgedOperation) (k : nat) (f : LogFile) : Prop :=
  Forall (fun r => ack_validate r = Ok tt) evs
  /\ NoDup (map ack_operation_id evs)
  /\ len (content f) <= max_bytes
  /\ exists ls, Forall2 (fun r l => to_json r = Some l) evs ls /\ holds ls f /\ synced k ls f.

Definition ack_store_ok (evs : list AcknowledgedOperation) (k : nat) (s : AckStore) : Prop :=
  ack_log evs k (ack_file s) /\ ack_records s = ack_map evs /\ ack_max_bytes s = max_bytes
  /\ exists ls, Forall2 (fun r l => to_json r = Some l) evs ls /\ ack_bytes s = length (framed ls).

Definition ack_sys_ok (evs : list AcknowledgedOperation) (k : nat) (y : AckSystem) : Prop :=
  match y with Up s => ack_store_ok evs k s | Down f => ack_log evs k f end.

(** ** Lemmas *)
Lemma ack_map_snoc evs r : ack_map (evs ++ [r]) = <[ack_operation_id r := r]> (ack_map evs).
Proof. unfold ack_map. by rewrite foldl_snoc. Qed.

Lemma ack_map_lookup evs id r :
  NoDup (map ack_operation_id evs) ->
  ack_map evs !! id = Some r <-> r ∈ evs /\ ack_operation_id r = id.
Proof.
  induction evs as [|x evs IH] using rev_ind; intros Hnd.
  - split; [done|]. intros [H _]. by apply not_elem_of_nil in H.
  - rewrite map_app in Hnd. apply NoDup_app in Hnd as (Hnd & Hdis & _).
    rewrite ack_map_snoc, lookup_insert, elem_of_app, list_elem_of_singleton. case_decide as E.
    + split; [intros [= <-]; auto|]. intros [[Hin | ->] Hid]; [|done]. exfalso.
      apply (Hdis (ack_operation_id r)); [by apply list_elem_of_fmap; exists r|]. apply list_elem_of_singleton. congruence.
    + rewrite IH by done. split; [tauto|]. intros [[? | ->] ?]; [done | by subst].
Qed.

Lemma enc_unique evs (ls ls' : list (list Ascii.ascii)) :
  Forall2 (fun r l => to_json r = Some l) evs ls -> Forall2 (fun r l => to_json r = Some l) evs ls' -> ls = ls'.
Proof.
  intros H. revert ls'. induction H as [|r l evs ls Hr _ IH]; intros ls' H'; inversion H'; subst; [done|].
  f_equal; [congruence | auto].
Qed.

Lemma ack_index_replay (Hcodec : codec_ok) m evs ls :
  Forall (fun r => ack_validate r = Ok tt) evs -> NoDup (map ack_operation_id evs) ->
  Forall2 (fun r l => to_json r = Some l) evs ls -> Forall (fun r => m !! ack_operation_id r = None) evs ->
  ack_index from_json m ls = Ok (foldl (fun m r => <[ack_operation_id r := r]> m) m evs).
Proof.
  intros Hv Hnd H. revert m. induction H as [|r l evs ls Hr H IH]; intros m Hm; [done|].
  apply Forall_cons in Hv as [Hr0 Hv], Hm as [Hm0 Hm]. cbn in Hnd. apply NoDup_cons in Hnd as [Hnin Hnd].
  destruct (Hcodec r l Hr0 Hr) as [_ Hdec]. cbn. rewrite Hdec. cbn. rewrite Hr0. cbn. rewrite Hm0.
  apply IH; [done..|]. rewrite Forall_forall in Hm |- *. intros x Hin.
  rewrite lookup_insert_ne; [by apply Hm|]. intros Heq. apply Hnin. rewrite Heq. apply list_elem_of_fmap. by exists x.
Qed.

Lemma ack_log_take evs k n f' ls :
  Forall (fun r => ack_validate r = Ok tt) evs -> NoDup (map ack_operation_id evs) ->
  Forall2 (fun r l => to_json r = Some l) evs ls ->
  len (content f') <= max_bytes -> holds (take n ls) f' -> synced k (take n ls) f' -> ack_log (take n evs) k f'.
Proof.
  intros Hv Hnd H Hmax Hh Hs. split_and!; [by apply Forall_take | | done |].
  - rewrite <- firstn_map. rewrite <- (take_drop n) in Hnd. by apply NoDup_app in Hnd as [? _].
  - exists (take n ls). split; [by apply Forall2_take | done].
Qed.

(** A call that only flushes and reads. *)
Lemma ack_flush_ok evs k io s :
  ack_store_ok evs k s ->
  ack_records (ack_flush io s).2 = ack_records s /\ ack_bytes (ack_flush io s).2 = ack_bytes s
  /\ ack_max_bytes (ack_flush io s).2 = ack_max_bytes s
  /\ exists k', (k <= k')%nat /\ ack_store_ok evs k' (ack_flush io s).2.
Proof.
  intros Hs. unfold ack_flush, ack_sync. rewrite M_bind_run, get_run. destruct (ack_dirty s);
    [|split_and!; [done..|]; by exists k].
  destruct io; [|split_and!; [done..|]; by exists k]. cbn. split_and!; [done..|].
  destruct Hs as ((Hv & Hnd & Hm & ls & Henc & Hh & Hsy) & Hr & Hmx & ls' & Henc' & Hb).
  destruct (sync_holds ls (ack_file s) Hh) as [Hh' Hsy']. exists (length ls).
  split; [apply Hsy|]. split_and!; [|done|done|by exists ls'].
  split_and!; [done..|]. by exists ls.
Qed.

Lemma ack_flush_cases io s :
  (ack_flush io s).1 = Ok tt \/ ((ack_flush io s).1 = Err AckIo /\ (ack_flush io s).2 = s).
Proof.
  unfold ack_flush, ack_sync. rewrite M_bind_run, get_run. destruct (ack_dirty s), io; cbn; auto.
Qed.

(** The effect of [retain]: it is a flush, then at most one appended line, synced exactly when it
    reports [AckNew]. *)
Lemma retain_ok (Hcodec : codec_ok) evs k s io o t :
  ack_store_ok evs k s ->
  let '(out, s') := retain to_json op_id op_request_digest canonical_digest io o t s in
  exists evs' k', ack_store_ok evs' k' s' /\ (k <= k')%nat /\ evs `prefix_of` evs'
    /\ match out with
       | Ok AckNew => exists r, acknowledged_new op_id op_request_digest canonical_digest o t = Ok r
                        /\ evs' = evs ++ [r] /\ k' = length evs'
       | _ => True
       end.
Proof.
  intros Hs. unfold retain. rewrite M_bind_run, lift_run.
  destruct (acknowledged_new _ _ _ o t) as [c|e] eqn:Hc; [|by exists evs, k].
  rewrite M_bind_run, lift_run. destruct (ack_validate c) as [[]|e] eqn:Hv; [|by exists evs, k].
  rewrite M_bind_run. destruct (ack_flush_ok evs k (io_presync io) s Hs) as (_ & _ & _ & k1 & Hk1 & Hs1).
  destruct (ack_flush (io_presync io) s) as [[[]|e] s1]; cbn [snd] in Hs1; [|by exists evs, k1].
  rewrite M_bind_run, get_run.
  destruct (ack_records s1 !! ack_operation_id c) as [r|] eqn:Hr.
  { case_bool_decide; rewrite ?M_ret_run, ?throw_run; by exists evs, k1. }
  rewrite M_bind_run, lift_run. destruct (to_json c) as [line|] eqn:Hj; cbn [ok_or]; [|by exists evs, k1].
  rewrite M_bind_run, lift_run. destruct (checked_add _ _) as [next|] eqn:Hn; cbn [ok_or]; [|by exists evs, k1].
  apply checked_add_Some in Hn as [-> Hn].
  destruct (Z.ltb_spec (ack_max_bytes s1) (Z.of_nat (ack_bytes s1) + len (frame line))); [by exists evs, k1|].
  rewrite M_bind_run, lift_run. destruct (io_seek io); cbn [ensure]; [|by exists evs, k1].
  destruct Hs1 as ((Hvs & Hnd & Hm & ls & Henc & Hh & Hsy) & Hrec & Hmx & ls' & Henc' & Hb).
  assert (ls' = ls) as -> by (by eapply enc_unique).
  destruct (Hcodec c line Hv Hj) as [Hline _].
  pose proof (write_holds k1 ls (ack_file s1) (frame line) line (io_write io) Hh Hsy Hline eq_refl) as Hw.
  unfold ack_write. rewrite !M_bind_run, get_run, Hb.
  pose proof (write_file_length (length (framed ls)) (frame line) (io_write io) (ack_file s1)) as Hlen.
  destruct (write_file (length (framed ls)) (frame line) (io_write io) (ack_file s1)) as [ok f].
  cbn [snd] in Hlen. assert (Hmax : len (content f) <= max_bytes) by (rewrite Hb in *; unfold len in *; lia).
  destruct Hw as [Hw Hsw]. destruct ok; cbn.
  2:{ exists evs, k1. split_and!; try done. split_and!; [|done|done|by exists ls].
      split_and!; [done..|]. by exists ls. }
  assert (Hnew : NoDup (map ack_operation_id (evs ++ [c]))).
  { rewrite map_app. apply NoDup_app. split_and!; [done| |apply NoDup_singleton].
    intros x Hx Hx'. apply list_elem_of_singleton in Hx' as ->. apply list_elem_of_fmap in Hx as (r & Hid & Hin).
    assert (ack_map evs !! ack_operation_id c = Some r) by (by apply ack_map_lookup). congruence. }
  assert (Hvs' : Forall (fun r => ack_validate r = Ok tt) (evs ++ [c])) by (apply Forall_app; split; [done | by apply Forall_singleton]).
  assert (Henc2 : Forall2 (fun r l => to_json r = Some l) (evs ++ [c]) (ls ++ [line])) by (apply Forall2_app; [done | by constructor]).
  assert (Hbytes : exists ls2, Forall2 (fun r l => to_json r = Some l) (evs ++ [c]) ls2
     /\ Z.to_nat (Z.of_nat (length (framed ls)) + len (frame line)) = length (framed ls2)).
  { exists (ls ++ [line]). split; [done|]. rewrite framed_snoc, length_app. unfold len. lia. }
  assert (Hsk : synced k1 (ls ++ [line]) f) by (by apply synced_app).
  destruct (io_sync io); cbn.
  - destruct (sync_holds (ls ++ [line]) f Hw) as [Hw' Hsw'].
    exists (evs ++ [c]), (length (ls ++ [line])).
    assert (length (ls ++ [line]) = length (evs ++ [c])) by (symmetry; by eapply Forall2_length).
    split_and!; [|destruct Hsk; lia|by apply prefix_app_r|exists c; split_and!; done].
    split_and!; [|rewrite ack_map_snoc; cbn; by rewrite Hrec|done|done]. split_and!; [done..|]. by exists (ls ++ [line]).
  - exists (evs ++ [c]), k1. split_and!; [|lia|by apply prefix_app_r|done].
    split_and!; [|rewrite ack_map_snoc; cbn; by rewrite Hrec|done|done]. split_and!; [done..|]. by exists (ls ++ [line]).
Qed.

Lemma ack_log_file_step evs k f f' ls :
  Forall (fun r => ack_validate r = Ok tt) evs -> NoDup (map ack_operation_id evs) ->
  Forall2 (fun r l => to_json r = Some l) evs ls -> (length (content f') <= length (content f))%nat ->
  len (content f) <= max_bytes -> holds ls f' -> synced k ls f' -> ack_log evs k f'.
Proof.
  intros Hv Hnd Henc Hlen Hmax Hh Hs. split_and!; [done..|unfold len in *; lia|]. by exists ls.
Qed.

(** Reopening a held log fails only when the device does, and rebuilds exactly the index of its records. *)
Lemma ack_open_ok (Hcodec : codec_ok) evs k io f :
  ack_log evs k f ->
  match ack_open from_json max_bytes io f with
  | (Ok s, f') => ack_store_ok evs k s /\ ack_file s = f'
  | (Err e, f') => e = AckIo /\ ack_log evs k f'
  end.
Proof.
  intros Hlog. pose proof Hlog as (Hv & Hnd & Hm & ls & Henc & Hh & Hs). unfold ack_open. cbv zeta.
  destruct (oi_open io); cbn [negb]; [|by split]. rewrite (proj2 (Z.ltb_ge _ _)) by done.
  assert (Hcut : ack_log evs k (file_set_len (valid_len (content f)) f)).
  { destruct (cut_holds k ls f Hh Hs). eapply (ack_log_file_step _ _ f); try done. apply set_len_length. }
  destruct (negb _ && negb (oi_truncate io)); [by split|].
  destruct (negb _ && negb (oi_sync io)); [by split|].
  destruct (recover_file_holds ls f Hh) as [Hh' _], (recovered_lines ls f Hh) as [-> Hn].
  rewrite (ack_index_replay Hcodec ∅ evs ls); [|done..|by apply Forall_forall].
  assert (Hlog' : ack_log evs k (recover_file f)).
  { eapply (ack_log_file_step _ _ f); try done; [apply recover_file_length | by apply recover_file_synced]. }
  cbn. destruct (oi_seek io); cbn; [|by split]. split; [|done]. split_and!; [done..|].
  by exists ls.
Qed.

Lemma ack_step_ok (Hcodec : codec_ok) evs k y y' :
  ack_sys_ok evs k y -> ack_step y y' ->
  exists evs' k', ack_sys_ok evs' k' y' /\ (k <= k')%nat /\ take k evs' = take k evs.
Proof.
  assert (Hk : forall evs k f, ack_log evs k f -> (k <= length evs)%nat).
  { intros e n f (_ & _ & _ & ls & Henc & _ & [Hk _]). by rewrite (Forall2_length _ _ _ Henc). }
  assert (Hloss : forall f f', ack_log evs k f -> power_loss f f' ->
    exists n, (k <= n)%nat /\ ack_log (take n evs) n f').
  { intros f f' (Hv & Hnd & Hm & ls & Henc & Hh & Hs) Hp.
    destruct (power_loss_holds k ls f f' Hh Hs Hp) as (n & Hn & Hn' & Hh' & Hs'). exists n. split; [done|].
    eapply ack_log_take; [done..| |done|done]. destruct Hp as (m & _ & Hm' & ->). cbn.
    unfold len in *. rewrite length_take. lia. }
  intros Hy Hstep. destruct Hstep as [s io o t | s io o t | s | s f Hp | f f' Hp | io f f' s Ho | io f f' e Ho]; cbn in Hy.
  - pose proof (retain_ok Hcodec evs k s io o t Hy) as H.
    destruct (retain _ _ _ _ _ _ _ s) as [out s']. destruct H as (evs' & k' & Hs & Hle & [tl ->] & _).
    exists (evs ++ tl), k'. split_and!; [done..|]. apply take_app_le. destruct Hy as [Hy _]. by apply Hk in Hy.
  - unfold acknowledgement_exists. rewrite M_bind_run, lift_run.
    destruct (acknowledged_new _ _ _ o t) as [c|e]; cbn [snd]; [|by exists evs, k].
    destruct (ack_flush_ok evs k (io_presync io) s Hy) as (_ & _ & _ & k' & Hle & Hs).
    exists evs, k'. split_and!; [|done..]. rewrite M_bind_run.
    destruct (ack_flush (io_presync io) s) as [[[]|e] s']; [|done]. cbn [snd] in Hs.
    rewrite M_bind_run, get_run. repeat case_match; done.
  - exists evs, k. by split_and!; [apply Hy|..].
  - destruct Hy as [Hy _]. destruct (Hloss _ _ Hy Hp) as (n & Hn & Hl). exists (take n evs), n. split_and!; [done..|].
    rewrite take_take. f_equal. lia.
  - destruct (Hloss _ _ Hy Hp) as (n & Hn & Hl). exists (take n evs), n. split_and!; [done..|].
    rewrite take_take. f_equal. lia.
  - pose proof (ack_open_ok Hcodec evs k io f Hy) as H. rewrite Ho in H. exists evs, k. by split_and!; [apply H|..].
  - pose proof (ack_open_ok Hcodec evs k io f Hy) as H. rewrite Ho in H. exists evs, k. by split_and!; [apply H|..].
Qed.

Lemma ack_steps_ok (Hcodec : codec_ok) evs k y y' :
  ack_sys_ok evs k y -> rtc ack_step y y' ->
  exists evs' k', ack_sys_ok evs' k' y' /\ (k <= k')%nat /\ take k evs' = take k evs.
Proof.
  intros Hy H. revert evs k Hy. induction H as [y|y y1 y2 Hstep _ IH]; intros evs k Hy; [by exists evs, k|].
  destruct (ack_step_ok Hcodec evs k y y1 Hy Hstep) as (evs1 & k1 & Hy1 & Hk1 & Ht1).
  destruct (IH evs1 k1 Hy1) as (evs2 & k2 & Hy2 & Hk2 & Ht2). exists evs2, k2. split_and!; [done|lia|].
  assert (Hcut : forall l : list AcknowledgedOperation, take k l = take k (take k1 l)).
  { intros l. rewrite take_take. f_equal. lia. }
  by rewrite (Hcut evs2), Ht2, <- Hcut.
Qed.

Lemma ack_reachable_ok (Hcodec : codec_ok) (Hmax : 0 <= max_bytes) y :
  ack_reachable y -> exists evs k, ack_sys_ok evs k y.
Proof.
  intros H. destruct (ack_steps_ok Hcodec [] 0 (Down empty_log) y) as (evs & k & Hy & _); [|done|by exists evs, k].
  cbn. split_and!; [by apply Forall_nil_2|apply NoDup_nil_2|done|]. exists []. split_and!; [done| |split; cbn; lia].
  split; [by apply Forall_nil_2|]. exists []. split_and!; [done|by apply Forall_nil_2|cbn; lia].
Qed.

(** C13: Once [retain] has answered [New], every store opened later, after any calls, process crashes and
    power losses, fences that operation: its own digest is acknowledged and any other one conflicts. *)
Theorem retained_acknowledgement_survives (Hcodec : codec_ok) (Hmax : 0 <= max_bytes) s io o t s' s2 d :
  ack_reachable (Up s) ->
  retain to_json op_id op_request_digest canonical_digest io o t s = (Ok AckNew, s') ->
  rtc ack_step (Up s') (Up s2) ->
  fence_submission (op_id o) d s2 = if str_eqb (op_request_digest o) d then Ok Acknowledged else Err AckConflict.
Proof.
  intros Hreach Hret Hsteps. destruct (ack_reachable_ok Hcodec Hmax _ Hreach) as (evs & k & Hs).
  pose proof (retain_ok Hcodec evs k s io o t Hs) as H. rewrite Hret in H.
  destruct H as (evs1 & k1 & Hs1 & _ & _ & r & Hr & -> & ->).
  destruct (ack_steps_ok Hcodec _ _ (Up s') (Up s2) Hs1 Hsteps) as (evs2 & k2 & Hs2 & _ & Ht).
  rewrite firstn_all in Ht. destruct Hs2 as ((_ & Hnd & _) & Hrec & _). unfold fence_submission. rewrite Hrec.
  assert (Hin : r ∈ evs2).
  { rewrite <- (take_drop (length (evs ++ [r])) evs2), Ht, !elem_of_app, list_elem_of_singleton. auto. }
  unfold acknowledged_new in Hr. destruct (canonical_digest o) as [q|]; cbn in Hr; simplify_eq.
  pose proof (proj2 (ack_map_lookup evs2 _ _ Hnd) (conj Hin eq_refl)) as Hl. cbn in Hl. by rewrite Hl.
Qed.

Lemma ack_open_io (Hcodec : codec_ok) evs k io f :
  ack_log evs k f -> oi_open io && oi_truncate io && oi_sync io && oi_seek io = true ->
  exists s, (ack_open from_json max_bytes io f).1 = Ok s.
Proof.
  intros Hlog Hio. pose proof (ack_open_ok Hcodec evs k io f Hlog) as H.
  destruct (ack_open from_json max_bytes io f) as [[s|e] f'] eqn:Ho; [by exists s|]. destruct H as [-> _].
  unfold ack_open in Ho. destruct io as [[] [] [] []]; cbn in Hio; try done. cbn in Ho.
  rewrite !andb_false_r in Ho. case_match; [done|]. cbn in Ho.
  destruct (ack_index _ _ _) eqn:Hi in Ho; cbn in Ho; [done|]. injection Ho as -> _.
  exfalso. revert Hi. generalize (nonempty_lines (take (valid_len (content f)) (content (recover_file f)))).
  generalize (∅ : gmap string AcknowledgedOperation). intros m l. revert m.
  induction l as [|x l IH]; intros m; cbn; [done|]. destruct (from_json x) as [r|]; cbn; [|done].
  destruct (ack_validate r) as [[]|e] eqn:Hv; cbn.
  - repeat case_match; try done; apply IH.
  - intros [= ->]. unfold ack_validate, ack_validate_identifier, ack_validate_digest in Hv.
    destruct (validate_identifier _ _), (validate_digest (ack_request_digest r) _),
      (validate_digest (ack_operation_ref_digest r) _), (validate_digest (ack_terminal_digest r) _); done.
Qed.

(** Whatever happened to it, the log reopens: [open] never finds a reachable log corrupt, conflicting
    or over its limit; its only error is an I/O error, it succeeds when every I/O call does, and the
    index it builds is exactly the complete lines of the file. *)
Theorem reachable_acknowledgement_log_reopens (Hcodec : codec_ok) (Hmax : 0 <= max_bytes) f io :
  ack_reachable (Down f) ->
  match (ack_open from_json max_bytes io f).1 with
  | Ok s => forall id r, ack_records s !! id = Some r <->
      ack_operation_id r = id
      /\ exists line, line ∈ nonempty_lines (take (valid_len (content f)) (content f)) /\ from_json line = Some r
  | Err e => e = AckIo /\ oi_open io && oi_truncate io && oi_sync io && oi_seek io = false
  end.
Proof.
  intros Hreach. destruct (ack_reachable_ok Hcodec Hmax _ Hreach) as (evs & k & Hlog).
  pose proof (ack_open_ok Hcodec evs k io f Hlog) as H. pose proof (ack_open_io Hcodec evs k io f Hlog) as Hio.
  destruct (ack_open from_json max_bytes io f) as [[s|e] f']; cbn in *.
  - destruct Hlog as (Hv & Hnd & _ & ls & Henc & Hh & _). rewrite (holds_lines ls f Hh).
    destruct H as [(_ & -> & _) _]. intros id r. rewrite ack_map_lookup by done.
    assert (Hiff : r ∈ evs <-> exists line, line ∈ ls /\ from_json line = Some r).
    { clear -Henc Hv Hcodec. induction Henc as [|x l evs ls Hx _ IH].
      - split; [intros H|intros (? & H & _)]; by apply not_elem_of_nil in H.
      - apply Forall_cons in Hv as [Hv0 Hv]. destruct (Hcodec x l Hv0 Hx) as [_ Hd].
        rewrite elem_of_cons, (IH Hv). split.
        + intros [-> | (line & ? & ?)]; [exists l|exists line]; (split; [apply elem_of_cons; auto|done]).
        + intros (line & [-> | Hin]%elem_of_cons & Hdec); [left; congruence | right; by exists line]. }
    rewrite Hiff. tauto.
  - destruct H as [-> _]. split; [done|]. destruct (_ && _) eqn:E; [|done]. by destruct (Hio eq_refl).
Qed.
End system.

(** ** A concrete codec, for the witnesses: fields joined by a bar *)
Definition sample_to_json (r : AcknowledgedOperation) : option (list Ascii.ascii) :=
  Some (bytes_of (ack_operation_id r +:+ String "|" (ack_request_digest r +:+ String "|"
    (ack_operation_ref_digest r +:+ String "|" (ack_terminal_digest r))))).

Definition sample_from_json (l : list Ascii.ascii) : option AcknowledgedOperation :=
  match split_on "|"%char (String.string_of_list_ascii l) with
  | [a; b; c; d] => Some (mkAcknowledgedOperation a b c d)
  | _ => None
  end.

Definition sample_operation : Type := string * string.
Definition sample_canonical (o : sample_operation) : option string := Some digest_b.

Lemma ack_validate_Ok r :
  ack_validate r = Ok tt -> identifier (ack_operation_id r) /\ hex_digest (ack_request_digest r)
    /\ hex_digest (ack_operation_ref_digest r) /\ hex_digest (ack_terminal_digest r).
Proof.
  unfold ack_validate, ack_validate_identifier, ack_validate_digest.
  destruct (validate_identifier _ _) as [[]|] eqn:H1; [|done]. cbn.
  destruct (validate_digest (ack_request_digest r) _) as [[]|] eqn:H2; [|done]. cbn.
  destruct (validate_digest (ack_operation_ref_digest r) _) as [[]|] eqn:H3; [|done]. cbn.
  destruct (validate_digest (ack_terminal_digest r) _) as [[]|] eqn:H4; [|done]. intros _.
  apply validate_identifier_Ok in H1. apply validate_digest_Ok in H2, H3, H4. done.
Qed.

Lemma sample_codec_ok : codec_ok sample_to_json sample_from_json.
Proof.
  intros [a b c d] line (Ha & Hb & Hc & Hd)%ack_validate_Ok [= <-]. cbn in *.
  apply identifier_plain, plain_facts in Ha as [Na Ca]. apply digest_plain, plain_facts in Hb as [Nb Cb], Hc as [Nc Cc], Hd as [Nd Cd].
  split.
  - split; [rewrite bytes_of_app; by intros [_ ?]%app_eq_nil | by repeat apply no_newline_bar].
  - unfold sample_from_json, bytes_of. rewrite String.string_of_list_ascii_of_string, !split_on_app by done.
    by rewrite split_on_none.
Qed.

(** ** Sample runs *)

Notation sample_retain := (retain sample_to_json fst snd sample_canonical).
Notation sample_open := (ack_open sample_from_json 1000 open_good).
Notation sample_step := (ack_step sample_to_json sample_from_json fst snd sample_canonical 1000).

Definition sample_ack_store : AckStore := mkAckStore ∅ empty_log 0 false 1000.

Lemma sample_store_reachable :
  ack_reachable sample_to_json sample_from_json fst snd sample_canonical 1000 (Up sample_ack_store).
Proof. eapply rtc_l; [|apply rtc_refl]. apply (AckOpen _ _ _ _ _ _ open_good _ empty_log). vm_compute. reflexivity. Qed.

Definition sample_retained : AckStore := (sample_retain io_good ("op-1", digest_a) digest_b sample_ack_store).2.
Definition sample_reopened : AckStore :=
  match (sample_open (ack_file sample_retained)).1 with Ok s => s | Err _ => sample_ack_store end.

Lemma retained_acknowledgement_survives_witness :
  fence_submission "op-1" digest_b sample_reopened = Err AckConflict
  /\ fence_submission "op-1" digest_a sample_reopened = Ok Acknowledged.
Proof.
  assert (Hret : sample_retain io_good ("op-1", digest_a) digest_b sample_ack_store = (Ok AckNew, sample_retained))
    by (vm_compute; reflexivity).
  assert (Hsteps : rtc sample_step (Up sample_retained) (Up sample_reopened)).
  { eapply rtc_l; [apply AckProcessCrash|]. eapply rtc_l; [|apply rtc_refl].
    apply (AckOpen _ _ _ _ _ _ open_good _ (ack_file sample_reopened)). vm_compute. reflexivity. }
  split.
  - apply (retained_acknowledgement_survives sample_to_json sample_from_json fst snd sample_canonical 1000
      sample_codec_ok ltac:(lia) sample_ack_store io_good ("op-1", digest_a) digest_b sample_retained
      sample_reopened digest_b sample_store_reachable Hret Hsteps).
  - apply (retained_acknowledgement_survives sample_to_json sample_from_json fst snd sample_canonical 1000
      sample_codec_ok ltac:(lia) sample_ack_store io_good ("op-1", digest_a) digest_b sample_retained
      sample_reopened digest_a sample_store_reachable Hret Hsteps).
Defined.

(** A torn log: one synced line and the first bytes of another. *)
Definition sample_torn : LogFile :=
  (ack_file (sample_retain (mkIoOracle true true (WriteFailed 9 false) true) ("op-2", digest_a) digest_b sample_retained).2).

Lemma reachable_acknowledgement_log_reopens_witness :
  exists s, (sample_open sample_torn).1 = Ok s
  /\ (ack_records s !! "op-1" = Some (mkAcknowledgedOperation "op-1" digest_a digest_b digest_b) <->
      "op-1" = "op-1" /\ exists line,
        line ∈ nonempty_lines (take (valid_len (content sample_torn)) (content sample_torn))
        /\ sample_from_json line = Some (mkAcknowledgedOperation "op-1" digest_a digest_b digest_b)).
Proof.
  assert (Hreach : ack_reachable sample_to_json sample_from_json fst snd sample_canonical 1000 (Down sample_torn)).
  { unfold ack_reachable. etransitivity; [apply sample_store_reachable|].
    eapply rtc_l; [apply (AckRetainCall _ _ _ _ _ _ _ io_good ("op-1", digest_a) digest_b)|].
    eapply rtc_l; [apply (AckRetainCall _ _ _ _ _ _ _ (mkIoOracle true true (WriteFailed 9 false) true) ("op-2", digest_a) digest_b)|].
    eapply rtc_l; [apply AckProcessCrash|]. apply rtc_refl. }
  pose proof (reachable_acknowledgement_log_reopens sample_to_json sample_from_json fst snd sample_canonical 1000
    sample_codec_ok ltac:(lia) sample_torn open_good Hreach) as H.
  destruct (sample_open sample_torn).1 as [s|e] eqn:Ho; [|vm_compute in Ho; discriminate].
  exists s. split; [reflexivity|]. apply (H "op-1" (mkAcknowledgedOperation "op-1" digest_a digest_b digest_b)).
Defined.

(** [open] starts clean although the complete tail it read may never have been synced: the store then
    answers [Replay] for a record that a later power loss drops, and the operation is no longer fenced. *)
Theorem reopening_trusts_an_unsynced_record :
  exists s1 s2 s3,
    sample_retain io_sync_fails ("op-1", digest_a) digest_b sample_ack_store = (Err AckIo, s1)
    /\ (sample_open (ack_file s1)).1 = Ok s2
    /\ sample_retain io_good ("op-1", digest_a) digest_b s2 = (Ok AckReplay, s2)
    /\ power_loss (ack_file s2) empty_log
    /\ (sample_open empty_log).1 = Ok s3 /\ fence_submission "op-1" digest_a s3 = Ok Clear.
Proof.
  eexists _, _, _. split; [vm_compute; reflexivity|]. split; [vm_compute; reflexivity|].
  split; [vm_compute; reflexivity|]. split; [exists 0%nat; vm_compute; split_and!; lia || reflexivity|].
  split; vm_compute; reflexivity.
Qed.
