(* ===== verification/FileEffects.v ===== *)
(** * hand-guest file effects

    Models crates/hand-guest/src/file_effects.rs: the durable log of effect intents and results, the
    volatile claim that lets an effect run once, and the recovery of the log. The JSON codec of one
    event, canonical JSON and Brain's identifier and digest parsers are outside the repository and are
    section variables. *)
From S2P Require Import Prelude Policy Wire AppendLog.

Definition MAX_RETAINED_FILE_EFFECTS : Z := 1024.
Definition MAX_FILE_EFFECT_LOG_BYTES : Z := 64 * 1024 * 1024.
Definition RESULT_RESERVATION_BYTES : Z := 32 * 1024.

Inductive FileEffectStoreError :=
  | FeConflict
  | FeAmbiguous
  | FeCapacity
  | FeCorrupt (what : string)
  | FeInvalid (what : string)
  | FeIo.

Section file_effects.
Context {W C : Type}.
Notation Stored := (FileEffectStoredResult W C).

Inductive EffectEvent :=
  | Intent (identity : FileEffectIdentity)
  | Complete (identity : FileEffectIdentity) (result : Stored).

Record EffectRecord := mkEffectRecord {
  er_identity : FileEffectIdentity;
  er_result : option Stored;
  er_claim_available : bool;
}.

(** The index and the writer under their two locks; lock poisoning is not modelled. *)
Record FileEffectStore := mkFileEffectStore {
  fe_records : gmap string EffectRecord;
  fe_file : LogFile;
  fe_bytes : nat;
  fe_reserved_result_bytes : Z;
  fe_dirty : bool;
  fe_max_bytes : Z;
  fe_max_effects : Z;
}.

Inductive EffectReservation := EffectNew | EffectReplay (result : Stored).

Notation Fe := (M FileEffectStore FileEffectStoreError).

Definition set_fe_records (m : gmap string EffectRecord) (s : FileEffectStore) : FileEffectStore :=
  mkFileEffectStore m (fe_file s) (fe_bytes s) (fe_reserved_result_bytes s) (fe_dirty s) (fe_max_bytes s) (fe_max_effects s).
Definition set_fe_file (f : LogFile) (s : FileEffectStore) : FileEffectStore :=
  mkFileEffectStore (fe_records s) f (fe_bytes s) (fe_reserved_result_bytes s) (fe_dirty s) (fe_max_bytes s) (fe_max_effects s).
Definition set_fe_bytes (n : nat) (s : FileEffectStore) : FileEffectStore :=
  mkFileEffectStore (fe_records s) (fe_file s) n (fe_reserved_result_bytes s) (fe_dirty s) (fe_max_bytes s) (fe_max_effects s).
Definition set_fe_reserved (r : Z) (s : FileEffectStore) : FileEffectStore :=
  mkFileEffectStore (fe_records s) (fe_file s) (fe_bytes s) r (fe_dirty s) (fe_max_bytes s) (fe_max_effects s).
Definition set_fe_dirty (b : bool) (s : FileEffectStore) : FileEffectStore :=
  mkFileEffectStore (fe_records s) (fe_file s) (fe_bytes s) (fe_reserved_result_bytes s) b (fe_max_bytes s) (fe_max_effects s).

(** ** Validation and results *)
Context (identifier_parses digest_parses : string -> bool).

Definition fe_validate_identity (identity : FileEffectIdentity) : result FileEffectStoreError unit :=
  _ ← ensure (identifier_parses (fe_operation_id identity)) (FeInvalid "operation_id");
  ensure (digest_parses (fe_request_digest identity)) (FeInvalid "request_digest").

Definition fe_validate_result (identity : FileEffectIdentity) (result : Stored) : Prelude.result FileEffectStoreError unit :=
  let exact :=
    match result with
    | StoredWrite result =>
        bool_decide (fe_kind identity = Write)
        && str_eqb (res_operation_id result) (fe_operation_id identity)
        && str_eqb (res_request_digest result) (fe_request_digest identity)
    | StoredCopy result =>
        match fe_kind identity with CopyImport | CopyExport => true | Write => false end
        && str_eqb (res_operation_id result) (fe_operation_id identity)
        && str_eqb (res_request_digest result) (fe_request_digest identity)
    end in
  if exact then Ok tt else Err (FeInvalid "result identity").

Definition replayed {P} (r : EffectResult P) : EffectResult P :=
  mkEffectResult (res_operation_id r) (res_request_digest r) true (res_payload r).

Definition mark_replayed (result : Stored) : Stored :=
  match result with
  | StoredWrite result => StoredWrite (replayed result)
  | StoredCopy result => StoredCopy (replayed result)
  end.

Context (jcs : Stored -> option (list Ascii.ascii)).

Definition canonical_bytes (result : Stored) : Prelude.result FileEffectStoreError (list Ascii.ascii) :=
  ok_or (FeInvalid "result is not canonicalizable") (jcs result).

(** ** Recovery *)
Context (to_json : EffectEvent -> option (list Ascii.ascii)).
Context (from_json : list Ascii.ascii -> option EffectEvent).

(** One iteration of the loop over the recovered events. *)
Definition fe_apply (records : gmap string EffectRecord) (event : EffectEvent)
    : Prelude.result FileEffectStoreError (gmap string EffectRecord) :=
  match event with
  | Intent identity =>
      _ ← fe_validate_identity identity;
      match records !! fe_operation_id identity with
      | Some _ => Err (FeCorrupt "one operation has multiple intents")
      | None => Ok (<[fe_operation_id identity := mkEffectRecord identity None false]> records)
      end
  | Complete identity result =>
      _ ← fe_validate_identity identity;
      _ ← fe_validate_result identity result;
      record ← ok_or (FeCorrupt "completion has no durable intent") (records !! fe_operation_id identity);
      if negb (bool_decide (er_identity record = identity))
         || match er_result record with Some _ => true | None => false end
      then Err (FeCorrupt "completion conflicts with retained intent")
      else Ok (<[fe_operation_id identity := mkEffectRecord (er_identity record) (Some result) (er_claim_available record)]> records)
  end.

Fixpoint fe_index (records : gmap string EffectRecord) (lines : list (list Ascii.ascii))
    : Prelude.result FileEffectStoreError (gmap string EffectRecord) :=
  match lines with
  | [] => Ok records
  | line :: lines =>
      event ← ok_or (FeCorrupt "invalid complete JSON record") (from_json line);
      records ← fe_apply records event;
      fe_index records lines
  end.

Definition is_incomplete (r : EffectRecord) : Z := match er_result r with None => 1 | Some _ => 0 end.

(** [records.values().filter(|record| record.result.is_none()).count()] *)
Definition incomplete (records : gmap string EffectRecord) : Z := map_sum is_incomplete records.

(** [open_with_limits]: the result and the file it leaves. *)
Definition fe_open (max_effects max_bytes : Z) (io : OpenIo) (f : LogFile)
    : Prelude.result FileEffectStoreError FileEffectStore * LogFile :=
  if negb (oi_open io) then (Err FeIo, f)
  else if max_bytes <? len (content f) then (Err FeCapacity, f)
  else
    let n := valid_len (content f) in
    let torn := negb (Nat.eqb n (length (content f))) in
    if torn && negb (oi_truncate io) then (Err FeIo, f)
    else if torn && negb (oi_sync io) then (Err FeIo, file_set_len n f)
    else
      let f := recover_file f in
      (records ← fe_index ∅ (nonempty_lines (take n (content f)));
       _ ← ensure (negb (max_effects <? Z.of_nat (size records))) FeCapacity;
       reserved ← ok_or FeCapacity (checked_mul (incomplete records) RESULT_RESERVATION_BYTES);
       projected ← ok_or FeCapacity (checked_add (Z.of_nat n) reserved);
       _ ← ensure (negb (max_bytes <? projected)) FeCapacity;
       _ ← ensure (oi_seek io) FeIo;
       Ok (mkFileEffectStore records f n reserved false max_bytes max_effects), f).

(** ** The writer *)
Definition fe_sync (ok : bool) : Fe unit :=
  if ok then
    s ← get;
    _ ← modify (set_fe_file (file_sync (fe_file s)));
    modify (set_fe_dirty false)
  else throw FeIo.

(** [self.writer()]: taking the writer forces an uncertain append durable. *)
Definition fe_writer (ok : bool) : Fe unit :=
  s ← get;
  if fe_dirty s then fe_sync ok else mret tt.

Definition encode_event (event : EffectEvent) : Prelude.result FileEffectStoreError (list Ascii.ascii) :=
  line ← ok_or (FeInvalid "effect event is not serializable") (to_json event);
  Ok (frame line).

Definition fe_append (io : IoOracle) (encoded : list Ascii.ascii) : Fe unit :=
  s ← get;
  next ← lift (ok_or FeCapacity (checked_add (Z.of_nat (fe_bytes s)) (len encoded)));
  projected ← lift (ok_or FeCapacity (checked_add next (fe_reserved_result_bytes s)));
  if fe_max_bytes s <? projected then throw FeCapacity
  else
    _ ← lift (ensure (io_seek io) FeIo);
    let '(ok, f) := write_file (fe_bytes s) encoded (io_write io) (fe_file s) in
    _ ← modify (set_fe_file f);
    if ok then
      _ ← modify (set_fe_bytes (Z.to_nat next));
      modify (set_fe_dirty true)
    else throw FeIo.

(** ** Operations *)
Definition fe_reserve (io : IoOracle) (identity : FileEffectIdentity) : Fe EffectReservation :=
  _ ← lift (fe_validate_identity identity);
  _ ← fe_writer (io_presync io);
  s ← get;
  match fe_records s !! fe_operation_id identity with
  | Some record =>
      if bool_decide (er_identity record = identity) then
        match er_result record with
        | Some result => mret (EffectReplay (mark_replayed result))
        | None => if er_claim_available record then mret EffectNew else throw FeAmbiguous
        end
      else throw FeConflict
  | None =>
      if fe_max_effects s <=? Z.of_nat (size (fe_records s)) then throw FeCapacity
      else
        encoded ← lift (encode_event (Intent identity));
        projected ← lift (ok_or FeCapacity
          (b ← checked_add (Z.of_nat (fe_bytes s)) (fe_reserved_result_bytes s);
           b ← checked_add b (len encoded);
           checked_add b RESULT_RESERVATION_BYTES));
        if fe_max_bytes s <? projected then throw FeCapacity
        else
          _ ← fe_append io encoded;
          _ ← modify (fun s => set_fe_reserved (fe_reserved_result_bytes s + RESULT_RESERVATION_BYTES) s);
          _ ← modify (fun s => set_fe_records
                 (<[fe_operation_id identity := mkEffectRecord identity None true]> (fe_records s)) s);
          _ ← fe_sync (io_sync io);
          mret EffectNew
  end.

Definition fe_claim (io : IoOracle) (identity : FileEffectIdentity) : Fe EffectReservation :=
  _ ← lift (fe_validate_identity identity);
  _ ← fe_writer (io_presync io);
  s ← get;
  match fe_records s !! fe_operation_id identity with
  | None => throw FeAmbiguous
  | Some record =>
      if bool_decide (er_identity record = identity) then
        match er_result record with
        | Some result => mret (EffectReplay (mark_replayed result))
        | None =>
            if er_claim_available record then
              _ ← modify (set_fe_records
                    (<[fe_operation_id identity := mkEffectRecord (er_identity record) (er_result record) false]> (fe_records s)));
              mret EffectNew
            else throw FeAmbiguous
        end
      else throw FeConflict
  end.

(** The end of [complete]: the reservation becomes the appended result, or comes back. *)
Definition fe_commit (io : IoOracle) (identity : FileEffectIdentity) (record : EffectRecord) (result : Stored)
    (encoded : list Ascii.ascii) : Fe Stored :=
  s ← get;
  left ← lift (ok_or (FeCorrupt "completion has no result reservation")
           (checked_sub (fe_reserved_result_bytes s) RESULT_RESERVATION_BYTES));
  _ ← modify (set_fe_reserved left);
  appended ← observed (fe_append io encoded);
  match appended with
  | Err error =>
      _ ← modify (fun s => set_fe_reserved (fe_reserved_result_bytes s + RESULT_RESERVATION_BYTES) s);
      throw error
  | Ok tt =>
      _ ← modify (fun s => set_fe_records
             (<[fe_operation_id identity :=
                  mkEffectRecord (er_identity record) (Some result) (er_claim_available record)]> (fe_records s)) s);
      _ ← fe_sync (io_sync io);
      mret result
  end.

Definition fe_complete (io : IoOracle) (identity : FileEffectIdentity) (result : Stored) : Fe Stored :=
  _ ← lift (fe_validate_identity identity);
  _ ← lift (fe_validate_result identity result);
  _ ← fe_writer (io_presync io);
  s ← get;
  match fe_records s !! fe_operation_id identity with
  | None => throw FeAmbiguous
  | Some record =>
      if negb (bool_decide (er_identity record = identity)) then throw FeConflict
      else match er_result record with
      | Some existing =>
          a ← lift (canonical_bytes existing);
          b ← lift (canonical_bytes result);
          if bool_decide (a = b) then mret (mark_replayed existing) else throw FeConflict
      | None =>
          if er_claim_available record then throw (FeInvalid "effect completion has no consumed claim")
          else
            encoded ← lift (encode_event (Complete identity result));
            if RESULT_RESERVATION_BYTES <? len encoded then throw FeCapacity
            else
              fe_commit io identity record result encoded
      end
  end.

(** ** The store over its life: calls, process crashes, power losses and reopenings *)
Inductive FeSystem := FeUp (s : FileEffectStore) | FeDown (f : LogFile).

Context (max_effects max_bytes : Z).

(** The label is the operation the step admitted to run, if it was a successful claim. *)
Inductive fe_step : FeSystem -> option string -> FeSystem -> Prop :=
  | FeReserveCall s io i : fe_step (FeUp s) None (FeUp (fe_reserve io i s).2)
  | FeClaimNew s io i s' :
      fe_claim io i s = (Ok EffectNew, s') -> fe_step (FeUp s) (Some (fe_operation_id i)) (FeUp s')
  | FeClaimOther s io i out s' :
      fe_claim io i s = (out, s') -> out <> Ok EffectNew -> fe_step (FeUp s) None (FeUp s')
  | FeCompleteCall s io i r : fe_step (FeUp s) None (FeUp (fe_complete io i r s).2)
  | FeProcessCrash s : fe_step (FeUp s) None (FeDown (fe_file s))
  | FePowerLossUp s f : power_loss (fe_file s) f -> fe_step (FeUp s) None (FeDown f)
  | FePowerLossDown f f' : power_loss f f' -> fe_step (FeDown f) None (FeDown f')
  | FeOpen io f f' s : fe_open max_effects max_bytes io f = (Ok s, f') -> fe_step (FeDown f) None (FeUp s)
  | FeOpenFailed io f f' e : fe_open max_effects max_bytes io f = (Err e, f') -> fe_step (FeDown f) None (FeDown f').

(** A run and the operations it admitted, oldest first. *)
Inductive fe_run : FeSystem -> list string -> FeSystem -> Prop :=
  | FeRunNil y : fe_run y [] y
  | FeRunStep y claims y1 l y2 :
      fe_run y claims y1 -> fe_step y1 l y2 ->
      fe_run y (claims ++ match l with Some op => [op] | None => [] end) y2.

(** ** Invariant *)
Fixpoint fe_replay (m : gmap string EffectRecord) (evs : list EffectEvent)
    : Prelude.result FileEffectStoreError (gmap string EffectRecord) :=
  match evs with
  | [] => Ok m
  | ev :: evs => m ← fe_apply m ev; fe_replay m evs
  end.

Definition event_ok (ev : EffectEvent) : Prop :=
  match ev with
  | Intent i => fe_validate_identity i = Ok tt
  | Complete i r => fe_validate_identity i = Ok tt /\ fe_validate_result i r = Ok tt
  end.

(** The codec's documented behaviour on the events the store writes. *)
Definition fe_codec_ok : Prop :=
  forall ev line, event_ok ev -> to_json ev = Some line -> line_ok line /\ from_json line = Some ev.

Definition encodes (evs : list EffectEvent) (ls : list (list Ascii.ascii)) : Prop :=
  Forall2 (fun ev l => to_json ev = Some l) evs ls.

(** Every prefix of the log replays, within the limits, with room for the results it still owes. *)
Definition fe_bounded (evs : list EffectEvent) (ls : list (list Ascii.ascii)) : Prop :=
  forall n, exists m, fe_replay ∅ (take n evs) = Ok m /\ Z.of_nat (size m) <= max_effects
    /\ len (framed (take n ls)) + RESULT_RESERVATION_BYTES * incomplete m <= max_bytes.

Definition fe_log (evs : list EffectEvent) (ls : list (list Ascii.ascii)) (k : nat) (f : LogFile) : Prop :=
  encodes evs ls /\ fe_bounded evs ls /\ holds ls f /\ synced k ls f /\ len (content f) <= max_bytes.

Definition forget (r : EffectRecord) : EffectRecord := mkEffectRecord (er_identity r) (er_result r) false.

Definition intents (evs : list EffectEvent) : list string :=
  flat_map (fun ev => match ev with Intent i => [fe_operation_id i] | Complete _ _ => [] end) evs.

Definition fe_store_ok evs ls k (claims : list string) (s : FileEffectStore) : Prop :=
  fe_log evs ls k (fe_file s) /\ fe_replay ∅ evs = Ok (forget <$> fe_records s)
  /\ fe_bytes s = length (framed ls) /\ fe_reserved_result_bytes s = RESULT_RESERVATION_BYTES * incomplete (fe_records s)
  /\ fe_max_bytes s = max_bytes /\ fe_max_effects s = max_effects
  /\ forall id r, fe_records s !! id = Some r -> er_claim_available r = true ->
       id ∉ claims /\ er_result r = None /\ (fe_dirty s = true \/ id ∈ intents (take k evs)).

(** Every admitted operation's intent is durable, and none was admitted twice. *)
Definition fe_sys_ok evs ls k (claims : list string) (y : FeSystem) : Prop :=
  NoDup claims /\ (forall id, id ∈ claims -> id ∈ intents (take k evs))
  /\ match y with FeUp s => fe_store_ok evs ls k claims s | FeDown f => fe_log evs ls k f end.

(** ** Lemmas: replay *)
Lemma fe_replay_app m a b : fe_replay m (a ++ b) = m ← fe_replay m a; fe_replay m b.
Proof. revert m. induction a as [|ev a IH]; intros m; cbn; [done|]. destruct (fe_apply m ev); cbn; [apply IH | done]. Qed.

Lemma fe_replay_snoc m a ev m' : fe_replay m a = Ok m' -> fe_replay m (a ++ [ev]) = fe_apply m' ev.
Proof. intros H. rewrite fe_replay_app, H. cbn. by destruct (fe_apply m' ev). Qed.

Lemma fe_apply_event_ok m ev m' : fe_apply m ev = Ok m' -> event_ok ev.
Proof.
  destruct ev as [i|i r]; cbn.
  - by destruct (fe_validate_identity i) as [[]|].
  - destruct (fe_validate_identity i) as [[]|]; [|done]. cbn. by destruct (fe_validate_result i r) as [[]|].
Qed.

Lemma fe_index_replay (Hcodec : fe_codec_ok) evs ls m m' :
  encodes evs ls -> fe_replay m evs = Ok m' -> fe_index m ls = Ok m'.
Proof.
  intros H. revert m. induction H as [|ev l evs ls Hev H IH]; intros m Hr; [done|]. cbn in *.
  destruct (fe_apply m ev) as [m1|] eqn:Ha; [|done]. cbn in Hr.
  destruct (Hcodec ev l (fe_apply_event_ok _ _ _ Ha) Hev) as [_ ->]. cbn. rewrite Ha. cbn. by apply IH.
Qed.

Lemma fe_apply_dom m ev m' id :
  fe_apply m ev = Ok m' -> is_Some (m' !! id) <-> is_Some (m !! id) \/ id ∈ intents [ev].
Proof.
  destruct ev as [i|i r]; cbn.
  - destruct (fe_validate_identity i) as [[]|]; [|done]. cbn. case_match; [done|]. intros [= <-].
    rewrite lookup_insert_is_Some', list_elem_of_singleton. naive_solver.
  - destruct (fe_validate_identity i) as [[]|]; [|done]. cbn. destruct (fe_validate_result i r) as [[]|]; [|done]. cbn.
    destruct (m !! fe_operation_id i) as [x|] eqn:Hx; [|done]. cbn. case_match; [done|]. intros [= <-].
    rewrite lookup_insert_is_Some'. split; [|intros [?|H']; [auto|by apply not_elem_of_nil in H']].
    intros [<-|?]; [rewrite Hx|]; eauto.
Qed.

Lemma fe_replay_dom evs m m' id :
  fe_replay m evs = Ok m' -> is_Some (m' !! id) <-> is_Some (m !! id) \/ id ∈ intents evs.
Proof.
  revert m. induction evs as [|ev evs IH]; intros m H; cbn in H.
  - injection H as <-. split; [auto|]. intros [?|H']; [done|by apply not_elem_of_nil in H'].
  - destruct (fe_apply m ev) as [m1|] eqn:Ha; [|done]. cbn in H. rewrite (IH _ H), (fe_apply_dom _ _ _ _ Ha).
    replace (intents (ev :: evs)) with (intents [ev] ++ intents evs) by (unfold intents; cbn; by rewrite app_nil_r).
    rewrite elem_of_app. tauto.
Qed.

Lemma intents_take_le k k' evs id : (k <= k')%nat -> id ∈ intents (take k evs) -> id ∈ intents (take k' evs).
Proof.
  intros Hk H. rewrite <- (take_drop k (take k' evs)), take_take, Nat.min_l by lia.
  unfold intents in *. rewrite flat_map_app, elem_of_app. auto.
Qed.

Lemma forget_lookup m id : (forget <$> m : gmap string EffectRecord) !! id = forget <$> (m !! id).
Proof. apply lookup_fmap. Qed.

Lemma incomplete_forget m : incomplete (forget <$> m) = incomplete m.
Proof.
  unfold incomplete. induction m as [|id r m Hid IH] using map_ind; [by rewrite fmap_empty|].
  rewrite fmap_insert, !map_sum_insert_new, IH by (rewrite ?lookup_fmap, ?Hid; done). done.
Qed.

Lemma incomplete_nonneg m : 0 <= incomplete m.
Proof. apply map_sum_nonneg. intros _ r _. unfold is_incomplete. by destruct (er_result r). Qed.

Lemma fe_bounded_snoc evs ls ev l m :
  length evs = length ls -> fe_bounded evs ls -> fe_replay ∅ (evs ++ [ev]) = Ok m -> Z.of_nat (size m) <= max_effects ->
  len (framed (ls ++ [l])) + RESULT_RESERVATION_BYTES * incomplete m <= max_bytes -> fe_bounded (evs ++ [ev]) (ls ++ [l]).
Proof.
  intros Hlen Hb Hr Hs Hm n. destruct (decide (n <= length evs)%nat).
  - rewrite !take_app_le by lia. apply Hb.
  - rewrite !take_ge by (rewrite length_app; cbn; lia). by exists m.
Qed.

Lemma fe_log_take evs ls k n f :
  fe_bounded evs ls -> encodes evs ls -> holds (take n ls) f -> synced k (take n ls) f -> len (content f) <= max_bytes ->
  fe_log (take n evs) (take n ls) k f.
Proof. intros Hb He Hh Hs Hm. split_and!; [by apply Forall2_take | | done..]. intros j. rewrite !take_take. apply Hb. Qed.

(** Any change of the file that keeps its lines and does not grow it. *)
Lemma fe_log_file evs ls k k' f f' :
  fe_log evs ls k f -> holds ls f' -> synced k' ls f' -> len (content f') <= max_bytes -> fe_log evs ls k' f'.
Proof. intros (He & Hb & _) Hh Hs Hm. by split_and!. Qed.

(** What [fe_append] does: one more held line, or the same ones after an error. *)
Lemma fe_append_ok k ls s io line :
  line_ok line -> holds ls (fe_file s) -> synced k ls (fe_file s) -> fe_bytes s = length (framed ls) ->
  len (content (fe_file s)) <= fe_max_bytes s -> 0 <= fe_reserved_result_bytes s ->
  let '(out, s') := fe_append io (frame line) s in
  exists f, len (content f) <= fe_max_bytes s /\ synced k ls f
  /\ match out with
     | Ok tt => holds (ls ++ [line]) f /\ len (framed (ls ++ [line])) + fe_reserved_result_bytes s <= fe_max_bytes s
         /\ s' = set_fe_dirty true (set_fe_bytes (length (framed (ls ++ [line]))) (set_fe_file f s))
     | Err e => holds ls f /\ s' = set_fe_file f s
         /\ (e = FeIo /\ (io_seek io = false \/ io_write io <> WriteOk)
             \/ Z.min U64_MAX (fe_max_bytes s) < len (framed (ls ++ [line])) + fe_reserved_result_bytes s)
     end.
Proof.
  intros Hline Hh Hs Hb Hm Hr. unfold fe_append. rewrite M_bind_run, get_run.
  assert (Hlen : len (framed (ls ++ [line])) = Z.of_nat (fe_bytes s) + len (frame line)).
  { rewrite Hb, framed_snoc. unfold len. rewrite length_app. lia. }
  assert (Hsame : set_fe_file (fe_file s) s = s) by (by destruct s).
  assert (Hkeep : forall e, (e = FeIo /\ (io_seek io = false \/ io_write io <> WriteOk)
             \/ Z.min U64_MAX (fe_max_bytes s) < len (framed (ls ++ [line])) + fe_reserved_result_bytes s) ->
     exists f, len (content f) <= fe_max_bytes s /\ synced k ls f /\ holds ls f /\ s = set_fe_file f s
      /\ (e = FeIo /\ (io_seek io = false \/ io_write io <> WriteOk)
             \/ Z.min U64_MAX (fe_max_bytes s) < len (framed (ls ++ [line])) + fe_reserved_result_bytes s)).
  { intros e He. by exists (fe_file s). }
  rewrite M_bind_run, lift_run. destruct (checked_add (Z.of_nat _) _) as [next|] eqn:Hn; cbn [ok_or].
  2:{ apply checked_add_None in Hn. apply Hkeep. right. lia. }
  apply checked_add_Some in Hn as [-> Hn].
  rewrite M_bind_run, lift_run. destruct (checked_add _ _) as [p|] eqn:Hp; cbn [ok_or].
  2:{ apply checked_add_None in Hp. apply Hkeep. right. lia. }
  apply checked_add_Some in Hp as [-> Hp].
  destruct (Z.ltb_spec (fe_max_bytes s) (Z.of_nat (fe_bytes s) + len (frame line) + fe_reserved_result_bytes s)) as [Hgt|Hle].
  { rewrite throw_run. apply Hkeep. right. lia. }
  rewrite M_bind_run, lift_run. destruct (io_seek io) eqn:Hseek; cbn [ensure]; [|apply Hkeep; auto].
  pose proof (write_holds k ls (fe_file s) (frame line) line (io_write io) Hh Hs Hline eq_refl) as Hw.
  pose proof (write_file_length (length (framed ls)) (frame line) (io_write io) (fe_file s)) as Hlw.
  rewrite Hb. destruct (write_file (length (framed ls)) (frame line) (io_write io) (fe_file s)) as [ok f] eqn:Hwf.
  cbn [snd] in Hlw. destruct Hw as [Hw Hsw]. assert (len (content f) <= fe_max_bytes s) by (unfold len in *; lia).
  destruct ok; cbn.
  - exists f. split_and!; [done..|lia|]. f_equal. f_equal. rewrite framed_snoc, length_app. unfold len. lia.
  - exists f. split_and!; [done..|]. left. split; [done|]. right. intros E. rewrite E in Hwf. done.
Qed.

(** ** Lemmas: the operations preserve the invariant *)
Lemma fe_known evs m id r : fe_replay ∅ evs = Ok (forget <$> m) -> m !! id = Some r -> id ∈ intents evs.
Proof.
  intros Hr Hid. destruct (proj1 (fe_replay_dom evs ∅ _ id Hr)) as [H|H]; [|by destruct H|done].
  rewrite forget_lookup, Hid. by eexists.
Qed.

Lemma fe_not_claimed evs ls k claims s id :
  fe_store_ok evs ls k claims s -> (forall id, id ∈ claims -> id ∈ intents (take k evs)) ->
  fe_records s !! id = None -> id ∉ claims.
Proof.
  intros (_ & Hr & _) Hc Hid Hin. apply Hc in Hin.
  assert (Hin' : id ∈ intents evs) by (rewrite <- (firstn_all evs); destruct (decide (k <= length evs)%nat);
    [by eapply intents_take_le | rewrite firstn_all; by rewrite take_ge in Hin by lia]).
  destruct (proj2 (fe_replay_dom evs ∅ _ id Hr) (or_intror Hin')) as [x Hx].
  rewrite forget_lookup, Hid in Hx. done.
Qed.

Lemma fe_sync_ok evs ls k claims s :
  fe_store_ok evs ls k claims s ->
  exists s', fe_sync true s = (Ok tt, s') /\ fe_records s' = fe_records s /\ (k <= length evs)%nat
    /\ fe_store_ok evs ls (length evs) claims s'.
Proof.
  intros ((He & Hb & Hh & Hs & Hm) & Hr & Hrest & Hres & Hmx & Hme & Hcl).
  destruct (sync_holds ls (fe_file s) Hh) as [Hh' Hs']. eexists. split; [reflexivity|]. cbn.
  assert (Hlen : length evs = length ls) by (by eapply Forall2_length). rewrite <- Hlen in Hs'.
  split; [done|]. split; [destruct Hs; lia|]. split_and!; try done. intros id r Hid Hav. destruct (Hcl id r Hid Hav) as (? & ? & _).
  split_and!; [done..|]. right. rewrite firstn_all. by eapply fe_known.
Qed.

(** Taking the writer: afterwards every claimable intent is durable. *)
Lemma fe_writer_ok evs ls k claims io s :
  fe_store_ok evs ls k claims s ->
  let '(out, s') := fe_writer io s in
  fe_records s' = fe_records s
  /\ exists k', (k <= k')%nat /\ fe_store_ok evs ls k' claims s'
  /\ match out with
     | Ok tt => forall id r, fe_records s !! id = Some r -> er_claim_available r = true -> id ∈ intents (take k' evs)
     | Err e => e = FeIo /\ io = false
     end.
Proof.
  intros Hs. unfold fe_writer. rewrite M_bind_run, get_run. destruct (fe_dirty s) eqn:Hd.
  - destruct io.
    + destruct (fe_sync_ok _ _ _ _ _ Hs) as (s' & -> & Hr & Hk & Hs'). split; [done|]. exists (length evs).
      split_and!; [done..|]. intros id r Hid _. rewrite firstn_all. destruct Hs as (_ & Hrep & _). by eapply fe_known.
    + cbn. split; [done|]. by exists k.
  - rewrite M_ret_run. split; [done|]. exists k. split_and!; [done..|]. intros id r Hid Hav.
    destruct Hs as (_ & _ & _ & _ & _ & _ & Hcl). destruct (Hcl id r Hid Hav) as (_ & _ & [?|?]); [congruence|done].
Qed.

Lemma encode_event_Ok ev encoded : encode_event ev = Ok encoded -> exists line, to_json ev = Some line /\ encoded = frame line.
Proof. unfold encode_event. destruct (to_json ev) as [line|]; [|done]. intros [= <-]. by exists line. Qed.

Lemma fe_store_file evs ls k claims s f :
  fe_store_ok evs ls k claims s -> holds ls f -> synced k ls f -> len (content f) <= max_bytes ->
  fe_store_ok evs ls k claims (set_fe_file f s).
Proof. intros ((He & Hb & _) & Hrest) Hh Hsy Hm. split; [by split_and! | exact Hrest]. Qed.

(** The store after an event was appended and indexed. *)
Lemma fe_store_snoc evs ls k claims s ev line f m :
  fe_store_ok evs ls k claims s -> to_json ev = Some line -> holds (ls ++ [line]) f -> synced k ls f ->
  len (content f) <= max_bytes ->
  fe_apply (forget <$> fe_records s) ev = Ok (forget <$> m) -> Z.of_nat (size m) <= max_effects ->
  len (framed (ls ++ [line])) + RESULT_RESERVATION_BYTES * incomplete m <= max_bytes ->
  (forall id r, m !! id = Some r -> er_claim_available r = true -> id ∉ claims /\ er_result r = None) ->
  fe_store_ok (evs ++ [ev]) (ls ++ [line]) k claims
    (mkFileEffectStore m f (length (framed (ls ++ [line]))) (RESULT_RESERVATION_BYTES * incomplete m) true
       (fe_max_bytes s) (fe_max_effects s)).
Proof.
  intros ((He & Hb & _) & Hr & _ & _ & Hmx & Hme & _) Hj Hh Hs Hm Ha Hsize Hbytes Hcl.
  assert (Hr' : fe_replay ∅ (evs ++ [ev]) = Ok (forget <$> m)) by (by rewrite (fe_replay_snoc _ _ _ _ Hr)).
  split_and!; cbn; try done.
  - split_and!; [| |done|by apply synced_app|done].
    + apply Forall2_app; [done|]. by constructor.
    + eapply (fe_bounded_snoc _ _ _ _ (forget <$> m)); try done; [by eapply Forall2_length| |].
      * by rewrite map_size_fmap.
      * by rewrite incomplete_forget.
  - intros id r Hid Hav. destruct (Hcl id r Hid Hav). auto.
Qed.

(** What a call leaves behind: the invariant over a longer log. *)
Definition fe_kept evs k claims (s' : FileEffectStore) : Prop :=
  exists evs' ls' k', fe_store_ok evs' ls' k' claims s' /\ (k <= k')%nat /\ evs `prefix_of` evs'.

Lemma fe_kept_same evs ls k k' claims s' : fe_store_ok evs ls k' claims s' -> (k <= k')%nat -> fe_kept evs k claims s'.
Proof. intros H Hk. by exists evs, ls, k'. Qed.

Lemma fe_sync_any evs ls k claims s b :
  fe_store_ok evs ls k claims s ->
  let '(out, s') := fe_sync b s in
  exists k', (k <= k')%nat /\ fe_store_ok evs ls k' claims s'
  /\ match out with Ok _ => k' = length evs | Err e => e = FeIo /\ b = false end.
Proof.
  intros Hs. destruct b; [|by exists k].
  destruct (fe_sync_ok _ _ _ _ _ Hs) as (s' & -> & _ & Hk & Hs'). by exists (length evs).
Qed.

Lemma framed_snoc_len ls (l : list Ascii.ascii) : len (framed (ls ++ [l])) = len (framed ls) + len (frame l).
Proof. rewrite framed_snoc. unfold len. rewrite length_app. lia. Qed.

(** The store right after an intent was appended and indexed, before its sync. *)
Lemma fe_intent_store evs ls k claims s i line f :
  fe_store_ok evs ls k claims s -> (forall id, id ∈ claims -> id ∈ intents (take k evs)) ->
  fe_validate_identity i = Ok tt -> fe_records s !! fe_operation_id i = None ->
  Z.of_nat (size (fe_records s)) < max_effects -> to_json (Intent i) = Some line ->
  holds (ls ++ [line]) f -> synced k ls f -> len (content f) <= max_bytes ->
  len (framed (ls ++ [line])) + fe_reserved_result_bytes s + RESULT_RESERVATION_BYTES <= max_bytes ->
  fe_store_ok (evs ++ [Intent i]) (ls ++ [line]) k claims
    (set_fe_records (<[fe_operation_id i := mkEffectRecord i None true]> (fe_records s))
      (set_fe_reserved (fe_reserved_result_bytes s + RESULT_RESERVATION_BYTES)
        (set_fe_dirty true (set_fe_bytes (length (framed (ls ++ [line]))) (set_fe_file f s))))).
Proof.
  intros Hs Hc Hv Hr Hsize Hj Hhf Hsf Hmf Hfit.
  pose proof Hs as (_ & _ & _ & Hres & _ & _ & Hcl).
  set (m := <[fe_operation_id i := mkEffectRecord i None true]> (fe_records s)).
  assert (Hm1 : incomplete m = incomplete (fe_records s) + 1).
  { unfold incomplete, m. rewrite map_sum_insert_new by done. cbn. lia. }
  unfold set_fe_records, set_fe_reserved, set_fe_dirty, set_fe_bytes, set_fe_file. cbn.
  replace (fe_reserved_result_bytes s + RESULT_RESERVATION_BYTES) with (RESULT_RESERVATION_BYTES * incomplete m)
    by (rewrite Hres, Hm1; lia).
  apply fe_store_snoc; try done.
  - cbn. rewrite Hv, forget_lookup, Hr. cbn. unfold m. by rewrite fmap_insert.
  - unfold m. rewrite map_size_insert_None by done. lia.
  - rewrite Hm1, Hres in *. lia.
  - intros id r. unfold m. rewrite lookup_insert. case_decide as E.
    + intros [= <-] _. split; [|done]. subst id. by eapply fe_not_claimed.
    + intros Hid Hav. destruct (Hcl id r Hid Hav) as (? & ? & _). done.
Qed.

Lemma reserve_projection (a b c p : Z) :
  (b ← checked_add a b; b ← checked_add b c; checked_add b RESULT_RESERVATION_BYTES) = Some p ->
  p = a + b + c + RESULT_RESERVATION_BYTES.
Proof. unfold checked_add, mbind, option_bind. repeat (case_match; [|done]). by intros [= <-]; simplify_eq. Qed.

Lemma fe_reserve_ok (Hcodec : fe_codec_ok) evs ls k claims s io i :
  fe_store_ok evs ls k claims s -> (forall id, id ∈ claims -> id ∈ intents (take k evs)) ->
  fe_kept evs k claims (fe_reserve io i s).2.
Proof.
  intros Hs Hc. unfold fe_reserve. rewrite M_bind_run, lift_run.
  destruct (fe_validate_identity i) as [[]|] eqn:Hv; [|by eapply fe_kept_same].
  rewrite M_bind_run. pose proof (fe_writer_ok evs ls k claims (io_presync io) s Hs) as Hw.
  destruct (fe_writer (io_presync io) s) as [[[]|e] s1]; destruct Hw as (_ & k1 & Hk1 & Hs1 & _); [|by eapply fe_kept_same].
  assert (Hsame : fe_kept evs k claims s1) by (by eapply fe_kept_same).
  rewrite M_bind_run, get_run. destruct (fe_records s1 !! fe_operation_id i) as [r|] eqn:Hr; [repeat case_match; done|].
  destruct (Z.leb_spec (fe_max_effects s1) (Z.of_nat (size (fe_records s1)))) as [|Hsz]; [done|].
  rewrite M_bind_run, lift_run. destruct (encode_event (Intent i)) as [enc|] eqn:He; [|done].
  apply encode_event_Ok in He as (line & Hj & ->).
  rewrite M_bind_run, lift_run. destruct (ok_or FeCapacity _) as [p|] eqn:Hp; [|done].
  destruct (Z.ltb_spec (fe_max_bytes s1) p) as [|Hle]; [done|].
  rewrite M_bind_run. destruct (Hcodec (Intent i) line Hv Hj) as [Hline _].
  pose proof Hs1 as ((_ & _ & Hh & Hsy & Hm) & _ & Hbytes & Hres & Hmx & Hme & _).
  pose proof (incomplete_nonneg (fe_records s1)) as Hinc.
  pose proof (fe_append_ok k1 ls s1 io line Hline Hh Hsy Hbytes ltac:(rewrite Hmx; done)
                ltac:(rewrite Hres; unfold RESULT_RESERVATION_BYTES; lia)) as Ha.
  destruct (fe_append io (frame line) s1) as [[[]|e] s2]; destruct Ha as (f & Hmf & Hsf & Hhf & Hout).
  2:{ destruct Hout as (-> & _). apply (fe_kept_same _ ls _ k1); [|done]. apply fe_store_file; [done..|by rewrite <- Hmx]. }
  destruct Hout as (_ & ->). rewrite !M_bind_run. cbn [modify].
  assert (Hs3 : fe_store_ok (evs ++ [Intent i]) (ls ++ [line]) k1 claims
    (set_fe_records (<[fe_operation_id i := mkEffectRecord i None true]> (fe_records s1))
      (set_fe_reserved (fe_reserved_result_bytes s1 + RESULT_RESERVATION_BYTES)
        (set_fe_dirty true (set_fe_bytes (length (framed (ls ++ [line]))) (set_fe_file f s1)))))).
  { apply fe_intent_store; try done; try congruence; [intros; eapply intents_take_le; eauto|].
    apply ok_or_Ok, reserve_projection in Hp. rewrite framed_snoc_len. unfold len at 1. lia. }
  pose proof (fe_sync_any _ _ _ _ _ (io_sync io) Hs3) as Hlast. cbv beta iota.
  rewrite !M_bind_run. cbv beta iota delta [modify]. rewrite M_bind_run. cbn [fe_records fe_reserved_result_bytes set_fe_dirty set_fe_bytes set_fe_file set_fe_reserved] in *.
  destruct (fe_sync (io_sync io) _) as [[]  s4]; destruct Hlast as (k4 & Hk4 & Hs4 & _); cbn;
    (eexists _, _, k4; split; [exact Hs4|]; split; [lia|by apply prefix_app_r]).
Qed.

Lemma fe_claim_ok evs ls k claims s io i :
  fe_store_ok evs ls k claims s ->
  let '(out, s') := fe_claim io i s in
  exists k', (k <= k')%nat /\
  match out with
  | Ok EffectNew => fe_operation_id i ∉ claims /\ fe_operation_id i ∈ intents (take k' evs)
      /\ fe_store_ok evs ls k' (claims ++ [fe_operation_id i]) s'
  | _ => fe_store_ok evs ls k' claims s'
  end.
Proof.
  intros Hs. unfold fe_claim. rewrite M_bind_run, lift_run.
  destruct (fe_validate_identity i) as [[]|]; [|by exists k].
  rewrite M_bind_run. pose proof (fe_writer_ok evs ls k claims (io_presync io) s Hs) as Hw.
  destruct (fe_writer (io_presync io) s) as [[[]|e] s1]; destruct Hw as (Hrec & k1 & Hk1 & Hs1 & Hdur); [|by exists k1].
  rewrite M_bind_run, get_run. rewrite Hrec. destruct (fe_records s !! fe_operation_id i) as [r|] eqn:Hr; [|by exists k1].
  case_bool_decide; [|by exists k1]. destruct (er_result r) as [x|] eqn:Hres; [by exists k1|].
  destruct (er_claim_available r) eqn:Hav; [|by exists k1]. cbn. exists k1. split; [done|].
  pose proof Hs1 as (Hlog & Hrep & Hb & Hrs & Hmx & Hme & Hcl). rewrite Hrec in *.
  split; [by apply (Hcl _ r)|]. split; [by apply (Hdur _ r)|].
  assert (Hforget : forget <$> (<[fe_operation_id i := mkEffectRecord (er_identity r) None false]> (fe_records s))
    = forget <$> fe_records s).
  { rewrite fmap_insert. apply insert_id. rewrite forget_lookup, Hr. cbn. f_equal. unfold forget. cbn. by rewrite Hres. }
  unfold set_fe_records. split_and!; cbn; try done.
  - by rewrite Hforget.
  - rewrite <- (incomplete_forget (<[_ := _]> _)), Hforget, incomplete_forget. done.
  - intros id r'. rewrite lookup_insert. case_decide; [by intros [= <-]|]. intros Hid Hav'.
    destruct (Hcl id r' Hid Hav') as (? & ? & ?). split_and!; [|done..].
    rewrite elem_of_app, list_elem_of_singleton. intros [?|?]; congruence.
Qed.

(** The store right after a result was appended and indexed, before its sync. *)
Lemma fe_result_store evs ls k claims s i r record line f :
  fe_store_ok evs ls k claims s -> fe_validate_identity i = Ok tt -> fe_validate_result i r = Ok tt ->
  fe_records s !! fe_operation_id i = Some record -> er_identity record = i -> er_result record = None ->
  er_claim_available record = false -> to_json (Complete i r) = Some line ->
  holds (ls ++ [line]) f -> synced k ls f -> len (content f) <= max_bytes ->
  len (framed (ls ++ [line])) + (fe_reserved_result_bytes s - RESULT_RESERVATION_BYTES) <= max_bytes ->
  fe_store_ok (evs ++ [Complete i r]) (ls ++ [line]) k claims
    (set_fe_records (<[fe_operation_id i := mkEffectRecord (er_identity record) (Some r) (er_claim_available record)]> (fe_records s))
      (set_fe_dirty true (set_fe_bytes (length (framed (ls ++ [line]))) (set_fe_file f
        (set_fe_reserved (fe_reserved_result_bytes s - RESULT_RESERVATION_BYTES) s))))).
Proof.
  intros Hs Hv Hvr Hr <- Hnone Hav Hj Hhf Hsf Hmf Hfit.
  pose proof Hs as ((_ & Hb & _) & Hrep & _ & Hres & _ & _ & Hcl).
  set (m := <[fe_operation_id (er_identity record) := mkEffectRecord (er_identity record) (Some r) (er_claim_available record)]> (fe_records s)).
  assert (Hm1 : incomplete m = incomplete (fe_records s) - 1).
  { unfold incomplete, m. rewrite (map_sum_insert_over _ _ _ record) by done. unfold is_incomplete at 2 3. rewrite Hnone. cbn. lia. }
  assert (Hsize : Z.of_nat (size (fe_records s)) <= max_effects).
  { destruct (Hb (length evs)) as (m0 & Hm0 & Hs0 & _). rewrite firstn_all, Hrep in Hm0. injection Hm0 as <-.
    by rewrite map_size_fmap in Hs0. }
  unfold set_fe_records, set_fe_reserved, set_fe_dirty, set_fe_bytes, set_fe_file. cbn.
  replace (fe_reserved_result_bytes s - RESULT_RESERVATION_BYTES) with (RESULT_RESERVATION_BYTES * incomplete m)
    by (rewrite Hres, Hm1; lia).
  apply fe_store_snoc; try done.
  - cbn. rewrite Hv. cbn. rewrite Hvr. cbn. rewrite forget_lookup, Hr. cbn. rewrite Hnone.
    rewrite bool_decide_true by done. cbn. unfold m. by rewrite fmap_insert.
  - unfold m. rewrite map_size_insert_Some by (by eexists). lia.
  - rewrite Hm1, Hres in *. lia.
  - intros id x. unfold m. rewrite lookup_insert. case_decide as E.
    + intros [= <-]. cbn. congruence.
    + intros Hid Hav'. destruct (Hcl id x Hid Hav') as (? & ? & _). done.
Qed.

(** A store owes room for every incomplete record. *)
Lemma fe_room evs ls k claims s id record :
  fe_store_ok evs ls k claims s -> fe_records s !! id = Some record -> er_result record = None ->
  len (framed ls) + fe_reserved_result_bytes s <= max_bytes /\ RESULT_RESERVATION_BYTES <= fe_reserved_result_bytes s.
Proof.
  intros ((He & Hb & _) & Hrep & _ & Hres & _) Hid Hnone. rewrite Hres.
  destruct (Hb (length evs)) as (m0 & Hm0 & _ & Hfit).
  rewrite firstn_all, Hrep in Hm0. injection Hm0 as <-. rewrite (Forall2_length _ _ _ He), firstn_all, incomplete_forget in Hfit.
  split; [done|]. assert (1 <= incomplete (fe_records s)); [|unfold RESULT_RESERVATION_BYTES; lia].
  pose proof (map_sum_lookup_le is_incomplete (fe_records s) id record) as Hle.
  unfold is_incomplete in Hle at 2. rewrite Hnone in Hle. apply Hle; [|done].
  intros _ x _. unfold is_incomplete. by destruct (er_result x).
Qed.

Lemma checked_sub_reserved (a b : Z) : b <= a -> checked_sub a b = Some (a - b).
Proof. intros. by apply checked_sub_Some. Qed.

Lemma fe_commit_ok (Hcodec : fe_codec_ok) evs ls k claims s io i r record line :
  fe_store_ok evs ls k claims s -> fe_validate_identity i = Ok tt -> fe_validate_result i r = Ok tt ->
  fe_records s !! fe_operation_id i = Some record -> er_identity record = i -> er_result record = None ->
  er_claim_available record = false -> to_json (Complete i r) = Some line -> len (frame line) <= RESULT_RESERVATION_BYTES ->
  let '(out, s') := fe_commit io i record r (frame line) s in
  match out with
  | Ok r' => r' = r /\ fe_store_ok (evs ++ [Complete i r]) (ls ++ [line]) (length (evs ++ [Complete i r])) claims s'
  | Err e => fe_kept evs k claims s'
      /\ (max_bytes <= U64_MAX -> e = FeIo /\ (io_seek io = false \/ io_write io <> WriteOk \/ io_sync io = false))
  end.
Proof.
  intros Hs Hv Hvr Hr Hid Hnone Hav Hj Hfit. unfold fe_commit.
  destruct (fe_room _ _ _ _ _ _ _ Hs Hr Hnone) as [Hroom Hown].
  rewrite M_bind_run, get_run, M_bind_run, lift_run, checked_sub_reserved by done. cbn [ok_or]. rewrite M_bind_run. cbn [modify].
  destruct (Hcodec (Complete i r) line (conj Hv Hvr) Hj) as [Hline _].
  pose proof Hs as ((_ & _ & Hh & Hsy & Hm) & _ & Hbytes & _ & Hmx & _ & _).
  set (s1 := set_fe_reserved (fe_reserved_result_bytes s - RESULT_RESERVATION_BYTES) s).
  rewrite M_bind_run. unfold observed.
  pose proof (fe_append_ok k ls s1 io line Hline Hh Hsy Hbytes ltac:(cbn; lia) ltac:(cbn; lia)) as Ha.
  destruct (fe_append io (frame line) s1) as [[[]|e] s2]; destruct Ha as (f & Hmf & Hsf & Hhf & Hout);
    cbn [fe_max_bytes s1 set_fe_reserved fe_reserved_result_bytes] in Hmf, Hout.
  - destruct Hout as (Hfit' & ->). rewrite !M_bind_run. cbv beta iota delta [modify]. rewrite M_bind_run.
    pose proof (fe_result_store evs ls k claims s i r record line f Hs Hv Hvr Hr Hid Hnone Hav Hj Hhf Hsf ltac:(by rewrite <- Hmx)
      ltac:(by rewrite <- Hmx)) as Hs3.
    pose proof (fe_sync_any _ _ _ _ _ (io_sync io) Hs3) as Hlast.
    cbn [fe_records set_fe_dirty set_fe_bytes set_fe_file set_fe_reserved] in *.
    destruct (fe_sync (io_sync io) _) as [[] s4]; destruct Hlast as (k4 & Hk4 & Hs4 & Hk); cbn.
    + by subst k4.
    + destruct Hk as [-> Hbad]. split; [|by auto]. eexists _, _, k4. split; [exact Hs4|]. split; [lia|by apply prefix_app_r].
  - destruct Hout as (-> & Hwhy). rewrite M_bind_run. cbv beta iota delta [modify].
    assert (Heq : set_fe_reserved (fe_reserved_result_bytes (set_fe_file f s1) + RESULT_RESERVATION_BYTES) (set_fe_file f s1)
      = set_fe_file f s) by (subst s1; destruct s; unfold set_fe_reserved, set_fe_file; cbn; f_equal; lia).
    rewrite Heq. cbn. split.
    + apply (fe_kept_same _ ls _ k); [|done]. apply fe_store_file; [done..|by rewrite <- Hmx].
    + intros Hu. destruct Hwhy as [[-> ?]|Hover]; [by split; [done|tauto]|].
      rewrite framed_snoc_len, Hmx, Z.min_r in Hover by done. lia.
Qed.

Lemma fe_complete_ok (Hcodec : fe_codec_ok) evs ls k claims s io i r :
  fe_store_ok evs ls k claims s ->
  let '(out, s') := fe_complete io i r s in
  fe_kept evs k claims s'
  /\ (forall r', out = Ok r' ->
       (exists record x, fe_records s !! fe_operation_id i = Some record /\ er_result record = Some x)
       \/ exists ls', r' = r /\ fe_store_ok (evs ++ [Complete i r]) ls' (length (evs ++ [Complete i r])) claims s').
Proof.
  intros Hs. unfold fe_complete. rewrite M_bind_run, lift_run.
  assert (Hsame : fe_kept evs k claims s) by (by eapply fe_kept_same).
  destruct (fe_validate_identity i) as [[]|] eqn:Hv; [|by split].
  rewrite M_bind_run, lift_run. destruct (fe_validate_result i r) as [[]|] eqn:Hvr; [|by split].
  rewrite M_bind_run. pose proof (fe_writer_ok evs ls k claims (io_presync io) s Hs) as Hw.
  destruct (fe_writer (io_presync io) s) as [[[]|e] s1]; destruct Hw as (Hrec & k1 & Hk1 & Hs1 & _);
    [|split; [by eapply fe_kept_same | done]].
  assert (Hsame1 : fe_kept evs k claims s1) by (by eapply fe_kept_same).
  rewrite M_bind_run, get_run. rewrite Hrec.
  destruct (fe_records s !! fe_operation_id i) as [record|] eqn:Hr; [|by split].
  case_bool_decide as Hid; [|by split]. cbn [negb]. destruct (er_result record) as [x|] eqn:Hnone.
  { rewrite M_bind_run, lift_run. destruct (canonical_bytes x) as [a|]; [|by split].
    rewrite M_bind_run, lift_run. destruct (canonical_bytes r) as [b|]; [|by split].
    case_bool_decide; [|by split]. split; [done|]. intros. left. by exists record, x. }
  destruct (er_claim_available record) eqn:Hav; [by split|].
  rewrite M_bind_run, lift_run. destruct (encode_event (Complete i r)) as [enc|] eqn:He; [|by split].
  apply encode_event_Ok in He as (line & Hj & ->).
  destruct (Z.ltb_spec RESULT_RESERVATION_BYTES (len (frame line))) as [|Hfit]; [by split|].
  rewrite <- Hrec in Hr.
  pose proof (fe_commit_ok Hcodec evs ls k1 claims s1 io i r record line Hs1 Hv Hvr Hr Hid Hnone Hav Hj Hfit) as Hc.
  destruct (fe_commit io i record r (frame line) s1) as [[r'|e] s2].
  - destruct Hc as [-> Hs2]. split.
    + eexists _, _, _. split; [exact Hs2|]. split; [|by apply prefix_app_r].
      destruct Hs2 as ((He' & _ & _ & [Hk' _] & _) & _). destruct Hs1 as ((He1 & _ & _ & [Hk1' _] & _) & _).
      apply Forall2_length in He1. rewrite length_app. cbn. lia.
    + intros r'' [= <-]. right. eexists. split; [done | exact Hs2].
  - destruct Hc as [(evs' & ls' & k' & Hs2 & Hk2 & Hpre) _]. split; [|done].
    exists evs', ls', k'. split_and!; [done|lia|done].
Qed.

Definition unclaimable (m : gmap string EffectRecord) : Prop := map_Forall (fun _ r => er_claim_available r = false) m.

Lemma fe_apply_unclaimable m ev m' : unclaimable m -> fe_apply m ev = Ok m' -> unclaimable m'.
Proof.
  intros Hm. destruct ev as [i|i r]; cbn.
  - destruct (fe_validate_identity i) as [[]|]; [|done]. cbn. case_match; [done|]. intros [= <-].
    by apply map_Forall_insert_2.
  - destruct (fe_validate_identity i) as [[]|]; [|done]. cbn. destruct (fe_validate_result i r) as [[]|]; [|done]. cbn.
    destruct (m !! fe_operation_id i) as [x|] eqn:Hx; [|done]. cbn. case_match; [done|]. intros [= <-].
    apply map_Forall_insert_2; [|done]. cbn. by apply (Hm _ _ Hx).
Qed.

Lemma fe_replay_unclaimable evs m m' : unclaimable m -> fe_replay m evs = Ok m' -> unclaimable m'.
Proof.
  revert m. induction evs as [|ev evs IH]; intros m Hm H; cbn in H; [by injection H as <-|].
  destruct (fe_apply m ev) as [m1|] eqn:Ha; [|done]. eapply IH; [|exact H]. by eapply fe_apply_unclaimable.
Qed.

Lemma unclaimable_forget m : unclaimable m -> forget <$> m = m.
Proof.
  intros Hm. apply map_eq. intros id. rewrite forget_lookup. destruct (m !! id) as [[i x c]|] eqn:Hid; [|done].
  specialize (Hm _ _ Hid). cbn in *. by subst c.
Qed.

Lemma fe_log_recovered evs ls k f : fe_log evs ls k f -> fe_log evs ls k (recover_file f).
Proof.
  intros Hlog. pose proof Hlog as (_ & _ & Hh & Hs & Hm). eapply fe_log_file; [exact Hlog|by apply recover_file_holds|by apply recover_file_synced|].
  pose proof (recover_file_length f). unfold len in *. lia.
Qed.

(** The checks [open] makes on the replayed index all pass. *)
Lemma fe_load_ok (Hcodec : fe_codec_ok) (Hu : max_bytes <= U64_MAX) evs ls k f :
  fe_log evs ls k f ->
  exists m, fe_replay ∅ evs = Ok m
  /\ fe_index ∅ (nonempty_lines (take (valid_len (content f)) (content (recover_file f)))) = Ok m
  /\ Z.of_nat (size m) <= max_effects
  /\ checked_mul (incomplete m) RESULT_RESERVATION_BYTES = Some (RESULT_RESERVATION_BYTES * incomplete m)
  /\ checked_add (Z.of_nat (valid_len (content f))) (RESULT_RESERVATION_BYTES * incomplete m)
     = Some (len (framed ls) + RESULT_RESERVATION_BYTES * incomplete m)
  /\ len (framed ls) + RESULT_RESERVATION_BYTES * incomplete m <= max_bytes.
Proof.
  intros (He & Hb & Hh & _). destruct (Hb (length evs)) as (m & Hr & Hsize & Hfit).
  rewrite firstn_all in Hr. rewrite (Forall2_length _ _ _ He), firstn_all in Hfit.
  destruct (recovered_lines ls f Hh) as [-> ->]. pose proof (incomplete_nonneg m). pose proof (len_nonneg (framed ls)).
  exists m. split_and!; [done|by eapply fe_index_replay|done| | |done].
  - unfold checked_mul, RESULT_RESERVATION_BYTES in *. rewrite (proj2 (Z.leb_le _ _)) by lia. f_equal. lia.
  - apply checked_add_Some. unfold len in *. lia.
Qed.

(** Reopening a held log fails only when the device does; what it builds admits nothing. *)
Lemma fe_open_ok (Hcodec : fe_codec_ok) (Hu : max_bytes <= U64_MAX) evs ls k claims io f :
  fe_log evs ls k f ->
  match fe_open max_effects max_bytes io f with
  | (Ok s, f') => fe_store_ok evs ls k claims s /\ fe_file s = f' /\ unclaimable (fe_records s)
  | (Err e, f') => e = FeIo /\ oi_open io && oi_truncate io && oi_sync io && oi_seek io = false /\ fe_log evs ls k f'
  end.
Proof.
  intros Hlog. pose proof Hlog as (He & _ & Hh & Hs & Hm). unfold fe_open. cbv zeta.
  destruct (oi_open io); cbn [negb]; [|done]. rewrite (proj2 (Z.ltb_ge _ _)) by done.
  destruct (negb _ && negb (oi_truncate io)) eqn:E1.
  { apply andb_true_iff in E1 as [_ E1%negb_true_iff]. by rewrite E1. }
  destruct (negb _ && negb (oi_sync io)) eqn:E2.
  { apply andb_true_iff in E2 as [_ E2%negb_true_iff]. rewrite E2, andb_false_r. split; [done|]. split; [done|].
    destruct (cut_holds k ls f Hh Hs). eapply fe_log_file; try done.
    pose proof (set_len_length (valid_len (content f)) f). unfold len in *. lia. }
  destruct (fe_load_ok Hcodec Hu _ _ _ _ Hlog) as (m & Hr & -> & Hsize & Hmul & Hadd & Hfit). cbn.
  rewrite (proj2 (Z.ltb_ge _ _)) by done. cbn. rewrite Hmul. cbn. rewrite Hadd. cbn.
  rewrite (proj2 (Z.ltb_ge _ _)) by done. cbn. pose proof (fe_log_recovered _ _ _ _ Hlog) as Hrec.
  destruct (oi_seek io); cbn; [|by rewrite andb_false_r].
  assert (Hun : unclaimable m) by (eapply fe_replay_unclaimable; [|exact Hr]; apply map_Forall_empty).
  split; [|done]. split_and!; cbn; try done.
  - by rewrite unclaimable_forget.
  - by apply recovered_lines.
  - intros id r Hid Hav. specialize (Hun _ _ Hid). cbn in Hun. congruence.
Qed.

(** ** Runs *)
Lemma fe_log_synced evs ls k f : fe_log evs ls k f -> (k <= length evs)%nat.
Proof. intros (He & _ & _ & [Hk _] & _). by rewrite (Forall2_length _ _ _ He). Qed.

Lemma fe_log_power_loss evs ls k f f' :
  fe_log evs ls k f -> power_loss f f' -> exists n, (k <= n)%nat /\ fe_log (take n evs) (take n ls) n f'.
Proof.
  intros (He & Hb & Hh & Hs & Hm) Hp. destruct (power_loss_holds k ls f f' Hh Hs Hp) as (n & Hn & _ & Hh' & Hs').
  exists n. split; [done|]. apply fe_log_take; try done. pose proof (power_loss_length f f' Hp). unfold len in *. lia.
Qed.

(** One step keeps the invariant, the durable events, and extends the admitted operations by its label. *)
Lemma fe_step_ok (Hcodec : fe_codec_ok) (Hu : max_bytes <= U64_MAX) evs ls k claims y l y' :
  fe_sys_ok evs ls k claims y -> fe_step y l y' ->
  exists evs' ls' k', fe_sys_ok evs' ls' k' (claims ++ match l with Some op => [op] | None => [] end) y'
    /\ (k <= k')%nat /\ take k evs' = take k evs.
Proof.
  intros (Hnd & Hc & Hy) Hstep.
  assert (Hkeep : forall s', (k <= length evs)%nat ->
     fe_kept evs k claims s' -> exists evs' ls' k', fe_sys_ok evs' ls' k' (claims ++ []) (FeUp s')
       /\ (k <= k')%nat /\ take k evs' = take k evs).
  { intros s' Hk (evs' & ls' & k' & Hs & Hk' & [tl ->]). rewrite app_nil_r. exists (evs ++ tl), ls', k'.
    assert (Ht : take k (evs ++ tl) = take k evs) by (by apply take_app_le).
    split; [|done]. split; [done|]. split; [|done]. intros id Hid. apply (intents_take_le k); [done|]. rewrite Ht. auto. }
  assert (Hloss : forall f f', fe_log evs ls k f -> power_loss f f' -> exists evs' ls' k',
     fe_sys_ok evs' ls' k' (claims ++ []) (FeDown f') /\ (k <= k')%nat /\ take k evs' = take k evs).
  { intros f f' Hl Hp. destruct (fe_log_power_loss _ _ _ _ _ Hl Hp) as (n & Hn & Hl'). rewrite app_nil_r.
    assert (Ht : take k (take n evs) = take k evs) by (rewrite take_take; f_equal; lia).
    exists (take n evs), (take n ls), n. split; [|done]. split; [done|]. split; [|done].
    intros id Hid. apply (intents_take_le k); [done|]. rewrite Ht. auto. }
  destruct Hstep as [s io i|s io i s' Hcl|s io i out s' Hcl Hne|s io i r|s|s f Hp|f f' Hp|io f f' s Ho|io f f' e Ho].
  - apply Hkeep; [by eapply fe_log_synced, Hy|]. by eapply fe_reserve_ok.
  - pose proof (fe_claim_ok _ _ _ _ _ io i Hy) as H. rewrite Hcl in H. destruct H as (k' & Hk & Hnin & Hin & Hs).
    exists evs, ls, k'. split; [|done]. split; [apply NoDup_app; split_and!; [done| |apply NoDup_singleton]|split; [|done]].
    + intros x Hx ->%list_elem_of_singleton. done.
    + intros id [Hid| ->%list_elem_of_singleton]%elem_of_app; [|done]. eapply intents_take_le; [exact Hk|auto].
  - pose proof (fe_claim_ok _ _ _ _ _ io i Hy) as H. rewrite Hcl in H. destruct H as (k' & Hk & Hs).
    apply Hkeep; [by eapply fe_log_synced, Hy|]. destruct out as [[]|]; [done|..]; by eapply fe_kept_same.
  - apply Hkeep; [by eapply fe_log_synced, Hy|]. pose proof (fe_complete_ok Hcodec _ _ _ _ _ io i r Hy) as H.
    destruct (fe_complete io i r s) as [out s']. apply H.
  - exists evs, ls, k. rewrite app_nil_r. split; [|done]. split_and!; try done; apply Hy.
  - destruct Hy as [Hl _]. by eapply Hloss.
  - by eapply Hloss.
  - pose proof (fe_open_ok Hcodec Hu _ _ _ claims io f Hy) as H. rewrite Ho in H. exists evs, ls, k. rewrite app_nil_r.
    split; [|done]. split; [done|]. split; [done|]. apply H.
  - pose proof (fe_open_ok Hcodec Hu _ _ _ claims io f Hy) as H. rewrite Ho in H. exists evs, ls, k. rewrite app_nil_r.
    split; [|done]. split; [done|]. split; [done|]. apply H.
Qed.

Lemma fe_run_ok (Hcodec : fe_codec_ok) (Hu : max_bytes <= U64_MAX) evs ls k c0 y c y' :
  fe_sys_ok evs ls k c0 y -> fe_run y c y' ->
  exists evs' ls' k', fe_sys_ok evs' ls' k' (c0 ++ c) y' /\ (k <= k')%nat /\ take k evs' = take k evs.
Proof.
  intros Hy H. induction H as [y|y c y1 l y2 _ IH Hstep]; [rewrite app_nil_r; by exists evs, ls, k|].
  destruct (IH Hy) as (evs1 & ls1 & k1 & Hy1 & Hk1 & Ht1).
  destruct (fe_step_ok Hcodec Hu _ _ _ _ _ _ _ Hy1 Hstep) as (evs2 & ls2 & k2 & Hy2 & Hk2 & Ht2).
  exists evs2, ls2, k2. rewrite app_assoc. split_and!; [done|lia|].
  assert (Hcut : forall l : list EffectEvent, take k l = take k (take k1 l)).
  { intros x. rewrite take_take. f_equal. lia. }
  by rewrite (Hcut evs2), Ht2, <- Hcut.
Qed.

Lemma fe_empty_ok (Hm : 0 <= max_bytes) (He : 0 <= max_effects) : fe_sys_ok [] [] 0 [] (FeDown empty_log).
Proof.
  split; [apply NoDup_nil_2|]. split; [by intros id Hid%not_elem_of_nil|]. split_and!.
  - apply Forall2_nil. done.
  - intros n. exists ∅. rewrite !take_nil. unfold incomplete. rewrite map_sum_empty, map_size_empty. by split_and!.
  - split; [by apply Forall_nil_2|]. exists []. split_and!; [done|by apply Forall_nil_2|cbn; lia].
  - split; cbn; lia.
  - done.
Qed.

Lemma fe_reachable_ok (Hcodec : fe_codec_ok) (Hm : 0 <= max_bytes <= U64_MAX) (He : 0 <= max_effects) c y :
  fe_run (FeDown empty_log) c y -> exists evs ls k, fe_sys_ok evs ls k c y.
Proof.
  intros H. destruct (fe_run_ok Hcodec ltac:(lia) [] [] 0 [] _ c y (fe_empty_ok ltac:(lia) He) H) as (evs & ls & k & Hy & _).
  by exists evs, ls, k.
Qed.

(** A replayed result is never replaced. *)
Lemma fe_apply_keeps m ev m' id record r :
  fe_apply m ev = Ok m' -> m !! id = Some record -> er_result record = Some r -> m' !! id = Some record.
Proof.
  intros Ha Hid Hr. destruct ev as [i|i x]; cbn in Ha.
  - destruct (fe_validate_identity i) as [[]|]; [|done]. cbn in Ha. case_match; [done|]. injection Ha as <-.
    rewrite lookup_insert_ne; [done|]. intros E. congruence.
  - destruct (fe_validate_identity i) as [[]|]; [|done]. cbn in Ha. destruct (fe_validate_result i x) as [[]|]; [|done].
    cbn in Ha. destruct (m !! fe_operation_id i) as [y|] eqn:Hy; [|done]. cbn in Ha.
    destruct (decide (fe_operation_id i = id)) as [<-|].
    + rewrite Hid in Hy. injection Hy as <-. rewrite Hr, orb_true_r in Ha. done.
    + case_match; [done|]. injection Ha as <-. by rewrite lookup_insert_ne.
Qed.

Lemma fe_replay_keeps evs m m' id record r :
  fe_replay m evs = Ok m' -> m !! id = Some record -> er_result record = Some r -> m' !! id = Some record.
Proof.
  revert m. induction evs as [|ev evs IH]; intros m H Hid Hr; cbn in H; [by injection H as <-|].
  destruct (fe_apply m ev) as [m1|] eqn:Ha; [|done]. eapply IH; [exact H| |done]. by eapply fe_apply_keeps.
Qed.

Lemma fe_replay_result evs i r m :
  fe_replay ∅ evs = Ok m -> Complete i r ∈ evs -> exists b, m !! fe_operation_id i = Some (mkEffectRecord i (Some r) b).
Proof.
  intros H (a & b & ->)%list_elem_of_split. rewrite fe_replay_app in H.
  destruct (fe_replay ∅ a) as [m1|]; [|done]. cbn [mbind result_bind fe_replay] in H.
  destruct (fe_apply m1 (Complete i r)) as [m2|] eqn:Ha; [|done]. cbn [mbind result_bind] in H.
  cbn in Ha. destruct (fe_validate_identity i) as [[]|]; [|done]. cbn in Ha.
  destruct (fe_validate_result i r) as [[]|]; [|done]. cbn in Ha.
  destruct (m1 !! fe_operation_id i) as [y|]; [|done]. cbn in Ha.
  case_bool_decide as Hi; [|done]. cbn in Ha. case_match; [done|]. injection Ha as <-. rewrite Hi in *.
  eexists. eapply fe_replay_keeps; [exact H|apply lookup_insert_eq|done].
Qed.

(** What the calls answer once the index holds a result. *)
Lemma fe_answers_with_result evs ls k claims s io i j r :
  fe_store_ok evs ls k claims s -> Complete i r ∈ evs -> fe_operation_id j = fe_operation_id i ->
  fe_validate_identity j = Ok tt -> io_presync io = true ->
  let answer := if decide (j = i) then Ok (EffectReplay (mark_replayed r)) else Err FeConflict in
  (fe_reserve io j s).1 = answer /\ (fe_claim io j s).1 = answer.
Proof.
  intros Hs Hin Hop Hv Hio. pose proof Hs as (_ & Hrep & _).
  destruct (fe_replay_result _ _ _ _ Hrep Hin) as [b Hl]. rewrite forget_lookup, <- Hop in Hl.
  destruct (fe_records s !! fe_operation_id j) as [[ri rr rc]|] eqn:Hr; [|done]. cbn in Hl. injection Hl as -> -> _.
  pose proof (fe_writer_ok evs ls k claims true s Hs) as Hw. unfold fe_reserve, fe_claim. rewrite Hio.
  rewrite !M_bind_run, !lift_run, Hv, !M_bind_run.
  destruct (fe_writer true s) as [[[]|e] s1]; [|destruct Hw as (_ & ? & _ & _ & _ & ?); done].
  destruct Hw as [Hrec _]. rewrite !M_bind_run, !get_run. rewrite Hrec, Hr. cbn.
  destruct (decide (j = i)) as [->|Hne]; [by rewrite bool_decide_true|].
  rewrite bool_decide_false by congruence. done.
Qed.

(** C14: Over the whole life of the log, through any calls, process crashes, torn writes, power losses and
    reopenings, no operation is admitted to run twice: [claim] answers [New] at most once for it. *)
Theorem effect_admitted_at_most_once (Hcodec : fe_codec_ok) (Hm : 0 <= max_bytes <= U64_MAX) (He : 0 <= max_effects) claims y :
  fe_run (FeDown empty_log) claims y -> NoDup claims.
Proof. intros H. by destruct (fe_reachable_ok Hcodec Hm He _ _ H) as (evs & ls & k & Hnd & _). Qed.

(** Once [complete] has stored a result, every store opened later answers [reserve] and [claim] of the
    same identity with that result marked replayed, and of any other identity under its operation id with
    a conflict, whatever calls, crashes and power losses happened in between. *)
Theorem completed_effect_replays_for_good (Hcodec : fe_codec_ok) (Hm : 0 <= max_bytes <= U64_MAX) (He : 0 <= max_effects)
    c1 c2 s s' s2 io io2 i j r r' record :
  fe_run (FeDown empty_log) c1 (FeUp s) ->
  fe_records s !! fe_operation_id i = Some record -> er_result record = None ->
  fe_complete io i r s = (Ok r', s') -> fe_run (FeUp s') c2 (FeUp s2) ->
  fe_operation_id j = fe_operation_id i -> fe_validate_identity j = Ok tt -> io_presync io2 = true ->
  let answer := if decide (j = i) then Ok (EffectReplay (mark_replayed r)) else Err FeConflict in
  r' = r /\ (fe_reserve io2 j s2).1 = answer /\ (fe_claim io2 j s2).1 = answer.
Proof.
  intros Hrun Hrec Hnone Hdone Hrun2 Hop Hv Hio answer.
  destruct (fe_reachable_ok Hcodec Hm He _ _ Hrun) as (evs & ls & k & Hnd & Hc & Hs).
  pose proof (fe_complete_ok Hcodec _ _ _ _ _ io i r Hs) as H. rewrite Hdone in H.
  destruct H as [(evs0 & ls0 & k0 & Hs0 & Hk0 & Hpre) H].
  destruct (H r' eq_refl) as [(rec & x & Hx & Hx')|(ls' & -> & Hs')]; [rewrite Hrec in Hx; congruence|]. split; [done|].
  assert (Hsys : fe_sys_ok (evs ++ [Complete i r]) ls' (length (evs ++ [Complete i r])) c1 (FeUp s')).
  { split; [done|]. split; [|done]. intros id Hid. rewrite firstn_all. unfold intents. rewrite flat_map_app, elem_of_app.
    left. rewrite <- (take_drop k evs). unfold intents. rewrite flat_map_app, elem_of_app. left. by apply Hc. }
  destruct (fe_run_ok Hcodec ltac:(lia) _ _ _ _ _ _ _ Hsys Hrun2) as (evs2 & ls2 & k2 & (_ & _ & Hs2) & _ & Ht).
  eapply fe_answers_with_result; [exact Hs2| |done..]. rewrite firstn_all in Ht.
  rewrite <- (take_drop (length (evs ++ [Complete i r])) evs2), Ht, !elem_of_app, list_elem_of_singleton. auto.
Qed.

(** An admitted effect can always store its result: from any reachable store, once its claim is
    consumed, a result whose encoding fits the 32 KiB reservation is stored whenever the I/O calls succeed,
    whatever else was reserved in the meantime. *)
Theorem admitted_effect_can_complete (Hcodec : fe_codec_ok) (Hm : 0 <= max_bytes <= U64_MAX) (He : 0 <= max_effects)
    claims s io i r record line :
  fe_run (FeDown empty_log) claims (FeUp s) ->
  fe_records s !! fe_operation_id i = Some record -> er_identity record = i -> er_result record = None ->
  er_claim_available record = false -> fe_validate_identity i = Ok tt -> fe_validate_result i r = Ok tt ->
  to_json (Complete i r) = Some line -> len (frame line) <= RESULT_RESERVATION_BYTES ->
  io_presync io = true -> io_seek io = true -> io_write io = WriteOk -> io_sync io = true ->
  (fe_complete io i r s).1 = Ok r.
Proof.
  intros Hrun Hrec Hid Hnone Hav Hv Hvr Hj Hfit Hpre Hseek Hwrite Hsync.
  destruct (fe_reachable_ok Hcodec Hm He _ _ Hrun) as (evs & ls & k & _ & _ & Hs).
  unfold fe_complete. rewrite M_bind_run, lift_run, Hv, M_bind_run, lift_run, Hvr, M_bind_run, Hpre.
  pose proof (fe_writer_ok _ _ _ _ true _ Hs) as Hw.
  destruct (fe_writer true s) as [[[]|e] s1]; [|destruct Hw as (_ & ? & _ & _ & _ & ?); done].
  destruct Hw as (Hrec1 & k1 & _ & Hs1 & _). rewrite M_bind_run, get_run. rewrite Hrec1, Hrec.
  rewrite bool_decide_true by done. cbn [negb]. rewrite Hnone, Hav, M_bind_run, lift_run.
  unfold encode_event. rewrite Hj. cbn [ok_or mbind result_bind]. rewrite (proj2 (Z.ltb_ge _ _)) by done.
  rewrite <- Hrec1 in Hrec.
  pose proof (fe_commit_ok Hcodec _ _ _ _ s1 io i r record line Hs1 Hv Hvr Hrec Hid Hnone Hav Hj Hfit) as Hc.
  destruct (fe_commit io i record r (frame line) s1) as [[r'|e] s2]; cbn; [by destruct Hc as [-> _]|].
  destruct Hc as [_ Hc]. destruct (Hc ltac:(lia)) as [_ [|[|]]]; congruence.
Qed.

(** In every reachable store the writer owes exactly one 32 KiB reservation per incomplete effect, what
    is written and owed fits the log's limit, and the index holds at most its maximum of effects. *)
Theorem reservations_cover_incomplete_effects (Hcodec : fe_codec_ok) (Hm : 0 <= max_bytes <= U64_MAX) (He : 0 <= max_effects) claims s :
  fe_run (FeDown empty_log) claims (FeUp s) ->
  fe_reserved_result_bytes s = RESULT_RESERVATION_BYTES * incomplete (fe_records s)
  /\ Z.of_nat (fe_bytes s) + fe_reserved_result_bytes s <= fe_max_bytes s
  /\ len (content (fe_file s)) <= fe_max_bytes s
  /\ Z.of_nat (size (fe_records s)) <= fe_max_effects s.
Proof.
  intros H. destruct (fe_reachable_ok Hcodec Hm He _ _ H) as (evs & ls & k & _ & _ & Hs).
  destruct Hs as ((Henc & Hb & _ & _ & Hlen) & Hr & Hbytes & Hres & Hmx & Hme & _).
  destruct (Hb (length evs)) as (m & Hm' & Hsize & Hfit). rewrite firstn_all, Hr in Hm'. injection Hm' as <-.
  rewrite (Forall2_length _ _ _ Henc), firstn_all, incomplete_forget in Hfit. rewrite map_size_fmap in Hsize.
  rewrite Hres, Hbytes, Hmx, Hme. done.
Qed.

(** Whatever happened to it, the effect log reopens: [open] never finds a reachable log corrupt or over
    its limits and fails only on an I/O error, and the store it opens can run none of the effects it read. *)
Theorem reachable_effect_log_reopens (Hcodec : fe_codec_ok) (Hm : 0 <= max_bytes <= U64_MAX) (He : 0 <= max_effects) claims f io :
  fe_run (FeDown empty_log) claims (FeDown f) ->
  match (fe_open max_effects max_bytes io f).1 with
  | Ok s => map_Forall (fun _ r => er_claim_available r = false) (fe_records s)
      /\ fe_index ∅ (nonempty_lines (take (valid_len (content f)) (content f))) = Ok (fe_records s)
  | Err e => e = FeIo /\ oi_open io && oi_truncate io && oi_sync io && oi_seek io = false
  end.
Proof.
  intros H. destruct (fe_reachable_ok Hcodec Hm He _ _ H) as (evs & ls & k & _ & _ & Hlog).
  pose proof (fe_open_ok Hcodec ltac:(lia) _ _ _ claims io f Hlog) as Ho.
  destruct (fe_open max_effects max_bytes io f) as [[s|e] f']; cbn.
  - destruct Ho as ((_ & Hr & _) & _ & Hun). split; [done|]. destruct Hlog as (Henc & _ & Hh & _).
    rewrite (holds_lines ls f Hh). eapply fe_index_replay; [done..|]. by rewrite Hr, unclaimable_forget.
  - destruct Ho as (-> & ? & _). done.
Qed.
End file_effects.

(** ** A concrete codec and sample runs, for the witnesses *)
Notation SampleEvent := (@EffectEvent unit unit).
Notation SampleStored := (FileEffectStoredResult unit unit).

Definition sample_identifier (s : string) : bool := is_ok (validate_identifier s "").
Definition sample_digest_ok (s : string) : bool := is_ok (validate_digest s "").

Definition kind_tag (k : FileEffectKind) : string :=
  match k with Write => "w" | CopyImport => "i" | CopyExport => "e" end.
Definition parse_kind (s : string) : option FileEffectKind :=
  if str_eqb s "w" then Some Write else if str_eqb s "i" then Some CopyImport else if str_eqb s "e" then Some CopyExport else None.

Definition stored_replayed (r : SampleStored) : bool :=
  match r with StoredWrite r => res_replayed r | StoredCopy r => res_replayed r end.
Definition sample_stored (i : FileEffectIdentity) (b : bool) : SampleStored :=
  let r := mkEffectResult (fe_operation_id i) (fe_request_digest i) b tt in
  match fe_kind i with Write => StoredWrite r | CopyImport | CopyExport => StoredCopy r end.

Definition effect_line (i : FileEffectIdentity) (tag : string) : list Ascii.ascii :=
  bytes_of (kind_tag (fe_kind i) +:+ String "|" (fe_operation_id i +:+ String "|" (fe_request_digest i +:+ String "|" tag))).

Definition sample_event_to_json (ev : SampleEvent) : option (list Ascii.ascii) :=
  match ev with
  | Intent i => Some (effect_line i "n")
  | Complete i r => Some (effect_line i (if stored_replayed r then "t" else "f"))
  end.

Definition sample_event_from_json (l : list Ascii.ascii) : option SampleEvent :=
  match split_on "|"%char (String.string_of_list_ascii l) with
  | [k; op; d; tag] =>
      kind ← parse_kind k;
      let i := mkFileEffectIdentity kind op d in
      if str_eqb tag "n" then Some (Intent i)
      else if str_eqb tag "t" then Some (Complete i (sample_stored i true))
      else if str_eqb tag "f" then Some (Complete i (sample_stored i false))
      else None
  | _ => None
  end.

Lemma parse_kind_tag k : parse_kind (kind_tag k) = Some k.
Proof. by destruct k. Qed.

Lemma kind_tag_plain k : no_newline (bytes_of (kind_tag k)) /\ contains_char "|" (kind_tag k) = false.
Proof. apply plain_facts. destruct k; by apply Forall_singleton. Qed.

Lemma sample_identity_plain i :
  fe_validate_identity sample_identifier sample_digest_ok i = Ok tt ->
  (no_newline (bytes_of (fe_operation_id i)) /\ contains_char "|" (fe_operation_id i) = false)
  /\ (no_newline (bytes_of (fe_request_digest i)) /\ contains_char "|" (fe_request_digest i) = false).
Proof.
  unfold fe_validate_identity, sample_identifier, sample_digest_ok.
  destruct (validate_identifier _ _) as [[]|] eqn:H1; [|done]. cbn.
  destruct (validate_digest _ _) as [[]|] eqn:H2; [|done]. intros _.
  apply validate_identifier_Ok in H1. apply validate_digest_Ok in H2.
  split; apply plain_facts; [by apply identifier_plain | by apply digest_plain].
Qed.

Lemma sample_stored_exact i (r : SampleStored) :
  fe_validate_result i r = Ok tt -> r = sample_stored i (stored_replayed r).
Proof.
  unfold fe_validate_result, sample_stored.
  destruct r as [[op d b []]|[op d b []]], (fe_kind i); cbn; intros H; try done;
    destruct (String.eqb_spec op (fe_operation_id i)) as [->|]; try done;
    destruct (String.eqb_spec d (fe_request_digest i)) as [->|]; done.
Qed.

Lemma effect_line_ok i tag :
  fe_validate_identity sample_identifier sample_digest_ok i = Ok tt ->
  no_newline (bytes_of tag) -> contains_char "|" tag = false ->
  line_ok (effect_line i tag)
  /\ split_on "|"%char (String.string_of_list_ascii (effect_line i tag))
     = [kind_tag (fe_kind i); fe_operation_id i; fe_request_digest i; tag].
Proof.
  intros [[No Co] [Nd Cd]]%sample_identity_plain Nt Ct. destruct (kind_tag_plain (fe_kind i)) as [Nk Ck].
  unfold effect_line. split.
  - split; [rewrite bytes_of_app; by intros [_ ?]%app_eq_nil | by repeat apply no_newline_bar].
  - unfold bytes_of. rewrite String.string_of_list_ascii_of_string, !split_on_app by done. by rewrite split_on_none.
Qed.

Lemma sample_effect_codec_ok :
  fe_codec_ok sample_identifier sample_digest_ok sample_event_to_json sample_event_from_json.
Proof.
  assert (Htag : forall t : string, t ∈ ["n"; "t"; "f"] -> no_newline (bytes_of t) /\ contains_char "|" t = false).
  { intros t Ht. apply plain_facts. repeat (apply elem_of_cons in Ht as [->|Ht]; [by apply Forall_singleton|]).
    by apply not_elem_of_nil in Ht. }
  intros [i|i r] line Hok [= <-].
  - destruct (Htag "n") as [Ha Hb]; [set_solver|]. destruct (effect_line_ok i "n" Hok Ha Hb) as [Hl Hs].
    split; [done|]. unfold sample_event_from_json. rewrite Hs, parse_kind_tag. cbn. by destruct i.
  - destruct Hok as [Hv Hr]. apply sample_stored_exact in Hr.
    destruct (stored_replayed r); [destruct (Htag "t") as [Ha Hb]; [set_solver|]|destruct (Htag "f") as [Ha Hb]; [set_solver|]].
    + destruct (effect_line_ok i "t" Hv Ha Hb) as [Hl Hs]. split; [done|]. unfold sample_event_from_json.
      rewrite Hs, parse_kind_tag, Hr. cbn. by destruct i.
    + destruct (effect_line_ok i "f" Hv Ha Hb) as [Hl Hs]. split; [done|]. unfold sample_event_from_json.
      rewrite Hs, parse_kind_tag, Hr. cbn. by destruct i.
Qed.

Notation fx_reserve := (fe_reserve sample_identifier sample_digest_ok sample_event_to_json).
Notation fx_claim := (fe_claim sample_identifier sample_digest_ok).
Notation fx_open := (fe_open sample_identifier sample_digest_ok sample_event_from_json 8 100000).

Definition sample_jcs (r : SampleStored) : option (list Ascii.ascii) :=
  sample_event_to_json (Complete (mkFileEffectIdentity Write "" "") r).

Notation fx_run := (fe_run sample_identifier sample_digest_ok sample_jcs sample_event_to_json sample_event_from_json 8 100000).
Notation fx_step := (fe_step sample_identifier sample_digest_ok sample_jcs sample_event_to_json sample_event_from_json 8 100000).

Definition effect_i : FileEffectIdentity := mkFileEffectIdentity Write "op-1" digest_a.
Definition effect_j : FileEffectIdentity := mkFileEffectIdentity Write "op-1" digest_b.
Definition effect_result : SampleStored := sample_stored effect_i false.

Definition store_0 : @FileEffectStore unit unit := mkFileEffectStore ∅ empty_log 0 0 false 100000 8.
Definition store_1 : @FileEffectStore unit unit := (fx_reserve io_good effect_i store_0).2.
Definition store_2 : @FileEffectStore unit unit := (fx_claim io_good effect_i store_1).2.
Definition store_3 : @FileEffectStore unit unit :=
  (fe_complete sample_identifier sample_digest_ok sample_jcs sample_event_to_json io_good effect_i effect_result store_2).2.
Definition store_4 : @FileEffectStore unit unit :=
  match (fx_open open_good (fe_file store_3)).1 with Ok s => s | Err _ => store_0 end.

Lemma fx_extend y c y1 l y2 c' :
  fx_run y c y1 -> fx_step y1 l y2 -> c' = c ++ match l with Some op => [op] | None => [] end -> fx_run y c' y2.
Proof. intros H Hs ->. by eapply FeRunStep. Qed.

Lemma fx_run_claimed : fx_run (FeDown empty_log) ["op-1"] (FeUp store_2).
Proof.
  eapply (fx_extend _ [] (FeUp store_1) (Some "op-1")); [|apply (FeClaimNew _ _ _ _ _ _ _ _ io_good effect_i); vm_compute; reflexivity|done].
  eapply (fx_extend _ [] (FeUp store_0) None); [|apply (FeReserveCall _ _ _ _ _ _ _ store_0 io_good effect_i)|done].
  eapply (fx_extend _ [] (FeDown empty_log) None); [apply FeRunNil| |done].
  apply (FeOpen _ _ _ _ _ _ _ open_good _ empty_log). vm_compute. reflexivity.
Qed.

Lemma fx_run_reopened : fx_run (FeUp store_3) [] (FeUp store_4).
Proof.
  eapply (fx_extend _ [] (FeDown (fe_file store_3)) None); [|apply (FeOpen _ _ _ _ _ _ _ open_good _ (fe_file store_4)); vm_compute; reflexivity|done].
  eapply (fx_extend _ [] (FeUp store_3) None); [apply FeRunNil|apply FeProcessCrash|done].
Qed.

Lemma effect_admitted_at_most_once_witness : NoDup ["op-1"].
Proof.
  exact (effect_admitted_at_most_once _ _ _ _ _ 8 100000 sample_effect_codec_ok ltac:(unfold U64_MAX; lia) ltac:(lia)
    _ _ fx_run_claimed).
Defined.

Lemma completed_effect_replays_for_good_witness :
  (fx_reserve io_good effect_i store_4).1 = Ok (EffectReplay (sample_stored effect_i true))
  /\ (fx_claim io_good effect_j store_4).1 = Err FeConflict.
Proof.
  pose proof (fun j => completed_effect_replays_for_good _ _ sample_jcs _ _ 8 100000 sample_effect_codec_ok
    ltac:(unfold U64_MAX; lia) ltac:(lia) ["op-1"] [] store_2 store_3 store_4 io_good io_good effect_i j effect_result effect_result
    (mkEffectRecord effect_i None false) fx_run_claimed ltac:(vm_compute; reflexivity) ltac:(reflexivity)
    ltac:(vm_compute; reflexivity) fx_run_reopened) as H.
  destruct (H effect_i ltac:(reflexivity) ltac:(vm_compute; reflexivity) ltac:(reflexivity)) as (_ & Hr & _).
  destruct (H effect_j ltac:(reflexivity) ltac:(vm_compute; reflexivity) ltac:(reflexivity)) as (_ & _ & Hc).
  split; [exact Hr | exact Hc].
Defined.

Lemma admitted_effect_can_complete_witness :
  (fe_complete sample_identifier sample_digest_ok sample_jcs sample_event_to_json io_good effect_i effect_result store_2).1
  = Ok effect_result.
Proof.
  apply (admitted_effect_can_complete _ _ sample_jcs _ _ 8 100000 sample_effect_codec_ok ltac:(unfold U64_MAX; lia) ltac:(lia)
    ["op-1"] store_2 io_good effect_i effect_result (mkEffectRecord effect_i None false) (effect_line effect_i "f") fx_run_claimed);
    try (vm_compute; reflexivity).
  apply Z.leb_le. vm_compute. reflexivity.
Defined.

Lemma reservations_cover_incomplete_effects_witness :
  Z.of_nat (fe_bytes store_2) + fe_reserved_result_bytes store_2 <= 100000.
Proof.
  apply (reservations_cover_incomplete_effects _ _ sample_jcs _ _ 8 100000 sample_effect_codec_ok ltac:(unfold U64_MAX; lia) ltac:(lia)
    ["op-1"] store_2 fx_run_claimed).
Defined.

(** A log whose last append was torn. *)
Definition torn_effects : LogFile :=
  fe_file (fx_reserve (mkIoOracle true true (WriteFailed 9 false) true) (mkFileEffectIdentity CopyExport "op-2" digest_a) store_2).2.

Lemma reachable_effect_log_reopens_witness :
  exists s, (fx_open open_good torn_effects).1 = Ok s
  /\ map_Forall (fun _ r => er_claim_available r = false) (fe_records s).
Proof.
  assert (Hrun : fx_run (FeDown empty_log) ["op-1"] (FeDown torn_effects)).
  { eapply (fx_extend _ ["op-1"] (FeUp _) None); [|apply FeProcessCrash|done].
    eapply (fx_extend _ ["op-1"] (FeUp store_2) None); [exact fx_run_claimed| |done]. apply FeReserveCall. }
  pose proof (reachable_effect_log_reopens _ _ sample_jcs _ _ 8 100000 sample_effect_codec_ok ltac:(unfold U64_MAX; lia) ltac:(lia)
    _ torn_effects open_good Hrun) as H.
  destruct (fx_open open_good torn_effects).1 as [s|e] eqn:Ho; [|vm_compute in Ho; discriminate].
  exists s. split; [reflexivity | apply H].
Defined.

Definition store_unsynced : @FileEffectStore unit unit :=
  (fe_complete sample_identifier sample_digest_ok sample_jcs sample_event_to_json io_sync_fails effect_i effect_result store_2).2.
Definition store_trusting : @FileEffectStore unit unit :=
  match (fx_open open_good (fe_file store_unsynced)).1 with Ok s => s | Err _ => store_0 end.
Definition store_after_loss : @FileEffectStore unit unit :=
  match (fx_open open_good (fe_file store_2)).1 with Ok s => s | Err _ => store_0 end.

(** [open] starts clean although the result it read may never have been synced: the store replays it as
    committed, and after a power loss answers the same identity with [Ambiguous]. *)
Theorem reopening_replays_an_unsynced_result :
  exists s1 s2 f s3,
    fe_complete sample_identifier sample_digest_ok sample_jcs sample_event_to_json io_sync_fails effect_i effect_result store_2
      = (Err FeIo, s1)
    /\ (fx_open open_good (fe_file s1)).1 = Ok s2
    /\ fx_reserve io_good effect_i s2 = (Ok (EffectReplay (sample_stored effect_i true)), s2)
    /\ power_loss (fe_file s2) f
    /\ (fx_open open_good f).1 = Ok s3 /\ (fx_reserve io_good effect_i s3).1 = Err FeAmbiguous.
Proof.
  exists store_unsynced, store_trusting, (fe_file store_2), store_after_loss.
  split; [vm_compute; reflexivity|]. split; [vm_compute; reflexivity|]. split; [vm_compute; reflexivity|].
  split; [|split; vm_compute; reflexivity].
  exists (durable (fe_file store_2)). split_and!; [apply Nat.leb_le; vm_compute; reflexivity..|vm_compute; reflexivity].
Qed.
