(* ===== verification/GuestErrors.v ===== *)
(** * hand-guest errors, bounds and configuration

    Models crates/hand-guest/src/errors.rs and the bounds and configuration checks of
    crates/hand-guest/src/config.rs: the code and retry flag every failure is projected to, and the bound on
    its diagnostic text. The texts themselves are not modelled. *)
From S2P Require Import Prelude Operation Acks FileEffects LiveFiles.

(** ** Codes *)
Inductive HandErrorCode :=
  | InvalidRequest | FileNotFound | OperationUnknown | BindingConflict | OperationConflict
  | GenerationConflict | SandboxNotMaterialized | SandboxGone | ResourceExhausted
  | CapabilityUnavailable | TemporarilyUnavailable.

#[global] Instance HandErrorCode_eq_dec : EqDecision HandErrorCode.
Proof. solve_decision. Defined.

Record HandError := mkHandError { code : HandErrorCode; retryable : bool }.

#[global] Instance HandError_eq_dec : EqDecision HandError.
Proof. solve_decision. Defined.

Definition hand_error (code : HandErrorCode) (retryable : bool) : HandError := mkHandError code retryable.

(** The HTTP status of a code. *)
Definition status_for (c : HandErrorCode) : Z :=
  match c with
  | InvalidRequest => 400
  | FileNotFound | OperationUnknown => 404
  | BindingConflict | OperationConflict | GenerationConflict | SandboxNotMaterialized => 409
  | SandboxGone => 410
  | ResourceExhausted => 413
  | CapabilityUnavailable | TemporarilyUnavailable => 503
  end.

Definition invalid : HandError := hand_error InvalidRequest false.
Definition unavailable : HandError := hand_error TemporarilyUnavailable true.
Definition stdin_conflict : HandError := hand_error OperationConflict false.
Definition generation_conflict : HandError := hand_error GenerationConflict false.

Definition operation_error (e : OperationError) : HandError :=
  hand_error
    match e with
    | IdempotencyConflict | TerminalConflict => OperationConflict
    | Unknown => OperationUnknown
    | Capacity | TerminalCapacity => ResourceExhausted
    | InvalidIdentity _ | AlreadyTerminal | NotTerminal | TerminalDigestMismatch => InvalidRequest
    end false.

Definition ack_store_error (e : AckStoreError) : HandError :=
  match e with
  | AckConflict => hand_error OperationConflict false
  | AckCapacity => hand_error ResourceExhausted false
  | AckInvalid _ => hand_error InvalidRequest false
  | AckIo => hand_error TemporarilyUnavailable true
  | AckCorrupt _ => hand_error TemporarilyUnavailable false
  end.

Definition file_effect_store_error (e : FileEffectStoreError) : HandError :=
  match e with
  | FeConflict => hand_error BindingConflict false
  | FeAmbiguous => hand_error OperationUnknown false
  | FeCapacity => hand_error ResourceExhausted false
  | FeInvalid _ => hand_error InvalidRequest false
  | FeIo => hand_error TemporarilyUnavailable true
  | FeCorrupt _ => hand_error CapabilityUnavailable false
  end.

(** [file_error] of hand/files.rs. *)
Definition file_error (e : LiveFileError) : HandError :=
  hand_error
    match e with
    | NotFound => FileNotFound
    | TooLarge | SearchBoundExceeded => ResourceExhausted
    | Io => TemporarilyUnavailable
    | _ => InvalidRequest
    end (bool_decide (e = Io)).

(** ** Diagnostic text *)
Definition is_char_boundary (value : list Ascii.ascii) (i : nat) : bool :=
  match i with
  | O => true
  | _ => match value !! i with
         | None => Nat.eqb i (length value)
         | Some c => negb (is_continuation (byte_val c))
         end
  end.

(** The loop that steps back from [max_bytes] to a boundary. *)
Fixpoint back_to_boundary (value : list Ascii.ascii) (boundary : nat) : nat :=
  if is_char_boundary value boundary then boundary
  else match boundary with O => O | S b => back_to_boundary value b end.

Definition truncate_utf8 (value : list Ascii.ascii) (max_bytes : nat) : list Ascii.ascii :=
  if Nat.leb (length value) max_bytes then value else take (back_to_boundary value max_bytes) value.

(** ** Bounds (config.rs); [MAX_TOOL_TERMINAL_INLINE_BYTES] is Brain's. *)
Definition MAX_CONCURRENT_OPERATIONS : Z := 64.
Definition MAX_RETAINED_OPERATIONS : Z := 1024.
Definition MAX_RETAINED_STDIN_WRITES : Z := 4096.
Definition MAX_RETAINED_TERMINAL_BYTES : Z := 64 * 1024 * 1024.
Definition MAX_WAIT_MS : Z := 30000.
Definition MAX_STDIN_REPLAY_WAIT_MS : Z := 2000.
Definition MAX_TARGET_LIFETIME_MS : Z := 8 * 60 * 60 * 1000.
Definition MAX_OPERATION_TIMEOUT_MS : Z := MAX_TARGET_LIFETIME_MS.
Definition MAX_PREPARED_BINDINGS : Z := 4096.
Definition MANAGED_BINDING_UID_MIN : Z := 65536.
Definition MANAGED_BINDING_UID_SPAN : Z := 2000000000 - MANAGED_BINDING_UID_MIN.

Record ToolIdentity := mkToolIdentity { uid : Z; gid : Z; supervisor_uid : Z }.

#[global] Instance ToolIdentity_eq_dec : EqDecision ToolIdentity.
Proof. solve_decision. Defined.

(** The boundary library of an enforced sandbox is a path. *)
Inductive Sandboxing := Enforced (identity : ToolIdentity) (boundary_library : string) | Unenforced.

Definition sandboxing_identity (s : Sandboxing) : option ToolIdentity :=
  match s with Enforced identity _ => Some identity | Unenforced => None end.
Definition boundary_library (s : Sandboxing) : option string :=
  match s with Enforced _ library => Some library | Unenforced => None end.

(** [Config::validate]: [is_file] and [euid] are what the process sees. *)
Definition validate_config (is_file : string -> bool) (euid : Z) (s : Sandboxing) : bool :=
  match s with
  | Unenforced => true
  | Enforced identity library =>
      negb (supervisor_uid identity =? uid identity)
      && negb (uid identity =? 0)
      && ((uid identity <? MANAGED_BINDING_UID_MIN) && (supervisor_uid identity <? MANAGED_BINDING_UID_MIN))
      && is_file library
      && (euid =? supervisor_uid identity)
  end.

(** ** Lemmas *)
Lemma back_to_boundary_spec value n :
  (back_to_boundary value n <= n)%nat /\ is_char_boundary value (back_to_boundary value n) = true.
Proof.
  induction n as [|n [IH1 IH2]]; cbn [back_to_boundary]; [by destruct (is_char_boundary value 0)|].
  destruct (is_char_boundary value (S n)) eqn:E; [done|]. split; [lia | done].
Qed.

(** The text is cut to the bound, and only before the first byte of a character. *)
Lemma truncate_utf8_spec value max_bytes :
  (length (truncate_utf8 value max_bytes) <= max_bytes)%nat
  /\ exists rest, value = truncate_utf8 value max_bytes ++ rest
       /\ match rest with c :: _ => truncate_utf8 value max_bytes = [] \/ is_continuation (byte_val c) = false | [] => True end.
Proof.
  unfold truncate_utf8. destruct (Nat.leb_spec (length value) max_bytes) as [Hle|Hgt].
  { split; [done|]. exists []. by rewrite app_nil_r. }
  destruct (back_to_boundary_spec value max_bytes) as [Hle Hb]. set (k := back_to_boundary value max_bytes) in *.
  rewrite length_take. split; [lia|]. exists (drop k value). split; [by rewrite take_drop|].
  destruct (drop k value) as [|c rest] eqn:Hd; [done|].
  assert (Hk : value !! k = Some c) by (rewrite <- (Nat.add_0_r k), <- lookup_drop, Hd; done).
  destruct k as [|k]; [by left|]. right. cbn in Hb. rewrite Hk in Hb. by apply negb_true_iff.
Qed.
