(* ===== verification/GuestTarget.v ===== *)
(** * hand-guest: the armed physical generation

    Models crates/hand-guest/src/hand/target.rs, the request checks of crates/hand-guest/src/hand/receipts.rs
    and the run hook of crates/hand-guest/src/hooks.rs: a guest process is armed once with one immutable seal,
    and every later request is fenced by its root, its generation and its deadline. The wall clock is an
    argument; Brain's contract digest, identifier grammar and canonical JSON, and SHA-256, are parameters. *)
From S2P Require Import Prelude Policy Connector Operation GuestErrors.

(** ** Brain's ceilings, as far as the guest reads them *)
Record ResourceCeiling := mkResourceCeiling { rc_timeout_ms : Z; rc_max_output_bytes : Z }.
Inductive NetworkCeiling {A : Type} := NetNone | NetPublic | NetAllowlist (destinations : A).
Arguments NetworkCeiling : clear implicits.

Record AllowlistProxy := mkAllowlistProxy { authority : string; capability : string }.

Section target.
Context {Allow : Type}.

Record RunPayload := mkRunPayload {
  pay_contract_digest : string; pay_generation : string; pay_expires_at_ms : Z; pay_root_id : string;
  pay_owner_session_id : string; pay_connector : ConnectorClass; pay_resource_class : string;
  pay_resources : ResourceCeiling; pay_network : NetworkCeiling Allow; pay_control_token : ControlToken;
  pay_allowlist_proxy : option AllowlistProxy; pay_canary : option string }.

Record ArmedTarget := mkArmedTarget {
  at_target_ref : string; at_generation : string; at_expires_at_ms : Z; at_root_id : string;
  at_owner_session_id : string; at_connector : ConnectorClass; at_resource_class : string;
  at_resources : ResourceCeiling; at_network : NetworkCeiling Allow; at_control_token : ControlToken;
  at_proxy_environment : gmap string string; at_canary : option string }.

Record TargetSnapshot := mkTargetSnapshot {
  ts_target_ref : string; ts_generation : string; ts_expires_at_ms : Z; ts_root_id : string;
  ts_resources : ResourceCeiling; ts_network : NetworkCeiling Allow; ts_proxy_environment : gmap string string }.

Record TargetRuntimeStatus := mkTargetRuntimeStatus {
  st_target_ref : string; st_generation : string; st_root_id : string; st_owner_session_id : string;
  st_connector : ConnectorClass; st_resource_class : string; st_armed : bool }.

Definition snapshot (t : ArmedTarget) : TargetSnapshot :=
  mkTargetSnapshot (at_target_ref t) (at_generation t) (at_expires_at_ms t) (at_root_id t)
    (at_resources t) (at_network t) (at_proxy_environment t).

(** ** Pure request checks (receipts.rs) *)
Definition canonical_equal {T : Type} (jcs : T -> option (list Ascii.ascii)) (left right : T) : result HandError bool :=
  left ← ok_or invalid (jcs left);
  right ← ok_or invalid (jcs right);
  Ok (bool_decide (left = right)).

Definition validate_wait (wait_ms : Z) : result HandError unit :=
  if MAX_WAIT_MS <? wait_ms then Err invalid else Ok tt.

Definition validate_connector (connector : ConnectorClass) (network : NetworkCeiling Allow) (has_proxy : bool)
    : result HandError unit :=
  match connector, network, has_proxy with
  | ConnNone, NetNone, false | ConnPublic, NetPublic, false | ConnAllowlist, NetAllowlist _, true => Ok tt
  | _, _, _ => Err invalid
  end.

(** [max_output] is the bound config.rs takes from Brain. *)
Definition validate_resource_subset (max_output : Z) (request physical : ResourceCeiling) : result HandError unit :=
  _ ← map_err (fun _ => invalid)
        (ResourceSupport_validate
           (mkResourceSupport (Z.min (rc_timeout_ms physical) MAX_OPERATION_TIMEOUT_MS)
                              (Z.min (rc_max_output_bytes physical) max_output))
           (mkResourceRequest (rc_timeout_ms request) (rc_max_output_bytes request)));
  if (rc_timeout_ms request <=? rc_timeout_ms physical) && (rc_max_output_bytes request <=? rc_max_output_bytes physical)
  then Ok tt else Err invalid.

(** ** Arming and fencing (target.rs) *)
Context (HAND_CONTRACT_DIGEST : string) (identifier_parses : string -> bool) (sha256 : string -> list Z).
Context (jcs_resources : ResourceCeiling -> option (list Ascii.ascii)).
Context (jcs_network : NetworkCeiling Allow -> option (list Ascii.ascii)).

Notation Arm := (M (option ArmedTarget) HandError).

Definition armed (s : option ArmedTarget) : bool := match s with Some _ => true | None => false end.

Definition control_authorized (candidate : option string) (s : option ArmedTarget) : bool :=
  match candidate, s with
  | Some candidate, Some target =>
      let expected := ct_expose (at_control_token target) in
      let difference := fold_left (fun difference '(e, c) => Z.lor difference (Z.lxor e c))
                          (combine (sha256 expected) (sha256 candidate)) 0 in
      (difference =? 0) && (str_len candidate =? str_len expected)
  | _, _ => false
  end.

Definition proxy_environment (proxy : option AllowlistProxy) : gmap string string :=
  match proxy with
  | Some proxy =>
      let proxy_url := "http://aex:" +:+ capability proxy +:+ "@" +:+ authority proxy in
      <["HTTPS_PROXY" := proxy_url]> (<["https_proxy" := proxy_url]> ∅)
  | None => ∅
  end.

Definition candidate_target (target_ref : string) (p : RunPayload) : ArmedTarget :=
  mkArmedTarget target_ref (pay_generation p) (pay_expires_at_ms p) (pay_root_id p) (pay_owner_session_id p)
    (pay_connector p) (pay_resource_class p) (pay_resources p) (pay_network p) (pay_control_token p)
    (proxy_environment (pay_allowlist_proxy p)) (pay_canary p).

(** The conjunction short-circuits, so a canonicalization is attempted only after the fields before it agree. *)
Definition exact_seal (existing candidate : ArmedTarget) : result HandError bool :=
  if negb (str_eqb (at_target_ref existing) (at_target_ref candidate)
           && str_eqb (at_generation existing) (at_generation candidate)
           && (at_expires_at_ms existing =? at_expires_at_ms candidate)
           && str_eqb (at_root_id existing) (at_root_id candidate)
           && str_eqb (at_owner_session_id existing) (at_owner_session_id candidate)
           && bool_decide (at_connector existing = at_connector candidate)
           && str_eqb (at_resource_class existing) (at_resource_class candidate))
  then Ok false
  else
    resources ← canonical_equal jcs_resources (at_resources existing) (at_resources candidate);
    if negb resources then Ok false
    else
      network ← canonical_equal jcs_network (at_network existing) (at_network candidate);
      Ok (network && bool_decide (at_control_token existing = at_control_token candidate)
            && bool_decide (at_canary existing = at_canary candidate)).

Definition canary_ok (canary : option string) : bool :=
  match canary with
  | Some id => starts_with "image-canary-" id && identifier_parses id
  | None => true
  end.

Definition arm (now : Z) (target_ref : string) (p : RunPayload) : Arm bool :=
  if negb (str_eqb (pay_contract_digest p) (trim HAND_CONTRACT_DIGEST)) then throw invalid
  else if (pay_expires_at_ms p <=? now) || (saturating_add now MAX_TARGET_LIFETIME_MS <? pay_expires_at_ms p)
  then throw invalid
  else
    _ ← lift (validate_connector (pay_connector p) (pay_network p) (match pay_allowlist_proxy p with Some _ => true | None => false end));
    if negb (canary_ok (pay_canary p)) then throw invalid
    else
      let candidate := candidate_target target_ref p in
      target ← get;
      match target with
      | Some existing =>
          exact ← lift (exact_seal existing candidate);
          if exact : bool then mret true else throw generation_conflict
      | None =>
          _ ← put (Some candidate);
          mret false
      end.

Definition runtime_status (s : option ArmedTarget) : option TargetRuntimeStatus :=
  t ← s;
  Some (mkTargetRuntimeStatus (at_target_ref t) (at_generation t) (at_root_id t) (at_owner_session_id t)
          (at_connector t) (at_resource_class t) true).

Definition should_exit_after_canary_receipt (operation_id : string) (s : option ArmedTarget) : bool :=
  bool_decide ((s ≫= at_canary) = Some operation_id).

Definition require_target (now : Z) (s : option ArmedTarget) : result HandError TargetSnapshot :=
  target ← ok_or (hand_error SandboxNotMaterialized false) (snapshot <$> s);
  if ts_expires_at_ms target <=? now then Err (hand_error SandboxGone false) else Ok target.

Definition fence (now : Z) (root_id generation : string) (s : option ArmedTarget) : result HandError TargetSnapshot :=
  physical ← require_target now s;
  if negb (str_eqb root_id (ts_root_id physical)) || negb (str_eqb generation (ts_generation physical))
  then Err generation_conflict
  else Ok physical.

(** ** The run hook (hooks.rs): the envelope and its payload have been parsed, or have not *)
Definition run_hook (now : Z) (envelope : option (option string * option RunPayload)) (s : option ArmedTarget)
    : Z * option ArmedTarget :=
  match envelope with
  | None => (400, s)
  | Some (_, None) => (400, s)
  | Some (None, Some _) => (400, s)
  | Some (Some target_ref, Some payload) =>
      match arm now target_ref payload s with
      | (Ok _, s') => (200, s')
      | (Err _, s') => (409, s')
      end
  end.
End target.

(** ** Properties *)
Section facts.
Context {Allow : Type}.
Context (HAND_CONTRACT_DIGEST : string) (identifier_parses : string -> bool) (sha256 : string -> list Z).
Context (jcs_resources : ResourceCeiling -> option (list Ascii.ascii)).
Context (jcs_network : NetworkCeiling Allow -> option (list Ascii.ascii)).

Local Notation RunPayload := (@RunPayload Allow).
Local Notation ArmedTarget := (@ArmedTarget Allow).

(** What an exact retry repeats: everything but the proxy grant, which is bearer material. *)
Definition same_seal (a b : ArmedTarget) : Prop :=
  at_target_ref a = at_target_ref b /\ at_generation a = at_generation b /\ at_expires_at_ms a = at_expires_at_ms b
  /\ at_root_id a = at_root_id b /\ at_owner_session_id a = at_owner_session_id b /\ at_connector a = at_connector b
  /\ at_resource_class a = at_resource_class b /\ at_resources a = at_resources b /\ at_network a = at_network b
  /\ at_control_token a = at_control_token b /\ at_canary a = at_canary b.

(** A canonical form determines its value. *)
Definition jcs_injective {T : Type} (jcs : T -> option (list Ascii.ascii)) : Prop :=
  forall a b l, jcs a = Some l -> jcs b = Some l -> a = b.

Lemma canonical_equal_true {T : Type} (jcs : T -> option (list Ascii.ascii)) a b :
  jcs_injective jcs -> canonical_equal jcs a b = Ok true -> a = b.
Proof.
  intros Hi. unfold canonical_equal. intros [l [Hl H]]%result_bind_Ok. apply result_bind_Ok in H as [r [Hr H]].
  apply ok_or_Ok in Hl, Hr. injection H as Hb. apply bool_decide_eq_true in Hb as ->. by eapply Hi.
Qed.

Lemma exact_seal_true a b :
  jcs_injective jcs_resources -> jcs_injective jcs_network ->
  exact_seal jcs_resources jcs_network a b = Ok true -> same_seal a b.
Proof.
  intros Hr Hn. unfold exact_seal. destruct (negb _) eqn:E; [done|]. bool_hyps.
  intros [r [Hres Hrest]]%result_bind_Ok. destruct r; [|done]. cbn [negb] in Hrest.
  apply result_bind_Ok in Hrest as [n [Hnet Hb]]. injection Hb as Hb. bool_hyps. subst n.
  apply canonical_equal_true in Hres, Hnet; try done.
Qed.

(** The connector of an armed generation agrees with its network seal and with its proxy grant. *)
Definition connector_fits (t : ArmedTarget) : Prop :=
  match at_connector t, at_network t with
  | ConnNone, NetNone | ConnPublic, NetPublic => at_proxy_environment t = ∅
  | ConnAllowlist, NetAllowlist _ => exists url, at_proxy_environment t !! "HTTPS_PROXY" = Some url
  | _, _ => False
  end.

Lemma validate_connector_fits target_ref (p : RunPayload) :
  validate_connector (pay_connector p) (pay_network p) (match pay_allowlist_proxy p with Some _ => true | None => false end) = Ok tt ->
  connector_fits (candidate_target target_ref p).
Proof.
  unfold connector_fits, candidate_target, proxy_environment. cbn.
  destruct (pay_connector p), (pay_network p), (pay_allowlist_proxy p); try done. intros _.
  eexists. apply lookup_insert_eq.
Qed.

Definition arm_call (call : Z * string * RunPayload) : M (option ArmedTarget) HandError bool :=
  let '(now, target_ref, p) := call in
  arm HAND_CONTRACT_DIGEST identifier_parses jcs_resources jcs_network now target_ref p.

Fixpoint run_arms (calls : list (Z * string * RunPayload)) (s : option ArmedTarget)
    : list (result HandError bool) * option ArmedTarget :=
  match calls with
  | [] => ([], s)
  | c :: calls =>
      let '(r, s1) := arm_call c s in
      let '(rs, s2) := run_arms calls s1 in (r :: rs, s2)
  end.

Definition call_candidate (call : Z * string * RunPayload) : ArmedTarget :=
  let '(_, target_ref, p) := call in candidate_target target_ref p.

(** An accepted seal: within the lifetime bound at the moment of arming, with a matching connector. *)
Definition admissible (call : Z * string * RunPayload) : Prop :=
  let '(now, _, p) := call in
  now < pay_expires_at_ms p <= now + MAX_TARGET_LIFETIME_MS /\ connector_fits (call_candidate call).

Lemma arm_unarmed call r s :
  arm_call call None = (r, s) ->
  (r = Ok false /\ s = Some (call_candidate call) /\ admissible call) \/ (is_err r = true /\ s = None).
Proof.
  destruct call as [[now target_ref] p]. unfold arm_call, arm, call_candidate, admissible.
  destruct (negb (str_eqb _ _)); [intros [= <- <-]; by right|].
  destruct ((_ <=? _) || _) eqn:Ht; [intros [= <- <-]; by right|].
  rewrite M_bind_run, lift_run. destruct (validate_connector _ _ _) as [[]|] eqn:Hc; [|intros [= <- <-]; by right].
  destruct (negb (canary_ok _ _)); [intros [= <- <-]; by right|]. cbv zeta.
  rewrite M_bind_run, get_run. intros [= <- <-]. left. bool_hyps. unfold saturating_add in *.
  split; [done|]. split; [done|]. split; [lia|]. by apply validate_connector_fits.
Qed.

Lemma arm_armed call t r s :
  jcs_injective jcs_resources -> jcs_injective jcs_network ->
  arm_call call (Some t) = (r, s) ->
  s = Some t /\ (is_err r = true \/ r = Ok true /\ same_seal t (call_candidate call)).
Proof.
  intros Hjr Hjn. destruct call as [[now target_ref] p]. unfold arm_call, arm, call_candidate.
  destruct (negb (str_eqb _ _)); [intros [= <- <-]; by auto|].
  destruct ((_ <=? _) || _); [intros [= <- <-]; by auto|].
  rewrite M_bind_run, lift_run. destruct (validate_connector _ _ _); [|intros [= <- <-]; by auto].
  destruct (negb (canary_ok _ _)); [intros [= <- <-]; by auto|]. cbv zeta.
  rewrite M_bind_run, get_run, M_bind_run, lift_run.
  destruct (exact_seal _ _ _ _) as [[]|] eqn:He; intros [= <- <-]; split; auto.
  right. split; [done|]. by apply exact_seal_true.
Qed.

Lemma run_arms_armed calls t rs s :
  jcs_injective jcs_resources -> jcs_injective jcs_network ->
  run_arms calls (Some t) = (rs, s) ->
  s = Some t /\ Forall2 (fun c r => is_err r = true \/ r = Ok true /\ same_seal t (call_candidate c)) calls rs.
Proof.
  intros Hjr Hjn. revert rs. induction calls as [|c calls IH]; intros rs; cbn; [by intros [= <- <-]|].
  destruct (arm_call c (Some t)) as [r s1] eqn:Ha. apply arm_armed in Ha as [-> Hr]; [|done..].
  destruct (run_arms calls (Some t)) as [rs' s2] eqn:Hrun. intros [= <- ->].
  destruct (IH _ eq_refl) as [Hs Hall]. auto.
Qed.

Lemma fence_exact now root generation s snap :
  fence now root generation s = Ok snap <->
  exists t, s = Some t /\ snap = @snapshot Allow t /\ root = at_root_id t /\ generation = at_generation t
    /\ now < at_expires_at_ms t.
Proof.
  unfold fence, require_target. destruct s as [t|]; cbn; [|split; [done | by intros (? & ? & _)]].
  destruct (Z.leb_spec (at_expires_at_ms t) now) as [Hle|Hlt]; cbn.
  { split; [done|]. intros (t' & [= <-] & _ & _ & _ & H). lia. }
  destruct (str_eqb_spec root (at_root_id t)), (str_eqb_spec generation (at_generation t)); cbn; split;
    try (intros [= <-]; by eauto 10); try done; intros (t' & [= <-] & -> & ? & ? & _); done.
Qed.

(** Two byte strings of one length differ in some bit exactly when they differ. *)

Lemma difference_zero (a b : list Z) acc :
  length a = length b ->
  (fold_left (fun difference '(e, c) => Z.lor difference (Z.lxor e c)) (combine a b) acc = 0 <-> acc = 0 /\ a = b).
Proof.
  revert b acc. induction a as [|x a IH]; intros [|y b] acc Hl; try done; cbn; [naive_solver|].
  injection Hl as Hl. rewrite IH by done. rewrite Z.lor_eq_0_iff, Z.lxor_eq_0_iff. naive_solver.
Qed.

(** The comparison of digests accepts the token and nothing else that does not collide with it. *)
Lemma control_authorized_exact candidate s :
  (forall a b, length (sha256 a) = length (sha256 b)) ->
  (forall t, s = Some t -> sha256 (ct_expose (at_control_token t)) = sha256 candidate ->
     candidate = ct_expose (at_control_token t)) ->
  (control_authorized sha256 (Some candidate) s = true
   <-> exists t : ArmedTarget, s = Some t /\ candidate = ct_expose (at_control_token t)).
Proof.
  intros Hlen Hsha. unfold control_authorized. destruct s as [t|]; [|split; [done | by intros (? & ? & _)]].
  rewrite andb_true_iff, !Z.eqb_eq, difference_zero by apply Hlen. split.
  - intros [[_ Hd] _]. exists t. split; [done|]. by apply Hsha.
  - intros (t' & [= <-] & ->). done.
Qed.

(** C21: a guest process is armed at most once, by the first acceptable run payload, with a deadline at most
    eight hours away and a connector that matches its network seal; afterwards the seal never changes, an arm
    that is answered repeats it exactly, and any other is refused. A request passes the fence exactly when it
    names the armed root and generation before the deadline, and the control endpoint accepts exactly the
    armed token. *)
Theorem generation_is_armed_once_and_fenced calls rs s :
  jcs_injective jcs_resources -> jcs_injective jcs_network -> (forall a b, length (sha256 a) = length (sha256 b)) ->
  run_arms calls None = (rs, s) ->
  (match s with
   | None => Forall (fun r => is_err r = true) rs
   | Some t => exists refused call later rs1 rs2,
       calls = refused ++ call :: later /\ t = call_candidate call /\ admissible call
       /\ rs = rs1 ++ Ok false :: rs2 /\ length rs1 = length refused /\ Forall (fun r => is_err r = true) rs1
       /\ Forall2 (fun c r => is_err r = true \/ r = Ok true /\ same_seal t (call_candidate c)) later rs2
   end)
  /\ (forall now root generation snap, fence now root generation s = Ok snap <->
       exists t, s = Some t /\ snap = snapshot t /\ root = at_root_id t /\ generation = at_generation t
         /\ now < at_expires_at_ms t)
  /\ (forall candidate,
       (forall t, s = Some t -> sha256 (ct_expose (at_control_token t)) = sha256 candidate ->
          candidate = ct_expose (at_control_token t)) ->
       (control_authorized sha256 (Some candidate) s = true
        <-> exists t, s = Some t /\ candidate = ct_expose (at_control_token t))).
Proof.
  intros Hjr Hjn Hlen Hrun. split; [|split; [intros; apply fence_exact | intros; by apply control_authorized_exact]].
  revert rs Hrun. induction calls as [|c calls IH]; intros rs; cbn; [by intros [= <- <-]|].
  destruct (arm_call c None) as [r s1] eqn:Ha. destruct (run_arms calls s1) as [rs' s2] eqn:Hrun. intros [= <- ->].
  apply arm_unarmed in Ha as [(-> & -> & Hadm) | [Hr ->]].
  - apply run_arms_armed in Hrun as [-> Hall]; [|done..]. exists [], c, calls, [], rs'. auto 10.
  - specialize (IH rs' Hrun). destruct s as [t|]; [|by constructor].
    destruct IH as (refused & call & later & rs1 & rs2 & -> & ? & ? & -> & ? & ? & ?).
    exists (c :: refused), call, later, (r :: rs1), rs2. cbn. repeat split; auto.
Qed.
End facts.

(** ** Example: one refused arm, the arm, an exact retry and a conflicting one *)
Definition sample_payload (generation : string) : RunPayload (Allow := unit) :=
  mkRunPayload "digest" generation 2000 "root-1" "session-1" ConnPublic "small" (mkResourceCeiling 10 10) NetPublic
    (mkControlToken "control-a") None None.
Fixpoint sample_digits (p : positive) : list Ascii.ascii :=
  match p with xH => [] | xO p => "0"%char :: sample_digits p | xI p => "1"%char :: sample_digits p end.
Definition sample_jcs_resources (r : ResourceCeiling) : option (list Ascii.ascii) :=
  Some (sample_digits (encode (rc_timeout_ms r, rc_max_output_bytes r))).
Definition sample_jcs_network (n : NetworkCeiling unit) : option (list Ascii.ascii) :=
  Some (match n with NetNone => [] | NetPublic => ["p"%char] | NetAllowlist _ => ["a"%char] end).

Lemma sample_digits_inj p q : sample_digits p = sample_digits q -> p = q.
Proof. revert q. induction p as [p IH|p IH|]; intros [q|q|]; cbn; try done; intros [= H]; by rewrite (IH q H). Qed.

Lemma sample_jcs_resources_injective : jcs_injective sample_jcs_resources.
Proof.
  intros [t1 m1] [t2 m2] l. unfold sample_jcs_resources. intros [= <-] [= H]. apply sample_digits_inj in H.
  apply (inj encode) in H. cbn in H. congruence.
Qed.

Lemma sample_jcs_network_injective : jcs_injective sample_jcs_network.
Proof. intros [| |[]] [| |[]] l; unfold sample_jcs_network; intros [= <-]; by intros [=]. Qed.

Definition sample_calls : list (Z * string * RunPayload) :=
  [(5000, "vm-1", sample_payload "gen-1"); (1000, "vm-1", sample_payload "gen-1"); (1100, "vm-1", sample_payload "gen-1");
   (1200, "vm-1", sample_payload "gen-2")].

Definition sample_arms := run_arms "digest" (fun _ => true) sample_jcs_resources sample_jcs_network sample_calls None.

Lemma generation_is_armed_once_and_fenced_witness :
  sample_arms.1 = [Err invalid; Ok false; Ok true; Err generation_conflict]
  /\ (forall now root generation snap, fence now root generation sample_arms.2 = Ok snap <->
       exists t, sample_arms.2 = Some t /\ snap = snapshot t /\ root = at_root_id t /\ generation = at_generation t
         /\ now < at_expires_at_ms t).
Proof.
  split; [vm_compute; reflexivity|].
  apply (proj1 (proj2 (generation_is_armed_once_and_fenced "digest" (fun _ => true) (fun s => [str_len s])
    sample_jcs_resources sample_jcs_network sample_calls sample_arms.1 sample_arms.2
    sample_jcs_resources_injective sample_jcs_network_injective (fun _ _ => eq_refl) (surjective_pairing sample_arms)))).
Defined.
