(* ===== verification/GuestFiles.v ===== *)
(** * hand-guest: file requests and two-phase file effects

    Models crates/hand-guest/src/hand/files.rs: every file request is fenced by the armed generation and served
    by the live-file operations; a write is an effect that is claimed in the durable effect log before the
    workspace is touched and completed there after. The shard locks serialize the requests of one operation,
    so a request is a function of the effect store and the disk. Base64 and Brain's grammars are parameters. *)
From S2P Require Import Prelude Policy Page Wire LiveFiles LiveWrite AppendLog FileEffects GuestErrors GuestTarget.

Definition FILE_EFFECT_LOCK_SHARDS : Z := 64.
Definition MAX_INLINE_WRITE_BYTES : Z := 1024 * 1024.

Inductive FileEntryKind := EntryFile | EntryDirectory | EntrySymlink.
Record FileEntry := mkFileEntry {
  fe_entry_bytes : Z; fe_entry_kind : FileEntryKind; fe_entry_modified_at_ms : Z; fe_entry_path : string;
  fe_entry_sha256 : option string }.

(** What Brain's write and copy results carry besides the identity: the entry. *)
Notation FileResult := (FileEffectStoredResult FileEntry FileEntry).

Inductive GuestFileWriteSource := Inline (content_base64 : string) | InstalledObject (bytes : Z) (sha256 : string).

Record GuestFileWriteRequest := mkGuestFileWriteRequest {
  gw_effect : FileEffectIdentity; gw_expected_generation : string; gw_overwrite : bool; gw_path : string;
  gw_source : GuestFileWriteSource; gw_root_id : string }.

Section guest_files.
Context {Allow : Type}.
Context (path_parses digest_parses identifier_parses : string -> bool) (hash64 : string -> Z).
Context (base64_decode : string -> option (list Ascii.ascii)) (base64_encode : list Ascii.ascii -> string).
Context (to_string_lossy : string -> string) (sha256_hex : list Ascii.ascii -> string).

Definition file_effect_lock_index (operation_id : string) : Z := hash64 operation_id mod FILE_EFFECT_LOCK_SHARDS.

Definition file_effect_result_identity (result : FileResult) : FileEffectIdentity :=
  match result with
  | StoredWrite r => mkFileEffectIdentity Write (res_operation_id r) (res_request_digest r)
  | StoredCopy r => mkFileEffectIdentity CopyExport (res_operation_id r) (res_request_digest r)
  end.

Definition file_entry (entry : LiveFileEntry) : result HandError FileEntry :=
  let kind := match le_kind entry with File => EntryFile | Directory => EntryDirectory | Symlink => EntrySymlink end in
  if negb (path_parses (le_path entry)) then Err invalid
  else match le_sha256 entry with
       | Some digest =>
           if digest_parses digest then Ok (mkFileEntry (le_bytes entry) kind (le_modified_at_ms entry) (le_path entry) (Some digest))
           else Err invalid
       | None => Ok (mkFileEntry (le_bytes entry) kind (le_modified_at_ms entry) (le_path entry) None)
       end.

(** ** Reads *)
Record SandboxFileList := mkSandboxFileList { sl_entries : list FileEntry; sl_next_cursor : option string }.

Definition file_list (page : option (Page LiveFileEntry)) : result HandError (option SandboxFileList) :=
  match page with
  | None => Ok None
  | Some page =>
      entries ← mapM_result file_entry (items page);
      Ok (Some (mkSandboxFileList entries (next_cursor page)))
  end.

Definition list_files (fs : Fs) (now : Z) (target : option (@ArmedTarget Allow)) (root generation path : string)
    (cursor : option string) (limit : Z) : result HandError (option SandboxFileList) :=
  _ ← fence now root generation target;
  page ← map_err file_error (list_directory to_string_lossy fs path cursor limit);
  file_list page.

Definition stat_file (fs : Fs) (now : Z) (target : option (@ArmedTarget Allow)) (root generation path : string)
    : result HandError FileEntry :=
  _ ← fence now root generation target;
  entry ← map_err file_error (stat fs path);
  file_entry entry.

Definition read_file (fs : Fs) (now : Z) (target : option (@ArmedTarget Allow)) (root generation path : string)
    : result HandError (FileEntry * string) :=
  _ ← fence now root generation target;
  content ← map_err file_error (read sha256_hex fs path MAX_INLINE_FILE_BYTES);
  entry ← file_entry (lc_entry content);
  Ok (entry, base64_encode (lc_bytes content)).

Definition find_files (fs : Fs) (glob : string -> option (RelPath -> bool)) (now : Z) (target : option (@ArmedTarget Allow))
    (root generation path expression : string) (cursor : option string) (limit : Z)
    : result HandError (option SandboxFileList) :=
  _ ← fence now root generation target;
  page ← map_err file_error (find to_string_lossy fs glob path expression cursor limit);
  file_list (mjoin page).

Definition grep_files (fs : Fs) (regex : string -> option (list Ascii.ascii -> bool)) (now : Z)
    (target : option (@ArmedTarget Allow)) (root generation path expression : string) (cursor : option string) (limit : Z)
    : result HandError (option SandboxFileList) :=
  _ ← fence now root generation target;
  page ← map_err file_error (grep to_string_lossy fs regex path expression cursor limit);
  file_list (mjoin page).

(** ** Effects *)
Record FileState := mkFileState { fs_store : @FileEffectStore FileEntry FileEntry; fs_disk : Disk }.
Notation FileM := (M FileState HandError).

Context (effect_identifier_parses effect_digest_parses : string -> bool).
Context (jcs_result : FileResult -> option (list Ascii.ascii)).
Context (event_to_json : @EffectEvent FileEntry FileEntry -> option (list Ascii.ascii)).
Context (view : Disk -> Fs) (resolve : RelPath -> RelPath).

Definition on_store {A} (m : M FileEffectStore FileEffectStoreError A) : FileM A :=
  fun s => let '(r, st) := m (fs_store s) in (map_err file_effect_store_error r, mkFileState st (fs_disk s)).
Definition on_disk {A} (m : M Disk LiveFileError A) : FileM A :=
  fun s => let '(r, d) := m (fs_disk s) in (map_err file_error r, mkFileState (fs_store s) d).

Definition reserve_file_effect (io : IoOracle) (identity : FileEffectIdentity) : FileM EffectReservation :=
  on_store (fe_reserve effect_identifier_parses effect_digest_parses event_to_json io identity).
Definition claim_file_effect (io : IoOracle) (identity : FileEffectIdentity) : FileM EffectReservation :=
  on_store (fe_claim effect_identifier_parses effect_digest_parses io identity).
Definition complete_file_effect_inner (io : IoOracle) (identity : FileEffectIdentity) (result : FileResult) : FileM FileResult :=
  on_store (fe_complete effect_identifier_parses effect_digest_parses jcs_result event_to_json io identity result).
Definition complete_file_effect (io : IoOracle) (result : FileResult) : FileM FileResult :=
  complete_file_effect_inner io (file_effect_result_identity result) result.

(** The workspace mutation; [object] is the staged object's file, when it is one. *)
Definition mutate (io : WriteIo) (pid nanos : Z) (object : option (result IoKind (list Ascii.ascii)))
    (request : GuestFileWriteRequest) : FileM LiveFileEntry :=
  match gw_source request with
  | Inline content_base64 =>
      match base64_decode content_base64 with
      | None => throw invalid
      | Some bytes =>
          if MAX_INLINE_WRITE_BYTES <? len bytes then throw invalid
          else on_disk (write sha256_hex view resolve io pid nanos (gw_path request) bytes (gw_overwrite request))
      end
  | InstalledObject bytes sha256 =>
      match object with
      | None => throw invalid
      | Some source =>
          on_disk (write_from_file view resolve io pid nanos (gw_path request) source bytes sha256 (gw_overwrite request))
      end
  end.

Definition effect_result (effect : FileEffectIdentity) (file : FileEntry) : option FileResult :=
  let result := mkEffectResult (fe_operation_id effect) (fe_request_digest effect) false file in
  match fe_kind effect with
  | Write => Some (StoredWrite result)
  | CopyImport => Some (StoredCopy result)
  | CopyExport => None
  end.

Definition write_file (now : Z) (target : option (@ArmedTarget Allow)) (io_claim io_complete : IoOracle) (io : WriteIo)
    (pid nanos : Z) (object : option (result IoKind (list Ascii.ascii))) (request : GuestFileWriteRequest) : FileM FileResult :=
  _ ← lift (fence now (gw_root_id request) (gw_expected_generation request) target);
  if bool_decide (fe_kind (gw_effect request) = CopyExport) then throw invalid
  else
    reservation ← claim_file_effect io_claim (gw_effect request);
    match reservation with
    | EffectReplay result => mret result
    | EffectNew =>
        entry ← mutate io pid nanos object request;
        file ← lift (file_entry entry);
        if negb (identifier_parses (fe_operation_id (gw_effect request)) && digest_parses (fe_request_digest (gw_effect request)))
        then throw invalid
        else
          result ← lift (ok_or invalid (effect_result (gw_effect request) file));
          complete_file_effect_inner io_complete (gw_effect request) result
    end.
End guest_files.

(** ** A consumed claim stays consumed *)
Section consumed.
Context {W C : Type} (ip dp : string -> bool) (jcs : FileEffectStoredResult W C -> option (list Ascii.ascii)).
Context (to_json : @EffectEvent W C -> option (list Ascii.ascii)).

Definition consumed (id : string) (s : @FileEffectStore W C) : Prop :=
  exists r, fe_records s !! id = Some r /\ er_claim_available r = false.

Lemma consumed_records id (s s' : @FileEffectStore W C) : fe_records s' = fe_records s -> consumed id s -> consumed id s'.
Proof. intros E [r Hr]. exists r. by rewrite E. Qed.

Lemma fe_sync_records ok (s : @FileEffectStore W C) : fe_records (fe_sync ok s).2 = fe_records s.
Proof. unfold fe_sync. run_step. by destruct ok. Qed.
Lemma fe_writer_records ok (s : @FileEffectStore W C) : fe_records (fe_writer ok s).2 = fe_records s.
Proof. unfold fe_writer. rewrite M_bind_run, get_run. destruct (fe_dirty s); [apply fe_sync_records | done]. Qed.
Lemma fe_append_records io enc (s : @FileEffectStore W C) : fe_records (fe_append io enc s).2 = fe_records s.
Proof.
  unfold fe_append. rewrite M_bind_run, get_run, M_bind_run, lift_run. destruct (ok_or _ _) as [next|]; [|done].
  rewrite M_bind_run, lift_run. destruct (ok_or _ _); [|done]. destruct (_ <? _); [done|].
  rewrite M_bind_run, lift_run. destruct (ensure _ _); [|done]. destruct (AppendLog.write_file _ _ _ _) as [ok f].
  rewrite M_bind_run. by destruct ok.
Qed.

(** Rewriting a record under a key keeps another, and its own when the claim stays consumed. *)
Lemma consumed_insert id id' r (s : @FileEffectStore W C) :
  consumed id s -> (id' = id -> er_claim_available r = false) -> consumed id (set_fe_records (<[id' := r]> (fe_records s)) s).
Proof.
  intros [r0 [Hr0 Hc]] Hr. unfold consumed. cbn. destruct (decide (id' = id)) as [->|Hne].
  - exists r. rewrite lookup_insert_eq. auto.
  - exists r0. by rewrite lookup_insert_ne.
Qed.

Lemma fe_claim_consumed io i id (s : @FileEffectStore W C) :
  consumed id s -> consumed id (fe_claim ip dp io i s).2.
Proof.
  intros Hc. unfold fe_claim. rewrite M_bind_run, lift_run. destruct (fe_validate_identity _ _ i); [|done].
  rewrite M_bind_run. pose proof (fe_writer_records (io_presync io) s) as Hw.
  destruct (fe_writer _ s) as [[[]|e] s1]; cbn in Hw; [|by eapply consumed_records].
  apply (consumed_records _ _ _ Hw) in Hc. rewrite M_bind_run, get_run.
  destruct (fe_records s1 !! fe_operation_id i) as [r|]; [|done]. case_bool_decide; [|done].
  destruct (er_result r); [done|]. destruct (er_claim_available r); [|done].
  rewrite M_bind_run. cbn. by apply consumed_insert.
Qed.

Lemma fe_claim_not_new io i id (s : @FileEffectStore W C) :
  consumed id s -> fe_operation_id i = id -> (fe_claim ip dp io i s).1 <> Ok EffectNew.
Proof.
  intros [r [Hr Hc]] <-. unfold fe_claim. rewrite M_bind_run, lift_run. destruct (fe_validate_identity _ _ i); [|done].
  rewrite M_bind_run. pose proof (fe_writer_records (io_presync io) s) as Hw.
  destruct (fe_writer _ s) as [[[]|e] s1]; cbn in Hw; [|done]. rewrite M_bind_run, get_run, Hw, Hr.
  case_bool_decide; [|done]. destruct (er_result r); [done|]. by rewrite Hc.
Qed.

Lemma fe_claim_new_consumes io i (s s' : @FileEffectStore W C) :
  fe_claim ip dp io i s = (Ok EffectNew, s') -> consumed (fe_operation_id i) s'.
Proof.
  unfold fe_claim. rewrite M_bind_run, lift_run. destruct (fe_validate_identity _ _ i); [|done].
  rewrite M_bind_run. destruct (fe_writer _ s) as [[[]|e] s1]; [|done]. rewrite M_bind_run, get_run.
  destruct (fe_records s1 !! fe_operation_id i) as [r|]; [|done]. case_bool_decide; [|done].
  destruct (er_result r); [done|]. destruct (er_claim_available r); [|done].
  rewrite M_bind_run. cbn. intros [= <-]. eexists. cbn. by rewrite lookup_insert_eq.
Qed.

Lemma fe_complete_consumed io i r id (s : @FileEffectStore W C) :
  consumed id s -> consumed id (fe_complete ip dp jcs to_json io i r s).2.
Proof.
  intros Hc. unfold fe_complete. rewrite M_bind_run, lift_run. destruct (fe_validate_identity _ _ i); [|done].
  rewrite M_bind_run, lift_run. destruct (fe_validate_result i r); [|done].
  rewrite M_bind_run. pose proof (fe_writer_records (io_presync io) s) as Hw.
  destruct (fe_writer _ s) as [[[]|e] s1]; cbn in Hw; [|by eapply consumed_records].
  apply (consumed_records _ _ _ Hw) in Hc. rewrite M_bind_run, get_run.
  destruct (fe_records s1 !! fe_operation_id i) as [rec|]; [|done]. destruct (negb _); [done|].
  destruct (er_result rec).
  { rewrite M_bind_run, lift_run. destruct (canonical_bytes _ _); [|done].
    rewrite M_bind_run, lift_run. destruct (canonical_bytes _ _); [|done]. by case_bool_decide. }
  destruct (er_claim_available rec) eqn:Hrec; [done|]. rewrite M_bind_run, lift_run.
  destruct (encode_event _ _) as [enc|]; [|done]. destruct (_ <? _); [done|].
  unfold fe_commit. rewrite M_bind_run, get_run, M_bind_run, lift_run. destruct (ok_or _ _) as [left|]; [|done].
  rewrite M_bind_run. cbn [modify]. rewrite M_bind_run. unfold observed.
  pose proof (fe_append_records io enc (set_fe_reserved left s1)) as Ha.
  destruct (fe_append _ _ _) as [[[]|e] s2]; cbn in Ha; apply (consumed_records id s1 s2) in Hc; try done.
  rewrite M_bind_run. cbn [modify]. rewrite M_bind_run.
  set (s3 := set_fe_records _ s2). assert (Hc3 : consumed id s3) by (by apply consumed_insert).
  pose proof (fe_sync_records (io_sync io) s3) as Hs. destruct (fe_sync _ s3) as [[[]|e] s4]; cbn in Hs |- *; exact (consumed_records _ s3 s4 Hs Hc3).
Qed.

Lemma fe_reserve_consumed io i id (s : @FileEffectStore W C) :
  consumed id s -> consumed id (fe_reserve ip dp to_json io i s).2.
Proof.
  intros Hc. unfold fe_reserve. rewrite M_bind_run, lift_run. destruct (fe_validate_identity _ _ i); [|done].
  rewrite M_bind_run. pose proof (fe_writer_records (io_presync io) s) as Hw.
  destruct (fe_writer _ s) as [[[]|e] s1]; cbn in Hw; [|by eapply consumed_records].
  apply (consumed_records _ _ _ Hw) in Hc. rewrite M_bind_run, get_run.
  destruct (fe_records s1 !! fe_operation_id i) as [rec|] eqn:Hi.
  { case_bool_decide; [|done]. destruct (er_result rec); [done|]. by destruct (er_claim_available rec). }
  destruct (_ <=? _); [done|]. rewrite M_bind_run, lift_run. destruct (encode_event _ _) as [enc|]; [|done].
  rewrite M_bind_run, lift_run. destruct (ok_or _ _); [|done]. destruct (_ <? _); [done|].
  rewrite M_bind_run. pose proof (fe_append_records io enc s1) as Ha.
  destruct (fe_append _ _ _) as [[[]|e] s2]; cbn in Ha; pose proof (consumed_records id s1 s2 Ha Hc) as Hc2; [|done].
  rewrite M_bind_run. cbn [modify]. rewrite M_bind_run. cbn [modify]. rewrite M_bind_run.
  set (s3 := set_fe_records _ _). assert (Hc3 : consumed id s3).
  { subst s3. apply consumed_insert; [by eapply consumed_records|]. intros <-. destruct Hc as [? [Hx _]]. congruence. }
  pose proof (fe_sync_records (io_sync io) s3) as Hs. destruct (fe_sync _ s3) as [[[]|e] s4]; cbn in Hs |- *; exact (consumed_records _ s3 s4 Hs Hc3).
Qed.
End consumed.

(** ** Requests over the life of the process *)
Section requests.
Context {Allow : Type}.
Context (path_parses digest_parses identifier_parses : string -> bool).
Context (base64_decode : string -> option (list Ascii.ascii)) (sha256_hex : list Ascii.ascii -> string).
Context (effect_identifier_parses effect_digest_parses : string -> bool).
Context (jcs_result : FileResult -> option (list Ascii.ascii)).
Context (event_to_json : @EffectEvent FileEntry FileEntry -> option (list Ascii.ascii)).
Context (view : Disk -> Fs) (resolve : RelPath -> RelPath).

Record WriteCall := mkWriteCall {
  wc_now : Z; wc_target : option (@ArmedTarget Allow); wc_claim : IoOracle; wc_complete : IoOracle; wc_io : WriteIo;
  wc_pid : Z; wc_nanos : Z; wc_object : option (result IoKind (list Ascii.ascii)); wc_request : GuestFileWriteRequest }.

Inductive FileCall :=
  | FileReserve (io : IoOracle) (identity : FileEffectIdentity)
  | FileClaim (io : IoOracle) (identity : FileEffectIdentity)
  | FileComplete (io : IoOracle) (result : FileResult)
  | FileWrite (call : WriteCall).

Definition run_write (c : WriteCall) : M FileState HandError FileResult :=
  write_file path_parses digest_parses identifier_parses base64_decode sha256_hex effect_identifier_parses
    effect_digest_parses jcs_result event_to_json view resolve (wc_now c) (wc_target c) (wc_claim c) (wc_complete c)
    (wc_io c) (wc_pid c) (wc_nanos c) (wc_object c) (wc_request c).

Definition run_file_call (c : FileCall) (s : FileState) : FileState :=
  match c with
  | FileReserve io i => (reserve_file_effect effect_identifier_parses effect_digest_parses event_to_json io i s).2
  | FileClaim io i => (claim_file_effect effect_identifier_parses effect_digest_parses io i s).2
  | FileComplete io r =>
      (complete_file_effect effect_identifier_parses effect_digest_parses jcs_result event_to_json io r s).2
  | FileWrite c => (run_write c s).2
  end.

Definition wc_id (c : WriteCall) : string := fe_operation_id (gw_effect (wc_request c)).

Lemma mutate_store io pid nanos object request s :
  fs_store (mutate base64_decode sha256_hex view resolve io pid nanos object request s).2 = fs_store s.
Proof.
  unfold mutate, on_disk. destruct (gw_source request) as [b64|bytes sha].
  - destruct (base64_decode b64); [|done]. destruct (_ <? _); [done|]. by destruct (write _ _ _ _ _ _ _ _ _ _).
  - destruct object; [|done]. by destruct (write_from_file _ _ _ _ _ _ _ _ _ _ _).
Qed.

Lemma on_store_run {A} (m : M FileEffectStore FileEffectStoreError A) s :
  on_store m s = (map_err file_effect_store_error (m (fs_store s)).1, mkFileState (m (fs_store s)).2 (fs_disk s)).
Proof. unfold on_store. by destruct (m (fs_store s)). Qed.

(** A write request reaches the disk only behind a new claim, and leaves consumed claims consumed. *)
Lemma run_write_frame c s :
  let s' := (run_write c s).2 in
  (fs_disk s' <> fs_disk s ->
     (fe_claim effect_identifier_parses effect_digest_parses (wc_claim c) (gw_effect (wc_request c)) (fs_store s)).1 = Ok EffectNew
     /\ consumed (wc_id c) (fs_store s'))
  /\ (forall id, consumed id (fs_store s) -> consumed id (fs_store s')).
Proof.
  unfold run_write, write_file. rewrite M_bind_run, lift_run. destruct (fence _ _ _ _); [|done].
  case_bool_decide; [done|]. unfold claim_file_effect. rewrite M_bind_run, on_store_run.
  pose proof (fun id => fe_claim_consumed effect_identifier_parses effect_digest_parses (wc_claim c) (gw_effect (wc_request c)) id (fs_store s)) as Hk.
  pose proof (fe_claim_new_consumes effect_identifier_parses effect_digest_parses (wc_claim c) (gw_effect (wc_request c)) (fs_store s)) as Hn.
  destruct (fe_claim _ _ _ _ _) as [[[|stored]|e] st1]; cbn [map_err fst snd] in *; [|done..].
  rewrite M_bind_run. pose proof (mutate_store (wc_io c) (wc_pid c) (wc_nanos c) (wc_object c) (wc_request c) (mkFileState st1 (fs_disk s))) as Hm.
  specialize (Hn st1 eq_refl). change (fe_operation_id (gw_effect (wc_request c))) with (wc_id c) in Hn.
  destruct (mutate _ _ _ _ _ _ _ _ _ _) as [[entry|e] s2]; cbn in Hm; [|by cbn; rewrite Hm].
  rewrite M_bind_run, lift_run. destruct (file_entry _ _ _); [|by cbn; rewrite Hm].
  destruct (negb _); [by cbn; rewrite Hm|]. rewrite M_bind_run, lift_run.
  destruct (ok_or _ _) as [stored|]; [|by cbn; rewrite Hm].
  unfold complete_file_effect_inner. rewrite on_store_run. cbn. rewrite Hm. split.
  - intros _. split; [done|]. by apply fe_complete_consumed.
  - intros id Hc. by apply fe_complete_consumed, Hk.
Qed.

Lemma run_file_call_consumed c id s : consumed id (fs_store s) -> consumed id (fs_store (run_file_call c s)).
Proof.
  intros Hc. destruct c as [io i|io i|io r|c]; cbn [run_file_call].
  - unfold reserve_file_effect. rewrite on_store_run. cbn. by apply fe_reserve_consumed.
  - unfold claim_file_effect. rewrite on_store_run. cbn. by apply fe_claim_consumed.
  - unfold complete_file_effect, complete_file_effect_inner. rewrite on_store_run. cbn. by apply fe_complete_consumed.
  - by apply (proj2 (run_write_frame c s)).
Qed.

(** C25: a write of the workspace happens at most once per operation in the life of the process: when a request
    has changed the disk, no later request of the same operation changes it again, whatever reservations,
    claims, completions and writes come between, and whatever system calls fail. *)
Theorem write_effect_mutates_once c c' calls s :
  fs_disk (run_write c s).2 <> fs_disk s -> wc_id c' = wc_id c ->
  let s2 := fold_left (fun s call => run_file_call call s) calls (run_write c s).2 in
  fs_disk (run_write c' s2).2 = fs_disk s2.
Proof.
  intros Hd Hid. cbv zeta. destruct (proj1 (run_write_frame c s) Hd) as [_ Hc].
  set (s1 := (run_write c s).2) in *. clearbody s1. clear Hd.
  assert (Hc2 : consumed (wc_id c) (fs_store (fold_left (fun s call => run_file_call call s) calls s1))).
  { revert s1 Hc. induction calls as [|call calls IH]; intros s1 Hc; [done|]. cbn. by apply IH, run_file_call_consumed. }
  set (s2 := fold_left _ calls s1) in *. destruct (decide (fs_disk (run_write c' s2).2 = fs_disk s2)) as [|Hne]; [done|].
  exfalso. destruct (proj1 (run_write_frame c' s2) Hne) as [Hnew _]. revert Hnew. by apply (fe_claim_not_new _ _ _ _ (wc_id c)).
Qed.
End requests.

(** ** Example: a reserved write, and its retry *)
Definition sample_effect : FileEffectIdentity := mkFileEffectIdentity Write "write-1" digest_a.
Definition sample_file_write : WriteCall (Allow := unit) :=
  mkWriteCall 1500 (Some (candidate_target "vm-1" (sample_payload "gen-1"))) io_good io_good sample_io 7 9 None
    (mkGuestFileWriteRequest sample_effect "gen-1" false "/workspace/notes.txt" (Inline "hi") "root-1").
Definition sample_files_run := run_write (Allow := unit) (fun _ => true) (fun _ => true) (fun _ => true) (fun b => Some (bytes_of b)) sample_hex
  (fun _ => true) (fun _ => true) (fun _ => Some []) (fun _ => Some ["e"%char]) sample_view id.
Definition sample_file_store : @FileEffectStore FileEntry FileEntry := mkFileEffectStore ∅ empty_log 0 0 false 100000 8.
Definition sample_file_state : FileState :=
  (reserve_file_effect (fun _ => true) (fun _ => true) (fun _ => Some ["e"%char]) io_good sample_effect
     (mkFileState sample_file_store sample_disk)).2.

Lemma write_effect_mutates_once_witness :
  is_ok (sample_files_run sample_file_write sample_file_state).1 = true
  /\ fs_disk (sample_files_run sample_file_write (sample_files_run sample_file_write sample_file_state).2).2
     = fs_disk (sample_files_run sample_file_write sample_file_state).2.
Proof.
  split; [vm_compute; reflexivity|].
  apply (write_effect_mutates_once (fun _ => true) (fun _ => true) (fun _ => true) (fun b => Some (bytes_of b)) sample_hex
    (fun _ => true) (fun _ => true) (fun _ => Some []) (fun _ => Some ["e"%char]) sample_view id
    sample_file_write sample_file_write [] sample_file_state); [|reflexivity].
  intros H. apply (f_equal (fun d => d_root d !! (["notes.txt"] : RelPath))) in H. revert H. vm_compute. discriminate.
Defined.
