(* ===== verification/GuestInstall.v ===== *)
(** * hand-guest: installed artifacts

    Models crates/hand-guest/src/hand/install.rs and validate_operation of
    crates/hand-guest/src/hand/operations.rs: Tool bundles, sealed bindings with one kernel identity each,
    session secrets, transferred objects, and the check that ties an operation to them. The directories are
    maps from file names; the outcomes of their system calls are inputs. Brain's descriptor and seal are
    records of the fields the guest reads, the others being a parameter, with their canonical JSON. *)
From S2P Require Import Prelude Policy Connector Operation GuestErrors GuestTarget.

Inductive BundleRuntime := Node22 | OtherRuntime.
Inductive ExecutionRealm := AexManaged | OtherRealm.

#[global] Instance BundleRuntime_eq_dec : EqDecision BundleRuntime.
Proof. solve_decision. Defined.
#[global] Instance ExecutionRealm_eq_dec : EqDecision ExecutionRealm.
Proof. solve_decision. Defined.

Record BundleDescriptor {R : Type} := mkBundleDescriptor {
  bd_runtime : BundleRuntime; bd_bytes : Z; bd_object_bytes : Z; bd_object_sha256 : string;
  bd_bundle_digest : string; bd_required_env : list string; bd_contract_digest : string; bd_rest : R }.
Arguments BundleDescriptor : clear implicits.

Record SealedBinding {R : Type} := mkSealedBinding {
  sb_root_id : string; sb_session_id : string; sb_capability : string; sb_realm : ExecutionRealm;
  sb_bundle : option (BundleDescriptor R); sb_contract_digest : string; sb_rest : R }.
Arguments SealedBinding : clear implicits.

Record InstalledBinding {R : Type} := mkInstalledBinding {
  ib_seal : SealedBinding R; ib_bundle_path : string; ib_identity : option ToolIdentity }.
Arguments InstalledBinding : clear implicits.

Arguments mkBundleDescriptor {R}.
Arguments mkSealedBinding {R}.
Arguments mkInstalledBinding {R}.

(** ** Kernel identities *)
Record BindingIdentityRegistry := mkBindingIdentityRegistry {
  by_ref : gmap string (option ToolIdentity); by_uid : gmap Z string;
  uid_min : Z; uid_span : Z; max_bindings : Z }.

Definition with_bounds (uid_min uid_span max_bindings : Z) : BindingIdentityRegistry :=
  mkBindingIdentityRegistry ∅ ∅ uid_min uid_span max_bindings.
Definition production : BindingIdentityRegistry :=
  with_bounds MANAGED_BINDING_UID_MIN MANAGED_BINDING_UID_SPAN MAX_PREPARED_BINDINGS.

Definition set_by_ref (m : gmap string (option ToolIdentity)) (g : BindingIdentityRegistry) : BindingIdentityRegistry :=
  mkBindingIdentityRegistry m (by_uid g) (uid_min g) (uid_span g) (max_bindings g).
Definition set_by_uid (m : gmap Z string) (g : BindingIdentityRegistry) : BindingIdentityRegistry :=
  mkBindingIdentityRegistry (by_ref g) m (uid_min g) (uid_span g) (max_bindings g).

Record SessionSecrets := mkSessionSecrets { ss_generation : string; ss_declared : gset string; ss_values : gmap string string }.

(** A new receipt, or a replayed one; both say [installed]. *)
Inductive InstallReceipt := ReceiptNew | ReceiptReplayed.

Section install.
Context {Allow R : Type}.

(** [tool_files] is the tool directory; [objects] maps each installed object to its length. *)
Record Artifacts := mkArtifacts {
  bundles : gmap string (BundleDescriptor R * string);
  bindings : gmap string (InstalledBinding R);
  identities : BindingIdentityRegistry;
  secrets : gmap string SessionSecrets;
  tool_files : gmap string (list Ascii.ascii);
  objects : gmap string Z }.

Definition artifacts_new : Artifacts := mkArtifacts ∅ ∅ production ∅ ∅ ∅.

Definition set_bundles m (a : Artifacts) := mkArtifacts m (bindings a) (identities a) (secrets a) (tool_files a) (objects a).
Definition set_bindings m (a : Artifacts) := mkArtifacts (bundles a) m (identities a) (secrets a) (tool_files a) (objects a).
Definition set_identities g (a : Artifacts) := mkArtifacts (bundles a) (bindings a) g (secrets a) (tool_files a) (objects a).
Definition set_secrets m (a : Artifacts) := mkArtifacts (bundles a) (bindings a) (identities a) m (tool_files a) (objects a).
Definition set_tool_files m (a : Artifacts) := mkArtifacts (bundles a) (bindings a) (identities a) (secrets a) m (objects a).
Definition set_objects m (a : Artifacts) := mkArtifacts (bundles a) (bindings a) (identities a) (secrets a) (tool_files a) m.

Notation Art := (M Artifacts HandError).

Context (hash64 : string -> Z) (sha256_hex : list Ascii.ascii -> string).
Context (jcs_descriptor : BundleDescriptor R -> option (list Ascii.ascii)).
Context (jcs_seal : SealedBinding R -> option (list Ascii.ascii)).
(** Brain's bounds: environment name bytes, secret names, value bytes, document bytes and bundle bytes. *)
Context (NB NN VB DB MAX_TOOL_BUNDLE_BYTES : Z) (jcs_values : gmap string string -> option string).

Definition allocate (binding_ref : string) (sandbox_identity : option ToolIdentity)
    : M BindingIdentityRegistry HandError (option ToolIdentity) :=
  g ← get;
  match by_ref g !! binding_ref with
  | Some identity => mret identity
  | None =>
      if max_bindings g <=? Z.of_nat (size (by_ref g)) then throw (hand_error ResourceExhausted false)
      else
        match sandbox_identity with
        | None =>
            _ ← modify (set_by_ref (<[binding_ref := None]> (by_ref g)));
            mret None
        | Some sandbox_identity =>
            if uid_span g =? 0 then throw (hand_error ResourceExhausted false)
            else
              let uid := uid_min g + hash64 binding_ref mod uid_span g in
              match by_uid g !! uid with
              | Some _ => throw (hand_error BindingConflict false)
              | None =>
                  let identity := mkToolIdentity uid (gid sandbox_identity) (supervisor_uid sandbox_identity) in
                  _ ← modify (set_by_uid (<[uid := binding_ref]> (by_uid g)));
                  _ ← modify (set_by_ref (<[binding_ref := Some identity]> (by_ref g)));
                  mret (Some identity)
              end
        end
  end.

(** ** Bundles *)
Record InstallIo := mkInstallIo { ii_create : bool; ii_write : bool; ii_rename : bool }.

Definition required_env_ok (names : list string) : bool :=
  (len names <=? NN) && (Z.of_nat (size (list_to_set names : gset string)) =? len names)
  && forallb (fun name => environment_name_is_valid NB name && negb (reserved_tool_environment name)) names.

Definition install_bundle (io : InstallIo) (descriptor : BundleDescriptor R) (bytes : list Ascii.ascii) : Art InstallReceipt :=
  if negb (bool_decide (bd_runtime descriptor = Node22)) then throw invalid
  else if (MAX_TOOL_BUNDLE_BYTES <? bd_bytes descriptor) || negb (bd_bytes descriptor =? len bytes)
          || negb (bd_object_bytes descriptor =? len bytes)
          || negb (str_eqb (bd_object_sha256 descriptor) (bd_bundle_digest descriptor))
          || negb (str_eqb (sha256_hex bytes) (bd_bundle_digest descriptor))
  then throw invalid
  else if negb (required_env_ok (bd_required_env descriptor)) then throw invalid
  else
    let digest := bd_bundle_digest descriptor in
    a ← get;
    match bundles a !! digest with
    | Some (existing, _) =>
        same ← lift (canonical_equal jcs_descriptor existing descriptor);
        if same : bool then mret ReceiptReplayed else throw (hand_error BindingConflict false)
    | None =>
        let path := digest +:+ ".mjs" in
        let temporary := "." +:+ digest +:+ ".install" in
        if negb (ii_create io) || bool_decide (is_Some (tool_files a !! temporary)) then throw unavailable
        else
          _ ← modify (set_tool_files (<[temporary := bytes]> (tool_files a)));
          if negb (ii_write io) then
            _ ← modify (set_tool_files (tool_files a));
            throw unavailable
          else if negb (ii_rename io) then throw unavailable
          else
            _ ← modify (set_tool_files (<[path := bytes]> (tool_files a)));
            _ ← modify (fun a => set_bundles (<[digest := (descriptor, path)]> (bundles a)) a);
            mret ReceiptNew
    end.

(** ** Bindings *)
Definition on_identities {A} (m : M BindingIdentityRegistry HandError A) : Art A :=
  fun a => let '(r, g) := m (identities a) in (r, set_identities g a).

Definition install_binding (sandbox_identity : option ToolIdentity) (now : Z) (target : option (@ArmedTarget Allow))
    (binding_ref : string) (binding : SealedBinding R) : Art InstallReceipt :=
  target ← lift (require_target now target);
  if negb (str_eqb (sb_root_id binding) (ts_root_id target)) || negb (bool_decide (sb_realm binding = AexManaged))
  then throw (hand_error BindingConflict false)
  else
    descriptor ← (lift (ok_or (hand_error CapabilityUnavailable false) (sb_bundle binding)) : Art (BundleDescriptor R));
    if negb (str_eqb (bd_contract_digest descriptor) (sb_contract_digest binding))
    then throw (hand_error BindingConflict false)
    else
      a ← get;
      bundle_path ← (match bundles a !! bd_bundle_digest descriptor with
                     | Some (installed, path) =>
                         same ← lift (canonical_equal jcs_descriptor installed descriptor);
                         if same : bool then mret path else throw invalid
                     | None => throw invalid
                     end : Art string);
      let requires_undeclared_secret :=
        match secrets a !! sb_session_id binding with
        | Some session => existsb (fun name => negb (bool_decide (name ∈ ss_declared session))) (bd_required_env descriptor)
        | None => false
        end in
      if requires_undeclared_secret then throw (hand_error BindingConflict false)
      else
        match bindings a !! binding_ref with
        | Some existing =>
            same ← lift (canonical_equal jcs_seal (ib_seal existing) binding);
            if same : bool then mret ReceiptReplayed else throw (hand_error BindingConflict false)
        | None =>
            identity ← on_identities (allocate binding_ref sandbox_identity);
            _ ← modify (fun a => set_bindings (<[binding_ref := mkInstalledBinding binding bundle_path identity]> (bindings a)) a);
            mret ReceiptNew
        end.

(** ** Objects: [rename] and [race] are the outcome of the rename and what a concurrent installation left *)
Definition install_object_file (rename : bool) (race : option Z) (object_bytes : Z) (object_sha256 : string)
    (actual_bytes : Z) (actual_sha256 : string) : Art InstallReceipt :=
  if negb (object_bytes =? actual_bytes) || negb (str_eqb actual_sha256 object_sha256) then throw invalid
  else
    a ← get;
    match objects a !! object_sha256 with
    | Some existing => if existing =? actual_bytes then mret ReceiptReplayed else throw invalid
    | None =>
        if negb rename then
          match race with
          | Some existing =>
              _ ← modify (set_objects (<[object_sha256 := existing]> (objects a)));
              if existing =? actual_bytes then mret ReceiptReplayed else throw unavailable
          | None => throw unavailable
          end
        else
          _ ← modify (set_objects (<[object_sha256 := actual_bytes]> (objects a)));
          mret ReceiptNew
    end.

(** ** Secrets *)
Definition session_requirements (session_id : string) (bs : gmap string (InstalledBinding R)) : list string :=
  concat (map (fun b => match sb_bundle (ib_seal b) with Some d => bd_required_env d | None => [] end)
    (List.filter (fun b => str_eqb (sb_session_id (ib_seal b)) session_id) (map_values bs))).

Definition install_secrets (now : Z) (target : option (@ArmedTarget Allow)) (session_id generation : string)
    (env_names : list string) (values : gmap string string) : Art InstallReceipt :=
  target ← lift (require_target now target);
  if negb (str_eqb generation (ts_generation target)) then throw generation_conflict
  else
    let declared := list_to_set env_names : gset string in
    if negb (is_ok (secret_material_fits NB NN VB DB jcs_values env_names values)) then throw invalid
    else if existsb reserved_tool_environment (elements declared) then throw invalid
    else
      a ← get;
      if negb (forallb (fun name => bool_decide (name ∈ declared)) (session_requirements session_id (bindings a)))
      then throw invalid
      else
        match secrets a !! session_id with
        | Some existing =>
            if str_eqb (ss_generation existing) generation && bool_decide (ss_declared existing = declared)
               && bool_decide (ss_values existing = values)
            then mret ReceiptReplayed else throw generation_conflict
        | None =>
            _ ← modify (set_secrets (<[session_id := mkSessionSecrets generation declared values]> (secrets a)));
            mret ReceiptNew
        end.

(** ** Validating an operation (operations.rs) *)
Record OperationEnvelope := mkOperationEnvelope {
  env_operation_id : string; env_request_digest : string; env_root_id : string; env_generation : option string;
  env_target_ref : option string; env_resources : ResourceCeiling; env_network : NetworkCeiling Allow;
  env_binding_ref : string; env_session_id : string; env_capability : string }.

Record ValidatedExecution := mkValidatedExecution {
  ve_bundle_path : string; ve_descriptor : BundleDescriptor R; ve_environment : gmap string string;
  ve_identity : option ToolIdentity; ve_target : @TargetSnapshot Allow }.

Context (max_output : Z) (network_ceiling_is_subset : NetworkCeiling Allow -> NetworkCeiling Allow -> bool).

(** The loop that collects the declared environment from the session's secrets. *)
Fixpoint collect_environment (values : option SessionSecrets) (names : list string) (environment : gmap string string)
    : result HandError (gmap string string) :=
  match names with
  | [] => Ok environment
  | name :: names =>
      value ← ok_or unavailable (values ≫= fun values => ss_values values !! name);
      collect_environment values names (<[name := value]> environment)
  end.

Definition other_than (expected : string) (actual : option string) : bool :=
  match actual with Some actual => negb (str_eqb actual expected) | None => false end.

Definition validate_operation (now : Z) (target : option (@ArmedTarget Allow)) (envelope : OperationEnvelope) (a : Artifacts)
    : result HandError ValidatedExecution :=
  target ← require_target now target;
  if negb (str_eqb (env_root_id envelope) (ts_root_id target))
     || other_than (ts_generation target) (env_generation envelope)
     || other_than (ts_target_ref target) (env_target_ref envelope)
  then Err generation_conflict
  else
    _ ← validate_resource_subset max_output (env_resources envelope) (ts_resources target);
    if negb (network_ceiling_is_subset (env_network envelope) (ts_network target))
    then Err (hand_error GenerationConflict false)
    else
      binding ← ok_or (hand_error BindingConflict false) (bindings a !! env_binding_ref envelope);
      if negb (str_eqb (sb_root_id (ib_seal binding)) (env_root_id envelope))
         || negb (str_eqb (sb_session_id (ib_seal binding)) (env_session_id envelope))
         || negb (str_eqb (sb_capability (ib_seal binding)) (env_capability envelope))
         || negb (bool_decide (sb_realm (ib_seal binding) = AexManaged))
      then Err (hand_error BindingConflict false)
      else
        descriptor ← ok_or (hand_error CapabilityUnavailable false) (sb_bundle (ib_seal binding));
        environment ← collect_environment (secrets a !! env_session_id envelope) (bd_required_env descriptor) ∅;
        Ok (mkValidatedExecution (ib_bundle_path binding) descriptor environment (ib_identity binding) target).

(** ** The installed state over its life *)
Inductive InstallCall :=
  | CallBundle (io : InstallIo) (descriptor : BundleDescriptor R) (bytes : list Ascii.ascii)
  | CallBinding (now : Z) (target : option (@ArmedTarget Allow)) (binding_ref : string) (binding : SealedBinding R)
  | CallSecrets (now : Z) (target : option (@ArmedTarget Allow)) (session_id generation : string)
      (env_names : list string) (values : gmap string string)
  | CallObject (rename : bool) (race : option Z) (object_bytes : Z) (object_sha256 : string) (actual_bytes : Z)
      (actual_sha256 : string).

Definition install_call (sandbox : option ToolIdentity) (c : InstallCall) : Art InstallReceipt :=
  match c with
  | CallBundle io d bytes => install_bundle io d bytes
  | CallBinding now target binding_ref binding => install_binding sandbox now target binding_ref binding
  | CallSecrets now target session_id generation env_names values =>
      install_secrets now target session_id generation env_names values
  | CallObject rename race b h ab ah => install_object_file rename race b h ab ah
  end.

Definition install_calls (sandbox : option ToolIdentity) (cs : list InstallCall) : Artifacts -> Artifacts :=
  fold_left (fun a c => (install_call sandbox c a).2) cs.

Record identities_inv (sandbox : option ToolIdentity) (g : BindingIdentityRegistry) : Prop := {
  ii_bounds : uid_min g = MANAGED_BINDING_UID_MIN /\ uid_span g = MANAGED_BINDING_UID_SPAN;
  ii_uid : forall ref i, by_ref g !! ref = Some (Some i) ->
    by_uid g !! uid i = Some ref
    /\ MANAGED_BINDING_UID_MIN <= uid i < MANAGED_BINDING_UID_MIN + MANAGED_BINDING_UID_SPAN;
  ii_sandboxed : forall ref, by_ref g !! ref = Some None -> sandbox = None;
}.

(** What the checks of each installation keep true of all of them together. *)
Record artifacts_inv (sandbox : option ToolIdentity) (a : Artifacts) : Prop := {
  ai_identities : identities_inv sandbox (identities a);
  ai_bundle : forall digest d path, bundles a !! digest = Some (d, path) ->
    bd_bundle_digest d = digest /\ path = digest +:+ ".mjs"
    /\ (exists bytes, tool_files a !! path = Some bytes /\ sha256_hex bytes = digest)
    /\ required_env_ok (bd_required_env d) = true;
  ai_binding : forall ref b, bindings a !! ref = Some b ->
    by_ref (identities a) !! ref = Some (ib_identity b)
    /\ exists d, sb_bundle (ib_seal b) = Some d /\ bundles a !! bd_bundle_digest d = Some (d, ib_bundle_path b);
  ai_secrets : forall session s, secrets a !! session = Some s ->
    dom (ss_values s) = ss_declared s
    /\ forall ref b d name, bindings a !! ref = Some b -> sb_session_id (ib_seal b) = session ->
         sb_bundle (ib_seal b) = Some d -> name ∈ bd_required_env d -> name ∈ ss_declared s;
}.

(** Nothing installed is ever replaced. *)
Record keeps (a a' : Artifacts) : Prop := {
  k_bundles : bundles a ⊆ bundles a';
  k_bindings : bindings a ⊆ bindings a';
  k_secrets : secrets a ⊆ secrets a';
}.

#[global] Instance keeps_refl : Reflexive keeps.
Proof. by intros a. Qed.
#[global] Instance keeps_trans : Transitive keeps.
Proof. intros a b c [] []. constructor; by etrans. Qed.

Lemma allocate_spec sandbox ref g r g' :
  allocate ref sandbox g = (r, g') -> identities_inv sandbox g ->
  identities_inv sandbox g' /\ by_ref g ⊆ by_ref g' /\ (forall i, r = Ok i -> by_ref g' !! ref = Some i).
Proof.
  intros Hrun Hinv. unfold allocate in Hrun. rewrite M_bind_run, get_run in Hrun.
  destruct (by_ref g !! ref) as [i|] eqn:Hr; [injection Hrun as <- <-; split_and!; [done..|]; congruence|].
  destruct (_ <=? _); [by injection Hrun as <- <-|]. pose proof Hinv as [[Hmin Hspan] Huid Hsb].
  destruct sandbox as [sb|].
  - destruct (uid_span g =? 0) eqn:H0; [by injection Hrun as <- <-|]. cbv zeta in Hrun. rewrite Hmin, Hspan in Hrun.
    set (u := MANAGED_BINDING_UID_MIN + _) in Hrun. destruct (by_uid g !! u) eqn:Hu; [by injection Hrun as <- <-|].
    injection Hrun as <- <-. cbn. split; [|split; [by apply insert_subseteq | intros i [= <-]; apply lookup_insert_eq]].
    constructor; cbn; [done| |].
    + intros ref' i'. rewrite lookup_insert_Some. intros [[<- [= <-]] | [Hne Hi]]; cbn.
      * rewrite lookup_insert_eq. split; [done|]. subst u.
        pose proof (Z.mod_pos_bound (hash64 ref) MANAGED_BINDING_UID_SPAN ltac:(done)). lia.
      * destruct (Huid ref' i' Hi) as [Hi' Hb]. split; [|done]. rewrite lookup_insert_ne; [done|]. congruence.
    + intros ref'. rewrite lookup_insert_Some. intros [[_ [=]] | [_ Hi]]. by apply (Hsb ref').
  - injection Hrun as <- <-. cbn. split; [|split; [by apply insert_subseteq | intros i [= <-]; apply lookup_insert_eq]].
    constructor; cbn; [done| |done]. intros ref' i'. rewrite lookup_insert_Some. intros [[_ [=]] | [_ Hi]]. by apply Huid.
Qed.

Context (Hdescriptor : jcs_injective jcs_descriptor).

Lemma staged_name_differs digest digest' : "." +:+ digest +:+ ".install" <> digest' +:+ ".mjs".
Proof.
  intros H%(f_equal bytes_of). rewrite !bytes_of_app in H.
  change (bytes_of ".mjs") with (bytes_of ".mj" ++ ["s"%char]) in H.
  change (bytes_of ".install") with (bytes_of ".instal" ++ ["l"%char]) in H.
  rewrite !app_assoc in H. by apply app_inj_tail in H as [_ ?].
Qed.

Lemma path_inj digest digest' : digest +:+ ".mjs" = digest' +:+ ".mjs" -> digest = digest'.
Proof. intros H%(f_equal bytes_of). rewrite !bytes_of_app in H. apply app_inv_tail in H. by apply bytes_of_inj. Qed.

(** The state changes only by one tool file and then one bundle, both keyed by the digest. *)
Lemma install_bundle_inv sandbox io d bytes a :
  artifacts_inv sandbox a ->
  artifacts_inv sandbox (install_bundle io d bytes a).2 /\ keeps a (install_bundle io d bytes a).2.
Proof.
  intros Hinv. unfold install_bundle.
  destruct (negb (bool_decide _)); [done|]. destruct (_ || _) eqn:Hsizes; [done|].
  destruct (negb (required_env_ok _)) eqn:Henv; [done|]. cbv zeta. rewrite M_bind_run, get_run.
  destruct (bundles a !! bd_bundle_digest d) as [[existing path]|] eqn:Hb.
  { rewrite M_bind_run, lift_run. by destruct (canonical_equal _ _ _) as [[]|]. }
  destruct (negb (ii_create io) || _); [done|].
  assert (Hstage : forall a', tool_files a' = <["." +:+ bd_bundle_digest d +:+ ".install" := bytes]> (tool_files a) ->
     bundles a' = bundles a -> bindings a' = bindings a -> identities a' = identities a -> secrets a' = secrets a ->
     artifacts_inv sandbox a' /\ keeps a a').
  { intros a' Ht Hbu Hbi Hi Hs. destruct Hinv as [Hid Hbund Hbind Hsec].
    split; [constructor; rewrite ?Hbu, ?Hbi, ?Hi, ?Hs; try done | by constructor; rewrite ?Hbu, ?Hbi, ?Hs].
    intros digest d' path Hd. destruct (Hbund digest d' path Hd) as (? & -> & (b & Hf & Hh) & ?).
    split; [done|]. split; [done|]. split; [|done]. exists b. split; [|done].
    rewrite Ht, lookup_insert_ne; [done | apply staged_name_differs]. }
  rewrite M_bind_run. cbn [modify].
  destruct (ii_write io); cbn [negb].
  2:{ rewrite M_bind_run. cbn. destruct a; cbn. done. }
  destruct (ii_rename io); cbn [negb]; [|by apply Hstage].
  rewrite M_bind_run. cbn [modify]. rewrite M_bind_run. cbn. clear Hstage.
  bool_hyps. destruct Hinv as [Hid Hbund Hbind Hsec]. split.
  - constructor; cbn; try done.
    + intros digest d' path. rewrite lookup_insert_Some. intros [[<- [= <- <-]] | [Hne Hd]].
      * split; [done|]. split; [done|]. split; [|done]. exists bytes. by rewrite lookup_insert_eq.
      * destruct (Hbund digest d' path Hd) as (? & -> & (b & Hf & Hh) & ?). split; [done|]. split; [done|].
        split; [|done]. exists b. split; [|done]. rewrite lookup_insert_ne; [done|]. by intros ?%path_inj.
    + intros ref b Hbr. destruct (Hbind ref b Hbr) as (? & d' & Hd' & Hin). split; [done|]. exists d'. split; [done|].
      rewrite lookup_insert_ne; [done|]. intros E. congruence.
  - constructor; cbn; try done. by apply insert_subseteq.
Qed.

(** A staging file left by a failed rename refuses every later installation of that bundle: nothing removes it. *)
Lemma stale_staging_blocks_bundle io d bytes a :
  bundles a !! bd_bundle_digest d = None -> is_Some (tool_files a !! ("." +:+ bd_bundle_digest d +:+ ".install")) ->
  exists e, install_bundle io d bytes a = (Err e, a).
Proof.
  intros Hb Hs. unfold install_bundle. destruct (negb (bool_decide _)); [by eexists|]. destruct (_ || _); [by eexists|].
  destruct (negb (required_env_ok _)); [by eexists|]. cbv zeta. rewrite M_bind_run, get_run, Hb.
  rewrite bool_decide_true by done. rewrite orb_true_r. by eexists.
Qed.

Lemma failed_rename_leaves_staging io d bytes a :
  ii_create io = true -> ii_write io = true -> ii_rename io = false -> bundles a !! bd_bundle_digest d = None ->
  (install_bundle io d bytes a).1 <> Err invalid ->
  is_Some (tool_files (install_bundle io d bytes a).2 !! ("." +:+ bd_bundle_digest d +:+ ".install")).
Proof.
  intros Hc Hw Hr Hb. unfold install_bundle. destruct (negb (bool_decide _)); [done|].
  destruct (_ || _); [done|]. destruct (negb (required_env_ok _)); [done|]. cbv zeta.
  rewrite M_bind_run, get_run, Hb, Hc, Hw, Hr. cbn [negb orb]. intros _. case_bool_decide as Hs; [done|].
  rewrite M_bind_run. cbn. by rewrite lookup_insert_eq.
Qed.

(** The bundle a binding names is the one installed under its digest. *)
Lemma installed_bundle d a path a' :
  (match bundles a !! bd_bundle_digest d with
   | Some (installed, path) =>
       same ← lift (canonical_equal jcs_descriptor installed d);
       if same : bool then mret path else throw invalid
   | None => throw invalid
   end : Art string) a = (Ok path, a') ->
  a' = a /\ bundles a !! bd_bundle_digest d = Some (d, path).
Proof.
  destruct (bundles a !! bd_bundle_digest d) as [[installed p]|] eqn:Hb; [|done].
  rewrite M_bind_run, lift_run. destruct (canonical_equal _ _ _) as [[]|] eqn:Hc; [|done..].
  apply canonical_equal_true in Hc as ->; [|done]. by intros [= <- <-].
Qed.

Lemma bundle_check_state d a a' r :
  (match bundles a !! bd_bundle_digest d with
   | Some (installed, path) =>
       same ← lift (canonical_equal jcs_descriptor installed d);
       if same : bool then mret path else throw invalid
   | None => throw invalid
   end : Art string) a = (r, a') -> a' = a.
Proof.
  destruct (bundles a !! bd_bundle_digest d) as [[installed p]|]; [|by intros [= _ <-]].
  rewrite M_bind_run, lift_run. by destruct (canonical_equal _ _ _) as [[]|]; intros [= _ <-].
Qed.

Lemma install_binding_inv sandbox now target ref binding a :
  artifacts_inv sandbox a ->
  artifacts_inv sandbox (install_binding sandbox now target ref binding a).2
  /\ keeps a (install_binding sandbox now target ref binding a).2.
Proof.
  intros Hinv. unfold install_binding. rewrite M_bind_run, lift_run. destruct (require_target now target) as [t|]; [|done].
  destruct (_ || _); [done|]. rewrite M_bind_run, lift_run.
  destruct (sb_bundle binding) as [d|] eqn:Hd; cbn [ok_or]; [|done].
  destruct (negb (str_eqb _ _)); [done|]. rewrite M_bind_run, get_run, M_bind_run.
  destruct (_ a) as [[path|e] a1] eqn:Hbundle.
  2:{ by apply bundle_check_state in Hbundle as ->. }
  apply installed_bundle in Hbundle as [-> Hin]. cbv zeta.
  destruct (match secrets a !! sb_session_id binding with Some _ => _ | None => _ end) eqn:Hundeclared; [done|].
  destruct (bindings a !! ref) as [existing|] eqn:Hr.
  { rewrite M_bind_run, lift_run. by destruct (canonical_equal _ _ _) as [[]|]. }
  rewrite M_bind_run. unfold on_identities at 1 2.
  destruct (allocate ref sandbox (identities a)) as [r g] eqn:Ha. destruct Hinv as [Hid Hbund Hbind Hsec].
  destruct (allocate_spec _ _ _ _ _ Ha Hid) as (Hg & Hsub & Hi).
  assert (Hbind' : forall ref' b, bindings a !! ref' = Some b -> by_ref g !! ref' = Some (ib_identity b)
     /\ exists d, sb_bundle (ib_seal b) = Some d /\ bundles a !! bd_bundle_digest d = Some (d, ib_bundle_path b)).
  { intros ref' b Hb. destruct (Hbind ref' b Hb) as [Hrb ?]. split; [|done]. exact (lookup_weaken _ _ _ _ Hrb Hsub). }
  destruct r as [i|e]; [rewrite M_bind_run; cbn|by split; constructor].
  split; [|constructor; cbn; [done | by apply insert_subseteq | done]]. constructor; cbn; [done..| |].
  - intros ref' b. rewrite lookup_insert_Some. intros [[<- <-] | [_ Hb]]; [|by apply Hbind'].
    split; [by apply Hi|]. by exists d.
  - intros session s0 Hs0. destruct (Hsec session s0 Hs0) as [Hdom Hall]. split; [done|].
    intros ref' b d' name. rewrite lookup_insert_Some. intros [[<- <-] | [_ Hb]]; [|by apply (Hall ref')].
    cbn. intros <- Hd' Hname. rewrite Hd in Hd'. injection Hd' as <-. rewrite Hs0 in Hundeclared.
    rewrite existsb_false in Hundeclared. rewrite Forall_forall in Hundeclared.
    pose proof (Hundeclared name Hname) as Hn. by apply negb_false_iff, bool_decide_eq_true in Hn.
Qed.

Lemma session_requirements_elem session (bs : gmap string (InstalledBinding R)) ref b d name :
  bs !! ref = Some b -> sb_session_id (ib_seal b) = session -> sb_bundle (ib_seal b) = Some d ->
  name ∈ bd_required_env d -> name ∈ session_requirements session bs.
Proof.
  intros Hb Hs Hd Hn. unfold session_requirements. apply list_elem_of_In, in_concat.
  exists (bd_required_env d). split; [|by apply list_elem_of_In]. apply in_map_iff. exists b. rewrite Hd. split; [done|].
  apply filter_In. split; [|by apply str_eqb_eq]. apply list_elem_of_In. unfold map_values.
  apply list_elem_of_fmap. exists (ref, b). split; [done|]. by apply elem_of_map_to_list.
Qed.

Lemma install_secrets_inv sandbox now target session generation names values a :
  artifacts_inv sandbox a ->
  artifacts_inv sandbox (install_secrets now target session generation names values a).2
  /\ keeps a (install_secrets now target session generation names values a).2.
Proof.
  intros Hinv. unfold install_secrets. rewrite M_bind_run, lift_run. destruct (require_target now target) as [t|]; [|done].
  destruct (negb (str_eqb _ _)); [done|]. cbv zeta. destruct (negb (is_ok _)) eqn:Hfits; [done|].
  destruct (existsb _ _); [done|]. rewrite M_bind_run, get_run. destruct (negb (forallb _ _)) eqn:Hreq; [done|].
  destruct (secrets a !! session) as [existing|] eqn:Hs; [by destruct (_ && _)|].
  bool_hyps. apply is_ok_true in Hfits as [[] Hfits]. apply secret_material_fits_exact in Hfits as (_ & Hdom & _).
  apply forallb_Forall_true in Hreq. rewrite Forall_forall in Hreq.
  destruct Hinv as [Hid Hbund Hbind Hsec]. rewrite M_bind_run. cbn. split; [|constructor; cbn; [done..|by apply insert_subseteq]].
  constructor; cbn; [done..|]. intros session' s0. rewrite lookup_insert_Some. intros [[<- <-] | [_ Hs0]]; [|by apply Hsec].
  cbn. split; [done|]. intros ref b d name Hb Hbs Hd Hn.
  pose proof (Hreq name (session_requirements_elem session _ ref b d name Hb Hbs Hd Hn)) as H.
  by apply bool_decide_eq_true in H.
Qed.

Lemma install_object_file_inv sandbox rename race b h ab ah a :
  artifacts_inv sandbox a ->
  artifacts_inv sandbox (install_object_file rename race b h ab ah a).2
  /\ keeps a (install_object_file rename race b h ab ah a).2.
Proof.
  intros Hinv. assert (Hobj : forall m, artifacts_inv sandbox (set_objects m a) /\ keeps a (set_objects m a)).
  { intros m. destruct Hinv. by split; constructor. }
  unfold install_object_file. destruct (_ || _); [done|]. rewrite M_bind_run, get_run.
  destruct (objects a !! h) as [x|]; [by destruct (x =? ab)|].
  destruct rename; cbn [negb]; [apply Hobj|]. destruct race as [x|]; [|done].
  rewrite M_bind_run. cbn [modify]. destruct (x =? ab); apply Hobj.
Qed.

Lemma install_calls_inv sandbox cs a :
  artifacts_inv sandbox a ->
  artifacts_inv sandbox (install_calls sandbox cs a) /\ keeps a (install_calls sandbox cs a).
Proof.
  unfold install_calls. revert a. induction cs as [|c cs IH]; intros a Hinv; cbn; [done|].
  assert (Hc : artifacts_inv sandbox (install_call sandbox c a).2 /\ keeps a (install_call sandbox c a).2).
  { destruct c; cbn [install_call]; [by apply install_bundle_inv | by apply install_binding_inv |
      by apply install_secrets_inv | by apply install_object_file_inv]. }
  destruct Hc as [Hi Hk]. destruct (IH _ Hi) as [Hi' Hk']. split; [done|]. by etrans.
Qed.

Lemma artifacts_new_inv sandbox : artifacts_inv sandbox artifacts_new.
Proof. constructor; cbn; try done. Qed.

(** The names the environment collects are the declared ones, with the session's values. *)
Lemma collect_environment_Ok values names env env' :
  collect_environment values names env = Ok env' ->
  (forall n, n ∈ names -> exists s, values = Some s /\ is_Some (ss_values s !! n))
  /\ (forall n v, env' !! n = Some v <->
        (n ∈ names /\ exists s, values = Some s /\ ss_values s !! n = Some v) \/ (n ∉ names /\ env !! n = Some v)).
Proof.
  revert env. induction names as [|m names IH]; intros env; cbn.
  { intros [= <-]. split; [set_solver|]. intros n v. set_solver. }
  intros [v [Hv H]]%result_bind_Ok. apply ok_or_Ok in Hv. destruct values as [s|]; [|done]. cbn in Hv.
  destruct (IH _ H) as [IH1 IH2]. split.
  - intros n [->|Hn]%elem_of_cons; [by exists s | by apply IH1].
  - intros n w. rewrite IH2, elem_of_cons, lookup_insert_Some.
    destruct (decide (n ∈ names)); destruct (decide (n = m)) as [->|]; naive_solver.
Qed.

Lemma collect_environment_total s names env :
  (forall n, n ∈ names -> is_Some (ss_values s !! n)) -> exists env', collect_environment (Some s) names env = Ok env'.
Proof.
  revert env. induction names as [|m names IH]; intros env H; cbn; [eauto|].
  destruct (H m ltac:(set_solver)) as [v Hv]. rewrite Hv. cbn. apply IH. set_solver.
Qed.

End install.

(** ** Example: a bundle, two bindings of one session and its secrets *)
Definition sample_runtime (r : BundleRuntime) : bool := match r with Node22 => true | OtherRuntime => false end.
Definition sample_jcs_descriptor (d : BundleDescriptor unit) : option (list Ascii.ascii) :=
  Some (sample_digits (encode (sample_runtime (bd_runtime d), bd_bytes d, bd_object_bytes d, bd_object_sha256 d,
    bd_bundle_digest d, bd_required_env d, bd_contract_digest d))).

Lemma sample_jcs_descriptor_injective : jcs_injective sample_jcs_descriptor.
Proof.
  intros [r1 b1 o1 s1 d1 e1 c1 []] [r2 b2 o2 s2 d2 e2 c2 []] l. unfold sample_jcs_descriptor. intros [= <-] [= H].
  apply sample_digits_inj, (inj encode) in H. cbn in H. destruct r1, r2; cbn in H; congruence.
Qed.

Definition sample_descriptor : BundleDescriptor unit := mkBundleDescriptor Node22 2 2 "d1" "d1" ["API_KEY"] "c1" tt.
Definition sample_seal : SealedBinding unit :=
  mkSealedBinding "root-1" "session-1" "cap" AexManaged (Some sample_descriptor) "c1" tt.
Definition sample_armed : option (@ArmedTarget unit) := Some (candidate_target "vm-1" (sample_payload "gen-1")).
Definition sample_installs : list (@InstallCall unit unit) :=
  [CallBundle (mkInstallIo true true true) sample_descriptor ["h"; "i"]%char;
   CallBinding 1500 sample_armed "b-1" sample_seal;
   CallSecrets 1500 sample_armed "session-1" "gen-1" ["API_KEY"] (<["API_KEY" := "k"]> ∅);
   CallBinding 1500 sample_armed "b-22" sample_seal].
Definition sample_identity : ToolIdentity := mkToolIdentity 1001 1002 1000.
Definition sample_install := install_calls (Allow := unit) str_len (fun _ => "d1") sample_jcs_descriptor (fun _ => Some []) 64 64 64 64 1000
  (fun _ => Some "{}") (Some sample_identity).
Definition sample_envelope : @OperationEnvelope unit :=
  mkOperationEnvelope "op-1" "digest" "root-1" (Some "gen-1") None (mkResourceCeiling 5 5) NetPublic "b-22" "session-1" "cap".

