(* ===== verification/GuestOperations.v ===== *)
(** * hand-guest: the operation lifecycle

    Models crates/hand-guest/src/hand/operations.rs and the locators of
    crates/hand-guest/src/hand/receipts.rs: a submission is fenced against the acknowledgement log, validated,
    admitted into the book of operations, executed by a supervised task whose terminal is retained, observed,
    cancelled, and released once its acknowledgement is durable. Each critical section of the code is one
    operation of a state monad over the registry, the metadata, the acknowledgement log and the stdin
    receipts; the interleavings of concurrent requests are a step relation over those sections. Brain's JSON
    encodings, its digests and its inline bound are parameters; waiting changes no state and is not modelled. *)
From S2P Require Import Prelude Policy Operation AppendLog Acks GuestErrors GuestTarget GuestInstall.

Inductive TargetKind := DefaultTarget | OtherTarget.

Record SandboxTarget := mkSandboxTarget {
  sx_binding_ref : string; sx_kind : TargetKind; sx_root_id : string; sx_sandbox_id : option string;
  sx_session_id : string }.

Record OperationRef := mkOperationRef {
  or_generation : string; or_operation_id : string; or_receipt_ref : string; or_request_digest : string;
  or_target : SandboxTarget; or_target_ref : string }.

Record TargetReceipt := mkTargetReceipt { tr_expires_at_ms : Z; tr_generation : string; tr_target_ref : string }.

Inductive ContractOperationState := CAccepted | CRunning | CTerminal.

Section operations.
Context {Inline Outcome : Type}.

(** The other fields of a terminal and of an observation are constant here: no object, no streamed output. *)
Record TerminalResult := mkTerminalResult {
  t_duration_ms : option Z; t_exit_code : option Z; t_inline : option Inline; t_is_error : bool;
  t_outcome : Outcome; t_digest : string }.
Record OperationObservation := mkOperationObservation {
  ob_next_cursor : string; ob_operation : OperationRef; ob_state : ContractOperationState;
  ob_target : option TargetReceipt; ob_terminal : option TerminalResult }.
Record ExecutionResult := mkExecutionResult {
  x_outcome : Outcome; x_inline : Inline; x_is_error : bool; x_exit_code : option Z; x_duration_ms : Z }.
Record WriteStdinReceipt := mkWriteStdinReceipt {
  ws_accepted : bool; ws_observation : OperationObservation; ws_operation_id : string; ws_replayed : bool;
  ws_request_digest : string }.
Inductive StdinRecord := InFlight (request_digest : string) | StdinComplete (receipt : WriteStdinReceipt).

(** [om_stdin]: an interactive execution has a control for its input. *)
Record OperationMeta := mkOperationMeta { om_operation : OperationRef; om_target : TargetReceipt; om_stdin : bool }.

(** [h_spawned] are the executions handed to [spawn_execution], [h_cancelled] the cancelled tokens, both by
    operation id and newest first. *)
Record Hand := mkHand {
  h_registry : OperationRegistry;
  h_metadata : gmap string OperationMeta;
  h_acks : AckStore;
  h_stdin : gmap string StdinRecord;
  h_spawned : list string;
  h_cancelled : list string }.

Definition set_registry g (h : Hand) := mkHand g (h_metadata h) (h_acks h) (h_stdin h) (h_spawned h) (h_cancelled h).
Definition set_metadata m (h : Hand) := mkHand (h_registry h) m (h_acks h) (h_stdin h) (h_spawned h) (h_cancelled h).
Definition set_acks a (h : Hand) := mkHand (h_registry h) (h_metadata h) a (h_stdin h) (h_spawned h) (h_cancelled h).
Definition set_stdin w (h : Hand) := mkHand (h_registry h) (h_metadata h) (h_acks h) w (h_spawned h) (h_cancelled h).
Definition set_spawned l (h : Hand) := mkHand (h_registry h) (h_metadata h) (h_acks h) (h_stdin h) l (h_cancelled h).
Definition set_cancelled l (h : Hand) := mkHand (h_registry h) (h_metadata h) (h_acks h) (h_stdin h) (h_spawned h) l.

Notation HandM := (M Hand HandError).

Context (MAX_TOOL_TERMINAL_INLINE_BYTES : Z) (terminal_inline_fits : Inline -> bool) (Failed Interrupted : Outcome).
Context (oversize_note capacity_note fault_note : Inline).
Context (terminal_result_digest : TerminalResult -> string).
Context (encode_observation : OperationObservation -> option string).
Context (decode_observation : string -> option OperationObservation).
Context (identifier_parses : string -> bool) (sha256_hex : list Ascii.ascii -> string).
Context (jcs_operation : OperationRef -> option (list Ascii.ascii)).
Context (ack_to_json : AcknowledgedOperation -> option (list Ascii.ascii)) (canonical_digest : OperationRef -> option string).

Definition TERMINAL_ENVELOPE_BYTES : Z := MAX_TOOL_TERMINAL_INLINE_BYTES + 4 * 1024.

(** ** Locators (receipts.rs) *)
Definition parse_identifier (value : string) : result HandError string :=
  if identifier_parses value then Ok value else Err invalid.

Definition operation_receipt_ref (operation_id request_digest target_ref generation : string) : result HandError string :=
  parse_identifier ("receipt:" +:+ sha256_hex (length_prefixed [operation_id; request_digest; target_ref; generation])).

Definition make_operation_ref {Allow : Type} (id digest : string) (target : SandboxTarget)
    (physical : @TargetSnapshot Allow) : result HandError OperationRef :=
  generation ← parse_identifier (ts_generation physical);
  receipt_ref ← operation_receipt_ref id digest (ts_target_ref physical) (ts_generation physical);
  target_ref ← parse_identifier (ts_target_ref physical);
  Ok (mkOperationRef generation id receipt_ref digest target target_ref).

Definition operation_ref {Allow : Type} (envelope : @OperationEnvelope Allow) (physical : @TargetSnapshot Allow)
    : result HandError OperationRef :=
  make_operation_ref (env_operation_id envelope) (env_request_digest envelope)
    (mkSandboxTarget (env_binding_ref envelope) DefaultTarget (env_root_id envelope) None (env_session_id envelope))
    physical.

Definition target_receipt {Allow : Type} (target : @TargetSnapshot Allow) : result HandError TargetReceipt :=
  if ts_expires_at_ms target =? 0 then Err invalid
  else
    generation ← parse_identifier (ts_generation target);
    target_ref ← parse_identifier (ts_target_ref target);
    Ok (mkTargetReceipt (ts_expires_at_ms target) generation target_ref).

Definition validate_operation_ref (meta : option OperationMeta) (operation : OperationRef) : result HandError unit :=
  match meta with
  | Some meta =>
      same ← canonical_equal jcs_operation (om_operation meta) operation;
      if same : bool then Ok tt else Err (hand_error OperationConflict false)
  | None => Err (operation_error Unknown)
  end.

(** ** Critical sections *)
Definition on_registry {A} (op : Op A) : HandM A :=
  fun h => let '(r, g) := op (h_registry h) in (map_err operation_error r, set_registry g h).
(** The same call for a caller that tells the registry's errors apart. *)
Definition on_registry' {A} (op : Op A) : M Hand OperationError A :=
  fun h => let '(r, g) := op (h_registry h) in (r, set_registry g h).
Definition on_acks {A} (op : Ack A) : HandM A :=
  fun h => let '(r, a) := op (h_acks h) in (map_err ack_store_error r, set_acks a h).

Definition fence_acknowledged_submission (id digest : string) (h : Hand) : result HandError unit :=
  fence ← map_err ack_store_error (fence_submission id digest (h_acks h));
  match fence with
  | Clear => Ok tt
  | Acknowledged => Err (hand_error OperationUnknown false)
  end.

Definition admit_operation (id digest : string) (operation : OperationRef) (target : TargetReceipt) (stdin : bool)
    : HandM Reservation :=
  reservation ← on_registry (reserve id digest TERMINAL_ENVELOPE_BYTES);
  match reservation with
  | RNew =>
      _ ← modify (fun h => set_metadata (<[id := mkOperationMeta operation target stdin]> (h_metadata h)) h);
      _ ← on_registry (mark_running id);
      mret RNew
  | RExisting =>
      h ← get;
      _ ← lift (validate_operation_ref (h_metadata h !! id) operation);
      mret RExisting
  end.

(** Handing the execution to its supervised task. *)
Definition spawn_execution (id : string) : HandM unit := modify (fun h => set_spawned (id :: h_spawned h) h).

(** Admission and, for a new operation, its execution: what follows the validation of a submission. *)
Definition admit_and_spawn (id digest : string) (operation : OperationRef) (target : TargetReceipt) (stdin : bool)
    : HandM Reservation :=
  reservation ← admit_operation id digest operation target stdin;
  _ ← (match reservation with RNew => spawn_execution id | RExisting => mret tt end : HandM unit);
  mret reservation.

(** Cancelling marks the record and, the first time, fires the token. *)
Definition cancel_section (operation : OperationRef) : HandM bool :=
  h ← get;
  _ ← lift (validate_operation_ref (h_metadata h !! or_operation_id operation) operation);
  accepted ← on_registry (request_cancel (or_operation_id operation));
  _ ← (if accepted && bool_decide (is_Some (h_metadata h !! or_operation_id operation))
       then modify (fun h => set_cancelled (or_operation_id operation :: h_cancelled h) h) else mret tt : HandM unit);
  mret accepted.

Definition terminal_observation (meta : OperationMeta) (terminal : TerminalResult) : OperationObservation :=
  mkOperationObservation "1" (om_operation meta) CTerminal (Some (om_target meta)) (Some terminal).

(** The digest is taken over the terminal with a placeholder digest. *)
Definition sealed_terminal (t : TerminalResult) : TerminalResult :=
  mkTerminalResult (t_duration_ms t) (t_exit_code t) (t_inline t) (t_is_error t) (t_outcome t) (terminal_result_digest t).
Definition placeholder_digest : string := String.string_of_list_ascii (repeat "0"%char 64).

Definition bounded_result (result : ExecutionResult) : ExecutionResult :=
  if terminal_inline_fits (x_inline result) then result
  else mkExecutionResult Failed oversize_note true (x_exit_code result) (x_duration_ms result).

Definition result_terminal (result : ExecutionResult) : TerminalResult :=
  sealed_terminal (mkTerminalResult (Some (x_duration_ms result)) (x_exit_code result) (Some (x_inline result))
    (x_is_error result) (x_outcome result) placeholder_digest).
Definition fallback_terminal (result : ExecutionResult) : TerminalResult :=
  sealed_terminal (mkTerminalResult (Some (x_duration_ms result)) (x_exit_code result) (Some capacity_note)
    true Interrupted placeholder_digest).

(** Retain a terminal in the registry; whether it was retained. *)
Definition retain_terminal (id : string) (meta : OperationMeta) (terminal : TerminalResult) : HandM bool :=
  match encode_observation (terminal_observation meta terminal) with
  | Some payload =>
      r ← observed (on_registry (complete id (t_digest terminal) payload));
      mret (is_ok r)
  | None => mret false
  end.

Definition finish (id : string) (result : ExecutionResult) : HandM unit :=
  let result := bounded_result result in
  h ← get;
  match h_metadata h !! id with
  | None => mret tt
  | Some meta =>
      completed ← retain_terminal id meta (result_terminal result);
      if completed : bool then mret tt
      else
        _ ← retain_terminal id meta (fallback_terminal result);
        mret tt
  end.

(** What the supervisor records when the execution task dies. *)
Definition faulted : ExecutionResult := mkExecutionResult Interrupted fault_note true None 0.

(** The two ends of [observe_inner]; between them the code may wait. *)
Definition observe_check (operation : OperationRef) (h : Hand) : result HandError unit :=
  _ ← validate_operation_ref (h_metadata h !! or_operation_id operation) operation;
  _ ← ok_or (operation_error Unknown) (observe (or_operation_id operation) (h_registry h));
  _ ← ok_or (operation_error Unknown) (h_metadata h !! or_operation_id operation);
  Ok tt.

Definition observe_read (operation : OperationRef) (h : Hand) : result HandError OperationObservation :=
  record ← ok_or (operation_error Unknown) (observe (or_operation_id operation) (h_registry h));
  meta ← ok_or (operation_error Unknown) (h_metadata h !! or_operation_id operation);
  match state record with
  | Terminal _ payload => ok_or unavailable (decode_observation payload)
  | Accepted => Ok (mkOperationObservation "0" operation CAccepted (Some (om_target meta)) None)
  | Running => Ok (mkOperationObservation "0" operation CRunning (Some (om_target meta)) None)
  end.

Definition observe_inner (operation : OperationRef) : HandM OperationObservation :=
  h ← get;
  _ ← lift (observe_check operation h);
  h ← get;
  lift (observe_read operation h).

(** Releasing an acknowledged terminal also drops the finished stdin receipts of its execution. *)
Definition releases_stdin (id : string) (record : StdinRecord) : bool :=
  match record with
  | StdinComplete receipt => str_eqb (or_operation_id (ob_operation (ws_observation receipt))) id
  | InFlight _ => false
  end.

Definition release_acknowledged_terminal (operation : OperationRef) (terminal_digest : string) : HandM unit :=
  let id := or_operation_id operation in
  r ← observed (on_registry' (acknowledge_terminal id terminal_digest));
  _ ← (match r with
       | Ok _ => modify (fun h => set_metadata (delete id (h_metadata h)) h)
       | Err Unknown => mret tt
       | Err e => throw (operation_error e)
       end : HandM unit);
  modify (fun h => set_stdin (filter (fun '(_, record) => releases_stdin id record = false) (h_stdin h)) h).

(** ** Whole requests, one at a time *)
Definition acknowledge_terminal_request (io_exists io : IoOracle) (operation : OperationRef) (terminal_digest : string)
    : HandM unit :=
  replayed ← on_acks (acknowledgement_exists or_operation_id or_request_digest canonical_digest io_exists operation terminal_digest);
  if replayed : bool then release_acknowledged_terminal operation terminal_digest
  else
    h ← get;
    _ ← lift (validate_operation_ref (h_metadata h !! or_operation_id operation) operation);
    _ ← lift (map_err operation_error (validate_terminal_ack (or_operation_id operation) terminal_digest (h_registry h)));
    _ ← on_acks (retain ack_to_json or_operation_id or_request_digest canonical_digest io operation terminal_digest);
    release_acknowledged_terminal operation terminal_digest.

(** A receipt: the observation, the locator, and whether the operation had been admitted before. *)
Record SubmitReceipt := mkSubmitReceipt {
  sr_observation : OperationObservation; sr_operation : OperationRef; sr_replayed : bool }.

Definition answer (operation : OperationRef) (reservation : Reservation) : HandM SubmitReceipt :=
  observation ← observe_inner operation;
  mret (mkSubmitReceipt observation operation (match reservation with RExisting => true | RNew => false end)).

Section requests.
Context {Allow R : Type} (max_output : Z) (network_ceiling_is_subset : NetworkCeiling Allow -> NetworkCeiling Allow -> bool).
Context (envelope_digest : @OperationEnvelope Allow -> string).

Definition submit (now : Z) (target : option (@ArmedTarget Allow)) (artifacts : @Artifacts R)
    (envelope : @OperationEnvelope Allow) (wait_up_to_ms : Z) : HandM SubmitReceipt :=
  _ ← lift (validate_wait wait_up_to_ms);
  if negb (str_eqb (envelope_digest envelope) (env_request_digest envelope)) then throw invalid
  else
    h ← get;
    _ ← lift (fence_acknowledged_submission (env_operation_id envelope) (env_request_digest envelope) h);
    execution ← lift (validate_operation max_output network_ceiling_is_subset now target envelope artifacts);
    operation ← lift (operation_ref envelope (ve_target execution));
    receipt ← lift (target_receipt (ve_target execution));
    reservation ← admit_and_spawn (env_operation_id envelope) (env_request_digest envelope) operation receipt false;
    answer operation reservation.

(** A shell execution in the sandbox; [directory] is the outcome of opening its working directory. *)
Record SandboxExecutionRequest := mkSandboxExecutionRequest {
  sxr_execution_id : string; sxr_request_digest : string; sxr_target : SandboxTarget; sxr_expected_generation : string;
  sxr_resources : ResourceCeiling; sxr_network : NetworkCeiling Allow; sxr_cwd : option string; sxr_interactive : bool }.
Context (execution_digest : SandboxExecutionRequest -> string).

Definition execute_sandbox (now : Z) (target : option (@ArmedTarget Allow)) (directory : result HandError unit)
    (request : SandboxExecutionRequest) : HandM SubmitReceipt :=
  if negb (str_eqb (execution_digest request) (sxr_request_digest request)) then throw invalid
  else
    h ← get;
    _ ← lift (fence_acknowledged_submission (sxr_execution_id request) (sxr_request_digest request) h);
    target ← lift (fence now (sx_root_id (sxr_target request)) (sxr_expected_generation request) target);
    _ ← lift (validate_resource_subset max_output (sxr_resources request) (ts_resources target));
    if negb (network_ceiling_is_subset (sxr_network request) (ts_network target))
    then throw (hand_error GenerationConflict false)
    else if bool_decide (sxr_cwd request = Some EmptyString) then throw invalid
    else
      _ ← lift directory;
      operation ← lift (make_operation_ref (sxr_execution_id request) (sxr_request_digest request) (sxr_target request) target);
      receipt ← lift (target_receipt target);
      reservation ← admit_and_spawn (sxr_execution_id request) (sxr_request_digest request) operation receipt
                      (sxr_interactive request);
      answer operation reservation.
End requests.

(** ** Interleavings of concurrent requests *)

(** [sy_pending] are the submissions past the fence and not yet admitted. *)
Record HandSystem := mkHandSystem { sy_hand : Hand; sy_pending : list (string * string) }.

(** Every critical section of the requests, in any order. With [quiet], no acknowledgement of an operation is
    retained while another submission of it is between its fence and its admission; [may_finish]
    and [may_release] restrict the executions that end and the acknowledgements that are released. *)
Inductive hand_step (quiet : bool) (may_finish : string -> Prop) (may_release : OperationRef -> string -> Prop) : HandSystem -> HandSystem -> Prop :=
  | StepFence h ps id digest :
      fence_acknowledged_submission id digest h = Ok tt ->
      hand_step quiet may_finish may_release (mkHandSystem h ps) (mkHandSystem h ((id, digest) :: ps))
  | StepRefuse h l1 p l2 : hand_step quiet may_finish may_release (mkHandSystem h (l1 ++ p :: l2)) (mkHandSystem h (l1 ++ l2))
  | StepAdmit h l1 id digest l2 operation target stdin :
      hand_step quiet may_finish may_release (mkHandSystem h (l1 ++ (id, digest) :: l2))
        (mkHandSystem (admit_and_spawn id digest operation target stdin h).2 (l1 ++ l2))
  | StepFinish h ps id result :
      id ∈ h_spawned h -> may_finish id ->
      hand_step quiet may_finish may_release (mkHandSystem h ps) (mkHandSystem (finish id result h).2 ps)
  | StepCancel h ps operation : hand_step quiet may_finish may_release (mkHandSystem h ps) (mkHandSystem (cancel_section operation h).2 ps)
  | StepReplayed h ps io operation digest :
      hand_step quiet may_finish may_release (mkHandSystem h ps)
        (mkHandSystem (on_acks (acknowledgement_exists or_operation_id or_request_digest canonical_digest io operation digest) h).2 ps)
  | StepRetain h ps io operation digest :
      (quiet = true -> forall d, (or_operation_id operation, d) ∉ ps) ->
      hand_step quiet may_finish may_release (mkHandSystem h ps)
        (mkHandSystem (on_acks (retain ack_to_json or_operation_id or_request_digest canonical_digest io operation digest) h).2 ps)
  | StepRelease h ps operation digest :
      may_release operation digest ->
      is_Some (ack_records (h_acks h) !! or_operation_id operation) ->
      hand_step quiet may_finish may_release (mkHandSystem h ps) (mkHandSystem (release_acknowledged_terminal operation digest h).2 ps).

(** An executed operation is on record until its acknowledgement is durable, and one past the fence has none. *)
Record once_inv (y : HandSystem) : Prop := {
  oi_once : NoDup (h_spawned (sy_hand y));
  oi_known : forall id, id ∈ h_spawned (sy_hand y) ->
    id ∈ dom (records (h_registry (sy_hand y))) \/ is_Some (ack_records (h_acks (sy_hand y)) !! id);
  oi_pending : forall id d, (id, d) ∈ sy_pending y -> ack_records (h_acks (sy_hand y)) !! id = None;
}.

(** A step that leaves the executions, the acknowledgements and the set of records alone. *)
Lemma once_inv_same h h' ps ps' :
  once_inv (mkHandSystem h ps) -> h_spawned h' = h_spawned h -> h_acks h' = h_acks h ->
  dom (records (h_registry h')) = dom (records (h_registry h)) -> ps' ⊆ ps -> once_inv (mkHandSystem h' ps').
Proof.
  intros [H1 H2 H3] Hs Ha Hd Hps. constructor; cbn in *; rewrite ?Hs, ?Ha, ?Hd; try done.
  intros id d Hin. eapply H3. by apply Hps.
Qed.

Lemma hand_registry_run {A} (op : Op A) h :
  on_registry op h = (map_err operation_error (op (h_registry h)).1, set_registry (op (h_registry h)).2 h).
Proof. unfold on_registry. by destruct (op (h_registry h)). Qed.

Lemma admit_and_spawn_once id digest operation target stdin h ps :
  ack_records (h_acks h) !! id = None -> once_inv (mkHandSystem h ps) ->
  once_inv (mkHandSystem (admit_and_spawn id digest operation target stdin h).2 ps).
Proof.
  intros Hack Hinv. unfold admit_and_spawn, admit_operation. rewrite !M_bind_run, hand_registry_run.
  destruct (reserve id digest TERMINAL_ENVELOPE_BYTES (h_registry h)) as [r g] eqn:Hres. cbn [fst snd].
  apply reserve_records in Hres as [(-> & Hnone & Hdom) | [Hr Hrec]].
  - cbn [map_err]. rewrite M_bind_run. cbn [modify]. rewrite M_bind_run, hand_registry_run. cbn [h_registry set_registry set_metadata].
    pose proof (mark_running_dom id g) as Hdom'. destruct (mark_running id g) as [r g2]. cbn [fst snd] in Hdom' |- *.
    destruct Hinv as [H1 H2 H3]. cbn in H1, H2, H3.
    assert (Hfresh : id ∉ h_spawned h).
    { intros [Hin | [x Hx]]%H2; [|congruence]. by apply not_elem_of_dom in Hnone. }
    destruct r as [[]|e]; cbn [map_err]; rewrite ?M_bind_run, ?M_ret_run; unfold spawn_execution; rewrite ?M_bind_run; cbn.
    + constructor; cbn; [by constructor| |done]. intros id'. rewrite elem_of_cons, Hdom', Hdom. set_solver.
    + constructor; cbn; [done| |done]. intros id' Hin. rewrite Hdom', Hdom. destruct (H2 id' Hin); set_solver.
  - assert (Hsame : once_inv (mkHandSystem (set_registry g h) ps)) by (apply (once_inv_same h _ ps); cbn; congruence || done).
    destruct r as [[]|e]; cbn [map_err]; [done| |exact Hsame].
    rewrite M_bind_run, get_run, M_bind_run, lift_run. by destruct (validate_operation_ref _ _) as [[]|].
Qed.

Lemma retain_terminal_frame id meta t h :
  let h' := (retain_terminal id meta t h).2 in
  h_spawned h' = h_spawned h /\ h_acks h' = h_acks h /\ h_metadata h' = h_metadata h
  /\ dom (records (h_registry h')) = dom (records (h_registry h)).
Proof.
  unfold retain_terminal. destruct (encode_observation _) as [p|]; [|done]. rewrite M_bind_run.
  unfold observed. rewrite hand_registry_run. cbn. by rewrite complete_dom.
Qed.

Lemma finish_frame id result h :
  let h' := (finish id result h).2 in
  h_spawned h' = h_spawned h /\ h_acks h' = h_acks h /\ h_metadata h' = h_metadata h
  /\ dom (records (h_registry h')) = dom (records (h_registry h)).
Proof.
  unfold finish. cbv zeta. rewrite M_bind_run, get_run. destruct (h_metadata h !! id) as [meta|]; [|done].
  rewrite M_bind_run. pose proof (retain_terminal_frame id meta (result_terminal (bounded_result result)) h) as H1.
  destruct (retain_terminal _ _ _ h) as [[[]|e] h1]; cbn in H1; [done| |done].
  rewrite M_bind_run. pose proof (retain_terminal_frame id meta (fallback_terminal (bounded_result result)) h1) as H2.
  destruct (retain_terminal _ _ _ h1) as [[b|e] h2]; cbn in H2 |- *; intuition congruence.
Qed.

Lemma cancel_frame operation h :
  let h' := (cancel_section operation h).2 in
  h_spawned h' = h_spawned h /\ h_acks h' = h_acks h /\ h_metadata h' = h_metadata h
  /\ dom (records (h_registry h')) = dom (records (h_registry h)).
Proof.
  unfold cancel_section. rewrite M_bind_run, get_run, M_bind_run, lift_run.
  destruct (validate_operation_ref _ _) as [[]|]; [|done]. rewrite M_bind_run, hand_registry_run.
  pose proof (request_cancel_dom (or_operation_id operation) (h_registry h)) as Hd.
  destruct (request_cancel _ _) as [[b|e] g]; cbn in Hd |- *; [|done].
  rewrite M_bind_run. by destruct (b && _).
Qed.

Lemma release_frame operation digest h :
  let h' := (release_acknowledged_terminal operation digest h).2 in
  h_spawned h' = h_spawned h /\ h_acks h' = h_acks h
  /\ (forall id, id <> or_operation_id operation ->
       (id ∈ dom (records (h_registry h')) <-> id ∈ dom (records (h_registry h)))).
Proof.
  unfold release_acknowledged_terminal. cbv zeta. rewrite M_bind_run. unfold observed, on_registry'.
  destruct (acknowledge_terminal _ _ _) as [r g] eqn:Ha. apply acknowledge_terminal_records in Ha.
  assert (Hdom : forall id, id <> or_operation_id operation -> (id ∈ dom (records g) <-> id ∈ dom (records (h_registry h)))).
  { intros id Hne. rewrite Ha. destruct (is_ok r); [|done]. rewrite dom_delete. set_solver. }
  rewrite M_bind_run. destruct r as [[]|[]]; by cbn.
Qed.

Lemma hand_step_once may_finish may_release y y' : hand_step true may_finish may_release y y' -> once_inv y -> once_inv y'.
Proof.
  destruct 1 as [h ps id digest Hf|h l1 p l2|h l1 id digest l2 op tgt stdin|h ps id result Hin Hmf|h ps op|h ps io op d
    |h ps io op d Hq|h ps op d Hmay Hack]; intros Hinv.
  - destruct Hinv as [H1 H2 H3]. constructor; cbn in *; [done..|]. intros id' d' [[= -> ->]|Hin]%elem_of_cons; [|by eapply H3].
    unfold fence_acknowledged_submission, fence_submission in Hf. destruct (ack_records _ !! id) as [r|]; [|done].
    by destruct (str_eqb _ _).
  - apply (once_inv_same h _ _ _ Hinv); try done. intros x. rewrite !elem_of_app, elem_of_cons. tauto.
  - apply admit_and_spawn_once; [eapply (oi_pending _ Hinv id digest); cbn; set_solver|].
    apply (once_inv_same h _ _ _ Hinv); try done. intros x. rewrite !elem_of_app, elem_of_cons. tauto.
  - destruct (finish_frame id result h) as (? & ? & _ & ?). by apply (once_inv_same h _ _ _ Hinv).
  - destruct (cancel_frame op h) as (? & ? & _ & ?). by apply (once_inv_same h _ _ _ Hinv).
  - unfold on_acks. destruct (acknowledgement_exists _ _ _ _ _ _ _) as [r a] eqn:He.
    apply acknowledgement_exists_records in He as [Hr _]. destruct Hinv as [H1 H2 H3].
    by constructor; cbn in *; rewrite ?Hr.
  - unfold on_acks. destruct (retain _ _ _ _ _ _ _ _) as [r a] eqn:He.
    apply retain_records in He as (Hsub & Hne & _). destruct Hinv as [H1 H2 H3]. constructor; cbn in *; [done| |].
    + intros id [?|[x Hx]]%H2; [by left|]. right. exists x. by eapply lookup_weaken.
    + intros id d' Hin. rewrite Hne; [by eapply H3|]. intros ->. by eapply Hq.
  - destruct (release_frame op d h) as (Hs & Ha & Hd). destruct Hinv as [H1 H2 H3].
    constructor; cbn in *; rewrite ?Hs, ?Ha; [done| |done]. intros id Hin.
    destruct (decide (id = or_operation_id op)) as [->|Hne]; [by right|]. rewrite Hd by done. by apply H2.
Qed.

Definition hand_new (acks : AckStore) : Hand :=
  mkHand (registry_new MAX_RETAINED_OPERATIONS MAX_RETAINED_TERMINAL_BYTES) ∅ acks ∅ [] [].

(** Whatever requests interleave, and whatever acknowledgements the log held when the process started, an
    operation is executed at most once in the life of the process, provided no acknowledgement of it is made
    durable while a second submission of it is between its fence and its admission. *)
Theorem operation_executes_at_most_once acks y :
  rtc (hand_step true (fun _ => True) (fun _ _ => True)) (mkHandSystem (hand_new acks) []) y -> NoDup (h_spawned (sy_hand y)).
Proof.
  intros Hrun. apply oi_once.
  assert (Hinit : once_inv (mkHandSystem (hand_new acks) [])) by (constructor; cbn; [constructor | set_solver..]).
  revert Hinit. induction Hrun as [y|y1 y2 y3 Hstep _ IH]; [done|]. intros Hinv. by eapply IH, hand_step_once.
Qed.

(** ** Terminals *)
Definition holds_terminal (id digest payload : string) (meta : OperationMeta) (h : Hand) : Prop :=
  h_metadata h !! id = Some meta
  /\ exists r, records (h_registry h) !! id = Some r /\ state r = Terminal digest payload.

Lemma is_terminal_state r d p : state r = Terminal d p -> is_terminal (state r) = true.
Proof. by intros ->. Qed.
Hint Resolve is_terminal_state : core.

Lemma admit_and_spawn_keeps id' dg op tgt stdin id d p meta h :
  holds_terminal id d p meta h -> holds_terminal id d p meta (admit_and_spawn id' dg op tgt stdin h).2.
Proof.
  intros [Hm (r & Hr & Hs)]. unfold admit_and_spawn, admit_operation. rewrite !M_bind_run, hand_registry_run.
  pose proof (reserve_keeps id' dg TERMINAL_ENVELOPE_BYTES _ id r Hr) as Hk.
  destruct (reserve id' dg TERMINAL_ENVELOPE_BYTES (h_registry h)) as [res g] eqn:Hres. cbn [fst snd] in *.
  apply reserve_records in Hres as [(-> & Hnone & _) | [Hnew _]].
  - cbn [map_err]. rewrite M_bind_run. cbn [modify]. rewrite M_bind_run, hand_registry_run. cbn [h_registry set_registry set_metadata].
    pose proof (mark_running_keeps id' g id r ltac:(eauto) Hk) as Hk'. assert (id' <> id) by congruence.
    destruct (mark_running id' g) as [[[]|e] g2]; cbn [map_err fst snd] in *;
      rewrite ?M_bind_run, ?M_ret_run; unfold spawn_execution; rewrite ?M_bind_run; cbn;
      (split; [cbn; by rewrite lookup_insert_ne | by exists r]).
  - destruct res as [[]|e]; cbn [map_err]; [done| |split; [done | by exists r]].
    rewrite M_bind_run, get_run, M_bind_run, lift_run.
    destruct (validate_operation_ref _ _) as [[]|]; (split; [done | by exists r]).
Qed.

Lemma retain_terminal_keeps id' m t id d p meta h :
  holds_terminal id d p meta h -> holds_terminal id d p meta (retain_terminal id' m t h).2.
Proof.
  intros [Hm (r & Hr & Hs)]. unfold retain_terminal. destruct (encode_observation _) as [pl|]; [|split; [done | by exists r]].
  rewrite M_bind_run. unfold observed. rewrite hand_registry_run. cbn. split; [done|]. exists r. split; [|done].
  apply complete_keeps; eauto.
Qed.

Lemma finish_keeps id' result id d p meta h :
  holds_terminal id d p meta h -> holds_terminal id d p meta (finish id' result h).2.
Proof.
  intros Hh. unfold finish. cbv zeta. rewrite M_bind_run, get_run. destruct (h_metadata h !! id') as [m|]; [|done].
  rewrite M_bind_run. pose proof (retain_terminal_keeps id' m (result_terminal (bounded_result result)) _ _ _ _ _ Hh) as H1.
  destruct (retain_terminal _ _ _ h) as [[[]|e] h1]; cbn in H1; [done| |done].
  rewrite M_bind_run. pose proof (retain_terminal_keeps id' m (fallback_terminal (bounded_result result)) _ _ _ _ _ H1) as H2.
  by destruct (retain_terminal _ _ _ h1) as [[b|e] h2].
Qed.

Lemma cancel_keeps op id d p meta h :
  holds_terminal id d p meta h -> holds_terminal id d p meta (cancel_section op h).2.
Proof.
  intros Hh. pose proof Hh as [Hm (r & Hr & Hs)]. unfold cancel_section. rewrite M_bind_run, get_run, M_bind_run, lift_run.
  destruct (validate_operation_ref _ _) as [[]|]; [|done]. rewrite M_bind_run, hand_registry_run.
  pose proof (request_cancel_keeps (or_operation_id op) _ id r ltac:(eauto) Hr) as Hk.
  destruct (request_cancel _ _) as [[b|e] g]; cbn in Hk |- *; [|split; [done | by exists r]].
  rewrite M_bind_run. destruct (b && _); (split; [done | by exists r]).
Qed.

Lemma release_keeps op dg id d p meta h :
  holds_terminal id d p meta h -> (or_operation_id op = id -> dg <> d) ->
  holds_terminal id d p meta (release_acknowledged_terminal op dg h).2.
Proof.
  intros [Hm (r & Hr & Hs)] Hne. unfold release_acknowledged_terminal. cbv zeta. rewrite M_bind_run. unfold observed, on_registry'.
  pose proof (acknowledge_keeps (or_operation_id op) dg _ id r d p Hs Hr Hne) as Hk.
  destruct (acknowledge_terminal _ _ _) as [a g] eqn:Ha. cbn in Hk. pose proof (acknowledge_terminal_records _ _ _ _ _ Ha) as Hrec.
  rewrite M_bind_run. destruct a as [[]|e].
  - cbn. split; [|by exists r]. cbn. rewrite lookup_delete_ne; [done|]. intros E. cbn in Hrec.
    by rewrite Hrec, E, lookup_delete_eq in Hk.
  - destruct e; cbn; (split; [done | by exists r]).
Qed.

Lemma hand_step_keeps id d p meta quiet may_finish y y' :
  hand_step quiet may_finish (fun op dg => or_operation_id op = id -> dg <> d) y y' ->
  holds_terminal id d p meta (sy_hand y) -> holds_terminal id d p meta (sy_hand y').
Proof.
  destruct 1; cbn; intros Hh; try done.
  - by apply admit_and_spawn_keeps.
  - by apply finish_keeps.
  - by apply cancel_keeps.
  - unfold on_acks. by destruct (acknowledgement_exists _ _ _ _ _ _ _).
  - unfold on_acks. by destruct (retain _ _ _ _ _ _ _ _).
  - by apply release_keeps.
Qed.

(** ** Executions in progress *)
Definition holds_live (id digest : string) (meta : OperationMeta) (h : Hand) : Prop :=
  registry_live id digest TERMINAL_ENVELOPE_BYTES (h_registry h) /\ h_metadata h !! id = Some meta.

Lemma admit_and_spawn_live id' dg op tgt stdin id digest meta h :
  u64 TERMINAL_ENVELOPE_BYTES -> holds_live id digest meta h ->
  holds_live id digest meta (admit_and_spawn id' dg op tgt stdin h).2.
Proof.
  intros Hb [Hl Hm]. unfold admit_and_spawn, admit_operation. rewrite !M_bind_run, hand_registry_run.
  pose proof (call_keeps_live (CReserve id' dg TERMINAL_ENVELOPE_BYTES) _ _ _ _ Hb eq_refl Hl) as Hl1. cbn [run_call] in Hl1.
  destruct (reserve id' dg TERMINAL_ENVELOPE_BYTES (h_registry h)) as [res g] eqn:Hres. cbn [fst snd] in *.
  apply reserve_records in Hres as [(-> & Hnone & _) | [Hnew _]].
  - cbn [map_err]. rewrite M_bind_run. cbn [modify]. rewrite M_bind_run, hand_registry_run. cbn [h_registry set_registry set_metadata].
    pose proof (call_keeps_live (CMarkRunning id') _ _ _ _ I eq_refl Hl1) as Hl2. cbn [run_call] in Hl2.
    assert (id' <> id) by (intros ->; apply live_record in Hl as [r Hr]; congruence).
    destruct (mark_running id' g) as [[[]|e] g2]; cbn [map_err fst snd] in *;
      rewrite ?M_bind_run, ?M_ret_run; unfold spawn_execution; rewrite ?M_bind_run; cbn;
      (split; [done | cbn; by rewrite lookup_insert_ne]).
  - destruct res as [[]|e]; cbn [map_err]; [done| |by split].
    rewrite M_bind_run, get_run, M_bind_run, lift_run. by destruct (validate_operation_ref _ _) as [[]|].
Qed.

Lemma retain_terminal_live id' m t id digest meta h :
  id' <> id -> holds_live id digest meta h -> holds_live id digest meta (retain_terminal id' m t h).2.
Proof.
  intros Hne [Hl Hm]. unfold retain_terminal. destruct (encode_observation _) as [pl|]; [|done].
  rewrite M_bind_run. unfold observed. rewrite hand_registry_run. cbn. split; [|done].
  pose proof (call_keeps_live (CComplete id' (t_digest t) pl) _ _ _ _ I (proj2 (str_eqb_neq _ _) Hne) Hl) as H.
  cbn in H. by destruct (complete _ _ _ _).
Qed.

Lemma finish_live id' result id digest meta h :
  id' <> id -> holds_live id digest meta h -> holds_live id digest meta (finish id' result h).2.
Proof.
  intros Hne Hh. unfold finish. cbv zeta. rewrite M_bind_run, get_run. destruct (h_metadata h !! id') as [m|]; [|done].
  rewrite M_bind_run. pose proof (retain_terminal_live id' m (result_terminal (bounded_result result)) _ _ _ _ Hne Hh) as H1.
  destruct (retain_terminal _ _ _ h) as [[[]|e] h1]; cbn in H1; [done| |done].
  rewrite M_bind_run. pose proof (retain_terminal_live id' m (fallback_terminal (bounded_result result)) _ _ _ _ Hne H1) as H2.
  by destruct (retain_terminal _ _ _ h1) as [[b|e] h2].
Qed.

Lemma cancel_live op id digest meta h :
  holds_live id digest meta h -> holds_live id digest meta (cancel_section op h).2.
Proof.
  intros Hh. pose proof Hh as [Hl Hm]. unfold cancel_section. rewrite M_bind_run, get_run, M_bind_run, lift_run.
  destruct (validate_operation_ref _ _) as [[]|]; [|done]. rewrite M_bind_run, hand_registry_run.
  pose proof (call_keeps_live (CRequestCancel (or_operation_id op)) _ _ _ _ I eq_refl Hl) as H. cbn in H.
  destruct (request_cancel _ _) as [[b|e] g]; cbn in H |- *; [|done].
  rewrite M_bind_run. by destruct (b && _).
Qed.

Lemma release_live op dg id digest meta h :
  holds_live id digest meta h -> holds_live id digest meta (release_acknowledged_terminal op dg h).2.
Proof.
  intros [Hl Hm]. unfold release_acknowledged_terminal. cbv zeta. rewrite M_bind_run. unfold observed, on_registry'.
  destruct (decide (or_operation_id op = id)) as [->|Hne].
  - destruct (live_not_acknowledged _ _ _ dg _ Hl) as (e & -> & He). rewrite M_bind_run. by destruct e; cbn.
  - pose proof (call_keeps_live (CAcknowledge (or_operation_id op) dg) _ _ _ _ I eq_refl Hl) as H. cbn in H.
    destruct (acknowledge_terminal _ _ _) as [a g]. cbn in H. rewrite M_bind_run.
    destruct a as [[]|e]; [|by destruct e; cbn]. cbn. split; [done|]. cbn. by rewrite lookup_delete_ne.
Qed.

Lemma hand_step_live id digest meta quiet may_release y y' :
  u64 TERMINAL_ENVELOPE_BYTES -> hand_step quiet (fun id' => id' <> id) may_release y y' ->
  holds_live id digest meta (sy_hand y) -> holds_live id digest meta (sy_hand y').
Proof.
  intros Hb. destruct 1; cbn; intros Hh; try done.
  - by apply admit_and_spawn_live.
  - by apply finish_live.
  - by apply cancel_live.
  - unfold on_acks. by destruct (acknowledgement_exists _ _ _ _ _ _ _).
  - unfold on_acks. by destruct (retain _ _ _ _ _ _ _ _).
  - by apply release_live.
Qed.

(** An admission makes its operation live, with the metadata of its locator. *)
Lemma admitted_is_live id dg op tgt stdin h h' :
  u64 TERMINAL_ENVELOPE_BYTES -> registry_inv (h_registry h) ->
  admit_and_spawn id dg op tgt stdin h = (Ok RNew, h') -> holds_live id dg (mkOperationMeta op tgt stdin) h'.
Proof.
  intros Hb Hg. unfold admit_and_spawn, admit_operation. rewrite !M_bind_run, hand_registry_run.
  destruct (reserve id dg TERMINAL_ENVELOPE_BYTES (h_registry h)) as [[[]|e] g] eqn:Hres; cbn [fst snd map_err]; [| |done].
  - apply reserve_live in Hres; [|done..]. rewrite M_bind_run. cbn [modify]. rewrite M_bind_run, hand_registry_run.
    cbn [h_registry set_registry set_metadata].
    pose proof (call_keeps_live (CMarkRunning id) _ _ _ _ I eq_refl Hres) as Hl. cbn [run_call] in Hl.
    destruct (mark_running id g) as [[[]|e] g2]; cbn [map_err fst snd] in *; [|done].
    rewrite M_ret_run. unfold spawn_execution. rewrite M_bind_run. cbn. intros [= <-]. split; [done|]. cbn. by rewrite lookup_insert_eq.
  - rewrite M_bind_run, get_run, M_bind_run, lift_run. by destruct (validate_operation_ref _ _) as [[]|].
Qed.

Lemma finish_retains id digest meta payload result h :
  holds_live id digest meta h ->
  encode_observation (terminal_observation meta (result_terminal (bounded_result result))) = Some payload ->
  str_len payload <= TERMINAL_ENVELOPE_BYTES -> hex_digest (t_digest (result_terminal (bounded_result result))) ->
  holds_terminal id (t_digest (result_terminal (bounded_result result))) payload meta (finish id result h).2.
Proof.
  intros [[Hg Hl] Hm] He Hlen Hhex. unfold finish. cbv zeta. rewrite M_bind_run, get_run, Hm, M_bind_run.
  destruct (complete_live_Ok id digest _ _ payload _ Hg Hl Hhex Hlen) as [Hok (r & Hr & Hs)].
  unfold retain_terminal at 1. rewrite He, M_bind_run. unfold observed at 1. rewrite hand_registry_run.
  destruct (complete _ _ _ _) as [res g]. cbn [fst snd] in *. rewrite Hok. cbn. split; [done|]. by exists r.
Qed.

Lemma live_observation id digest meta h operation :
  holds_live id digest meta h -> or_operation_id operation = id ->
  exists st, observe_read operation h = Ok (mkOperationObservation "0" operation st (Some (om_target meta)) None)
    /\ (st = CAccepted \/ st = CRunning).
Proof.
  intros [[_ (r & Hr & Ht & _)] Hm] <-. cbn in Hr. unfold observe_read, observe. rewrite Hr. cbn [ok_or mbind result_bind].
  rewrite Hm. cbn [ok_or mbind result_bind]. destruct (state r); [eauto..|done].
Qed.

Lemma hand_steps_live id digest meta quiet may_release y y' :
  u64 TERMINAL_ENVELOPE_BYTES -> rtc (hand_step quiet (fun id' => id' <> id) may_release) y y' ->
  holds_live id digest meta (sy_hand y) -> holds_live id digest meta (sy_hand y').
Proof. intros Hb. induction 1 as [|? ? ? Hstep _ IH]; [done|]. intros Hl. by eapply IH, hand_step_live. Qed.

Lemma hand_steps_keep id d p meta quiet may_finish y y' :
  rtc (hand_step quiet may_finish (fun op dg => or_operation_id op = id -> dg <> d)) y y' ->
  holds_terminal id d p meta (sy_hand y) -> holds_terminal id d p meta (sy_hand y').
Proof. induction 1 as [|? ? ? Hstep _ IH]; [done|]. intros Hl. by eapply IH, hand_step_keeps. Qed.

(** C16: once a submission is admitted as new, and whatever other requests interleave: until its execution ends
    it is observed as accepted or running; when it ends, its terminal is retained as long as its observation
    fits the envelope reserved at admission, with the outcome of the execution, or with a failure when its
    inline result is over Brain's limit; and every later observation is exactly that terminal until its own
    digest is acknowledged and released, which the registry then accepts. *)
Theorem terminal_is_observed_until_released id dg op tgt stdin h h0 ps y result payload y' :
  let t := result_terminal (bounded_result result) in
  let observation := terminal_observation (mkOperationMeta op tgt stdin) t in
  u64 TERMINAL_ENVELOPE_BYTES -> registry_inv (h_registry h) -> or_operation_id op = id ->
  admit_and_spawn id dg op tgt stdin h = (Ok RNew, h0) ->
  rtc (hand_step false (fun id' => id' <> id) (fun _ _ => True)) (mkHandSystem h0 ps) y ->
  encode_observation observation = Some payload -> str_len payload <= TERMINAL_ENVELOPE_BYTES ->
  decode_observation payload = Some observation -> hex_digest (t_digest t) ->
  rtc (hand_step false (fun _ => True) (fun op' d => or_operation_id op' = id -> d <> t_digest t))
    (mkHandSystem (finish id result (sy_hand y)).2 (sy_pending y)) y' ->
  (exists st, observe_read op (sy_hand y) = Ok (mkOperationObservation "0" op st (Some tgt) None)
     /\ (st = CAccepted \/ st = CRunning))
  /\ observe_read op (sy_hand y') = Ok observation
  /\ t_outcome t = (if terminal_inline_fits (x_inline result) then x_outcome result else Failed)
  /\ validate_terminal_ack id (t_digest t) (h_registry (sy_hand y')) = Ok tt.
Proof.
  intros t observation Hb Hg Hid Hadmit Hrun He Hlen Hdec Hhex Hrun'.
  pose proof (admitted_is_live _ _ _ _ _ _ _ Hb Hg Hadmit) as Hl0.
  pose proof (hand_steps_live _ _ _ _ _ _ _ Hb Hrun Hl0) as Hl.
  pose proof (finish_retains _ _ _ _ result _ Hl He Hlen Hhex) as Ht.
  pose proof (hand_steps_keep _ _ _ _ _ _ _ _ Hrun' Ht) as [Hm (r & Hr & Hs)].
  split; [by apply (live_observation _ _ _ _ op) in Hl|]. split; [|split].
  - unfold observe_read, observe. rewrite Hid, Hr. cbn [ok_or mbind result_bind]. rewrite Hm. cbn [ok_or mbind result_bind].
    by rewrite Hs, Hdec.
  - unfold t, result_terminal, bounded_result. by destruct (terminal_inline_fits _).
  - destruct Hl as [[Hinv (r0 & Hr0 & _)] _]. destruct (inv_wf _ Hinv id r0 Hr0) as (_ & Hident & _).
    unfold validate_terminal_ack. apply (op_validate_identifier_Ok _ "operation_id") in Hident.
    apply (op_validate_digest_Ok _ "terminal_digest") in Hhex. rewrite Hident. cbn [mbind result_bind]. rewrite Hhex.
    cbn [mbind result_bind]. rewrite Hr. cbn [ok_or mbind result_bind]. rewrite Hs. fold t. by rewrite str_eqb_refl.
Qed.
End operations.

(** ** Examples: one execution, and the race between a late submission and an acknowledgement *)
Definition sample_op : OperationRef :=
  mkOperationRef "gen-1" "op-1" "receipt:1" digest_a
    (mkSandboxTarget "b-1" DefaultTarget "root-1" None "session-1") "vm-1".
Definition sample_receipt : TargetReceipt := mkTargetReceipt 2000 "gen-1" "vm-1".
Definition sample_meta : OperationMeta := mkOperationMeta sample_op sample_receipt false.
Definition sample_result : @ExecutionResult string string := mkExecutionResult "completed" "42" false (Some 0) 5.
Definition sample_fits (inline : string) : bool := str_len inline <? 64.
Definition sample_result_digest (t : @TerminalResult string string) : string := digest_b.
Definition sample_terminal_obs : @OperationObservation string string :=
  terminal_observation sample_meta (result_terminal sample_result_digest (bounded_result sample_fits "failed" "too long" sample_result)).
Definition sample_encode (o : @OperationObservation string string) : option string := Some "observation".
Definition sample_decode (payload : string) : option (@OperationObservation string string) := Some sample_terminal_obs.
Definition sample_jcs_operation (o : OperationRef) : option (list Ascii.ascii) :=
  Some (bytes_of (or_operation_id o +:+ or_request_digest o)).
Definition sample_canonical_ref (o : OperationRef) : option string := Some digest_b.

Definition sample_admit := admit_and_spawn (Inline := string) (Outcome := string) 64 sample_jcs_operation.
Definition sample_finish := finish sample_fits "failed" "interrupted" "too long" "no room" sample_result_digest sample_encode.
Definition sample_hand_step quiet := hand_step (Inline := string) (Outcome := string) 64 sample_fits "failed" "interrupted" "too long"
  "no room" sample_result_digest sample_encode sample_jcs_operation sample_to_json sample_canonical_ref quiet
  (fun _ => True) (fun _ _ => True).
Definition sample_hand_retain (h : @Hand string string) : Hand :=
  (on_acks (retain sample_to_json or_operation_id or_request_digest sample_canonical_ref io_good sample_op digest_b) h).2.

Definition hand_0 : @Hand string string := hand_new sample_ack_store.
Definition hand_1 : Hand := (sample_admit "op-1" digest_a sample_op sample_receipt false hand_0).2.
Definition hand_2 : Hand := (sample_finish "op-1" sample_result hand_1).2.
Definition hand_3 : Hand := sample_hand_retain hand_2.
Definition hand_4 : Hand := (release_acknowledged_terminal sample_op digest_b hand_3).2.
Definition hand_5 : Hand := (sample_admit "op-1" digest_a sample_op sample_receipt false hand_4).2.

Lemma operation_executes_at_most_once_witness : h_spawned hand_4 = ["op-1"] /\ NoDup (h_spawned hand_4).
Proof.
  split; [vm_compute; reflexivity|].
  apply (operation_executes_at_most_once 64 sample_fits "failed" "interrupted" "too long" "no room" "fault"
    sample_result_digest sample_encode sample_decode (fun _ => true) sample_jcs_operation sample_to_json
    sample_canonical_ref sample_ack_store (mkHandSystem hand_4 [])).
  apply (rtc_l _ _ (mkHandSystem hand_0 [("op-1", digest_a)])); [apply StepFence; reflexivity|].
  apply (rtc_l _ _ (mkHandSystem hand_1 []));
    [exact (StepAdmit _ _ _ _ _ _ _ _ _ _ _ _ _ _ hand_0 [] "op-1" digest_a [] sample_op sample_receipt false)|].
  apply (rtc_l _ _ (mkHandSystem hand_2 []));
    [apply StepFinish; [replace (h_spawned hand_1) with ["op-1"] by (vm_compute; reflexivity); set_solver | done]|].
  apply (rtc_l _ _ (mkHandSystem hand_3 [])); [apply StepRetain; intros _ d; set_solver|].
  apply (rtc_l _ _ (mkHandSystem hand_4 [])); [|apply rtc_refl].
  apply StepRelease; [done|]. exists (mkAcknowledgedOperation "op-1" digest_a digest_b digest_b). vm_compute. reflexivity.
Defined.


Lemma terminal_is_observed_until_released_witness :
  hand_1 = (sample_admit "op-1" digest_a sample_op sample_receipt false hand_0).2
  /\ observe_read sample_decode sample_op hand_3 = Ok sample_terminal_obs.
Proof.
  split; [reflexivity|].
  apply (terminal_is_observed_until_released 64 sample_fits "failed" "interrupted" "too long" "no room"
    sample_result_digest sample_encode sample_decode sample_jcs_operation sample_to_json
    sample_canonical_ref "op-1" digest_a sample_op sample_receipt false hand_0 hand_1 []
    (mkHandSystem hand_1 []) sample_result "observation" (mkHandSystem hand_3 [])).
  - split; vm_compute; discriminate.
  - apply registry_new_inv; [done | split; vm_compute; discriminate].
  - reflexivity.
  - vm_compute. reflexivity.
  - apply rtc_refl.
  - reflexivity.
  - vm_compute. discriminate.
  - reflexivity.
  - apply digest_b_hex.
  - apply (rtc_l _ _ (mkHandSystem hand_3 [])); [|apply rtc_refl]. apply StepRetain. done.
Defined.
