(* ===== verification/GuestStdin.v ===== *)
(** * hand-guest: interactive stdin

    Models crates/hand-guest/src/hand/stdin.rs: a write to the input of a running execution is reserved under
    its own operation id before the pipe is touched, so that an exact retry replays the receipt instead of
    writing again. The critical sections are operations of the same state as the operation lifecycle; the
    pipe's answer is an input, and [sent] is the ghost list of the writes that reached it. *)
From S2P Require Import Prelude Policy Operation AppendLog Acks GuestErrors GuestTarget GuestInstall GuestOperations.

Section stdin.
Context {Inline Outcome : Type}.
Context (jcs_operation : OperationRef -> option (list Ascii.ascii)).
Context (decode_observation : string -> option (@OperationObservation Inline Outcome)).

Record WriteStdinRequest := mkWriteStdinRequest {
  wr_operation_id : string; wr_execution_id : string; wr_request_digest : string; wr_target : SandboxTarget;
  wr_expected_generation : string; wr_text : string; wr_eof : bool }.
Notation HandState := (@Hand Inline Outcome).
Notation Receipt := (@WriteStdinReceipt Inline Outcome).

(** ** Critical sections *)

(** One turn of the reservation loop. *)
Inductive StdinTurn := TurnReplay (receipt : Receipt) | TurnWait | TurnReserved.

Definition stdin_reserve (request : WriteStdinRequest) : M HandState HandError StdinTurn :=
  h ← get;
  match h_stdin h !! wr_operation_id request with
  | Some (StdinComplete existing) =>
      if str_eqb (ws_request_digest existing) (wr_request_digest request) then mret (TurnReplay existing)
      else throw stdin_conflict
  | Some (InFlight digest) =>
      if negb (str_eqb digest (wr_request_digest request)) then throw stdin_conflict else mret TurnWait
  | None =>
      if MAX_RETAINED_STDIN_WRITES <=? Z.of_nat (size (h_stdin h)) then throw (hand_error ResourceExhausted false)
      else
        _ ← modify (fun h => set_stdin (<[wr_operation_id request := InFlight (wr_request_digest request)]> (h_stdin h)) h);
        mret TurnReserved
  end.

Definition replayed_receipt (r : Receipt) (observation : OperationObservation) : Receipt :=
  mkWriteStdinReceipt (ws_accepted r) observation (ws_operation_id r) true (ws_request_digest r).

(** Whether this request writes to the pipe at all: an empty text without EOF only observes. *)
Definition writes_pipe (control : bool) (request : WriteStdinRequest) : bool :=
  negb (str_eqb (wr_text request) EmptyString && negb (wr_eof request)) && control.

(** After the write: the observation, and the receipt that settles the reservation. *)
Definition stdin_settle (request : WriteStdinRequest) (operation : OperationRef) (accepted : bool)
    : M HandState HandError Receipt :=
  observation ← observe_inner decode_observation jcs_operation operation;
  let receipt := mkWriteStdinReceipt accepted observation (wr_operation_id request) false (wr_request_digest request) in
  h ← get;
  match h_stdin h !! wr_operation_id request with
  | Some (InFlight digest) =>
      if str_eqb digest (wr_request_digest request) then
        _ ← modify (set_stdin (<[wr_operation_id request := StdinComplete receipt]> (h_stdin h)));
        mret receipt
      else throw stdin_conflict
  | _ => throw stdin_conflict
  end.

(** ** Interleavings *)

(** A reserved write that has not settled: written to the pipe or not yet. *)
Record StdinSystem := mkStdinSystem {
  sd_hand : HandState;
  sd_open : list (WriteStdinRequest * OperationRef * bool * bool);  (* request, locator, control, written *)
  sd_sent : list string }.

Inductive stdin_step : StdinSystem -> StdinSystem -> Prop :=
  | StdinReserve h opn sent request operation control h' :
      stdin_reserve request h = (Ok TurnReserved, h') ->
      stdin_step (mkStdinSystem h opn sent) (mkStdinSystem h' ((request, operation, control, false) :: opn) sent)
  | StdinRefuse h opn sent request r h' :
      stdin_reserve request h = (r, h') -> r <> Ok TurnReserved ->
      stdin_step (mkStdinSystem h opn sent) (mkStdinSystem h' opn sent)
  | StdinSend h l1 request operation control l2 sent :
      stdin_step (mkStdinSystem h (l1 ++ (request, operation, control, false) :: l2) sent)
        (mkStdinSystem h (l1 ++ (request, operation, control, true) :: l2)
           (if writes_pipe control request then wr_operation_id request :: sent else sent))
  | StdinSettle h l1 request operation control l2 sent accepted :
      (accepted = true -> writes_pipe control request = true) ->
      stdin_step (mkStdinSystem h (l1 ++ (request, operation, control, true) :: l2) sent)
        (mkStdinSystem (stdin_settle request operation accepted h).2 (l1 ++ l2) sent)
  (** Everything else the guest does, short of releasing an execution: it leaves the receipts alone. *)
  | StdinOther h h' opn sent :
      h_stdin h' = h_stdin h -> stdin_step (mkStdinSystem h opn sent) (mkStdinSystem h' opn sent).

(** ** A whole request, alone *)
Section request.
Context (MAX_WRITE_STDIN_BYTES : Z) (jcs_target : SandboxTarget -> option (list Ascii.ascii)).
Context (write_stdin_request_digest : WriteStdinRequest -> string).

(** The request is validated and tied to its execution: whether there is a control, and the locator. *)
Definition stdin_execution {Allow : Type} (now : Z) (target : option (@ArmedTarget Allow)) (request : WriteStdinRequest)
    (h : HandState) : result HandError (bool * OperationRef) :=
  if negb (str_eqb (write_stdin_request_digest request) (wr_request_digest request)) then Err invalid
  else if MAX_WRITE_STDIN_BYTES <? str_len (wr_text request) then Err invalid
  else
    target ← fence now (sx_root_id (wr_target request)) (wr_expected_generation request) target;
    meta ← ok_or (operation_error Unknown) (h_metadata h !! wr_execution_id request);
    let op := om_operation meta in
    same ← (if negb (str_eqb (or_operation_id op) (wr_execution_id request)) then Ok false
            else canonical_equal jcs_target (or_target op) (wr_target request));
    if negb same || negb (str_eqb (or_generation op) (ts_generation target))
       || negb (str_eqb (or_target_ref op) (ts_target_ref target))
       || negb (str_eqb (tr_target_ref (om_target meta)) (ts_target_ref target))
       || negb (str_eqb (tr_generation (om_target meta)) (ts_generation target))
    then Err (hand_error OperationConflict false)
    else Ok (om_stdin meta, op).

Definition write_stdin {Allow : Type} (now : Z) (target : option (@ArmedTarget Allow)) (pipe : bool)
    (request : WriteStdinRequest) : M HandState HandError Receipt :=
  h ← get;
  '(control, operation) ← lift (stdin_execution now target request h);
  turn ← stdin_reserve request;
  match turn with
  | TurnReplay existing =>
      observation ← observe_inner decode_observation jcs_operation operation;
      mret (replayed_receipt existing observation)
  | TurnWait => throw unavailable
  | TurnReserved => stdin_settle request operation (writes_pipe control request && pipe)
  end.

End request.

(** ** Properties *)
Definition open_id (o : WriteStdinRequest * OperationRef * bool * bool) : string := wr_operation_id o.1.1.1.

Record stdin_inv (y : StdinSystem) : Prop := {
  si_sent : NoDup (sd_sent y);
  si_known : forall id, id ∈ sd_sent y -> id ∈ dom (h_stdin (sd_hand y));
  si_open : NoDup (map open_id (sd_open y));
  si_reserved : forall rq op c w, (rq, op, c, w) ∈ sd_open y ->
    h_stdin (sd_hand y) !! wr_operation_id rq = Some (InFlight (wr_request_digest rq));
  si_unsent : forall rq op c, (rq, op, c, false) ∈ sd_open y -> wr_operation_id rq ∉ sd_sent y;
  si_written : forall rq op c, (rq, op, c, true) ∈ sd_open y -> writes_pipe c rq = true -> wr_operation_id rq ∈ sd_sent y;
  si_complete : forall id r, h_stdin (sd_hand y) !! id = Some (StdinComplete r) ->
    ws_operation_id r = id /\ (ws_accepted r = true -> id ∈ sd_sent y);
}.

Lemma observe_inner_state operation (h : HandState) :
  (observe_inner decode_observation jcs_operation operation h).2 = h.
Proof.
  unfold observe_inner. rewrite M_bind_run, get_run, M_bind_run, lift_run.
  destruct (observe_check _ _ _); [|done]. by rewrite M_bind_run, get_run, lift_run.
Qed.

Lemma stdin_reserve_cases request h r h' :
  stdin_reserve request h = (r, h') ->
  (r = Ok TurnReserved /\ h_stdin h !! wr_operation_id request = None
     /\ h' = set_stdin (<[wr_operation_id request := InFlight (wr_request_digest request)]> (h_stdin h)) h)
  \/ (r <> Ok TurnReserved /\ h' = h).
Proof.
  unfold stdin_reserve. rewrite M_bind_run, get_run.
  destruct (h_stdin h !! wr_operation_id request) as [[digest|existing]|] eqn:Hl.
  - destruct (negb _); intros [= <- <-]; by right.
  - destruct (str_eqb _ _); intros [= <- <-]; by right.
  - destruct (_ <=? _); [intros [= <- <-]; by right|]. rewrite M_bind_run. cbn. intros [= <- <-]. by left.
Qed.

Lemma stdin_settle_cases request operation accepted h :
  let h' := (stdin_settle request operation accepted h).2 in
  h' = h \/ exists r, ws_operation_id r = wr_operation_id request /\ ws_accepted r = accepted
    /\ h' = set_stdin (<[wr_operation_id request := StdinComplete r]> (h_stdin h)) h.
Proof.
  unfold stdin_settle. rewrite M_bind_run. pose proof (observe_inner_state operation h) as Ho.
  destruct (observe_inner _ _ _ h) as [[obs|e] h1]; cbn in Ho; subst h1; [|by left].
  cbv zeta. rewrite M_bind_run, get_run. destruct (h_stdin h !! _) as [[digest|existing]|]; [|by left..].
  destruct (str_eqb _ _); [|by left]. rewrite M_bind_run. cbn. right.
  eexists. split; [|split; [|reflexivity]]; reflexivity.
Qed.

Lemma NoDup_open_middle l1 (o : WriteStdinRequest * OperationRef * bool * bool) l2 o' :
  NoDup (map open_id (l1 ++ o :: l2)) -> o' ∈ l1 ++ l2 -> open_id o' <> open_id o.
Proof.
  rewrite map_app. cbn. rewrite NoDup_app, NoDup_cons. intros (_ & Hd & Hn & _) Hin E.
  apply elem_of_app in Hin as [Hin|Hin].
  - eapply (Hd (open_id o')); [by apply list_elem_of_fmap_2|]. rewrite E. left.
  - apply Hn. rewrite <- E. by apply list_elem_of_fmap_2.
Qed.

Lemma stdin_reserve_inv h opn sent rq op c h' :
  stdin_reserve rq h = (Ok TurnReserved, h') -> stdin_inv (mkStdinSystem h opn sent) ->
  stdin_inv (mkStdinSystem h' ((rq, op, c, false) :: opn) sent).
Proof.
  intros [(_ & Hnone & ->) | [H _]]%stdin_reserve_cases [H1 H2 H3 H4 H5 H6 H7]; [|done]. cbn in *.
  assert (Hunsent : wr_operation_id rq ∉ sent) by (intros Hin%H2; by apply not_elem_of_dom in Hnone).
  assert (Hclosed : forall o, o ∈ opn -> open_id o <> wr_operation_id rq).
  { intros [[[rq' op'] c'] w] Hin E. unfold open_id in E. cbn in E. rewrite <- E, (H4 _ _ _ _ Hin) in Hnone. done. }
  constructor; cbn; [done| | | | | |].
  - intros id Hin. rewrite dom_insert. set_solver.
  - constructor; [|done]. intros Hin. apply list_elem_of_fmap in Hin as (o & E & Ho). by apply (Hclosed o).
  - intros rq' op' c' w [[= -> -> -> ->]|Hin]%elem_of_cons; [by rewrite lookup_insert_eq|].
    rewrite lookup_insert_ne; [by eapply H4|]. intros E. by apply (Hclosed _ Hin).
  - intros rq' op' c' [[= -> -> ->]|Hin]%elem_of_cons; [done | by eapply H5].
  - intros rq' op' c' [[=]|Hin]%elem_of_cons. by eapply H6.
  - intros id r. rewrite lookup_insert_Some. intros [[_ [=]] | [_ Hr]]. by apply H7.
Qed.

Lemma stdin_send_inv h l1 rq op c l2 sent :
  stdin_inv (mkStdinSystem h (l1 ++ (rq, op, c, false) :: l2) sent) ->
  stdin_inv (mkStdinSystem h (l1 ++ (rq, op, c, true) :: l2)
    (if writes_pipe c rq then wr_operation_id rq :: sent else sent)).
Proof.
  intros [H1 H2 H3 H4 H5 H6 H7]. cbn in *.
  assert (Hin : (rq, op, c, false) ∈ l1 ++ (rq, op, c, false) :: l2) by set_solver.
  assert (Hother : forall o w, o ∈ l1 ++ (rq, op, c, true) :: l2 -> o = (rq, op, c, true) \/ (o ∈ l1 ++ (rq, op, c, w) :: l2 /\ open_id o <> wr_operation_id rq)).
  { intros o w Ho. apply elem_of_app in Ho. rewrite elem_of_cons in Ho.
    destruct Ho as [Ho|[->|Ho]]; [right|by left|right]; (split; [set_solver|]);
      apply (NoDup_open_middle _ _ _ o H3); set_solver. }
  pose proof (H5 _ _ _ Hin) as Hunsent. pose proof (H4 _ _ _ _ Hin) as Hres.
  assert (Hmem : forall id, id ∈ (if writes_pipe c rq then wr_operation_id rq :: sent else sent)
    <-> id ∈ sent \/ (writes_pipe c rq = true /\ id = wr_operation_id rq)).
  { intros id. destruct (writes_pipe c rq); rewrite ?elem_of_cons; intuition congruence. }
  constructor; cbn.
  - destruct (writes_pipe c rq); [by constructor | done].
  - intros id [?|[_ ->]]%Hmem; [by apply H2|]. apply elem_of_dom. by eexists.
  - by rewrite map_app in *.
  - intros rq' op' c' w Ho. destruct (Hother _ false Ho) as [[= -> -> -> ->]|[Ho' _]]; [done | by eapply H4].
  - intros rq' op' c' Ho. destruct (Hother _ false Ho) as [[=]|[Ho' Hne]]. rewrite Hmem.
    intros [?|[_ E]]; [by eapply H5 | by apply Hne].
  - intros rq' op' c' Ho Hw. rewrite Hmem. destruct (Hother _ false Ho) as [[= -> -> ->]|[Ho' Hne]]; [by right|].
    left. by eapply H6.
  - intros id r Hr. destruct (H7 id r Hr) as [Hid Ha]. split; [done|]. intros Hacc. rewrite Hmem. left. by apply Ha.
Qed.

Lemma stdin_settle_inv h l1 rq op c l2 sent accepted :
  (accepted = true -> writes_pipe c rq = true) ->
  stdin_inv (mkStdinSystem h (l1 ++ (rq, op, c, true) :: l2) sent) ->
  stdin_inv (mkStdinSystem (stdin_settle rq op accepted h).2 (l1 ++ l2) sent).
Proof.
  intros Hacc [H1 H2 H3 H4 H5 H6 H7]. cbn in *.
  assert (Hin : (rq, op, c, true) ∈ l1 ++ (rq, op, c, true) :: l2) by set_solver.
  assert (Hrest : forall o, o ∈ l1 ++ l2 -> o ∈ l1 ++ (rq, op, c, true) :: l2 /\ open_id o <> wr_operation_id rq).
  { intros o Ho. split; [set_solver|]. by apply (NoDup_open_middle _ _ _ o H3). }
  assert (Hnd : NoDup (map open_id (l1 ++ l2))).
  { rewrite map_app in *. cbn in H3. eapply NoDup_Permutation_proper in H3; [|by rewrite <- Permutation_middle]. by apply NoDup_cons in H3 as [_ ?]. }
  destruct (stdin_settle_cases rq op accepted h) as [-> | (r & Hid & Ha & ->)].
  - constructor; cbn; try done; intros; edestruct Hrest; eauto.
  - constructor; cbn; try done.
    + intros id Hs. rewrite dom_insert. set_solver.
    + intros rq' op' c' w Ho. destruct (Hrest _ Ho) as [Ho' Hne]. rewrite lookup_insert_ne; [by eapply H4|]. by apply not_eq_sym.
    + intros rq' op' c' Ho. destruct (Hrest _ Ho) as [Ho' _]. by eapply H5.
    + intros rq' op' c' Ho. destruct (Hrest _ Ho) as [Ho' _]. by eapply H6.
    + intros id r'. rewrite lookup_insert_Some. intros [[<- [= <-]] | [_ Hr]]; [|by apply H7].
      split; [done|]. intros Hr. eapply H6; [exact Hin | apply Hacc; congruence].
Qed.

(** A settled or refused write leaves the other reservations as they were. *)
Lemma stdin_step_inv y y' : stdin_step y y' -> stdin_inv y -> stdin_inv y'.
Proof.
  destruct 1 as [h opn sent rq op c h' Hr|h opn sent rq r h' Hr Hne|h l1 rq op c l2 sent|h l1 rq op c l2 sent acc Hacc|h h' opn sent Hh];
    intros Hinv.
  - by apply stdin_reserve_inv with (h := h).
  - apply stdin_reserve_cases in Hr as [(-> & _) | [_ ->]]; done.
  - by apply stdin_send_inv.
  - by eapply stdin_settle_inv.
  - destruct Hinv as [H1 H2 H3 H4 H5 H6 H7]. by constructor; cbn in *; rewrite ?Hh.
Qed.


(** A write whose execution was released meanwhile cannot settle: its reservation stays, also through later
    releases, and keeps one of the bounded slots for good. *)
Lemma orphaned_reservation_stays rq operation accepted digest h :
  h_metadata h !! or_operation_id operation = None ->
  stdin_settle rq operation accepted h = (Err (operation_error Unknown), h)
  /\ forall op d, h_stdin h !! wr_operation_id rq = Some (InFlight digest) ->
       h_stdin (release_acknowledged_terminal op d h).2 !! wr_operation_id rq = Some (InFlight digest).
Proof.
  intros Hm. split.
  - unfold stdin_settle, observe_inner. rewrite !M_bind_run, get_run, M_bind_run, lift_run. unfold observe_check. by rewrite Hm.
  - intros op d Hs. unfold release_acknowledged_terminal. cbv zeta. rewrite M_bind_run. unfold observed, on_registry'.
    destruct (acknowledge_terminal _ _ _) as [a g]. rewrite M_bind_run.
    destruct a as [[]|[]]; cbn; try done; apply map_lookup_filter_Some; by split.
Qed.
End stdin.

(** ** Example: a write and its retry *)
Definition sample_write : WriteStdinRequest :=
  mkWriteStdinRequest "in-1" "op-1" digest_b (or_target sample_op) "gen-1" "hello" false.
Definition sample_stdin_system : @StdinSystem string string := mkStdinSystem hand_1 [] [].
Definition sample_reserved : @Hand string string := (stdin_reserve sample_write hand_1).2.
Definition sample_settled : @Hand string string :=
  (stdin_settle sample_jcs_operation sample_decode sample_write sample_op true sample_reserved).2.

