(* ===== verification/DynamoTable.v ===== *)
(** * The DynamoDB calls of hand-brain-aws

    The vocabulary in which crates/hand-brain-aws/src/registry.rs and dynamo.rs talk to DynamoDB: items,
    the condition and update expressions the registry sends, and its operations as programs whose only
    effects are service calls. DynamoDB is outside the repository: a program is a tree of calls that
    branches on every possible response, and [db_step] states what the service documents about them (reads
    are strongly consistent, a write or transaction applies wholly or not at all, a refused one changed
    nothing, a call that fails otherwise may or may not have been applied). *)
From S2P Require Import Prelude.

(** ** Items *)
Inductive AttributeValue := AS (s : string) | AN (n : string) | AB (b : list Ascii.ascii).

#[global] Instance AttributeValue_eq_dec : EqDecision AttributeValue.
Proof. solve_decision. Defined.

Definition attr_s (value : string) : AttributeValue := AS value.
Definition attr_n (value : Z) : AttributeValue := AN (print_uint value).
Definition attr_b (value : string) : AttributeValue := AB (bytes_of value).

Definition as_s (v : AttributeValue) : option string := match v with AS s => Some s | _ => None end.
Definition as_n (v : AttributeValue) : option string := match v with AN n => Some n | _ => None end.
Definition as_b (v : AttributeValue) : option (list Ascii.ascii) := match v with AB b => Some b | _ => None end.

Notation Item := (gmap string AttributeValue).
Notation ItemKey := (string * string)%type.
Notation Table := (gmap ItemKey Item).

(** ** Condition and update expressions *)
Inductive Cond :=
  | CAlways  (** an unconditional write *)
  | CNotExists (attr : string)
  | CEq (attr : string) (v : AttributeValue)
  | CLe (attr : string) (v : AttributeValue)
  | CGt (attr : string) (v : AttributeValue)
  | CGe (attr : string) (v : AttributeValue)
  | CAnd (a b : Cond)
  | COr (a b : Cond).

Inductive SetValue :=
  | SetTo (v : AttributeValue)
  | SetPlusDefault (attr : string) (zero v : AttributeValue)  (* if_not_exists(attr, zero) + v *)
  | SetMinus (attr : string) (v : AttributeValue).

Record UpdateExpr := mkUpdateExpr { set_exprs : list (string * SetValue); remove_exprs : list string }.

Inductive TableWrite :=
  | WPut (key : ItemKey) (item : Item) (cond : Cond)
  | WUpdate (key : ItemKey) (cond : Cond) (upd : UpdateExpr)
  | WDelete (key : ItemKey) (cond : Cond).

Definition ROOT_ID : string := "root_id".
Definition TARGET_KEY : string := "target_key".

(** The registry stores only unsigned integers. *)
Definition num_of (v : AttributeValue) : option Z := as_n v ≫= parse_uint U64_MAX.

#[global] Arguments print_uint : simpl never.
#[global] Arguments parse_uint : simpl never.
#[global] Arguments num_of : simpl never.
#[global] Arguments attr_n : simpl never.

Definition compare_num (cmp : Z -> Z -> bool) (a : option AttributeValue) (v : AttributeValue) : bool :=
  match a ≫= num_of, num_of v with Some x, Some y => cmp x y | _, _ => false end.

Definition attr_of (item : option Item) (a : string) : option AttributeValue := i ← item; i !! a.

Fixpoint cond_holds (c : Cond) (item : option Item) : bool :=
  match c with
  | CAlways => true
  | CNotExists a => bool_decide (attr_of item a = None)
  | CEq a v => bool_decide (attr_of item a = Some v)
  | CLe a v => compare_num Z.leb (attr_of item a) v
  | CGt a v => compare_num (fun x y => y <? x) (attr_of item a) v
  | CGe a v => compare_num (fun x y => y <=? x) (attr_of item a) v
  | CAnd a b => cond_holds a item && cond_holds b item
  | COr a b => cond_holds a item || cond_holds b item
  end.

Definition set_value (old : option Item) (sv : SetValue) : option AttributeValue :=
  match sv with
  | SetTo v => Some v
  | SetPlusDefault a zero v =>
      x ← num_of (default zero (attr_of old a)); y ← num_of v; Some (attr_n (x + y))
  | SetMinus a v => old ← attr_of old a; x ← num_of old; y ← num_of v; Some (attr_n (x - y))
  end.

Definition key_item (key : ItemKey) : Item := <[ROOT_ID := AS key.1]> (<[TARGET_KEY := AS key.2]> ∅).

Fixpoint apply_sets (old : option Item) (sets : list (string * SetValue)) (item : Item) : option Item :=
  match sets with
  | [] => Some item
  | (a, sv) :: sets => v ← set_value old sv; apply_sets old sets (<[a := v]> item)
  end.

Definition apply_update (key : ItemKey) (upd : UpdateExpr) (old : option Item) : option Item :=
  item ← apply_sets old (set_exprs upd) (default (key_item key) old);
  Some (foldl (fun i a => delete a i) item (remove_exprs upd)).

Definition apply_write (w : TableWrite) (t : Table) : option Table :=
  match w with
  | WPut key item cond => if cond_holds cond (t !! key) then Some (<[key := item]> t) else None
  | WUpdate key cond upd =>
      if cond_holds cond (t !! key) then item ← apply_update key upd (t !! key); Some (<[key := item]> t) else None
  | WDelete key cond => if cond_holds cond (t !! key) then Some (delete key t) else None
  end.

(** One call, or one transaction over distinct items. *)
Fixpoint apply_writes (ws : list TableWrite) (t : Table) : option Table :=
  match ws with
  | [] => Some t
  | w :: ws => t ← apply_write w t; apply_writes ws t
  end.

Definition write_key (w : TableWrite) : ItemKey :=
  match w with WPut key _ _ => key | WUpdate key _ _ => key | WDelete key _ => key end.

(** ** Service errors (dynamo.rs) *)
Inductive SdkError :=
  | ServiceError (code message : option string)
  | OtherSdkError (text : string).

Definition conditional_failure (e : SdkError) : bool :=
  match e with ServiceError code _ => bool_decide (code = Some "ConditionalCheckFailedException") | OtherSdkError _ => false end.

Definition transaction_cancelled (e : SdkError) : bool :=
  match e with ServiceError code _ => bool_decide (code = Some "TransactionCanceledException") | OtherSdkError _ => false end.

Definition storage_detail (operation : string) (e : SdkError) : string :=
  let description := match e with
    | ServiceError code message => default "service error" code +:+ ": " +:+ default "" message
    | OtherSdkError text => text
    end in
  operation +:+ ": " +:+ description.

(** ** Programs over the service *)

(** A write's response carries the new item when [ReturnValue::AllNew] was asked for. *)
Inductive Db (A : Type) :=
  | DbRet (a : A)
  | DbGet (key : ItemKey) (k : result SdkError (option Item) -> Db A)
  | DbWrite (ws : list TableWrite) (k : result SdkError (option Item) -> Db A)
  | DbQuery (root prefix : string) (start : option string) (limit : Z)
      (k : result SdkError (list Item * option string) -> Db A).
Arguments DbRet {A} _.
Arguments DbGet {A} _ _.
Arguments DbWrite {A} _ _.
Arguments DbQuery {A} _ _ _ _ _.

Fixpoint db_bind {A B : Type} (m : Db A) (f : A -> Db B) : Db B :=
  match m with
  | DbRet a => f a
  | DbGet key k => DbGet key (fun r => db_bind (k r) f)
  | DbWrite ws k => DbWrite ws (fun r => db_bind (k r) f)
  | DbQuery root prefix start limit k => DbQuery root prefix start limit (fun r => db_bind (k r) f)
  end.

(** Fallible programs. *)
Definition DbM (E A : Type) : Type := Db (result E A).

#[global] Instance DbM_ret {E} : MRet (DbM E) := fun A a => DbRet (Ok a).
#[global] Instance DbM_bind {E} : MBind (DbM E) := fun A B f m =>
  db_bind m (fun r => match r with Ok a => f a | Err e => DbRet (Err e) end).

Definition db_throw {E A : Type} (e : E) : DbM E A := DbRet (Err e).
Definition db_lift {E A : Type} (r : result E A) : DbM E A := DbRet r.
Definition db_get {E} (key : ItemKey) : DbM E (result SdkError (option Item)) := DbGet key (fun r => DbRet (Ok r)).
Definition db_write {E} (ws : list TableWrite) : DbM E (result SdkError (option Item)) :=
  DbWrite ws (fun r => DbRet (Ok r)).
Definition db_query {E} (root prefix : string) (start : option string) (limit : Z)
    : DbM E (result SdkError (list Item * option string)) :=
  DbQuery root prefix start limit (fun r => DbRet (Ok r)).

(** A refusal: the service reports the condition or the transaction failed. *)
Definition refused (e : SdkError) : bool := conditional_failure e || transaction_cancelled e.

(** The answer of a strongly consistent query by key prefix, without a filter: at most [limit] rows of the
    partition with that prefix, past the start key; no row only if there is none. *)
Definition in_query (root prefix : string) (start : option string) (key : ItemKey) : Prop :=
  key.1 = root /\ starts_with prefix key.2 = true
  /\ match start with Some after => str_ltb after key.2 = true | None => True end.

Definition query_answer (t : Table) (root prefix : string) (start : option string) (limit : Z)
    (r : result SdkError (list Item * option string)) : Prop :=
  match r with
  | Err _ => True
  | Ok (items, _) =>
      len items <= limit
      /\ Forall (fun item => exists key, in_query root prefix start key /\ t !! key = Some item) items
      /\ (items = [] -> forall key, in_query root prefix start key -> t !! key = None)
  end.

(** One service call. *)
Inductive db_step {A : Type} : Db A * Table -> Db A * Table -> Prop :=
  | StepGet key k t : db_step (DbGet key k, t) (k (Ok (t !! key)), t)
  | StepGetFail key k t e : db_step (DbGet key k, t) (k (Err e), t)
  | StepWrite ws k t t1 :
      apply_writes ws t = Some t1 ->
      db_step (DbWrite ws k, t) (k (Ok (match ws with w :: _ => t1 !! write_key w | [] => None end)), t1)
  | StepWriteRefused ws k t e : refused e = true -> db_step (DbWrite ws k, t) (k (Err e), t)
  | StepWriteLost ws k t e : refused e = false -> db_step (DbWrite ws k, t) (k (Err e), t)
  | StepWriteUncertain ws k t t1 e :
      refused e = false -> apply_writes ws t = Some t1 -> db_step (DbWrite ws k, t) (k (Err e), t1)
  | StepQuery root prefix start limit k t r :
      query_answer t root prefix start limit r -> db_step (DbQuery root prefix start limit k, t) (k r, t).

(** Clients interleave their calls on one table, start new operations and crash inside old ones. *)
Inductive cluster_step (calls : Db unit -> Prop) : Table * list (Db unit) -> Table * list (Db unit) -> Prop :=
  | ClusterCall t before m m' after t' :
      db_step (m, t) (m', t') -> cluster_step calls (t, before ++ m :: after) (t', before ++ m' :: after)
  | ClusterStart t clients m : calls m -> cluster_step calls (t, clients) (t, m :: clients)
  | ClusterCrash t before m after : cluster_step calls (t, before ++ m :: after) (t, before ++ after).

(** A service that answers every call, to run programs on concrete tables. *)
Definition refuse (ws : list TableWrite) : SdkError :=
  ServiceError (Some match ws with [_] => "ConditionalCheckFailedException" | _ => "TransactionCanceledException" end) None.

Fixpoint run_db {A : Type} (pages : Table -> string -> string -> option string -> Z -> list Item * option string)
    (m : Db A) (t : Table) : A * Table :=
  match m with
  | DbRet a => (a, t)
  | DbGet key k => run_db pages (k (Ok (t !! key))) t
  | DbWrite ws k =>
      match apply_writes ws t with
      | Some t1 => run_db pages (k (Ok (match ws with w :: _ => t1 !! write_key w | [] => None end))) t1
      | None => run_db pages (k (Err (refuse ws))) t
      end
  | DbQuery root prefix start limit k => run_db pages (k (Ok (pages t root prefix start limit))) t
  end.

(** ** A program logic

    [ensures I Q m]: from a table satisfying [I], with other clients keeping [I] between the calls, every
    write of [m] keeps [I] and every result satisfies [Q]. *)
Fixpoint ensures {A : Type} (I : Table -> Prop) (Q : A -> Prop) (m : Db A) : Prop :=
  match m with
  | DbRet a => Q a
  | DbGet key k => (forall t, I t -> ensures I Q (k (Ok (t !! key)))) /\ forall e, ensures I Q (k (Err e))
  | DbWrite ws k =>
      (forall t t1, I t -> apply_writes ws t = Some t1 -> I t1)
      /\ (forall t t1, I t -> apply_writes ws t = Some t1 ->
           ensures I Q (k (Ok (match ws with w :: _ => t1 !! write_key w | [] => None end))))
      /\ forall e, ensures I Q (k (Err e))
  | DbQuery root prefix start limit k => forall t r, I t -> query_answer t root prefix start limit r -> ensures I Q (k r)
  end.

(** ** Lemmas *)
Lemma run_db_bind {A B : Type} pages (m : Db A) (f : A -> Db B) t :
  run_db pages (db_bind m f) t = run_db pages (f (run_db pages m t).1) (run_db pages m t).2.
Proof.
  revert t. induction m as [a|key k IH|ws k IH|root prefix start limit k IH]; intros t; cbn; auto.
  destruct (apply_writes ws t) as [t1|]; auto.
Qed.

Lemma run_db_step {E A B : Type} pages (m : DbM E A) (f : A -> DbM E B) t :
  run_db pages (a ← m; f a) t
  = match (run_db pages m t).1 with Ok a => run_db pages (f a) (run_db pages m t).2 | Err e => (Err e, (run_db pages m t).2) end.
Proof.
  unfold mbind, DbM_bind. rewrite run_db_bind. by destruct (run_db pages m t) as [[a|e] t1].
Qed.

Lemma ensures_mono {A : Type} I (P Q : A -> Prop) m : (forall a, P a -> Q a) -> ensures I P m -> ensures I Q m.
Proof. intros Hpq. induction m; cbn; naive_solver. Qed.

Lemma ensures_bind {A B : Type} I (P : A -> Prop) (Q : B -> Prop) (m : Db A) f :
  ensures I P m -> (forall a, P a -> ensures I Q (f a)) -> ensures I Q (db_bind m f).
Proof. intros Hm Hf. induction m; cbn in *; naive_solver. Qed.

(** The bind of fallible programs: an error of the first part is the result. *)
Lemma ensures_step {E A B : Type} I (P : A -> Prop) (Q : result E B -> Prop) (m : DbM E A) (f : A -> DbM E B) :
  ensures I (fun r => match r with Ok a => P a | Err e => Q (Err e) end) m ->
  (forall a, P a -> ensures I Q (f a)) -> ensures I Q (a ← m; f a).
Proof. intros Hm Hf. eapply ensures_bind; [exact Hm|]. intros [a|e] Ha; [by apply Hf | done]. Qed.

Lemma ensures_lift {E A B : Type} I (Q : result E B -> Prop) (r : result E A) (f : A -> DbM E B) :
  (forall e, Q (Err e)) -> (forall a, r = Ok a -> ensures I Q (f a)) -> ensures I Q (a ← db_lift r; f a).
Proof. intros He Hf. destruct r as [a|e]; [by apply Hf | apply He]. Qed.

Lemma ensures_db_step {A : Type} I Q (m m' : Db A) t t' :
  ensures I Q m -> I t -> db_step (m, t) (m', t') -> I t' /\ ensures I Q m'.
Proof.
  intros Hm HI Hstep. inversion Hstep; subst; cbn in Hm; destruct_and?; split; try done; eauto.
Qed.

Lemma cluster_invariant (calls : Db unit -> Prop) I t clients t' clients' :
  (forall m, calls m -> ensures I (fun _ => True) m) ->
  rtc (cluster_step calls) (t, clients) (t', clients') ->
  I t -> Forall (ensures I (fun _ => True)) clients -> I t' /\ Forall (ensures I (fun _ => True)) clients'.
Proof.
  intros Hcalls Hr. remember (t, clients) as x eqn:Hx. remember (t', clients') as y eqn:Hy. revert t clients Hx.
  induction Hr as [|x [t1 c1] y Hstep Hr IH]; intros t clients ->; [by injection Hy as -> ->|]. intros HI Hc.
  inversion Hstep as [t0 before m m' after t2 Hs|t0 cs m Hm|t0 before m after]; subst.
  - apply Forall_app in Hc as [Hb Ha]. apply Forall_cons in Ha as [Hm Ha].
    destruct (ensures_db_step _ _ _ _ _ _ Hm HI Hs) as [HI' Hm']. eapply IH; [done|done|done|].
    apply Forall_app. split; [done|]. by apply Forall_cons.
  - eapply IH; [done|done|done|]. apply Forall_cons. split; [by apply Hcalls | done].
  - eapply IH; [done|done|done|]. apply Forall_app in Hc as [Hb Ha]. apply Forall_cons in Ha as [_ Ha].
    by apply Forall_app.
Qed.

Lemma num_of_attr_n x : 0 <= x <= U64_MAX -> num_of (attr_n x) = Some x.
Proof. intros H. unfold num_of, attr_n. cbn. apply parse_print_uint; lia. Qed.

Lemma from_utf8_bytes s : utf8 s -> from_utf8 (bytes_of s) = Some s.
Proof.
  unfold utf8, from_utf8. intros ->. unfold bytes_of. by rewrite String.string_of_list_ascii_of_string.
Qed.

Lemma valid_utf8_ascii l : Forall (fun b => b < 128) l -> valid_utf8 l = true.
Proof. induction 1 as [|b l Hb _ IH]; [done|]. cbn [valid_utf8]. by rewrite (proj2 (Z.ltb_lt _ _)). Qed.

(** ** Looking attributes up *)
Fixpoint assoc {V : Type} (k : string) (l : list (string * V)) : option V :=
  match l with
  | [] => None
  | (a, v) :: l => if String.eqb a k then Some v else assoc k l
  end.

Lemma list_to_map_assoc {V : Type} (l : list (string * V)) k : (list_to_map l : gmap string V) !! k = assoc k l.
Proof.
  induction l as [|[a v] l IH]; [done|]. cbn. rewrite lookup_insert.
  destruct (String.eqb_spec a k); case_decide; congruence.
Qed.

(** An attribute after [SET]s of plain values and [REMOVE]s. *)
Fixpoint after_sets (k : string) (sets : list (string * SetValue)) (acc : option AttributeValue) : option AttributeValue :=
  match sets with
  | [] => acc
  | (a, SetTo v) :: sets => after_sets k sets (if String.eqb a k then Some v else acc)
  | _ :: sets => after_sets k sets acc
  end.

Fixpoint plain_sets (sets : list (string * SetValue)) : bool :=
  match sets with
  | [] => true
  | (_, SetTo _) :: sets => plain_sets sets
  | _ => false
  end.

Lemma apply_sets_plain old sets item :
  plain_sets sets = true ->
  exists item', apply_sets old sets item = Some item' /\ forall k, item' !! k = after_sets k sets (item !! k).
Proof.
  revert item. induction sets as [|[a sv] sets IH]; intros item; [by exists item|].
  destruct sv as [v| |]; [|done..]. cbn [plain_sets apply_sets set_value mbind option_bind after_sets]. intros Hp. destruct (IH (<[a := v]> item) Hp) as (item' & -> & Hl).
  exists item'. split; [done|]. intros k. rewrite Hl, lookup_insert.
  destruct (String.eqb_spec a k); case_decide; congruence.
Qed.

Lemma removed_lookup (l : list string) (item : Item) k :
  foldl (fun i a => delete a i) item l !! k = if existsb (fun a => String.eqb a k) l then None else item !! k.
Proof.
  revert item. induction l as [|a l IH]; intros item; [done|]. cbn. rewrite IH, lookup_delete.
  destruct (String.eqb_spec a k); case_decide; try congruence; cbn; [by destruct (existsb _ l) | done].
Qed.

Lemma apply_update_plain key upd item :
  plain_sets (set_exprs upd) = true ->
  exists item', apply_update key upd (Some item) = Some item'
  /\ forall k, item' !! k = if existsb (fun a => String.eqb a k) (remove_exprs upd) then None
                           else after_sets k (set_exprs upd) (item !! k).
Proof.
  intros Hp. unfold apply_update. cbn [default from_option id].
  destruct (apply_sets_plain (Some item) (set_exprs upd) item Hp) as (item' & -> & Hl). eexists. split; [reflexivity|].
  intros k. by rewrite removed_lookup, Hl.
Qed.

Lemma compare_num_attr cmp a x y : 0 <= x <= U64_MAX -> a = Some (attr_n x) -> 0 <= y <= U64_MAX -> compare_num cmp a (attr_n y) = cmp x y.
Proof. intros Hx -> Hy. unfold compare_num. cbn [mbind option_bind]. by rewrite !num_of_attr_n. Qed.
