(* ===== verification/Definitions.v ===== *)
(** * hand-brain-aws: durable definitions

    Models crates/hand-brain-aws/src/definitions.rs: the immutable, non-secret binding and preparation rows
    that share the registry's table, their codec, their conditional installation and their bounded purge, as
    programs over the service calls of [DynamoTable]. SHA-256 and Brain's canonical JSON are parameters; the
    deletes of one page, which the code issues together, are issued in order here. *)
From S2P Require Import Prelude Policy DynamoTable.

Definition RECORD_TYPE : string := "record_type".
Definition RECORD_DIGEST : string := "record_digest".
Definition PUBLIC_PAYLOAD : string := "public_payload".
Definition UPDATED_AT_MS : string := "updated_at_ms".
Definition MAX_PUBLIC_PAYLOAD_BYTES : Z := 256 * 1024.

(** ** Errors and kinds *)
Inductive DefinitionError :=
  | DefInvalidIdentity (field : string)
  | DefInvalidPayload (message : string)
  | DefPayloadTooLarge
  | DefConflict
  | DefInvalidLimit
  | DefStorage (message : string)
  | DefCorrupt (message : string).

#[global] Instance DefinitionError_eq_dec : EqDecision DefinitionError.
Proof. solve_decision. Defined.

Inductive DefinitionKind := Binding | Preparation | RootSeal.

#[global] Instance DefinitionKind_eq_dec : EqDecision DefinitionKind.
Proof. solve_decision. Defined.

Definition kind_prefix (k : DefinitionKind) : string :=
  match k with Binding => "binding:" | Preparation => "preparation:" | RootSeal => "root-seal:" end.
Definition kind_record_type (k : DefinitionKind) : string :=
  match k with Binding => "binding" | Preparation => "preparation" | RootSeal => "root_seal" end.
Definition kind_parse (value : string) : result DefinitionError DefinitionKind :=
  if str_eqb value "binding" then Ok Binding
  else if str_eqb value "preparation" then Ok Preparation
  else if str_eqb value "root_seal" then Ok RootSeal
  else Err (DefCorrupt "unknown definition type").

Definition def_validate_identifier (value field : string) : result DefinitionError unit :=
  map_err (fun e => match e with mkIdentityError f => DefInvalidIdentity f end) (validate_identifier value field).
Definition def_validate_digest (value : string) : result DefinitionError unit :=
  map_err (fun _ => DefCorrupt "definition digest is invalid") (validate_digest value "digest").

(** ** Records *)
Record DefinitionRecord := mkDefinitionRecord {
  df_root_id : string;
  df_kind : DefinitionKind;
  df_definition_id : string;
  df_record_digest : string;
  df_public_payload : list Ascii.ascii;
  df_updated_at_ms : Z }.

Definition sort_key (r : DefinitionRecord) : string := kind_prefix (df_kind r) +:+ df_definition_id r.

(** [JCS] is UTF-8, so the payload is also a string attribute. *)
Definition item (r : DefinitionRecord) : Item :=
  list_to_map
    [ (ROOT_ID, attr_s (df_root_id r));
      (TARGET_KEY, attr_s (sort_key r));
      (RECORD_TYPE, attr_s (kind_record_type (df_kind r)));
      (RECORD_DIGEST, attr_s (df_record_digest r));
      (PUBLIC_PAYLOAD, attr_s (String.string_of_list_ascii (df_public_payload r)));
      (UPDATED_AT_MS, attr_n (df_updated_at_ms r)) ].

Definition def_string (attrs : Item) (name : string) : result DefinitionError string :=
  ok_or (DefCorrupt ("missing string " +:+ name)) (v ← attrs !! name; as_s v).
Definition def_number (attrs : Item) (name : string) : result DefinitionError Z :=
  ok_or (DefCorrupt ("missing numeric " +:+ name)) (v ← attrs !! name; n ← as_n v; parse_uint U64_MAX n).

Definition payload_in_bounds (payload : list Ascii.ascii) : bool :=
  negb ((len payload =? 0) || (MAX_PUBLIC_PAYLOAD_BYTES <? len payload)).

Section definitions.
Context (sha256_hex : list Ascii.ascii -> string).

Definition DefinitionRecord_validate (r : DefinitionRecord) : result DefinitionError unit :=
  _ ← def_validate_identifier (df_root_id r) "root_id";
  _ ← def_validate_identifier (df_definition_id r) "definition_id";
  _ ← def_validate_digest (df_record_digest r);
  _ ← ensure (payload_in_bounds (df_public_payload r)) DefPayloadTooLarge;
  ensure (str_eqb (sha256_hex (df_public_payload r)) (df_record_digest r)) (DefCorrupt "definition payload digest mismatch").

Definition canonical {P : Type} (jcs : P -> result string (list Ascii.ascii)) (root_id : string) (kind : DefinitionKind)
    (definition_id : string) (public_projection : P) (updated_at_ms : Z) : result DefinitionError DefinitionRecord :=
  _ ← def_validate_identifier root_id "root_id";
  _ ← def_validate_identifier definition_id "definition_id";
  public_payload ← map_err DefInvalidPayload (jcs public_projection);
  _ ← ensure (payload_in_bounds public_payload) DefPayloadTooLarge;
  Ok (mkDefinitionRecord root_id kind definition_id (sha256_hex public_payload) public_payload updated_at_ms).

Definition decode {T : Type} (from_json : list Ascii.ascii -> result string T) (r : DefinitionRecord) : result DefinitionError T :=
  map_err DefCorrupt (from_json (df_public_payload r)).

Definition parse_record (attrs : Item) : result DefinitionError DefinitionRecord :=
  root_id ← def_string attrs ROOT_ID;
  record_type ← def_string attrs RECORD_TYPE;
  kind ← kind_parse record_type;
  sort_key ← def_string attrs TARGET_KEY;
  definition_id ← ok_or (DefCorrupt "definition sort key/type mismatch") (strip_prefix (kind_prefix kind) sort_key);
  record_digest ← def_string attrs RECORD_DIGEST;
  public_payload ← def_string attrs PUBLIC_PAYLOAD;
  updated_at_ms ← def_number attrs UPDATED_AT_MS;
  let record := mkDefinitionRecord root_id kind definition_id record_digest (bytes_of public_payload) updated_at_ms in
  _ ← DefinitionRecord_validate record;
  Ok record.

(** ** The registry *)
Notation Def := (DbM DefinitionError).

Definition def_storage_error {A} (operation : string) (e : SdkError) : Def A :=
  db_throw (DefStorage (storage_detail operation e)).

Definition definition_key (root_id : string) (kind : DefinitionKind) (definition_id : string) : ItemKey :=
  (root_id, kind_prefix kind +:+ definition_id).

Definition def_get (root_id : string) (kind : DefinitionKind) (definition_id : string) : Def (option DefinitionRecord) :=
  _ ← db_lift (def_validate_identifier root_id "root_id");
  _ ← db_lift (def_validate_identifier definition_id "definition_id");
  output ← db_get (definition_key root_id kind definition_id);
  match output with
  | Err e => def_storage_error "get definition" e
  | Ok None => mret None
  | Ok (Some attrs) => record ← db_lift (parse_record attrs); mret (Some record)
  end.

Inductive InstallDefinition := DefInstalled | DefExisting.

Definition install (record : DefinitionRecord) : Def InstallDefinition :=
  _ ← db_lift (DefinitionRecord_validate record);
  response ← db_write [WPut (df_root_id record, sort_key record) (item record) (CNotExists ROOT_ID)];
  match response with
  | Ok _ => mret DefInstalled
  | Err e =>
      if conditional_failure e then
        existing ← def_get (df_root_id record) (df_kind record) (df_definition_id record);
        match existing with
        | Some existing =>
            if str_eqb (df_record_digest existing) (df_record_digest record) then mret DefExisting else db_throw DefConflict
        | None => db_throw (DefStorage "definition changed during conditional installation")
        end
      else def_storage_error "install definition" e
  end.

Definition page_key (attrs : Item) : result DefinitionError string :=
  ok_or (DefCorrupt "definition query returned no sort key") (v ← attrs !! TARGET_KEY; as_s v).

Fixpoint delete_all (root_id : string) (keys : list string) : Def unit :=
  match keys with
  | [] => mret tt
  | key :: keys =>
      response ← db_write [WDelete (root_id, key) CAlways];
      match response with
      | Ok _ => delete_all root_id keys
      | Err e => def_storage_error "delete root definition" e
      end
  end.

Fixpoint purge_prefixes (root_id : string) (limit : Z) (prefixes : list string) : Def bool :=
  match prefixes with
  | [] => mret true
  | prefix :: prefixes =>
      output ← db_query root_id prefix None limit;
      match output with
      | Err e => def_storage_error "list root definitions" e
      | Ok (items, _) =>
          keys ← db_lift (mapM_result page_key items);
          match keys with
          | [] => purge_prefixes root_id limit prefixes
          | keys => _ ← delete_all root_id keys; mret false
          end
      end
  end.

Definition DEFINITION_PREFIXES : list string := [kind_prefix Binding; kind_prefix Preparation; kind_prefix RootSeal].

Definition def_purge_root_page (root_id : string) (limit : Z) : Def bool :=
  _ ← db_lift (def_validate_identifier root_id "root_id");
  if negb ((1 <=? limit) && (limit <=? 25)) then db_throw DefInvalidLimit
  else purge_prefixes root_id limit DEFINITION_PREFIXES.
End definitions.

#[global] Arguments item : simpl never.
#[global] Arguments sort_key : simpl never.

(** ** The codec *)
Lemma strip_kind_prefix k id : strip_prefix (kind_prefix k) (kind_prefix k +:+ id) = Some id.
Proof. apply strip_prefix_app. Qed.

Section codec.
Context (sha256_hex : list Ascii.ascii -> string).

Lemma kind_parse_record_type k : kind_parse (kind_record_type k) = Ok k.
Proof. by destruct k. Qed.

(** An installable record is read back from its row exactly. *)
Lemma parse_item r :
  DefinitionRecord_validate sha256_hex r = Ok tt -> u64 (df_updated_at_ms r) -> parse_record sha256_hex (item r) = Ok r.
Proof.
  intros Hv Hu. unfold parse_record, def_string, def_number, item. rewrite !list_to_map_assoc.
  cbn [assoc String.eqb Ascii.eqb Bool.eqb ROOT_ID TARGET_KEY RECORD_TYPE RECORD_DIGEST PUBLIC_PAYLOAD UPDATED_AT_MS].
  cbn [mbind option_bind ok_or as_s attr_s result_bind]. rewrite kind_parse_record_type. cbn [mbind result_bind].
  unfold sort_key. rewrite strip_kind_prefix. unfold attr_n. cbn [mbind option_bind ok_or as_n result_bind].
  rewrite parse_print_uint by (unfold u64 in Hu; lia). cbn [mbind option_bind ok_or result_bind].
  rewrite bytes_of_list. destruct r as [ro k id dg pl up]. cbn in *. by rewrite Hv.
Qed.

(** What is parsed is valid, and its key is the row's. *)
Lemma parse_record_valid attrs r :
  parse_record sha256_hex attrs = Ok r ->
  DefinitionRecord_validate sha256_hex r = Ok tt
  /\ def_string attrs ROOT_ID = Ok (df_root_id r) /\ def_string attrs TARGET_KEY = Ok (sort_key r).
Proof.
  unfold parse_record. intros H. apply result_bind_Ok in H as (ro & Hro & H). apply result_bind_Ok in H as (ty & _ & H).
  apply result_bind_Ok in H as (k & _ & H). apply result_bind_Ok in H as (sk & Hsk & H).
  apply result_bind_Ok in H as (id & Hid & H). apply result_bind_Ok in H as (dg & _ & H).
  apply result_bind_Ok in H as (pl & _ & H). apply result_bind_Ok in H as (up & _ & H).
  cbv zeta in H. apply result_bind_Ok in H as ([] & Hv & H). injection H as <-. split; [done|]. split; [done|].
  apply ok_or_Ok, strip_prefix_Some in Hid. by rewrite Hsk, Hid.
Qed.

Lemma canonical_valid {P : Type} (jcs : P -> result string (list Ascii.ascii)) root k id p now r :
  (forall bytes, is_ok (validate_digest (sha256_hex bytes) "digest") = true) ->
  canonical sha256_hex jcs root k id p now = Ok r -> DefinitionRecord_validate sha256_hex r = Ok tt.
Proof.
  intros Hsha. unfold canonical. intros H. apply result_bind_Ok in H as ([] & Hr & H). apply result_bind_Ok in H as ([] & Hi & H).
  apply result_bind_Ok in H as (pl & _ & H). apply result_bind_Ok in H as ([] & Hb & H). injection H as <-.
  unfold DefinitionRecord_validate. cbn. rewrite Hr. cbn. rewrite Hi. cbn.
  unfold def_validate_digest. specialize (Hsha pl). destruct (validate_digest (sha256_hex pl) "digest") as [[]|]; [|done].
  cbn. rewrite Hb. cbn. by rewrite str_eqb_refl.
Qed.
End codec.

(** ** Programs that leave a row alone

    A write leaves the row at a key alone if it is another row's, or if it only creates the row. *)
Definition leaves (key : ItemKey) (w : TableWrite) : Prop :=
  write_key w <> key \/ exists i, w = WPut key i (CNotExists ROOT_ID).

Fixpoint avoids {A : Type} (key : ItemKey) (m : Db A) : Prop :=
  match m with
  | DbRet _ => True
  | DbGet _ k => forall r, avoids key (k r)
  | DbWrite ws k => Forall (leaves key) ws /\ forall r, avoids key (k r)
  | DbQuery _ _ _ _ k => forall r, avoids key (k r)
  end.

Lemma apply_write_leaves w t t' key row :
  leaves key w -> t !! key = Some row -> row !! ROOT_ID <> None -> apply_write w t = Some t' -> t' !! key = Some row.
Proof.
  intros [Hne|[i ->]] Hrow Hroot H.
  - rewrite <- Hrow. destruct w as [k i c|k c u|k c]; cbn in *; destruct (cond_holds c (t !! k)); try done.
    + injection H as <-. by rewrite lookup_insert_ne.
    + destruct (apply_update k u (t !! k)) as [i|]; [|done]. injection H as <-. by rewrite lookup_insert_ne.
    + injection H as <-. by rewrite lookup_delete_ne.
  - cbn [apply_write cond_holds] in H. rewrite Hrow in H. unfold attr_of in H. cbn [mbind option_bind] in H.
    by destruct (row !! ROOT_ID).
Qed.

Lemma apply_writes_leave ws t t' key row :
  Forall (leaves key) ws -> t !! key = Some row -> row !! ROOT_ID <> None ->
  apply_writes ws t = Some t' -> t' !! key = Some row.
Proof.
  intros Hws. revert t. induction Hws as [|w ws Hw _ IH]; intros t Hrow Hroot; cbn; [congruence|]. intros H.
  destruct (apply_write w t) as [t1|] eqn:E; [|done]. cbn in H. eapply IH; [|done|done]. by eapply apply_write_leaves.
Qed.

Lemma avoids_keeps {A : Type} key row (m : Db A) :
  row !! ROOT_ID <> None -> avoids key m -> ensures (fun t => t !! key = Some row) (fun _ => True) m.
Proof.
  intros Hroot. induction m as [a|k f IH|ws f IH|root prefix start limit f IH]; cbn; [done | auto | | auto].
  intros [Hw Hf]. split_and!; [|auto..].
  intros t t1 Ht H. by eapply apply_writes_leave.
Qed.

Lemma avoids_bind {A B : Type} key (m : Db A) (f : A -> Db B) :
  avoids key m -> (forall a, avoids key (f a)) -> avoids key (db_bind m f).
Proof. intros Hm Hf. induction m as [a|k g IH|ws g IH|root prefix start limit g IH]; cbn in *; naive_solver. Qed.

Lemma avoids_then {E A B : Type} key (m : DbM E A) (f : A -> DbM E B) :
  avoids key m -> (forall a, avoids key (f a)) -> avoids key (a ← m; f a).
Proof. intros Hm Hf. apply avoids_bind; [done|]. intros [a|e]; [apply Hf | done]. Qed.

(** ** Definitions are written once *)
Inductive DefinitionCall :=
  | DefCallInstall (record : DefinitionRecord)
  | DefCallGet (root_id : string) (kind : DefinitionKind) (definition_id : string)
  | DefCallPurge (root_id : string) (limit : Z).

Section once.
Context (sha256_hex : list Ascii.ascii -> string).

Definition definition_program (c : DefinitionCall) : Db unit :=
  match c with
  | DefCallInstall r => db_bind (install sha256_hex r) (fun _ => DbRet tt)
  | DefCallGet root kind id => db_bind (def_get sha256_hex root kind id) (fun _ => DbRet tt)
  | DefCallPurge root limit => db_bind (def_purge_root_page root limit) (fun _ => DbRet tt)
  end.

Definition record_key (r : DefinitionRecord) : ItemKey := (df_root_id r, sort_key r).

Lemma def_get_avoids key root kind id : avoids key (def_get sha256_hex root kind id).
Proof.
  unfold def_get. do 2 (apply avoids_then; [done|]; intros _). apply avoids_then; [done|]. intros [[attrs|]|e]; cbn; try done.
  by destruct (parse_record sha256_hex attrs).
Qed.

Lemma delete_all_avoids key root keys : key.1 <> root -> avoids key (delete_all root keys).
Proof.
  intros Hne. induction keys as [|k keys IH]; cbn; [done|]. split; [|by intros []].
  apply Forall_singleton. left. cbn. by intros <-.
Qed.

Lemma purge_avoids key root limit : key.1 <> root -> avoids key (def_purge_root_page root limit).
Proof.
  intros Hne. unfold def_purge_root_page. apply avoids_then; [done|]. intros _. case_match; [done|].
  generalize DEFINITION_PREFIXES. intros ps. induction ps as [|p ps IH]; cbn; [done|]. intros [[items last]|e]; [|done]. cbn.
  destruct (mapM_result page_key items) as [[|k ks]|]; cbn; try done.
  split; [apply Forall_singleton; left; cbn; by intros <-|]. intros [|e]; [|done].
  apply avoids_bind; [by apply delete_all_avoids|]. by intros [].
Qed.

Lemma install_avoids key r : avoids key (install sha256_hex r).
Proof.
  unfold install. apply avoids_then; [done|]. intros _. cbn. split.
  - apply Forall_singleton. destruct (decide (record_key r = key)) as [<-|Hne]; [right; by eexists | by left].
  - intros [|e]; [done|]. destruct (conditional_failure e); [|done].
    apply avoids_bind; [apply def_get_avoids|]. intros [[r'|]|]; cbn; try done. by destruct (str_eqb _ _).
Qed.

Notation holds r := (fun t : Table => t !! record_key r = Some (item r)).

Lemma item_root r : item r !! ROOT_ID = Some (attr_s (df_root_id r)).
Proof. unfold item. by rewrite list_to_map_assoc. Qed.

Lemma install_refused r r' t : holds r t -> record_key r' = record_key r ->
  apply_writes [WPut (df_root_id r', sort_key r') (item r') (CNotExists ROOT_ID)] t = None.
Proof.
  intros Ht Hk. cbn [apply_writes apply_write cond_holds]. unfold record_key in *. rewrite Hk, Ht.
  unfold attr_of. cbn [mbind option_bind]. by rewrite item_root.
Qed.

Lemma validate_no_conflict r e : DefinitionRecord_validate sha256_hex r = Err e -> e <> DefConflict.
Proof.
  unfold DefinitionRecord_validate, def_validate_identifier, def_validate_digest, ensure.
  destruct (validate_identifier (df_root_id r) _) as [[]|[f]]; cbn; [|by intros [= <-]].
  destruct (validate_identifier (df_definition_id r) _) as [[]|[f]]; cbn; [|by intros [= <-]].
  destruct (validate_digest _ _) as [[]|[f]]; cbn; [|by intros [= <-]].
  destruct (payload_in_bounds _); cbn; [|by intros [= <-]]. destruct (str_eqb _ _); [done | by intros [= <-]].
Qed.

(** Whoever reads the row reads the record. *)
Lemma get_installed r :
  DefinitionRecord_validate sha256_hex r = Ok tt -> u64 (df_updated_at_ms r) ->
  ensures (holds r) (fun out => match out with Ok (Some r') => r' = r | Ok None => False | Err e => exists m, e = DefStorage m end)
    (def_get sha256_hex (df_root_id r) (df_kind r) (df_definition_id r)).
Proof.
  intros Hv Hu. unfold def_get. pose proof Hv as Hv'. unfold DefinitionRecord_validate in Hv'.
  apply result_bind_Ok in Hv' as ([] & H1 & Hv'). apply result_bind_Ok in Hv' as ([] & H2 & _). rewrite H1, H2.
  cbn. split; [|by eexists]. intros t Ht. unfold definition_key. unfold record_key, sort_key in Ht. rewrite Ht.
  rewrite parse_item by done. done.
Qed.

Lemma install_over r r' :
  DefinitionRecord_validate sha256_hex r = Ok tt -> u64 (df_updated_at_ms r) ->
  df_root_id r' = df_root_id r -> df_kind r' = df_kind r -> df_definition_id r' = df_definition_id r ->
  ensures (holds r) (fun out => match out with
    | Ok DefInstalled => False
    | Ok DefExisting => df_record_digest r' = df_record_digest r
    | Err DefConflict => df_record_digest r' <> df_record_digest r
    | Err _ => True
    end) (install sha256_hex r').
Proof.
  intros Hv Hu Hr Hk Hi. unfold install.
  destruct (DefinitionRecord_validate sha256_hex r') as [[]|e] eqn:Hv'; [|apply validate_no_conflict in Hv'; by destruct e].
  assert (Hkey : record_key r' = record_key r) by (unfold record_key, sort_key; congruence).
  cbn [mbind DbM_bind db_bind db_lift db_write]. cbn [ensures]. split_and!.
  - intros t t1 Ht H. by rewrite (install_refused r r' t) in H.
  - intros t t1 Ht H. by rewrite (install_refused r r' t) in H.
  - intros e. cbn. destruct (conditional_failure e); [|done]. rewrite Hr, Hk, Hi.
    eapply ensures_bind; [by apply get_installed|]. intros [[r0|]|e0]; cbn; [|done|by intros [m ->]]. intros ->.
    destruct (str_eqb_spec (df_record_digest r) (df_record_digest r')); cbn; congruence.
Qed.

(** The clients of the table, as far as one definition is concerned: any of the registry's calls but a purge of
    its root, and whatever else leaves its row alone, at any point of their programs. *)
Definition definition_client (r : DefinitionRecord) (m : Db unit) : Prop :=
  avoids (record_key r) m
  \/ exists c, m = definition_program c /\ match c with DefCallPurge root _ => root <> df_root_id r | _ => True end.

Lemma definition_client_avoids r m : definition_client r m -> avoids (record_key r) m.
Proof.
  intros [Hm | (c & -> & Hc)]; [done|]. destruct c as [r'|root k id|root limit]; cbn; (apply avoids_bind; [|done]).
  - apply install_avoids.
  - apply def_get_avoids.
  - apply purge_avoids. cbn. congruence.
Qed.

(** An installed definition is immutable: whatever clients of the shared table do concurrently, crash in the
    middle of, or see fail without knowing whether it was applied, its row stays exactly the installed record
    until its root is purged. Meanwhile a read that is answered returns exactly that record, and another
    installation under the same identity installs nothing: it is answered as already there exactly when its
    content digest is the same, and as a conflict otherwise. *)
Theorem definition_is_written_once r t clients t' clients' :
  DefinitionRecord_validate sha256_hex r = Ok tt -> u64 (df_updated_at_ms r) -> holds r t ->
  Forall (definition_client r) clients -> rtc (cluster_step (definition_client r)) (t, clients) (t', clients') ->
  holds r t'
  /\ ensures (holds r)
       (fun out => match out with Ok (Some r') => r' = r | Ok None => False | Err e => exists m, e = DefStorage m end)
       (def_get sha256_hex (df_root_id r) (df_kind r) (df_definition_id r))
  /\ forall r', df_root_id r' = df_root_id r -> df_kind r' = df_kind r -> df_definition_id r' = df_definition_id r ->
       ensures (holds r) (fun out => match out with
         | Ok DefInstalled => False
         | Ok DefExisting => df_record_digest r' = df_record_digest r
         | Err DefConflict => df_record_digest r' <> df_record_digest r
         | Err _ => True
         end) (install sha256_hex r').
Proof.
  intros Hv Hu Ht Hc Hr.
  assert (Hkeep : forall m, definition_client r m -> ensures (holds r) (fun _ => True) m).
  { intros m Hm. apply avoids_keeps; [by rewrite item_root | by apply definition_client_avoids]. }
  split; [|split; [by apply get_installed | intros; by apply install_over]].
  eapply (cluster_invariant (definition_client r) (holds r)) in Hr as [Ht' _]; [done|done|done|].
  eapply Forall_impl; [exact Hc|]. exact Hkeep.
Qed.
End once.

(** ** The purge ends *)
Definition definition_row (root : string) (key : ItemKey) : bool :=
  str_eqb key.1 root && existsb (fun p => starts_with p key.2) DEFINITION_PREFIXES.

(** The key attributes of a row are its key. *)
Definition keyed (t : Table) : Prop := map_Forall (fun key row => row !! TARGET_KEY = Some (attr_s key.2)) t.

Section purge.
Context (pages : Table -> string -> string -> option string -> Z -> list Item * option string).
Context (pages_answer : forall t root prefix start limit, 1 <= limit ->
  query_answer t root prefix start limit (Ok (pages t root prefix start limit))).
Notation run := (run_db pages).

Definition delete_keys (root : string) (keys : list string) (t : Table) : Table :=
  foldl (fun t k => delete (root, k) t) t keys.

Lemma run_delete_all root keys t : run (delete_all root keys) t = (Ok tt, delete_keys root keys t).
Proof. revert t. induction keys as [|k keys IH]; intros t; [done|]. apply IH. Qed.

Lemma delete_keys_lookup root keys t key :
  delete_keys root keys t !! key = if bool_decide (key.1 = root /\ key.2 ∈ keys) then None else t !! key.
Proof.
  unfold delete_keys. revert t. induction keys as [|k keys IH]; intros t; cbn [foldl].
  { rewrite bool_decide_eq_false_2; [done|]. intros [_ H]. by apply elem_of_nil in H. }
  rewrite IH. case_bool_decide as H1; case_bool_decide as H2; try done; try (exfalso; set_solver).
  - destruct key as [r s]. cbn in *. apply lookup_delete_None. left. f_equal; [naive_solver|]. set_solver.
  - apply lookup_delete_ne. intros <-. set_solver.
Qed.

Lemma page_keys_of t root prefix start items :
  keyed t -> Forall (fun row => exists key, in_query root prefix start key /\ t !! key = Some row) items ->
  exists keys, mapM_result page_key items = Ok keys /\ length keys = length items
    /\ Forall (fun k => starts_with prefix k = true /\ is_Some (t !! (root, k))) keys.
Proof.
  intros Hk. induction 1 as [|row items ([r s] & (Hr & Hp & _) & Hrow) _ IH]; [by exists []|]. cbn in Hr, Hp. subst r.
  destruct IH as (keys & Hks & Hl & Hf). exists (s :: keys).
  assert (Hpk : page_key row = Ok s) by (unfold page_key; pose proof (Hk _ _ Hrow) as Ha; cbn in Ha; by rewrite Ha).
  cbn [mapM_result]. rewrite Hpk. cbn [mbind result_bind]. rewrite Hks. split; [done|]. split; [cbn; congruence|].
  constructor; [|done]. by rewrite Hrow.
Qed.

Lemma run_purge_prefixes root limit ps t :
  1 <= limit -> keyed t ->
  (exists keys, run (purge_prefixes root limit ps) t = (Ok false, delete_keys root keys t) /\ keys <> []
     /\ Forall (fun k => existsb (fun p => starts_with p k) ps = true /\ is_Some (t !! (root, k))) keys)
  \/ (run (purge_prefixes root limit ps) t = (Ok true, t)
      /\ forall key, key.1 = root -> existsb (fun p => starts_with p key.2) ps = true -> t !! key = None).
Proof.
  intros Hl Hk. induction ps as [|p ps IH]; [right; by split|]. cbn [purge_prefixes].
  pose proof (pages_answer t root p None limit Hl) as Ha. rewrite run_db_step. cbn [db_query run_db fst snd].
  destruct (pages t root p None limit) as [items last] eqn:E. destruct Ha as (_ & Hf & He).
  destruct (page_keys_of t root p None items Hk Hf) as (keys & Hkeys & Hlen & Hks).
  rewrite run_db_step. cbn [db_lift run_db fst snd]. rewrite Hkeys. destruct keys as [|k keys].
  - destruct items; [|done]. destruct IH as [(keys & Hrun & Hne & Hall)|[Hrun Hnone]]; [left|right].
    + exists keys. split; [done|]. split; [done|]. eapply Forall_impl; [exact Hall|]. intros k [H ?]. split; [|done]. cbn. by rewrite H, orb_true_r.
    + split; [done|]. intros key Hroot. cbn. intros [Hp|Hp]%orb_true_iff; [|by apply Hnone]. by apply He.
  - left. exists (k :: keys). split_and!; [|done|].
    + rewrite run_db_step, run_delete_all. done.
    + eapply Forall_impl; [exact Hks|]. intros x [H ?]. split; [|done]. cbn. by rewrite H.
Qed.
(** A client that repeats the bounded purge until it is told the root is clean. *)
Fixpoint purge_walk (n : nat) (root : string) (limit : Z) (t : Table) : option Table :=
  match n with
  | O => None
  | S n =>
      match run (def_purge_root_page root limit) t with
      | (Ok true, t) => Some t
      | (Ok false, t) => purge_walk n root limit t
      | (Err _, _) => None
      end
  end.

Definition other_rows (root : string) (t : Table) : Table := filter (fun kv => definition_row root kv.1 = false) t.
Definition root_definitions (root : string) (t : Table) : Table := filter (fun kv => definition_row root kv.1 = true) t.

Lemma definition_keys (root : string) (keys : list string) (t : Table) :
  Forall (fun k => existsb (fun p => starts_with p k) DEFINITION_PREFIXES = true /\ is_Some (t !! (root, k))) keys ->
  forall k, k ∈ keys -> definition_row root (root, k) = true.
Proof.
  intros Hall k Hk. unfold definition_row. cbn [fst snd]. rewrite str_eqb_refl.
  rewrite Forall_forall in Hall. by destruct (Hall k Hk) as [-> _].
Qed.

Lemma delete_keys_other (root : string) (keys : list string) (t : Table) :
  (forall k, k ∈ keys -> definition_row root (root, k) = true) ->
  other_rows root (delete_keys root keys t) = other_rows root t.
Proof.
  intros Hk. apply map_eq. intros [r s]. apply option_eq. intros row. unfold other_rows.
  rewrite !map_lookup_filter_Some, delete_keys_lookup. cbn. case_bool_decide as Hd; [|done].
  destruct Hd as [-> Hin]. rewrite (Hk s Hin). naive_solver.
Qed.

Lemma delete_keys_fewer (root k : string) (keys : list string) (t : Table) :
  is_Some (t !! (root, k)) -> (forall k', k' ∈ k :: keys -> definition_row root (root, k') = true) ->
  (size (root_definitions root (delete_keys root (k :: keys) t)) < size (root_definitions root t))%nat.
Proof.
  intros [row Hrow] Hk. apply map_subset_size, map_subset_alt. split.
  - apply map_subseteq_spec. intros key x. unfold root_definitions. rewrite !map_lookup_filter_Some, delete_keys_lookup.
    case_bool_decide; [naive_solver | done].
  - exists (root, k). unfold root_definitions. split.
    + apply map_lookup_filter_None. left. rewrite delete_keys_lookup. cbn.
      rewrite bool_decide_eq_true_2; [done|]. split; [done|]. by left.
    + exists row. apply map_lookup_filter_Some. split; [done|]. apply Hk. by left.
Qed.

Lemma delete_keys_keyed (root : string) (keys : list string) (t : Table) : keyed t -> keyed (delete_keys root keys t).
Proof.
  intros Hk key row. rewrite delete_keys_lookup. case_bool_decide; [done|]. apply Hk.
Qed.

(** The bounded purge of a root ends, whatever the size of its pages: repeated as often as the root has
    definitions and once more, it reports the root clean, and then every binding, preparation and root seal of
    the root is gone from the shared table and no other row has been touched. *)
Theorem definition_purge_ends root limit n t :
  def_validate_identifier root "root_id" = Ok tt -> 1 <= limit <= 25 -> keyed t ->
  (size (root_definitions root t) < n)%nat -> purge_walk n root limit t = Some (other_rows root t).
Proof.
  intros Hid Hl. revert t. induction n as [|n IH]; intros t Hk Hn; [lia|]. cbn [purge_walk].
  unfold def_purge_root_page. rewrite run_db_step. cbn [db_lift run_db fst snd]. rewrite Hid.
  rewrite (proj2 (Z.leb_le 1 limit)), (proj2 (Z.leb_le limit 25)) by lia. cbn [andb negb].
  destruct (run_purge_prefixes root limit DEFINITION_PREFIXES t) as [(keys & -> & Hne & Hall)|[-> Hnone]]; [lia|done| |].
  - pose proof (definition_keys root keys t Hall) as Hdk. destruct keys as [|k keys]; [done|].
    apply Forall_cons in Hall as [[_ Hk0] _]. rewrite IH; [by rewrite delete_keys_other | by apply delete_keys_keyed|].
    pose proof (delete_keys_fewer root k keys t Hk0 Hdk). lia.
  - f_equal. symmetry. apply map_filter_id. intros [r s] row Hrow. cbn [fst snd]. unfold definition_row. cbn [fst snd].
    apply andb_false_iff. destruct (str_eqb_spec r root) as [->|]; [right | by left].
    destruct (existsb (fun p => starts_with p s) DEFINITION_PREFIXES) eqn:E; [|done].
    by rewrite (Hnone (root, s) eq_refl E) in Hrow.
Qed.
End purge.

(** ** Witnesses *)
Definition sample_sha (bytes : list Ascii.ascii) : string :=
  if Nat.even (length bytes) then "aaaaaaaaaaaaaaaaaaaaaaaaaaaaaaaaaaaaaaaaaaaaaaaaaaaaaaaaaaaaaaaa"
  else "bbbbbbbbbbbbbbbbbbbbbbbbbbbbbbbbbbbbbbbbbbbbbbbbbbbbbbbbbbbbbbbb".
Definition sample_definition (id : string) (payload : string) : DefinitionRecord :=
  mkDefinitionRecord "root-1" Preparation id (sample_sha (bytes_of payload)) (bytes_of payload) 42.
Definition sample_table : Table :=
  <[("root-1", "preparation:session-1") := item (sample_definition "session-1" "{}")]>
  (<[("root-1", "target:default") := <[TARGET_KEY := AS "target:default"]> ∅]> ∅).

(** A service whose pages are the first rows in the order of the map. *)
Definition sample_pages (t : Table) (root prefix : string) (start : option string) (limit : Z) : list Item * option string :=
  let matching := List.filter (fun kv =>
    str_eqb kv.1.1 root && starts_with prefix kv.1.2
    && match start with Some after => str_ltb after kv.1.2 | None => true end) (map_to_list t) in
  (map snd (take (Z.to_nat limit) matching), None).

Lemma sample_pages_answer t root prefix start limit :
  1 <= limit -> query_answer t root prefix start limit (Ok (sample_pages t root prefix start limit)).
Proof.
  intros Hl. unfold sample_pages, query_answer. set (matches := fun kv : ItemKey * Item => _). split_and!.
  - unfold len. rewrite length_map, length_take. lia.
  - apply Forall_map, Forall_take, Forall_forall. intros [key row] Hin. apply list_elem_of_In, filter_In in Hin as [Hin Hm].
    exists key. split; [|by apply elem_of_map_to_list, list_elem_of_In]. unfold matches in Hm. cbn in Hm. bool_hyps.
    unfold in_query. split_and!; [done | done | by destruct start].
  - intros H key (Hr & Hp & Hs). destruct (t !! key) as [row|] eqn:E; [|done]. exfalso.
    assert (Hin : In (key, row) (List.filter matches (map_to_list t))).
    { apply filter_In. split; [by apply list_elem_of_In, elem_of_map_to_list|]. unfold matches. cbn.
      rewrite (proj2 (str_eqb_eq _ _) Hr), Hp. by destruct start. }
    destruct (List.filter matches (map_to_list t)); [done|]. destruct (Z.to_nat limit) eqn:El; [lia | done].
Qed.

Lemma definition_is_written_once_witness :
  let r := sample_definition "session-1" "{}" in
  sample_table !! record_key r = Some (item r)
  /\ (forall t' clients', rtc (cluster_step (definition_client sample_sha r)) (sample_table, []) (t', clients') ->
        t' !! record_key r = Some (item r))
  /\ (run_db sample_pages (install sample_sha (sample_definition "session-1" "{}1")) sample_table).1 = Err DefConflict
  /\ (run_db sample_pages (install sample_sha r) sample_table).1 = Ok DefExisting.
Proof.
  split; [vm_compute; reflexivity|]. split; [|split; vm_compute; reflexivity].
  intros t' clients' Hr.
  exact (proj1 (definition_is_written_once sample_sha (sample_definition "session-1" "{}") sample_table [] t' clients'
    ltac:(vm_compute; reflexivity) ltac:(vm_compute; split; congruence) ltac:(vm_compute; reflexivity) ltac:(constructor) Hr)).
Defined.

Lemma definition_purge_ends_witness :
  purge_walk sample_pages 2 "root-1" 25 sample_table = Some (other_rows "root-1" sample_table)
  /\ size (other_rows "root-1" sample_table) = 1%nat.
Proof.
  split; [|vm_compute; reflexivity].
  apply (definition_purge_ends sample_pages sample_pages_answer "root-1" 25 2 sample_table).
  - vm_compute. reflexivity.
  - lia.
  - unfold sample_table, keyed. repeat apply map_Forall_insert_2; [vm_compute; reflexivity.. | apply map_Forall_empty].
  - vm_compute. lia.
Defined.
