(* ===== verification/Dynamo.v ===== *)
(** * hand-brain-aws target registry on DynamoDB

    Models crates/hand-brain-aws/src/registry.rs: the item codec, every conditional write and transaction
    the registry sends, and the reservation and directory operations as programs over the service calls of
    DynamoTable.v. The spec digest is a section variable. *)
From S2P Require Import Prelude Policy Page Target MemoryRegistry DynamoTable.

(** ** Attribute names and values *)
Definition STATE : string := "state".
Definition MATERIALIZING : string := "materializing".
Definition INSTALLED : string := "installed".
Definition CLOSED : string := "closed".
Definition DISPOSITION_LOST : string := "lost".
Definition DISPOSITION_TERMINATED : string := "terminated".
Definition LAUNCH_REQUEST : string := "launch_request".
Definition CONTROL_TOKEN : string := "control_token".
Definition ATTEMPT_ID : string := "attempt_id".
Definition ATTEMPT_EXPIRES_AT_MS : string := "attempt_expires_at_ms".
Definition CAPACITY_ROOT_ID : string := "plane".
Definition CAPACITY_TARGET_KEY : string := "capacity:materialized_mib".
Definition TARGET_KEY_PREFIX : string := "target:".

Notation Dyn := (DbM MaterializationError).

Definition storage_error {A} (operation : string) (e : SdkError) : Dyn A :=
  db_throw (Storage (storage_detail operation e)).

Definition disposition_value (d : Disposition) : string :=
  match d with Lost => DISPOSITION_LOST | DTerminated => DISPOSITION_TERMINATED end.

Definition connector_value (c : ConnectorClass) : string :=
  match c with ConnNone => "none" | ConnPublic => "public" | ConnAllowlist => "allowlist" end.

Definition item_key (k : TargetKey) : ItemKey := (root_id k, target_key k).
Definition capacity_key : ItemKey := (CAPACITY_ROOT_ID, CAPACITY_TARGET_KEY).

(** ** The item of a record *)
Definition materializing_item (lease : MaterializationLease) (now_ms : Z) : Item :=
  list_to_map
    [ (ROOT_ID, attr_s (root_id (l_key lease)));
      (TARGET_KEY, attr_s (target_key (l_key lease)));
      (STATE, attr_s MATERIALIZING);
      ("spec_digest", attr_s (l_spec_digest lease));
      ("connector", attr_s (connector_value (connector (l_spec lease))));
      ("image_identity", attr_s (image_identity (l_spec lease)));
      ("resource_class", attr_s (resource_class (l_spec lease)));
      ("materialized_mib", attr_n (materialized_mib (l_spec lease)));
      ("resource_policy_digest", attr_s (resource_policy_digest (l_spec lease)));
      ("network_policy_digest", attr_s (network_policy_digest (l_spec lease)));
      ("reservation_id", attr_s (l_reservation_id lease));
      ("generation", attr_s (l_generation lease));
      (LAUNCH_REQUEST, attr_b (dlr_expose (l_launch_request lease)));
      (ATTEMPT_ID, attr_s (l_attempt_id lease));
      (ATTEMPT_EXPIRES_AT_MS, attr_n (l_attempt_expires_at_ms lease));
      ("expires_at_ms", attr_n (l_target_expires_at_ms lease));
      ("lease_expires_at_ms", attr_n (l_lease_expires_at_ms lease));
      ("updated_at_ms", attr_n now_ms) ].

Definition rec_string (attrs : Item) (name : string) : result MaterializationError string :=
  ok_or (Corrupt ("missing string " +:+ name)) (v ← attrs !! name; as_s v).
Definition rec_number (attrs : Item) (name : string) : result MaterializationError Z :=
  ok_or (Corrupt ("missing numeric " +:+ name)) (v ← attrs !! name; n ← as_n v; parse_uint U64_MAX n).
Definition rec_binary (attrs : Item) (name : string) : result MaterializationError string :=
  ok_or (Corrupt ("missing binary " +:+ name)) (v ← attrs !! name; b ← as_b v; from_utf8 b).

Definition parse_connector (value : string) : result MaterializationError ConnectorClass :=
  if str_eqb value "none" then Ok ConnNone
  else if str_eqb value "public" then Ok ConnPublic
  else if str_eqb value "allowlist" then Ok ConnAllowlist
  else Err (Corrupt ("unknown connector " +:+ value)).

Definition parse_disposition (value : string) : result MaterializationError Disposition :=
  if str_eqb value DISPOSITION_LOST then Ok Lost
  else if str_eqb value DISPOSITION_TERMINATED then Ok DTerminated
  else Err (Corrupt ("unknown disposition " +:+ value)).

Section registry.
Context (spec_digest : TargetSpec -> string).

Definition parse_state (attrs : Item) : result MaterializationError DurableTargetState :=
  state ← rec_string attrs STATE;
  if str_eqb state MATERIALIZING then
    reservation_id ← rec_string attrs "reservation_id";
    launch_request ← rec_binary attrs LAUNCH_REQUEST;
    launch_request ← map_err from_secret_error (DurableLaunchRequest_new launch_request);
    attempt_id ← rec_string attrs ATTEMPT_ID;
    attempt_expires_at_ms ← rec_number attrs ATTEMPT_EXPIRES_AT_MS;
    target_expires_at_ms ← rec_number attrs "expires_at_ms";
    lease_expires_at_ms ← rec_number attrs "lease_expires_at_ms";
    Ok (Materializing reservation_id launch_request attempt_id attempt_expires_at_ms target_expires_at_ms lease_expires_at_ms)
  else if str_eqb state INSTALLED then
    target_ref ← rec_string attrs "target_ref";
    control_token ← rec_binary attrs CONTROL_TOKEN;
    control_token ← map_err from_secret_error (ControlToken_new control_token);
    installed_at_ms ← rec_number attrs "installed_at_ms";
    expires_at_ms ← rec_number attrs "expires_at_ms";
    Ok (Installed target_ref control_token installed_at_ms expires_at_ms)
  else if str_eqb state CLOSED then
    disposition ← rec_string attrs "disposition";
    disposition ← parse_disposition disposition;
    reason ← rec_string attrs "reason";
    at_ms ← rec_number attrs "at_ms";
    Ok (Closed disposition reason at_ms)
  else Err (Corrupt ("unknown state " +:+ state)).

Definition parse_spec (attrs : Item) : result MaterializationError TargetSpec :=
  connector ← rec_string attrs "connector";
  connector ← parse_connector connector;
  image_identity ← rec_string attrs "image_identity";
  resource_class ← rec_string attrs "resource_class";
  materialized_mib ← rec_number attrs "materialized_mib";
  resource_policy_digest ← rec_string attrs "resource_policy_digest";
  network_policy_digest ← rec_string attrs "network_policy_digest";
  TargetSpec_new connector image_identity resource_class materialized_mib resource_policy_digest network_policy_digest.

Definition parse_record (attrs : Item) : result MaterializationError DurableTargetRecord :=
  root_id ← rec_string attrs ROOT_ID;
  target_key ← rec_string attrs TARGET_KEY;
  spec ← parse_spec attrs;
  digest ← rec_string attrs "spec_digest";
  generation ← rec_string attrs "generation";
  state ← parse_state attrs;
  updated_at_ms ← rec_number attrs "updated_at_ms";
  let record := mkDurableTargetRecord (mkTargetKey root_id target_key) spec digest generation state updated_at_ms in
  _ ← DurableTargetRecord_validate spec_digest record;
  Ok record.

(** ** The plane's capacity row *)
Definition plane_capacity_error (reserved requested max : Z) : option MaterializationError :=
  let available := saturating_sub max reserved in
  if available <? requested then
    Some (CapacityError "plane_materialized_memory_mib" 1000
            (print_uint requested +:+ " MiB target exceeds remaining plane allocation of " +:+ print_uint available +:+ " MiB"))
  else None.

Definition capacity_add_update (mib max now_ms : Z) : result MaterializationError TableWrite :=
  remaining ← ok_or (CapacityError "plane_materialized_memory_mib" 1000
                (print_uint mib +:+ " MiB target exceeds the " +:+ print_uint max +:+ " MiB plane allocation"))
                (checked_sub max mib);
  Ok (WUpdate capacity_key
        (COr (CNotExists "reserved_mib") (CLe "reserved_mib" (attr_n remaining)))
        (mkUpdateExpr [("reserved_mib", SetPlusDefault "reserved_mib" (attr_n 0) (attr_n mib));
                       ("updated_at_ms", SetTo (attr_n now_ms))] [])).

Definition capacity_subtract_update (mib now_ms : Z) : TableWrite :=
  WUpdate capacity_key (CGe "reserved_mib" (attr_n mib))
    (mkUpdateExpr [("reserved_mib", SetMinus "reserved_mib" (attr_n mib));
                   ("updated_at_ms", SetTo (attr_n now_ms))] []).

(** ** Conditional writes of target rows *)
Definition state_is (value : string) : Cond := CEq STATE (attr_s value).

(** [SET #state = :materializing, …] of both replacements. *)
Definition materialize_update (lease : MaterializationLease) (now_ms : Z) : UpdateExpr :=
  mkUpdateExpr
    [ (STATE, SetTo (attr_s MATERIALIZING)); ("reservation_id", SetTo (attr_s (l_reservation_id lease)));
      ("generation", SetTo (attr_s (l_generation lease)));
      ("lease_expires_at_ms", SetTo (attr_n (l_lease_expires_at_ms lease)));
      ("expires_at_ms", SetTo (attr_n (l_target_expires_at_ms lease)));
      (LAUNCH_REQUEST, SetTo (attr_b (dlr_expose (l_launch_request lease))));
      (ATTEMPT_ID, SetTo (attr_s (l_attempt_id lease)));
      (ATTEMPT_EXPIRES_AT_MS, SetTo (attr_n (l_attempt_expires_at_ms lease)));
      ("updated_at_ms", SetTo (attr_n now_ms)) ]
    ["target_ref"; CONTROL_TOKEN; "installed_at_ms"; "reason"; "disposition"; "at_ms"; "expires_at_s"].

Definition replace_expired_write (old_reservation : string) (request : AcquireTarget) (lease : MaterializationLease) : TableWrite :=
  WUpdate (item_key (a_key request))
    (CAnd (state_is MATERIALIZING)
      (CAnd (CEq "reservation_id" (attr_s old_reservation))
        (CAnd (CLe "lease_expires_at_ms" (attr_n (a_now_ms request)))
              (CEq "spec_digest" (attr_s (l_spec_digest lease))))))
    (materialize_update lease (a_now_ms request)).

Definition take_update (attempt_id : string) (attempt_expires_at_ms now_ms : Z) : UpdateExpr :=
  mkUpdateExpr
    [ (ATTEMPT_ID, SetTo (attr_s attempt_id)); (ATTEMPT_EXPIRES_AT_MS, SetTo (attr_n attempt_expires_at_ms));
      ("updated_at_ms", SetTo (attr_n now_ms)) ] [].

Definition take_attempt_write (current : DurableTargetRecord) (reservation_id attempt_id : string) (attempt_expires_at_ms : Z)
    (request : AcquireTarget) : TableWrite :=
  WUpdate (item_key (a_key request))
    (CAnd (state_is MATERIALIZING)
      (CAnd (CEq "reservation_id" (attr_s reservation_id))
        (CAnd (CEq "generation" (attr_s (r_generation current)))
          (CAnd (CEq ATTEMPT_ID (attr_s attempt_id))
            (CAnd (CLe ATTEMPT_EXPIRES_AT_MS (attr_n (a_now_ms request)))
              (CAnd (CGt "lease_expires_at_ms" (attr_n (a_now_ms request)))
                (CAnd (CGt "expires_at_ms" (attr_n (a_now_ms request)))
                      (CEq "spec_digest" (attr_s (r_spec_digest current))))))))))
    (take_update (a_attempt_id request) attempt_expires_at_ms (a_now_ms request)).

Definition replace_gone_write (current : DurableTargetRecord) (request : AcquireTarget) (lease : MaterializationLease) : TableWrite :=
  WUpdate (item_key (a_key request))
    (CAnd (state_is CLOSED)
      (CAnd (CEq "disposition" (attr_s DISPOSITION_LOST))
        (CAnd (CEq "generation" (attr_s (r_generation current)))
              (CEq "spec_digest" (attr_s (l_spec_digest lease))))))
    (materialize_update lease (a_now_ms request)).

Definition install_update (target : PhysicalTarget) (now_ms : Z) : UpdateExpr :=
  mkUpdateExpr
    [ (STATE, SetTo (attr_s INSTALLED)); ("target_ref", SetTo (attr_s (p_target_ref target)));
      ("generation", SetTo (attr_s (p_generation target)));
      (CONTROL_TOKEN, SetTo (attr_b (ct_expose (p_control_token target))));
      ("installed_at_ms", SetTo (attr_n now_ms)); ("updated_at_ms", SetTo (attr_n now_ms)) ]
    ["reservation_id"; "lease_expires_at_ms"; "reason"; "disposition"; "at_ms"; "expires_at_s";
     LAUNCH_REQUEST; ATTEMPT_ID; ATTEMPT_EXPIRES_AT_MS].

Definition install_write (lease : MaterializationLease) (target : PhysicalTarget) (now_ms : Z) : TableWrite :=
  WUpdate (item_key (l_key lease))
    (CAnd (state_is MATERIALIZING)
      (CAnd (CEq "reservation_id" (attr_s (l_reservation_id lease)))
        (CAnd (CEq "generation" (attr_s (l_generation lease)))
              (CEq "spec_digest" (attr_s (l_spec_digest lease))))))
    (install_update target now_ms).

Definition expire_write (lease : MaterializationLease) : TableWrite :=
  WDelete (item_key (l_key lease))
    (CAnd (state_is MATERIALIZING)
      (CAnd (CEq "reservation_id" (attr_s (l_reservation_id lease)))
        (CAnd (CEq "generation" (attr_s (l_generation lease)))
              (CEq ATTEMPT_ID (attr_s (l_attempt_id lease)))))).

Definition close_update (disposition : Disposition) (reason : string) (now_ms : Z) : UpdateExpr :=
  mkUpdateExpr
    [ (STATE, SetTo (attr_s CLOSED)); ("disposition", SetTo (attr_s (disposition_value disposition)));
      ("reason", SetTo (attr_s reason)); ("at_ms", SetTo (attr_n now_ms)); ("updated_at_ms", SetTo (attr_n now_ms)) ]
    ["target_ref"; CONTROL_TOKEN; "installed_at_ms"; "expires_at_ms"; "expires_at_s"].

Definition close_write (target : InstalledTarget) (disposition : Disposition) (reason : string) (now_ms : Z) : TableWrite :=
  WUpdate (item_key (i_key target))
    (CAnd (state_is INSTALLED)
      (CAnd (CEq "target_ref" (attr_s (i_target_ref target)))
        (CAnd (CEq "generation" (attr_s (i_generation target)))
              (CEq "spec_digest" (attr_s (i_spec_digest target))))))
    (close_update disposition reason now_ms).

Definition purge_write (key : TargetKey) (generation : string) : TableWrite :=
  WDelete (item_key key) (CAnd (CEq "generation" (attr_s generation)) (state_is CLOSED)).

(** ** Service calls *)
Context (max_materialized_mib : Z).

(** [output.item().map(parse_record).transpose()] *)
Definition read (key : TargetKey) : Dyn (option DurableTargetRecord) :=
  response ← db_get (item_key key);
  match response with
  | Err error => storage_error "get target" error
  | Ok None => mret None
  | Ok (Some item) => record ← db_lift (parse_record item); mret (Some record)
  end.

Definition reserved_capacity : Dyn Z :=
  response ← db_get capacity_key;
  match response with
  | Err error => storage_error "get materialization capacity" error
  | Ok None => mret 0
  | Ok (Some item) =>
      db_lift (ok_or (Corrupt "capacity row has no valid reserved_mib")
        (v ← item !! "reserved_mib"; n ← as_n v; parse_uint U64_MAX n))
  end.

Definition conditional_result (operation : string) (response : result SdkError (option Item)) : Dyn bool :=
  match response with
  | Ok _ => mret true
  | Err error => if conditional_failure error then mret false else storage_error operation error
  end.

Definition transaction_result (operation : string) (response : result SdkError (option Item)) : Dyn bool :=
  match response with
  | Ok _ => mret true
  | Err error => if transaction_cancelled error then mret false else storage_error operation error
  end.

Definition materializing_reservation (record : DurableTargetRecord) : result MaterializationError string :=
  match r_state record with
  | Materializing reservation_id _ _ _ _ _ => Ok reservation_id
  | _ => Err (Corrupt "expected materializing target")
  end.

Definition replace_expired_materialization (current : DurableTargetRecord) (request : AcquireTarget)
    (lease : MaterializationLease) : Dyn bool :=
  old ← db_lift (materializing_reservation current);
  response ← db_write [replace_expired_write old request lease];
  conditional_result "replace expired materialization" response.

Definition take_expired_attempt (current : DurableTargetRecord) (request : AcquireTarget) : Dyn (option MaterializationLease) :=
  match r_state current with
  | Materializing reservation_id launch_request attempt_id _ target_expires lease_expires =>
      sum ← db_lift (ok_or InvalidLease (checked_add (a_now_ms request) (a_attempt_duration_ms request)));
      let attempt_expires := Z.min sum lease_expires in
      if attempt_expires <=? a_now_ms request then db_throw InvalidLease
      else
        response ← db_write [take_attempt_write current reservation_id attempt_id attempt_expires request];
        taken ← conditional_result "take materialization attempt" response;
        if (taken : bool) then
          mret (Some (mkMaterializationLease (r_key current) (r_spec current) (r_spec_digest current) reservation_id
                        (r_generation current) launch_request (a_attempt_id request) attempt_expires target_expires
                        lease_expires true))
        else mret None
  | _ => db_throw (Corrupt "expected materializing target")
  end.

Definition replace_gone_default (current : DurableTargetRecord) (request : AcquireTarget) (lease : MaterializationLease) : Dyn bool :=
  capacity ← db_lift (capacity_add_update (materialized_mib (l_spec lease)) max_materialized_mib (a_now_ms request));
  response ← db_write [replace_gone_write current request lease; capacity];
  transaction_result "replace gone default" response.

Definition purge_terminal (key : TargetKey) (generation : string) : Dyn unit :=
  response ← db_write [purge_write key generation];
  match response with
  | Ok _ => mret tt
  | Err error =>
      if conditional_failure error then
        current ← read key;
        match current with
        | None => mret tt
        | Some _ => db_throw (ReservationLost None)
        end
      else storage_error "purge terminal target" error
  end.

(** ** TargetReservations *)
Definition is_gone (s : DurableTargetState) : bool := disposition_is_lost s.

(** One iteration of the bounded loop: [inl] returns, [inr tt] goes round again. *)
Definition acquire_round (request : AcquireTarget) (lease : MaterializationLease) : Dyn (AcquireOutcome + unit) :=
  current ← read (a_key request);
  match current with
  | None =>
      reserved ← reserved_capacity;
      match plane_capacity_error reserved (materialized_mib (l_spec lease)) max_materialized_mib with
      | Some error => db_throw error
      | None => db_throw (Storage "target reservation transaction was cancelled despite available capacity")
      end
  | Some current =>
      _ ← db_lift (DurableTargetRecord_validate spec_digest current);
      if negb (str_eqb (r_spec_digest current) (l_spec_digest lease)) then db_throw SpecConflict
      else if generation_is_fenced request && negb (str_eqb (r_generation current) (l_generation lease))
              && negb (replace_after_loss request && is_gone (r_state current))
      then db_throw SpecConflict
      else
        match r_state current with
        | Installed _ _ _ _ =>
            match installed current with
            | Some t => mret (inl (AcqInstalled t))
            | None => db_throw (Corrupt "installed state projects")
            end
        | Materializing _ _ _ attempt_expires target_expires lease_expires =>
            if lease_expires <=? a_now_ms request then
              replaced ← replace_expired_materialization current request lease;
              mret (if (replaced : bool) then inl (AcqAcquired lease) else inr tt)
            else if target_expires <=? a_now_ms request then
              mret (inl (AcqPending (r_generation current) (materialization_poll_after lease_expires (a_now_ms request))))
            else if a_now_ms request <? attempt_expires then
              mret (inl (AcqPending (r_generation current) (materialization_poll_after attempt_expires (a_now_ms request))))
            else
              recovered ← take_expired_attempt current request;
              mret (match recovered with Some l => inl (AcqAcquired l) | None => inr tt end)
        | Closed Lost _ _ =>
            if replace_after_loss request then
              replaced ← replace_gone_default current request lease;
              if (replaced : bool) then mret (inl (AcqAcquired lease))
              else
                latest ← read (a_key request);
                let unchanged := match latest with
                  | Some latest => str_eqb (r_generation latest) (r_generation current)
                                   && str_eqb (r_spec_digest latest) (r_spec_digest current) && is_gone (r_state latest)
                  | None => false
                  end in
                if (unchanged : bool) then
                  reserved ← reserved_capacity;
                  match plane_capacity_error reserved (materialized_mib (l_spec lease)) max_materialized_mib with
                  | Some error => db_throw error
                  | None => mret (inr tt)
                  end
                else mret (inr tt)
            else mret (inl AcqGone)
        | Closed DTerminated _ _ => mret (inl AcqTerminated)
        end
  end.

Fixpoint acquire_rounds (rounds : nat) (request : AcquireTarget) (lease : MaterializationLease) : Dyn AcquireOutcome :=
  match rounds with
  | O => db_throw (Storage "target changed during bounded reservation attempts")
  | S rounds =>
      step ← acquire_round request lease;
      match step with
      | inl outcome => mret outcome
      | inr _ => acquire_rounds rounds request lease
      end
  end.

Definition dynamo_acquire (request : AcquireTarget) : Dyn AcquireOutcome :=
  lease ← db_lift (AcquireTarget_lease spec_digest request);
  let put := WPut (item_key (l_key lease)) (materializing_item lease (a_now_ms request)) (CNotExists ROOT_ID) in
  capacity ← db_lift (capacity_add_update (materialized_mib (l_spec lease)) max_materialized_mib (a_now_ms request));
  response ← db_write [put; capacity];
  match response with
  | Ok _ => mret (AcqAcquired lease)
  | Err error =>
      if transaction_cancelled error then acquire_rounds 4 request lease
      else storage_error "reserve target" error
  end.

Definition installed_as (lease : MaterializationLease) (target : PhysicalTarget) (i : InstalledTarget) : bool :=
  str_eqb (i_target_ref i) (p_target_ref target) && str_eqb (i_generation i) (p_generation target)
  && bool_decide (i_control_token i = p_control_token target) && str_eqb (i_spec_digest i) (l_spec_digest lease).

Definition dynamo_install (lease : MaterializationLease) (target : PhysicalTarget) (now_ms : Z) : Dyn InstallOutcome :=
  response ← db_write [install_write lease target now_ms];
  match response with
  | Ok None => db_throw (Corrupt "install returned no target record")
  | Ok (Some attrs) =>
      record ← db_lift (parse_record attrs);
      match installed record with
      | Some t => mret (InstInstalled t)
      | None => db_throw (Corrupt "install returned a non-installed target")
      end
  | Err error =>
      if conditional_failure error then
        existing ← read (l_key lease);
        mret (match existing ≫= installed with
              | Some t => if installed_as lease target t then InstInstalled t else InstReservationLost
              | None => InstReservationLost
              end)
      else storage_error "install target" error
  end.

Definition holds_lease (lease : MaterializationLease) (record : DurableTargetRecord) : bool := expire_matches lease record.

Definition dynamo_expire_lease (lease : MaterializationLease) (now_ms : Z) : Dyn unit :=
  response ← db_write [expire_write lease; capacity_subtract_update (materialized_mib (l_spec lease)) now_ms];
  match response with
  | Ok _ => mret tt
  | Err error =>
      if transaction_cancelled error then
        current ← read (l_key lease);
        match current with
        | None => mret tt
        | Some record =>
            if holds_lease lease record then
              db_throw (Storage "exact materialization lease could not refund capacity")
            else mret tt
        end
      else storage_error "expire target lease" error
  end.

(** ** TargetDirectory *)
Definition dynamo_get (key : TargetKey) : Dyn (option DurableTargetRecord) :=
  _ ← db_lift (TargetKey_validate key);
  read key.

Definition transition_closed (target : InstalledTarget) (disposition : Disposition) (reason : string) (now_ms : Z) : Dyn unit :=
  _ ← db_lift (InstalledTarget_validate spec_digest target);
  if (str_len reason =? 0) || (MAX_REASON_BYTES <? str_len reason) then db_throw (InvalidIdentity "reason")
  else
    response ← db_write [close_write target disposition reason now_ms;
                         capacity_subtract_update (materialized_mib (i_spec target)) now_ms];
    match response with
    | Ok _ => mret tt
    | Err error =>
        if transaction_cancelled error then
          current ← read (i_key target);
          match current with
          | Some record =>
              if str_eqb (r_generation record) (i_generation target)
                 && match r_state record with Closed stored _ _ => bool_decide (stored = disposition) | _ => false end
              then mret tt else db_throw (ReservationLost None)
          | None => db_throw (ReservationLost None)
          end
        else storage_error "transition target" error
    end.

Fixpoint parse_all (items : list Item) : result MaterializationError (list DurableTargetRecord) :=
  match items with
  | [] => Ok []
  | item :: items => r ← parse_record item; rs ← parse_all items; Ok (r :: rs)
  end.

(** The page the service returns, with its [LastEvaluatedKey] as the next cursor. *)
Definition dynamo_list_root (root : string) (cursor : option string) (limit : Z)
    : Dyn (list DurableTargetRecord * option string) :=
  key ← db_lift (for_default_target root);
  _ ← db_lift (TargetKey_validate key);
  let limit := clamp limit 1 MAX_PAGE in
  response ← db_query root TARGET_KEY_PREFIX cursor limit;
  match response with
  | Err error => storage_error "list root targets" error
  | Ok (items, last) => records ← db_lift (parse_all items); mret (records, last)
  end.
End registry.

(** ** The item codec *)
Section codec.
Context (spec_digest : TargetSpec -> string).

(** A spec as [TargetSpec::new] builds it. *)
Definition spec_wf (s : TargetSpec) : Prop :=
  TargetSpec_new (connector s) (image_identity s) (resource_class s) (materialized_mib s) (resource_policy_digest s)
    (network_policy_digest s) = Ok s.

Lemma spec_wf_mib s : spec_wf s -> materialized_mib s <> 0 /\ materialized_mib s <= MAX_MATERIALIZED_MIB.
Proof.
  unfold spec_wf, TargetSpec_new. intros H. apply result_bind_Ok in H as (_ & _ & H). apply result_bind_Ok in H as (_ & _ & H).
  destruct (_ || _) eqn:E in H; [done|]. apply orb_false_iff in E as [E1 E2]. bool_hyps. lia.
Qed.

(** The machine-width and UTF-8 typing of a request; the digest is a hexadecimal SHA-256. *)
Definition request_typed (request : AcquireTarget) : Prop :=
  spec_wf (a_spec request) /\ u64 (materialized_mib (a_spec request)) /\ u64 (a_now_ms request)
  /\ u64 (a_attempt_duration_ms request) /\ u64 (a_lease_duration_ms request) /\ u64 (a_target_lifetime_ms request)
  /\ utf8 (dlr_expose (a_launch_request request)) /\ hex_digest (spec_digest (a_spec request)).

Lemma rec_string_get attrs name v : attrs !! name = Some (attr_s v) -> rec_string attrs name = Ok v.
Proof. unfold rec_string. by intros ->. Qed.

Lemma rec_number_get attrs name v : attrs !! name = Some (attr_n v) -> u64 v -> rec_number attrs name = Ok v.
Proof. unfold rec_number. intros -> Hv. cbn [mbind option_bind]. unfold attr_n, as_n. cbn [mbind option_bind]. by rewrite parse_print_uint by (unfold u64 in Hv; lia). Qed.

Lemma rec_binary_get attrs name v : attrs !! name = Some (attr_b v) -> utf8 v -> rec_binary attrs name = Ok v.
Proof. unfold rec_binary. intros -> Hv. cbn. by rewrite from_utf8_bytes. Qed.

Lemma parse_connector_value c : parse_connector (connector_value c) = Ok c.
Proof. by destruct c. Qed.

Lemma parse_disposition_value d : parse_disposition (disposition_value d) = Ok d.
Proof. by destruct d. Qed.

(** The attributes every row of a record has. *)
Record row_of (r : DurableTargetRecord) (attrs : Item) : Prop := {
  row_root : attrs !! ROOT_ID = Some (attr_s (root_id (r_key r)));
  row_target : attrs !! TARGET_KEY = Some (attr_s (target_key (r_key r)));
  row_digest : attrs !! "spec_digest" = Some (attr_s (r_spec_digest r));
  row_connector : attrs !! "connector" = Some (attr_s (connector_value (connector (r_spec r))));
  row_image : attrs !! "image_identity" = Some (attr_s (image_identity (r_spec r)));
  row_class : attrs !! "resource_class" = Some (attr_s (resource_class (r_spec r)));
  row_mib_attr : attrs !! "materialized_mib" = Some (attr_n (materialized_mib (r_spec r)));
  row_resource : attrs !! "resource_policy_digest" = Some (attr_s (resource_policy_digest (r_spec r)));
  row_network : attrs !! "network_policy_digest" = Some (attr_s (network_policy_digest (r_spec r)));
  row_generation : attrs !! "generation" = Some (attr_s (r_generation r));
  row_updated : attrs !! "updated_at_ms" = Some (attr_n (r_updated_at_ms r));
  row_state_attrs :
    match r_state r with
    | Materializing rid lr att ae te le =>
        attrs !! STATE = Some (attr_s MATERIALIZING) /\ attrs !! "reservation_id" = Some (attr_s rid)
        /\ attrs !! LAUNCH_REQUEST = Some (attr_b (dlr_expose lr)) /\ attrs !! ATTEMPT_ID = Some (attr_s att)
        /\ attrs !! ATTEMPT_EXPIRES_AT_MS = Some (attr_n ae) /\ attrs !! "expires_at_ms" = Some (attr_n te)
        /\ attrs !! "lease_expires_at_ms" = Some (attr_n le)
    | Installed tr ct ia ea =>
        attrs !! STATE = Some (attr_s INSTALLED) /\ attrs !! "target_ref" = Some (attr_s tr)
        /\ attrs !! CONTROL_TOKEN = Some (attr_b (ct_expose ct)) /\ attrs !! "installed_at_ms" = Some (attr_n ia)
        /\ attrs !! "expires_at_ms" = Some (attr_n ea)
    | Closed d rs at_ =>
        attrs !! STATE = Some (attr_s CLOSED) /\ attrs !! "disposition" = Some (attr_s (disposition_value d))
        /\ attrs !! "reason" = Some (attr_s rs) /\ attrs !! "at_ms" = Some (attr_n at_)
    end;
}.

(** What the types of a record guarantee: machine widths, UTF-8 and constructor-checked secrets. *)
Definition record_typed (r : DurableTargetRecord) : Prop :=
  spec_wf (r_spec r) /\ u64 (materialized_mib (r_spec r)) /\ u64 (r_updated_at_ms r)
  /\ match r_state r with
     | Materializing _ lr _ ae te le =>
         DurableLaunchRequest_new (dlr_expose lr) = Ok lr /\ utf8 (dlr_expose lr) /\ u64 ae /\ u64 te /\ u64 le
     | Installed _ ct ia ea => ControlToken_new (ct_expose ct) = Ok ct /\ utf8 (ct_expose ct) /\ u64 ia /\ u64 ea
     | Closed _ _ at_ => u64 at_
     end.

(** The row of a typed record parses to it exactly when the record is valid. *)
Lemma parse_row r attrs :
  row_of r attrs -> record_typed r ->
  parse_record spec_digest attrs = match DurableTargetRecord_validate spec_digest r with Ok _ => Ok r | Err e => Err e end.
Proof.
  intros [Hroot Htarget Hdigest Hconn Himg Hcls Hmib Hres Hnet Hgen Hupd Hst] (Hspec & Hm & Hu & Hty).
  unfold parse_record. rewrite (rec_string_get _ _ _ Hroot), (rec_string_get _ _ _ Htarget). cbn.
  assert (Hps : parse_spec attrs = Ok (r_spec r)).
  { unfold parse_spec. rewrite (rec_string_get _ _ _ Hconn). cbn. rewrite parse_connector_value. cbn.
    rewrite (rec_string_get _ _ _ Himg). cbn. rewrite (rec_string_get _ _ _ Hcls). cbn.
    rewrite (rec_number_get _ _ _ Hmib Hm). cbn. rewrite (rec_string_get _ _ _ Hres). cbn.
    by rewrite (rec_string_get _ _ _ Hnet). }
  assert (Hpst : parse_state attrs = Ok (r_state r)).
  { unfold parse_state. destruct (r_state r) as [rid lr att ae te le|tr ct ia ea|d rs at_].
    - destruct Hst as (Hst & H1 & H2 & H3 & H4 & H5 & H6), Hty as (Hlr & Hutf & Ha & Ht & Hl).
      rewrite (rec_string_get _ _ _ Hst). cbn. rewrite (rec_string_get _ _ _ H1). cbn.
      rewrite (rec_binary_get _ _ _ H2 Hutf). cbn. rewrite Hlr. cbn. rewrite (rec_string_get _ _ _ H3). cbn.
      rewrite (rec_number_get _ _ _ H4 Ha). cbn. rewrite (rec_number_get _ _ _ H5 Ht). cbn.
      by rewrite (rec_number_get _ _ _ H6 Hl).
    - destruct Hst as (Hst & H1 & H2 & H3 & H4), Hty as (Hct & Hutf & Hi & He).
      rewrite (rec_string_get _ _ _ Hst). cbn. rewrite (rec_string_get _ _ _ H1). cbn.
      rewrite (rec_binary_get _ _ _ H2 Hutf). cbn. rewrite Hct. cbn.
      rewrite (rec_number_get _ _ _ H3 Hi). cbn. by rewrite (rec_number_get _ _ _ H4 He).
    - destruct Hst as (Hst & H1 & H2 & H3).
      rewrite (rec_string_get _ _ _ Hst). cbn. rewrite (rec_string_get _ _ _ H1). cbn. rewrite parse_disposition_value. cbn.
      rewrite (rec_string_get _ _ _ H2). cbn. by rewrite (rec_number_get _ _ _ H3 Hty). }
  rewrite Hps. cbn. rewrite (rec_string_get _ _ _ Hdigest). cbn. rewrite (rec_string_get _ _ _ Hgen). cbn.
  rewrite Hpst. cbn. rewrite (rec_number_get _ _ _ Hupd Hu). cbn.
  destruct r as [[root key] spec dg gen st upd]. cbn. by destruct (DurableTargetRecord_validate _ _) as [[]|].
Qed.

(** ** What each write does to a row *)
Ltac row_attr Hl := rewrite Hl; cbn; try done.

Lemma row_of_item lease now : row_of (record_from_lease lease now) (materializing_item lease now).
Proof. constructor; cbn -[materializing_item]; unfold materializing_item; rewrite ?list_to_map_assoc; cbn; done. Qed.

(** An update of plain values turns a row of [r] into a row of [r'], attribute by attribute. *)
Lemma materialize_update_row r attrs key lease now :
  row_of r attrs -> r_key r = l_key lease -> r_spec r = l_spec lease -> r_spec_digest r = l_spec_digest lease ->
  exists attrs', apply_update key (materialize_update lease now) (Some attrs) = Some attrs'
  /\ row_of (record_from_lease lease now) attrs'.
Proof.
  intros [] Hk Hs Hd. destruct (apply_update_plain key (materialize_update lease now) attrs eq_refl) as (attrs' & -> & Hl).
  exists attrs'. split; [done|]. constructor; cbn; rewrite <- ?Hk, <- ?Hs, <- ?Hd; rewrite ?Hl; cbn; done.
Qed.

Definition taken_record (r : DurableTargetRecord) rid lr (att : string) (ae te le now : Z) : DurableTargetRecord :=
  mkDurableTargetRecord (r_key r) (r_spec r) (r_spec_digest r) (r_generation r) (Materializing rid lr att ae te le) now.

Lemma take_attempt_row r attrs key rid lr att ae te le att' ae' now :
  row_of r attrs -> r_state r = Materializing rid lr att ae te le ->
  exists attrs', apply_update key (take_update att' ae' now) (Some attrs) = Some attrs'
  /\ row_of (taken_record r rid lr att' ae' te le now) attrs'.
Proof.
  intros [Hroot Htarget Hdigest Hconn Himg Hcls Hmib Hres Hnet Hgen Hupd Hst] Hr. rewrite Hr in Hst.
  destruct (apply_update_plain key (take_update att' ae' now) attrs eq_refl) as (attrs' & -> & Hl). exists attrs'. split; [done|].
  destruct Hst as (? & ? & ? & ? & ? & ? & ?). constructor; cbn; rewrite ?Hl; cbn; try done.
Qed.

Definition installed_record (r : DurableTargetRecord) (target : PhysicalTarget) (now expires : Z) : DurableTargetRecord :=
  mkDurableTargetRecord (r_key r) (r_spec r) (r_spec_digest r) (p_generation target)
    (Installed (p_target_ref target) (p_control_token target) now expires) now.

Lemma install_row r attrs key target now rid lr att ae te le :
  row_of r attrs -> r_state r = Materializing rid lr att ae te le ->
  exists attrs', apply_update key (install_update target now) (Some attrs) = Some attrs'
  /\ row_of (installed_record r target now te) attrs'.
Proof.
  intros [Hroot Htarget Hdigest Hconn Himg Hcls Hmib Hres Hnet Hgen Hupd Hst] Hr. rewrite Hr in Hst.
  destruct (apply_update_plain key (install_update target now) attrs eq_refl) as (attrs' & -> & Hl). exists attrs'. split; [done|].
  destruct Hst as (? & ? & ? & ? & ? & ? & ?). constructor; cbn; rewrite ?Hl; cbn; try done.
Qed.

Definition closed_record (r : DurableTargetRecord) (d : Disposition) (reason : string) (now : Z) : DurableTargetRecord :=
  mkDurableTargetRecord (r_key r) (r_spec r) (r_spec_digest r) (r_generation r) (Closed d reason now) now.

Lemma close_row r attrs key d reason now :
  row_of r attrs ->
  exists attrs', apply_update key (close_update d reason now) (Some attrs) = Some attrs'
  /\ row_of (closed_record r d reason now) attrs'.
Proof.
  intros [Hroot Htarget Hdigest Hconn Himg Hcls Hmib Hres Hnet Hgen Hupd Hst].
  destruct (apply_update_plain key (close_update d reason now) attrs eq_refl) as (attrs' & -> & Hl). exists attrs'. split; [done|].
  constructor; cbn; rewrite ?Hl; cbn; try done.
Qed.

Lemma lease_record_typed request lease :
  AcquireTarget_lease spec_digest request = Ok lease -> request_typed request ->
  record_typed (record_from_lease lease (a_now_ms request))
  /\ DurableTargetRecord_validate spec_digest (record_from_lease lease (a_now_ms request)) = Ok tt.
Proof.
  intros Hl (Hspec & Hmib & Hnow & Had & Hld & Htl & Hutf & Hhex). pose proof Hl as Hl'. unfold AcquireTarget_lease in Hl'.
  apply result_bind_Ok in Hl' as ([] & Hv & _). unfold AcquireTarget_validate in Hv.
  apply result_bind_Ok in Hv as ([] & Hkey & Hv). apply result_bind_Ok in Hv as ([] & Hrid & Hv).
  apply result_bind_Ok in Hv as ([] & Hgen & Hv). apply result_bind_Ok in Hv as ([] & Hlr & Hv).
  apply result_bind_Ok in Hv as ([] & Hatt & _).
  apply AcquireTarget_lease_Ok in Hl as (_ & _ & _ & _ & -> & Ht0 & Htlt & Hd0 & Hdlt & Hmax). unfold u64 in *. split.
  - unfold record_typed, u64. cbn. split_and!; try done; try lia. unfold DurableLaunchRequest_validate in Hlr.
    unfold DurableLaunchRequest_new. destruct (launch_request_in_bounds _); [|done]. by destruct (a_launch_request request).
  - unfold DurableTargetRecord_validate, state_validate. cbn. rewrite Hkey. cbn.
    rewrite (proj2 (mat_validate_digest_Ok _ _) Hhex), str_eqb_refl. cbn. rewrite Hgen, Hrid. cbn. rewrite Hlr. cbn.
    rewrite Hatt. cbn.
    match goal with |- (if ?b then _ else _) = _ => assert (b = false) as ->; [|done] end.
    rewrite !orb_false_iff, Z.eqb_neq, !Z.leb_gt, !Z.ltb_ge. lia.
Qed.

(** What [acquire] writes for a reservation, [parse_record] reads back as exactly the record the
    in-memory registry stores for the same lease. *)
Theorem materializing_item_roundtrip request lease :
  AcquireTarget_lease spec_digest request = Ok lease -> request_typed request ->
  parse_record spec_digest (materializing_item lease (a_now_ms request)) = Ok (record_from_lease lease (a_now_ms request)).
Proof.
  intros Hl Hty. destruct (lease_record_typed _ _ Hl Hty) as [Ht Hv].
  by rewrite (parse_row _ _ (row_of_item lease (a_now_ms request)) Ht), Hv.
Qed.
End codec.

(** ** Running operations without interference *)
Section refinement.
Context (spec_digest : TargetSpec -> string).
Context (max : Z).
Context (pages : Table -> string -> string -> option string -> Z -> list Item * option string).

Notation run := (run_db pages).

Definition counter (t : Table) : Z :=
  match t !! capacity_key with
  | None => 0
  | Some c => default 0 (v ← c !! "reserved_mib"; num_of v)
  end.

Definition capacity_wf (t : Table) : Prop :=
  match t !! capacity_key with
  | None => True
  | Some c => c !! STATE = None /\ exists n, u64 n /\ c !! "reserved_mib" = Some (attr_n n)
  end.

(** The table holds the rows of the in-memory registry's records and its allocation. *)
Record represents (t : Table) (s : MemoryTargetRegistry) : Prop := {
  rep_rows : forall k, match m_records s !! k with
    | None => target_key_wf k -> t !! item_key k = None
    | Some r => r_key r = k /\ target_key_wf k /\ record_typed r /\ exists attrs, t !! item_key k = Some attrs /\ row_of r attrs
    end;
  rep_capacity : capacity_wf t;
  rep_counter : counter t = reserved_mib s;
  rep_max : max_mib s = max;
}.

Lemma item_key_inj a b : item_key a = item_key b -> a = b.
Proof. destruct a, b. unfold item_key. cbn. congruence. Qed.

Lemma item_key_not_capacity k : target_key_wf k -> item_key k <> capacity_key.
Proof.
  unfold item_key, capacity_key. intros [_ [Hk|(s & _ & Hk)]] [= _ H]; rewrite Hk in H; done.
Qed.

(** The two capacity updates on a table. *)
Lemma capacity_add_apply mib now t w :
  capacity_wf t -> u64 mib -> u64 max -> capacity_add_update mib max now = Ok w ->
  if counter t <=? max - mib
  then exists c, apply_write w t = Some (<[capacity_key := c]> t) /\ c !! STATE = None
    /\ c !! "reserved_mib" = Some (attr_n (counter t + mib))
  else apply_write w t = None.
Proof.
  intros Hwf Hm Hmax Hw. unfold capacity_add_update in Hw. destruct (checked_sub max mib) as [left|] eqn:Hleft; [|done].
  cbn in Hw. injection Hw as <-. apply checked_sub_Some in Hleft as [-> Hle]. unfold u64 in *.
  unfold capacity_wf, counter in *. cbn [apply_write]. destruct (t !! capacity_key) as [c|].
  - destruct Hwf as (Hst & x & Hx & Hc). cbn [cond_holds attr_of mbind option_bind]. rewrite Hc. cbn [mbind option_bind from_option id default].
    rewrite num_of_attr_n by done. cbn [default from_option id].
    rewrite bool_decide_false by done. cbn [orb].
    rewrite (compare_num_attr _ _ x) by (done || lia).
    destruct (Z.leb_spec x (max - mib)); [|done].
    unfold apply_update. cbn [set_exprs apply_sets set_value attr_of mbind option_bind default from_option id].
    rewrite Hc. cbn [default from_option id mbind option_bind]. rewrite !num_of_attr_n by (unfold u64 in *; lia). cbn.
    eexists. split; [reflexivity|]. split.
    + by rewrite !lookup_insert_ne.
    + by rewrite lookup_insert_ne, lookup_insert_eq.
  - cbn [cond_holds attr_of mbind option_bind]. cbn. rewrite (proj2 (Z.leb_le _ _)) by lia.
    unfold apply_update. cbn [set_exprs apply_sets set_value attr_of mbind option_bind default from_option id].
    rewrite !num_of_attr_n by (unfold u64 in *; lia). cbn. eexists. split; [reflexivity|]. split.
    + by rewrite !lookup_insert_ne.
    + by rewrite lookup_insert_ne, lookup_insert_eq.
Qed.

Lemma capacity_subtract_apply mib now t t' :
  capacity_wf t -> u64 mib -> apply_write (capacity_subtract_update mib now) t = Some t' ->
  mib <= counter t <= U64_MAX /\ exists c, t' = <[capacity_key := c]> t /\ c !! STATE = None
    /\ c !! "reserved_mib" = Some (attr_n (counter t - mib)).
Proof.
  intros Hwf Hm. unfold capacity_subtract_update, capacity_wf, counter in *. cbn [apply_write].
  destruct (t !! capacity_key) as [c|]; [|done].
  destruct Hwf as (Hst & x & Hx & Hc). cbn [cond_holds attr_of mbind option_bind]. rewrite Hc.
  cbn [mbind option_bind from_option id default]. rewrite num_of_attr_n by done. cbn [default from_option id].
  rewrite (compare_num_attr _ _ x) by done. destruct (Z.leb_spec mib x); [|done].
  unfold apply_update. cbn [set_exprs apply_sets set_value attr_of mbind option_bind default from_option id].
  rewrite Hc. cbn [mbind option_bind]. rewrite !num_of_attr_n by (unfold u64 in *; lia). cbn. intros [= <-].
  split; [unfold u64 in *; lia|]. eexists. split; [reflexivity|]. split.
  - by rewrite !lookup_insert_ne.
  - by rewrite lookup_insert_ne, lookup_insert_eq.
Qed.

Lemma counter_insert_row k attrs t : target_key_wf k -> counter (<[item_key k := attrs]> t) = counter t.
Proof. intros Hk. unfold counter. by rewrite lookup_insert_ne by (by apply item_key_not_capacity). Qed.

Lemma counter_range t : capacity_wf t -> u64 (counter t).
Proof.
  unfold capacity_wf, counter. destruct (t !! capacity_key) as [c|]; [|unfold u64, U64_MAX; lia].
  intros (_ & n & Hn & ->). cbn [mbind option_bind]. by rewrite num_of_attr_n.
Qed.

Lemma represents_put t s k r attrs :
  represents t s -> target_key_wf k -> r_key r = k -> record_typed r -> row_of r attrs ->
  represents (<[item_key k := attrs]> t) (mkMemoryTargetRegistry (<[k := r]> (m_records s)) (max_mib s) (reserved_mib s)).
Proof.
  intros [Hrows Hcap Hcount Hmax] Hk Hkey Hty Hrow. constructor; cbn.
  - intros k'. rewrite lookup_insert. case_decide as E.
    + subst k'. split_and!; try done. exists attrs. by rewrite lookup_insert_eq.
    + specialize (Hrows k'). destruct (m_records s !! k') as [r'|].
      * destruct Hrows as (? & ? & ? & attrs' & Hl & ?). split_and!; try done. exists attrs'.
        rewrite lookup_insert_ne; [done|]. intros E2%item_key_inj. congruence.
      * intros Hwf. rewrite lookup_insert_ne; [by apply Hrows|]. intros E2%item_key_inj. congruence.
  - unfold capacity_wf. by rewrite lookup_insert_ne by (by apply item_key_not_capacity).
  - by rewrite counter_insert_row.
  - done.
Qed.

Lemma represents_capacity t s c n :
  represents t s -> u64 n -> c !! STATE = None -> c !! "reserved_mib" = Some (attr_n n) ->
  represents (<[capacity_key := c]> t) (mkMemoryTargetRegistry (m_records s) (max_mib s) n).
Proof.
  intros [Hrows Hcap Hcount Hmax] Hn Hst Hc. constructor; cbn; [| | |done].
  - intros k. specialize (Hrows k). destruct (m_records s !! k) as [r|].
    + destruct Hrows as (? & Hk & ? & attrs & Hl & ?). split_and!; try done. exists attrs.
      rewrite lookup_insert_ne; [done|]. intros E. by apply (item_key_not_capacity k).
    + intros Hk. rewrite lookup_insert_ne; [by apply Hrows|]. intros E. by apply (item_key_not_capacity k).
  - unfold capacity_wf. rewrite lookup_insert_eq. split; [done|]. by exists n.
  - unfold counter. rewrite lookup_insert_eq, Hc. cbn [mbind option_bind]. by rewrite num_of_attr_n.
Qed.

Lemma run_read t s k :
  represents t s -> target_key_wf k ->
  run (read spec_digest k) t
  = (match m_records s !! k with
     | None => Ok None
     | Some r => match DurableTargetRecord_validate spec_digest r with Ok _ => Ok (Some r) | Err e => Err e end
     end, t).
Proof.
  intros Hrep Hk. pose proof (rep_rows _ _ Hrep k) as Hrow. unfold read. rewrite run_db_step. cbn.
  destruct (m_records s !! k) as [r|].
  - destruct Hrow as (_ & _ & Hty & attrs & -> & Hrow). cbn.
    rewrite (parse_row spec_digest r attrs Hrow Hty). by destruct (DurableTargetRecord_validate spec_digest r).
  - by rewrite (Hrow Hk).
Qed.

Lemma run_reserved t s : represents t s -> run reserved_capacity t = (Ok (reserved_mib s), t).
Proof.
  intros [_ Hcap Hcount _]. unfold reserved_capacity. rewrite run_db_step. cbn. rewrite <- Hcount.
  unfold counter, capacity_wf in *. destruct (t !! capacity_key) as [c|]; [|done].
  destruct Hcap as (_ & n & Hn & Hc). cbn. rewrite Hc. cbn [mbind option_bind].
  rewrite num_of_attr_n by done. unfold attr_n. cbn. rewrite parse_print_uint by (unfold u64 in Hn; lia). done.
Qed.

Lemma run_write {A} ws (f : result SdkError (option Item) -> Dyn A) t :
  run (r ← db_write ws; f r) t
  = match apply_writes ws t with
    | Some t1 => run (f (Ok (match ws with w :: _ => t1 !! write_key w | [] => None end))) t1
    | None => run (f (Err (refuse ws))) t
    end.
Proof. rewrite run_db_step. cbn. by destruct (apply_writes ws t). Qed.

(** Evaluate a condition on the attributes of a known row. *)
Ltac eval_cond :=
  cbn [cond_holds attr_of mbind option_bind state_is];
  repeat match goal with
    | H : _ !! _ = Some _ |- _ => rewrite H
    end;
  rewrite ?bool_decide_true by done; cbn [andb].

Section acquire.
Context (request : AcquireTarget) (lease : MaterializationLease) (t : Table) (s : MemoryTargetRegistry).
Context (Hrep : represents t s) (Hlease : AcquireTarget_lease spec_digest request = Ok lease) (Hty : request_typed spec_digest request).
Context (r : DurableTargetRecord) (Hr : m_records s !! a_key request = Some r).
Context (Hdig : r_spec_digest r = spec_digest (a_spec request)).
(** The stored spec and the requested one do not collide under the digest. *)
Context (no_collision : spec_digest (r_spec r) = spec_digest (a_spec request) -> r_spec r = a_spec request).
Context (Hrdig : r_spec_digest r = spec_digest (r_spec r)).

Lemma acquire_row :
  r_key r = a_key request /\ target_key_wf (a_key request) /\ record_typed r
  /\ exists attrs, t !! item_key (a_key request) = Some attrs /\ row_of r attrs.
Proof. pose proof (rep_rows _ _ Hrep (a_key request)) as H. by rewrite Hr in H. Qed.

Lemma lease_fields :
  l_key lease = a_key request /\ l_spec lease = a_spec request /\ l_spec_digest lease = spec_digest (a_spec request)
  /\ l_reservation_id lease = a_reservation_id request /\ l_generation lease = a_generation request.
Proof. by apply AcquireTarget_lease_Ok in Hlease as (_ & _ & _ & _ & -> & _). Qed.

(** The materializing update of the row gives the in-memory registry's new record. *)
Lemma represents_replaced key :
  exists attrs', apply_update key (materialize_update lease (a_now_ms request)) (t !! item_key (a_key request)) = Some attrs'
  /\ represents (<[item_key (a_key request) := attrs']> t)
      (mkMemoryTargetRegistry (<[a_key request := record_from_lease lease (a_now_ms request)]> (m_records s)) (max_mib s) (reserved_mib s)).
Proof.
  destruct acquire_row as (Hk & Hwf & Hrty & attrs & -> & Hrow), lease_fields as (Hlk & Hls & Hld & _).
  destruct (materialize_update_row r attrs key lease (a_now_ms request) Hrow) as (attrs' & -> & Hrow'); [congruence| |congruence|].
  { rewrite Hls. apply no_collision. congruence. }
  exists attrs'. split; [done|]. apply (represents_put t s); try done.
  by eapply (lease_record_typed spec_digest request lease Hlease Hty).
Qed.

Lemma run_replace_expired rid lr att ae te le :
  r_state r = Materializing rid lr att ae te le -> le <= a_now_ms request ->
  exists t', run (replace_expired_materialization r request lease) t = (Ok true, t')
  /\ represents t' (mkMemoryTargetRegistry (<[a_key request := record_from_lease lease (a_now_ms request)]> (m_records s)) (max_mib s) (reserved_mib s)).
Proof.
  intros Hst Hle. destruct (represents_replaced (item_key (a_key request))) as (attrs' & Hupd & Hrep').
  destruct acquire_row as (Hk & Hwf & Hrty & attrs & Ht & []), lease_fields as (Hlk & Hls & Hld & _).
  unfold replace_expired_materialization, materializing_reservation. rewrite Hst, run_db_step. cbn [run_db db_lift fst snd].
  rewrite run_write. cbn [apply_writes apply_write replace_expired_write]. rewrite Ht.
  rewrite Hst in row_state_attrs0. destruct row_state_attrs0 as (Hs1 & Hs2 & Hs3 & Hs4 & Hs5 & Hs6 & Hs7).
  destruct Hrty as (_ & _ & _ & Hstty). rewrite Hst in Hstty. destruct Hty as (_ & _ & Hnow & _). unfold u64 in *.
  eval_cond. rewrite (compare_num_attr _ _ le) by (tauto || done). rewrite (proj2 (Z.leb_le _ _)) by done.
  rewrite Hld, Hdig. rewrite bool_decide_true by done. cbn [andb]. rewrite <- Ht, Hupd. cbn. eexists. by split.
Qed.

Lemma run_take_expired rid lr att ae te le :
  DurableTargetRecord_validate spec_digest r = Ok tt ->
  r_state r = Materializing rid lr att ae te le -> a_now_ms request < te -> a_now_ms request < le -> ae <= a_now_ms request ->
  let ae' := Z.min (a_now_ms request + a_attempt_duration_ms request) le in
  exists t', run (take_expired_attempt r request) t
    = (Ok (Some (mkMaterializationLease (r_key r) (r_spec r) (r_spec_digest r) rid (r_generation r) lr
                   (a_attempt_id request) ae' te le true)), t')
  /\ represents t' (mkMemoryTargetRegistry
       (<[a_key request := taken_record r rid lr (a_attempt_id request) ae' te le (a_now_ms request)]> (m_records s)) (max_mib s) (reserved_mib s)).
Proof.
  intros Hv Hst Hte Hle Hae ae'. destruct acquire_row as (Hk & Hwf & Hrty & attrs & Ht & Hrow).
  destruct (take_attempt_row r attrs (item_key (a_key request)) rid lr att ae te le (a_attempt_id request) ae' (a_now_ms request) Hrow Hst)
    as (attrs' & Hupd & Hrow').
  pose proof Hlease as (_ & _ & _ & _ & _ & _ & _ & Hd0 & Hdl & Hmax)%AcquireTarget_lease_Ok.
  destruct Hty as (_ & _ & Hnow & Had & _). destruct Hrty as (Hspec & Hmib & Hup & Hstty). pose proof Hstty as Hstty'.
  rewrite Hst in Hstty. unfold u64 in *.
  unfold take_expired_attempt. rewrite Hst, run_db_step. cbn [run_db db_lift fst snd].
  rewrite (proj2 (checked_add_Some _ _ _)) by (split; [reflexivity | lia]). cbn [ok_or].
  destruct (Z.leb_spec (Z.min (a_now_ms request + a_attempt_duration_ms request) le) (a_now_ms request)); [lia|].
  rewrite run_write. cbn [apply_writes apply_write take_attempt_write]. rewrite Ht.
  destruct Hrow as [Hroot Htarget Hdigest Hconn Himg Hcls Hmib' Hres Hnet Hgen Hupd' Hsa]. rewrite Hst in Hsa.
  destruct Hsa as (Hs1 & Hs2 & Hs3 & Hs4 & Hs5 & Hs6 & Hs7).
  eval_cond. rewrite (compare_num_attr _ _ ae), (compare_num_attr _ _ le), (compare_num_attr _ _ te) by (tauto || done).
  rewrite (proj2 (Z.leb_le _ _)), !(proj2 (Z.ltb_lt _ _)) by done. cbn [andb].
  change (Z.min (a_now_ms request + a_attempt_duration_ms request) le) with ae'. rewrite Hupd. cbn.
  eexists. split; [reflexivity|]. apply (represents_put t s); try done.
  unfold record_typed, taken_record, u64. cbn. destruct Hstty as (? & ? & ? & ? & ?). split_and!; try done; lia.
Qed.

Lemma run_replace_gone d rs at_ :
  r_state r = Closed Lost rs at_ -> d = r_generation r -> u64 max -> materialized_mib (a_spec request) <= max ->
  if reserved_mib s <=? max - materialized_mib (a_spec request)
  then exists t', run (replace_gone_default max r request lease) t = (Ok true, t')
    /\ represents t' (mkMemoryTargetRegistry (<[a_key request := record_from_lease lease (a_now_ms request)]> (m_records s)) (max_mib s)
         (reserved_mib s + materialized_mib (a_spec request)))
  else run (replace_gone_default max r request lease) t = (Ok false, t).
Proof.
  intros Hst _ Hmax Hfit. destruct (represents_replaced (item_key (a_key request))) as (attrs' & Hupd & Hrep').
  destruct acquire_row as (Hk & Hwf & Hrty & attrs & Ht & Hrow), lease_fields as (Hlk & Hls & Hld & _).
  destruct Hty as (_ & Hmib & _). unfold replace_gone_default. rewrite run_db_step. cbn [run_db db_lift fst snd]. rewrite Hls.
  destruct (capacity_add_update (materialized_mib (a_spec request)) max (a_now_ms request)) as [w|] eqn:Hw.
  2:{ exfalso. unfold capacity_add_update in Hw. rewrite (proj2 (checked_sub_Some _ _ _)) in Hw by (split; [reflexivity|lia]). done. }
  rewrite run_write. cbn [apply_writes]. cbn [apply_write replace_gone_write]. rewrite Ht.
  destruct Hrow as [Hroot Htarget Hdigest Hconn Himg Hcls Hmib' Hres Hnet Hgen Hupd' Hsa]. rewrite Hst in Hsa.
  destruct Hsa as (Hs1 & Hs2 & Hs3 & Hs4). eval_cond. rewrite Hld, Hdig, bool_decide_true by done. cbn [andb].
  rewrite <- Ht, Hupd. cbn [mbind option_bind].
  pose proof (capacity_add_apply _ _ (<[item_key (a_key request) := attrs']> t) w (rep_capacity _ _ Hrep') Hmib Hmax Hw) as Hc.
  rewrite (rep_counter _ _ Hrep') in Hc. cbn [reserved_mib] in Hc.
  destruct (Z.leb_spec (reserved_mib s) (max - materialized_mib (a_spec request))).
  - destruct Hc as (c & -> & Hcs & Hcr). cbn. eexists. split; [reflexivity|].
    pose proof (represents_capacity _ _ c (reserved_mib s + materialized_mib (a_spec request)) Hrep') as Hfin. cbn in Hfin.
    apply Hfin; [|done|].
    + pose proof (counter_range _ (rep_capacity _ _ Hrep)) as Hcr'. rewrite (rep_counter _ _ Hrep) in Hcr'. unfold u64 in *. lia.
    + by rewrite Hcr.
  - by rewrite Hc.
Qed.
End acquire.

(** One round on a present row decides: it never asks to go round again. *)
Lemma run_acquire_round request lease t s r :
  represents t s -> AcquireTarget_lease spec_digest request = Ok lease -> request_typed spec_digest request ->
  m_records s !! a_key request = Some r -> u64 max -> materialized_mib (a_spec request) <= max ->
  (spec_digest (r_spec r) = spec_digest (a_spec request) -> r_spec r = a_spec request) ->
  let '(out, t') := run (acquire_round spec_digest max request lease) t in
  exists s', represents t' s' /\
  match out with
  | Ok (inl outcome) => AcquireStep spec_digest request s (Ok outcome) s'
  | Ok (inr _) => False
  | Err _ => s' = s
  end.
Proof.
  intros Hrep Hl Hty Hr Hmax Hfit Hnc.
  pose proof (lease_fields request lease Hl) as (Hlk & Hls & Hld & _).
  pose proof (proj1 (AcquireTarget_lease_Ok _ _ _ Hl)) as Hwf.
  unfold acquire_round. rewrite run_db_step, (run_read t s) by done. rewrite Hr.
  destruct (DurableTargetRecord_validate spec_digest r) as [[]|e] eqn:Hv; cbn [fst snd]; [|by exists s].
  rewrite run_db_step. cbn [run_db db_lift fst snd]. rewrite Hv. cbn [fst snd].
  destruct (negb (str_eqb (r_spec_digest r) _)) eqn:Hsd; [by exists s|].
  apply negb_str_eqb_false in Hsd. rewrite Hld in Hsd.
  assert (Hrd : r_spec_digest r = spec_digest (r_spec r)).
  { unfold DurableTargetRecord_validate in Hv. apply result_bind_Ok in Hv as ([] & _ & Hv). apply result_bind_Ok in Hv as ([] & _ & Hv).
    destruct (negb (str_eqb (spec_digest (r_spec r)) _)) eqn:E; [done|]. by apply negb_str_eqb_false in E. }
  destruct (generation_is_fenced request && _ && _); [by exists s|].
  destruct (r_state r) as [rid lr att ae te le | tr ct ia ea | d rs am] eqn:Hst.
  - destruct (Z.leb_spec le (a_now_ms request)).
    { rewrite run_db_step.
      destruct (run_replace_expired request lease t s Hrep Hl Hty r Hr Hsd Hnc Hrd rid lr att ae te le Hst) as (t' & -> & Hrep'); [done|].
      cbn. eexists. split; [exact Hrep'|]. by eapply AcquireReplaceExpired. }
    destruct (Z.leb_spec te (a_now_ms request)).
    { cbn. exists s. split; [done|]. apply AcquireUnchanged, poll_after_bounds. }
    destruct (Z.ltb_spec (a_now_ms request) ae).
    { cbn. exists s. split; [done|]. apply AcquireUnchanged, poll_after_bounds. }
    rewrite run_db_step.
    destruct (run_take_expired request lease t s Hrep Hl Hty r Hr rid lr att ae te le Hv Hst) as (t' & -> & Hrep'); [done..|].
    cbn. eexists. split; [exact Hrep'|]. by eapply AcquireTakeover.
  - unfold installed. rewrite Hst. cbn. exists s. split; [done|]. apply AcquireUnchanged. rewrite Hr. cbn. unfold installed. by rewrite Hst.
  - destruct d; [|exists s; split; [done|by apply AcquireUnchanged]].
    destruct (replace_after_loss request) eqn:Hral; [|exists s; split; [done|by apply AcquireUnchanged]].
    rewrite run_db_step.
    pose proof (run_replace_gone request lease t s Hrep Hl Hty r Hr Hsd Hnc Hrd _ rs am Hst eq_refl Hmax Hfit) as Hg.
    destruct (Z.leb_spec (reserved_mib s) (max - materialized_mib (a_spec request))).
    { destruct Hg as (t' & -> & Hrep'). cbn. eexists. split; [exact Hrep'|]. apply AcquireFresh; [done| |].
      - right. exists r. by rewrite Hst.
      - unfold saturating_sub. rewrite (rep_max _ _ Hrep). lia. }
    rewrite Hg. cbn [fst snd]. rewrite run_db_step, (run_read t s) by done. rewrite Hr, Hv. cbn [fst snd].
    rewrite !str_eqb_refl. cbn [andb]. unfold is_gone. rewrite Hst. cbn [disposition_is_lost].
    rewrite run_db_step, (run_reserved t s) by done. cbn [fst snd]. unfold plane_capacity_error. rewrite Hls.
    rewrite (proj2 (Z.ltb_lt _ _)); [by exists s|]. unfold saturating_sub. destruct Hty as (Hspec & [? _] & _). apply spec_wf_mib in Hspec. lia.
Qed.

End refinement.

(** ** The plane's allocation under concurrency and uncertain writes *)
Section plane.
Context (spec_digest : TargetSpec -> string).
Context (max : Z).
(** A reservation id is drawn for one spec: it determines the memory it reserves. *)
Context (reservation_mib : TargetKey -> string -> Z).
(** The digest of a well-formed spec determines its memory. *)
Context (digest_seals : forall a b, spec_wf a -> u64 (materialized_mib a) -> spec_wf b -> u64 (materialized_mib b) ->
  spec_digest a = spec_digest b -> materialized_mib a = materialized_mib b).

Definition live (item : Item) : bool :=
  bool_decide (item !! STATE = Some (attr_s MATERIALIZING)) || bool_decide (item !! STATE = Some (attr_s INSTALLED)).

(** What a row holds of the plane. *)
Definition charge (item : Item) : Z :=
  if live item then default 0 (v ← item !! "materialized_mib"; num_of v) else 0.

Definition row_ok (key : TargetKey) (item : Item) : Prop :=
  item !! ROOT_ID = Some (attr_s (root_id key)) /\ item !! TARGET_KEY = Some (attr_s (target_key key))
  /\ exists spec, spec_wf spec /\ u64 (materialized_mib spec) /\ item !! "spec_digest" = Some (attr_s (spec_digest spec))
     /\ item !! "materialized_mib" = Some (attr_n (materialized_mib spec))
     /\ forall rid, item !! "reservation_id" = Some (attr_s rid) -> materialized_mib spec = reservation_mib key rid.

(** The rows hold [d] more than the counter says. *)
Record balanced (d : Z) (t : Table) : Prop := {
  bal_capacity : capacity_wf t;
  bal_counter : counter t + d = map_sum charge t;
  bal_max : counter t <= max;
  bal_rows : forall k item, t !! k = Some item -> k = capacity_key \/ row_ok (mkTargetKey k.1 k.2) item;
}.

Definition plane_ok : Table -> Prop := balanced 0.

Lemma balanced_eq d d' t : d = d' -> balanced d t -> balanced d' t.
Proof. by intros ->. Qed.

Lemma plane_ok_empty : 0 <= max -> plane_ok ∅.
Proof. intros Hmax. constructor; [done| |done|done]. by rewrite map_sum_empty. Qed.

Lemma charge_capacity c : c !! STATE = None -> charge c = 0.
Proof. unfold charge, live. intros ->. by rewrite !bool_decide_false. Qed.

Lemma row_ok_charge key item : row_ok key item -> 0 <= charge item.
Proof.
  intros (_ & _ & spec & _ & Hu & _ & Hm & _). unfold charge. rewrite Hm. cbn [mbind option_bind].
  rewrite num_of_attr_n by done. unfold u64 in Hu. destruct (live item); cbn; lia.
Qed.

(** The counter absorbs the difference. *)
Lemma balanced_counter d t c :
  balanced d t -> c !! STATE = None -> c !! "reserved_mib" = Some (attr_n (counter t + d)) ->
  u64 (counter t + d) -> counter t + d <= max -> plane_ok (<[capacity_key := c]> t).
Proof.
  intros [Hcap Hcount Hle Hrows] Hst Hc Hu Hm.
  assert (Hnew : counter (<[capacity_key := c]> t) = counter t + d).
  { unfold counter at 1. rewrite lookup_insert_eq, Hc. cbn [mbind option_bind]. by rewrite num_of_attr_n. }
  constructor.
  - unfold capacity_wf. rewrite lookup_insert_eq. split; [done|]. by eexists.
  - rewrite Hnew. unfold capacity_wf in Hcap. destruct (t !! capacity_key) as [c0|] eqn:Hc0.
    + rewrite (map_sum_insert_over _ _ _ c0), (charge_capacity c), (charge_capacity c0) by (done || apply Hcap). lia.
    + rewrite map_sum_insert_new, (charge_capacity c) by done. lia.
  - by rewrite Hnew.
  - intros k item. rewrite lookup_insert. case_decide as E; [by left|]. apply Hrows.
Qed.

(** One row moves the balance by the change of its charge. *)
Lemma balanced_row k item t :
  plane_ok t -> k <> capacity_key -> row_ok (mkTargetKey k.1 k.2) item ->
  balanced (charge item - default 0 (charge <$> t !! k)) (<[k := item]> t).
Proof.
  intros [Hcap Hcount Hle Hrows] Hk Hrow.
  assert (Hsame : (<[k := item]> t) !! capacity_key = t !! capacity_key) by (by apply lookup_insert_ne).
  constructor.
  - unfold capacity_wf. by rewrite Hsame.
  - unfold counter at 1. rewrite Hsame. fold (counter t). destruct (t !! k) as [old|] eqn:Ho; cbn.
    + rewrite (map_sum_insert_over _ _ _ old) by done. lia.
    + rewrite map_sum_insert_new by done. lia.
  - unfold counter. by rewrite Hsame.
  - intros k' item'. rewrite lookup_insert. case_decide as E; [|apply Hrows]. intros [= <-]. subst k'. by right.
Qed.

Lemma balanced_delete k item t :
  plane_ok t -> k <> capacity_key -> t !! k = Some item -> balanced (- charge item) (delete k t).
Proof.
  intros [Hcap Hcount Hle Hrows] Hk Ho.
  assert (Hsame : delete k t !! capacity_key = t !! capacity_key) by (by apply lookup_delete_ne).
  constructor.
  - unfold capacity_wf. by rewrite Hsame.
  - unfold counter at 1. rewrite Hsame. fold (counter t). rewrite (map_sum_delete _ _ _ _ Ho) in *. lia.
  - unfold counter. by rewrite Hsame.
  - intros k' item' [_ H]%lookup_delete_Some. by apply Hrows.
Qed.

(** A capacity update after a row write settles the balance. *)
Lemma settle_add d t t' mib now w :
  balanced d t -> d = mib -> u64 mib -> u64 max -> capacity_add_update mib max now = Ok w -> apply_write w t = Some t' -> plane_ok t'.
Proof.
  intros Hb -> Hm Hmax Hw Ha. pose proof (capacity_add_apply max mib now t w (bal_capacity _ _ Hb) Hm Hmax Hw) as H.
  pose proof (counter_range t (bal_capacity _ _ Hb)) as Hc.
  destruct (Z.leb_spec (counter t) (max - mib)); [|congruence]. destruct H as (c & Ha' & Hst & Hr). rewrite Ha in Ha'. injection Ha' as ->.
  eapply balanced_counter; try done; unfold u64 in *; lia.
Qed.

Lemma settle_subtract d t t' mib now :
  balanced d t -> d = - mib -> u64 mib -> apply_write (capacity_subtract_update mib now) t = Some t' -> plane_ok t'.
Proof.
  intros Hb -> Hm Ha. destruct (capacity_subtract_apply mib now t t' (bal_capacity _ _ Hb) Hm Ha) as (Hle & c & -> & Hst & Hr).
  pose proof (bal_max _ _ Hb). eapply balanced_counter; try done; unfold u64 in *; lia.
Qed.

(** ** Every write keeps the plane *)

(** A conditional update that applied: the row it found, what held of it, and the row it left. *)
Lemma update_applied key cond upd t t' :
  plain_sets (set_exprs upd) = true -> cond_holds cond None = false -> apply_write (WUpdate key cond upd) t = Some t' ->
  exists item item', t !! key = Some item /\ cond_holds cond (Some item) = true /\ t' = <[key := item']> t
  /\ forall k, item' !! k = if existsb (fun a => String.eqb a k) (remove_exprs upd) then None
                           else after_sets k (set_exprs upd) (item !! k).
Proof.
  intros Hp Hn. cbn [apply_write]. destruct (cond_holds cond (t !! key)) eqn:Hc; [|done].
  destruct (t !! key) as [item|] eqn:Ht; [|congruence].
  destruct (apply_update_plain key upd item Hp) as (item' & -> & Hl). cbn. intros [= <-]. by exists item, item'.
Qed.

Ltac split_cond H :=
  cbn [cond_holds attr_of mbind option_bind state_is] in H;
  repeat match type of H with
    | (_ && _) = true => let H1 := fresh "Hc" in apply andb_true_iff in H as [H1 H];
        try (apply bool_decide_eq_true in H1)
    end; try (apply bool_decide_eq_true in H).

Lemma charge_state item mib st :
  item !! STATE = Some (attr_s st) -> item !! "materialized_mib" = Some (attr_n mib) -> u64 mib ->
  charge item = if str_eqb st MATERIALIZING || str_eqb st INSTALLED then mib else 0.
Proof.
  intros Hs Hm Hu. unfold charge, live. rewrite Hs, Hm. cbn [mbind option_bind]. rewrite num_of_attr_n by done.
  destruct (str_eqb_spec st MATERIALIZING) as [->|Hn0]; [done|]. rewrite bool_decide_false by (intros E; apply Hn0; by injection E).
  destruct (str_eqb_spec st INSTALLED) as [->|Hn]; [done|]. by rewrite bool_decide_false by (intros E; apply Hn; by injection E).
Qed.

Lemma row_not_capacity t item k st : plane_ok t -> t !! k = Some item -> item !! STATE = Some (attr_s st) -> k <> capacity_key.
Proof.
  intros Ht Hk Hs ->. pose proof (bal_capacity _ _ Ht) as H. unfold capacity_wf in H. rewrite Hk in H. destruct H. congruence.
Qed.

(** An update of a target row that keeps its spec, its memory and the naming of its reservation. *)
Lemma row_update t key item item' st st' spec :
  plane_ok t -> t !! key = Some item -> item !! STATE = Some (attr_s st) -> item' !! STATE = Some (attr_s st') ->
  item' !! ROOT_ID = item !! ROOT_ID -> item' !! TARGET_KEY = item !! TARGET_KEY -> item' !! "spec_digest" = item !! "spec_digest" ->
  item' !! "materialized_mib" = item !! "materialized_mib" ->
  (forall rid spec', item' !! "reservation_id" = Some (attr_s rid) -> spec_wf spec' -> u64 (materialized_mib spec') ->
     item !! "spec_digest" = Some (attr_s (spec_digest spec')) ->
     item !! "reservation_id" = Some (attr_s rid) \/ materialized_mib spec' = reservation_mib (mkTargetKey key.1 key.2) rid) ->
  spec_wf spec -> u64 (materialized_mib spec) -> item !! "spec_digest" = Some (attr_s (spec_digest spec)) ->
  let charge_of s := if str_eqb s MATERIALIZING || str_eqb s INSTALLED then materialized_mib spec else 0 in
  balanced (charge_of st' - charge_of st) (<[key := item']> t).
Proof.
  intros Ht Hk Hs Hs' Hroot Htarget Hdig Hmib Hname Hspec Hu Hd charge_of.
  pose proof (row_not_capacity _ _ _ _ Ht Hk Hs) as Hne.
  destruct (bal_rows _ _ Ht _ _ Hk) as [->|(Hr0 & Ht0 & spec0 & Hwf0 & Hu0 & Hd0 & Hm0 & Hn0)]; [done|].
  assert (Hsame : materialized_mib spec = materialized_mib spec0).
  { apply digest_seals; [done..|]. rewrite Hd in Hd0. by injection Hd0. }
  assert (Hrow : row_ok (mkTargetKey key.1 key.2) item').
  { split; [by rewrite Hroot|]. split; [by rewrite Htarget|]. exists spec0. rewrite Hdig, Hmib. split_and!; try done.
    intros rid Hrid. destruct (Hname rid spec0 Hrid Hwf0 Hu0 Hd0) as [H|H]; [by apply Hn0|done]. }
  pose proof (balanced_row key item' t Ht Hne Hrow) as Hb. rewrite Hk in Hb. cbn in Hb.
  rewrite (charge_state item (materialized_mib spec0) st), (charge_state item' (materialized_mib spec0) st') in Hb by (done || congruence).
  unfold charge_of. by rewrite Hsame.
Qed.

(** What the callers guarantee of a lease: its spec is well formed and is the one its reservation names. *)
Definition lease_named (l : MaterializationLease) : Prop :=
  target_key_wf (l_key l) /\ spec_wf (l_spec l) /\ u64 (materialized_mib (l_spec l))
  /\ l_spec_digest l = spec_digest (l_spec l)
  /\ materialized_mib (l_spec l) = reservation_mib (l_key l) (l_reservation_id l).

Definition target_named (i : InstalledTarget) : Prop := spec_wf (i_spec i) /\ u64 (materialized_mib (i_spec i)).

Lemma item_key_target k : mkTargetKey (item_key k).1 (item_key k).2 = k.
Proof. by destruct k. Qed.

Lemma single_write w t t' : apply_writes [w] t = Some t' -> apply_write w t = Some t'.
Proof. cbn. by destruct (apply_write w t) as [t1|]. Qed.

Lemma double_write w1 w2 t t' :
  apply_writes [w1; w2] t = Some t' -> exists t1, apply_write w1 t = Some t1 /\ apply_write w2 t1 = Some t'.
Proof.
  cbn. destruct (apply_write w1 t) as [t1|]; [|done]. cbn. intros H. exists t1. split; [done|].
  by destruct (apply_write w2 t1).
Qed.

Lemma reserve_writes_ok lease now w t t' :
  lease_named lease -> u64 max -> capacity_add_update (materialized_mib (l_spec lease)) max now = Ok w -> plane_ok t ->
  apply_writes [WPut (item_key (l_key lease)) (materializing_item lease now) (CNotExists ROOT_ID); w] t = Some t' -> plane_ok t'.
Proof.
  intros (Hwf & Hspec & Hu & Hd & Hn) Hmax Hw Ht (t1 & Hput & Hcap)%double_write.
  cbn [apply_write cond_holds] in Hput. case_bool_decide as Habs; [|done]. injection Hput as <-.
  pose proof (row_of_item lease now) as Hrow. pose proof (row_state_attrs _ _ Hrow) as Hst. cbn [r_state record_from_lease] in Hst.
  destruct Hst as (Hs & Hrid & _). pose proof (row_mib_attr _ _ Hrow) as Hm. pose proof (row_digest _ _ Hrow) as Hdg.
  cbn [r_spec r_spec_digest record_from_lease] in Hm, Hdg.
  assert (Hok : row_ok (mkTargetKey (item_key (l_key lease)).1 (item_key (l_key lease)).2) (materializing_item lease now)).
  { rewrite item_key_target. split; [by rewrite (row_root _ _ Hrow)|]. split; [by rewrite (row_target _ _ Hrow)|]. exists (l_spec lease). rewrite <- Hd.
    split_and!; try done. intros rid. rewrite Hrid. by intros [= <-]. }
  assert (Hfree : t !! item_key (l_key lease) = None).
  { destruct (t !! item_key (l_key lease)) as [item|] eqn:Hi; [|done]. exfalso.
    destruct (bal_rows _ _ Ht _ _ Hi) as [E|[Hr _]]; [by apply (item_key_not_capacity (l_key lease))|].
    cbn in Habs, Hr. by rewrite Hr in Habs. }
  pose proof (balanced_row _ _ t Ht (item_key_not_capacity _ Hwf) Hok) as Hb. rewrite Hfree in Hb.
  eapply settle_add; [exact Hb| |exact Hu|exact Hmax|exact Hw|exact Hcap]. rewrite (charge_state _ _ _ Hs Hm Hu). cbn. lia.
Qed.

(** Both replacements install the lease's reservation in a row whose digest is the lease's. *)
Lemma materialize_row_ok key cond lease now st t t' :
  lease_named lease -> key = item_key (l_key lease) -> plane_ok t ->
  cond_holds cond None = false ->
  (forall item, cond_holds cond (Some item) = true ->
     item !! STATE = Some (attr_s st) /\ item !! "spec_digest" = Some (attr_s (l_spec_digest lease))) ->
  apply_write (WUpdate key cond (materialize_update lease now)) t = Some t' ->
  balanced ((materialized_mib (l_spec lease)) - (if str_eqb st MATERIALIZING || str_eqb st INSTALLED then materialized_mib (l_spec lease) else 0)) t'.
Proof.
  intros (Hwf & Hspec & Hu & Hd & Hn) -> Ht Hnone Hcond Hw.
  apply update_applied in Hw as (item & item' & Hi & Hc & -> & Hl); [|done..]. apply Hcond in Hc as [Hs Hdg]. rewrite Hd in Hdg.
  pose proof (row_update t (item_key (l_key lease)) item item' st MATERIALIZING (l_spec lease) Ht Hi Hs) as H. cbn zeta in H.
  cbn [str_eqb] in H. apply H; rewrite ?Hl; cbn; try done.
  intros rid spec' [= <-] Hsp' Hu' Hdg'. right. replace (mkTargetKey _ _) with (l_key lease) by (by destruct (l_key lease)).
  rewrite <- Hn. apply digest_seals; [done..|]. rewrite Hdg in Hdg'. by injection Hdg'.
Qed.

Lemma replace_expired_ok old request lease t t' :
  lease_named lease -> a_key request = l_key lease -> plane_ok t ->
  apply_writes [replace_expired_write old request lease] t = Some t' -> plane_ok t'.
Proof.
  intros Hl Hk Ht Hw%single_write. unfold replace_expired_write in Hw.
  apply (materialize_row_ok _ _ lease (a_now_ms request) MATERIALIZING) in Hw; try done; [|by rewrite Hk|].
  - cbn [str_eqb] in Hw. rewrite str_eqb_refl in Hw. cbn [orb] in Hw. by rewrite Z.sub_diag in Hw.
  - intros item Hc. split_cond Hc. done.
Qed.

Lemma replace_gone_ok current request lease w t t' :
  lease_named lease -> a_key request = l_key lease -> u64 max ->
  capacity_add_update (materialized_mib (l_spec lease)) max (a_now_ms request) = Ok w -> plane_ok t ->
  apply_writes [replace_gone_write current request lease; w] t = Some t' -> plane_ok t'.
Proof.
  intros Hl Hk Hmax Hw Ht (t1 & H1 & H2)%double_write. unfold replace_gone_write in H1.
  apply (materialize_row_ok _ _ lease (a_now_ms request) CLOSED) in H1; try done; [|by rewrite Hk|].
  - destruct Hl as (_ & _ & Hu & _). eapply settle_add; [exact H1| |exact Hu|exact Hmax|exact Hw|exact H2]. cbn. lia.
  - intros item Hc. split_cond Hc. done.
Qed.

(** A row found by its state, with the spec it stores. *)
Lemma found_row t k item st :
  plane_ok t -> t !! k = Some item -> item !! STATE = Some (attr_s st) ->
  exists spec, spec_wf spec /\ u64 (materialized_mib spec) /\ item !! "spec_digest" = Some (attr_s (spec_digest spec))
    /\ item !! "materialized_mib" = Some (attr_n (materialized_mib spec))
    /\ forall rid, item !! "reservation_id" = Some (attr_s rid) -> materialized_mib spec = reservation_mib (mkTargetKey k.1 k.2) rid.
Proof.
  intros Ht Hk Hs. destruct (bal_rows _ _ Ht _ _ Hk) as [E|(_ & _ & H)]; [|done].
  by apply (row_not_capacity _ _ _ _ Ht Hk Hs) in E.
Qed.

Lemma take_attempt_ok current rid att ae request t t' :
  plane_ok t -> apply_writes [take_attempt_write current rid att ae request] t = Some t' -> plane_ok t'.
Proof.
  intros Ht Hw%single_write. apply update_applied in Hw as (item & item' & Hi & Hc & -> & Hl); [|done..].
  split_cond Hc. destruct (found_row _ _ _ _ Ht Hi Hc0) as (spec & Hwf & Hu & Hd & Hm & Hn).
  pose proof (row_update t _ item item' MATERIALIZING MATERIALIZING spec Ht Hi Hc0) as H. cbn zeta in H.
  rewrite Z.sub_diag in H. apply H; rewrite ?Hl; cbn; try done. intros. by left.
Qed.

Lemma install_ok lease target now t t' :
  plane_ok t -> apply_writes [install_write lease target now] t = Some t' -> plane_ok t'.
Proof.
  intros Ht Hw%single_write. apply update_applied in Hw as (item & item' & Hi & Hc & -> & Hl); [|done..].
  split_cond Hc. destruct (found_row _ _ _ _ Ht Hi Hc0) as (spec & Hwf & Hu & Hd & Hm & Hn).
  pose proof (row_update t _ item item' MATERIALIZING INSTALLED spec Ht Hi Hc0) as H. cbn zeta in H.
  eapply balanced_eq; [|apply H; rewrite ?Hl; cbn; try done]. cbn. lia.
Qed.

Lemma close_ok target d reason now t t' :
  target_named target -> i_spec_digest target = spec_digest (i_spec target) -> plane_ok t ->
  apply_writes [close_write target d reason now; capacity_subtract_update (materialized_mib (i_spec target)) now] t = Some t' -> plane_ok t'.
Proof.
  intros [Hspec Hmib] Hdig Ht (t1 & Hw & H2)%double_write.
  apply update_applied in Hw as (item & item' & Hi & Hc & -> & Hl); [|done..].
  split_cond Hc. rewrite Hdig in Hc. pose proof (row_update t _ item item' INSTALLED CLOSED (i_spec target) Ht Hi Hc0) as H. cbn zeta in H.
  eapply settle_subtract; [apply H| |done|exact H2]; rewrite ?Hl; cbn; try done. intros. by left.
Qed.

Lemma expire_ok lease now t t' :
  lease_named lease -> plane_ok t ->
  apply_writes [expire_write lease; capacity_subtract_update (materialized_mib (l_spec lease)) now] t = Some t' -> plane_ok t'.
Proof.
  intros (_ & _ & Hu & _ & Hn) Ht (t1 & Hw & H2)%double_write. unfold expire_write in Hw. cbn [apply_write] in Hw.
  destruct (cond_holds _ _) eqn:Hc in Hw; [|done]. injection Hw as <-.
  destruct (t !! item_key (l_key lease)) as [item|] eqn:Hi; [|done]. split_cond Hc.
  destruct (found_row _ _ _ _ Ht Hi Hc0) as (spec & Hwf & Hus & Hd & Hm & Hname).
  rewrite item_key_target in Hname. apply Hname in Hc1.
  pose proof (balanced_delete _ item t Ht (row_not_capacity _ _ _ _ Ht Hi Hc0) Hi) as Hb.
  rewrite (charge_state _ _ _ Hc0 Hm Hus) in Hb. eapply settle_subtract; [exact Hb| |exact Hu|exact H2]. cbn. congruence.
Qed.

Lemma purge_ok key generation t t' :
  plane_ok t -> apply_writes [purge_write key generation] t = Some t' -> plane_ok t'.
Proof.
  intros Ht Hw%single_write. unfold purge_write in Hw. cbn [apply_write] in Hw.
  destruct (cond_holds _ _) eqn:Hc in Hw; [|done]. injection Hw as <-.
  destruct (t !! item_key key) as [item|] eqn:Hi; [|done]. split_cond Hc.
  destruct (found_row _ _ _ _ Ht Hi Hc) as (spec & Hwf & Hus & Hd & Hm & Hname).
  pose proof (balanced_delete _ item t Ht (row_not_capacity _ _ _ _ Ht Hi Hc) Hi) as Hb.
  by rewrite (charge_state _ _ _ Hc Hm Hus) in Hb.
Qed.

(** ** Operations *)

(** What the caller of [acquire] guarantees: typed fields, and a reservation id drawn for this spec. *)
Definition request_named (request : AcquireTarget) : Prop :=
  spec_wf (a_spec request) /\ u64 (materialized_mib (a_spec request))
  /\ materialized_mib (a_spec request) = reservation_mib (a_key request) (a_reservation_id request).

Lemma acquire_lease_named request lease :
  request_named request -> AcquireTarget_lease spec_digest request = Ok lease -> lease_named lease /\ a_key request = l_key lease.
Proof. intros (Hs & Hu & Hn) (Hk & _ & _ & _ & -> & _)%AcquireTarget_lease_Ok. by split. Qed.

(** What parsing reads off a row. *)
Lemma parse_record_inv attrs r :
  parse_record spec_digest attrs = Ok r ->
  rec_string attrs ROOT_ID = Ok (root_id (r_key r)) /\ rec_string attrs TARGET_KEY = Ok (target_key (r_key r))
  /\ spec_wf (r_spec r) /\ rec_number attrs "materialized_mib" = Ok (materialized_mib (r_spec r))
  /\ r_spec_digest r = spec_digest (r_spec r) /\ target_key_wf (r_key r) /\ attrs !! STATE <> None
  /\ forall rid lr att ae te le, r_state r = Materializing rid lr att ae te le -> rec_string attrs "reservation_id" = Ok rid.
Proof.
  unfold parse_record. intros H. apply result_bind_Ok in H as (root & Hroot & H). apply result_bind_Ok in H as (tk & Htk & H).
  apply result_bind_Ok in H as (spec & Hspec & H). apply result_bind_Ok in H as (dg & Hdg & H).
  apply result_bind_Ok in H as (gen & Hgen & H). apply result_bind_Ok in H as (st & Hst & H).
  apply result_bind_Ok in H as (upd & Hupd & H). cbv zeta in H. apply result_bind_Ok in H as ([] & Hv & H). injection H as <-. cbn.
  unfold parse_spec in Hspec. apply result_bind_Ok in Hspec as (c & _ & Hspec). apply result_bind_Ok in Hspec as (c' & _ & Hspec).
  apply result_bind_Ok in Hspec as (im & _ & Hspec). apply result_bind_Ok in Hspec as (rc & _ & Hspec).
  apply result_bind_Ok in Hspec as (mib & Hmib & Hspec). apply result_bind_Ok in Hspec as (rp & _ & Hspec).
  apply result_bind_Ok in Hspec as (np & _ & Hspec).
  assert (Hsp : spec = mkTargetSpec c' im rc mib rp np).
  { clear -Hspec. unfold TargetSpec_new in Hspec. apply result_bind_Ok in Hspec as (_ & _ & H). apply result_bind_Ok in H as (_ & _ & H).
    destruct (_ || _) in H; [done|]. apply result_bind_Ok in H as (_ & _ & H). apply result_bind_Ok in H as (_ & _ & H). by injection H. }
  unfold DurableTargetRecord_validate in Hv. cbn in Hv. apply result_bind_Ok in Hv as ([] & Hk & Hv). apply result_bind_Ok in Hv as ([] & _ & Hv).
  destruct (negb (str_eqb (spec_digest spec) dg)) eqn:E; [done|]. apply negb_str_eqb_false in E.
  split_and!; try done.
  - unfold spec_wf. by rewrite Hsp in Hspec |- *.
  - by rewrite Hsp.
  - by apply TargetKey_validate_Ok in Hk.
  - intros E'. unfold parse_state, rec_string in Hst. by rewrite E' in Hst.
  - intros rid lr att ae te le ->. unfold parse_state in Hst. apply result_bind_Ok in Hst as (sv & _ & Hst).
    destruct (str_eqb sv MATERIALIZING).
    + apply result_bind_Ok in Hst as (rid' & Hrid & Hst). rewrite Hrid. f_equal.
      apply result_bind_Ok in Hst as (? & _ & Hst). apply result_bind_Ok in Hst as (? & _ & Hst).
      apply result_bind_Ok in Hst as (? & _ & Hst). apply result_bind_Ok in Hst as (? & _ & Hst).
      apply result_bind_Ok in Hst as (? & _ & Hst). apply result_bind_Ok in Hst as (? & _ & Hst). by injection Hst.
    + exfalso. destruct (str_eqb sv INSTALLED), (str_eqb sv CLOSED); try done; ok_steps; done.
Qed.

(** A record read from a plane that is in order. *)
Definition record_named (key : TargetKey) (r : DurableTargetRecord) : Prop :=
  r_key r = key /\ target_key_wf key /\ spec_wf (r_spec r) /\ u64 (materialized_mib (r_spec r)) /\ r_spec_digest r = spec_digest (r_spec r)
  /\ forall rid lr att ae te le, r_state r = Materializing rid lr att ae te le ->
       materialized_mib (r_spec r) = reservation_mib key rid.

Lemma read_row_named t key item r :
  plane_ok t -> t !! item_key key = Some item -> parse_record spec_digest item = Ok r -> record_named key r.
Proof.
  intros Ht Hi (Hroot & Htk & Hspec & Hmib & Hd & Hk & Hst & Hrid)%parse_record_inv.
  destruct (bal_rows _ _ Ht _ _ Hi) as [E|(Hr & Htg & spec & Hwf & Hu & _ & Hm & Hn)].
  { exfalso. pose proof (bal_capacity _ _ Ht) as Hc. unfold capacity_wf in Hc. rewrite E in Hi. rewrite Hi in Hc.
    by destruct Hc. }
  rewrite item_key_target in Hr, Htg, Hn. rewrite (rec_string_get _ _ _ Hr) in Hroot. rewrite (rec_string_get _ _ _ Htg) in Htk.
  rewrite (rec_number_get _ _ _ Hm Hu) in Hmib. injection Hmib as Hmib.
  assert (Hkey : r_key r = key) by (destruct key, (r_key r); cbn in *; congruence).
  split_and!; try done; [by rewrite <- Hkey|by rewrite <- Hmib|].
  intros rid lr att ae te le Hms. apply Hrid in Hms. rewrite <- Hmib. apply Hn.
  unfold rec_string in Hms. destruct (item !! "reservation_id") as [[]|]; cbn in Hms; try done. by injection Hms as ->.
Qed.

Notation kept := (ensures plane_ok).

Lemma kept_read key :
  kept (fun out => match out with Ok (Some r) => record_named key r | _ => True end) (read spec_digest key).
Proof.
  unfold read. split; [|done]. intros t Ht. cbn. destruct (t !! item_key key) as [item|] eqn:Hi; [|done].
  cbn. destruct (parse_record spec_digest item) as [r|e] eqn:Hp; cbn; [|done]. by eapply read_row_named.
Qed.

Lemma kept_reserved (Q : result MaterializationError Z -> Prop) : (forall r, Q r) -> kept Q reserved_capacity.
Proof. intros HQ. split; [intros t _; cbn; destruct (t !! capacity_key)|intros e]; cbn; apply HQ. Qed.

Definition outcome_named (key : TargetKey) (out : result MaterializationError AcquireOutcome) : Prop :=
  forall lease, out = Ok (AcqAcquired lease) -> lease_named lease /\ l_key lease = key.

Definition step_named (key : TargetKey) (out : result MaterializationError (AcquireOutcome + unit)) : Prop :=
  forall lease, out = Ok (inl (AcqAcquired lease)) -> lease_named lease /\ l_key lease = key.

Lemma kept_take current request :
  u64 max -> record_named (a_key request) current ->
  kept (fun out => forall lease, out = Ok (Some lease) -> lease_named lease /\ l_key lease = a_key request)
    (take_expired_attempt current request).
Proof.
  intros Hmax (Hk & Hwf & Hspec & Hu & Hd & Hrid). unfold take_expired_attempt.
  destruct (r_state current) as [rid lr att ae te le| |] eqn:Hst; [|done..].
  destruct (checked_add _ _) as [sum|]; [|done]. cbn. destruct (_ <=? _); [done|].
  split; [intros t t'; apply take_attempt_ok|]. split; [|intros e; cbn; by destruct (conditional_failure e)].
  intros t t' Ht _. cbn. intros lease [= <-]. split; [|by cbn]. rewrite Hk. split_and!; try done. cbn. by eapply Hrid.
Qed.

Lemma kept_round request lease :
  u64 max -> request_named request -> AcquireTarget_lease spec_digest request = Ok lease ->
  kept (step_named (a_key request)) (acquire_round spec_digest max request lease).
Proof.
  intros Hmax Hreq Hl. destruct (acquire_lease_named _ _ Hreq Hl) as [Hnamed Hkey].
  unfold acquire_round. eapply ensures_step; [eapply ensures_mono; [|apply kept_read]; intros [a|e]; [intros H; exact H|done]|].
  intros [current|] Hcur.
  2:{ eapply (ensures_step _ (fun _ => True)); [by apply kept_reserved; intros []|]. intros reserved _. by destruct (plane_capacity_error _ _ _). }
  apply ensures_lift; [done|]. intros _ _.
  destruct (negb _); [done|]. destruct (generation_is_fenced request && _ && _); [done|].
  assert (Hdone : lease_named lease /\ l_key lease = a_key request) by done.
  destruct (r_state current) as [rid lr att ae te le | tr ct ia ea | d rs am] eqn:Hst.
  - destruct (le <=? a_now_ms request).
    { eapply (ensures_step _ (fun _ => True)).
      - unfold replace_expired_materialization, materializing_reservation. rewrite Hst.
        split; [intros t t'; by apply replace_expired_ok|]. split; [done|]. intros e. cbn. by destruct (conditional_failure e).
      - intros [] _; cbn; intros l [= <-]; done. }
    destruct (te <=? a_now_ms request); [done|]. destruct (a_now_ms request <? ae); [done|].
    eapply ensures_step; [eapply ensures_mono; [|by apply kept_take]; intros [a|e] H; [exact H|done]|].
    intros [l|] Hlease; cbn; [|done]. intros l' [= <-]. by apply Hlease.
  - unfold installed. by rewrite Hst.
  - destruct d; [|done]. destruct (replace_after_loss request); [|done].
    eapply (ensures_step _ (fun _ => True)).
    + unfold replace_gone_default. destruct (capacity_add_update _ _ _) as [w|] eqn:Hw; [|done].
      split; [intros t t'; by apply replace_gone_ok|]. split; [done|]. intros e. cbn. by destruct (transaction_cancelled e).
    + intros [] _; [by intros l [= <-]|].
      eapply (ensures_step _ (fun _ => True)); [eapply ensures_mono; [|apply kept_read]; by intros []|].
      intros latest _. match goal with |- context [if ?b then _ else _] => destruct b end; [|done].
      eapply (ensures_step _ (fun _ => True)); [by apply kept_reserved; intros []|].
      intros reserved _. by destruct (plane_capacity_error _ _ _).
Qed.

Lemma kept_rounds n request lease :
  u64 max -> request_named request -> AcquireTarget_lease spec_digest request = Ok lease ->
  kept (outcome_named (a_key request)) (acquire_rounds spec_digest max n request lease).
Proof.
  intros Hmax Hreq Hl. induction n as [|n IH]; cbn [acquire_rounds]; [done|].
  eapply ensures_step; [eapply ensures_mono; [|by apply kept_round]; intros [a|e] H; [exact H|done]|].
  intros [o|] Ho; [|done]. intros l [= ->]. by apply Ho.
Qed.

Lemma kept_acquire request :
  u64 max -> request_named request -> kept (outcome_named (a_key request)) (dynamo_acquire spec_digest max request).
Proof.
  intros Hmax Hreq. unfold dynamo_acquire. destruct (AcquireTarget_lease spec_digest request) as [lease|] eqn:Hl; [|done].
  destruct (acquire_lease_named _ _ Hreq Hl) as [Hnamed Hkey]. cbn -[acquire_rounds].
  destruct (capacity_add_update _ _ _) as [w|] eqn:Hw; cbn -[acquire_rounds]; [|done].
  split; [intros t t'; by apply reserve_writes_ok|]. split.
  - intros t t' _ _ l [= <-]. by split.
  - intros e. destruct (transaction_cancelled e); [by apply kept_rounds|done].
Qed.

(** ** Clients of the table *)

(** The operations a client may run, with what its caller guarantees of the arguments. *)
Inductive DynamoCall :=
  | CallAcquire (request : AcquireTarget)
  | CallInstall (lease : MaterializationLease) (target : PhysicalTarget) (now_ms : Z)
  | CallExpire (lease : MaterializationLease) (now_ms : Z)
  | CallClose (target : InstalledTarget) (d : Disposition) (reason : string) (now_ms : Z)
  | CallPurge (key : TargetKey) (generation : string)
  | CallGet (key : TargetKey)
  | CallList (root : string) (cursor : option string) (limit : Z).

Definition call_named (c : DynamoCall) : Prop :=
  match c with
  | CallAcquire request => request_named request
  | CallExpire lease _ => lease_named lease
  | CallClose target _ _ _ => target_named target
  | _ => True
  end.

Definition discard {A : Type} (m : Dyn A) : Db unit := db_bind m (fun _ => DbRet tt).

Definition call_program (c : DynamoCall) : Db unit :=
  match c with
  | CallAcquire request => discard (dynamo_acquire spec_digest max request)
  | CallInstall lease target now => discard (dynamo_install spec_digest lease target now)
  | CallExpire lease now => discard (dynamo_expire_lease spec_digest lease now)
  | CallClose target d reason now => discard (transition_closed spec_digest target d reason now)
  | CallPurge key generation => discard (purge_terminal spec_digest key generation)
  | CallGet key => discard (dynamo_get spec_digest key)
  | CallList root cursor limit => discard (dynamo_list_root spec_digest root cursor limit)
  end.

Definition client_program (m : Db unit) : Prop := exists c, call_named c /\ m = call_program c.

Lemma kept_true_read {A : Type} key (f : option DurableTargetRecord -> Dyn A) :
  (forall r, kept (fun _ => True) (f r)) -> kept (fun _ => True) (r ← read spec_digest key; f r).
Proof.
  intros Hf. eapply (ensures_step _ (fun _ => True)); [|intros r _; apply Hf].
  eapply ensures_mono; [|apply kept_read]. by intros [].
Qed.

Lemma kept_call c : u64 max -> call_named c -> kept (fun _ => True) (call_program c).
Proof.
  intros Hmax Hc. destruct c as [request|lease target now|lease now|target d reason now|key gen|key|root cursor limit];
    cbn [call_program]; unfold discard; (eapply (ensures_bind _ (fun _ => True)); [|done]).
  - eapply ensures_mono; [|by apply kept_acquire]. done.
  - split; [intros t t'; apply install_ok|]. split.
    + intros t t' _ _. destruct (t' !! _) as [attrs|]; [|done]. apply ensures_lift; [done|]. intros r _. by destruct (installed r).
    + intros e. cbn -[read]. destruct (conditional_failure e); [|done]. by apply kept_true_read.
  - split; [intros t t'; by apply expire_ok|]. split; [done|]. intros e. cbn -[read].
    destruct (transaction_cancelled e); [|done]. apply kept_true_read. intros [r|]; [|done]. by destruct (holds_lease lease r).
  - unfold transition_closed. apply ensures_lift; [done|]. intros [] Hv. destruct (_ || _); [done|].
    assert (Hd : i_spec_digest target = spec_digest (i_spec target)).
    { unfold InstalledTarget_validate in Hv. apply result_bind_Ok in Hv as ([] & _ & Hv). apply result_bind_Ok in Hv as ([] & _ & Hv).
      destruct (negb (str_eqb (spec_digest (i_spec target)) _)) eqn:E; [done|]. by apply negb_str_eqb_false in E. }
    split; [intros t t'; by apply close_ok|]. split; [done|]. intros e. cbn -[read].
    destruct (transaction_cancelled e); [|done]. apply kept_true_read. intros [r|]; [|done]. by destruct (_ && _).
  - split; [intros t t'; apply purge_ok|]. split; [done|]. intros e. cbn -[read].
    destruct (conditional_failure e); [|done]. apply kept_true_read. by intros [].
  - unfold dynamo_get. apply ensures_lift; [done|]. intros _ _. eapply ensures_mono; [|apply kept_read]. done.
  - unfold dynamo_list_root. apply ensures_lift; [done|]. intros key _. apply ensures_lift; [done|]. intros _ _.
    intros t [[items last]|e] _ _; [|done]. cbn. by destruct (parse_all spec_digest items).
Qed.

(** C26: Whatever clients do concurrently, crash in the middle of, or see fail without knowing whether it was
    applied, the plane's counter in the table is exactly the memory of its materializing and installed rows,
    and never exceeds the plane's allocation. *)
Theorem plane_counter_is_exact t clients :
  u64 max -> rtc (cluster_step client_program) (∅, []) (t, clients) ->
  counter t = map_sum charge t /\ map_sum charge t <= max.
Proof.
  intros Hmax Hr. destruct (cluster_invariant client_program plane_ok ∅ [] t clients) as [Ht _]; [|done| | |].
  - intros m (c & Hc & ->). by apply kept_call.
  - apply plane_ok_empty. unfold u64 in Hmax. lia.
  - by apply Forall_nil_2.
  - destruct Ht as [_ Hcount Hle _]. lia.
Qed.
End plane.

(** ** Witnesses *)
Definition no_pages : Table -> string -> string -> option string -> Z -> list Item * option string := fun _ _ _ _ _ => ([], None).

Lemma sample_digest_seals a b :
  u64 (materialized_mib a) -> u64 (materialized_mib b) -> sample_digest a = sample_digest b -> materialized_mib a = materialized_mib b.
Proof.
  assert (Hz : forall k l, parse_digits 0 U64_MAX (repeat "0"%char k ++ l) = parse_digits 0 U64_MAX l).
  { intros k l. rewrite parse_digits_app. induction k as [|k IH]; [done|]. exact IH. }
  assert (Hp : forall m k, u64 m -> parse_digits 0 U64_MAX (repeat "0"%char k ++ bytes_of (print_uint m)) = Some m).
  { intros m k [H0 H1]. rewrite Hz. unfold print_uint. rewrite bytes_of_list. apply parse_dec_digits; unfold U64_MAX in *; cbn; lia. }
  intros Ha Hb H. apply (f_equal bytes_of) in H. unfold sample_digest in H. rewrite !bytes_of_list in H.
  apply app_inv_head in H. apply (f_equal (parse_digits 0 U64_MAX)) in H. rewrite !Hp in H by done. by injection H.
Qed.

Definition sample_request : AcquireTarget := sample_acquire (sample_key "root-1") "res-1" "att-1" 2048 1000.

Lemma sample_request_typed : request_typed sample_digest sample_request.
Proof.
  unfold request_typed. split; [vm_compute; reflexivity|]. unfold u64, U64_MAX. cbn -[hex_digest sample_digest].
  split_and!; try lia; [vm_compute; reflexivity|]. apply (validate_digest_Ok _ ""). vm_compute. reflexivity.
Qed.

Lemma materializing_item_roundtrip_witness :
  exists lease, AcquireTarget_lease sample_digest sample_request = Ok lease
  /\ parse_record sample_digest (materializing_item lease 1000) = Ok (record_from_lease lease 1000).
Proof.
  destruct (AcquireTarget_lease sample_digest sample_request) as [lease|e] eqn:Hl; [|vm_compute in Hl; discriminate].
  exists lease. split; [reflexivity|].
  apply (materializing_item_roundtrip sample_digest sample_request lease Hl sample_request_typed).
Defined.

Lemma empty_represents m : represents m ∅ (with_capacity m).
Proof. constructor; [|done..]. intros k. cbn. by rewrite lookup_empty. Qed.


(** A worker reserves, its reply is lost, another takes the attempt over after it expired: one row, charged once. *)
Definition sample_table : Table := (run_db no_pages (dynamo_acquire sample_digest 8192 sample_request) ∅).2.
Definition sample_retry : AcquireTarget := sample_acquire (sample_key "root-1") "res-2" "att-2" 2048 40000.

Example sample_dynamo_takeover :
  match run_db no_pages (dynamo_acquire sample_digest 8192 sample_retry) sample_table with
  | (Ok (AcqAcquired l), t) => (l_reservation_id l, l_attempt_id l, recovery_attempt l, counter t) = ("res-1", "att-2", true, 2048)
  | _ => False
  end.
Proof. vm_compute. reflexivity. Qed.

Lemma acquire_program sd max request lease w :
  AcquireTarget_lease sd request = Ok lease ->
  capacity_add_update (materialized_mib (l_spec lease)) max (a_now_ms request) = Ok w ->
  discard (dynamo_acquire sd max request)
  = DbWrite [WPut (item_key (l_key lease)) (materializing_item lease (a_now_ms request)) (CNotExists ROOT_ID); w]
      (fun r => db_bind (match r with
                         | Ok _ => mret (AcqAcquired lease)
                         | Err error => if transaction_cancelled error then acquire_rounds sd max 4 request lease
                                        else storage_error "reserve target" error
                         end : Dyn AcquireOutcome) (fun _ => DbRet tt)).
Proof.
  intros Hl Hw. unfold dynamo_acquire, discard. rewrite Hl. cbn -[acquire_rounds materializing_item].
  rewrite Hw. cbn -[acquire_rounds materializing_item]. reflexivity.
Qed.

Lemma plane_counter_is_exact_witness :
  counter sample_table = map_sum charge sample_table /\ map_sum charge sample_table <= 8192.
Proof.
  set (p := call_program sample_digest 8192 (CallAcquire sample_request)).
  apply (plane_counter_is_exact sample_digest 8192 (fun _ _ => 2048)
    (fun a b _ Ha _ Hb => sample_digest_seals a b Ha Hb) sample_table [DbRet tt]); [unfold u64, U64_MAX; lia|].
  apply (rtc_l _ _ (∅, [p])).
  { apply ClusterStart. exists (CallAcquire sample_request). split; [|reflexivity].
    split_and!; [vm_compute; reflexivity|unfold u64, U64_MAX; cbn; lia|reflexivity]. }
  apply (rtc_l _ _ (sample_table, [DbRet tt])); [|apply rtc_refl].
  apply (ClusterCall _ ∅ [] p (DbRet tt) [] sample_table).
  destruct (AcquireTarget_lease sample_digest sample_request) as [lease|e] eqn:Hl; [|vm_compute in Hl; discriminate].
  destruct (capacity_add_update (materialized_mib (l_spec lease)) 8192 (a_now_ms sample_request)) as [w|e] eqn:Hw;
    [|vm_compute in Hl; injection Hl as <-; vm_compute in Hw; discriminate].
  unfold p, call_program. rewrite (acquire_program _ _ _ _ _ Hl Hw).
  match goal with |- db_step (DbWrite ?ws ?k, _) _ =>
    change (DbRet tt) with (k (Ok (match ws with w :: _ => sample_table !! write_key w | [] => None end))) end.
  apply StepWrite.
  vm_compute in Hl. injection Hl as <-. vm_compute in Hw. injection Hw as <-. vm_compute. reflexivity.
Defined.
