(* ===== verification/AwsErrors.v ===== *)
(** * hand-brain-aws: the public errors

    Models crates/hand-brain-aws/src/errors.rs and the error constructors of crates/hand-brain-aws/src/client.rs:
    how every internal failure is projected to a code of the Hand contract, a retry flag and structured
    details. The message texts are not modelled. *)
From S2P Require Import Prelude Policy Target GuestErrors Control Definitions.

Inductive Detail := DetailText (s : string) | DetailNumber (n : Z).

#[global] Instance Detail_eq_dec : EqDecision Detail.
Proof. solve_decision. Defined.

Record AwsError := mkAwsError { ae_code : HandErrorCode; ae_retryable : bool; ae_details : gmap string Detail }.

#[global] Instance AwsError_eq_dec : EqDecision AwsError.
Proof. solve_decision. Defined.

(** ** Constructors *)
Definition error (code : HandErrorCode) (retryable : bool) : AwsError := mkAwsError code retryable ∅.
Definition temporary : AwsError := error TemporarilyUnavailable true.
Definition temporary_from : AwsError := temporary.
Definition invalid : AwsError := error InvalidRequest false.
Definition wrong_reply : AwsError := error InvalidRequest false.
Definition binding_error : AwsError := error BindingConflict false.
Definition generation_error : AwsError := error GenerationConflict false.

Definition with_detail (key : string) (d : Detail) (e : AwsError) : AwsError :=
  mkAwsError (ae_code e) (ae_retryable e) (<[key := d]> (ae_details e)).

(** ** Admission budgets *)
Definition MIB : Z := 1024 * 1024.
Definition MAX_CACHED_BUNDLES : Z := 4096.
Definition MAX_CACHED_PREPARATIONS : Z := 16384.
Definition MAX_CACHED_PREPARATION_BYTES : Z := 64 * MIB.

Definition capacity_error (scope : string) (limits : list (string * Z)) : AwsError :=
  foldl (fun value '(key, amount) => with_detail key (DetailNumber amount) value)
    (with_detail "scope" (DetailText scope) (error ResourceExhausted true)) limits.

Definition preparation_cache_capacity_error (limit_bytes : Z) : AwsError :=
  capacity_error "hand_preparation_cache_bytes" [("limit_bytes", limit_bytes); ("entry_limit", MAX_CACHED_PREPARATIONS)].
Definition bundle_cache_capacity_error (limit_bytes : Z) : AwsError :=
  capacity_error "hand_bundle_cache_bytes" [("limit_bytes", limit_bytes)].
Definition bundle_fetch_capacity_error (limit_bytes : Z) : AwsError :=
  capacity_error "hand_bundle_fetch_bytes" [("limit_bytes", limit_bytes)].
Definition bundle_cache_entry_capacity_error : AwsError :=
  capacity_error "hand_bundle_cache_entries" [("limit", MAX_CACHED_BUNDLES)].

(** ** Projections of the internal errors *)
Definition classify_submit_delivery_error (e : AwsError) : AwsError :=
  if decide (ae_code e = SandboxGone) then error OperationUnknown false else e.

Definition definition_error (e : DefinitionError) : AwsError :=
  match e with
  | DefConflict => binding_error
  | DefStorage _ => temporary_from
  | DefInvalidIdentity _ | DefInvalidPayload _ | DefPayloadTooLarge | DefInvalidLimit | DefCorrupt _ => invalid
  end.

Definition root_seal_error (e : DefinitionError) : AwsError :=
  if decide (e = DefConflict) then error GenerationConflict false else definition_error e.

Definition materialization_error (e : MaterializationError) : AwsError :=
  match e with
  | CapacityError scope retry_after_ms _ =>
      with_detail "retry_after_ms" (DetailNumber retry_after_ms)
        (with_detail "scope" (DetailText scope) (error ResourceExhausted true))
  | Pending retry_after_ms => with_detail "retry_after_ms" (DetailNumber retry_after_ms) temporary
  | Gone | Terminated => error SandboxGone false
  | SpecConflict => error GenerationConflict false
  | Storage _ => temporary_from
  | LaunchRetryable _ => temporary_from
  | LaunchOutcomeUnknown _ => temporary_from
  | ReservationLost _ => temporary_from
  | LaunchRejected _ => error CapabilityUnavailable false
  | InvalidIdentity _ | InvalidLease | InvalidLaunchRequestM | InvalidControlTokenM | InvalidReplacement
  | InvalidCapacity | Corrupt _ => invalid
  end.

(** [control_error] of client.rs. *)
Definition control_error (e : ControlError) : AwsError :=
  match e with
  | ControlGone _ => error SandboxGone false
  | Control.Capacity scope retry_after_ms _ =>
      with_detail "retry_after_ms" (DetailNumber retry_after_ms)
        (with_detail "scope" (DetailText scope) (error ResourceExhausted true))
  | Retryable _ | Throttled _ | UnknownOutcome _ => temporary
  | Fatal _ => error CapabilityUnavailable false
  end.

(** ** Lemmas *)

(** Retryable and temporary agree, capacity apart: nothing that may have had an effect is reported as a final
    refusal, and nothing final invites a retry. *)
Lemma materialization_error_retry e :
  ae_retryable (materialization_error e) = true <->
  ae_code (materialization_error e) = TemporarilyUnavailable \/ ae_code (materialization_error e) = ResourceExhausted.
Proof. destruct e; cbn; naive_solver. Qed.

Lemma control_error_retry e :
  ae_retryable (control_error e) = true <->
  ae_code (control_error e) = TemporarilyUnavailable \/ ae_code (control_error e) = ResourceExhausted.
Proof. destruct e; cbn; naive_solver. Qed.

(** An unknown outcome of an effect stays temporary through both projections. *)
Lemma unknown_outcomes_stay_open m :
  control_error (UnknownOutcome m) = temporary /\ materialization_error (LaunchOutcomeUnknown m) = temporary.
Proof. done. Qed.

(** A submission that may have started is never reported as gone: Brain cannot route it to a replacement. *)
Lemma submit_never_gone e : ae_code (classify_submit_delivery_error e) <> SandboxGone.
Proof. unfold classify_submit_delivery_error. by case_decide. Qed.
