(* ===== verification/AwsSeals.v ===== *)
(** * hand-brain-aws: seals and statuses

    Models crates/hand-brain-aws/src/validate.rs and crates/hand-brain-aws/src/status.rs: the checks that tie a
    request to the immutable seals of its root and its bindings, the mapping of network ceilings to connectors
    and gateway destinations, and the public status of a target. Brain's requests are records of the fields
    that are read; its canonical digests, JSON and network comparison, and the CIDR grammar, are parameters. *)
From S2P Require Import Prelude Policy Page Target Control EgressPolicy GuestErrors GuestTarget GuestInstall GuestOperations AwsErrors.

(** ** Brain's requests *)
Inductive NetworkItem := ItemTls (host : string) | ItemTcp (cidr : string) (ports : list Z).
Notation Network := (NetworkCeiling (list NetworkItem)).

Record PreparedBindingBundles := mkPreparedBindingBundles { pb_binding_ref : string; pb_bundle_digests : list string }.
Record BundleFetch := mkBundleFetch {
  bf_bundle_digest : string; bf_expires_at_ms : Z; bf_max_bytes : Z; bf_url : string; bf_headers : list (string * string) }.
Record SecretCapability := mkSecretCapability { sc_capability_ref : string; sc_env_names : list string }.

Record PrepareSessionRequest := mkPrepareSessionRequest {
  pr_session_id : string; pr_root_id : string; pr_bindings : list PreparedBindingBundles;
  pr_bundles : list BundleFetch; pr_network : Network; pr_resources : ResourceCeiling;
  pr_secret_capability : option SecretCapability }.

Record CreateSandboxRequest := mkCreateSandboxRequest {
  cr_target : SandboxTarget; cr_resource_class : string; cr_resources : ResourceCeiling; cr_network : Network;
  cr_generation_intent : string }.

(** [oi_kind]: the kind, when it is a JSON string. *)
Record OperationInput {P : Type} := mkOperationInput { oi_kind : option string; oi_payload : P }.
Arguments OperationInput : clear implicits.
Arguments mkOperationInput {P}.

(** ** Constants (lib.rs, hand-lambda image.rs); Brain's bounds are parameters *)
Definition RESOURCE_CLASS : string := "microvm-1gb".
Definition MVP_TARGET_MEMORY_MIB : Z := 1024.
Definition TARGET_MEMORY_MIB : Z := MVP_TARGET_MEMORY_MIB.

Definition connector_class (network : Network) : ConnectorClass :=
  match network with NetNone => ConnNone | NetPublic => ConnPublic | NetAllowlist _ => ConnAllowlist end.

Definition validate_resource_ceiling_subset (request physical : ResourceCeiling) : result AwsError unit :=
  if (rc_timeout_ms physical <? rc_timeout_ms request) || (rc_max_output_bytes physical <? rc_max_output_bytes request)
  then Err (error GenerationConflict false) else Ok tt.

Section seals.
Context (MAX_TOOL_TERMINAL_INLINE_BYTES MAX_MANAGED_TOOL_INPUT_BYTES MAX_TOOL_BUNDLE_BYTES : Z).
Context (MAX_SESSION_SECRET_NAMES MAX_SESSION_SECRET_NAME_BYTES MAX_MODEL_TOOLS : Z).
Context (digest_resources : ResourceCeiling -> option string) (digest_network : Network -> option string).
Context (network_ceiling_is_subset : Network -> Network -> bool).

Definition target_spec (image image_version : string) (resources : ResourceCeiling) (network : Network)
    (resource_class : string) : result AwsError TargetSpec :=
  if (MAX_TOOL_TERMINAL_INLINE_BYTES <? rc_max_output_bytes resources)
     || (Launcher.TARGET_LIFETIME_MS <? rc_timeout_ms resources)
  then Err (error CapabilityUnavailable false)
  else
    resource_digest ← ok_or invalid (digest_resources resources);
    network_digest ← ok_or invalid (digest_network network);
    map_err materialization_error
      (TargetSpec_new (connector_class network) (image +:+ "@" +:+ image_version) resource_class TARGET_MEMORY_MIB
         resource_digest network_digest).

Definition validate_operation_root_seal (resources : ResourceCeiling) (network : Network)
    (preparation : PrepareSessionRequest) : result AwsError unit :=
  _ ← validate_resource_ceiling_subset resources (pr_resources preparation);
  if negb (network_ceiling_is_subset network (pr_network preparation))
  then Err (error GenerationConflict false) else Ok tt.

(** The [||] of the code stops at the first difference, so a later digest is not computed then. *)
Definition require_exact_root_seal (request : CreateSandboxRequest) (preparation : PrepareSessionRequest)
    : result AwsError unit :=
  let conflict := Err (error GenerationConflict false) in
  if negb (str_eqb (cr_resource_class request) RESOURCE_CLASS) then conflict
  else
    left ← ok_or invalid (digest_resources (cr_resources request));
    right ← ok_or invalid (digest_resources (pr_resources preparation));
    if negb (str_eqb left right) then conflict
    else
      left ← ok_or invalid (digest_network (cr_network request));
      right ← ok_or invalid (digest_network (pr_network preparation));
      if negb (str_eqb left right) then conflict else Ok tt.

Definition validate_inline_input {P : Type} (jcs : OperationInput P -> option (list Ascii.ascii)) (input : OperationInput P)
    : result AwsError unit :=
  if negb (bool_decide (oi_kind input = Some "inline")) then Err invalid
  else
    encoded ← ok_or invalid (jcs input);
    if MAX_MANAGED_TOOL_INPUT_BYTES <? len encoded then Err invalid else Ok tt.

(** ** Managed bindings *)
Section binding.
Context {R C : Type} `{EqDecision C} (required_capabilities : R -> list C).
Context (digest_descriptor : BundleDescriptor R -> option string).

(** The loop over the declared names: valid, not reserved, none twice. *)
Fixpoint env_names_ok (seen : list string) (names : list string) : bool :=
  match names with
  | [] => true
  | name :: names =>
      environment_name_is_valid MAX_SESSION_SECRET_NAME_BYTES name && negb (reserved_tool_environment name)
      && negb (existsb (str_eqb name) seen) && env_names_ok (name :: seen) names
  end.

Definition validate_managed_binding (binding : SealedBinding R) : result AwsError (BundleDescriptor R) :=
  descriptor ← ok_or (error CapabilityUnavailable false) (sb_bundle binding);
  if negb (bool_decide (sb_realm binding = AexManaged)) || negb (bool_decide (bd_runtime descriptor = Node22))
     || negb (str_eqb (bd_contract_digest descriptor) (sb_contract_digest binding))
  then Err (error CapabilityUnavailable false)
  else if (MAX_TOOL_BUNDLE_BYTES <? bd_bytes descriptor) || negb (bd_object_bytes descriptor =? bd_bytes descriptor)
          || negb (str_eqb (bd_object_sha256 descriptor) (bd_bundle_digest descriptor))
  then Err binding_error
  else if MAX_SESSION_SECRET_NAMES <? len (bd_required_env descriptor) then Err binding_error
  else if negb (env_names_ok [] (bd_required_env descriptor)) then Err binding_error
  else if negb (bool_decide (NoDup (required_capabilities (sb_rest binding)))) then Err binding_error
  else Ok descriptor.

Record ValidatedPreparedBundle := mkValidatedPreparedBundle { vb_bytes : Z; vb_descriptor_digest : string; vb_digest : string }.

Definition validate_prepared_binding_projection (prepared : PreparedBindingBundles) (binding : SealedBinding R)
    (root_id session_id : string) : result AwsError ValidatedPreparedBundle :=
  if negb (str_eqb (sb_root_id binding) root_id) || negb (str_eqb (sb_session_id binding) session_id)
  then Err binding_error
  else
    descriptor ← validate_managed_binding binding;
    if negb (bool_decide (pb_bundle_digests prepared = [bd_bundle_digest descriptor])) then Err binding_error
    else
      descriptor_digest ← ok_or binding_error (digest_descriptor descriptor);
      Ok (mkValidatedPreparedBundle (bd_bytes descriptor) descriptor_digest (bd_bundle_digest descriptor)).
End binding.

Definition merge_validated_prepared_bundle (bundle : ValidatedPreparedBundle) (required : gmap string ValidatedPreparedBundle)
    : result AwsError (gmap string ValidatedPreparedBundle) :=
  match required !! vb_digest bundle with
  | Some existing =>
      if negb (str_eqb (vb_descriptor_digest existing) (vb_descriptor_digest bundle)) then Err binding_error
      else Ok (<[vb_digest bundle := bundle]> required)
  | None => Ok (<[vb_digest bundle := bundle]> required)
  end.

(** [MAX_PREPARED_BUNDLES] is Brain's [MAX_MODEL_TOOLS]. *)
Fixpoint collect_digests (digests : list string) (required : gset string) : result AwsError (gset string) :=
  match digests with
  | [] => Ok required
  | digest :: digests =>
      let required := {[digest]} ∪ required in
      if MAX_MODEL_TOOLS <? Z.of_nat (size required) then Err invalid else collect_digests digests required
  end.
Definition required_bundle_digests (request : PrepareSessionRequest) : result AwsError (gset string) :=
  collect_digests (concat (map pb_bundle_digests (pr_bindings request))) ∅.

(** ** Gateway destinations *)
Definition destination_of {Net : Type} (parse_net : string -> option Net) (item : NetworkItem)
    : result AwsError (CapabilityDestination Net) :=
  match item with
  | ItemTls host => Ok (mkCapabilityDestination (Some host) None [443] Tls)
  | ItemTcp cidr ports =>
      net ← ok_or invalid (parse_net cidr);
      ports ← mapM_result (fun port => if port <=? U16_MAX then Ok port else Err invalid) ports;
      Ok (mkCapabilityDestination None (Some net) ports Tcp)
  end.
Definition capability_destinations {Net : Type} (parse_net : string -> option Net) (items : list NetworkItem)
    : result AwsError (list (CapabilityDestination Net)) := mapM_result (destination_of parse_net) items.
End seals.

(** ** Target keys and statuses (status.rs); [OtherTarget] is an additional target *)
Definition aws_target_key (target : SandboxTarget) : result AwsError TargetKey :=
  match sx_kind target, sx_sandbox_id target with
  | DefaultTarget, None => map_err materialization_error (for_default_target (sx_root_id target))
  | OtherTarget, sandbox_id =>
      sandbox_id ← ok_or invalid sandbox_id;
      map_err materialization_error (additional (sx_root_id target) sandbox_id)
  | DefaultTarget, Some _ => Err invalid
  end.

Definition default_target (envelope : @OperationEnvelope (list NetworkItem)) : SandboxTarget :=
  mkSandboxTarget (env_binding_ref envelope) DefaultTarget (env_root_id envelope) None (env_session_id envelope).

Inductive SandboxState := NeverMaterialized | Creating | Running | Suspended | StateGone | StateTerminated.

#[global] Instance SandboxState_eq_dec : EqDecision SandboxState.
Proof. solve_decision. Defined.

Record SandboxStatus := mkSandboxStatus {
  ss_changed_at_ms : option Z; ss_expires_at_ms : option Z; ss_generation_of : option string; ss_reason : option string;
  ss_state : SandboxState; ss_target : SandboxTarget; ss_target_ref : option string }.

(** [NonZeroU64::new] *)
Definition non_zero (x : Z) : option Z := if x =? 0 then None else Some x.

Definition status_from_record (target : SandboxTarget) (record : option DurableTargetRecord) : SandboxStatus :=
  match record with
  | None => mkSandboxStatus None None None None NeverMaterialized target None
  | Some record =>
      match r_state record with
      | Materializing _ _ _ _ target_expires_at_ms _ =>
          mkSandboxStatus (Some (r_updated_at_ms record)) (non_zero target_expires_at_ms) (Some (r_generation record))
            None Creating target None
      | Installed target_ref _ _ expires_at_ms =>
          mkSandboxStatus (Some (r_updated_at_ms record)) (non_zero expires_at_ms) (Some (r_generation record))
            None Running target (Some target_ref)
      | Closed disposition reason _ =>
          mkSandboxStatus (Some (r_updated_at_ms record)) None (Some (r_generation record)) (Some reason)
            (match disposition with Lost => StateGone | DTerminated => StateTerminated end) target None
      end
  end.

Definition sandbox_state_from_provider (state : MicrovmState) : result AwsError SandboxState :=
  match state with
  | VmRunning => Ok Running
  | VmPending => Ok Creating
  | VmSuspended => Ok Suspended
  | VmSuspending => Err temporary
  | VmTerminated => Err (error SandboxGone false)
  | VmTerminating => Err temporary
  | VmOther _ => Err temporary
  end.

Definition running_status (target : SandboxTarget) (installed : InstalledTarget) : SandboxStatus :=
  mkSandboxStatus (Some (i_installed_at_ms installed)) (non_zero (i_expires_at_ms installed)) (Some (i_generation installed))
    None Running target (Some (i_target_ref installed)).
Definition gone_status (target : SandboxTarget) (installed : InstalledTarget) (reason : string) (now_ms : Z) : SandboxStatus :=
  mkSandboxStatus (Some now_ms) None (Some (i_generation installed)) (Some reason) StateGone target None.
Definition terminated_status (target : SandboxTarget) (installed : InstalledTarget) (reason : string) (now_ms : Z) : SandboxStatus :=
  mkSandboxStatus (Some now_ms) None (Some (i_generation installed)) (Some reason) StateTerminated target None.

Definition aws_sandbox_identity (key : TargetKey) : result AwsError string :=
  map_err (fun _ => invalid) (sandbox_identity key).
