(* ===== verification/Cache.v ===== *)
(** * hand-brain-aws: preparation metadata and bundle caches

    Models crates/hand-brain-aws/src/cache.rs: the two bounded LRU caches behind one lock, the installation of a
    preparation into both, the paged purge of a root, the reservation of cold fetches, and the pure projections
    of a preparation. A shared byte buffer is known by its cache entry and the number of clones held outside
    the cache; Brain's canonical JSON and SHA-256 are parameters. Lock poisoning is not modelled. *)
From S2P Require Import Prelude Policy Page GuestErrors GuestTarget AwsErrors AwsSeals.

(** ** State *)
Record Preparation := mkPreparation {
  p_request : PrepareSessionRequest; p_public_digest : string; p_metadata_bytes : Z; p_last_access : Z }.

(** [cb_holders]: clones of the buffer outside the cache, so its strong count is one more. *)
Record CachedBundle := mkCachedBundle { cb_bytes : list Ascii.ascii; cb_last_access : Z; cb_holders : nat }.

Record PreparationStore := mkPreparationStore {
  sessions : gmap string Preparation; root_sessions : gmap string (gset string); preparation_bytes : Z;
  max_preparation_bytes : Z; max_preparations : Z; store_clock : Z }.

Record BundleCache := mkBundleCache {
  cached : gmap string CachedBundle; bundle_bytes : Z; max_bundle_bytes : Z; max_bundles : Z; bundle_clock : Z }.

Record PreparationCache := mkPreparationCache { store : PreparationStore; bundles : BundleCache }.

Definition set_sessions m b (s : PreparationStore) :=
  mkPreparationStore m (root_sessions s) b (max_preparation_bytes s) (max_preparations s) (store_clock s).
Definition set_root_sessions r (s : PreparationStore) :=
  mkPreparationStore (sessions s) r (preparation_bytes s) (max_preparation_bytes s) (max_preparations s) (store_clock s).
Definition set_store_clock c (s : PreparationStore) :=
  mkPreparationStore (sessions s) (root_sessions s) (preparation_bytes s) (max_preparation_bytes s) (max_preparations s) c.
Definition set_cached m b (s : BundleCache) := mkBundleCache m b (max_bundle_bytes s) (max_bundles s) (bundle_clock s).
Definition set_bundle_clock c (s : BundleCache) := mkBundleCache (cached s) (bundle_bytes s) (max_bundle_bytes s) (max_bundles s) c.

Definition with_limits (max_bundle_bytes max_preparation_bytes max_preparations : Z) : PreparationCache :=
  mkPreparationCache (mkPreparationStore ∅ ∅ 0 max_preparation_bytes max_preparations 0)
    (mkBundleCache ∅ 0 max_bundle_bytes MAX_CACHED_BUNDLES 0).
Definition with_limit (max_bundle_bytes : Z) : PreparationCache :=
  with_limits max_bundle_bytes MAX_CACHED_PREPARATION_BYTES MAX_CACHED_PREPARATIONS.

(** [fetch_add(1)], which wraps, followed by [saturating_add(1)]. *)
Definition next_access (clock : Z) : Z := saturating_add clock 1.
Definition next_clock (clock : Z) : Z := (clock + 1) mod 2 ^ 64.

(** [Iterator::min_by_key]: the first of the smallest. *)
Fixpoint min_by_key {K V : Type} (f : V -> Z) (l : list (K * V)) : option (K * V) :=
  match l with
  | [] => None
  | x :: l => match min_by_key f l with
              | Some y => if f x.2 <=? f y.2 then Some x else Some y
              | None => Some x
              end
  end.

(** ** Session preparations *)
Definition store_get (session_id : string) (s : PreparationStore) : option Preparation * PreparationStore :=
  let access := next_access (store_clock s) in
  let s := set_store_clock (next_clock (store_clock s)) s in
  match sessions s !! session_id with
  | Some p =>
      let p' := mkPreparation (p_request p) (p_public_digest p) (p_metadata_bytes p) access in
      (Some p, set_sessions (<[session_id := p']> (sessions s)) (preparation_bytes s) s)
  | None => (None, s)
  end.

Definition remove_session (session_id : string) (s : PreparationStore) : option Preparation * PreparationStore :=
  match sessions s !! session_id with
  | None => (None, s)
  | Some removed =>
      let s := set_sessions (delete session_id (sessions s)) (saturating_sub (preparation_bytes s) (p_metadata_bytes removed)) s in
      let root_id := pr_root_id (p_request removed) in
      let roots := match root_sessions s !! root_id with
        | Some ids =>
            let ids := ids ∖ {[session_id]} in
            if decide (ids = ∅) then delete root_id (root_sessions s) else <[root_id := ids]> (root_sessions s)
        | None => root_sessions s
        end in
      (Some removed, set_root_sessions roots s)
  end.

(** [checked_add(..).is_some_and(|total| total <= max)] *)
Definition fits (current additional max : Z) : bool :=
  match checked_add current additional with Some total => total <=? max | None => false end.

(** [None]: out of fuel; every turn but the last evicts an entry. *)
Fixpoint evict_preparations (fuel : nat) (additional_bytes additional_entries : Z) (protected : string)
    : M PreparationStore AwsError (option unit) := fun s =>
  match fuel with
  | O => (Ok None, s)
  | S fuel =>
      if fits (preparation_bytes s) additional_bytes (max_preparation_bytes s)
         && fits (Z.of_nat (size (sessions s))) additional_entries (max_preparations s)
      then (Ok (Some tt), s)
      else
        match min_by_key p_last_access (List.filter (fun kv => negb (str_eqb kv.1 protected)) (map_to_list (sessions s))) with
        | None => (Err (preparation_cache_capacity_error (max_preparation_bytes s)), s)
        | Some (candidate, _) => evict_preparations fuel additional_bytes additional_entries protected (remove_session candidate s).2
        end
  end.

(** An exhausted loop cannot happen ([evict_preparations_ends]); it is given the error of a full cache. *)
Definition evict_preparations_to_fit (additional_bytes additional_entries : Z) (protected : string)
    : M PreparationStore AwsError unit := fun s =>
  match evict_preparations (S (size (sessions s))) additional_bytes additional_entries protected s with
  | (Ok (Some _), s') => (Ok tt, s')
  | (Ok None, s') => (Err (preparation_cache_capacity_error (max_preparation_bytes s)), s')
  | (Err e, s') => (Err e, s')
  end.

Definition store_purge_root_page (root_id : string) (limit : nat) (s : PreparationStore) : bool * PreparationStore :=
  let session_ids := match root_sessions s !! root_id with Some ids => take limit (elements ids) | None => [] end in
  let s := foldl (fun s session_id => (remove_session session_id s).2) s session_ids in
  let complete := match root_sessions s !! root_id with Some ids => bool_decide (ids = ∅) | None => true end in
  (complete, if complete then set_root_sessions (delete root_id (root_sessions s)) s else s).

(** ** Bundles *)

(** A lookup hands out a clone: the caller holds it until it drops it. *)
Definition touch (access : Z) (holders : nat) (b : CachedBundle) : CachedBundle := mkCachedBundle (cb_bytes b) access holders.

Definition bundle_get (digest : string) (s : BundleCache) : option (list Ascii.ascii) * BundleCache :=
  let access := next_access (bundle_clock s) in
  let s := set_bundle_clock (next_clock (bundle_clock s)) s in
  match cached s !! digest with
  | Some b => (Some (cb_bytes b), set_cached (<[digest := touch access (S (cb_holders b)) b]> (cached s)) (bundle_bytes s) s)
  | None => (None, s)
  end.

Definition bundle_release (digest : string) (s : BundleCache) : BundleCache :=
  match cached s !! digest with
  | Some b => set_cached (<[digest := touch (cb_last_access b) (pred (cb_holders b)) b]> (cached s)) (bundle_bytes s) s
  | None => s
  end.

Definition evictable (protected : gset string) (kv : string * CachedBundle) : bool :=
  negb (bool_decide (kv.1 ∈ protected)) && Nat.eqb (cb_holders kv.2) 0.

Fixpoint evict_idle (fuel : nat) (additional_bytes additional_entries : Z) (protected : gset string)
    : M BundleCache AwsError (option unit) := fun s =>
  match fuel with
  | O => (Ok None, s)
  | S fuel =>
      let bytes_fit := fits (bundle_bytes s) additional_bytes (max_bundle_bytes s) in
      let entries_fit := fits (Z.of_nat (size (cached s))) additional_entries (max_bundles s) in
      if bytes_fit && entries_fit then (Ok (Some tt), s)
      else
        match min_by_key cb_last_access (List.filter (evictable protected) (map_to_list (cached s))) with
        | None => (Err (if negb entries_fit && bytes_fit then bundle_cache_entry_capacity_error
                        else bundle_cache_capacity_error (max_bundle_bytes s)), s)
        | Some (candidate, evicted) =>
            evict_idle fuel additional_bytes additional_entries protected
              (set_cached (delete candidate (cached s)) (saturating_sub (bundle_bytes s) (len (cb_bytes evicted))) s)
        end
  end.

Definition evict_idle_to_fit (additional_bytes additional_entries : Z) (protected : gset string)
    : M BundleCache AwsError unit := fun s =>
  match evict_idle (S (size (cached s))) additional_bytes additional_entries protected s with
  | (Ok (Some _), s') => (Ok tt, s')
  | (Ok None, s') => (Err (bundle_cache_capacity_error (max_bundle_bytes s)), s')
  | (Err e, s') => (Err e, s')
  end.

(** The buffer's other clone, the fetch's, goes when the installation that inserts it returns. *)
Definition bundle_insert (digest : string) (bytes : list Ascii.ascii) (s : BundleCache) : BundleCache :=
  let b := mkCachedBundle bytes (next_access (bundle_clock s)) 0 in
  set_cached (<[digest := b]> (cached s)) (bundle_bytes s + len bytes) (set_bundle_clock (next_clock (bundle_clock s)) s).

(** ** Installing a preparation *)
Notation Cache := (M PreparationCache AwsError).

Definition on_store {A} (m : M PreparationStore AwsError A) : Cache A := fun c =>
  let '(r, s) := m (store c) in (r, mkPreparationCache s (bundles c)).
Definition on_bundles {A} (m : M BundleCache AwsError A) : Cache A := fun c =>
  let '(r, b) := m (bundles c) in (r, mkPreparationCache (store c) b).

(** The bytes of the missing bundles; the sum of sizes may not fit a [usize]. *)
Definition missing_bytes (fetched : gmap string (list Ascii.ascii)) (missing : list string) (limit : Z) : result AwsError Z :=
  foldl (fun total digest => total ← total;
           ok_or (bundle_cache_capacity_error limit) (checked_add total (len (default [] (fetched !! digest)))))
    (Ok 0) missing.

Definition install_bundles (fetched : gmap string (list Ascii.ascii)) (required : list string) (s : BundleCache) : BundleCache :=
  foldl (fun s digest =>
    let s := match cached s !! digest with
             | Some _ => s
             | None => bundle_insert digest (default [] (fetched !! digest)) s
             end in
    bundle_release digest (bundle_get digest s).2) s required.

Section install.
Context (MAX_MODEL_TOOLS : Z) (jcs_request : PrepareSessionRequest -> option (list Ascii.ascii)).

(** The checks against an earlier preparation of the session. *)
Definition sealed_as (request : PrepareSessionRequest) (public_digest : string) (old : option Preparation) : result AwsError unit :=
  match old with
  | Some old =>
      _ ← ensure (str_eqb (pr_root_id (p_request old)) (pr_root_id request)) binding_error;
      ensure (str_eqb (p_public_digest old) public_digest) binding_error
  | None => Ok tt
  end.

Definition put_preparation (session_id root_id : string) (p : PrepareSessionRequest) (public_digest : string)
    (metadata_bytes : Z) : M PreparationStore AwsError unit :=
  _ ← modify (fun s => match sessions s !! session_id with Some _ => (remove_session session_id s).2 | None => s end);
  s ← get;
  let last_access := next_access (store_clock s) in
  _ ← modify (set_store_clock (next_clock (store_clock s)));
  bytes ← lift (ok_or (preparation_cache_capacity_error (max_preparation_bytes s)) (checked_add (preparation_bytes s) metadata_bytes));
  _ ← modify (fun s => set_sessions (<[session_id := mkPreparation p public_digest metadata_bytes last_access]> (sessions s)) bytes s);
  modify (fun s => set_root_sessions (<[root_id := {[session_id]} ∪ default ∅ (root_sessions s !! root_id)]> (root_sessions s)) s).

Definition cache_install (request : PrepareSessionRequest) (public_digest : string)
    (fetched : gmap string (list Ascii.ascii)) : Cache unit :=
  let session_id := pr_session_id request in
  c ← get;
  let old := sessions (store c) !! session_id in
  _ ← lift (sealed_as request public_digest old);
  required ← lift (required_bundle_digests MAX_MODEL_TOOLS request);
  _ ← lift (ensure (forallb (fun digest => bool_decide (digest ∈ required)) (elements (dom fetched))) invalid);
  _ ← lift (ensure (forallb (fun digest => bool_decide (is_Some (fetched !! digest)) || bool_decide (is_Some (cached (bundles c) !! digest)))
              (elements required)) (error CapabilityUnavailable false));
  encoded ← lift (ok_or invalid (jcs_request request));
  let metadata_bytes := len encoded in
  if (max_preparation_bytes (store c) <? metadata_bytes) || (max_preparations (store c) =? 0)
  then throw (preparation_cache_capacity_error (max_preparation_bytes (store c)))
  else
    let prior := match old with Some p => p_metadata_bytes p | None => 0 end in
    _ ← on_store (evict_preparations_to_fit (saturating_sub metadata_bytes prior) (match old with Some _ => 0 | None => 1 end) session_id);
    let missing := List.filter (fun digest => negb (bool_decide (is_Some (cached (bundles c) !! digest)))) (elements required) in
    additional_bytes ← lift (missing_bytes fetched missing (max_bundle_bytes (bundles c)));
    _ ← on_bundles (evict_idle_to_fit additional_bytes (len missing) required);
    _ ← on_bundles (modify (install_bundles fetched (elements required)));
    on_store (put_preparation session_id (pr_root_id request) request public_digest metadata_bytes).

Definition cache_purge_root_page (root_id : string) (limit : nat) (c : PreparationCache) : bool * PreparationCache :=
  let '(complete, s) := store_purge_root_page root_id limit (store c) in (complete, mkPreparationCache s (bundles c)).
End install.

(** ** Projections *)
Definition cacheable_preparation (request : PrepareSessionRequest) : PrepareSessionRequest :=
  mkPrepareSessionRequest (pr_session_id request) (pr_root_id request) (pr_bindings request) [] (pr_network request)
    (pr_resources request) (pr_secret_capability request).

Record PublicProjection := mkPublicProjection {
  pp_bindings : list PreparedBindingBundles; pp_network : Network; pp_resources : ResourceCeiling; pp_root_id : string;
  pp_secret_env_names : list string; pp_session_id : string }.

(** [windows(2).any(|pair| pair[0] == pair[1])] *)
Fixpoint adjacent_repeat (l : list string) : bool :=
  match l with
  | a :: ((b :: _) as rest) => str_eqb a b || adjacent_repeat rest
  | _ => false
  end.

Definition preparation_public_projection (MAX_SESSION_SECRET_NAMES MAX_SESSION_SECRET_NAME_BYTES : Z)
    (request : PrepareSessionRequest) : result AwsError PublicProjection :=
  let names := sort_by str_leb (match pr_secret_capability request with Some c => sc_env_names c | None => [] end) in
  if (MAX_SESSION_SECRET_NAMES <? len names)
     || existsb (fun name => negb (environment_name_is_valid MAX_SESSION_SECRET_NAME_BYTES name) || reserved_tool_environment name) names
     || adjacent_repeat names
  then Err invalid
  else Ok (mkPublicProjection (pr_bindings request) (pr_network request) (pr_resources request) (pr_root_id request)
             names (pr_session_id request)).

Inductive MaterializationMode := LazyDefault | ExplicitDefault (generation : string) | Additional (generation : string).
Definition generation_intent (mode : MaterializationMode) : option string :=
  match mode with LazyDefault => None | ExplicitDefault generation | Additional generation => Some generation end.
Definition replace_after_loss (mode : MaterializationMode) : bool :=
  match mode with LazyDefault | ExplicitDefault _ => true | Additional _ => false end.

Section shards.
Context (sha256 : list Ascii.ascii -> list Ascii.ascii).

(** The parts joined by NUL; the first eight bytes of the digest are read as one big-endian number. *)
Fixpoint joined (parts : list string) : list Ascii.ascii :=
  match parts with
  | [] => []
  | [part] => bytes_of part
  | part :: parts => bytes_of part ++ Ascii.zero :: joined parts
  end.
Definition shard_index (parts : list string) (shards : Z) : Z :=
  foldl (fun n b => n * 256 + byte_val b) 0 (take 8 (sha256 (joined parts))) mod shards.

Definition SECRET_INSTALL_LOCK_SHARDS : Z := 64.
Definition FILE_EFFECT_LOCK_SHARDS : Z := 64.
Definition secret_install_lock_index (target_ref session_id : string) : Z :=
  shard_index [target_ref; session_id] SECRET_INSTALL_LOCK_SHARDS.
Definition file_effect_lock_index (operation_id : string) : Z := shard_index [operation_id] FILE_EFFECT_LOCK_SHARDS.
End shards.

(** ** Cold fetches in flight *)
Record BundleFetchInFlight := mkBundleFetchInFlight { in_bytes : Z; in_entries : Z }.

Definition reservation_admit (cached_bytes cached_entries fetch_bytes fetch_entries cache_limit_bytes fetch_limit_bytes : Z)
    : M BundleFetchInFlight AwsError unit := fun in_flight =>
  let check :=
    projected_fetch ← ok_or (bundle_fetch_capacity_error fetch_limit_bytes) (checked_add (in_bytes in_flight) fetch_bytes);
    _ ← ensure (projected_fetch <=? fetch_limit_bytes) (bundle_fetch_capacity_error fetch_limit_bytes);
    held ← ok_or (bundle_cache_capacity_error cache_limit_bytes) (checked_add cached_bytes (in_bytes in_flight));
    admitted ← ok_or (bundle_cache_capacity_error cache_limit_bytes) (checked_add held fetch_bytes);
    _ ← ensure (admitted <=? cache_limit_bytes) (bundle_cache_capacity_error cache_limit_bytes);
    held ← ok_or (bundle_cache_capacity_error cache_limit_bytes) (checked_add cached_entries (in_entries in_flight));
    admitted_entries ← ok_or (bundle_cache_capacity_error cache_limit_bytes) (checked_add held fetch_entries);
    _ ← ensure (admitted_entries <=? MAX_CACHED_BUNDLES) bundle_cache_entry_capacity_error;
    Ok projected_fetch in
  match check with
  | Ok projected_fetch => (Ok tt, mkBundleFetchInFlight projected_fetch (in_entries in_flight + fetch_entries))
  | Err e => (Err e, in_flight)
  end.

Definition reservation_drop (bytes entries : Z) (reserved : BundleFetchInFlight) : BundleFetchInFlight :=
  mkBundleFetchInFlight (saturating_sub (in_bytes reserved) bytes) (saturating_sub (in_entries reserved) entries).

(** ** The preparation store: exact accounting *)
Definition root_of (p : Preparation) : string := pr_root_id (p_request p).

(** The root index lists exactly the sessions of each root, and no root without a session. *)
Definition roots_exact (s : PreparationStore) : Prop :=
  (forall r ids, root_sessions s !! r = Some ids -> ids <> ∅) /\
  (forall r sid, sid ∈ default ∅ (root_sessions s !! r) <-> exists p, sessions s !! sid = Some p /\ root_of p = r).

Definition store_ok (s : PreparationStore) : Prop :=
  (forall sid p, sessions s !! sid = Some p -> 0 <= p_metadata_bytes p) /\
  preparation_bytes s = map_sum p_metadata_bytes (sessions s) /\
  preparation_bytes s <= max_preparation_bytes s <= U64_MAX /\
  Z.of_nat (size (sessions s)) <= max_preparations s <= U64_MAX /\ roots_exact s.

Lemma fits_true a b m : fits a b m = true <-> a + b <= U64_MAX /\ a + b <= m.
Proof.
  unfold fits. destruct (checked_add a b) as [t|] eqn:E.
  - apply checked_add_Some in E as [-> ?]. rewrite Z.leb_le. lia.
  - apply checked_add_None in E. split; [done | lia].
Qed.

Lemma min_by_key_elem {K V} (f : V -> Z) (l : list (K * V)) x : min_by_key f l = Some x -> x ∈ l.
Proof.
  revert x. induction l as [|y l IH]; intros x; cbn; [done|]. destruct (min_by_key f l) as [z|] eqn:E.
  - destruct (f y.2 <=? f z.2); intros [= <-]; set_solver.
  - intros [= <-]. set_solver.
Qed.

Lemma min_by_key_None {K V} (f : V -> Z) (l : list (K * V)) : min_by_key f l = None -> l = [].
Proof. destruct l as [|y l]; [done|]. cbn. by repeat case_match. Qed.

(** The eviction candidate of a map, among the entries that may go. *)
Lemma candidate_spec {V} (f : V -> Z) (keep : string * V -> bool) (m : gmap string V) :
  match min_by_key f (List.filter keep (map_to_list m)) with
  | Some (k, v) => m !! k = Some v /\ keep (k, v) = true
  | None => forall k v, m !! k = Some v -> keep (k, v) = false
  end.
Proof.
  destruct (min_by_key _ _) as [[k v]|] eqn:E.
  - apply min_by_key_elem in E. by rewrite list_elem_of_In, filter_In, <- list_elem_of_In, elem_of_map_to_list in E.
  - apply min_by_key_None in E. intros k v Hk. apply Bool.not_true_iff_false. intros Ht.
    assert (Hin : (k, v) ∈ List.filter keep (map_to_list m)).
    { by rewrite list_elem_of_In, filter_In, <- list_elem_of_In, elem_of_map_to_list. }
    rewrite E in Hin. by apply not_elem_of_nil in Hin.
Qed.

(** A root's set of sessions after one of them left. *)
Lemma remove_session_roots sid s p :
  sessions s !! sid = Some p -> roots_exact s -> roots_exact (remove_session sid s).2.
Proof.
  intros E [Hne Hex]. unfold remove_session. rewrite E; cbn.
  assert (Hin : sid ∈ default ∅ (root_sessions s !! root_of p)) by (apply Hex; eauto).
  fold (root_of p). destruct (root_sessions s !! root_of p) as [ids|] eqn:Er; [|by apply not_elem_of_empty in Hin].
  split; cbn.
  - intros r ids'. case_decide as D.
    + rewrite lookup_delete_Some. intros [_ H]. by eapply Hne.
    + rewrite lookup_insert_Some. intros [[_ <-]|[_ H]]; [done | by eapply Hne].
  - intros r sid'. destruct (decide (r = root_of p)) as [->|Hr].
    + transitivity (sid' ∈ ids ∖ {[sid]}).
      { case_decide as D; [rewrite lookup_delete_eq, D; set_solver | by rewrite lookup_insert_eq]. }
      specialize (Hex (root_of p) sid'). rewrite Er in Hex; cbn in Hex.
      rewrite elem_of_difference, elem_of_singleton, Hex. setoid_rewrite lookup_delete_Some. naive_solver.
    + transitivity (sid' ∈ default ∅ (root_sessions s !! r)).
      { case_decide; [by rewrite lookup_delete_ne | by rewrite lookup_insert_ne]. }
      rewrite Hex. setoid_rewrite lookup_delete_Some. naive_solver.
Qed.

Lemma remove_session_ok sid s : store_ok s -> store_ok (remove_session sid s).2.
Proof.
  intros (Hpos & Hsum & Hb & He & Hr). destruct (sessions s !! sid) as [p|] eqn:E.
  2: { unfold remove_session. rewrite E. done. }
  pose proof (remove_session_roots _ _ _ E Hr) as Hr'.
  assert (0 <= map_sum p_metadata_bytes (delete sid (sessions s))).
  { apply map_sum_nonneg. intros k v [_ ?]%lookup_delete_Some. eauto. }
  pose proof (map_sum_delete p_metadata_bytes _ _ _ E) as Hd. pose proof (Hpos _ _ E).
  assert (Hs : size (delete sid (sessions s)) = pred (size (sessions s))) by (apply map_size_delete_Some; eauto).
  unfold remove_session in *. rewrite E in *; cbn in *. unfold saturating_sub.
  repeat split; cbn; try lia; try apply Hr'.
  intros k v [_ ?]%lookup_delete_Some. eauto.
Qed.

Lemma remove_session_sessions sid s : sessions (remove_session sid s).2 = delete sid (sessions s).
Proof.
  unfold remove_session. destruct (sessions s !! sid) eqn:E; [done|]. cbn. by rewrite delete_id.
Qed.

Lemma remove_session_limits sid s :
  max_preparation_bytes (remove_session sid s).2 = max_preparation_bytes s /\
  max_preparations (remove_session sid s).2 = max_preparations s.
Proof. unfold remove_session. by destruct (sessions s !! sid). Qed.

Definition same_limits (s s' : PreparationStore) : Prop :=
  max_preparation_bytes s' = max_preparation_bytes s /\ max_preparations s' = max_preparations s.

(** The eviction loop ends within its fuel, only drops unprotected sessions, and stops with room or with
    nothing but the protected session left. *)
Lemma evict_preparations_ends fuel ab ae prot s :
  store_ok s -> (size (sessions s) < fuel)%nat ->
  exists r s', evict_preparations fuel ab ae prot s = (r, s') /\ store_ok s' /\ sessions s' ⊆ sessions s /\
    sessions s' !! prot = sessions s !! prot /\ same_limits s s' /\
    let room := fits (preparation_bytes s') ab (max_preparation_bytes s')
                && fits (Z.of_nat (size (sessions s'))) ae (max_preparations s') in
    (r = Ok (Some tt) /\ room = true \/
     r = Err (preparation_cache_capacity_error (max_preparation_bytes s)) /\ room = false /\
     forall sid, is_Some (sessions s' !! sid) -> sid = prot).
Proof.
  revert s. induction fuel as [|fuel IH]; intros s Hok Hf; [lia|]. cbn [evict_preparations].
  case_match eqn:Eroom; [eexists _, s; split_and!; [done..|by left]|].
  pose proof (candidate_spec p_last_access (fun kv => negb (str_eqb kv.1 prot)) (sessions s)) as Hc.
  destruct (min_by_key _ _) as [[sid p]|].
  - destruct Hc as [E Hne]. apply negb_true_iff, str_eqb_neq in Hne. cbn in Hne.
    destruct (IH (remove_session sid s).2 (remove_session_ok sid s Hok)) as (r & s' & Hrun & Hok' & Hsub & Hp & Hl & Hr).
    { rewrite remove_session_sessions, map_size_delete_Some by eauto.
      destruct (size (sessions s)) eqn:Es; [|lia]. apply map_size_empty_inv in Es. by rewrite Es in E. }
    exists r, s'. rewrite remove_session_sessions in *. pose proof (remove_session_limits sid s) as [L1 L2].
    destruct Hl as [L1' L2']. rewrite L1 in *. split_and!; [done|done| | |split; congruence|done].
    + etrans; [done | apply delete_subseteq].
    + by rewrite Hp, lookup_delete_ne.
  - exists (Err (preparation_cache_capacity_error (max_preparation_bytes s))), s. split_and!; [done..|right].
    split_and!; [done|done|]. intros sid [p E]. apply Hc, negb_false_iff, str_eqb_eq in E. done.
Qed.

(** Room for one preparation is always made: nothing but the session's own earlier entry is kept. *)
Lemma evict_preparations_makes_room session_id metadata s :
  store_ok s -> 0 <= metadata <= max_preparation_bytes s -> max_preparations s <> 0 ->
  let ab := saturating_sub metadata (match sessions s !! session_id with Some p => p_metadata_bytes p | None => 0 end) in
  let ae := match sessions s !! session_id with Some _ => 0 | None => 1 end in
  exists s', evict_preparations_to_fit ab ae session_id s = (Ok tt, s') /\ store_ok s' /\ sessions s' ⊆ sessions s /\
    sessions s' !! session_id = sessions s !! session_id /\ same_limits s s' /\
    preparation_bytes s' + ab <= max_preparation_bytes s' /\ Z.of_nat (size (sessions s')) + ae <= max_preparations s'.
Proof.
  intros Hok Hm Hz ab ae. unfold evict_preparations_to_fit.
  destruct (evict_preparations_ends (S (size (sessions s))) ab ae session_id s Hok) as (r & s' & -> & Hok' & Hsub & Hp & Hl & Hr); [lia|].
  destruct Hr as [[-> Hroom] | (-> & Hroom & Honly)].
  - apply andb_true_iff in Hroom as [[? ?]%fits_true [? ?]%fits_true]. exists s'. split_and!; done.
  - exfalso. apply andb_false_iff in Hroom. destruct Hl as [L1 L2].
    pose proof Hok' as (Hpos & Hsum & Hb & He & _). rewrite L1, L2 in *.
    destruct (sessions s !! session_id) as [p|] eqn:E.
    + assert (Hs : sessions s' = {[session_id := p]}).
      { apply map_eq. intros sid. destruct (decide (sid = session_id)) as [->|Hne]; [by rewrite lookup_singleton_eq|].
        rewrite lookup_singleton_ne by done. destruct (sessions s' !! sid) eqn:E'; [|done]. exfalso. eauto. }
      assert (preparation_bytes s' = p_metadata_bytes p).
      { rewrite Hsum, Hs. rewrite <- (insert_empty session_id p), map_sum_insert_new, map_sum_empty by done. lia. }
      unfold ab, ae, saturating_sub in Hroom. rewrite Hs, map_size_singleton in *.
      destruct Hroom as [H1|H1]; apply Bool.not_true_iff_false in H1; apply H1, fits_true; split; lia.
    + assert (Hs : sessions s' = ∅).
      { apply map_eq. intros sid. rewrite lookup_empty. destruct (sessions s' !! sid) eqn:E'; [|done].
        rewrite (Honly sid) in E' by eauto. congruence. }
      assert (preparation_bytes s' = 0) by (by rewrite Hsum, Hs, map_sum_empty).
      unfold ab, ae, saturating_sub in Hroom. rewrite Hs, map_size_empty in *.
      destruct Hroom as [H1|H1]; apply Bool.not_true_iff_false in H1; apply H1, fits_true; split; lia.
Qed.

(** ** The bundle cache: exact accounting *)
Definition cache_len (b : CachedBundle) : Z := len (cb_bytes b).

Definition bundle_ok (s : BundleCache) : Prop :=
  bundle_bytes s = map_sum cache_len (cached s) /\ bundle_bytes s <= max_bundle_bytes s <= U64_MAX /\
  Z.of_nat (size (cached s)) <= max_bundles s <= U64_MAX.

Definition same_bundle_limits (s s' : BundleCache) : Prop :=
  max_bundle_bytes s' = max_bundle_bytes s /\ max_bundles s' = max_bundles s.

(** What the cache holds, access times apart. *)
Definition residents (s : BundleCache) : gmap string (list Ascii.ascii * nat) :=
  (fun b => (cb_bytes b, cb_holders b)) <$> cached s.

#[global] Arguments residents : simpl never.

Lemma residents_lookup s d : residents s !! d = (fun b => (cb_bytes b, cb_holders b)) <$> cached s !! d.
Proof. apply lookup_fmap. Qed.

Lemma cache_sum_nonneg (m : gmap string CachedBundle) : 0 <= map_sum cache_len m.
Proof. apply map_sum_nonneg. intros ???. apply len_nonneg. Qed.

Lemma touch_ok digest b access holders s :
  cached s !! digest = Some b -> bundle_ok s ->
  bundle_ok (set_cached (<[digest := touch access holders b]> (cached s)) (bundle_bytes s) s).
Proof.
  intros E (Hs & Hb & He). split_and!; cbn; [|lia|lia| |lia].
  - rewrite (map_sum_insert_over _ _ _ _ _ E). change (cache_len (touch access holders b)) with (cache_len b). lia.
  - rewrite map_size_insert_Some by eauto. lia.
Qed.

Lemma touch_residents digest b access holders s :
  residents (set_cached (<[digest := touch access holders b]> (cached s)) (bundle_bytes s) s)
  = <[digest := (cb_bytes b, holders)]> (residents s).
Proof. unfold residents. cbn. by rewrite fmap_insert. Qed.

(** A lookup adds a holder, a release takes one away; neither changes the accounting. *)
Lemma bundle_get_spec digest s :
  bundle_ok s ->
  let '(r, s') := bundle_get digest s in
  bundle_ok s' /\ same_bundle_limits s s' /\ bundle_bytes s' = bundle_bytes s /\ r = fst <$> residents s !! digest /\
  residents s' = match residents s !! digest with
                 | Some (bytes, n) => <[digest := (bytes, S n)]> (residents s)
                 | None => residents s
                 end.
Proof.
  intros Hok. unfold bundle_get. rewrite residents_lookup. cbn. destruct (cached s !! digest) as [b|] eqn:E; cbn; [|done].
  set (s1 := set_bundle_clock (next_clock (bundle_clock s)) s).
  split_and!; [by apply (touch_ok digest b _ _ s1) | done.. | apply (touch_residents digest b _ _ s1)].
Qed.

Lemma bundle_release_spec digest s :
  bundle_ok s ->
  bundle_ok (bundle_release digest s) /\ same_bundle_limits s (bundle_release digest s) /\
  bundle_bytes (bundle_release digest s) = bundle_bytes s /\
  residents (bundle_release digest s) = alter (fun x => (x.1, pred x.2)) digest (residents s).
Proof.
  intros Hok. unfold bundle_release. destruct (cached s !! digest) as [b|] eqn:E.
  - split_and!; [by apply touch_ok|done..|]. rewrite touch_residents.
    apply map_eq. intros d. destruct (decide (d = digest)) as [->|].
    + by rewrite lookup_insert_eq, lookup_alter_eq, residents_lookup, E.
    + by rewrite lookup_insert_ne, lookup_alter_ne.
  - split_and!; [done..|]. apply map_eq. intros d. destruct (decide (d = digest)) as [->|].
    + by rewrite lookup_alter_eq, residents_lookup, E.
    + by rewrite lookup_alter_ne.
Qed.

Definition room_for (s : BundleCache) (ab ae : Z) : bool :=
  fits (bundle_bytes s) ab (max_bundle_bytes s) && fits (Z.of_nat (size (cached s))) ae (max_bundles s).

(** The eviction loop ends within its fuel and drops neither a protected nor a held buffer. *)
Lemma evict_idle_ends fuel ab ae prot s :
  bundle_ok s -> (size (cached s) < fuel)%nat ->
  exists r s', evict_idle fuel ab ae prot s = (r, s') /\ bundle_ok s' /\ cached s' ⊆ cached s /\ same_bundle_limits s s' /\
    bundle_bytes s' <= bundle_bytes s /\
    (forall d b, cached s !! d = Some b -> d ∈ prot \/ cb_holders b <> 0%nat -> cached s' !! d = Some b) /\
    (r = Ok (Some tt) /\ room_for s' ab ae = true \/
     (exists e, r = Err e) /\ room_for s' ab ae = false /\
     forall d b, cached s' !! d = Some b -> d ∈ prot \/ cb_holders b <> 0%nat).
Proof.
  revert s. induction fuel as [|fuel IH]; intros s Hok Hf; [lia|]. cbn [evict_idle]. fold (room_for s ab ae).
  destruct (room_for s ab ae) eqn:Eroom; [eexists _, s; split_and!; [done..|by left]|].
  pose proof (candidate_spec cb_last_access (evictable prot) (cached s)) as Hc.
  destruct (min_by_key _ _) as [[d b]|].
  - destruct Hc as [E Hev]. unfold evictable in Hev; cbn in Hev.
    apply andb_true_iff in Hev as [Hp%negb_true_iff%bool_decide_eq_false Hh%Nat.eqb_eq].
    pose proof (map_sum_delete cache_len _ _ _ E) as Hd. pose proof (cache_sum_nonneg (delete d (cached s))).
    assert (Hs : size (delete d (cached s)) = pred (size (cached s))) by (apply map_size_delete_Some; eauto).
    assert (0 < size (cached s))%nat.
    { destruct (size (cached s)) eqn:Es; [|lia]. apply map_size_empty_inv in Es. by rewrite Es in E. }
    pose proof (len_nonneg (cb_bytes b)). unfold cache_len in Hd at 2. pose proof Hok as (Hb1 & Hb2 & Hb3).
    edestruct (IH (set_cached (delete d (cached s)) (saturating_sub (bundle_bytes s) (len (cb_bytes b))) s))
      as (r & s' & Hrun & Hok' & Hsub & Hl & Hle & Hkeep & Hr).
    + unfold bundle_ok, saturating_sub; cbn. lia.
    + cbn. lia.
    + exists r, s'. split_and!; [done|done| |done| | |done].
      * etrans; [done | apply delete_subseteq].
      * unfold saturating_sub in Hle; cbn in Hle. lia.
      * intros d' b' E' Hor. apply Hkeep; [|done]. cbn. apply lookup_delete_Some.
        split; [|done]. intros <-. simplify_eq. naive_solver.
  - eexists _, s. split_and!; [done..|right]. split_and!; [by eexists|done|]. intros d b E. apply Hc in E.
    unfold evictable in E; cbn in E. apply andb_false_iff in E as [E%negb_false_iff%bool_decide_eq_true|E%Nat.eqb_neq]; auto.
Qed.

Lemma evict_idle_to_fit_spec ab ae prot s :
  bundle_ok s ->
  exists r s', evict_idle_to_fit ab ae prot s = (r, s') /\ bundle_ok s' /\ cached s' ⊆ cached s /\ same_bundle_limits s s' /\
    bundle_bytes s' <= bundle_bytes s /\
    (forall d b, cached s !! d = Some b -> d ∈ prot \/ cb_holders b <> 0%nat -> cached s' !! d = Some b) /\
    (r = Ok tt -> bundle_bytes s' + ab <= max_bundle_bytes s' /\ Z.of_nat (size (cached s')) + ae <= max_bundles s').
Proof.
  intros Hok. unfold evict_idle_to_fit.
  destruct (evict_idle_ends (S (size (cached s))) ab ae prot s Hok) as (r & s' & -> & Hok' & Hsub & Hl & Hle & Hkeep & Hr); [lia|].
  destruct Hr as [[-> [[??]%fits_true [??]%fits_true]%andb_true_iff] | ([e ->] & _)]; eexists _, s'; by split_and!.
Qed.

(** With room for the addition, nothing is evicted. *)
Lemma evict_idle_to_fit_room ab ae prot s : room_for s ab ae = true -> evict_idle_to_fit ab ae prot s = (Ok tt, s).
Proof. intros H. unfold evict_idle_to_fit. cbn [evict_idle]. fold (room_for s ab ae). by rewrite H. Qed.

(** ** Installing the bundles of a preparation *)
Definition sum_lens (fetched : gmap string (list Ascii.ascii)) (l : list string) : Z :=
  foldr (fun d acc => len (default [] (fetched !! d)) + acc) 0 l.
Definition missing_of (s : BundleCache) (l : list string) : list string :=
  List.filter (fun digest => negb (bool_decide (is_Some (cached s !! digest)))) l.

Lemma sum_lens_cons fetched d l : sum_lens fetched (d :: l) = len (default [] (fetched !! d)) + sum_lens fetched l.
Proof. done. Qed.

Lemma sum_lens_nonneg fetched l : 0 <= sum_lens fetched l.
Proof. induction l as [|d l IH]; [done|]. rewrite sum_lens_cons. pose proof (len_nonneg (default [] (fetched !! d))). lia. Qed.

Lemma missing_bytes_spec fetched l limit :
  missing_bytes fetched l limit
  = if sum_lens fetched l <=? U64_MAX then Ok (sum_lens fetched l) else Err (bundle_cache_capacity_error limit).
Proof.
  unfold missing_bytes. set (step := fun total digest => _).
  assert (Herr : forall l e, foldl step (Err e) l = Err e) by (clear; intros l; induction l; cbn; auto).
  assert (H : forall l acc, 0 <= acc <= U64_MAX -> foldl step (Ok acc) l
    = if acc + sum_lens fetched l <=? U64_MAX then Ok (acc + sum_lens fetched l) else Err (bundle_cache_capacity_error limit)).
  { clear l. induction l as [|d l IH]; intros acc Ha; cbn [foldl].
    - cbn [sum_lens foldr]. rewrite Z.add_0_r. by destruct (Z.leb_spec acc U64_MAX); [|lia].
    - rewrite sum_lens_cons. pose proof (len_nonneg (default [] (fetched !! d))). pose proof (sum_lens_nonneg fetched l).
      unfold step at 2. cbn. unfold checked_add. destruct (Z.leb_spec (acc + len (default [] (fetched !! d))) U64_MAX); cbn.
      + rewrite IH by lia. by rewrite <- Z.add_assoc.
      + rewrite Herr. by destruct (Z.leb_spec (acc + (len (default [] (fetched !! d)) + sum_lens fetched l)) U64_MAX); [lia|]. }
  rewrite H by (unfold U64_MAX; lia). done.
Qed.

Lemma bundle_insert_spec d bytes s :
  cached s !! d = None -> bundle_ok s -> bundle_bytes s + len bytes <= max_bundle_bytes s ->
  Z.of_nat (size (cached s)) + 1 <= max_bundles s ->
  let s' := bundle_insert d bytes s in
  bundle_ok s' /\ same_bundle_limits s s' /\ bundle_bytes s' = bundle_bytes s + len bytes /\
  size (cached s') = S (size (cached s)) /\ residents s' = <[d := (bytes, 0%nat)]> (residents s).
Proof.
  intros E (Hs & Hb & He) H1 H2 s'. unfold s', bundle_ok, same_bundle_limits, bundle_insert; cbn.
  rewrite map_sum_insert_new, map_size_insert_None by done. unfold cache_len at 1; cbn. pose proof (len_nonneg bytes).
  split_and!; try done; try lia. unfold residents; cbn. by rewrite fmap_insert.
Qed.

(** A lookup whose clone is dropped at once leaves the residents alone. *)
Lemma touch_twice_spec d s :
  bundle_ok s ->
  let s' := bundle_release d (bundle_get d s).2 in
  bundle_ok s' /\ same_bundle_limits s s' /\ bundle_bytes s' = bundle_bytes s /\ residents s' = residents s.
Proof.
  intros Hok. pose proof (bundle_get_spec d s Hok) as Hg. destruct (bundle_get d s) as [r s1] eqn:Eg.
  destruct Hg as (Hok1 & [L1 L2] & Hb1 & _ & Hr1).
  destruct (bundle_release_spec d s1 Hok1) as (Hok2 & [L3 L4] & Hb2 & Hr2). cbn.
  split_and!; [done | split; congruence | congruence |]. rewrite Hr2, Hr1.
  destruct (residents s !! d) as [[b n]|] eqn:E.
  - rewrite alter_insert_eq. cbn. by apply insert_id.
  - by apply map_eq; intros d'; destruct (decide (d = d')) as [<-|]; [rewrite lookup_alter_eq, E | rewrite lookup_alter_ne].
Qed.

Lemma residents_size s : size (residents s) = size (cached s).
Proof. apply map_size_fmap. Qed.

Lemma residents_Some s d : is_Some (cached s !! d) <-> is_Some (residents s !! d).
Proof. by rewrite residents_lookup, fmap_is_Some. Qed.

Lemma missing_of_cons s d l :
  missing_of s (d :: l) = match residents s !! d with Some _ => missing_of s l | None => d :: missing_of s l end.
Proof. unfold missing_of; cbn. rewrite residents_lookup. by destruct (cached s !! d). Qed.

Lemma missing_of_ext s s' l :
  (forall d, d ∈ l -> is_Some (residents s' !! d) <-> is_Some (residents s !! d)) -> missing_of s' l = missing_of s l.
Proof.
  induction l as [|d l IH]; intros H; [done|]. rewrite !missing_of_cons, IH by (intros; apply H; set_solver).
  assert (Hd : is_Some (residents s' !! d) <-> is_Some (residents s !! d)) by (apply H; set_solver).
  destruct (residents s' !! d), (residents s !! d); [done| | |done]; exfalso.
  - by apply (is_Some_None (A := list Ascii.ascii * nat)), Hd.
  - by apply (is_Some_None (A := list Ascii.ascii * nat)), Hd.
Qed.

Lemma install_bundles_spec fetched l s :
  NoDup l -> bundle_ok s ->
  bundle_bytes s + sum_lens fetched (missing_of s l) <= max_bundle_bytes s ->
  Z.of_nat (size (cached s)) + len (missing_of s l) <= max_bundles s ->
  let s' := install_bundles fetched l s in
  bundle_ok s' /\ same_bundle_limits s s' /\ bundle_bytes s' = bundle_bytes s + sum_lens fetched (missing_of s l) /\
  Z.of_nat (size (cached s')) = Z.of_nat (size (cached s)) + len (missing_of s l) /\
  forall d, residents s' !! d = match residents s !! d with
    | Some x => Some x
    | None => if decide (d ∈ l) then Some (default [] (fetched !! d), 0%nat) else None
    end.
Proof.
  intros Hnd. revert s. induction Hnd as [|d l Hd Hnd IH]; intros s Hok H1 H2.
  { cbn in *. split_and!; [done|done|lia|unfold len; cbn; lia|]. intros d. by destruct (residents s !! d). }
  unfold install_bundles. cbn [foldl]. change (foldl _ ?x l) with (install_bundles fetched l x).
  set (bytes := default [] (fetched !! d)) in *.
  set (s1 := match cached s !! d with Some _ => s | None => bundle_insert d bytes s end).
  assert (Hs1 : bundle_ok s1 /\ same_bundle_limits s s1 /\
    bundle_bytes s1 + sum_lens fetched (missing_of s l) = bundle_bytes s + sum_lens fetched (missing_of s (d :: l)) /\
    Z.of_nat (size (cached s1)) + len (missing_of s l) = Z.of_nat (size (cached s)) + len (missing_of s (d :: l)) /\
    residents s1 = match residents s !! d with Some _ => residents s | None => <[d := (bytes, 0%nat)]> (residents s) end).
  { unfold s1. rewrite missing_of_cons, residents_lookup in *. destruct (cached s !! d) as [b|] eqn:E; cbn [fmap option_fmap option_map] in *.
    - by split_and!.
    - rewrite sum_lens_cons in *. fold bytes in H1. unfold len in H2; cbn [length] in H2.
      pose proof (sum_lens_nonneg fetched (missing_of s l)).
      destruct (bundle_insert_spec d bytes s E Hok) as (Hok1 & Hl1 & Hb1 & Hz1 & Hr1); [lia..|].
      split_and!; [done|done| | |done]; [rewrite Hb1; fold bytes; lia | rewrite Hz1; unfold len; cbn [length]; lia]. }
  clearbody s1. destruct Hs1 as (Hok1 & [L1 L2] & Hb1 & Hz1 & Hr1).
  destruct (touch_twice_spec d s1 Hok1) as (Hok2 & [L3 L4] & Hb2 & Hr2).
  set (s2 := bundle_release d (bundle_get d s1).2) in *. clearbody s2.
  assert (Hz2 : size (cached s2) = size (cached s1)) by (by rewrite <- !residents_size, Hr2).
  assert (Hm : missing_of s2 l = missing_of s l).
  { apply missing_of_ext. intros d' Hd'. rewrite Hr2, Hr1. destruct (residents s !! d); [done|].
    rewrite lookup_insert_ne; [done|]. set_solver. }
  destruct (IH s2 Hok2) as (Hok3 & [L5 L6] & Hb3 & Hz3 & Hr3); [rewrite Hm; lia..|].
  rewrite Hm in *. split_and!; [done | split; congruence | lia | lia |].
  intros d'. rewrite Hr3, Hr2, Hr1. destruct (decide (d = d')) as [<-|Hne].
  - destruct (residents s !! d) as [x|] eqn:E; [by rewrite E|]. rewrite lookup_insert_eq, decide_True; [done|set_solver].
  - destruct (residents s !! d) as [x|] eqn:E; [|rewrite lookup_insert_ne by done];
      (destruct (residents s !! d'); [done|]); (destruct (decide (d' ∈ l)); [rewrite decide_True|rewrite decide_False]); set_solver.
Qed.

(** ** Installing a preparation *)
Definition cache_ok (c : PreparationCache) : Prop := store_ok (store c) /\ bundle_ok (bundles c).

Lemma insert_session_roots sid p s :
  sessions s !! sid = None -> roots_exact s ->
  roots_exact (set_root_sessions (<[root_of p := {[sid]} ∪ default ∅ (root_sessions s !! root_of p)]> (root_sessions s))
                 (set_sessions (<[sid := p]> (sessions s)) (preparation_bytes s + p_metadata_bytes p) s)).
Proof.
  intros E [Hne Hex]. split; cbn.
  - intros r ids. rewrite lookup_insert_Some. intros [[_ <-]|[_ H]]; [set_solver | by eapply Hne].
  - intros r sid'. destruct (decide (r = root_of p)) as [->|Hr].
    + rewrite lookup_insert_eq. cbn. rewrite elem_of_union, elem_of_singleton, Hex. setoid_rewrite lookup_insert_Some. naive_solver.
    + rewrite lookup_insert_ne by done. rewrite Hex. setoid_rewrite lookup_insert_Some. naive_solver.
Qed.

(** With room made, recording a preparation cannot fail. *)
Lemma put_preparation_spec sid request digest metadata s :
  store_ok s -> 0 <= metadata ->
  preparation_bytes s + saturating_sub metadata (match sessions s !! sid with Some p => p_metadata_bytes p | None => 0 end)
    <= max_preparation_bytes s ->
  Z.of_nat (size (sessions s)) + match sessions s !! sid with Some _ => 0 | None => 1 end <= max_preparations s ->
  exists s' access, put_preparation sid (pr_root_id request) request digest metadata s = (Ok tt, s') /\ store_ok s' /\
    same_limits s s' /\ sessions s' = <[sid := mkPreparation request digest metadata access]> (sessions s).
Proof.
  intros Hok Hm H1 H2. unfold put_preparation. rewrite M_bind_run. cbn [modify].
  set (s1 := match sessions s !! sid with Some _ => (remove_session sid s).2 | None => s end).
  assert (Hs1 : store_ok s1 /\ same_limits s s1 /\ sessions s1 = delete sid (sessions s) /\
    preparation_bytes s1 + metadata <= max_preparation_bytes s /\ Z.of_nat (size (sessions s1)) + 1 <= max_preparations s).
  { pose proof Hok as (Hpos & Hsum & Hb & _). unfold s1. destruct (sessions s !! sid) as [p|] eqn:E.
    - pose proof (remove_session_ok sid s Hok) as Hok1. pose proof (remove_session_limits sid s) as Hl.
      pose proof (remove_session_sessions sid s) as Hd. pose proof Hok1 as (_ & Hsum1 & _). rewrite Hsum1, Hd.
      pose proof (map_sum_delete p_metadata_bytes _ _ _ E).
      assert (size (delete sid (sessions s)) = pred (size (sessions s))) by (apply map_size_delete_Some; eauto).
      assert (size (sessions s) <> 0%nat) by (intros Hz%map_size_empty_inv; by rewrite Hz in E).
      unfold saturating_sub in H1. pose proof (Hpos _ _ E). split_and!; [done|done|done|lia|lia].
    - unfold saturating_sub in H1. rewrite delete_id by done. split_and!; [done|done|done|lia|lia]. }
  clearbody s1. destruct Hs1 as (Hok1 & [L1 L2] & Hd & Hb1 & Hz1).
  pose proof Hok1 as (Hpos1 & Hsum1 & Hb & Hz & Hr1).
  rewrite M_bind_run, get_run. cbn. rewrite (proj2 (checked_add_Some _ _ (preparation_bytes s1 + metadata))) by lia. cbn.
  set (p := mkPreparation request digest metadata (next_access (store_clock s1))).
  assert (E1 : sessions s1 !! sid = None) by (by rewrite Hd, lookup_delete_eq).
  eexists _, _. split; [reflexivity|]. refine (conj _ (conj (conj L1 L2) _)); [|by cbn; rewrite Hd, insert_delete_eq].
  refine (conj _ (conj _ (conj _ (conj _ _)))); cbn.
  - intros sid' p'. rewrite lookup_insert_Some. intros [[_ <-]|[_ H]]; [done | eauto].
  - rewrite map_sum_insert_new by done. cbn. lia.
  - lia.
  - rewrite map_size_insert_None by done. lia.
  - apply (insert_session_roots sid p s1 E1 Hr1).
Qed.

Section install_facts.
Context (MAX_MODEL_TOOLS : Z) (jcs_request : PrepareSessionRequest -> option (list Ascii.ascii)).
Implicit Types (request : PrepareSessionRequest) (fetched : gmap string (list Ascii.ascii)) (c : PreparationCache).

(** Everything that is checked before the caches change. *)
Definition install_checks request digest fetched c : result AwsError (gset string * Z) :=
  let required_or := required_bundle_digests MAX_MODEL_TOOLS request in
  _ ← sealed_as request digest (sessions (store c) !! pr_session_id request);
  required ← required_or;
  _ ← ensure (forallb (fun d => bool_decide (d ∈ required)) (elements (dom fetched))) invalid;
  _ ← ensure (forallb (fun d => bool_decide (is_Some (fetched !! d)) || bool_decide (is_Some (cached (bundles c) !! d)))
        (elements required)) (error CapabilityUnavailable false);
  encoded ← ok_or invalid (jcs_request request);
  _ ← ensure (negb ((max_preparation_bytes (store c) <? len encoded) || (max_preparations (store c) =? 0)))
        (preparation_cache_capacity_error (max_preparation_bytes (store c)));
  Ok (required, len encoded).

(** The changes, once everything is checked. *)
Definition install_changes request digest fetched (required : gset string) (metadata : Z) c : Cache unit :=
  let session_id := pr_session_id request in
  let old := sessions (store c) !! session_id in
  let prior := match old with Some p => p_metadata_bytes p | None => 0 end in
  let missing := missing_of (bundles c) (elements required) in
  _ ← on_store (evict_preparations_to_fit (saturating_sub metadata prior) (match old with Some _ => 0 | None => 1 end) session_id);
  additional_bytes ← lift (missing_bytes fetched missing (max_bundle_bytes (bundles c)));
  _ ← on_bundles (evict_idle_to_fit additional_bytes (len missing) required);
  _ ← on_bundles (modify (install_bundles fetched (elements required)));
  on_store (put_preparation session_id (pr_root_id request) request digest metadata).

Lemma cache_install_eq request digest fetched c :
  cache_install MAX_MODEL_TOOLS jcs_request request digest fetched c
  = match install_checks request digest fetched c with
    | Ok (required, metadata) => install_changes request digest fetched required metadata c c
    | Err e => (Err e, c)
    end.
Proof.
  unfold cache_install, install_checks. rewrite M_bind_run, get_run, M_bind_run, lift_run.
  destruct (sealed_as _ _ _); [|done]. cbn [mbind result_bind]. rewrite M_bind_run, lift_run.
  destruct (required_bundle_digests _ _) as [required|]; [|done]. cbn [mbind result_bind]. rewrite M_bind_run, lift_run.
  destruct (ensure _ _); [|done]. cbn [mbind result_bind]. rewrite M_bind_run, lift_run.
  destruct (ensure _ _); [|done]. cbn [mbind result_bind]. rewrite M_bind_run, lift_run.
  destruct (ok_or _ _) as [encoded|]; [|done]. cbn [mbind result_bind]. by destruct (_ || _).
Qed.

Lemma residents_mono s s' : cached s' ⊆ cached s -> residents s' ⊆ residents s.
Proof. apply map_fmap_mono. Qed.

Lemma cached_size_mono s s' : residents s' ⊆ residents s -> Z.of_nat (size (cached s')) <= Z.of_nat (size (cached s)).
Proof. rewrite <- !residents_size. intros H. apply map_subseteq_size in H. lia. Qed.

(** What the bundle half of an installation leaves behind. *)
Definition bundles_installed (fetched : gmap string (list Ascii.ascii)) (required : gset string) (r : result AwsError unit)
    (s s' : BundleCache) : Prop :=
  let missing := missing_of s (elements required) in
  same_bundle_limits s s' /\
  (forall d x, residents s !! d = Some x -> x.2 <> 0%nat \/ d ∈ required -> residents s' !! d = Some x) /\
  bundle_bytes s' <= bundle_bytes s + (if is_ok r then sum_lens fetched missing else 0) /\
  Z.of_nat (size (cached s')) <= Z.of_nat (size (cached s)) + (if is_ok r then len missing else 0) /\
  (forall d x, residents s' !! d = Some x ->
     residents s !! d = Some x \/ (is_ok r = true /\ d ∈ required /\ residents s !! d = None /\ x = (default [] (fetched !! d), 0%nat))) /\
  (is_ok r = true -> forall d, d ∈ required -> is_Some (residents s' !! d)).

Lemma bundles_evicted fetched required e s s' :
  same_bundle_limits s s' -> bundle_bytes s' <= bundle_bytes s -> cached s' ⊆ cached s ->
  (forall d b, cached s !! d = Some b -> d ∈ required \/ cb_holders b <> 0%nat -> cached s' !! d = Some b) ->
  bundles_installed fetched required (Err e) s s'.
Proof.
  intros Hl Hb Hsub%residents_mono Hkeep. pose proof (cached_size_mono _ _ Hsub). split_and!; cbn; try lia; try apply Hl.
  - intros d x. rewrite !residents_lookup, fmap_Some. intros (b & E & ->) Hor. by rewrite (Hkeep d b) by naive_solver.
  - intros d x E. left. by eapply lookup_weaken.
Qed.

(** The bundle half: make room, then insert what is missing. *)
Lemma install_bundle_half fetched required s :
  bundle_ok s ->
  let missing := missing_of s (elements required) in
  let m : M BundleCache AwsError unit :=
    (additional_bytes ← lift (missing_bytes fetched missing (max_bundle_bytes s));
     _ ← evict_idle_to_fit additional_bytes (len missing) required;
     modify (install_bundles fetched (elements required))) in
  exists r s', m s = (r, s') /\ bundle_ok s' /\ bundles_installed fetched required r s s' /\
    (room_for s (sum_lens fetched missing) (len missing) = true -> r = Ok tt).
Proof.
  intros Hok missing m. unfold m. rewrite M_bind_run, lift_run, missing_bytes_spec.
  destruct (Z.leb_spec (sum_lens fetched missing) U64_MAX) as [Hfit|Hfit].
  2: { eexists _, s. split; [reflexivity|]. split_and!; [done..| |].
       - by apply bundles_evicted; [done|lia|done|].
       - intros [[??]%fits_true _]%andb_true_iff. pose proof (cache_sum_nonneg (cached s)). destruct Hok as [Hs _]. lia. }
  rewrite M_bind_run.
  destruct (evict_idle_to_fit_spec (sum_lens fetched missing) (len missing) required s Hok)
    as (r & s1 & Hrun & Hok1 & Hsub & [L1 L2] & Hle & Hkeep & Hroom).
  pose proof (evict_idle_to_fit_room (sum_lens fetched missing) (len missing) required s) as Hsame.
  rewrite Hrun in Hsame |- *. destruct r as [[]|e].
  2: { eexists _, s1. split; [reflexivity|]. split_and!; [done|by apply bundles_evicted|]. by intros ?%Hsame. }
  destruct (Hroom eq_refl) as [H1 H2].
  assert (Hkeep' : forall d x, residents s !! d = Some x -> x.2 <> 0%nat \/ d ∈ required -> residents s1 !! d = Some x).
  { intros d x. rewrite !residents_lookup, fmap_Some. intros (b & E & ->) Hor. by rewrite (Hkeep d b) by naive_solver. }
  assert (Hm : missing_of s1 (elements required) = missing).
  { apply missing_of_ext. intros d Hd%elem_of_elements. split; intros [x E]; [|by exists x; apply Hkeep'; auto].
    exists x. eapply lookup_weaken; [done|]. by apply residents_mono. }
  destruct (install_bundles_spec fetched (elements required) s1 (NoDup_elements required) Hok1) as (Hok2 & [L3 L4] & Hb2 & Hz2 & Hr2);
    [rewrite Hm; lia..|]. rewrite Hm in *.
  eexists _, _. split; [reflexivity|]. split; [done|]. split; [|done].
  pose proof (cached_size_mono _ _ (residents_mono _ _ Hsub)).
  refine (conj (conj _ _) (conj _ (conj _ (conj _ (conj _ _))))); cbn [is_ok]; fold missing; [congruence|congruence| |lia|lia| |].
  - intros d x E Hor. rewrite Hr2. by rewrite (Hkeep' d x E Hor).
  - intros d x. rewrite Hr2. destruct (residents s1 !! d) as [y|] eqn:E.
    + intros [= <-]. left. eapply lookup_weaken; [done|]. by apply residents_mono.
    + case_decide as Hd; [|done]. apply elem_of_elements in Hd. intros [= <-]. right. split_and!; try done.
      destruct (residents s !! d) as [y|] eqn:E'; [|done]. rewrite (Hkeep' d y) in E by auto. done.
  - intros _ d Hd. rewrite Hr2, decide_True by (by apply elem_of_elements). by destruct (residents s1 !! d); eexists.
Qed.

(** The bundle half runs on the bundle cache alone. *)
Lemma on_bundles_half {A B} (r : result AwsError A) (e : A -> M BundleCache AwsError unit) (f : M BundleCache AwsError unit)
    (rest : Cache B) c :
  (a ← lift r; _ ← on_bundles (e a); _ ← on_bundles f; rest) c
  = let '(r', b) := (a ← lift r; _ ← e a; f : M BundleCache AwsError unit) (bundles c) in
    match r' with Ok _ => rest (mkPreparationCache (store c) b) | Err err => (Err err, mkPreparationCache (store c) b) end.
Proof.
  destruct c as [st b]. rewrite !M_bind_run, !lift_run. destruct r as [a|err]; [|done]. rewrite !M_bind_run.
  unfold on_bundles at 1; cbn. destruct (e a b) as [[[]|err] b1]; [|done]. rewrite M_bind_run. unfold on_bundles; cbn.
  by destruct (f b1) as [[[]|err] b2].
Qed.

Definition cache_limits (c c' : PreparationCache) : Prop := same_limits (store c) (store c').

(** The sessions an installation leaves: at most what was there, and the new one when it succeeded. *)
Definition session_installed request digest metadata (r : result AwsError unit) (s s' : PreparationStore) : Prop :=
  same_limits s s' /\
  match r with
  | Ok _ => exists access, sessions s' !! pr_session_id request = Some (mkPreparation request digest metadata access) /\
      (forall sid p, sid <> pr_session_id request -> sessions s' !! sid = Some p -> sessions s !! sid = Some p)
  | Err _ => sessions s' ⊆ sessions s
  end.

Lemma install_changes_spec request digest fetched required metadata c :
  cache_ok c -> 0 <= metadata <= max_preparation_bytes (store c) -> max_preparations (store c) <> 0 ->
  let missing := missing_of (bundles c) (elements required) in
  exists r c', install_changes request digest fetched required metadata c c = (r, c') /\ cache_ok c' /\
    bundles_installed fetched required r (bundles c) (bundles c') /\
    session_installed request digest metadata r (store c) (store c') /\
    (room_for (bundles c) (sum_lens fetched missing) (len missing) = true -> r = Ok tt).
Proof.
  intros [Hst Hb] Hm Hz missing. unfold install_changes. rewrite M_bind_run. unfold on_store at 1.
  destruct (evict_preparations_makes_room (pr_session_id request) metadata (store c) Hst Hm Hz)
    as (s1 & -> & Hst1 & Hsub & Hsid & Hl1 & Hb1 & Hz1). cbn beta iota. rewrite on_bundles_half. cbn [bundles store].
  destruct (install_bundle_half fetched required (bundles c) Hb) as (r & b1 & -> & Hbok & Hbi & Hroom).
  destruct r as [[]|e].
  2: { eexists _, _. split; [reflexivity|]. split_and!; [done..|]. done. }
  unfold on_store. cbn [store].
  destruct (put_preparation_spec (pr_session_id request) request digest metadata s1 Hst1) as (s2 & access & -> & Hst2 & Hl2 & Hs2);
    [lia | rewrite Hsid; lia | rewrite Hsid; lia |].
  eexists _, _. split; [reflexivity|]. cbn [store bundles].
  refine (conj (conj Hst2 Hbok) (conj Hbi (conj (conj _ _) Hroom))).
  - unfold same_limits in *. intuition congruence.
  - exists access. rewrite Hs2, lookup_insert_eq. split; [done|]. intros sid p Hne. rewrite lookup_insert_ne by done.
    intros E. by eapply lookup_weaken.
Qed.

(** *** Installation as a whole: the caches keep their accounting, held and required buffers survive, and the
    result tells whether the preparation was recorded *)
Lemma cache_install_spec request digest fetched c :
  cache_ok c ->
  exists r c', cache_install MAX_MODEL_TOOLS jcs_request request digest fetched c = (r, c') /\ cache_ok c' /\
    match install_checks request digest fetched c with
    | Err e => r = Err e /\ c' = c
    | Ok (required, metadata) =>
        required_bundle_digests MAX_MODEL_TOOLS request = Ok required /\
        bundles_installed fetched required r (bundles c) (bundles c') /\
        session_installed request digest metadata r (store c) (store c') /\
        (room_for (bundles c) (sum_lens fetched (missing_of (bundles c) (elements required)))
           (len (missing_of (bundles c) (elements required))) = true -> r = Ok tt)
    end.
Proof.
  intros Hok. rewrite cache_install_eq. destruct (install_checks _ _ _ _) as [[required metadata]|e] eqn:E.
  2: { eexists _, _. split; [reflexivity|]. done. }
  unfold install_checks in E. repeat (apply result_bind_Ok in E as (? & ? & E)). simplify_eq.
  match goal with H : ensure (negb _) _ = Ok _ |- _ => destruct x4; apply ensure_Ok, negb_true_iff, orb_false_iff in H as [Hm Hz] end.
  apply Z.ltb_ge in Hm. apply Z.eqb_neq in Hz.
  destruct (install_changes_spec request digest fetched required (len x3) c Hok (conj (len_nonneg x3) Hm) Hz)
    as (r & c' & -> & Hok' & G1 & G2 & G3). eexists _, _. split; [reflexivity|]. done.
Qed.
End install_facts.

(** ** Lookups and purges of the preparation store *)
Lemma store_get_spec sid s :
  store_ok s ->
  let '(r, s') := store_get sid s in
  store_ok s' /\ same_limits s s' /\ r = sessions s !! sid /\
  forall sid', p_request <$> sessions s' !! sid' = p_request <$> sessions s !! sid'.
Proof.
  intros Hok. unfold store_get. cbn. destruct (sessions s !! sid) as [p|] eqn:E; [|done].
  destruct Hok as (Hpos & Hsum & Hb & Hz & Hne & Hex). refine (conj _ (conj (conj eq_refl eq_refl) (conj eq_refl _))).
  - refine (conj _ (conj _ (conj Hb (conj _ (conj Hne _))))); cbn.
    + intros sid' p'. rewrite lookup_insert_Some. intros [[_ <-]|[_ H]]; [cbn; eauto | eauto].
    + rewrite (map_sum_insert_over _ _ _ _ _ E); cbn. lia.
    + rewrite map_size_insert_Some by eauto. done.
    + intros r sid'. rewrite Hex. destruct (decide (sid = sid')) as [<-|]; [|by setoid_rewrite lookup_insert_ne].
      rewrite E. setoid_rewrite lookup_insert_eq. split; intros (q & [= <-] & <-); eexists; by split.
  - intros sid'. cbn. destruct (decide (sid = sid')) as [<-|]; [by rewrite lookup_insert_eq, E | by rewrite lookup_insert_ne].
Qed.

Definition root_ids (r : string) (s : PreparationStore) : gset string := default ∅ (root_sessions s !! r).

Lemma root_ids_elem r s sid : store_ok s -> sid ∈ root_ids r s <-> exists p, sessions s !! sid = Some p /\ root_of p = r.
Proof. intros (_ & _ & _ & _ & _ & Hex). apply Hex. Qed.

(** Removing some sessions of a root. *)
Lemma remove_many_spec r l s :
  store_ok s -> (forall sid, sid ∈ l -> sid ∈ root_ids r s) -> NoDup l ->
  let s' := foldl (fun s sid => (remove_session sid s).2) s l in
  store_ok s' /\ same_limits s s' /\ root_ids r s' = root_ids r s ∖ list_to_set l /\ sessions s' ⊆ sessions s /\
  forall sid, sid ∉ l -> sessions s' !! sid = sessions s !! sid.
Proof.
  revert s. induction l as [|sid l IH]; intros s Hok Hin Hnd; cbn [foldl].
  { refine (conj Hok (conj (conj eq_refl eq_refl) (conj _ (conj _ _)))); [cbn; set_solver|done|done]. }
  apply NoDup_cons in Hnd as [Hs Hnd]. pose proof (remove_session_ok sid s Hok) as Hok1.
  pose proof (remove_session_sessions sid s) as Hd. pose proof (remove_session_limits sid s) as [L1 L2].
  set (s1 := (remove_session sid s).2) in *. clearbody s1.
  assert (Hids : root_ids r s1 = root_ids r s ∖ {[sid]}).
  { apply set_eq. intros sid'. rewrite elem_of_difference, elem_of_singleton, !root_ids_elem, Hd by done.
    setoid_rewrite lookup_delete_Some. naive_solver. }
  destruct (IH s1 Hok1) as (Hok2 & [L3 L4] & Hi & Hsub & Hk); [set_solver|done|].
  refine (conj Hok2 (conj (conj _ _) (conj _ (conj _ _)))); [congruence|congruence|rewrite Hi, Hids; cbn; set_solver| |].
  { etrans; [done|]. rewrite Hd. apply delete_subseteq. }
  intros sid' [Hne Hn]%not_elem_of_cons. by rewrite Hk, Hd, lookup_delete_ne by done.
Qed.

(** A page removes up to its limit, never another root's session, and is complete exactly when none is left. *)
Lemma store_purge_root_page_spec r limit s :
  store_ok s ->
  let '(complete, s') := store_purge_root_page r limit s in
  store_ok s' /\ same_limits s s' /\ size (root_ids r s') = (size (root_ids r s) - limit)%nat /\
  (complete = true <-> root_ids r s' = ∅) /\ sessions s' ⊆ sessions s /\
  (forall sid p, sessions s !! sid = Some p -> root_of p <> r -> sessions s' !! sid = Some p).
Proof.
  intros Hok. unfold store_purge_root_page.
  set (l := match root_sessions s !! r with Some ids => take limit (elements ids) | None => [] end).
  assert (Hl : l = take limit (elements (root_ids r s))).
  { unfold l, root_ids. destruct (root_sessions s !! r); [done|]. cbn. by rewrite elements_empty, take_nil. }
  assert (Hin : forall sid, sid ∈ l -> sid ∈ root_ids r s).
  { intros sid Hs. rewrite Hl in Hs. apply elem_of_elements. by eapply subseteq_take, Hs. }
  assert (Hnd : NoDup l) by (rewrite Hl; exact (sublist_NoDup _ _ (NoDup_elements _) (sublist_take _ _))).
  destruct (remove_many_spec r l s Hok Hin Hnd) as (Hok1 & Hl1 & Hi & Hsub & Hk).
  set (s1 := foldl _ s l) in *. clearbody s1.
  assert (Hz : size (root_ids r s1) = (size (root_ids r s) - limit)%nat).
  { rewrite Hi, size_difference by set_solver. rewrite size_list_to_set by done. rewrite Hl, length_take. unfold size, set_size; cbn. lia. }
  set (complete := match root_sessions s1 !! r with Some ids => bool_decide (ids = ∅) | None => true end).
  assert (Hc : complete = true <-> root_ids r s1 = ∅).
  { unfold complete, root_ids. destruct (root_sessions s1 !! r); [apply bool_decide_eq_true | done]. }
  assert (Hd : complete = true -> root_sessions s1 !! r = None).
  { unfold complete. destruct Hok1 as (_ & _ & _ & _ & Hne & _).
    destruct (root_sessions s1 !! r) as [ids|] eqn:E; [|done]. intros ->%bool_decide_eq_true. by apply Hne in E. }
  assert (Hs : (if complete then set_root_sessions (delete r (root_sessions s1)) s1 else s1) = s1).
  { destruct complete; [|done]. rewrite delete_id by auto. by destruct s1. }
  rewrite Hs. refine (conj Hok1 (conj Hl1 (conj Hz (conj Hc (conj Hsub _))))).
  intros sid p E Hne. rewrite Hk; [done|]. intros (p' & E' & <-)%Hin%root_ids_elem; [|done]. by simplify_eq.
Qed.
