(* ===== verification/Transfer.v ===== *)
(** * hand-brain-aws: bounded object transfer

    Models crates/hand-brain-aws/src/transfer.rs: downloads and uploads against one-purpose authorities. The HTTP
    client, URL parsing, header grammar and SHA-256 are parameters; a response is the list of waits of its
    stream, each with the clock at its start, so the loop runs on the events the network delivered. Clock
    readings are arguments, in the order the code takes them; staging files fail or succeed as told. *)
From S2P Require Import Prelude Policy GuestErrors AwsErrors AwsSeals.

Inductive TransferMethod := MethodGet | MethodPut.

#[global] Instance TransferMethod_eq_dec : EqDecision TransferMethod.
Proof. solve_decision. Defined.

Record ObjectTransferAuthority := mkObjectTransferAuthority {
  ta_object_id : string; ta_method : TransferMethod; ta_expires_at_ms : Z; ta_max_bytes : Z; ta_url : string;
  ta_headers : list (string * string) }.
Record ObjectReference := mkObjectReference { obj_object_id : string; obj_bytes : Z; obj_sha256 : string }.

(** [so_content]: the bytes of the temporary file. *)
Record StagedObject := mkStagedObject { so_content : list Ascii.ascii; so_bytes : Z; so_sha256 : string }.

(** What is read of a parsed URL. *)
Record Url := mkUrl {
  url_scheme : string; url_username : string; url_password : option string; url_host : option string;
  url_fragment : option string; url_text : string }.

(** One wait for the stream: a chunk and whether it could be written, an error, the end, or the timeout, with
    the clock read then. *)
Inductive StreamEvent :=
  | NextChunk (chunk : list Ascii.ascii) (written : bool)
  | NextError
  | NextEnd
  | NextElapsed (now_ms : Z).
Record Response := mkResponse { rs_success : bool; rs_content_length : option Z; rs_stream : list (Z * StreamEvent) }.

Definition MAX_TRANSFER_WAIT_MS : Z := 15 * 60 * 1000.

(** Milliseconds. *)
Definition transfer_timeout (expires_at_ms now_ms : Z) : result AwsError Z :=
  let remaining := saturating_sub expires_at_ms now_ms in
  if remaining =? 0 then Err invalid else Ok (Z.min remaining MAX_TRANSFER_WAIT_MS).

Definition FORBIDDEN_HEADERS : list string :=
  ["host"; "content-length"; "connection"; "keep-alive"; "proxy-authenticate"; "proxy-authorization";
   "proxy-connection"; "te"; "trailer"; "transfer-encoding"; "upgrade"].

Section transfer.
Context (sha256_hex : list Ascii.ascii -> string) (MAX_TOOL_BUNDLE_BYTES : Z).
Context (parse_url : string -> option Url) (header_name header_value : string -> option string).

Definition validate_https_authority_url (value : string) : result AwsError Url :=
  url ← ok_or invalid (parse_url value);
  if negb (str_eqb (url_scheme url) "https") || negb (str_eqb (url_username url) "") || bool_decide (is_Some (url_password url))
     || bool_decide (url_host url = None) || bool_decide (is_Some (url_fragment url))
  then Err invalid else Ok url.

Fixpoint apply_authority_headers (headers : list (string * string)) : result AwsError (list (string * string)) :=
  match headers with
  | [] => Ok []
  | (name, value) :: headers =>
      name ← ok_or invalid (header_name name);
      if existsb (str_eqb name) FORBIDDEN_HEADERS then Err invalid
      else value ← ok_or invalid (header_value value); rest ← apply_authority_headers headers; Ok ((name, value) :: rest)
  end.

Definition validate_transfer_authority (authority : ObjectTransferAuthority) (method : TransferMethod) (required_bytes now_ms : Z)
    : result AwsError unit :=
  if negb (bool_decide (ta_method authority = method)) || (ta_expires_at_ms authority <=? now_ms)
     || (ta_max_bytes authority <? required_bytes) || (MAX_OBJECT_BYTES <? ta_max_bytes authority)
     || (MAX_OBJECT_BYTES <? required_bytes)
  then Err invalid
  else _ ← validate_https_authority_url (ta_url authority); Ok tt.

(** The request as sent, and the answer of the network. *)
Definition authorized_get (send : Url -> list (string * string) -> Z -> option Response) (url : string)
    (headers : list (string * string)) (expires_at_ms now_ms : Z) : result AwsError Response :=
  url ← validate_https_authority_url url;
  headers ← apply_authority_headers headers;
  timeout ← transfer_timeout expires_at_ms now_ms;
  response ← ok_or temporary_from (send url headers timeout);
  if negb (rs_success response) then Err temporary else Ok response.

(** [None]: the stream has delivered nothing more yet. *)
Fixpoint stage_loop (limit expires_at_ms : Z) (stream : list (Z * StreamEvent)) (content : list Ascii.ascii) (bytes : Z)
    : option (result AwsError (list Ascii.ascii * Z)) :=
  match stream with
  | [] => None
  | (now_ms, event) :: stream =>
      match transfer_timeout expires_at_ms now_ms with
      | Err e => Some (Err e)
      | Ok _ =>
          match event with
          | NextElapsed now_ms => Some (Err (if expires_at_ms <=? now_ms then invalid else temporary))
          | NextEnd => Some (Ok (content, bytes))
          | NextError => Some (Err temporary_from)
          | NextChunk chunk written =>
              let bytes := saturating_add bytes (len chunk) in
              if limit <? bytes then Some (Err (error ResourceExhausted false))
              else if negb written then Some (Err temporary_from)
              else stage_loop limit expires_at_ms stream (content ++ chunk) bytes
          end
      end
  end.

(** [staged]: the temporary file could be created and reopened; [synced]: flushed and synced. *)
Definition stage_response (staged synced : bool) (response : Response) (limit expires_at_ms : Z)
    : option (result AwsError StagedObject) :=
  if MAX_OBJECT_BYTES <? limit then Some (Err invalid)
  else if match rs_content_length response with Some bytes => limit <? bytes | None => false end
  then Some (Err (error ResourceExhausted false))
  else if negb staged then Some (Err temporary_from)
  else
    match stage_loop limit expires_at_ms (rs_stream response) [] 0 with
    | None => None
    | Some (Err e) => Some (Err e)
    | Some (Ok (content, bytes)) =>
        if negb synced then Some (Err temporary_from) else Some (Ok (mkStagedObject content bytes (sha256_hex content)))
    end.

(** The verified bytes are read back from the staging file; [readable]: that worked. *)
Definition fetch_bundle (send : Url -> list (string * string) -> Z -> option Response) (staged synced readable : bool)
    (fetch : BundleFetch) (now_ms send_ms : Z) : option (result AwsError (list Ascii.ascii)) :=
  if (bf_expires_at_ms fetch <=? now_ms) || (MAX_TOOL_BUNDLE_BYTES <? bf_max_bytes fetch) then Some (Err invalid)
  else
    match authorized_get send (bf_url fetch) (bf_headers fetch) (bf_expires_at_ms fetch) send_ms with
    | Err e => Some (Err e)
    | Ok response =>
        match stage_response staged synced response (bf_max_bytes fetch) (bf_expires_at_ms fetch) with
        | None => None
        | Some (Err e) => Some (Err e)
        | Some (Ok object) =>
            if negb readable then Some (Err temporary_from)
            else if negb (str_eqb (sha256_hex (so_content object)) (bf_bundle_digest fetch)) then Some (Err invalid)
            else Some (Ok (so_content object))
        end
    end.

Definition fetch_object (send : Url -> list (string * string) -> Z -> option Response) (staged synced : bool)
    (authority : ObjectTransferAuthority) (object : ObjectReference) (now_ms send_ms : Z)
    : option (result AwsError StagedObject) :=
  if negb (str_eqb (ta_object_id authority) (obj_object_id object)) then Some (Err invalid)
  else
    match validate_transfer_authority authority MethodGet (obj_bytes object) now_ms with
    | Err e => Some (Err e)
    | Ok _ =>
        match authorized_get send (ta_url authority) (ta_headers authority) (ta_expires_at_ms authority) send_ms with
        | Err e => Some (Err e)
        | Ok response =>
            match stage_response staged synced response (obj_bytes object) (ta_expires_at_ms authority) with
            | None => None
            | Some (Err e) => Some (Err e)
            | Some (Ok object') =>
                if negb (so_bytes object' =? obj_bytes object) || negb (str_eqb (so_sha256 object') (obj_sha256 object))
                then Some (Err invalid) else Some (Ok object')
            end
        end
    end.

(** The upload of a staged file: the request carries its length and at most one byte more of content. *)
Definition put_object (send : Url -> list (string * string) -> Z -> list Ascii.ascii -> Z -> option bool) (readable : bool)
    (authority : ObjectTransferAuthority) (staged : StagedObject) (now_ms send_ms answered_ms : Z) : result AwsError unit :=
  _ ← validate_transfer_authority authority MethodPut (so_bytes staged) now_ms;
  url ← validate_https_authority_url (ta_url authority);
  _ ← ensure readable temporary_from;
  headers ← apply_authority_headers (ta_headers authority);
  timeout ← transfer_timeout (ta_expires_at_ms authority) send_ms;
  success ← ok_or temporary_from
    (send url headers (so_bytes staged) (take (Z.to_nat (saturating_add (so_bytes staged) 1)) (so_content staged)) timeout);
  if success && (answered_ms <? ta_expires_at_ms authority) then Ok tt else Err temporary.

(** ** Theorems *)
Lemma transfer_timeout_Ok expires now t :
  transfer_timeout expires now = Ok t <-> now < expires /\ t = Z.min (expires - now) MAX_TRANSFER_WAIT_MS.
Proof.
  unfold transfer_timeout, saturating_sub. destruct (Z.eqb_spec (Z.max 0 (expires - now)) 0).
  - split; [done | lia].
  - split; [intros [= <-]; lia | intros [? ->]; f_equal; lia].
Qed.

(** The bytes the events before the end delivered. *)
Fixpoint delivered (stream : list (Z * StreamEvent)) : list Ascii.ascii :=
  match stream with
  | (_, NextChunk chunk _) :: stream => chunk ++ delivered stream
  | _ => []
  end.

Definition chunk_fits (w : Z * StreamEvent) : Prop := match w.2 with NextChunk chunk _ => len chunk <= U64_MAX | _ => True end.

Lemma stage_loop_Ok limit expires stream content bytes content' bytes' :
  limit < U64_MAX -> bytes = len content ->
  stage_loop limit expires stream content bytes = Some (Ok (content', bytes')) ->
  content' = content ++ delivered stream /\ bytes' = len content' /\ (bytes <= limit -> bytes' <= limit).
Proof.
  intros Hl. revert content bytes. induction stream as [|[now event] stream IH]; intros content bytes Hb; cbn; [done|].
  destruct (transfer_timeout expires now); [|done]. destruct event as [chunk w| | |n].
  2-4: by intros; simplify_eq; rewrite ?app_nil_r.
  destruct (Z.ltb_spec limit (saturating_add bytes (len chunk))) as [|Hfit]; [done|]. destruct w; [|done]. cbn.
  assert (Hs : saturating_add bytes (len chunk) = len (content ++ chunk)).
  { unfold saturating_add in *. subst bytes. unfold len in *. rewrite length_app. lia. }
  intros (-> & -> & H)%IH; [|done]. split_and!; [by rewrite app_assoc | done | auto].
Qed.

(** Whatever the stream does, once it ends, fails or times out the loop has an answer. *)
Lemma stage_loop_answers limit expires stream content bytes :
  (exists w, w ∈ stream /\ match w.2 with NextChunk _ _ => False | _ => True end) ->
  is_Some (stage_loop limit expires stream content bytes).
Proof.
  revert content bytes. induction stream as [|[now event] stream IH]; intros content bytes (w & Hw & Hend); [by apply not_elem_of_nil in Hw|].
  cbn. destruct (transfer_timeout expires now); [|by eexists]. destruct event as [chunk written| | |n]; [|by eexists..].
  destruct (limit <? _); [by eexists|]. destruct written; [|by eexists]. cbn. apply IH. exists w. split; [|done].
  apply elem_of_cons in Hw as [->|]; done.
Qed.

(** Nothing is waited for once the authority has expired. *)
Lemma stage_loop_expired limit expires now event stream content bytes :
  expires <= now -> stage_loop limit expires ((now, event) :: stream) content bytes = Some (Err invalid).
Proof. intros H. cbn. unfold transfer_timeout, saturating_sub. by rewrite Z.max_l by lia. Qed.

Lemma stage_response_Ok staged synced response limit expires object :
  0 <= limit -> stage_response staged synced response limit expires = Some (Ok object) ->
  limit <= MAX_OBJECT_BYTES /\ so_content object = delivered (rs_stream response) /\ so_bytes object = len (so_content object) /\
  so_bytes object <= limit /\ so_sha256 object = sha256_hex (so_content object).
Proof.
  intros H0. unfold stage_response. destruct (Z.ltb_spec MAX_OBJECT_BYTES limit) as [|Hm]; [done|]. case_match; [done|].
  destruct staged; [cbn|done]. destruct (stage_loop _ _ _ _ _) as [[[content bytes]|e]|] eqn:E; [|done..].
  apply stage_loop_Ok in E as (-> & -> & Hb); [|unfold MAX_OBJECT_BYTES, U64_MAX in *; lia|done].
  destruct synced; [|done]. intros [= <-]. cbn. specialize (Hb H0). done.
Qed.

Lemma validate_https_Ok value url :
  validate_https_authority_url value = Ok url ->
  parse_url value = Some url /\ url_scheme url = "https" /\ url_username url = "" /\ url_password url = None /\
  is_Some (url_host url) /\ url_fragment url = None.
Proof.
  unfold validate_https_authority_url. intros (u & Hu%ok_or_Ok & H)%result_bind_Ok. case_match eqn:E; [done|]. simplify_eq.
  repeat apply orb_false_iff in E as [E ?]. bool_hyps. destruct (url_password url), (url_host url), (url_fragment url); naive_solver.
Qed.

Lemma apply_authority_headers_Ok headers out :
  apply_authority_headers headers = Ok out -> Forall (fun kv => kv.1 ∉ FORBIDDEN_HEADERS) out.
Proof.
  revert out. induction headers as [|[name value] headers IH]; intros out; cbn [apply_authority_headers]; [intros [= <-]; constructor|].
  intros (n & _ & H)%result_bind_Ok. destruct (existsb (str_eqb n) FORBIDDEN_HEADERS) eqn:E; [done|]. apply result_bind_Ok in H as (v & _ & (rest & Hr & [= <-])%result_bind_Ok).
  constructor; [|auto]. cbn. intros Hin. apply existsb_str_eqb in Hin. congruence.
Qed.

Lemma authorized_get_Ok send value headers expires now response :
  authorized_get send value headers expires now = Ok response ->
  exists url sent timeout, validate_https_authority_url value = Ok url /\ Forall (fun kv => kv.1 ∉ FORBIDDEN_HEADERS) sent /\
    now < expires /\ timeout <= expires - now /\ send url sent timeout = Some response /\ rs_success response = true.
Proof.
  unfold authorized_get. intros (url & Hu & H)%result_bind_Ok. apply result_bind_Ok in H as (sent & Hh & H).
  apply result_bind_Ok in H as (t & Ht & H). apply result_bind_Ok in H as (r & Hr%ok_or_Ok & H).
  destruct (rs_success r) eqn:Es; simplify_eq/=. apply transfer_timeout_Ok in Ht as [? ->].
  eexists url, sent, _. split_and!; [done| |done| |done|done]; [by eapply apply_authority_headers_Ok | lia].
Qed.

(** A downloaded object is the sealed one: an object handed out by a download has exactly the bytes and the
    digest of its immutable reference, within the bound of the one-purpose authority, which names the object,
    allows reading and had not expired; it is the concatenation of the chunks that one HTTPS request without
    embedded credentials and without a transport header delivered. *)
Theorem downloaded_object_is_the_sealed_one send staged synced authority object now send_ms out :
  0 <= obj_bytes object ->
  fetch_object send staged synced authority object now send_ms = Some (Ok out) ->
  sha256_hex (so_content out) = obj_sha256 object /\ len (so_content out) = obj_bytes object /\
  obj_bytes object <= ta_max_bytes authority <= MAX_OBJECT_BYTES /\
  ta_object_id authority = obj_object_id object /\ ta_method authority = MethodGet /\
  now < ta_expires_at_ms authority /\ send_ms < ta_expires_at_ms authority /\
  exists url sent timeout response,
    parse_url (ta_url authority) = Some url /\ url_scheme url = "https" /\ url_username url = "" /\ url_password url = None /\
    Forall (fun kv => kv.1 ∉ FORBIDDEN_HEADERS) sent /\ send url sent timeout = Some response /\
    so_content out = delivered (rs_stream response).
Proof.
  intros H0. unfold fetch_object. destruct (str_eqb_spec (ta_object_id authority) (obj_object_id object)) as [Hid|]; [cbn|done].
  destruct (validate_transfer_authority _ _ _ _) as [[]|] eqn:Ev; [|done].
  destruct (authorized_get _ _ _ _ _) as [response|] eqn:Eg; [|done].
  destruct (stage_response _ _ _ _ _) as [[object'|]|] eqn:Es; [|done..].
  destruct (negb (so_bytes object' =? obj_bytes object) || negb (str_eqb (so_sha256 object') (obj_sha256 object))) eqn:E; [done|].
  intros [= ->]. apply orb_false_iff in E as [Eb%negb_false_iff%Z.eqb_eq Eh%negb_false_iff%str_eqb_eq].
  apply stage_response_Ok in Es as (_ & Hc & Hb & _ & Hs); [|done].
  apply authorized_get_Ok in Eg as (url & sent & t & Hu & Hh & Hsend & _ & Hr & _).
  apply validate_https_Ok in Hu as (Hp & Hsch & Hun & Hpw & _).
  unfold validate_transfer_authority in Ev. case_match eqn:E; [done|]. repeat apply orb_false_iff in E as [E ?]. bool_hyps.
  split_and!; [congruence|congruence|lia|lia|done|done|lia|done|]. exists url, sent, t, response. done.
Qed.
End transfer.

(** A download of two chunks. *)
Lemma downloaded_object_is_the_sealed_one_witness :
  let parse_url value := Some (mkUrl "https" "" None (Some "store") None value) in
  let sha (l : list Ascii.ascii) := String.string_of_list_ascii l in
  let send (_ : Url) (_ : list (string * string)) (_ : Z) :=
    Some (mkResponse true (Some 5) [(20, NextChunk (bytes_of "hel") true); (30, NextChunk (bytes_of "lo") true); (40, NextEnd)]) in
  fetch_object sha parse_url (fun n => Some n) (fun v => Some v) send true true
    (mkObjectTransferAuthority "o-1" MethodGet 1000 64 "https://store/o-1" [("x-grant", "g")]) (mkObjectReference "o-1" 5 "hello") 5 10
  = Some (Ok (mkStagedObject (bytes_of "hello") 5 "hello")) /\ len (bytes_of "hello") = 5.
Proof.
  intros parse_url sha send. assert (E : fetch_object sha parse_url (fun n => Some n) (fun v => Some v) send true true
    (mkObjectTransferAuthority "o-1" MethodGet 1000 64 "https://store/o-1" [("x-grant", "g")]) (mkObjectReference "o-1" 5 "hello") 5 10
    = Some (Ok (mkStagedObject (bytes_of "hello") 5 "hello"))) by (vm_compute; reflexivity).
  split; [exact E|].
  exact (proj1 (proj2 (downloaded_object_is_the_sealed_one sha parse_url (fun n => Some n) (fun v => Some v) send true true
    (mkObjectTransferAuthority "o-1" MethodGet 1000 64 "https://store/o-1" [("x-grant", "g")]) (mkObjectReference "o-1" 5 "hello") 5 10
    (mkStagedObject (bytes_of "hello") 5 "hello") ltac:(cbn; lia) E))).
Defined.
