(* ===== verification/Prepare.v ===== *)
(** * hand-brain-aws: preparing a session

    Models crates/hand-brain-aws/src/ports/preparation.rs (prepare and its phases), the binding reads of
    hand.rs, and the interleaving of concurrent preparations with operations and purges on the shared caches.
    The definition phases are programs over the table of [DynamoTable]; admission, installation and the drop of
    the guards are the atomic sections the code runs under the cache lock. Bindings are read and validated in
    request order, where the code overlaps the reads; the fetches complete in any order. *)
From S2P Require Import Prelude Policy DynamoTable Definitions GuestErrors GuestTarget GuestInstall AwsErrors AwsSeals Cache.

(** ** Errors of table programs *)
Definition db_map_err {E F A : Type} (f : E -> F) (m : DbM E A) : DbM F A := db_bind m (fun r => DbRet (map_err f r)).
Definition db_observe {E F A : Type} (m : DbM E A) : DbM F (result E A) := db_bind m (fun r => DbRet (Ok r)).

Fixpoint db_collect {E F A : Type} (ms : list (DbM E A)) : DbM F (list (result E A)) :=
  match ms with
  | [] => mret []
  | m :: ms => r ← db_observe m; rs ← db_collect ms; mret (r :: rs)
  end.

(** The program can return [a], for some answers of the service: what it may do beside any other client. *)
Fixpoint may_return {A : Type} (m : Db A) (a : A) : Prop :=
  match m with
  | DbRet b => b = a
  | DbGet _ k => exists r, may_return (k r) a
  | DbWrite _ k => exists r, may_return (k r) a
  | DbQuery _ _ _ _ k => exists r, may_return (k r) a
  end.

Record RootSealPayload := mkRootSealPayload {
  rp_network : Network; rp_resource_class : string; rp_resources : ResourceCeiling; rp_root_id : string }.

Section prepare.
Context (sha256_hex : list Ascii.ascii -> string).
Context (MAX_TOOL_TERMINAL_INLINE_BYTES MAX_TOOL_BUNDLE_BYTES : Z).
Context (MAX_SESSION_SECRET_NAMES MAX_SESSION_SECRET_NAME_BYTES MAX_MODEL_TOOLS : Z).
Context (digest_resources : ResourceCeiling -> option string) (digest_network : Network -> option string).
Context {R C : Type} `{EqDecision C} (required_capabilities : R -> list C).
Context (digest_descriptor : BundleDescriptor R -> option string) (binding_of_json : list Ascii.ascii -> result string (SealedBinding R)).
Context (canonical_digest : PublicProjection -> option string) (jcs_projection : PublicProjection -> result string (list Ascii.ascii)).
Context (jcs_root_seal : RootSealPayload -> result string (list Ascii.ascii)).
Context (jcs_request : PrepareSessionRequest -> option (list Ascii.ascii)).
Context (image image_version : string) (bundle_fetch_max_bytes : Z).

(** ** Validation *)
Definition aws_binding (root_id binding_ref : string) : DbM AwsError (SealedBinding R) :=
  record ← db_map_err definition_error (def_get sha256_hex root_id Binding binding_ref);
  record ← db_lift (ok_or binding_error record);
  db_lift (map_err definition_error (decode binding_of_json record)).

Definition validate_binding (request : PrepareSessionRequest) (prepared : PreparedBindingBundles) : DbM AwsError ValidatedPreparedBundle :=
  binding ← aws_binding (pr_root_id request) (pb_binding_ref prepared);
  db_lift (validate_prepared_binding_projection MAX_TOOL_BUNDLE_BYTES MAX_SESSION_SECRET_NAMES MAX_SESSION_SECRET_NAME_BYTES
             required_capabilities digest_descriptor prepared binding (pr_root_id request) (pr_session_id request)).

Fixpoint merge_validations (validations : list (result AwsError ValidatedPreparedBundle)) (required : gmap string ValidatedPreparedBundle)
    : result AwsError (gmap string ValidatedPreparedBundle) :=
  match validations with
  | [] => Ok required
  | validation :: validations =>
      bundle ← validation;
      required ← merge_validated_prepared_bundle bundle required;
      merge_validations validations required
  end.

Definition validate_prepared_bindings (request : PrepareSessionRequest) : DbM AwsError (gmap string ValidatedPreparedBundle) :=
  _ ← db_lift (ensure (bool_decide (NoDup (map pb_binding_ref (pr_bindings request)))) binding_error);
  validations ← db_collect (map (validate_binding request) (pr_bindings request));
  db_lift (merge_validations validations ∅).

Fixpoint supplied_fetches (required : gmap string ValidatedPreparedBundle) (bundles : list BundleFetch) (supplied : gmap string BundleFetch)
    : result AwsError (gmap string BundleFetch) :=
  match bundles with
  | [] => Ok supplied
  | fetch :: bundles =>
      let digest := bf_bundle_digest fetch in
      if bool_decide (required !! digest = None) then Err invalid
      else if bool_decide (is_Some (supplied !! digest)) then Err invalid
      else supplied_fetches required bundles (<[digest := fetch]> supplied)
  end.

Definition validate_prepare_request (request : PrepareSessionRequest)
    : DbM AwsError (gmap string ValidatedPreparedBundle * gmap string BundleFetch * PublicProjection) :=
  if (MAX_MODEL_TOOLS <? len (pr_bundles request)) || (MAX_MODEL_TOOLS <? len (pr_bindings request)) then db_throw invalid
  else
    projection ← db_lift (preparation_public_projection MAX_SESSION_SECRET_NAMES MAX_SESSION_SECRET_NAME_BYTES request);
    _ ← db_lift (target_spec MAX_TOOL_TERMINAL_INLINE_BYTES digest_resources digest_network image image_version
                   (pr_resources request) (pr_network request) RESOURCE_CLASS);
    required ← validate_prepared_bindings request;
    supplied ← db_lift (supplied_fetches required (pr_bundles request) ∅);
    mret (required, supplied, projection).

(** ** The immutable definition rows *)
Definition persist_preparation_definitions (request : PrepareSessionRequest) (projection : PublicProjection) (root_now_ms now_ms : Z)
    : DbM AwsError string :=
  digest ← db_lift (ok_or invalid (canonical_digest projection));
  root_record ← db_lift (map_err definition_error (canonical sha256_hex jcs_root_seal (pr_root_id request) RootSeal "physical"
    (mkRootSealPayload (pr_network request) RESOURCE_CLASS (pr_resources request) (pr_root_id request)) root_now_ms));
  _ ← db_map_err root_seal_error (install sha256_hex root_record);
  record ← db_lift (map_err definition_error (canonical sha256_hex jcs_projection (pr_root_id request)
    Definitions.Preparation (pr_session_id request) projection now_ms));
  _ ← db_map_err definition_error (install sha256_hex record);
  mret digest.

(** Everything before the caches: nothing is written unless the whole request is valid. *)
Definition prepare_definitions (request : PrepareSessionRequest) (root_now_ms now_ms : Z)
    : DbM AwsError (gmap string ValidatedPreparedBundle * gmap string BundleFetch * string) :=
  '(required, supplied, projection) ← validate_prepare_request request;
  digest ← persist_preparation_definitions request projection root_now_ms now_ms;
  mret (required, supplied, digest).

(** ** Admission *)

(** The scan under the cache lock. Its answer carries the clones borrowed so far, which an error drops. *)
Fixpoint scan_required (now_ms : Z) (supplied : gmap string BundleFetch) (required : list (string * ValidatedPreparedBundle))
    (missing : list BundleFetch) (borrows : list string) (fetch_bytes : Z) (s : BundleCache)
    : result AwsError (list BundleFetch * Z) * list string * BundleCache :=
  match required with
  | [] => (Ok (missing, fetch_bytes), borrows, s)
  | (digest, seal) :: required =>
      let '(bytes, s) := bundle_get digest s in
      match bytes with
      | Some _ => scan_required now_ms supplied required missing (borrows ++ [digest]) fetch_bytes s
      | None =>
          match supplied !! digest with
          | None => (Err (error CapabilityUnavailable false), borrows, s)
          | Some fetch =>
              if (bf_expires_at_ms fetch <=? now_ms) || (MAX_TOOL_BUNDLE_BYTES <? bf_max_bytes fetch)
                 || (bf_max_bytes fetch <? vb_bytes seal)
              then (Err invalid, borrows, s)
              else match checked_add fetch_bytes (bf_max_bytes fetch) with
                   | None => (Err (bundle_fetch_capacity_error bundle_fetch_max_bytes), borrows, s)
                   | Some fetch_bytes => scan_required now_ms supplied required (missing ++ [fetch]) borrows fetch_bytes s
                   end
          end
      end
  end.

Record HandCaches := mkHandCaches { hc_cache : PreparationCache; hc_reserved : BundleFetchInFlight }.

Definition admit_missing (protected : gset string) (missing : list BundleFetch) (fetch_bytes : Z)
    : M (BundleCache * BundleFetchInFlight) AwsError unit := fun '(s, in_flight) =>
  let check :=
    bytes ← ok_or (bundle_fetch_capacity_error bundle_fetch_max_bytes) (checked_add (in_bytes in_flight) fetch_bytes);
    entries ← ok_or (bundle_cache_capacity_error (max_bundle_bytes s)) (checked_add (in_entries in_flight) (len missing));
    Ok (bytes, entries) in
  match check with
  | Err e => (Err e, (s, in_flight))
  | Ok (bytes, entries) =>
      match evict_idle_to_fit bytes entries protected s with
      | (Err e, s) => (Err e, (s, in_flight))
      | (Ok _, s) =>
          let '(r, in_flight) := reservation_admit (bundle_bytes s) (Z.of_nat (size (cached s))) fetch_bytes (len missing)
                                   (max_bundle_bytes s) bundle_fetch_max_bytes in_flight in
          (r, (s, in_flight))
      end
  end.

Definition release_all (borrows : list string) (s : BundleCache) : BundleCache :=
  foldl (fun s digest => bundle_release digest s) s borrows.

(** The guards of an admitted preparation. *)
Record FetchGuards := mkFetchGuards { fg_bytes : Z; fg_entries : Z; fg_borrows : list string }.

Definition admit_bundles (now_ms : Z) (required : gmap string ValidatedPreparedBundle) (supplied : gmap string BundleFetch)
    : M HandCaches AwsError (list BundleFetch * FetchGuards) := fun k =>
  let '(scan, borrows, s) := scan_required now_ms supplied (map_to_list required) [] [] 0 (bundles (hc_cache k)) in
  let back s in_flight := mkHandCaches (mkPreparationCache (store (hc_cache k)) s) in_flight in
  match scan with
  | Err e => (Err e, back (release_all borrows s) (hc_reserved k))
  | Ok (missing, fetch_bytes) =>
      match admit_missing (dom required) missing fetch_bytes (s, hc_reserved k) with
      | (Err e, (s, in_flight)) => (Err e, back (release_all borrows s) in_flight)
      | (Ok _, (s, in_flight)) => (Ok (missing, mkFetchGuards fetch_bytes (len missing) borrows), back s in_flight)
      end
  end.

(** ** The fetched bundles *)
Definition check_fetched (required : gmap string ValidatedPreparedBundle) (fetch : BundleFetch) (answer : result AwsError (list Ascii.ascii))
    : result AwsError (string * list Ascii.ascii) :=
  bytes ← answer;
  if len bytes =? match required !! bf_bundle_digest fetch with Some seal => vb_bytes seal | None => 0 end
  then Ok (bf_bundle_digest fetch, bytes) else Err invalid.

Fixpoint collect_fetched (required : gmap string ValidatedPreparedBundle)
    (results : list (BundleFetch * result AwsError (list Ascii.ascii))) (bundles : gmap string (list Ascii.ascii))
    : result AwsError (gmap string (list Ascii.ascii)) :=
  match results with
  | [] => Ok bundles
  | (fetch, answer) :: results =>
      '(digest, bytes) ← check_fetched required fetch answer;
      collect_fetched required results (<[digest := bytes]> bundles)
  end.

(** ** Installation and the drop of the guards *)
Definition install_fetched (request : PrepareSessionRequest) (digest : string) (fetched : gmap string (list Ascii.ascii))
    : M HandCaches AwsError unit := fun k =>
  let '(r, cache) := cache_install MAX_MODEL_TOOLS jcs_request (cacheable_preparation request) digest fetched (hc_cache k) in
  (r, mkHandCaches cache (hc_reserved k)).

Definition drop_guards (g : FetchGuards) (k : HandCaches) : HandCaches :=
  mkHandCaches (mkPreparationCache (store (hc_cache k)) (release_all (fg_borrows g) (bundles (hc_cache k))))
    (reservation_drop (fg_bytes g) (fg_entries g) (hc_reserved k)).

(** [consume_secret_capability] of hand.rs: the bearer goes before it is presented. *)
Definition consume_secret_capability (session_id capability_ref : string) (s : PreparationStore) : PreparationStore :=
  match sessions s !! session_id with
  | None => s
  | Some p =>
      match pr_secret_capability (p_request p) with
      | Some capability =>
          if str_eqb (sc_capability_ref capability) capability_ref then
            let r := p_request p in
            set_sessions (<[session_id := mkPreparation
              (mkPrepareSessionRequest (pr_session_id r) (pr_root_id r) (pr_bindings r) (pr_bundles r) (pr_network r) (pr_resources r) None)
              (p_public_digest p) (p_metadata_bytes p) (p_last_access p)]> (sessions s)) (preparation_bytes s) s
          else s
      | None => s
      end
  end.

(** ** Concurrent preparations *)

(** A preparation between its admission and the drop of its guards; [o_done]: its installation was tried. *)
Record OpenPreparation := mkOpenPreparation {
  o_request : PrepareSessionRequest; o_digest : string; o_required : gmap string ValidatedPreparedBundle;
  o_missing : list BundleFetch; o_guards : FetchGuards; o_done : bool }.

(** [sy_users]: the clones that operations hold while they install a bundle into a guest. *)
Record PrepareSystem := mkPrepareSystem { sy_caches : HandCaches; sy_open : gmap nat OpenPreparation; sy_users : list string }.

Definition with_bundles (s : BundleCache) (k : HandCaches) : HandCaches :=
  mkHandCaches (mkPreparationCache (store (hc_cache k)) s) (hc_reserved k).
Definition with_store (s : PreparationStore) (k : HandCaches) : HandCaches :=
  mkHandCaches (mkPreparationCache s (bundles (hc_cache k))) (hc_reserved k).

Inductive prepare_step : PrepareSystem -> PrepareSystem -> Prop :=
  (** The definition phases of a request passed, whatever the table answered; then its admission. *)
  | PrepareAdmit k open users id request digest required supplied root_now_ms row_now_ms now_ms r k' :
      open !! id = None -> Forall (fun fetch => 0 <= bf_max_bytes fetch) (pr_bundles request) ->
      may_return (prepare_definitions request root_now_ms row_now_ms) (Ok (required, supplied, digest)) ->
      admit_bundles now_ms required supplied k = (r, k') ->
      prepare_step (mkPrepareSystem k open users)
        (mkPrepareSystem k' (match r with
           | Ok (missing, guards) => <[id := mkOpenPreparation request digest required missing guards false]> open
           | Err _ => open end) users)
  (** Every fetch has answered, in some order, with a bundle of the sealed size. *)
  | PrepareInstall k open users id o results fetched r k' :
      open !! id = Some o -> o_done o = false -> map fst results ≡ₚ o_missing o ->
      collect_fetched (o_required o) results ∅ = Ok fetched ->
      install_fetched (o_request o) (o_digest o) fetched k = (r, k') ->
      prepare_step (mkPrepareSystem k open users)
        (mkPrepareSystem k' (<[id := mkOpenPreparation (o_request o) (o_digest o) (o_required o) (o_missing o) (o_guards o) true]> open) users)
  (** The preparation returned, failed or was cancelled. *)
  | PrepareDrop k open users id o :
      open !! id = Some o ->
      prepare_step (mkPrepareSystem k open users) (mkPrepareSystem (drop_guards (o_guards o) k) (delete id open) users)
  | PrepareLookup k open users session_id :
      prepare_step (mkPrepareSystem k open users)
        (mkPrepareSystem (with_store (store_get session_id (store (hc_cache k))).2 k) open users)
  | PrepareBorrow k open users digest bytes s :
      bundle_get digest (bundles (hc_cache k)) = (Some bytes, s) ->
      prepare_step (mkPrepareSystem k open users) (mkPrepareSystem (with_bundles s k) open (digest :: users))
  | PrepareRelease k open before digest after :
      prepare_step (mkPrepareSystem k open (before ++ digest :: after))
        (mkPrepareSystem (with_bundles (bundle_release digest (bundles (hc_cache k))) k) open (before ++ after))
  | PrepareConsume k open users session_id capability_ref :
      prepare_step (mkPrepareSystem k open users)
        (mkPrepareSystem (with_store (consume_secret_capability session_id capability_ref (store (hc_cache k))) k) open users)
  | PreparePurge k open users root_id limit :
      prepare_step (mkPrepareSystem k open users)
        (mkPrepareSystem (with_store (store_purge_root_page root_id limit (store (hc_cache k))).2 k) open users).

Definition prepare_initial (max_bundle_bytes : Z) : PrepareSystem :=
  mkPrepareSystem (mkHandCaches (with_limit max_bundle_bytes) (mkBundleFetchInFlight 0 0)) ∅ [].
Definition prepare_reachable (max_bundle_bytes : Z) (s : PrepareSystem) : Prop :=
  rtc prepare_step (prepare_initial max_bundle_bytes) s.
End prepare.

(** ** What the definition phases guarantee *)
Lemma may_return_lift {E A : Type} (r : result E A) a : may_return (db_lift r) a <-> r = a.
Proof. done. Qed.

Lemma may_return_bind {A B : Type} (m : Db A) (f : A -> Db B) b :
  may_return (db_bind m f) b <-> exists a, may_return m a /\ may_return (f a) b.
Proof.
  induction m as [a|key k IH|ws k IH|root prefix start limit k IH]; cbn; [naive_solver|..];
    setoid_rewrite IH; naive_solver.
Qed.

Lemma may_return_step {E A B : Type} (m : DbM E A) (f : A -> DbM E B) b :
  may_return (a ← m; f a) (Ok b) -> exists a, may_return m (Ok a) /\ may_return (f a) (Ok b).
Proof.
  unfold mbind, DbM_bind. rewrite may_return_bind. intros ([a|e] & H1 & H2); [eauto | by cbn in H2].
Qed.

Lemma db_collect_returns {E F A : Type} (ms : list (DbM E A)) rs :
  may_return (db_collect (F := F) ms) (Ok rs) -> Forall2 may_return ms rs.
Proof.
  revert rs. induction ms as [|m ms IH]; intros rs H; cbn in H; [injection H as <-; constructor|].
  apply may_return_step in H as (r & Hr & H). apply may_return_step in H as (rs' & H & Heq). cbn in Heq. injection Heq as <-.
  apply may_return_bind in Hr as (r' & Hr & [= <-]). constructor; auto.
Qed.

Lemma collect_digests_Ok MAX l acc :
  Z.of_nat (size acc) + len l <= MAX -> collect_digests MAX l acc = Ok (list_to_set l ∪ acc).
Proof.
  revert acc. induction l as [|d l IH]; intros acc H; cbn; [by rewrite union_empty_l_L|].
  assert (Hs : (size ({[d]} ∪ acc) <= S (size acc))%nat).
  { rewrite size_union_alt, size_singleton. pose proof (subseteq_size (acc ∖ {[d]}) acc ltac:(set_solver)). lia. }
  unfold len in *; cbn [length] in H. destruct (Z.ltb_spec MAX (Z.of_nat (size ({[d]} ∪ acc)))); [lia|].
  rewrite IH by lia. f_equal. set_solver.
Qed.

Section validated.
Context (sha256_hex : list Ascii.ascii -> string) (MAX_TOOL_BUNDLE_BYTES MAX_SESSION_SECRET_NAMES MAX_SESSION_SECRET_NAME_BYTES : Z).
Context {R C : Type} `{EqDecision C} (required_capabilities : R -> list C).
Context (digest_descriptor : BundleDescriptor R -> option string) (binding_of_json : list Ascii.ascii -> result string (SealedBinding R)).

Lemma validate_binding_digest request prepared vb :
  may_return (validate_binding sha256_hex MAX_TOOL_BUNDLE_BYTES MAX_SESSION_SECRET_NAMES MAX_SESSION_SECRET_NAME_BYTES
                required_capabilities digest_descriptor binding_of_json request prepared) (Ok vb) ->
  pb_bundle_digests prepared = [vb_digest vb].
Proof.
  intros (binding & _ & Hb)%may_return_step. apply may_return_lift in Hb. unfold validate_prepared_binding_projection in Hb.
  case_match; [done|]. apply result_bind_Ok in Hb as (d & _ & Hb). case_match eqn:E; [done|].
  apply result_bind_Ok in Hb as (dd & _ & [= <-]). by apply negb_false_iff, bool_decide_eq_true in E.
Qed.

Lemma merge_validations_dom validations required required' :
  merge_validations validations required = Ok required' ->
  exists vbs, validations = map Ok vbs /\ dom required' = list_to_set (map vb_digest vbs) ∪ dom required.
Proof.
  revert required. induction validations as [|v validations IH]; intros required; cbn.
  - intros [= <-]. exists []. split; [done | cbn; set_solver].
  - destruct v as [vb|]; [|done]. cbn. intros (m & Hm & (vbs & -> & Hd)%IH)%result_bind_Ok. exists (vb :: vbs). split; [done|].
    assert (Hm' : m = <[vb_digest vb := vb]> required).
    { unfold merge_validated_prepared_bundle in Hm. repeat case_match; by simplify_eq. }
    rewrite Hd, Hm', dom_insert_L. cbn. set_solver.
Qed.

Lemma validated_digests MAX request required :
  len (pr_bindings request) <= MAX ->
  may_return (validate_prepared_bindings sha256_hex MAX_TOOL_BUNDLE_BYTES MAX_SESSION_SECRET_NAMES MAX_SESSION_SECRET_NAME_BYTES
                required_capabilities digest_descriptor binding_of_json request) (Ok required) ->
  required_bundle_digests MAX (cacheable_preparation request) = Ok (dom required).
Proof.
  intros Hlen (_ & _ & H)%may_return_step. apply may_return_step in H as (vs & Hvs%db_collect_returns & Hm).
  apply may_return_lift in Hm. apply merge_validations_dom in Hm as (vbs & -> & Hd).
  assert (Hcat : concat (map pb_bundle_digests (pr_bindings request)) = map vb_digest vbs).
  { clear Hd Hlen. revert vbs Hvs. induction (pr_bindings request) as [|b bs IH]; intros vbs Hvs; cbn [map concat] in *.
    - by apply Forall2_nil_inv_l in Hvs; destruct vbs.
    - destruct vbs as [|vb vbs]; [by apply Forall2_nil_inv_r in Hvs|]. apply Forall2_cons in Hvs as [Hb Hvs].
      cbn [map]. by rewrite (validate_binding_digest request b vb Hb), (IH vbs Hvs). }
  unfold required_bundle_digests. cbn. rewrite Hcat, collect_digests_Ok, Hd, dom_empty_L; [done|].
  rewrite size_empty. apply Forall2_length in Hvs. rewrite !length_map in Hvs. unfold len in *. rewrite length_map. lia.
Qed.
End validated.

Lemma supplied_fetches_spec required l supplied supplied' (P : BundleFetch -> Prop) :
  supplied_fetches required l supplied = Ok supplied' -> Forall P l ->
  map_Forall (fun d f => bf_bundle_digest f = d /\ P f) supplied ->
  map_Forall (fun d f => bf_bundle_digest f = d /\ P f) supplied'.
Proof.
  revert supplied. induction l as [|f l IH]; intros supplied; cbn; [by intros [= <-]|].
  intros H [Hf Hl]%Forall_cons Hs. repeat case_match; try done. eapply IH; [done..|]. by apply map_Forall_insert_2.
Qed.

(** ** Counting clones *)
Fixpoint count (d : string) (l : list string) : nat :=
  match l with [] => 0 | x :: l => (if decide (x = d) then 1 else 0) + count d l end.

Lemma count_app d l1 l2 : count d (l1 ++ l2) = (count d l1 + count d l2)%nat.
Proof. induction l1 as [|x l IH]; cbn; lia. Qed.

Lemma count_pos d l : count d l <> 0%nat <-> d ∈ l.
Proof.
  induction l as [|x l IH]; cbn; [split; [done | by intros ?%not_elem_of_nil]|].
  rewrite elem_of_cons, <- IH. case_decide; [split; [auto | lia] | split; [intros; right; lia | intros [->|]; [done | lia]]].
Qed.

(** [d] is resident with its own bytes and [n] more clones out than before. *)
Definition lent (s s' : BundleCache) (n : string -> nat) : Prop :=
  same_bundle_limits s s' /\ bundle_bytes s' = bundle_bytes s /\
  forall d, residents s' !! d = (fun x => (x.1, x.2 + n d)%nat) <$> residents s !! d.

Lemma release_all_spec l s :
  bundle_ok s ->
  bundle_ok (release_all l s) /\ same_bundle_limits s (release_all l s) /\ bundle_bytes (release_all l s) = bundle_bytes s /\
  forall d, residents (release_all l s) !! d = (fun x => (x.1, x.2 - count d l)%nat) <$> residents s !! d.
Proof.
  revert s. induction l as [|x l IH]; intros s Hok; cbn [release_all foldl].
  { refine (conj Hok (conj (conj eq_refl eq_refl) (conj eq_refl _))). intros d. cbn.
    destruct (residents s !! d) as [[b n]|]; cbn; [|done]. by rewrite Nat.sub_0_r. }
  destruct (bundle_release_spec x s Hok) as (Hok1 & [L1 L2] & Hb1 & Hr1).
  destruct (IH _ Hok1) as (Hok2 & [L3 L4] & Hb2 & Hr2).
  refine (conj Hok2 (conj (conj _ _) (conj _ _))); [unfold release_all in *; congruence..|].
  intros d. fold (release_all l (bundle_release x s)). rewrite Hr2, Hr1. cbn [count]. destruct (decide (x = d)) as [<-|Hne].
  - rewrite lookup_alter_eq. destruct (residents s !! x) as [[b n]|]; cbn; [|done]. do 2 f_equal. lia.
  - rewrite lookup_alter_ne by done. by destruct (residents s !! d) as [[b n]|].
Qed.

Definition sum_max (l : list BundleFetch) : Z := foldr (fun f acc => bf_max_bytes f + acc) 0 l.

Lemma sum_max_app l1 l2 : sum_max (l1 ++ l2) = sum_max l1 + sum_max l2.
Proof. unfold sum_max. induction l1 as [|f l IH]; cbn; lia. Qed.

Lemma sum_max_nonneg l : Forall (fun f => 0 <= bf_max_bytes f) l -> 0 <= sum_max l.
Proof. unfold sum_max. induction 1; cbn; lia. Qed.

Lemma map_keys_elements {V} (m : gmap string V) : map fst (map_to_list m) ≡ₚ elements (dom m).
Proof.
  apply NoDup_Permutation; [apply NoDup_fst_map_to_list | apply NoDup_elements|]. intros k.
  rewrite elem_of_elements, elem_of_dom. split.
  - intros ([k' v] & -> & Hin%elem_of_map_to_list)%list_elem_of_fmap. by exists v.
  - intros [v Hv]. apply list_elem_of_fmap. exists (k, v). by rewrite elem_of_map_to_list.
Qed.

Section admission.
Context (MAX_TOOL_BUNDLE_BYTES bundle_fetch_max_bytes : Z).

(** A fetch that covers its required bundle. *)
Definition covers (required : list (string * ValidatedPreparedBundle)) (f : BundleFetch) : Prop :=
  0 <= bf_max_bytes f /\ exists seal, (bf_bundle_digest f, seal) ∈ required /\ vb_bytes seal <= bf_max_bytes f.

Lemma covers_mono required required' f : (forall x, x ∈ required -> x ∈ required') -> covers required f -> covers required' f.
Proof. intros H (H0 & seal & Hin & Hle). split; [done|]. exists seal. auto. Qed.

(** The scan lends out what is resident and collects a covering fetch for everything else. *)
Lemma scan_required_spec now supplied required missing borrows fetch_bytes s :
  bundle_ok s -> map_Forall (fun d f => bf_bundle_digest f = d /\ 0 <= bf_max_bytes f) supplied ->
  exists r lent_out s', scan_required MAX_TOOL_BUNDLE_BYTES bundle_fetch_max_bytes now supplied required missing borrows fetch_bytes s
      = (r, borrows ++ lent_out, s') /\ bundle_ok s' /\ lent s s' (fun d => count d lent_out) /\
    (forall d, d ∈ lent_out -> is_Some (residents s !! d)) /\
    (forall missing' bytes, r = Ok (missing', bytes) -> exists fetches, missing' = missing ++ fetches /\
       bytes = fetch_bytes + sum_max fetches /\ lent_out ++ map bf_bundle_digest fetches ≡ₚ map fst required /\
       Forall (covers required) fetches).
Proof.
  intros Hok Hsup. revert missing borrows fetch_bytes s Hok. induction required as [|[d seal] required IH]; intros missing borrows fetch_bytes s Hok; cbn [scan_required].
  { exists (Ok (missing, fetch_bytes)), [], s. rewrite app_nil_r. split; [done|]. split; [done|]. split.
    { refine (conj (conj eq_refl eq_refl) (conj eq_refl _)). intros d. destruct (residents s !! d) as [[b n]|]; cbn; [|done]. by rewrite Nat.add_0_r. }
    split; [by intros d ?%not_elem_of_nil|]. intros m b [= <- <-]. exists []. rewrite app_nil_r. cbn. split_and!; [done|lia|done|constructor]. }
  pose proof (bundle_get_spec d s Hok) as Hg. destruct (bundle_get d s) as [bytes s1].
  destruct Hg as (Hok1 & [L1 L2] & Hb1 & Hbytes & Hr1).
  destruct (residents s !! d) as [[b n]|] eqn:E; cbn in Hbytes; subst bytes.
  - destruct (IH missing (borrows ++ [d]) fetch_bytes s1 Hok1) as (r & out & s2 & Hrun & Hok2 & ([L3 L4] & Hb2 & Hr2) & Hin & Hres).
    exists r, (d :: out), s2. rewrite Hrun, <- app_assoc. split; [done|]. split; [done|]. split; [|split].
    + refine (conj (conj _ _) (conj _ _)); [congruence..|]. intros d'. rewrite Hr2, Hr1. cbn [count].
      destruct (decide (d = d')) as [<-|]; [rewrite lookup_insert_eq, E; cbn; do 2 f_equal; lia|].
      by rewrite lookup_insert_ne.
    + intros d' [->|Hd']%elem_of_cons; [eauto|]. destruct (Hin d' Hd') as [x Hx]. rewrite Hr1 in Hx.
      destruct (decide (d = d')) as [<-|]; [eauto|]. rewrite lookup_insert_ne in Hx by done. eauto.
    + intros m' bs Hm'. destruct (Hres m' bs Hm') as (fs & H1 & H2 & H3 & H4). exists fs. split_and!; [done|done| |].
      * cbn. by constructor.
      * eapply Forall_impl; [done|]. intros f. apply covers_mono. set_solver.
  - assert (Hr0 : forall d', residents s1 !! d' = (fun x => (x.1, (x.2 + count d' [])%nat)) <$> residents s !! d').
    { intros d'. rewrite Hr1. destruct (residents s !! d') as [[b n]|]; cbn; [|done]. by rewrite Nat.add_0_r. }
    assert (Herr : forall e, exists r lent_out s', (@Err AwsError (list BundleFetch * Z) e, borrows, s1) = (r, borrows ++ lent_out, s') /\
      bundle_ok s' /\ lent s s' (fun d => count d lent_out) /\ (forall d, d ∈ lent_out -> is_Some (residents s !! d)) /\
      (forall missing' bytes, r = Ok (missing', bytes) -> exists fetches, missing' = missing ++ fetches /\
       bytes = fetch_bytes + sum_max fetches /\ lent_out ++ map bf_bundle_digest fetches ≡ₚ map fst ((d, seal) :: required) /\
       Forall (covers ((d, seal) :: required)) fetches)).
    { intros e. exists (Err e), [], s1. rewrite app_nil_r. split; [done|]. split; [done|]. split; [by repeat split|]. split; [|done].
      by intros d' ?%not_elem_of_nil. }
    destruct (supplied !! d) as [f|] eqn:Ef; [|apply Herr]. apply (map_Forall_lookup_1 _ _ _ _ Hsup) in Ef as [<- Hf0].
    case_match eqn:Echk; [apply Herr|]. destruct (checked_add fetch_bytes (bf_max_bytes f)) as [fb|] eqn:Ea; [|apply Herr].
    apply checked_add_Some in Ea as [-> _]. apply orb_false_iff in Echk as [_ Hcov%Z.ltb_ge].
    destruct (IH (missing ++ [f]) borrows (fetch_bytes + bf_max_bytes f) s1 Hok1) as (r & out & s2 & Hrun & Hok2 & ([L3 L4] & Hb2 & Hr2) & Hin & Hres).
    exists r, out, s2. split; [done|]. split; [done|]. split; [|split].
    + refine (conj (conj _ _) (conj _ _)); [congruence..|]. intros d'. by rewrite Hr2, Hr1.
    + intros d' Hd'. rewrite <- Hr1. auto.
    + intros m' bs Hm'. destruct (Hres m' bs Hm') as (fs & -> & -> & H3 & H4). exists (f :: fs). split_and!.
      * by rewrite <- app_assoc.
      * unfold sum_max; cbn. lia.
      * cbn. rewrite <- H3. by rewrite Permutation_middle.
      * constructor; [split; [done|]; exists seal; split; [set_solver|done]|].
        eapply Forall_impl; [done|]. intros f'. apply covers_mono. set_solver.
Qed.

(** Eviction for an admission: nothing lent or protected goes. *)
Definition shrunk (protected : gset string) (s s' : BundleCache) : Prop :=
  same_bundle_limits s s' /\ bundle_bytes s' <= bundle_bytes s /\ residents s' ⊆ residents s /\
  forall d x, residents s !! d = Some x -> d ∈ protected \/ x.2 <> 0%nat -> residents s' !! d = Some x.

Lemma reservation_admit_Ok cached_bytes cached_entries bytes entries cache_limit r r' :
  reservation_admit cached_bytes cached_entries bytes entries cache_limit bundle_fetch_max_bytes r = (Ok tt, r') ->
  r' = mkBundleFetchInFlight (in_bytes r + bytes) (in_entries r + entries) /\ in_bytes r + bytes <= bundle_fetch_max_bytes /\
  cached_bytes + in_bytes r + bytes <= cache_limit /\ cached_entries + in_entries r + entries <= MAX_CACHED_BUNDLES.
Proof.
  unfold reservation_admit. case_match eqn:E; [|done]. intros [= <-].
  repeat (apply result_bind_Ok in E as (? & ? & E)). simplify_eq.
  repeat match goal with
  | H : ok_or _ _ = Ok _ |- _ => apply ok_or_Ok, checked_add_Some in H as [-> ?]
  | u : unit |- _ => destruct u
  | H : ensure _ _ = Ok tt |- _ => apply ensure_Ok, Z.leb_le in H
  end. split_and!; [done|lia..].
Qed.

Lemma reservation_admit_Err cached_bytes cached_entries bytes entries cache_limit r e r' :
  reservation_admit cached_bytes cached_entries bytes entries cache_limit bundle_fetch_max_bytes r = (Err e, r') -> r' = r.
Proof. unfold reservation_admit. case_match; by intros [= <- <-]. Qed.

Lemma admit_missing_spec protected missing bytes s r :
  bundle_ok s ->
  exists answer s' r', admit_missing bundle_fetch_max_bytes protected missing bytes (s, r) = (answer, (s', r')) /\
    bundle_ok s' /\ shrunk protected s s' /\
    match answer with
    | Err _ => r' = r
    | Ok _ => r' = mkBundleFetchInFlight (in_bytes r + bytes) (in_entries r + len missing) /\
        in_bytes r + bytes <= bundle_fetch_max_bytes /\ bundle_bytes s' + in_bytes r + bytes <= max_bundle_bytes s' /\
        Z.of_nat (size (cached s')) + in_entries r + len missing <= MAX_CACHED_BUNDLES
    end.
Proof.
  intros Hok. unfold admit_missing. assert (Hrefl : shrunk protected s s).
  { refine (conj (conj eq_refl eq_refl) (conj _ (conj _ _))); [lia|done|done]. }
  destruct (_ ≫= _) as [[b n]|e]; [|by eexists _, s, r].
  destruct (evict_idle_to_fit_spec b n protected s Hok) as (r1 & s1 & -> & Hok1 & Hsub & Hl & Hle & Hkeep & _).
  assert (Hsh : shrunk protected s s1).
  { refine (conj Hl (conj Hle (conj (residents_mono _ _ Hsub) _))). intros d x. rewrite !residents_lookup, fmap_Some.
    intros (c & E & ->) Hor. by rewrite (Hkeep d c). }
  destruct r1 as [[]|e]; [|by eexists _, s1, r].
  destruct (reservation_admit _ _ _ _ _ _ _) as [[[]|e] r2] eqn:E; eexists _, s1, r2; (split; [reflexivity|]); (split; [done|]); (split; [done|]).
  - by apply reservation_admit_Ok in E as (-> & ? & ? & ?).
  - by apply reservation_admit_Err in E.
Qed.

Lemma shrunk_lookup protected s s' d :
  shrunk protected s s' ->
  match residents s !! d with
  | Some (b, n) => residents s' !! d = Some (b, n) \/ (n = 0%nat /\ residents s' !! d = None)
  | None => residents s' !! d = None
  end.
Proof.
  intros (_ & _ & Hsub & Hkeep). destruct (residents s !! d) as [[b n]|] eqn:E.
  - destruct n as [|n]; [|left; apply Hkeep; auto]. destruct (residents s' !! d) as [x|] eqn:E'; [left|by right].
    rewrite (lookup_weaken _ _ _ _ E' Hsub) in E. by simplify_eq.
  - destruct (residents s' !! d) as [x|] eqn:E'; [|done]. by rewrite (lookup_weaken _ _ _ _ E' Hsub) in E.
Qed.

(** What an admission leaves of the shared state. *)
Lemma admit_bundles_spec now required supplied k :
  bundle_ok (bundles (hc_cache k)) -> map_Forall (fun d f => bf_bundle_digest f = d /\ 0 <= bf_max_bytes f) supplied ->
  exists answer s' r',
    admit_bundles MAX_TOOL_BUNDLE_BYTES bundle_fetch_max_bytes now required supplied k
      = (answer, mkHandCaches (mkPreparationCache (store (hc_cache k)) s') r') /\
    bundle_ok s' /\ same_bundle_limits (bundles (hc_cache k)) s' /\
    let borrows := match answer with Ok (_, g) => fg_borrows g | Err _ => [] end in
    (forall d, match residents (bundles (hc_cache k)) !! d with
       | Some (b, n) => residents s' !! d = Some (b, (n + count d borrows)%nat) \/ (n = 0%nat /\ count d borrows = 0%nat /\ residents s' !! d = None)
       | None => residents s' !! d = None /\ count d borrows = 0%nat
       end) /\
    match answer with
    | Err _ => r' = hc_reserved k /\ bundle_bytes s' <= bundle_bytes (bundles (hc_cache k))
    | Ok (missing, g) =>
        r' = mkBundleFetchInFlight (in_bytes (hc_reserved k) + fg_bytes g) (in_entries (hc_reserved k) + fg_entries g) /\
        fg_bytes g = sum_max missing /\ fg_entries g = len missing /\
        fg_borrows g ++ map bf_bundle_digest missing ≡ₚ elements (dom required) /\
        Forall (covers (map_to_list required)) missing /\
        in_bytes (hc_reserved k) + fg_bytes g <= bundle_fetch_max_bytes /\
        bundle_bytes s' + in_bytes (hc_reserved k) + fg_bytes g <= max_bundle_bytes s' /\
        Z.of_nat (size (cached s')) + in_entries (hc_reserved k) + fg_entries g <= MAX_CACHED_BUNDLES
    end.
Proof.
  intros Hok Hsup. destruct k as [[st s] r]; cbn [hc_cache bundles store hc_reserved] in *. unfold admit_bundles; cbn [hc_cache bundles store hc_reserved].
  destruct (scan_required_spec now supplied (map_to_list required) [] [] 0 s Hok Hsup)
    as (scan & out & s1 & -> & Hok1 & ([L1 L2] & Hb1 & Hr1) & Hin & Hres). cbn [app].
  destruct scan as [[missing bytes]|e].
  2: { destruct (release_all_spec out s1 Hok1) as (Hok2 & [L3 L4] & Hb2 & Hr2). eexists _, _, r. split; [reflexivity|].
       split; [done|]. split; [split; congruence|]. split; [|split; [done|lia]]. intros d. rewrite Hr2, Hr1. cbn [count].
       destruct (residents s !! d) as [[b n]|]; cbn; [|done]. left. do 2 f_equal. lia. }
  destruct (Hres _ _ eq_refl) as (fetches & Hm & Hbytes & Hperm & Hcov). cbn in Hm; subst missing bytes. rewrite Z.add_0_l.
  destruct (admit_missing_spec (dom required) fetches (sum_max fetches) s1 r Hok1) as (answer & s2 & r2 & -> & Hok2 & Hsh & Hans).
  assert (Hl2 : forall d, match residents s !! d with
    | Some (b, n) => residents s2 !! d = Some (b, (n + count d out)%nat) \/ (n = 0%nat /\ count d out = 0%nat /\ residents s2 !! d = None)
    | None => residents s2 !! d = None /\ count d out = 0%nat end).
  { intros d. pose proof (shrunk_lookup _ _ _ d Hsh) as Hd. rewrite Hr1 in Hd. destruct (residents s !! d) as [[b n]|] eqn:E; cbn in Hd.
    - destruct Hd as [Hd|[Hd1 Hd2]]; [by left | right]. split_and!; [lia|lia|done].
    - split; [done|]. destruct (decide (count d out = 0)%nat) as [|Hc%count_pos]; [done|]. apply Hin in Hc as [x Hx]. congruence. }
  destruct Hsh as ([L3 L4] & Hle & _). destruct answer as [[]|e].
  - eexists _, s2, r2. split; [reflexivity|]. split; [done|]. split; [split; congruence|]. split; [exact Hl2|]. cbn [fg_bytes fg_entries fg_borrows].
    destruct Hans as (-> & H1 & H2 & H3). split_and!; try done. by rewrite Hperm, map_keys_elements.
  - destruct (release_all_spec out s2 Hok2) as (Hok3 & [L5 L6] & Hb3 & Hr3). eexists _, _, r2. split; [reflexivity|].
    split; [done|]. split; [split; congruence|]. split; [|split; [done|lia]]. intros d. rewrite Hr3. cbn [count].
    specialize (Hl2 d). destruct (residents s !! d) as [[b n]|].
    + destruct Hl2 as [->|(-> & _ & ->)]; [left; cbn; do 2 f_equal; lia | by right].
    + destruct Hl2 as [-> _]. done.
Qed.
End admission.

(** ** The invariant of the shared caches *)
Section system.
Context (sha256_hex : list Ascii.ascii -> string).
Context (MAX_TOOL_TERMINAL_INLINE_BYTES MAX_TOOL_BUNDLE_BYTES : Z).
Context (MAX_SESSION_SECRET_NAMES MAX_SESSION_SECRET_NAME_BYTES MAX_MODEL_TOOLS : Z).
Context (digest_resources : ResourceCeiling -> option string) (digest_network : Network -> option string).
Context {R C : Type} `{EqDecision C} (required_capabilities : R -> list C).
Context (digest_descriptor : BundleDescriptor R -> option string) (binding_of_json : list Ascii.ascii -> result string (SealedBinding R)).
Context (canonical_digest : PublicProjection -> option string) (jcs_projection : PublicProjection -> result string (list Ascii.ascii)).
Context (jcs_root_seal : RootSealPayload -> result string (list Ascii.ascii)).
Context (jcs_request : PrepareSessionRequest -> option (list Ascii.ascii)).
Context (image image_version : string) (bundle_fetch_max_bytes max_bytes : Z).

(** Bytes and entries reserved by a fetch whose bundles the cache does not account yet. *)
Definition pending_bytes (o : OpenPreparation) : Z := if o_done o then 0 else fg_bytes (o_guards o).
Definition pending_entries (o : OpenPreparation) : Z := if o_done o then 0 else fg_entries (o_guards o).

(** The clones of [d] outside the cache. *)
Definition borrowed (open : gmap nat OpenPreparation) (users : list string) (d : string) : Z :=
  map_sum (fun o => Z.of_nat (count d (fg_borrows (o_guards o)))) open + Z.of_nat (count d users).

Definition open_ok (o : OpenPreparation) : Prop :=
  fg_bytes (o_guards o) = sum_max (o_missing o) /\ fg_entries (o_guards o) = len (o_missing o) /\
  Forall (covers (map_to_list (o_required o))) (o_missing o) /\
  fg_borrows (o_guards o) ++ map bf_bundle_digest (o_missing o) ≡ₚ elements (dom (o_required o)) /\
  required_bundle_digests MAX_MODEL_TOOLS (cacheable_preparation (o_request o)) = Ok (dom (o_required o)).

Definition holders_exact (s : BundleCache) (open : gmap nat OpenPreparation) (users : list string) : Prop :=
  forall d, match residents s !! d with
            | Some (_, n) => Z.of_nat n = borrowed open users d
            | None => borrowed open users d = 0
            end.

Record system_ok (y : PrepareSystem) : Prop := {
  so_cache : cache_ok (hc_cache (sy_caches y));
  so_store_limits : max_preparation_bytes (store (hc_cache (sy_caches y))) = MAX_CACHED_PREPARATION_BYTES /\
    max_preparations (store (hc_cache (sy_caches y))) = MAX_CACHED_PREPARATIONS;
  so_limits : max_bundle_bytes (bundles (hc_cache (sy_caches y))) = max_bytes /\
    max_bundles (bundles (hc_cache (sy_caches y))) = MAX_CACHED_BUNDLES;
  so_reserved : hc_reserved (sy_caches y) = mkBundleFetchInFlight (map_sum (fun o => fg_bytes (o_guards o)) (sy_open y))
    (map_sum (fun o => fg_entries (o_guards o)) (sy_open y));
  so_fetch : in_bytes (hc_reserved (sy_caches y)) <= bundle_fetch_max_bytes;
  so_bytes : bundle_bytes (bundles (hc_cache (sy_caches y))) + map_sum pending_bytes (sy_open y) <= max_bytes;
  so_entries : Z.of_nat (size (cached (bundles (hc_cache (sy_caches y))))) + map_sum pending_entries (sy_open y) <= MAX_CACHED_BUNDLES;
  so_holders : holders_exact (bundles (hc_cache (sy_caches y))) (sy_open y) (sy_users y);
  so_open : map_Forall (fun _ o => open_ok o) (sy_open y) }.
End system.

(** ** Facts about an open preparation *)
Lemma collect_fetched_spec required results acc fetched :
  collect_fetched required results acc = Ok fetched -> NoDup (map (fun x => bf_bundle_digest x.1) results) ->
  (forall d, d ∉ map (fun x => bf_bundle_digest x.1) results -> fetched !! d = acc !! d) /\
  Forall (fun x => exists bytes, fetched !! bf_bundle_digest x.1 = Some bytes /\
            forall seal, required !! bf_bundle_digest x.1 = Some seal -> len bytes = vb_bytes seal) results.
Proof.
  revert acc. induction results as [|[f answer] results IH]; intros acc; cbn [collect_fetched map fst].
  - intros [= <-] _. split; [done|constructor].
  - intros ([d bytes] & Hc & H)%result_bind_Ok [Hnin Hnd]%NoDup_cons. destruct (IH _ H Hnd) as [Hout Hall].
    unfold check_fetched in Hc. apply result_bind_Ok in Hc as (b & _ & Hc). case_match eqn:E; [|done]. simplify_eq.
    apply Z.eqb_eq in E. split.
    + intros d [Hne Hd]%not_elem_of_cons. rewrite Hout by done. by rewrite lookup_insert_ne.
    + constructor; [|done]. exists bytes. cbn. rewrite Hout, lookup_insert_eq by done. split; [done|]. intros seal Hs.
      rewrite Hs in E. done.
Qed.

Lemma sum_lens_submseteq fetched l1 l2 : l1 ⊆+ l2 -> sum_lens fetched l1 <= sum_lens fetched l2.
Proof.
  induction 1; rewrite ?sum_lens_cons; try lia. pose proof (len_nonneg (default [] (fetched !! x))). lia.
Qed.

Lemma sum_lens_covered fetched l :
  Forall (fun f => len (default [] (fetched !! bf_bundle_digest f)) <= bf_max_bytes f) l ->
  sum_lens fetched (map bf_bundle_digest l) <= sum_max l.
Proof.
  induction 1 as [|f l Hf _ IH]; [done|]. cbn [map]. rewrite sum_lens_cons. unfold sum_max in *; cbn [foldr]. lia.
Qed.

Lemma len_submseteq {A} (l1 l2 : list A) : l1 ⊆+ l2 -> len l1 <= len l2.
Proof. intros H%submseteq_length. unfold len. lia. Qed.

Lemma dom_size_le {V W} (m1 : gmap string V) (m2 : gmap string W) :
  (forall d, is_Some (m1 !! d) -> is_Some (m2 !! d)) -> (size m1 <= size m2)%nat.
Proof.
  intros H. rewrite <- !size_dom. apply subseteq_size. intros d. rewrite !elem_of_dom. apply H.
Qed.

Lemma count_sum_nonneg d (open : gmap nat OpenPreparation) :
  0 <= map_sum (fun o => Z.of_nat (count d (fg_borrows (o_guards o)))) open.
Proof. apply map_sum_nonneg. intros ???. lia. Qed.

Section system_facts.
Context (MAX_MODEL_TOOLS bundle_fetch_max_bytes max_bytes : Z).
Notation open_ok := (open_ok MAX_MODEL_TOOLS).
Notation system_ok := (system_ok MAX_MODEL_TOOLS bundle_fetch_max_bytes max_bytes).

Lemma open_guards_nonneg o : open_ok o -> 0 <= fg_bytes (o_guards o) /\ 0 <= fg_entries (o_guards o).
Proof.
  intros (-> & -> & Hcov & _). split; [|apply len_nonneg]. apply sum_max_nonneg. eapply Forall_impl; [done|]. by intros f [? _].
Qed.

Lemma pending_nonneg (open : gmap nat OpenPreparation) : map_Forall (fun _ o => open_ok o) open ->
  map_Forall (fun _ o => 0 <= pending_bytes o) open /\ map_Forall (fun _ o => 0 <= pending_entries o) open.
Proof.
  intros H. split; intros id o E; apply (map_Forall_lookup_1 _ _ _ _ H), open_guards_nonneg in E as [??];
    unfold pending_bytes, pending_entries; by destruct (o_done o).
Qed.

(** What is pending is reserved. *)
Lemma pending_le (open : gmap nat OpenPreparation) : map_Forall (fun _ o => open_ok o) open ->
  map_sum pending_bytes open <= map_sum (fun o => fg_bytes (o_guards o)) open /\
  map_sum pending_entries open <= map_sum (fun o => fg_entries (o_guards o)) open.
Proof.
  intros H. induction open as [|id o open Hid IH] using map_ind; [by rewrite !map_sum_empty|].
  apply map_Forall_insert in H as [Ho H]; [|done]. rewrite !map_sum_insert_new by done. specialize (IH H).
  apply open_guards_nonneg in Ho. unfold pending_bytes at 1, pending_entries at 1. destruct (o_done o); lia.
Qed.

(** A borrowed buffer is resident. *)
Lemma borrowed_resident s open users id o d :
  holders_exact s open users -> open !! id = Some o -> d ∈ fg_borrows (o_guards o) -> is_Some (residents s !! d).
Proof.
  intros H E Hd%count_pos. specialize (H d). destruct (residents s !! d); [eauto|]. exfalso. unfold borrowed in H.
  pose proof (map_sum_lookup_le (fun o => Z.of_nat (count d (fg_borrows (o_guards o)))) open id o) as Hle. cbn in Hle.
  specialize (Hle ltac:(intros ???; lia) E). lia.
Qed.

(** What an open preparation still has to insert is covered by its reservation. *)
Lemma missing_covered s open users id o results fetched :
  holders_exact s open users -> open !! id = Some o -> open_ok o -> map fst results ≡ₚ o_missing o ->
  collect_fetched (o_required o) results ∅ = Ok fetched ->
  let missing := missing_of s (elements (dom (o_required o))) in
  sum_lens fetched missing <= fg_bytes (o_guards o) /\ len missing <= fg_entries (o_guards o).
Proof.
  intros Hh E (Hb & He & Hcov & Hperm & _) Hres Hc missing.
  assert (Hdig : map (fun x => bf_bundle_digest x.1) results ≡ₚ map bf_bundle_digest (o_missing o)).
  { rewrite <- Hres, map_map. done. }
  assert (Hnd : NoDup (fg_borrows (o_guards o) ++ map bf_bundle_digest (o_missing o))) by (rewrite Hperm; apply NoDup_elements).
  apply NoDup_app in Hnd as (_ & _ & Hnd).
  destruct (collect_fetched_spec _ _ _ _ Hc) as [_ Hall]; [by rewrite Hdig|].
  assert (Hsub : missing ⊆+ map bf_bundle_digest (o_missing o)).
  { apply NoDup_submseteq; [apply NoDup_ListNoDup, List.NoDup_filter, NoDup_ListNoDup, NoDup_elements|]. intros d Hd.
    unfold missing, missing_of in Hd. rewrite list_elem_of_In, filter_In, <- list_elem_of_In in Hd. destruct Hd as [Hd Hm].
    rewrite <- Hperm, elem_of_app in Hd. destruct Hd as [Hd|Hd]; [|done]. exfalso.
    apply negb_true_iff, bool_decide_eq_false in Hm. apply Hm, residents_Some. by eapply borrowed_resident. }
  split; [|rewrite He; apply len_submseteq in Hsub; unfold len in *; by rewrite length_map in Hsub].
  etrans; [by apply sum_lens_submseteq|]. rewrite Hb. apply sum_lens_covered.
  rewrite Forall_forall in Hcov |- *. intros f Hf. destruct (Hcov f Hf) as (_ & seal & Hin & Hle). apply elem_of_map_to_list in Hin.
  rewrite <- Hres in Hf. apply list_elem_of_fmap in Hf as ([f' a] & -> & Hf). rewrite Forall_forall in Hall. destruct (Hall _ Hf) as (bytes & Hl & Hs).
  cbn in *. rewrite Hl. cbn. by rewrite (Hs _ Hin).
Qed.

(** *** Steps that only touch the preparation store *)
Lemma system_ok_store k open users s :
  system_ok (mkPrepareSystem k open users) -> store_ok s -> same_limits (store (hc_cache k)) s ->
  system_ok (mkPrepareSystem (with_store s k) open users).
Proof.
  intros [[Hs Hb] [L1 L2] Hl Hr Hf Hy He Hh Ho] Hs' [L3 L4]. by split; cbn in *; [split|split; congruence|..].
Qed.

Lemma consume_secret_ok session_id capability_ref s :
  store_ok s -> store_ok (consume_secret_capability session_id capability_ref s) /\
                same_limits s (consume_secret_capability session_id capability_ref s).
Proof.
  intros Hok. unfold consume_secret_capability. destruct (sessions s !! session_id) as [p|] eqn:E; [|done].
  destruct (pr_secret_capability _) as [cap|]; [|done]. destruct (str_eqb _ _); [|done]. split; [|done].
  set (p' := mkPreparation _ _ _ _). destruct Hok as (Hpos & Hsum & Hb & Hz & Hne & Hex).
  refine (conj _ (conj _ (conj Hb (conj _ (conj Hne _))))); cbn.
  - intros sid q. rewrite lookup_insert_Some. intros [[_ <-]|[_ H]]; [cbn; eauto | eauto].
  - rewrite (map_sum_insert_over _ _ _ _ _ E); cbn. lia.
  - rewrite map_size_insert_Some by eauto. done.
  - intros r sid. rewrite Hex. destruct (decide (session_id = sid)) as [<-|]; [|by setoid_rewrite lookup_insert_ne].
    rewrite E. setoid_rewrite lookup_insert_eq. split; intros (q & [= <-] & <-); eexists; by split.
Qed.

(** *** Steps that only lend buffers out or take them back *)
Lemma system_ok_lend k open users users' s :
  system_ok (mkPrepareSystem k open users) -> bundle_ok s -> same_bundle_limits (bundles (hc_cache k)) s ->
  bundle_bytes s = bundle_bytes (bundles (hc_cache k)) -> size (residents s) = size (residents (bundles (hc_cache k))) ->
  holders_exact s open users' -> system_ok (mkPrepareSystem (with_bundles s k) open users').
Proof.
  intros [[Hs Hb] Hl0 [L1 L2] Hr Hf Hy He Hh Ho] Hs' [L3 L4] Hbytes Hsize Hh'. rewrite !residents_size in Hsize.
  split; cbn in *; try done; [split; congruence|congruence|congruence].
Qed.

Lemma system_ok_borrow k open users digest bytes s :
  system_ok (mkPrepareSystem k open users) -> bundle_get digest (bundles (hc_cache k)) = (Some bytes, s) ->
  system_ok (mkPrepareSystem (with_bundles s k) open (digest :: users)).
Proof.
  intros Hok Hg. pose proof (so_cache _ _ _ _ Hok) as [_ Hb]; cbn in Hb. pose proof (bundle_get_spec digest _ Hb) as Hs.
  rewrite Hg in Hs. destruct Hs as (Hb' & Hl & Hbytes & Hr & Hres).
  destruct (residents (bundles (hc_cache k)) !! digest) as [[b n]|] eqn:E; [|done].
  apply (system_ok_lend _ _ _ _ _ Hok); [done|done|done| |].
  - rewrite Hres. apply map_size_insert_Some. eauto.
  - intros d. pose proof (so_holders _ _ _ _ Hok d) as Hh; cbn in Hh. rewrite Hres. unfold borrowed in *. cbn [count].
    destruct (decide (digest = d)) as [<-|].
    + rewrite lookup_insert_eq. rewrite E in Hh. lia.
    + rewrite lookup_insert_ne by done. rewrite Nat.add_0_l. done.
Qed.

Lemma system_ok_release k open before digest after :
  system_ok (mkPrepareSystem k open (before ++ digest :: after)) ->
  system_ok (mkPrepareSystem (with_bundles (bundle_release digest (bundles (hc_cache k))) k) open (before ++ after)).
Proof.
  intros Hok. pose proof (so_cache _ _ _ _ Hok) as [_ Hb]; cbn in Hb.
  destruct (bundle_release_spec digest _ Hb) as (Hb' & Hl & Hbytes & Hres).
  apply (system_ok_lend _ _ _ _ _ Hok); [done|done|done| |].
  - rewrite Hres. apply Nat.le_antisymm; apply dom_size_le; intros d; by rewrite lookup_alter_is_Some.
  - intros d. pose proof (so_holders _ _ _ _ Hok d) as Hh; cbn in Hh. rewrite Hres. unfold borrowed in *.
    rewrite count_app in *. cbn [count] in Hh. destruct (decide (digest = d)) as [<-|].
    + pose proof (count_sum_nonneg digest open).
      rewrite lookup_alter_eq. destruct (residents _ !! digest) as [[b n]|]; cbn; lia.
    + rewrite lookup_alter_ne by done. by rewrite Nat.add_0_l in Hh.
Qed.

(** *** Admission *)
Lemma sum_open_insert (f : OpenPreparation -> Z) (open : gmap nat OpenPreparation) id o :
  open !! id = None -> map_sum f (<[id := o]> open) = f o + map_sum f open.
Proof. apply map_sum_insert_new. Qed.

Lemma system_ok_admit MAX_TOOL_BUNDLE_BYTES now k open users id request digest required supplied r k' :
  system_ok (mkPrepareSystem k open users) -> open !! id = None ->
  required_bundle_digests MAX_MODEL_TOOLS (cacheable_preparation request) = Ok (dom required) ->
  map_Forall (fun d f => bf_bundle_digest f = d /\ 0 <= bf_max_bytes f) supplied ->
  admit_bundles MAX_TOOL_BUNDLE_BYTES bundle_fetch_max_bytes now required supplied k = (r, k') ->
  system_ok (mkPrepareSystem k' (match r with
    | Ok (missing, guards) => <[id := mkOpenPreparation request digest required missing guards false]> open
    | Err _ => open end) users).
Proof.
  intros [[Hs Hb] Hl0 [L1 L2] Hr Hf Hy He Hh Ho] Hid Hreq Hsup Hrun; cbn in *.
  destruct (admit_bundles_spec MAX_TOOL_BUNDLE_BYTES bundle_fetch_max_bytes now required supplied k Hb Hsup)
    as (answer & s' & r' & Hrun' & Hb' & [L3 L4] & Hres & Hans).
  rewrite Hrun' in Hrun. injection Hrun as -> <-.
  assert (Hsize : (size (cached s') <= size (cached (bundles (hc_cache k))))%nat).
  { rewrite <- !residents_size. apply dom_size_le. intros d [x Hx]. specialize (Hres d).
    destruct (residents (bundles (hc_cache k)) !! d) as [[b n]|]; [eauto|]. destruct Hres as [Hn _]. congruence. }
  destruct r as [[missing g]|e].
  - destruct Hans as (-> & Hg1 & Hg2 & Hperm & Hcov & H1 & H2 & H3). rewrite Hr in *; cbn [in_bytes in_entries] in *.
    pose proof (pending_le open Ho) as [Hp1 Hp2].
    assert (Hnew : open_ok (mkOpenPreparation request digest required missing g false)) by done.
    set (o := mkOpenPreparation request digest required missing g false) in *.
    assert (Ep : pending_bytes o = fg_bytes g /\ pending_entries o = fg_entries g) by done. destruct Ep as [Ep1 Ep2].
    split; cbn; try done; rewrite ?sum_open_insert by done; rewrite ?Ep1, ?Ep2;
      [split; congruence | cbn; f_equal; lia | lia | lia | | by apply map_Forall_insert_2].
    intros d. specialize (Hh d). specialize (Hres d). unfold borrowed in *. rewrite sum_open_insert by done. cbn.
    destruct (residents (bundles (hc_cache k)) !! d) as [[b n]|]; [destruct Hres as [->|(-> & -> & ->)]|destruct Hres as [-> ->]]; lia.
  - destruct Hans as [-> Hle]. split; cbn; try done; [split; congruence|lia|lia|].
    intros d. specialize (Hh d). specialize (Hres d). cbn [count] in Hres. unfold borrowed in *.
    destruct (residents (bundles (hc_cache k)) !! d) as [[b n]|]; [destruct Hres as [->|(-> & _ & ->)]|destruct Hres as [-> _]]; lia.
Qed.

(** *** The drop of the guards *)
Lemma system_ok_drop k open users id o :
  system_ok (mkPrepareSystem k open users) -> open !! id = Some o ->
  system_ok (mkPrepareSystem (drop_guards (o_guards o) k) (delete id open) users).
Proof.
  intros [[Hs Hb] Hl0 [L1 L2] Hr Hf Hy He Hh Ho] E; cbn in *.
  destruct (release_all_spec (fg_borrows (o_guards o)) (bundles (hc_cache k)) Hb) as (Hb' & [L3 L4] & Hbytes & Hres).
  assert (Ho' : map_Forall (fun _ o => open_ok o) (delete id open)) by by apply map_Forall_delete.
  destruct (pending_nonneg _ Ho) as [Hp1 Hp2]. pose proof (Hp1 _ _ E) as Hq1. pose proof (Hp2 _ _ E) as Hq2. cbn in Hq1, Hq2.
  destruct (pending_nonneg _ Ho') as [Hn1%map_sum_nonneg Hn2%map_sum_nonneg]. destruct (pending_le _ Ho') as [Hle1 Hle2].
  destruct (open_guards_nonneg o (Ho _ _ E)) as [Hg1 Hg2].
  pose proof (map_sum_delete (fun o => fg_bytes (o_guards o)) _ _ _ E) as D1.
  pose proof (map_sum_delete (fun o => fg_entries (o_guards o)) _ _ _ E) as D2.
  pose proof (map_sum_delete pending_bytes _ _ _ E) as D3. pose proof (map_sum_delete pending_entries _ _ _ E) as D4.
  assert (Hsize : (size (cached (release_all (fg_borrows (o_guards o)) (bundles (hc_cache k)))) <= size (cached (bundles (hc_cache k))))%nat).
  { rewrite <- !residents_size. apply dom_size_le. intros d [x Hx]. rewrite Hres in Hx.
    destruct (residents (bundles (hc_cache k)) !! d); [eauto|done]. }
  cbn beta in *. rewrite Hr in *. unfold drop_guards, reservation_drop, saturating_sub.
  split; cbn [sy_caches sy_open sy_users hc_cache hc_reserved store bundles in_bytes in_entries] in *; try done;
    [split; congruence | rewrite Hr; cbn; f_equal; lia | rewrite Hr; cbn; lia | lia | lia |].
  intros d. specialize (Hh d). rewrite Hres. unfold borrowed in *.
  pose proof (map_sum_delete (fun o => Z.of_nat (count d (fg_borrows (o_guards o)))) _ _ _ E) as Dd. cbn beta in Dd.
  pose proof (count_sum_nonneg d (delete id open)).
  destruct (residents (bundles (hc_cache k)) !! d) as [[b n]|]; cbn; lia.
Qed.

(** *** Installation *)
Lemma install_effect (s s' : BundleCache) fetched required r open users :
  bundles_installed fetched required r s s' -> holders_exact s open users -> holders_exact s' open users.
Proof.
  intros (_ & Hkeep & _ & _ & Hback & _) Hh d. specialize (Hh d). destruct (residents s' !! d) as [[b n]|] eqn:E'.
  - destruct (Hback _ _ E') as [E|(_ & _ & E & [= _ ->])]; rewrite E in Hh; lia.
  - destruct (residents s !! d) as [[b n]|] eqn:E; [|done]. destruct n as [|n]; [lia|].
    rewrite (Hkeep d _ E) in E' by (left; done). done.
Qed.

(** Room for everything an open preparation may still insert. *)
Lemma install_room k open users id o results fetched :
  system_ok (mkPrepareSystem k open users) -> open !! id = Some o -> o_done o = false -> map fst results ≡ₚ o_missing o ->
  collect_fetched (o_required o) results ∅ = Ok fetched ->
  let s := bundles (hc_cache k) in
  let missing := missing_of s (elements (dom (o_required o))) in
  room_for s (sum_lens fetched missing) (len missing) = true.
Proof.
  intros Hok E Hd Hres Hc s missing. destruct Hok as [[Hs Hb] Hl0 [L1 L2] Hr Hf Hy He Hh Ho]; cbn in *.
  destruct (missing_covered _ _ _ _ _ _ _ Hh E (Ho _ _ E) Hres Hc) as [H1 H2]. fold s missing in H1, H2.
  assert (Ho' : map_Forall (fun _ o => open_ok o) (delete id open)) by by apply map_Forall_delete.
  destruct (pending_nonneg _ Ho') as [Hn1%map_sum_nonneg Hn2%map_sum_nonneg].
  pose proof (map_sum_delete pending_bytes _ _ _ E) as D3. pose proof (map_sum_delete pending_entries _ _ _ E) as D4.
  unfold pending_bytes at 2 in D3. unfold pending_entries at 2 in D4. rewrite Hd in D3, D4.
  destruct Hb as (_ & Hb2 & Hb3). fold s in Hb2, Hb3, Hy, He, L1, L2. unfold room_for. rewrite andb_true_iff, !fits_true. lia.
Qed.

Lemma system_ok_install jcs_request k open users id o results fetched r k' :
  system_ok (mkPrepareSystem k open users) -> open !! id = Some o -> o_done o = false -> map fst results ≡ₚ o_missing o ->
  collect_fetched (o_required o) results ∅ = Ok fetched ->
  install_fetched MAX_MODEL_TOOLS jcs_request (o_request o) (o_digest o) fetched k = (r, k') ->
  system_ok (mkPrepareSystem k'
    (<[id := mkOpenPreparation (o_request o) (o_digest o) (o_required o) (o_missing o) (o_guards o) true]> open) users).
Proof.
  intros Hok E Hd Hres Hc Hrun. pose proof (install_room _ _ _ _ _ _ _ Hok E Hd Hres Hc) as Hroom.
  destruct Hok as [[Hs Hb] Hl0 [L1 L2] Hr Hf Hy He Hh Ho]; cbn in *.
  destruct (missing_covered _ _ _ _ _ _ _ Hh E (Ho _ _ E) Hres Hc) as [H1 H2].
  set (o' := mkOpenPreparation _ _ _ _ _ true). assert (Hpo : pending_bytes o' = 0 /\ pending_entries o' = 0) by done.
  destruct Hpo as [P1 P2]. assert (Ep : pending_bytes o = fg_bytes (o_guards o) /\ pending_entries o = fg_entries (o_guards o)).
  { unfold pending_bytes, pending_entries. by rewrite Hd. } destruct Ep as [Q1 Q2].
  destruct (open_guards_nonneg o (Ho _ _ E)) as [Hg1 Hg2].
  unfold install_fetched in Hrun.
  destruct (cache_install_spec MAX_MODEL_TOOLS jcs_request (cacheable_preparation (o_request o)) (o_digest o) fetched (hc_cache k) (conj Hs Hb))
    as (r1 & c' & Hrun' & Hc' & Hans). rewrite Hrun' in Hrun. injection Hrun as <- <-.
  assert (Hall : same_limits (store (hc_cache k)) (store c') /\ same_bundle_limits (bundles (hc_cache k)) (bundles c') /\
    bundle_bytes (bundles c') <= bundle_bytes (bundles (hc_cache k)) + fg_bytes (o_guards o) /\
    Z.of_nat (size (cached (bundles c'))) <= Z.of_nat (size (cached (bundles (hc_cache k)))) + fg_entries (o_guards o) /\
    holders_exact (bundles c') open users).
  { destruct (install_checks _ _ _ _ _ _) as [[required metadata]|e]; [|destruct Hans as [-> ->]; by repeat split; [lia|lia|]].
    destruct Hans as (Hreq & Hbi & [Hsl _] & _). destruct (Ho _ _ E) as (_ & _ & _ & _ & Hreq'). rewrite Hreq' in Hreq. injection Hreq as <-.
    pose proof (install_effect _ _ _ _ _ _ _ Hbi Hh). destruct Hbi as (Hbl & _ & B1 & B2 & _). split; [done|]. split; [done|].
    destruct (is_ok r1); split_and!; try done; lia. }
  destruct Hall as ([S1 S2] & [B1 B2] & Hle1 & Hle2 & Hh').
  split; cbn; try done; rewrite ?(map_sum_insert_over _ _ _ _ o' E), ?P1, ?P2, ?Q1, ?Q2.
  - destruct Hl0. split; congruence.
  - split; congruence.
  - rewrite Hr. cbn. f_equal; lia.
  - lia.
  - lia.
  - intros d. specialize (Hh' d). unfold borrowed in *. rewrite (map_sum_insert_over _ _ _ _ o' E). cbn.
    destruct (residents _ !! d) as [[b n]|]; lia.
  - apply map_Forall_insert_2; [|done]. apply (Ho _ _ E).
Qed.
End system_facts.

(** ** Theorems *)
Section theorems.
Context (sha256_hex : list Ascii.ascii -> string).
Context (MAX_TOOL_TERMINAL_INLINE_BYTES MAX_TOOL_BUNDLE_BYTES : Z).
Context (MAX_SESSION_SECRET_NAMES MAX_SESSION_SECRET_NAME_BYTES MAX_MODEL_TOOLS : Z).
Context (digest_resources : ResourceCeiling -> option string) (digest_network : Network -> option string).
Context {R C : Type} `{EqDecision C} (required_capabilities : R -> list C).
Context (digest_descriptor : BundleDescriptor R -> option string) (binding_of_json : list Ascii.ascii -> result string (SealedBinding R)).
Context (canonical_digest : PublicProjection -> option string) (jcs_projection : PublicProjection -> result string (list Ascii.ascii)).
Context (jcs_root_seal : RootSealPayload -> result string (list Ascii.ascii)).
Context (jcs_request : PrepareSessionRequest -> option (list Ascii.ascii)).
Context (image image_version : string) (bundle_fetch_max_bytes max_bytes : Z).
Notation definitions := (prepare_definitions sha256_hex MAX_TOOL_TERMINAL_INLINE_BYTES MAX_TOOL_BUNDLE_BYTES MAX_SESSION_SECRET_NAMES
  MAX_SESSION_SECRET_NAME_BYTES MAX_MODEL_TOOLS digest_resources digest_network required_capabilities digest_descriptor binding_of_json
  canonical_digest jcs_projection jcs_root_seal image image_version).
Notation reachable := (prepare_reachable sha256_hex MAX_TOOL_TERMINAL_INLINE_BYTES MAX_TOOL_BUNDLE_BYTES MAX_SESSION_SECRET_NAMES
  MAX_SESSION_SECRET_NAME_BYTES MAX_MODEL_TOOLS digest_resources digest_network required_capabilities digest_descriptor binding_of_json
  canonical_digest jcs_projection jcs_root_seal jcs_request image image_version bundle_fetch_max_bytes max_bytes).
Notation system_ok := (system_ok MAX_MODEL_TOOLS bundle_fetch_max_bytes max_bytes).

(** What the definition phases hand to the admission. *)
Lemma definitions_validated request root_now row_now required supplied digest :
  Forall (fun fetch => 0 <= bf_max_bytes fetch) (pr_bundles request) ->
  may_return (definitions request root_now row_now) (Ok (required, supplied, digest)) ->
  required_bundle_digests MAX_MODEL_TOOLS (cacheable_preparation request) = Ok (dom required) /\
  map_Forall (fun d f => bf_bundle_digest f = d /\ 0 <= bf_max_bytes f) supplied.
Proof.
  intros Hpos ([[required' supplied'] projection] & Hv & H)%may_return_step. apply may_return_step in H as (dg & _ & Heq).
  cbn in Heq. injection Heq as -> -> ->. unfold validate_prepare_request in Hv.
  destruct (_ || _) eqn:Eb; [done|]. apply orb_false_iff in Eb as [_ Hlen%Z.ltb_ge].
  apply may_return_step in Hv as (pr & _ & Hv). apply may_return_step in Hv as (spec & _ & Hv).
  apply may_return_step in Hv as (req & Hreq & Hv). apply may_return_step in Hv as (sup & Hsup & Heq).
  cbn in Heq. injection Heq as -> -> ->. split; [by eapply validated_digests|].
  apply (supplied_fetches_spec required (pr_bundles request) ∅ supplied (fun f => 0 <= bf_max_bytes f) Hsup Hpos). apply map_Forall_empty.
Qed.

Lemma initial_ok : 0 <= bundle_fetch_max_bytes -> 0 <= max_bytes <= U64_MAX -> system_ok (prepare_initial max_bytes).
Proof.
  intros Hf Hm. split; cbn; rewrite ?map_sum_empty; try done; try lia.
  - split; [|by repeat split; cbn; rewrite ?map_sum_empty; try lia].
    refine (conj _ (conj _ (conj _ (conj _ (conj _ _))))); cbn; rewrite ?map_sum_empty; try done.
    intros r sid. rewrite lookup_empty. cbn. split; [by intros ?%not_elem_of_empty | intros (p & E & _); by rewrite lookup_empty in E].
Qed.

Lemma step_ok y y' : system_ok y -> prepare_step sha256_hex MAX_TOOL_TERMINAL_INLINE_BYTES MAX_TOOL_BUNDLE_BYTES MAX_SESSION_SECRET_NAMES
  MAX_SESSION_SECRET_NAME_BYTES MAX_MODEL_TOOLS digest_resources digest_network required_capabilities digest_descriptor binding_of_json
  canonical_digest jcs_projection jcs_root_seal jcs_request image image_version bundle_fetch_max_bytes y y' -> system_ok y'.
Proof.
  intros Hok Hstep. destruct Hstep.
  - match goal with H : may_return _ _ |- _ => apply definitions_validated in H as [Hreq Hsup]; [|done] end.
    by eapply system_ok_admit.
  - by eapply system_ok_install.
  - by apply system_ok_drop.
  - pose proof (store_get_spec session_id (store (hc_cache k)) (proj1 (so_cache _ _ _ _ Hok))) as Hg.
    destruct (store_get _ _) as [r s]. destruct Hg as (Hs & Hl & _). by apply system_ok_store.
  - by eapply system_ok_borrow.
  - by apply system_ok_release.
  - destruct (consume_secret_ok session_id capability_ref _ (proj1 (so_cache _ _ _ _ Hok))) as [Hs Hl]. by apply system_ok_store.
  - pose proof (store_purge_root_page_spec root_id limit _ (proj1 (so_cache _ _ _ _ Hok))) as Hg. cbn [sy_caches hc_cache store] in Hg.
    destruct (store_purge_root_page _ _ _) as [r s]. destruct Hg as (Hs & Hl & _). by apply system_ok_store.
Qed.

Lemma reachable_ok y : 0 <= bundle_fetch_max_bytes -> 0 <= max_bytes <= U64_MAX -> reachable y -> system_ok y.
Proof.
  intros Hf Hm Hr. pose proof (initial_ok Hf Hm) as H0. unfold prepare_reachable in Hr.
  induction Hr as [|y1 y2 y3 Hs _ IH]; [done|]. apply IH. by eapply step_ok.
Qed.

(** C37: The shared caches never exceed their budgets: whatever preparations, operations, purges and cancellations
    interleave, the cached bundle bytes are exactly accounted and, together with everything admitted fetches may
    still insert, stay within the configured cache; entries likewise; all reserved fetch bytes stay within the
    fetch budget and are exactly those of the open preparations; the preparation metadata stays within its own
    bounds; and a buffer that a preparation or an operation holds is never evicted. *)
Theorem prepared_bundles_stay_admitted y :
  0 <= bundle_fetch_max_bytes -> 0 <= max_bytes <= U64_MAX -> reachable y ->
  let s := bundles (hc_cache (sy_caches y)) in
  let st := store (hc_cache (sy_caches y)) in
  bundle_bytes s = map_sum cache_len (cached s) /\
  bundle_bytes s + map_sum pending_bytes (sy_open y) <= max_bytes /\
  Z.of_nat (size (cached s)) + map_sum pending_entries (sy_open y) <= MAX_CACHED_BUNDLES /\
  in_bytes (hc_reserved (sy_caches y)) = map_sum (fun o => fg_bytes (o_guards o)) (sy_open y) /\
  in_bytes (hc_reserved (sy_caches y)) <= bundle_fetch_max_bytes /\
  preparation_bytes st = map_sum p_metadata_bytes (sessions st) /\ preparation_bytes st <= MAX_CACHED_PREPARATION_BYTES /\
  Z.of_nat (size (sessions st)) <= MAX_CACHED_PREPARATIONS /\
  (forall id o d, sy_open y !! id = Some o -> d ∈ fg_borrows (o_guards o) -> is_Some (cached s !! d)) /\
  (forall d, d ∈ sy_users y -> is_Some (cached s !! d)).
Proof.
  intros Hf Hm Hr s st. destruct (reachable_ok y Hf Hm Hr) as [[Hs Hb] [M1 M2] _ Hres Hfetch Hy He Hh Ho].
  fold s in Hb, Hy, He, Hh. fold st in Hs, M1, M2. destruct Hb as (Hb & _). destruct Hs as (_ & Hsum & Hbytes & Hsize & _).
  rewrite Hres in Hfetch |- *. cbn in *. split_and!; try done; try lia.
  - intros id o d E Hd. apply residents_Some. by eapply borrowed_resident.
  - intros d Hd%count_pos. apply residents_Some. specialize (Hh d). destruct (residents s !! d); [eauto|]. exfalso.
    unfold borrowed in Hh. pose proof (count_sum_nonneg d (sy_open y)). lia.
Qed.

End theorems.

Lemma run_db_may_return {A : Type} pages (m : Db A) t : may_return m (run_db pages m t).1.
Proof.
  revert t. induction m as [a|key k IH|ws k IH|root prefix start limit k IH]; intros t; cbn; [done|eauto..].
  destruct (apply_writes ws t); eauto.
Qed.

(** A concrete preparation: one binding with one bundle of three bytes. *)
Module Sample.
Definition sha (l : list Ascii.ascii) : string := "aaaaaaaaaaaaaaaaaaaaaaaaaaaaaaaaaaaaaaaaaaaaaaaaaaaaaaaaaaaaaaaa".
Definition descriptor : BundleDescriptor unit := mkBundleDescriptor Node22 3 3 "d-1" "d-1" [] "contract" tt.
Definition binding : SealedBinding unit := mkSealedBinding "r-1" "s-1" "cap" AexManaged (Some descriptor) "contract" tt.
Definition request : PrepareSessionRequest :=
  mkPrepareSessionRequest "s-1" "r-1" [mkPreparedBindingBundles "b-1" ["d-1"]] [mkBundleFetch "d-1" 1000 8 "https://store/d-1" []]
    NetNone (mkResourceCeiling 1000 100) None.
Definition table : Table :=
  {[ ("r-1", "binding:b-1") := Definitions.item (mkDefinitionRecord "r-1" Binding "b-1" (sha []) (bytes_of "{}") 5) ]}.
Definition definitions := prepare_definitions sha 4096 4096 4 64 8 (fun _ => Some (sha [])) (fun _ => Some (sha []))
  (fun _ : unit => @nil unit) (fun _ => Some "dd-1") (fun _ => Ok binding) (fun _ => Some "pd-1") (fun _ => Ok (bytes_of "{}"))
  (fun _ => Ok (bytes_of "{}")) "image" "1".
Definition no_pages (_ : Table) (_ _ : string) (_ : option string) (_ : Z) : list Item * option string := ([], None).

Definition required : gmap string ValidatedPreparedBundle := {["d-1" := mkValidatedPreparedBundle 3 "dd-1" "d-1"]}.
Definition fetch : BundleFetch := mkBundleFetch "d-1" 1000 8 "https://store/d-1" [].
Definition supplied : gmap string BundleFetch := {["d-1" := fetch]}.
Definition initial : HandCaches := sy_caches (prepare_initial 4096).
Definition guards : FetchGuards := mkFetchGuards 8 1 [].
Definition opened : OpenPreparation := mkOpenPreparation request "pd-1" required [fetch] guards false.
Definition system : PrepareSystem :=
  mkPrepareSystem (admit_bundles 4096 64 10 required supplied initial).2 {[ 0%nat := opened ]} [].

(** The request is validated against the table and admitted. *)
Lemma system_reachable :
  prepare_reachable sha 4096 4096 4 64 8 (fun _ => Some (sha [])) (fun _ => Some (sha [])) (fun _ : unit => @nil unit)
    (fun _ => Some "dd-1") (fun _ => Ok binding) (fun _ => Some "pd-1") (fun _ => Ok (bytes_of "{}")) (fun _ => Ok (bytes_of "{}"))
    (fun _ => Some (bytes_of "{}")) "image" "1" 64 4096 system.
Proof.
  apply rtc_once. eapply (PrepareAdmit _ _ _ _ _ _ _ _ _ _ _ _ _ _ _ _ _ _ initial ∅ [] 0%nat request "pd-1" required supplied 5 6 10
    (Ok ([fetch], guards)) (admit_bundles 4096 64 10 required supplied initial).2).
  - done.
  - by repeat constructor.
  - pose proof (run_db_may_return no_pages (definitions request 5 6) table) as H.
    assert (E : (run_db no_pages (definitions request 5 6) table).1 = Ok (required, supplied, "pd-1")) by (vm_compute; reflexivity).
    rewrite E in H. exact H.
  - vm_compute. reflexivity.
Qed.
End Sample.

Lemma prepared_bundles_stay_admitted_witness :
  0 <= 64 /\ 0 <= 4096 <= U64_MAX /\
  bundle_bytes (bundles (hc_cache (sy_caches Sample.system))) + map_sum pending_bytes (sy_open Sample.system) <= 4096.
Proof.
  assert (H1 : 0 <= 64) by lia. assert (H2 : 0 <= 4096 <= U64_MAX) by (unfold U64_MAX; lia). split; [exact H1|]. split; [exact H2|].
  exact (proj1 (proj2 (prepared_bundles_stay_admitted _ _ _ _ _ _ _ _ _ _ _ _ _ _ _ _ _ _ _ _ H1 H2 Sample.system_reachable))).
Defined.

