(* ===== verification/Prog.v ===== *)
(** * Programs as trees of calls

    The vocabulary in which the request handlers of crates/hand-brain-aws are modelled: a handler is a tree
    whose nodes are the calls it makes on the components beside it, branching on every possible answer. What
    it can do is a trace of calls and answers; a program logic over the trace so far proves that every call of
    every trace is allowed there. The components' own models say which answers they give. *)
From S2P Require Import Prelude.

Lemma exists_rev {A} (P : A -> Prop) l : Exists P (rev l) <-> Exists P l.
Proof. rewrite !Exists_exists. split; intros (x & Hx & HP); exists x; (split; [|done]); by apply list_elem_of_In, in_rev; rewrite ?rev_involutive; apply list_elem_of_In. Qed.

(** ** Programs and their traces *)
Inductive Prog (C : Type -> Type) (A : Type) : Type :=
  | Ret (a : A)
  | Do {X : Type} (c : C X) (k : X -> Prog C A).
Arguments Ret {C A} a.
Arguments Do {C A X} c k.

Inductive Event (C : Type -> Type) : Type :=
  | Ev {X : Type} (c : C X) (x : X).
Arguments Ev {C X} c x.

Section programs.
Context {C : Type -> Type}.
Notation Trace := (list (Event C)).

Fixpoint prog_bind {A B : Type} (p : Prog C A) (f : A -> Prog C B) : Prog C B :=
  match p with Ret a => f a | Do c k => Do c (fun x => prog_bind (k x) f) end.

(** [runs p tr a]: some answers make [p] perform exactly [tr] and return [a]. *)
Fixpoint runs {A : Type} (p : Prog C A) (tr : Trace) (a : A) : Prop :=
  match p with
  | Ret b => tr = [] /\ a = b
  | Do c k => exists x tr', tr = Ev c x :: tr' /\ runs (k x) tr' a
  end.

(** Fallible programs: an error ends the handler, its calls stay made. *)
Definition ProgM (E A : Type) : Type := Prog C (result E A).

#[global] Instance ProgM_ret {E} : MRet (ProgM E) := fun A a => Ret (Ok a).
#[global] Instance ProgM_bind {E} : MBind (ProgM E) := fun A B f m =>
  prog_bind m (fun r => match r with Ok a => f a | Err e => Ret (Err e) end).

Definition call {E X : Type} (c : C X) : ProgM E X := Do c (fun x => Ret (Ok x)).
(** A fallible call, its error mapped. *)
Definition try_call {E F X : Type} (f : F -> E) (c : C (result F X)) : ProgM E X := Do c (fun x => Ret (map_err f x)).
Definition prog_throw {E A : Type} (e : E) : ProgM E A := Ret (Err e).
Definition prog_lift {E A : Type} (r : result E A) : ProgM E A := Ret r.
Definition prog_observe {E F A : Type} (m : ProgM E A) : ProgM F (result E A) := prog_bind m (fun r => Ret (Ok r)).
Definition prog_map_err {E F A : Type} (f : E -> F) (m : ProgM E A) : ProgM F A := prog_bind m (fun r => Ret (map_err f r)).

(** A guard held while [m] runs, dropped on every way out of it. *)
Definition holding {E A X Y : Type} (acquire : C X) (release : C Y) (m : ProgM E A) : ProgM E A :=
  Do acquire (fun _ => prog_bind m (fun r => Do release (fun _ => Ret r))).

(** ** What a run may do

    A history is newest first. [wp ok p h Q]: after [h], every call of [p] is allowed by [ok] where it is made,
    and [p] can only return where [Q] holds. *)
Section logic.
Context (ok : Trace -> Event C -> Prop).

Fixpoint wp {A : Type} (p : Prog C A) (h : Trace) (Q : A -> Trace -> Prop) : Prop :=
  match p with
  | Ret a => Q a h
  | Do c k => forall x, ok h (Ev c x) /\ wp (k x) (Ev c x :: h) Q
  end.

Lemma wp_mono {A} (p : Prog C A) h (Q Q' : A -> Trace -> Prop) :
  wp p h Q -> (forall a h', Q a h' -> Q' a h') -> wp p h Q'.
Proof.
  intros Hp HQ. revert h Hp. induction p as [a | X c k IH]; cbn; intros h Hp; [by apply HQ|].
  intros x. destruct (Hp x) as [Ho Hk]. eauto.
Qed.

Lemma wp_bind {A B} (p : Prog C A) (f : A -> Prog C B) h Q :
  wp p h (fun a h' => wp (f a) h' Q) -> wp (prog_bind p f) h Q.
Proof.
  revert h. induction p as [a | X c k IH]; cbn; intros h Hp; [done|].
  intros x. destruct (Hp x) as [Ho Hk]. eauto.
Qed.

(** The events of a history, each with the history before it. *)
Definition allowed (h : Trace) : Prop := forall newer e older, h = newer ++ e :: older -> ok older e.

Lemma allowed_cons e h : ok h e -> allowed h -> allowed (e :: h).
Proof. intros He Hh newer e' older Heq. destruct newer as [|n newer]; cbn in Heq; simplify_eq; [done|]. by eapply Hh. Qed.

Lemma wp_runs {A} (p : Prog C A) h Q tr a :
  wp p h Q -> runs p tr a -> allowed h -> Q a (rev tr ++ h) /\ allowed (rev tr ++ h).
Proof.
  revert h tr. induction p as [b | X c k IH]; cbn; intros h tr Hp Hr Hh.
  - destruct Hr as [-> ->]. done.
  - destruct Hr as (x & tr' & -> & Hr). destruct (Hp x) as [Ho Hk].
    cbn [rev]. rewrite <- app_assoc. cbn [app]. eapply IH; eauto. by apply allowed_cons.
Qed.

(** From the start: the conclusions in the order of the trace. *)
Lemma wp_sound {A} (p : Prog C A) Q tr a :
  wp p [] Q -> runs p tr a ->
  Q a (rev tr) /\ forall before e after, tr = before ++ e :: after -> ok (rev before) e.
Proof.
  intros Hp Hr. destruct (wp_runs p [] Q tr a Hp Hr) as [HQ Hok].
  { intros newer e older Heq. by destruct newer. }
  rewrite app_nil_r in HQ, Hok. split; [done|]. intros before e after ->.
  apply (Hok (rev after)). by rewrite rev_app_distr; cbn [rev]; rewrite <- app_assoc.
Qed.
End logic.

(** ** Which calls a program contains *)
Fixpoint calls_in {A : Type} (P : forall X, C X -> Prop) (p : Prog C A) : Prop :=
  match p with Ret _ => True | Do c k => P _ c /\ forall x, calls_in P (k x) end.

Definition ev_in (P : forall X, C X -> Prop) (e : Event C) : Prop := match e with Ev c _ => P _ c end.

Lemma calls_in_mono {A} (P P' : forall X, C X -> Prop) (p : Prog C A) :
  (forall X c, P X c -> P' X c) -> calls_in P p -> calls_in P' p.
Proof. intros HP. induction p as [a | X c k IH]; cbn; [done|]. intros [Hc Hk]. split; [by apply HP|]. intros x. by apply IH. Qed.

Lemma calls_in_bind {A B} P (p : Prog C A) (f : A -> Prog C B) :
  calls_in P p -> (forall a, calls_in P (f a)) -> calls_in P (prog_bind p f).
Proof. intros Hp Hf. induction p as [a | X c k IH]; cbn in *; [done|]. destruct Hp as [Hc Hk]. split; [done|]. intros x. by apply IH. Qed.

(** A program all of whose calls are always allowed only extends the history. *)
Lemma wp_calls {A} (ok : Trace -> Event C -> Prop) P (p : Prog C A) h :
  (forall X (c : C X) x h', P X c -> ok h' (Ev c x)) -> calls_in P p ->
  wp ok p h (fun _ h' => exists t, h' = t ++ h /\ Forall (ev_in P) t).
Proof.
  intros Hok. revert h. induction p as [a | X c k IH]; cbn; intros h Hp; [by exists []|].
  destruct Hp as [Hc Hk]. intros x. split; [by apply Hok|]. eapply wp_mono; [by apply IH|].
  cbn. intros a h' (t & -> & Ht). exists (t ++ [Ev c x]). rewrite <- app_assoc. split; [done|].
  apply Forall_app. split; [done|]. by constructor.
Qed.

Lemma runs_calls {A} P (p : Prog C A) tr a : calls_in P p -> runs p tr a -> Forall (ev_in P) tr.
Proof.
  revert tr. induction p as [b | X c k IH]; cbn; intros tr Hp Hr.
  - by destruct Hr as [-> _].
  - destruct Hp as [Hc Hk], Hr as (x & tr' & -> & Hr). constructor; eauto.
Qed.

Lemma runs_bind {A B} (p : Prog C A) (f : A -> Prog C B) tr b :
  runs (prog_bind p f) tr b <-> exists a t1 t2, tr = t1 ++ t2 /\ runs p t1 a /\ runs (f a) t2 b.
Proof.
  revert tr. induction p as [a | X c k IH]; cbn; intros tr.
  - split; [intros Hr; by exists a, [], tr|]. by intros (a' & t1 & t2 & -> & [-> ->] & Hr).
  - split.
    + intros (x & tr' & -> & Hr). apply IH in Hr as (a & t1 & t2 & -> & H1 & H2).
      exists a, (Ev c x :: t1), t2. split; [done|]. split; [by exists x, t1|done].
    + intros (a & t1 & t2 & -> & (x & tr' & -> & H1) & H2). exists x, (tr' ++ t2). split; [done|].
      apply IH. by exists a, tr', t2.
Qed.

(** Inversion of a run that succeeded. *)
Lemma runs_mbind_Ok {E A B} (m : ProgM E A) (f : A -> ProgM E B) tr b :
  runs (m ≫= f) tr (Ok b) <-> exists a t1 t2, tr = t1 ++ t2 /\ runs m t1 (Ok a) /\ runs (f a) t2 (Ok b).
Proof.
  unfold mbind, ProgM_bind. rewrite runs_bind. split.
  - intros ([a|e] & t1 & t2 & -> & H1 & H2); [by exists a, t1, t2|]. by destruct H2 as [_ H2].
  - intros (a & t1 & t2 & -> & H1 & H2). by exists (Ok a), t1, t2.
Qed.

Lemma runs_lift_Ok {E A} (r : result E A) tr a : runs (prog_lift r) tr (Ok a) <-> tr = [] /\ r = Ok a.
Proof. unfold prog_lift. cbn. naive_solver. Qed.

Lemma runs_call_Ok {E X} (c : C X) tr a : runs (call c : ProgM E X) tr (Ok a) <-> tr = [Ev c a].
Proof. unfold call. cbn. split; [by intros (x & tr' & -> & -> & [= <-])|]. intros ->. by exists a, []. Qed.

(** How many events of a history satisfy [P]. *)
Fixpoint count (P : Event C -> bool) (h : Trace) : nat :=
  match h with [] => 0%nat | e :: h => ((if P e then 1 else 0) + count P h)%nat end.

Lemma count_events_app P h h' : count P (h ++ h') = (count P h + count P h')%nat.
Proof. induction h; cbn; lia. Qed.

Lemma count_rev P h : count P (rev h) = count P h.
Proof. induction h; cbn; [done|]. rewrite count_events_app. cbn. lia. Qed.

(** ** Running against a world *)
Section world.
Context {W : Type} (answer : forall X, C X -> W -> X * W).

Fixpoint exec {A : Type} (p : Prog C A) (w : W) : A * Trace * W :=
  match p with
  | Ret a => (a, [], w)
  | Do c k => let '(x, w) := answer _ c w in let '(a, tr, w) := exec (k x) w in (a, Ev c x :: tr, w)
  end.

Lemma exec_runs {A} (p : Prog C A) w : runs p (exec p w).1.2 (exec p w).1.1.
Proof.
  revert w. induction p as [a | X c k IH]; cbn; intros w; [done|].
  destruct (answer X c w) as [x w']. specialize (IH x w'). destruct (exec (k x) w') as [[a tr] w'']. cbn in *. eauto.
Qed.

Lemma exec_do {A X} (c : C X) (k : X -> Prog C A) w :
  (exec (Do c k) w).1.1 = (exec (k (answer _ c w).1) (answer _ c w).2).1.1.
Proof. cbn. destruct (answer X c w) as [x w1]. cbn. by destruct (exec (k x) w1) as [[a t] w2]. Qed.

Lemma exec_bind {A B} (p : Prog C A) (f : A -> Prog C B) w :
  (exec (prog_bind p f) w).1.1 = (exec (f (exec p w).1.1) (exec p w).2).1.1.
Proof.
  revert w. induction p as [a | X c k IH]; intros w; cbn; [done|].
  destruct (answer X c w) as [x w1]. specialize (IH x w1).
  destruct (exec (prog_bind (k x) f) w1) as [[b t] w2], (exec (k x) w1) as [[a t'] w3]. exact IH.
Qed.
End world.
End programs.
Arguments ProgM C E A : clear implicits.

(** ** Handlers that are allowed everywhere

    [always ok p]: whatever happened before, [ok] allows every call [p] makes. *)
Section always.
Context {C : Type -> Type} (ok : list (Event C) -> Event C -> Prop).
Notation Trace := (list (Event C)).

Definition always {A : Type} (p : Prog C A) : Prop := forall h, wp ok p h (fun _ _ => True).

(** A run from [h] that may only return where [Q] holds, with the result split. *)
Definition wpe {E A : Type} (p : ProgM C E A) (h : Trace) (Q : A -> Trace -> Prop) (F : E -> Trace -> Prop) : Prop :=
  wp ok p h (fun r h' => match r with Ok a => Q a h' | Err e => F e h' end).

Lemma wpe_bind {E A B} (m : ProgM C E A) (f : A -> ProgM C E B) h Q F :
  wpe m h (fun a h' => wpe (f a) h' Q F) F -> wpe (m ≫= f) h Q F.
Proof. intros Hm. apply wp_bind. eapply wp_mono; [exact Hm|]. by intros [a|e] h' Hr. Qed.

Lemma wpe_mono {E A} (m : ProgM C E A) h (Q Q' : A -> Trace -> Prop) (F F' : E -> Trace -> Prop) :
  wpe m h Q F -> (forall a h', Q a h' -> Q' a h') -> (forall e h', F e h' -> F' e h') -> wpe m h Q' F'.
Proof. intros Hm HQ HF. eapply wp_mono; [exact Hm|]. intros [a|e] h' Hr; eauto. Qed.

Lemma wpe_always {E A} (m : ProgM C E A) h : always m -> wpe m h (fun _ _ => True) (fun _ _ => True).
Proof. intros Hm. eapply wp_mono; [apply Hm|]. by intros [a|e]. Qed.

Lemma wpe_lift {E A} (r : result E A) h (Q : A -> Trace -> Prop) F :
  (forall a, r = Ok a -> Q a h) -> (forall e, r = Err e -> F e h) -> wpe (prog_lift r) h Q F.
Proof. intros HQ HF. unfold wpe, prog_lift. cbn. destruct r; eauto. Qed.

Lemma wpe_call {E X} (c : C X) h (Q : X -> Trace -> Prop) F :
  (forall x, ok h (Ev c x) /\ Q x (Ev c x :: h)) -> wpe (call c : ProgM C E X) h Q F.
Proof. intros Hc x. destruct (Hc x). done. Qed.

Lemma wpe_try {E G X} (f : G -> E) (c : C (result G X)) h (Q : X -> Trace -> Prop) F :
  (forall x, ok h (Ev c x) /\ match x with Ok a => Q a (Ev c x :: h) | Err e => F (f e) (Ev c x :: h) end) ->
  wpe (try_call f c) h Q F.
Proof. intros Hc x. destruct (Hc x). split; [done|]. by destruct x. Qed.

(** [match call.await { Ok(..) Err(..) }] *)
Lemma wpe_observe {E G X} (c : C (result G X)) h (Q : result G X -> Trace -> Prop) (F : E -> Trace -> Prop) :
  (forall x, ok h (Ev c x) /\ Q x (Ev c x :: h)) -> wpe (prog_observe (try_call (fun e => e) c : ProgM C G X)) h Q F.
Proof. intros Hc x. destruct (Hc x) as [Ho HQ]. split; [done|]. by destruct x. Qed.

Lemma wpe_observed {E G A} (m : ProgM C G A) h (Q : result G A -> Trace -> Prop) (F : E -> Trace -> Prop) :
  wpe m h (fun a => Q (Ok a)) (fun e => Q (Err e)) -> wpe (prog_observe m) h Q F.
Proof. intros Hm. apply wp_bind. eapply wp_mono; [exact Hm|]. by intros [a|e]. Qed.

Lemma wpe_map_err {E G A} (f : G -> E) (m : ProgM C G A) h (Q : A -> Trace -> Prop) (F : E -> Trace -> Prop) :
  wpe m h Q (fun e => F (f e)) -> wpe (prog_map_err f m) h Q F.
Proof. intros Hm. apply wp_bind. eapply wp_mono; [exact Hm|]. by intros [a|e]. Qed.

Lemma wpe_ret {E A} (a : A) h (Q : A -> Trace -> Prop) (F : E -> Trace -> Prop) : Q a h -> wpe (mret a) h Q F.
Proof. done. Qed.
Lemma wpe_throw {E A} (e : E) h (Q : A -> Trace -> Prop) (F : E -> Trace -> Prop) : F e h -> wpe (prog_throw e) h Q F.
Proof. done. Qed.

Lemma always_ret {A} (a : A) : always (Ret a).
Proof. done. Qed.
Lemma always_mret {E A} (a : A) : always (mret a : ProgM C E A).
Proof. done. Qed.
Lemma always_throw {E A} (e : E) : always (prog_throw e : ProgM C E A).
Proof. done. Qed.
Lemma always_lift {E A} (r : result E A) : always (prog_lift r).
Proof. done. Qed.
Lemma always_do {A X} (c : C X) (k : X -> Prog C A) : (forall h x, ok h (Ev c x)) -> (forall x, always (k x)) -> always (Do c k).
Proof. intros Hc Hk h x. split; [apply Hc | apply Hk]. Qed.
Lemma always_bind {A B} (p : Prog C A) (f : A -> Prog C B) : always p -> (forall a, always (f a)) -> always (prog_bind p f).
Proof. intros Hp Hf h. apply wp_bind. eapply wp_mono; [apply Hp|]. intros a h' _. apply Hf. Qed.
Lemma always_mbind {E A B} (m : ProgM C E A) (f : A -> ProgM C E B) : always m -> (forall a, always (f a)) -> always (m ≫= f).
Proof. intros Hm Hf. apply always_bind; [done|]. intros [a|e]; [apply Hf | apply always_ret]. Qed.
Lemma always_call {E X} (c : C X) : (forall h x, ok h (Ev c x)) -> always (call c : ProgM C E X).
Proof. intros Hc h x. done. Qed.
Lemma always_try {E F X} (f : F -> E) (c : C (result F X)) : (forall h x, ok h (Ev c x)) -> always (try_call f c).
Proof. intros Hc h x. done. Qed.
Lemma always_observe {E F A} (m : ProgM C E A) : always m -> always (prog_observe m : ProgM C F (result E A)).
Proof. intros Hm. apply always_bind; [done|]. intros r. apply always_ret. Qed.
Lemma always_map_err {E F A} (f : E -> F) (m : ProgM C E A) : always m -> always (prog_map_err f m).
Proof. intros Hm. apply always_bind; [done|]. intros r. apply always_ret. Qed.

(** Every handler proved [always] is allowed in every run. *)
Lemma always_sound {A} (p : Prog C A) tr a before e after :
  always p -> runs p tr a -> tr = before ++ e :: after -> ok (rev before) e.
Proof. intros Hp Hr. by apply (wp_sound ok p _ tr a (Hp [])). Qed.
End always.

(** A handler that makes no counted call keeps a history without one. *)
Lemma wp_uncounted {C : Type -> Type} (ok : list (Event C) -> Event C -> Prop) (P : Event C -> bool) {A} (p : Prog C A) h :
  always (fun _ e => P e = false) p -> (forall h e, count P h = 0%nat -> P e = false -> ok h e) -> count P h = 0%nat ->
  wp ok p h (fun _ h' => count P h' = 0%nat).
Proof.
  intros Hp Hok. specialize (Hp h). revert h Hp. induction p as [a | X c k IH]; cbn; intros h Hp Hh; [done|].
  intros x. destruct (Hp x) as [Hc Hk]. split; [by apply Hok|]. apply IH; [exact Hk|]. cbn. by rewrite Hc.
Qed.

Lemma always_count {C : Type -> Type} (P : Event C -> bool) {A} (p : Prog C A) tr a :
  always (fun _ e => P e = false) p -> runs p tr a -> count P tr = 0%nat.
Proof.
  intros Hp Hr. specialize (Hp []). revert Hp Hr. generalize (@nil (Event C)). revert tr.
  induction p as [b | X c k IH]; intros tr h Hp Hr; cbn in Hr; [by destruct Hr as [-> _]|].
  destruct Hr as (x & t & -> & Hr). destruct (Hp x) as [Hc Hk]. cbn [count]. rewrite Hc. by apply (IH x t _ Hk).
Qed.

(** ** Clocks

    [reads]: the instant an event reads; [sleeps]: how long it sleeps. A clock that does not go back, and advances
    by what is slept. *)
Section clock.
Context {C : Type -> Type} (reads : Event C -> option Z) (sleeps : Event C -> Z).

Fixpoint advances (now : Z) (tr : list (Event C)) : Prop :=
  match tr with
  | [] => True
  | e :: tr => match reads e with Some t => now <= t /\ advances t tr | None => advances (now + sleeps e) tr end
  end.

Lemma advances_app now t1 t2 : advances now (t1 ++ t2) -> advances now t1 /\ exists now', advances now' t2.
Proof.
  revert now. induction t1 as [|e t1 IH]; intros now Ha; [by split; [|exists now]|]. cbn in *. destruct (reads e) as [t|].
  - destruct Ha as [Hn Ha]. destruct (IH _ Ha) as [H1 H2]. by split.
  - by apply IH.
Qed.

(** [averts bad p]: on such a clock, [p] does not return a [bad] result. *)
Definition averts {A : Type} (bad : A -> Prop) (p : Prog C A) : Prop := forall now tr r, advances now tr -> runs p tr r -> ~ bad r.

Lemma averts_ret {A} (bad : A -> Prop) a : ~ bad a -> averts bad (Ret a).
Proof. by intros Ha now tr r _ [_ ->]. Qed.

Lemma averts_do {A X} (bad : A -> Prop) (c : C X) (k : X -> Prog C A) : (forall x, averts bad (k x)) -> averts bad (Do c k).
Proof.
  intros Hk now tr r Ha (x & t & -> & Hr). apply (advances_app now [Ev c x] t) in Ha as [_ [now' Ha]]. by apply (Hk x now' t r).
Qed.

Lemma averts_bind {A B} (bad : B -> Prop) (mid : A -> Prop) (p : Prog C A) (f : A -> Prog C B) :
  averts mid p -> (forall a, ~ mid a -> averts bad (f a)) -> averts bad (prog_bind p f).
Proof.
  intros Hp Hf now tr r Ha (a & t1 & t2 & -> & H1 & H2)%runs_bind. apply advances_app in Ha as [Ha1 [now' Ha2]].
  apply (Hf a (Hp _ _ _ Ha1 H1) now' t2 r Ha2 H2).
Qed.
End clock.

Create HintDb handlers.

(** One step through a handler; a subprogram is proved by the lemma the [handlers] database holds for it. *)
Ltac always_step :=
  first
    [ solve [eauto 2 with handlers nocore]
    | match goal with
      | |- always _ (Ret _) => apply always_ret
      | |- always _ (mret _) => apply always_mret
      | |- always _ (prog_throw _) => apply always_throw
      | |- always _ (prog_lift _) => apply always_lift
      | |- always _ (call _) => apply always_call
      | |- always _ (try_call _ _) => apply always_try
      | |- always _ (prog_observe _) => apply always_observe
      | |- always _ (prog_map_err _ _) => apply always_map_err
      | |- always _ (_ ≫= _) => apply always_mbind
      | |- always _ (prog_bind _ _) => apply always_bind
      | |- always _ (Do _ _) => apply always_do
      | |- always _ (match ?x with _ => _ end) => destruct x
      | |- forall _, _ => intros ?
      end ].
Ltac always_tac := repeat (cbv zeta; always_step).
