(* ===== verification/AwsCalls.v ===== *)
(** * hand-brain-aws: what a request handler calls

    The data and the calls of crates/hand-brain-aws/src/{hand,client,launcher,plane}.rs and its ports: Brain's
    requests as the fields that are read, the parameters that stand for Brain and the encodings, and one
    constructor per operation a handler performs on a component beside it. The target registry answers as in
    [Dynamo], the definition registry as in [Definitions], the caches as in [Cache], the provider's control as in
    [Control] and the transfers as in [Transfer]; a handler must be right for any answer. *)
From S2P Require Import Prelude Policy Page Connector Target Control Wire EgressPolicy GuestErrors GuestTarget GuestFiles GuestInstall GuestOperations GuestStdin Capability Definitions AwsErrors AwsSeals Cache Transfer Prog.

(** ** Brain's types *)

(** What the handlers pass on without reading it. *)
Class BrainTypes : Type := {
  BindingRest : Type; HandCapability : Type; capability_eq_dec : EqDecision HandCapability; InputPayload : Type;
  ObserveRest : Type; CancelRest : Type; AcknowledgeRest : Type; ListRest : Type; SearchRest : Type;
  Receipt : Type; Observation : Type; Cancellation : Type; Acknowledgement : Type; StatusReply : Type;
  FileList : Type; FileContent : Type; StdinReceipt : Type;
}.

#[global] Existing Instance capability_eq_dec.

Record OperationRequest {R : Type} := mkOperationRequest { oq_operation : OperationRef; oq_rest : R }.
Arguments OperationRequest : clear implicits.
Arguments mkOperationRequest {R}.

Record TargetRequest {R : Type} := mkTargetRequest { tq_target : SandboxTarget; tq_expected_generation : string; tq_rest : R }.
Arguments TargetRequest : clear implicits.
Arguments mkTargetRequest {R}.

Record SandboxFileRequest := mkSandboxFileRequest { fq_target : SandboxTarget; fq_expected_generation : string; fq_path : string }.

Inductive SandboxFileWriteSource :=
  | SourceInline (content_base64 : string)
  | SourceObject (object : ObjectReference) (fetch : ObjectTransferAuthority).
Record SandboxFileWriteRequest := mkSandboxFileWriteRequest {
  fw_operation_id : string; fw_request_digest : string; fw_target : SandboxTarget; fw_expected_generation : string;
  fw_overwrite : bool; fw_path : string; fw_source : SandboxFileWriteSource }.

Inductive CopyDirection := CopyDirImport | CopyDirExport.
Record SandboxCopyRequest := mkSandboxCopyRequest {
  cq_operation_id : string; cq_request_digest : string; cq_target : SandboxTarget; cq_expected_generation : string;
  cq_overwrite : bool; cq_path : string; cq_direction : CopyDirection; cq_object : option ObjectReference;
  cq_transfer : ObjectTransferAuthority }.

(** A copy result carries the entry and the exported object, a write result the entry. *)
Notation CopyPayload := (FileEntry * option ObjectReference)%type.
Notation StoredResult := (FileEffectStoredResult FileEntry CopyPayload).

Record SecretDeliveryRequest := mkSecretDeliveryRequest {
  sd_capability_ref : string; sd_generation_intent : string; sd_hand_id : string; sd_root_id : string;
  sd_session_id : string; sd_target : SandboxTarget }.

Section requests.
Context {B : BrainTypes}.

Record SubmitRequest := mkSubmitRequest {
  sq_envelope : @OperationEnvelope (list NetworkItem); sq_input : OperationInput InputPayload; sq_wait_up_to_ms : Z }.
End requests.

#[global] Instance hand_wire {B : BrainTypes} : WireTypes := {
  TSubmit := SubmitRequest; TObserve := OperationRequest ObserveRest; TCancel := OperationRequest CancelRest;
  TAcknowledge := OperationRequest AcknowledgeRest; TList := TargetRequest ListRest; TStat := SandboxFileRequest;
  TRead := SandboxFileRequest; TWriteFile := GuestFileWriteRequest; TSearch := TargetRequest SearchRest;
  TExecute := @SandboxExecutionRequest (list NetworkItem); TStdin := WriteStdinRequest; TStored := StoredResult;
  TReceipt := Receipt; TObservation := Observation; TCancellation := Cancellation; TAcknowledgement := Acknowledgement;
  TStatus := StatusReply; TFileList := FileList; TFileEntry := FileEntry; TContent := FileContent; TStdinReceipt := StdinReceipt;
}.

(** ** The guest's endpoint (client.rs) *)
Record LaunchedHand := mkLaunchedHand {
  lh_microvm_id : string; lh_endpoint : string; lh_auth_token : string; lh_control_token : ControlToken }.
Record CachedEndpoint := mkCachedEndpoint { ce_hand : LaunchedHand; ce_minted_at : Z }.

(** What the socket delivers, in order; [pong]: the answer to a ping could be sent. *)
Inductive SocketMessage :=
  | MsgText (text : string) | MsgBinary (bytes : list Ascii.ascii) | MsgPing (pong : bool) | MsgPong | MsgClose
  | MsgError | MsgFrame.

(** One attempt: refused (with the status of the handshake), not sent, cut by the timeout, or the messages until
    the receipt or the end of the stream. *)
Inductive SocketRun :=
  | ConnectFailed (status : option Z) | SendFailed | SocketTimedOut | SocketMessages (l : list SocketMessage).

Inductive HttpBody :=
  | JsonBody (bytes : list Ascii.ascii) | OctetBody (bytes : list Ascii.ascii) | FileBody (metadata : string) (staged : StagedObject).
Record HttpResponse := mkHttpResponse { hr_status : Z; hr_file_entry : option string; hr_body : Response }.

(** ** Process-local state (hand.rs) *)
Inductive InstalledArtifact := ArtifactBundle (binding_ref digest : string) | ArtifactSecrets (session_id : string).

#[global] Instance InstalledArtifact_eq_dec : EqDecision InstalledArtifact.
Proof. solve_decision. Defined.

Inductive Guard := SecretLock (shard : Z) | FileLock (shard : Z) | BundlePermit | SecretPermit.

Section calls.
Context {B : BrainTypes}.

Inductive Call : Type -> Type :=
  | Now : Call Z
  | Instant : Call Z
  | RandomIdentifier (prefix : string) : Call string
  | RandomToken : Call string
  | Enter (g : Guard) : Call bool
  | Leave (g : Guard) : Call unit
  (* the durable target registry *)
  | RegGet (key : TargetKey) : Call (result MaterializationError (option DurableTargetRecord))
  | RegAcquire (request : AcquireTarget) : Call (result MaterializationError AcquireOutcome)
  | RegInstall (lease : MaterializationLease) (target : PhysicalTarget) (now_ms : Z) : Call (result MaterializationError InstallOutcome)
  | RegExpire (lease : MaterializationLease) (now_ms : Z) : Call (result MaterializationError unit)
  | RegClose (target : InstalledTarget) (disposition : Disposition) (reason : string) (now_ms : Z)
      : Call (result MaterializationError unit)
  | RegPurge (key : TargetKey) (generation : string) : Call (result MaterializationError unit)
  | RegList (root_id : string) (cursor : option string) (limit : Z) : Call (result MaterializationError (Page DurableTargetRecord))
  (* the definition registry *)
  | DefGet (root_id : string) (kind : DefinitionKind) (definition_id : string) : Call (result DefinitionError (option DefinitionRecord))
  | DefInstall (record : DefinitionRecord) : Call (result DefinitionError InstallDefinition)
  | DefPurge (root_id : string) (limit : Z) : Call (result DefinitionError bool)
  (* the process caches *)
  | CachePreparation (session_id : string) : Call (option Cache.Preparation)
  | CacheBundle (digest : string) : Call (option (list Ascii.ascii))
  | CacheConsume (session_id capability_ref : string) : Call unit
  | CachePurge (root_id : string) (limit : nat) : Call bool
  | ArtifactHas (target_ref : string) (artifact : InstalledArtifact) : Call bool
  | ArtifactAdd (target_ref : string) (artifact : InstalledArtifact) : Call unit
  | ArtifactForget (target_ref : string) : Call unit
  (* Brain's secret delivery: whether the port is attached, unless its lock is poisoned; its redemption *)
  | SecretPort : Call (result unit bool)
  | SecretRedeem (request : SecretDeliveryRequest) : Call (result AwsError (gmap string string))
  (* the provider *)
  | VmRun (request : ExactRunMicrovmRequest) : Call (result ControlError string)
  | VmGet (target_ref : string) : Call (result ControlError Microvm)
  | VmTerminate (target_ref : string) : Call (result ControlError unit)
  | VmToken (target_ref : string) : Call (result ControlError string)
  | VmWait (target_ref : string) (want : MicrovmState) (timeout_ms : Z) : Call (result WaitFailure Microvm)
  | ImageCached : Call (option string)
  | ImageFind (name : string) : Call (option (option string))
  | ImageStore (arn : string) : Call unit
  | KmsSign (key_id : string) (digest : list Ascii.ascii) : Call (option (option (list Ascii.ascii)))
  (* the guest *)
  | NextRequest : Call Z
  | EndpointGet (target_ref : string) : Call (option CachedEndpoint)
  | EndpointRemember (hand : LaunchedHand) (minted_at : Z) : Call unit
  | EndpointForget (target_ref : string) : Call unit
  | Socket (hand : LaunchedHand) (frame : RequestFrame) : Call SocketRun
  | StagedOpen (staged : StagedObject) : Call bool
  | HttpPost (hand : LaunchedHand) (control : ControlToken) (path : string) (body : HttpBody) (timeout_ms : Z) : Call (option HttpResponse)
  (* one-purpose transfers *)
  | FetchObject (authority : ObjectTransferAuthority) (object : ObjectReference) : Call (result AwsError StagedObject)
  | StageResponse (response : Response) (limit expires_at_ms : Z) : Call (result AwsError StagedObject)
  | PutObject (authority : ObjectTransferAuthority) (staged : StagedObject) : Call (result AwsError unit).

End calls.

Notation HandM := (ProgM Call AwsError).
Notation HandEvent := (Event Call).
Notation HandTrace := (list (Event Call)).

(** ** The sealed provider launch (launcher.rs) *)
Record SealedProviderLaunch := mkSealedProviderLaunch {
  sl_image_identity : string; sl_dispatch_deadline_at_ms : Z; sl_request : ExactRunMicrovmRequest }.

(** ** What Brain, the encodings and the deployment supply *)
Class HandOps {B : BrainTypes} : Type := {
  HAND_CONTRACT_DIGEST : string;
  MAX_TOOL_TERMINAL_INLINE_BYTES : Z; MAX_MANAGED_TOOL_INPUT_BYTES : Z; MAX_TOOL_BUNDLE_BYTES : Z;
  MAX_SESSION_BUNDLE_BYTES : Z; MAX_WRITE_STDIN_BYTES : Z;
  MAX_SESSION_SECRET_NAMES : Z; MAX_SESSION_SECRET_NAME_BYTES : Z; MAX_SESSION_SECRET_VALUE_UTF8_BYTES : Z;
  MAX_SESSION_SECRET_DOCUMENT_BYTES : Z;
  (* canonical digests and comparisons *)
  operation_request_digest : SubmitRequest -> string;
  sandbox_execution_request_digest : @SandboxExecutionRequest (list NetworkItem) -> string;
  write_stdin_request_digest : WriteStdinRequest -> string;
  sandbox_file_write_request_digest : SandboxFileWriteRequest -> string;
  sandbox_copy_request_digest : SandboxCopyRequest -> string;
  digest_resources : ResourceCeiling -> option string;
  digest_network : Network -> option string;
  spec_digest : TargetSpec -> string;
  digest_binding : SealedBinding BindingRest -> option string;
  network_ceiling_is_subset : Network -> Network -> bool;
  required_capabilities : BindingRest -> list HandCapability;
  sha256 : list Ascii.ascii -> list Ascii.ascii;
  sha256_hex : list Ascii.ascii -> string;
  (* JSON and base64 *)
  jcs_input : OperationInput InputPayload -> option (list Ascii.ascii);
  jcs_values : gmap string string -> option string;
  jcs_binding : SealedBinding BindingRest -> result string (list Ascii.ascii);
  binding_of_json : list Ascii.ascii -> result string (SealedBinding BindingRest);
  encode_frame : RequestFrame -> option string;
  decode_response : string -> option (ResponseFrame AwsError);
  json_bundle_metadata : BundleDescriptor BindingRest -> option (list Ascii.ascii);
  json_install_binding : string -> SealedBinding BindingRest -> option (list Ascii.ascii);
  json_install_secrets : string -> string -> list string -> gmap string string -> option (list Ascii.ascii);
  json_object_metadata : ObjectReference -> option (list Ascii.ascii);
  json_file_request : SandboxFileRequest -> option (list Ascii.ascii);
  file_entry_of_json : list Ascii.ascii -> option FileEntry;
  b64_encode : list Ascii.ascii -> string;
  b64_decode : string -> option (list Ascii.ascii);
  parse_url : string -> option Url;
  path_parses : string -> bool;
  identifier_parses : string -> bool;
  (* the launch: its encodings, the capability's, and the deployment *)
  Net : Type; net_eq_dec : EqDecision Net; Signature : Type;
  parse_net : string -> option Net;
  domain_to_ascii_strict : string -> option string;
  destination_json : CapabilityDestination Net -> string;
  capability_to_json : Capability.Capability Net -> option (list Ascii.ascii);
  signature_of_der : list Ascii.ascii -> option Signature;
  payload_to_json : @RunPayload (list NetworkItem) -> option string;
  payload_of_json : string -> option (@RunPayload (list NetworkItem));
  sealed_to_json : SealedProviderLaunch -> option string;
  sealed_of_json : string -> option SealedProviderLaunch;
  cfg_region : string; cfg_image : string; cfg_image_version : string; cfg_connectors : ConnectorCatalog;
  cfg_gateway : GatewayAuthority; cfg_signing_key : string;
}.
#[global] Existing Instance net_eq_dec.
