(* ===== verification/AwsClient.v ===== *)
(** * hand-brain-aws: the guest client

    Models crates/hand-brain-aws/src/client.rs: the endpoint of one target generation, the request over its
    socket and the HTTP posts, each with one bounded retry. Durations are nanoseconds where the code reads a
    monotonic clock and milliseconds elsewhere. *)
From S2P Require Import Prelude Policy Target Control Wire GuestErrors GuestFiles AwsErrors AwsSeals Transfer Prog AwsCalls.

Definition AUTH_REFRESH_AFTER : Z := 50 * 60 * 1000000000.
Definition INITIAL_TARGET_READY_TIMEOUT : Z := 65 * 1000.
Definition RPC_TIMEOUT : Z := 45 * 1000.
Definition FILE_TIMEOUT : Z := 15 * 60 * 1000.

Inductive RpcAttemptError := EndpointApplicationUnavailable | AttemptHand (e : AwsError).
Inductive EndpointAttemptError := Transport | FatalAttempt (e : AwsError).

(** Whether the failure is persistent, and the flag it leaves. *)
Definition record_application_failure (seen : bool) (attempt : Z) : bool * bool := (seen && (0 <? attempt), true).

Definition endpoint_application_gone : AwsError := error SandboxGone false.

Definition is_success (status : Z) : bool := (200 <=? status) && (status <=? 299).
Definition is_server_error (status : Z) : bool := (500 <=? status) && (status <=? 599).
Definition endpoint_response_error (status : Z) : AwsError :=
  if is_server_error status then temporary else error InvalidRequest false.

(** One attempt of a bounded retry: it returns, or asks for another with the 502 flag it leaves. *)
Inductive Turn (A : Type) := Return (r : result AwsError A) | Again (seen : bool).
Arguments Return {A} r.
Arguments Again {A} seen.

Section client.
Context {B : BrainTypes} {O : HandOps}.

Definition MAX_BUNDLE_INSTALL_BYTES : Z := MAX_SESSION_BUNDLE_BYTES.
Definition MAX_INSTALL_BODY_BYTES : Z := MAX_BUNDLE_INSTALL_BYTES + MAX_INSTALL_METADATA_BYTES + 1.

Definition remember (hand : LaunchedHand) : HandM unit :=
  minted_at ← call Instant;
  call (EndpointRemember hand minted_at).

Definition fresh (e : CachedEndpoint) (now : Z) : bool := saturating_sub now (ce_minted_at e) <? AUTH_REFRESH_AFTER.

(** Ask the provider for the endpoint, wait for a pending target, mint a token and remember both. *)
Definition discover (target : InstalledTarget) : HandM LaunchedHand :=
  let target_ref := i_target_ref target in
  vm ← try_call control_error (VmGet target_ref);
  vm ← (if decide (mv_state vm = VmPending)
        then try_call (fun _ => temporary_from) (VmWait target_ref VmRunning INITIAL_TARGET_READY_TIMEOUT)
        else mret vm);
  if is_terminated (mv_state vm) then prog_throw (error SandboxGone false)
  else if decide (mv_state vm = VmTerminating) then prog_throw temporary
  else
    endpoint ← prog_lift (ok_or (error TemporarilyUnavailable true) (mv_endpoint vm));
    auth_token ← try_call control_error (VmToken target_ref);
    let hand := mkLaunchedHand target_ref (normalise_endpoint endpoint) auth_token (i_control_token target) in
    _ ← remember hand;
    mret hand.

Definition endpoint (target : InstalledTarget) : HandM LaunchedHand :=
  cached ← call (EndpointGet (i_target_ref target));
  match cached with
  | Some e =>
      now ← call Instant;
      if fresh e now then mret (ce_hand e) else discover target
  | None => discover target
  end.

(** A reply must answer this request's identifier and method; other frames are skipped. *)
Definition reply_of (frame : RequestFrame) (response : ResponseFrame AwsError) : option (result RpcAttemptError ResponseReply) :=
  if negb (str_eqb (rs_request_id response) (rf_request_id frame)) then None
  else Some (match rs_result response with
             | Ok reply =>
                 if negb (str_eqb (reply_method reply) (request_method (rf_call frame)))
                 then Err (AttemptHand (error InvalidRequest false)) else Ok reply
             | Err refusal => Err (AttemptHand refusal)
             end).

Fixpoint receipt (frame : RequestFrame) (messages : list SocketMessage) : result RpcAttemptError ResponseReply :=
  match messages with
  | [] => Err (AttemptHand temporary)
  | message :: messages =>
      let answered text :=
        match decode_response text with
        | None => Err (AttemptHand temporary_from)
        | Some response => match reply_of frame response with Some r => r | None => receipt frame messages end
        end in
      match message with
      | MsgText text => answered text
      | MsgBinary bytes => match from_utf8 bytes with Some text => answered text | None => Err (AttemptHand temporary_from) end
      | MsgPing pong => if pong then receipt frame messages else Err (AttemptHand temporary_from)
      | MsgPong | MsgFrame => receipt frame messages
      | MsgClose | MsgError => Err (AttemptHand temporary)
      end
  end.

Definition socket_result (frame : RequestFrame) (run : SocketRun) : result RpcAttemptError ResponseReply :=
  match run with
  | ConnectFailed status => Err (if decide (status = Some 502) then EndpointApplicationUnavailable else AttemptHand temporary)
  | SendFailed => Err (AttemptHand temporary_from)
  | SocketTimedOut => Err (AttemptHand temporary)
  | SocketMessages messages => receipt frame messages
  end.

(** The 502 of an attempt: persistent, worth one more try, or too late to tell. *)
Definition application_failure {A} (target : InstalledTarget) (attempt : Z) (seen : bool) : Prog Call (Turn A) :=
  let '(persistent, seen) := record_application_failure seen attempt in
  if persistent then Ret (Return (Err endpoint_application_gone))
  else if attempt =? 0 then Do (EndpointForget (i_target_ref target)) (fun _ => Ret (Again seen))
  else Ret (Return (Err temporary)).

Fixpoint ladder {A} (turn : Z -> bool -> Prog Call (Turn A)) (attempts : list Z) (seen : bool)
    : Prog Call (option (result AwsError A)) :=
  match attempts with
  | [] => Ret None
  | attempt :: attempts =>
      prog_bind (turn attempt seen) (fun t =>
        match t with Return r => Ret (Some r) | Again seen => ladder turn attempts seen end)
  end.

(** [for attempt in 0..2]; the code marks the end of the loop unreachable (see [ladder_returns]). *)
Definition attempts_of {A} (turn : Z -> bool -> Prog Call (Turn A)) : HandM A :=
  prog_bind (ladder turn [0; 1] false) (fun r => match r with Some r => Ret r | None => Ret (Err temporary) end).

Definition with_endpoint {A} (target : InstalledTarget) (f : LaunchedHand -> Prog Call (Turn A)) : Prog Call (Turn A) :=
  prog_bind (endpoint target) (fun r => match r with Ok hand => f hand | Err e => Ret (Return (Err e)) end).

Definition rpc_turn (target : InstalledTarget) (frame : RequestFrame) (attempt : Z) (seen : bool) : Prog Call (Turn ResponseReply) :=
  with_endpoint target (fun hand =>
    Do (Socket hand frame) (fun run =>
      match socket_result frame run with
      | Ok reply => Ret (Return (Ok reply))
      | Err EndpointApplicationUnavailable => application_failure target attempt seen
      | Err (AttemptHand e) =>
          if (attempt =? 0) && ae_retryable e then Do (EndpointForget (i_target_ref target)) (fun _ => Ret (Again seen))
          else Ret (Return (Err e))
      end)).

Definition frame_of (id : Z) (request : RequestCall) : RequestFrame :=
  mkRequestFrame ("request-" +:+ print_uint id) HAND_CONTRACT_DIGEST request.

Definition rpc (target : InstalledTarget) (request : RequestCall) : HandM ResponseReply :=
  id ← call NextRequest;
  let frame := frame_of id request in
  encoded ← prog_lift (ok_or (error InvalidRequest false) (encode_frame frame));
  if MAX_WIRE_FRAME_BYTES <? str_len encoded then prog_throw (error ResourceExhausted false)
  else attempts_of (rpc_turn target frame).

(** ** HTTP *)
Definition http_turn (target : InstalledTarget) (send : LaunchedHand -> Prog Call (result EndpointAttemptError HttpResponse))
    (attempt : Z) (seen : bool) : Prog Call (Turn HttpResponse) :=
  let again := Do (EndpointForget (i_target_ref target)) (fun _ => Ret (Again seen)) in
  with_endpoint target (fun hand =>
    prog_bind (send hand) (fun sent =>
      match sent with
      | Ok response =>
          let status := hr_status response in
          if is_success status then Ret (Return (Ok response))
          else if (status =? 401) && (attempt =? 0) then again
          else if status =? 502 then application_failure target attempt seen
          else if is_server_error status && (attempt =? 0) then again
          else Ret (Return (Err (endpoint_response_error status)))
      | Err (FatalAttempt e) => Ret (Return (Err e))
      | Err Transport => if attempt =? 0 then again else Ret (Return (Err temporary_from))
      end)).

Definition endpoint_request (target : InstalledTarget)
    (send : LaunchedHand -> Prog Call (result EndpointAttemptError HttpResponse)) : HandM HttpResponse :=
  attempts_of (http_turn target send).

Definition http_send (target : InstalledTarget) (path : string) (body : HttpBody) (timeout : Z) (hand : LaunchedHand)
    : Prog Call (result EndpointAttemptError HttpResponse) :=
  Do (HttpPost hand (i_control_token target) (lh_endpoint hand +:+ path) body timeout) (fun r => Ret (ok_or Transport r)).

Definition body_len (body : HttpBody) : Z :=
  match body with JsonBody bytes | OctetBody bytes => len bytes | FileBody _ staged => so_bytes staged end.

Definition post_bytes (target : InstalledTarget) (path : string) (body : HttpBody) : HandM unit :=
  if MAX_INSTALL_BODY_BYTES <? body_len body then prog_throw (error ResourceExhausted false)
  else _ ← endpoint_request target (http_send target path body RPC_TIMEOUT); mret tt.

Definition post_json (target : InstalledTarget) (path : string) (body : option (list Ascii.ascii)) : HandM unit :=
  bytes ← prog_lift (ok_or (error InvalidRequest false) body);
  post_bytes target path (JsonBody bytes).

Definition encode_blob_install (metadata : option (list Ascii.ascii)) (bytes : list Ascii.ascii) : result AwsError (list Ascii.ascii) :=
  body ← ok_or (error InvalidRequest false) metadata;
  if (MAX_INSTALL_METADATA_BYTES <? len body) || (MAX_BUNDLE_INSTALL_BYTES <? len bytes)
  then Err (error ResourceExhausted false)
  else Ok (body ++ ["010"%char] ++ bytes).

Definition post_blob (target : InstalledTarget) (path : string) (metadata : option (list Ascii.ascii)) (bytes : list Ascii.ascii)
    : HandM unit :=
  body ← prog_lift (encode_blob_install metadata bytes);
  post_bytes target path (OctetBody body).

(** The staged file is reopened for every attempt. *)
Definition post_file (target : InstalledTarget) (path : string) (metadata : option (list Ascii.ascii)) (staged : StagedObject)
    : HandM unit :=
  metadata ← prog_lift (ok_or (error InvalidRequest false) metadata);
  let metadata := b64_encode metadata in
  _ ← endpoint_request target (fun hand =>
        Do (StagedOpen staged) (fun opened : bool =>
          if opened then http_send target path (FileBody metadata staged) FILE_TIMEOUT hand
          else Ret (Err (FatalAttempt temporary_from))));
  mret tt.

Definition export_file (target : InstalledTarget) (request : SandboxFileRequest) : HandM (FileEntry * Response) :=
  encoded ← prog_lift (ok_or (error InvalidRequest false) (json_file_request request));
  response ← endpoint_request target (http_send target "/internal/files/export" (JsonBody encoded) FILE_TIMEOUT);
  metadata ← prog_lift (ok_or temporary (value ← hr_file_entry response; bytes ← b64_decode value; file_entry_of_json bytes));
  mret (metadata, hr_body response).
End client.
