(* ===== verification/AwsLaunch.v ===== *)
(** * hand-brain-aws: the sealed launch

    Models crates/hand-brain-aws/src/launcher.rs and plane.rs: how a launch is sealed into its lease before the
    first dispatch, how a sealed launch is checked against the lease it is replayed under, and the launcher that
    hand-core's materializer drives; with that materializer (crates/hand-core/src/materialization/materializer.rs)
    as a program over the same calls. *)
From S2P Require Import Prelude Policy Connector Target Launcher Control EgressPolicy GuestErrors GuestTarget Capability AwsErrors AwsSeals Prog AwsCalls.

Record GenerationLauncher := mkGenerationLauncher {
  gl_key : TargetKey; gl_owner_session_id : string; gl_resources : ResourceCeiling; gl_network : Network;
  gl_resource_class : string }.

(** [ControlError]'s [Display]. *)
Definition control_error_text (e : ControlError) : string :=
  match e with
  | Control.Capacity scope retry_after_ms message =>
      "capacity exhausted (" +:+ scope +:+ "); retry after " +:+ print_uint retry_after_ms +:+ " ms: " +:+ message
  | Throttled message => "provider throttle: " +:+ message
  | Retryable message => "retryable: " +:+ message
  | ControlGone message => "microvm gone: " +:+ message
  | UnknownOutcome message => "outcome unknown: " +:+ message
  | Fatal message => "fatal: " +:+ message
  end.

(** What a failed RunMicrovm proves. *)
Definition launch_failure (e : ControlError) : LaunchError :=
  match e with
  | Control.Capacity scope retry_after_ms message => LCapacity scope retry_after_ms message
  | UnknownOutcome message => OutcomeUnknown message
  | Retryable message | Throttled message => RetryableKnownNoTarget message
  | Fatal message | ControlGone message => KnownNoTarget message
  end.

(** [MaterializationError]'s [Display], for the errors of a lease window and of a physical target. *)
Definition materialization_error_text (e : MaterializationError) : string :=
  match e with
  | InvalidIdentity field => field +:+ " does not satisfy the canonical Hand identifier grammar"
  | InvalidLease => "materialization lease must have a positive, representable duration"
  | _ => ""
  end.

Section launch.
Context {B : BrainTypes} {O : HandOps}.

(** A panic of the code that its callers have excluded. *)
Definition expected {A} (o : option A) : HandM A := prog_lift (ok_or invalid o).

(** ** plane.rs *)
Definition image_arn : HandM string :=
  cached ← call ImageCached;
  match cached with
  | Some arn => mret arn
  | None =>
      found ← call (ImageFind cfg_image);
      found ← prog_lift (ok_or temporary_from found);
      arn ← prog_lift (ok_or (error CapabilityUnavailable false) found);
      _ ← call (ImageStore arn);
      mret arn
  end.

Definition sign_capability (c : Capability Net) : HandM string :=
  payload ← prog_lift (map_err (fun _ => invalid)
    (unsigned_capability_bytes domain_to_ascii_strict destination_json capability_to_json c));
  response ← call (KmsSign cfg_signing_key (sha256 payload));
  signature ← prog_lift (ok_or temporary_from response);
  signature ← prog_lift (ok_or temporary signature);
  prog_lift (map_err (fun _ => invalid) (encode_signed_token b64_encode signature_of_der payload signature)).

(** ** launcher.rs *)
Definition from_durable (lease : MaterializationLease) : result MaterializationError GenerationLauncher :=
  sealed ← ok_or (LaunchOutcomeUnknown "durable provider launch request is corrupt")
             (sealed_of_json (dlr_expose (l_launch_request lease)));
  payload ← ok_or (LaunchOutcomeUnknown "durable run payload is corrupt") (payload_of_json (run_hook_payload (sl_request sealed)));
  Ok (mkGenerationLauncher (l_key lease) (pay_owner_session_id payload) (pay_resources payload) (pay_network payload)
        (pay_resource_class payload)).

Definition allowlist_proxy (self : GenerationLauncher) (lease : MaterializationLease) : HandM (option AllowlistProxy) :=
  match gl_network self with
  | NetAllowlist items =>
      issued_at_ms ← call Now;
      sandbox_id ← prog_lift (aws_sandbox_identity (gl_key self));
      policy_digest ← expected (digest_network (gl_network self));
      destinations ← prog_lift (capability_destinations parse_net items);
      token ← sign_capability (mkCapability Net (root_id (gl_key self)) (gl_owner_session_id self) sandbox_id (l_generation lease)
        issued_at_ms (l_target_expires_at_ms lease) policy_digest destinations);
      mret (Some (mkAllowlistProxy (as_authority cfg_gateway) token))
  | _ => mret None
  end.

Definition sealed_payload (self : GenerationLauncher) (lease : MaterializationLease) (token : ControlToken)
    (proxy : option AllowlistProxy) : @RunPayload (list NetworkItem) :=
  mkRunPayload HAND_CONTRACT_DIGEST (l_generation lease) (l_target_expires_at_ms lease) (root_id (gl_key self))
    (gl_owner_session_id self) (connector_class (gl_network self)) (gl_resource_class self) (gl_resources self)
    (gl_network self) token proxy None.

Definition seal_launch (self : GenerationLauncher) (lease : MaterializationLease) : HandM DurableLaunchRequest :=
  let connector := connector_class (gl_network self) in
  proxy ← allowlist_proxy self lease;
  random ← call RandomToken;
  token ← prog_lift (map_err (fun _ => invalid) (ControlToken_new ("control-" +:+ random)));
  image ← image_arn;
  connector_ref ← expected (resolve cfg_connectors connector);
  payload ← prog_lift (ok_or invalid (payload_to_json (sealed_payload self lease token proxy)));
  let request := exact_run_request cfg_region image cfg_image_version payload (l_reservation_id lease) connector_ref in
  deadline ← prog_lift (map_err materialization_error (launch_dispatch_deadline lease));
  encoded ← prog_lift (ok_or invalid (sealed_to_json (mkSealedProviderLaunch (image_identity (l_spec lease)) deadline request)));
  prog_lift (map_err (fun e => materialization_error (from_secret_error e)) (DurableLaunchRequest_new encoded)).

(** The seal of the lease, field by field. *)
Definition launch_matches (lease : MaterializationLease) (sealed : SealedProviderLaunch) (payload : @RunPayload (list NetworkItem))
    (resource_digest network_digest : string) (deadline : Z) : bool :=
  str_eqb (pay_contract_digest payload) HAND_CONTRACT_DIGEST
  && str_eqb (pay_generation payload) (l_generation lease)
  && (pay_expires_at_ms payload =? l_target_expires_at_ms lease)
  && str_eqb (pay_root_id payload) (root_id (l_key lease))
  && bool_decide (pay_connector payload = connector (l_spec lease))
  && str_eqb (pay_resource_class payload) (resource_class (l_spec lease))
  && str_eqb (sl_image_identity sealed) (image_identity (l_spec lease))
  && (sl_dispatch_deadline_at_ms sealed =? deadline)
  && str_eqb resource_digest (resource_policy_digest (l_spec lease))
  && str_eqb network_digest (network_policy_digest (l_spec lease))
  && bool_decide (pay_canary payload = None)
  && negb (is_empty (image_identifier (sl_request sealed)))
  && str_eqb (client_token (sl_request sealed)) (l_reservation_id lease).

Definition decode_launch (lease : MaterializationLease) : result LaunchError (SealedProviderLaunch * @RunPayload (list NetworkItem)) :=
  sealed ← ok_or (OutcomeUnknown "durable launch request is corrupt") (sealed_of_json (dlr_expose (l_launch_request lease)));
  payload ← ok_or (OutcomeUnknown "durable run payload is corrupt") (payload_of_json (run_hook_payload (sl_request sealed)));
  resource_digest ← ok_or (OutcomeUnknown "durable resource seal is corrupt") (digest_resources (pay_resources payload));
  network_digest ← ok_or (OutcomeUnknown "durable network seal is corrupt") (digest_network (pay_network payload));
  deadline ← map_err (fun e => OutcomeUnknown (materialization_error_text e)) (launch_dispatch_deadline lease);
  if negb (launch_matches lease sealed payload resource_digest network_digest deadline)
  then Err (OutcomeUnknown "durable provider launch request conflicts with the target seal")
  else
    _ ← map_err (fun _ => OutcomeUnknown "durable provider request is outside the sealed exact RunMicrovm boundary")
          (validate_exact_run_request cfg_region (sl_request sealed));
    Ok (sealed, payload).

Definition launch (lease : MaterializationLease) : ProgM Call LaunchError PhysicalTarget :=
  '(sealed, payload) ← prog_lift (decode_launch lease);
  now ← call Now;
  _ ← prog_lift (admit_provider_dispatch lease (sl_dispatch_deadline_at_ms sealed) now);
  microvm_id ← try_call launch_failure (VmRun (sl_request sealed));
  prog_lift (map_err (fun e => OutcomeUnknown (materialization_error_text e))
    (PhysicalTarget_new microvm_id (l_generation lease) (pay_control_token payload))).

Definition terminate_stale (target : PhysicalTarget) : ProgM Call string unit :=
  try_call control_error_text (VmTerminate (p_target_ref target)).

(** ** hand-core's materializer over these calls *)
Notation MatM := (ProgM Call MaterializationError).

Definition mat_call {X} (c : Call (result MaterializationError X)) : MatM X := try_call (fun e => e) c.

Definition FENCED_PREFIX : string := "exact launch recovery returned no target; reservation remains fenced: ".

Definition mat_launch_failed (lease : MaterializationLease) (now_ms : Z) (e : LaunchError) : MatM InstalledTarget :=
  match e with
  | LCapacity scope retry_after_ms message =>
      _ ← (if negb (recovery_attempt lease) then mat_call (RegExpire lease now_ms) else mret tt);
      prog_throw (CapacityError scope retry_after_ms message)
  | KnownNoTarget message =>
      if recovery_attempt lease then prog_throw (LaunchOutcomeUnknown (FENCED_PREFIX +:+ message))
      else
        _ ← mat_call (RegExpire lease now_ms);
        prog_throw (LaunchRejected message)
  | RetryableKnownNoTarget message =>
      _ ← (if negb (recovery_attempt lease) then mat_call (RegExpire lease now_ms) else mret tt);
      prog_throw (LaunchRetryable message)
  | OutcomeUnknown message => prog_throw (LaunchOutcomeUnknown message)
  end.

Definition mat_materialize (lease : MaterializationLease) (now_ms : Z) : MatM InstalledTarget :=
  launched ← prog_observe (launch lease);
  match launched with
  | Err e => mat_launch_failed lease now_ms e
  | Ok physical =>
      out ← mat_call (RegInstall lease physical now_ms);
      match out with
      | InstInstalled target => mret target
      | InstReservationLost =>
          stopped ← prog_observe (terminate_stale physical);
          prog_throw (ReservationLost (match stopped with Err e => Some e | Ok _ => None end))
      end
  end.

Definition mat_ensure (request : AcquireTarget) : MatM InstalledTarget :=
  out ← mat_call (RegAcquire request);
  match out with
  | AcqInstalled target => mret target
  | AcqAcquired lease => mat_materialize lease (a_now_ms request)
  | AcqPending _ retry_after_ms => prog_throw (Pending retry_after_ms)
  | AcqGone => prog_throw Gone
  | AcqTerminated => prog_throw Terminated
  end.

(** ** Lemmas *)

(** What a replayed launch agrees with. *)
Lemma decode_launch_Ok lease sealed payload :
  decode_launch lease = Ok (sealed, payload) <->
  sealed_of_json (dlr_expose (l_launch_request lease)) = Some sealed
  /\ payload_of_json (run_hook_payload (sl_request sealed)) = Some payload
  /\ (exists rd nd, digest_resources (pay_resources payload) = Some rd /\ digest_network (pay_network payload) = Some nd
       /\ launch_dispatch_deadline lease = Ok (sl_dispatch_deadline_at_ms sealed)
       /\ launch_matches lease sealed payload rd nd (sl_dispatch_deadline_at_ms sealed) = true)
  /\ validate_exact_run_request cfg_region (sl_request sealed) = Ok tt.
Proof.
  unfold decode_launch. split.
  - destruct (sealed_of_json _) as [s|]; [|done]. cbn [ok_or mbind result_bind].
    destruct (payload_of_json _) as [p|] eqn:Hp; [|done]. cbn [ok_or mbind result_bind].
    destruct (digest_resources _) as [rd|] eqn:Hr; [|done]. cbn [ok_or mbind result_bind].
    destruct (digest_network _) as [nd|] eqn:Hn; [|done]. cbn [ok_or mbind result_bind].
    destruct (launch_dispatch_deadline lease) as [d|]; [|done]. cbn [map_err mbind result_bind].
    destruct (launch_matches _ _ _ _ _ _) eqn:Hm; [|done]. cbn [negb].
    destruct (validate_exact_run_request _ _) as [[]|] eqn:Hv; [|done]. intros [= <- <-].
    assert (d = sl_dispatch_deadline_at_ms s) as ->.
    { unfold launch_matches in Hm. repeat (apply andb_true_iff in Hm as [Hm ?]). lia. }
    by eauto 15.
  - intros (Hs & Hp & (rd & nd & Hr & Hn & Hd & Hm) & Hv). rewrite Hs. cbn. rewrite Hp. cbn. rewrite Hr. cbn. rewrite Hn. cbn.
    rewrite Hd. cbn. rewrite Hm. cbn. by rewrite Hv.
Qed.

(** The image lookups answer with names. *)
Definition named_image (e : HandEvent) : Prop :=
  match e with
  | Ev c x =>
      match c in Call X return X -> Prop with
      | ImageCached => fun arn => arn <> Some EmptyString
      | ImageFind _ => fun found => found <> Some (Some EmptyString)
      | _ => fun _ => True
      end x
  end.

Lemma image_arn_named tr arn : runs image_arn tr (Ok arn) -> Forall named_image tr -> arn <> EmptyString.
Proof.
  unfold image_arn. intros (cached & t1 & t2 & -> & ->%runs_call_Ok & Hr)%runs_mbind_Ok [Hc Ht]%Forall_app.
  apply Forall_inv in Hc. cbn in Hc. destruct cached as [a|].
  - destruct Hr as [_ [= ->]]. congruence.
  - apply runs_mbind_Ok in Hr as (found & t3 & t4 & -> & ->%runs_call_Ok & Hr).
    apply Forall_app in Ht as [Hf _]. apply Forall_inv in Hf. cbn in Hf.
    apply runs_mbind_Ok in Hr as (found' & t5 & t6 & -> & [-> Hl]%runs_lift_Ok & Hr).
    apply runs_mbind_Ok in Hr as (arn' & t7 & t8 & -> & [-> Hl']%runs_lift_Ok & Hr).
    apply runs_mbind_Ok in Hr as (u & t9 & t10 & -> & _ & [-> [= ->]]).
    destruct found as [[a|]|]; cbn in Hl; simplify_eq/=. congruence.
Qed.

(** What a successful seal contains. *)
Lemma seal_launch_Ok self lease tr sealed :
  runs (seal_launch self lease) tr (Ok sealed) -> Forall named_image tr ->
  exists token proxy image text ref d,
    image <> EmptyString /\ resolve cfg_connectors (connector_class (gl_network self)) = Some ref
    /\ payload_to_json (sealed_payload self lease token proxy) = Some text
    /\ launch_dispatch_deadline lease = Ok d
    /\ sealed_to_json (mkSealedProviderLaunch (image_identity (l_spec lease)) d
         (exact_run_request cfg_region image cfg_image_version text (l_reservation_id lease) ref)) = Some (dlr_expose sealed).
Proof.
  unfold seal_launch, expected. intros Hr Ht.
  apply runs_mbind_Ok in Hr as (proxy & t1 & t2 & -> & _ & Hr). apply Forall_app in Ht as [_ Ht].
  apply runs_mbind_Ok in Hr as (random & t3 & t4 & -> & _ & Hr). apply Forall_app in Ht as [_ Ht].
  apply runs_mbind_Ok in Hr as (token & t5 & t6 & -> & _ & Hr). apply Forall_app in Ht as [_ Ht].
  apply runs_mbind_Ok in Hr as (image & t7 & t8 & -> & Hi & Hr). apply Forall_app in Ht as [Hti _].
  apply runs_mbind_Ok in Hr as (ref & t9 & t10 & -> & [_ Href]%runs_lift_Ok & Hr).
  apply runs_mbind_Ok in Hr as (text & t11 & t12 & -> & [_ Htext]%runs_lift_Ok & Hr).
  apply runs_mbind_Ok in Hr as (d & t13 & t14 & -> & [_ Hd]%runs_lift_Ok & Hr).
  apply runs_mbind_Ok in Hr as (encoded & t15 & t16 & -> & [_ He]%runs_lift_Ok & [_ Hs]%runs_lift_Ok).
  exists token, proxy, image, text, ref, d. split; [by apply (image_arn_named t7)|].
  destruct (resolve _ _); simplify_eq/=. split; [done|]. destruct (payload_to_json _); simplify_eq/=. split; [done|].
  apply map_err_Ok in Hd. split; [done|]. destruct (sealed_to_json _); simplify_eq/=. apply map_err_Ok in Hs.
  unfold DurableLaunchRequest_new in Hs. by destruct (launch_request_in_bounds encoded); simplify_eq/=.
Qed.
End launch.
