(* ===== verification/AwsHand.v ===== *)
(** * hand-brain-aws: the request handlers

    Models crates/hand-brain-aws/src/hand.rs and the ports of crates/hand-brain-aws/src/ports/ as programs over
    the calls of [AwsCalls]: the resolution, termination and reconciliation of targets, the materialization and
    the installations of a submission, file effects, and the purge of a root. [prepare] is in [Prepare]. *)
From S2P Require Import Prelude Policy Page Target Launcher Control Wire GuestErrors GuestTarget GuestFiles GuestInstall GuestOperations GuestStdin Definitions AwsErrors AwsSeals Cache Transfer Prog AwsCalls AwsClient AwsLaunch.

Definition HAND_ID : string := "aex-aws-hand".
Definition DEADLINE_REASON : string := "physical target hard deadline reached".
Definition GONE_REASON : string := "provider reports physical generation gone".
Definition ENDPOINT_REASON : string := "guest supervisor endpoint is permanently unavailable".
Definition MAX_TARGETS_PER_PURGE_ATTEMPT : nat := 25.

(** ** The secret delivery slot *)
Definition verify_composed (attached : bool) : result AwsError unit :=
  if attached then Ok tt else Err (error CapabilityUnavailable false).
Definition attach_secret_delivery {Port : Type} (port : Port) : M (option Port) AwsError unit := fun slot =>
  match slot with Some _ => (Err invalid, slot) | None => (Ok tt, Some port) end.

Inductive SubmitRoute := Established (target_ref generation : string) | Lazy.
Definition submit_route (envelope : @OperationEnvelope (list NetworkItem)) : result AwsError SubmitRoute :=
  match env_target_ref envelope, env_generation envelope with
  | Some target_ref, Some generation => Ok (Established target_ref generation)
  | None, None => Ok Lazy
  | _, _ => Err invalid
  end.

Inductive ProviderLiveness := Absent | LiveTerminating | Live.

Definition require_additional_target (target : SandboxTarget) : result AwsError unit :=
  match sx_kind target, sx_sandbox_id target with OtherTarget, Some _ => Ok tt | _, _ => Err invalid end.
Definition require_default_target (target : SandboxTarget) : result AwsError unit :=
  match sx_kind target, sx_sandbox_id target with DefaultTarget, None => Ok tt | _, _ => Err invalid end.

Section hand.
Context {B : BrainTypes} {O : HandOps}.

Definition reg {X} (c : Call (result MaterializationError X)) : HandM X := try_call materialization_error c.

(** ** Provider state and durable closure *)
Definition provider_liveness (target_ref : string) : HandM ProviderLiveness :=
  vm ← prog_observe (try_call (fun e => e) (VmGet target_ref) : ProgM Call ControlError Microvm);
  match vm with
  | Err (ControlGone _) => mret Absent
  | Ok vm =>
      if is_terminated (mv_state vm) then mret Absent
      else if decide (mv_state vm = VmTerminating) then mret LiveTerminating
      else mret Live
  | Err e => prog_throw (control_error e)
  end.

Definition confirm_provider_termination (installed : InstalledTarget) : HandM unit :=
  liveness ← provider_liveness (i_target_ref installed);
  match liveness with
  | Absent => mret tt
  | LiveTerminating => prog_throw temporary
  | Live =>
      stopped ← prog_observe (try_call (fun e => e) (VmTerminate (i_target_ref installed)) : ProgM Call ControlError unit);
      match stopped with
      | Ok _ | Err (UnknownOutcome _) =>
          liveness ← provider_liveness (i_target_ref installed);
          match liveness with Absent => mret tt | LiveTerminating | Live => prog_throw temporary end
      | Err (ControlGone _) => mret tt
      | Err e => prog_throw (control_error e)
      end
  end.

Definition forget_target (installed : InstalledTarget) : HandM unit :=
  _ ← call (EndpointForget (i_target_ref installed));
  call (ArtifactForget (i_target_ref installed)).

(** Both closures of the code: mark the row closed now, then forget the process-local state. *)
Definition close_target (installed : InstalledTarget) (disposition : Disposition) (reason : string) : HandM unit :=
  now ← call Now;
  _ ← reg (RegClose installed disposition reason now);
  forget_target installed.

Definition record_gone (installed : InstalledTarget) (reason : string) : HandM unit := close_target installed Lost reason.

Definition terminate_target (installed : InstalledTarget) (reason : string) : HandM unit :=
  _ ← confirm_provider_termination installed;
  close_target installed DTerminated reason.

Definition retire_endpoint_lost_target (installed : InstalledTarget) : HandM unit :=
  _ ← confirm_provider_termination installed;
  record_gone installed ENDPOINT_REASON.

Definition settle_guest_result {A} (installed : InstalledTarget) (r : result AwsError A) : HandM A :=
  match r with
  | Err e => if decide (ae_code e = SandboxGone) then _ ← retire_endpoint_lost_target installed; prog_throw e else prog_throw e
  | Ok a => mret a
  end.

Definition settled {A} (installed : InstalledTarget) (m : HandM A) : HandM A :=
  r ← prog_observe m;
  settle_guest_result installed r.

Definition guest_rpc (installed : InstalledTarget) (request : RequestCall) : HandM ResponseReply := settled installed (rpc installed request).

(** A submission is never reconciled to a lost target: its durable fence stays. *)
Definition guest_submit_rpc (installed : InstalledTarget) (request : SubmitRequest) : HandM ResponseReply :=
  prog_map_err classify_submit_delivery_error (rpc installed (CallSubmit request)).

(** One guest request whose reply must have the right shape. *)
Definition guest_ask {A} (installed : InstalledTarget) (request : RequestCall) (project : ResponseReply -> option A) : HandM A :=
  reply ← guest_rpc installed request;
  prog_lift (ok_or wrong_reply (project reply)).

(** ** Targets *)
Definition resolve_target (target : SandboxTarget) (expected_generation : option string) : HandM InstalledTarget :=
  key ← prog_lift (aws_target_key target);
  record ← reg (RegGet key);
  record ← prog_lift (ok_or (error SandboxNotMaterialized false) record);
  match r_state record with
  | Closed _ _ _ => prog_throw (error SandboxGone false)
  | Materializing _ _ _ _ _ _ => prog_throw temporary
  | Installed target_ref control_token installed_at_ms expires_at_ms =>
      let installed := mkInstalledTarget (r_key record) (r_spec record) (r_spec_digest record) target_ref (r_generation record)
                         control_token installed_at_ms expires_at_ms in
      if match expected_generation with Some expected => negb (str_eqb expected (i_generation installed)) | None => false end
      then prog_throw generation_error
      else
        now ← call Now;
        if i_expires_at_ms installed <=? now then
          _ ← confirm_provider_termination installed;
          _ ← record_gone installed DEADLINE_REASON;
          prog_throw (error SandboxGone false)
        else mret installed
  end.

Definition resolve_operation_target (operation : OperationRef) : HandM InstalledTarget :=
  installed ← resolve_target (or_target operation) (Some (or_generation operation));
  if negb (str_eqb (i_target_ref installed) (or_target_ref operation)) then prog_throw generation_error else mret installed.

Definition preparation (session_id : string) : HandM Cache.Preparation :=
  p ← call (CachePreparation session_id);
  prog_lift (ok_or (error CapabilityUnavailable false) p).

Definition preparation_for_root (session_id root_id : string) : HandM Cache.Preparation :=
  p ← preparation session_id;
  if negb (str_eqb (pr_root_id (p_request p)) root_id) then prog_throw binding_error else mret p.

(** [binding_]: the code's [binding]. *)
Definition binding_ (root_id binding_ref : string) : HandM (SealedBinding BindingRest) :=
  record ← try_call definition_error (DefGet root_id Binding binding_ref);
  record ← prog_lift (ok_or binding_error record);
  prog_lift (map_err definition_error (decode binding_of_json record)).

(** ** Materialization *)
Definition materialize (key : TargetKey) (owner_session_id : string) (resources : ResourceCeiling) (network : Network)
    (resource_class : string) (mode : MaterializationMode) : HandM InstalledTarget :=
  if negb (str_eqb resource_class RESOURCE_CLASS) then prog_throw (error CapabilityUnavailable false)
  else
    spec ← prog_lift (target_spec MAX_TOOL_TERMINAL_INLINE_BYTES digest_resources digest_network cfg_image cfg_image_version
                        resources network resource_class);
    now ← call Now;
    reservation_id ← call (RandomIdentifier "reservation");
    generation ← (match generation_intent mode with Some g => mret g | None => call (RandomIdentifier "generation") end);
    attempt_id ← call (RandomIdentifier "attempt");
    let fenced := match generation_intent mode with Some _ => true | None => false end in
    let request launch_request := plane_request key spec reservation_id generation attempt_id launch_request fenced
                                    (Cache.replace_after_loss mode) now in
    preview ← prog_lift (map_err materialization_error (AcquireTarget_lease spec_digest (request (mkDurableLaunchRequest "unsealed"))));
    sealed ← seal_launch (mkGenerationLauncher key owner_session_id resources network resource_class) preview;
    prog_map_err materialization_error (mat_ensure (request sealed)).

Definition route_for_submit (request : SubmitRequest) : HandM InstalledTarget :=
  let envelope := sq_envelope request in
  route ← prog_lift (submit_route envelope);
  prep ← preparation_for_root (env_session_id envelope) (env_root_id envelope);
  _ ← prog_lift (validate_operation_root_seal network_ceiling_is_subset (env_resources envelope) (env_network envelope) (p_request prep));
  match route with
  | Established target_ref generation =>
      spec ← prog_lift (target_spec MAX_TOOL_TERMINAL_INLINE_BYTES digest_resources digest_network cfg_image cfg_image_version
                          (pr_resources (p_request prep)) (pr_network (p_request prep)) RESOURCE_CLASS);
      installed ← resolve_target (default_target envelope) (Some generation);
      if negb (str_eqb (i_target_ref installed) target_ref) || negb (str_eqb (i_spec_digest installed) (spec_digest spec))
      then prog_throw generation_error else mret installed
  | Lazy =>
      key ← prog_lift (map_err materialization_error (for_default_target (env_root_id envelope)));
      materialize key (env_session_id envelope) (pr_resources (p_request prep)) (pr_network (p_request prep)) RESOURCE_CLASS LazyDefault
  end.

(** ** Installations *)
Definition locked {A} (g : Guard) (m : HandM A) : HandM A := holding (Enter g) (Leave g) m.

(** A semaphore permit; acquiring fails once the semaphore is closed. *)
Definition permitted {A} (g : Guard) (m : HandM A) : HandM A :=
  Do (Enter g) (fun entered : bool =>
    if entered then prog_bind m (fun r => Do (Leave g) (fun _ => Ret r)) else prog_throw temporary_from).

Definition already_installed (target_ref : string) (artifact : InstalledArtifact) : HandM bool := call (ArtifactHas target_ref artifact).

(** [install_secrets] past both checks of the marker, under the shard lock and the memory permit. *)
Definition deliver_secrets (route : InstalledTarget) (envelope : @OperationEnvelope (list NetworkItem)) : HandM unit :=
  prep ← preparation (env_session_id envelope);
  capability ← prog_lift (ok_or (error CapabilityUnavailable false) (pr_secret_capability (p_request prep)));
  port ← try_call (fun _ => temporary_from) SecretPort;
  _ ← prog_lift (verify_composed port);
  _ ← call (CacheConsume (env_session_id envelope) (sc_capability_ref capability));
  _ ← prog_lift (ensure (identifier_parses (i_generation route)) generation_error);
  values ← try_call (fun e => e) (SecretRedeem (mkSecretDeliveryRequest (sc_capability_ref capability) (i_generation route) HAND_ID
    (env_root_id envelope) (env_session_id envelope) (default_target envelope)));
  _ ← prog_lift (map_err (fun _ => error CapabilityUnavailable false)
    (secret_material_fits MAX_SESSION_SECRET_NAME_BYTES MAX_SESSION_SECRET_NAMES MAX_SESSION_SECRET_VALUE_UTF8_BYTES
       MAX_SESSION_SECRET_DOCUMENT_BYTES jcs_values (sc_env_names capability) values));
  _ ← post_json route "/internal/secrets"
        (json_install_secrets (env_session_id envelope) (i_generation route) (sc_env_names capability) values);
  call (ArtifactAdd (i_target_ref route) (ArtifactSecrets (env_session_id envelope))).

Definition install_secrets (route : InstalledTarget) (envelope : @OperationEnvelope (list NetworkItem))
    (binding : SealedBinding BindingRest) : HandM unit :=
  if match sb_bundle binding with Some bundle => len (bd_required_env bundle) =? 0 | None => true end then mret tt
  else
    let marker := ArtifactSecrets (env_session_id envelope) in
    installed ← already_installed (i_target_ref route) marker;
    if (installed : bool) then mret tt
    else
      locked (SecretLock (secret_install_lock_index sha256 (i_target_ref route) (env_session_id envelope)))
        (installed ← already_installed (i_target_ref route) marker;
         if (installed : bool) then mret tt else permitted SecretPermit (deliver_secrets route envelope)).

Definition install_bundle_artifacts (route : InstalledTarget) (binding_ref : string) (binding : SealedBinding BindingRest)
    (descriptor : BundleDescriptor BindingRest) : HandM unit :=
  bundle ← call (CacheBundle (bd_bundle_digest descriptor));
  bundle ← prog_lift (ok_or (error CapabilityUnavailable false) bundle);
  _ ← post_blob route ("/internal/bundles/" +:+ bd_bundle_digest descriptor) (json_bundle_metadata descriptor) bundle;
  _ ← post_json route "/internal/bindings" (json_install_binding binding_ref binding);
  call (ArtifactAdd (i_target_ref route) (ArtifactBundle binding_ref (bd_bundle_digest descriptor))).

Definition install_for_operation (route : InstalledTarget) (request : SubmitRequest) : HandM unit :=
  let envelope := sq_envelope request in
  binding ← binding_ (env_root_id envelope) (env_binding_ref envelope);
  descriptor ← prog_lift (ok_or (error CapabilityUnavailable false) (sb_bundle binding));
  installed ← already_installed (i_target_ref route) (ArtifactBundle (env_binding_ref envelope) (bd_bundle_digest descriptor));
  _ ← (if (installed : bool) then mret tt
       else permitted BundlePermit (install_bundle_artifacts route (env_binding_ref envelope) binding descriptor));
  install_secrets route envelope binding.

Definition install_object (route : InstalledTarget) (object : ObjectReference) (staged : StagedObject) : HandM unit :=
  if negb (so_bytes staged =? obj_bytes object) || negb (str_eqb (so_sha256 staged) (obj_sha256 object)) then prog_throw invalid
  else post_file route ("/internal/objects/" +:+ obj_sha256 object) (json_object_metadata object) staged.

(** ** HandPort (ports/execution.rs) *)
Record ResolvedBinding := mkResolvedBinding {
  rb_binding_ref : string; rb_capabilities : list string; rb_hand_id : string; rb_max_inline_input_bytes : Z;
  rb_max_inline_result_bytes : Z; rb_max_wait_ms : Z; rb_realm : ExecutionRealm; rb_recovery : string }.

Definition resolve_binding (binding : SealedBinding BindingRest) : HandM ResolvedBinding :=
  _ ← prog_lift (validate_managed_binding MAX_TOOL_BUNDLE_BYTES MAX_SESSION_SECRET_NAMES MAX_SESSION_SECRET_NAME_BYTES
                   required_capabilities binding);
  digest ← prog_lift (ok_or invalid (digest_binding binding));
  let binding_ref := "binding:" +:+ digest in
  now ← call Now;
  record ← prog_lift (map_err definition_error (canonical sha256_hex jcs_binding (sb_root_id binding) Binding binding_ref binding now));
  _ ← try_call definition_error (DefInstall record);
  mret (mkResolvedBinding binding_ref ["execution"; "session_preparation"; "sandbox_files"; "sandbox_control"] HAND_ID
          MAX_MANAGED_TOOL_INPUT_BYTES MAX_TOOL_TERMINAL_INLINE_BYTES 30000 AexManaged "retained").

Definition submit (request : SubmitRequest) : HandM Receipt :=
  _ ← prog_lift (validate_inline_input MAX_MANAGED_TOOL_INPUT_BYTES jcs_input (sq_input request));
  if negb (str_eqb (operation_request_digest request) (env_request_digest (sq_envelope request))) then prog_throw invalid
  else
    route ← route_for_submit request;
    _ ← settled route (install_for_operation route request);
    reply ← guest_submit_rpc route request;
    match reply with ReplySubmit receipt => mret receipt | _ => prog_throw wrong_reply end.

Definition observe (request : OperationRequest ObserveRest) : HandM Observation :=
  installed ← resolve_operation_target (oq_operation request);
  guest_ask installed (CallObserve request) (fun r => match r with ReplyObserve o => Some o | _ => None end).
Definition cancel (request : OperationRequest CancelRest) : HandM Cancellation :=
  installed ← resolve_operation_target (oq_operation request);
  guest_ask installed (CallCancel request) (fun r => match r with ReplyCancel c => Some c | _ => None end).
Definition acknowledge_terminal (request : OperationRequest AcknowledgeRest) : HandM Acknowledgement :=
  installed ← resolve_operation_target (oq_operation request);
  guest_ask installed (CallAcknowledgeTerminal request) (fun r => match r with ReplyAcknowledgeTerminal a => Some a | _ => None end).

(** ** SandboxFilesPort (ports/files.rs) *)
Definition status (target : SandboxTarget) : HandM SandboxStatus :=
  key ← prog_lift (aws_target_key target);
  record ← reg (RegGet key);
  match record with
  | None => mret (status_from_record target None)
  | Some record =>
      match installed record with
      | None => mret (status_from_record target (Some record))
      | Some it =>
          let gone (confirm : HandM unit) reason : HandM SandboxStatus :=
            _ ← confirm;
            _ ← record_gone it reason;
            now ← call Now;
            mret (gone_status target it reason now) in
          now ← call Now;
          if i_expires_at_ms it <=? now then gone (confirm_provider_termination it) DEADLINE_REASON
          else
            vm ← prog_observe (try_call (fun e => e) (VmGet (i_target_ref it)) : ProgM Call ControlError Microvm);
            match vm with
            | Ok vm =>
                if is_terminated (mv_state vm) then gone (mret tt) GONE_REASON
                else
                  state ← prog_lift (sandbox_state_from_provider (mv_state vm));
                  let s := status_from_record target (Some record) in
                  mret (mkSandboxStatus (ss_changed_at_ms s) (ss_expires_at_ms s) (ss_generation_of s) (ss_reason s) state
                          (ss_target s) (ss_target_ref s))
            | Err (ControlGone _) => gone (mret tt) GONE_REASON
            | Err e => prog_throw (control_error e)
            end
      end
  end.

Definition list_ (request : TargetRequest ListRest) : HandM FileList :=
  installed ← resolve_target (tq_target request) (Some (tq_expected_generation request));
  guest_ask installed (CallListFiles request) (fun r => match r with ReplyListFiles l => Some l | _ => None end).
Definition stat (request : SandboxFileRequest) : HandM FileEntry :=
  installed ← resolve_target (fq_target request) (Some (fq_expected_generation request));
  guest_ask installed (CallStatFile request) (fun r => match r with ReplyStatFile e => Some e | _ => None end).
Definition read (request : SandboxFileRequest) : HandM FileContent :=
  installed ← resolve_target (fq_target request) (Some (fq_expected_generation request));
  guest_ask installed (CallReadFile request) (fun r => match r with ReplyReadFile c => Some c | _ => None end).
Definition find (request : TargetRequest SearchRest) : HandM FileList :=
  installed ← resolve_target (tq_target request) (Some (tq_expected_generation request));
  guest_ask installed (CallFindFiles request) (fun r => match r with ReplyFindFiles l => Some l | _ => None end).
Definition grep (request : TargetRequest SearchRest) : HandM FileList :=
  installed ← resolve_target (tq_target request) (Some (tq_expected_generation request));
  guest_ask installed (CallGrepFiles request) (fun r => match r with ReplyGrepFiles l => Some l | _ => None end).

Definition reserve_file_effect (installed : InstalledTarget) (identity : FileEffectIdentity) : HandM (FileEffectReservation StoredResult) :=
  guest_ask installed (CallReserveFileEffect identity) (fun r => match r with ReplyReserveFileEffect v => Some v | _ => None end).
Definition claim_file_effect (installed : InstalledTarget) (identity : FileEffectIdentity) : HandM (FileEffectReservation StoredResult) :=
  guest_ask installed (CallClaimFileEffect identity) (fun r => match r with ReplyClaimFileEffect v => Some v | _ => None end).

Notation WriteResult := (EffectResult FileEntry).
Notation CopyResult := (EffectResult CopyPayload).

Definition stored_write (r : StoredResult) : option WriteResult := match r with StoredWrite w => Some w | _ => None end.
Definition stored_copy (r : StoredResult) : option CopyResult := match r with StoredCopy c => Some c | _ => None end.

Definition project_guest_file_write (request : SandboxFileWriteRequest) : GuestFileWriteRequest :=
  mkGuestFileWriteRequest (mkFileEffectIdentity Write (fw_operation_id request) (fw_request_digest request))
    (fw_expected_generation request) (fw_overwrite request) (fw_path request)
    (match fw_source request with
     | SourceInline content => Inline content
     | SourceObject object _ => InstalledObject (obj_bytes object) (obj_sha256 object)
     end) (sx_root_id (fw_target request)).

Definition file_effect_identity (request : SandboxCopyRequest) (kind : FileEffectKind) : FileEffectIdentity :=
  mkFileEffectIdentity kind (cq_operation_id request) (cq_request_digest request).

(** Fetch the object host-side and install it in the guest. *)
Definition stage_object (installed : InstalledTarget) (object : ObjectReference) (authority : ObjectTransferAuthority) : HandM unit :=
  staged ← try_call (fun e => e) (FetchObject authority object);
  settled installed (install_object installed object staged).

Definition write (request : SandboxFileWriteRequest) : HandM WriteResult :=
  if negb (str_eqb (sandbox_file_write_request_digest request) (fw_request_digest request)) then prog_throw invalid
  else
    locked (FileLock (Cache.file_effect_lock_index sha256 (fw_operation_id request)))
      (installed ← resolve_target (fw_target request) (Some (fw_expected_generation request));
       reservation ← reserve_file_effect installed (mkFileEffectIdentity Write (fw_operation_id request) (fw_request_digest request));
       match reservation with
       | ReservationReplay result => prog_lift (ok_or temporary (stored_write result))
       | ReservationNew =>
           _ ← (match fw_source request with
                | SourceObject object authority => stage_object installed object authority
                | SourceInline _ => mret tt
                end);
           guest_ask installed (CallWriteFile (project_guest_file_write request))
             (fun r => match r with ReplyWriteFile stored => stored_write stored | _ => None end)
       end).

Definition transfer_import (request : SandboxCopyRequest) (installed : InstalledTarget) (identity : FileEffectIdentity) : HandM CopyResult :=
  object ← prog_lift (ok_or invalid (cq_object request));
  _ ← stage_object installed object (cq_transfer request);
  guest_ask installed
    (CallWriteFile (mkGuestFileWriteRequest identity (cq_expected_generation request) (cq_overwrite request) (cq_path request)
       (InstalledObject (obj_bytes object) (obj_sha256 object)) (sx_root_id (cq_target request))))
    (fun r => match r with ReplyWriteFile stored => stored_copy stored | _ => None end).

(** What the guest is told the export produced: the streamed snapshot, not the metadata read before it. *)
Definition exported (request : SandboxCopyRequest) (file : FileEntry) (staged : StagedObject) : CopyResult :=
  mkEffectResult (cq_operation_id request) (cq_request_digest request) false
    (mkFileEntry (so_bytes staged) (fe_entry_kind file) (fe_entry_modified_at_ms file) (fe_entry_path file) (Some (so_sha256 staged)),
     Some (mkObjectReference (ta_object_id (cq_transfer request)) (so_bytes staged) (so_sha256 staged))).

Definition transfer_export (request : SandboxCopyRequest) (installed : InstalledTarget) (identity : FileEffectIdentity) : HandM CopyResult :=
  _ ← prog_lift (ensure (path_parses (cq_path request)) invalid);
  let read := mkSandboxFileRequest (cq_target request) (cq_expected_generation request) (cq_path request) in
  now ← call Now;
  _ ← prog_lift (validate_transfer_authority parse_url (cq_transfer request) MethodPut 0 now);
  '(file, response) ← settled installed (export_file installed read);
  staged ← try_call (fun e => e) (StageResponse response (Z.min (ta_max_bytes (cq_transfer request)) MAX_OBJECT_BYTES)
                                    (ta_expires_at_ms (cq_transfer request)));
  claim ← claim_file_effect installed identity;
  match claim with
  | ReservationReplay result => prog_lift (ok_or temporary (stored_copy result))
  | ReservationNew =>
      _ ← try_call (fun e => e) (PutObject (cq_transfer request) staged);
      guest_ask installed (CallCompleteFileEffect (StoredCopy (exported request file staged)))
        (fun r => match r with ReplyCompleteFileEffect stored => stored_copy stored | _ => None end)
  end.

Definition transfer (request : SandboxCopyRequest) : HandM CopyResult :=
  if negb (str_eqb (sandbox_copy_request_digest request) (cq_request_digest request)) then prog_throw invalid
  else
    locked (FileLock (Cache.file_effect_lock_index sha256 (cq_operation_id request)))
      (installed ← resolve_target (cq_target request) (Some (cq_expected_generation request));
       let identity := file_effect_identity request (match cq_direction request with CopyDirImport => CopyImport | CopyDirExport => CopyExport end) in
       reservation ← reserve_file_effect installed identity;
       match reservation with
       | ReservationReplay result => prog_lift (ok_or temporary (stored_copy result))
       | ReservationNew =>
           match cq_direction request with
           | CopyDirImport => transfer_import request installed identity
           | CopyDirExport => transfer_export request installed identity
           end
       end).
End hand.
