(* ===== verification/AwsPorts.v ===== *)
(** * hand-brain-aws: lifecycle and control of targets

    Models crates/hand-brain-aws/src/ports/control.rs and the lifecycle half of ports/preparation.rs:
    additional sandboxes, the default target, and the bounded purge of a root with its recovery of rows that were
    left materializing. *)
From S2P Require Import Prelude Policy Page Target Launcher Control Wire GuestErrors GuestTarget GuestFiles GuestInstall GuestOperations GuestStdin Definitions AwsErrors AwsSeals Cache Prog AwsCalls AwsClient AwsLaunch AwsHand.

Definition ADDITIONAL_REASON : string := "explicit additional lifecycle operation".
Definition DEFAULT_REASON : string := "explicit default lifecycle operation".
Definition PURGE_REASON : string := "root purge".

Inductive PurgeStep := Purged | Unresolved.

#[global] Instance PurgeStep_eq_dec : EqDecision PurgeStep.
Proof. solve_decision. Defined.

Section ports.
Context {B : BrainTypes} {O : HandOps}.

(** ** SandboxControlPort (ports/control.rs) *)
Definition create (request : CreateSandboxRequest) : HandM SandboxStatus :=
  _ ← prog_lift (require_additional_target (cr_target request));
  prep ← preparation (sx_session_id (cr_target request));
  if negb (str_eqb (pr_root_id (p_request prep)) (sx_root_id (cr_target request))) then prog_throw binding_error
  else
    _ ← prog_lift (validate_resource_ceiling_subset (cr_resources request) (pr_resources (p_request prep)));
    if negb (network_ceiling_is_subset (cr_network request) (pr_network (p_request prep)))
    then prog_throw (error GenerationConflict false)
    else
      key ← prog_lift (aws_target_key (cr_target request));
      installed ← materialize key (sx_session_id (cr_target request)) (cr_resources request) (cr_network request)
                    (cr_resource_class request) (Additional (cr_generation_intent request));
      mret (running_status (cr_target request) installed).

Definition inspect (target : SandboxTarget) : HandM SandboxStatus :=
  _ ← prog_lift (require_additional_target target);
  status target.

Definition execute (request : @SandboxExecutionRequest (list NetworkItem)) : HandM Receipt :=
  _ ← prog_lift (require_additional_target (sxr_target request));
  if negb (str_eqb (sandbox_execution_request_digest request) (sxr_request_digest request)) then prog_throw invalid
  else
    installed ← resolve_target (sxr_target request) (Some (sxr_expected_generation request));
    guest_ask installed (CallExecuteSandbox request) (fun r => match r with ReplyExecuteSandbox v => Some v | _ => None end).

Definition write_stdin (request : WriteStdinRequest) : HandM StdinReceipt :=
  _ ← prog_lift (require_additional_target (wr_target request));
  if negb (str_eqb (write_stdin_request_digest request) (wr_request_digest request)) then prog_throw invalid
  else if MAX_WRITE_STDIN_BYTES <? str_len (wr_text request) then prog_throw invalid
  else
    installed ← resolve_target (wr_target request) (Some (wr_expected_generation request));
    guest_ask installed (CallWriteStdin request) (fun r => match r with ReplyWriteStdin v => Some v | _ => None end).

(** The end of a target: resolve it whatever its generation, terminate it, report. *)
Definition end_target (target : SandboxTarget) (reason : string) : HandM SandboxStatus :=
  installed ← resolve_target target None;
  _ ← terminate_target installed reason;
  now ← call Now;
  mret (terminated_status target installed reason now).

Definition terminate (target : SandboxTarget) : HandM SandboxStatus :=
  _ ← prog_lift (require_additional_target target);
  end_target target ADDITIONAL_REASON.

(** ** SessionPreparationPort (ports/preparation.rs), after [prepare] *)
Definition materialize_default (request : CreateSandboxRequest) : HandM SandboxStatus :=
  _ ← prog_lift (require_default_target (cr_target request));
  prep ← preparation_for_root (sx_session_id (cr_target request)) (sx_root_id (cr_target request));
  _ ← prog_lift (require_exact_root_seal digest_resources digest_network request (p_request prep));
  key ← prog_lift (aws_target_key (cr_target request));
  installed ← materialize key (sx_session_id (cr_target request)) (pr_resources (p_request prep)) (pr_network (p_request prep))
                (cr_resource_class request) (ExplicitDefault (cr_generation_intent request));
  mret (running_status (cr_target request) installed).

Definition dematerialize_default (target : SandboxTarget) : HandM SandboxStatus :=
  _ ← prog_lift (require_default_target target);
  end_target target DEFAULT_REASON.

(** ** Purge *)
Definition purge_row (key : TargetKey) (generation : string) : HandM PurgeStep :=
  _ ← reg (RegPurge key generation);
  mret Purged.

Definition purge_installed (installed : InstalledTarget) : HandM PurgeStep :=
  _ ← terminate_target installed PURGE_REASON;
  purge_row (i_key installed) (i_generation installed).

(** Replay the sealed launch under a recovery lease, and end whatever target it names. *)
Definition relaunch_and_purge (lease : MaterializationLease) : HandM PurgeStep :=
  _ ← prog_lift (map_err materialization_error (from_durable lease));
  physical ← prog_map_err (fun e => materialization_error (recovery_launch_error e)) (launch lease);
  now ← call Now;
  out ← reg (RegInstall lease physical now);
  match out with
  | InstInstalled installed => purge_installed installed
  | InstReservationLost =>
      _ ← prog_map_err (fun _ : string => temporary) (terminate_stale physical);
      mret Unresolved
  end.

Definition recover_materializing (record : DurableTargetRecord) : HandM PurgeStep :=
  now ← call Now;
  lease ← prog_lift (map_err materialization_error (recovery_lease record));
  if l_lease_expires_at_ms lease <=? now then
    _ ← reg (RegExpire lease now);
    mret Unresolved
  else if (l_target_expires_at_ms lease <=? now) || (now <? l_attempt_expires_at_ms lease) then mret Unresolved
  else
    attempt_id ← call (RandomIdentifier "purge-attempt");
    out ← reg (RegAcquire (recovery_request lease attempt_id now));
    match out with
    | AcqAcquired recovered =>
        if recovery_attempt recovered then relaunch_and_purge recovered
        else
          _ ← reg (RegExpire recovered now);
          mret Unresolved
    | AcqInstalled installed => purge_installed installed
    | AcqPending _ _ | AcqGone | AcqTerminated => mret Unresolved
    end.

Definition purge_one_target (record : DurableTargetRecord) : HandM PurgeStep :=
  match installed record with
  | Some it =>
      _ ← terminate_target it PURGE_REASON;
      purge_row (r_key record) (r_generation record)
  | None =>
      match r_state record with
      | Closed _ _ _ => purge_row (r_key record) (r_generation record)
      | _ => recover_materializing record
      end
  end.

Fixpoint purge_all (records : list DurableTargetRecord) (unresolved : bool) : HandM bool :=
  match records with
  | [] => mret unresolved
  | record :: records =>
      step ← purge_one_target record;
      purge_all records (unresolved || bool_decide (step = Unresolved))
  end.

Definition purge_tree (root_id : string) : HandM unit :=
  page ← reg (RegList root_id None (Z.of_nat MAX_TARGETS_PER_PURGE_ATTEMPT));
  unresolved_materialization ← purge_all (items page) false;
  rest ← reg (RegList root_id None 1);
  if unresolved_materialization || negb (bool_decide (items rest = [])) then prog_throw temporary
  else
    definitions_purged ← try_call definition_error (DefPurge root_id (Z.of_nat MAX_TARGETS_PER_PURGE_ATTEMPT));
    if negb definitions_purged then prog_throw temporary
    else
      purged ← call (CachePurge root_id MAX_TARGETS_PER_PURGE_ATTEMPT);
      if negb purged then prog_throw temporary else mret tt.

(** ** Every request of the plane *)
Inductive HandRequest :=
  | HandResolveBinding (binding : SealedBinding BindingRest)
  | HandSubmit (request : SubmitRequest)
  | HandObserve (request : OperationRequest ObserveRest)
  | HandCancel (request : OperationRequest CancelRest)
  | HandAcknowledge (request : OperationRequest AcknowledgeRest)
  | HandStatus (target : SandboxTarget)
  | HandList (request : TargetRequest ListRest)
  | HandStat (request : SandboxFileRequest)
  | HandRead (request : SandboxFileRequest)
  | HandWrite (request : SandboxFileWriteRequest)
  | HandFind (request : TargetRequest SearchRest)
  | HandGrep (request : TargetRequest SearchRest)
  | HandTransfer (request : SandboxCopyRequest)
  | HandCreate (request : CreateSandboxRequest)
  | HandInspect (target : SandboxTarget)
  | HandExecute (request : @SandboxExecutionRequest (list NetworkItem))
  | HandWriteStdin (request : WriteStdinRequest)
  | HandTerminate (target : SandboxTarget)
  | HandMaterialize (request : CreateSandboxRequest)
  | HandDematerialize (target : SandboxTarget)
  | HandPurge (root_id : string).

Definition completed {A} (m : HandM A) : HandM unit := _ ← m; mret tt.

Definition handle (request : HandRequest) : HandM unit :=
  match request with
  | HandResolveBinding binding => completed (resolve_binding binding)
  | HandSubmit request => completed (submit request)
  | HandObserve request => completed (observe request)
  | HandCancel request => completed (cancel request)
  | HandAcknowledge request => completed (acknowledge_terminal request)
  | HandStatus target => completed (status target)
  | HandList request => completed (list_ request)
  | HandStat request => completed (stat request)
  | HandRead request => completed (read request)
  | HandWrite request => completed (write request)
  | HandFind request => completed (find request)
  | HandGrep request => completed (grep request)
  | HandTransfer request => completed (transfer request)
  | HandCreate request => completed (create request)
  | HandInspect target => completed (inspect target)
  | HandExecute request => completed (execute request)
  | HandWriteStdin request => completed (write_stdin request)
  | HandTerminate target => completed (terminate target)
  | HandMaterialize request => completed (materialize_default request)
  | HandDematerialize target => completed (dematerialize_default target)
  | HandPurge root_id => purge_tree root_id
  end.
End ports.
