(* ===== verification/AwsTraces.v ===== *)
(** * hand-brain-aws: what a request may do, and when

    The safety of the handlers of [AwsHand] and [AwsPorts], over every trace they can have whatever the registry,
    the provider, the guest and the other requests answer: capacity is refunded only on proof that no target
    exists, a provider launch is sealed, leased and in time, an object authority is spent only by the guest's
    claim, a secret capability only after it is removed, and a root's definitions go only after its targets. *)
From S2P Require Import Prelude Policy Page Target Launcher Control Wire GuestErrors GuestTarget GuestFiles GuestInstall GuestOperations GuestStdin Definitions AwsErrors AwsSeals Cache Transfer Prog AwsCalls AwsClient AwsLaunch AwsHand AwsPorts.

Section traces.
Context {B : BrainTypes} {O : HandOps}.

(** ** Evidence *)
Definition vm_absent (answer : result ControlError Microvm) : bool :=
  match answer with Err (ControlGone _) => true | Ok vm => is_terminated (mv_state vm) | _ => false end.

(** The provider said that the target holds no memory. *)
Definition proves_absence (target_ref : string) (e : HandEvent) : Prop :=
  match e with
  | Ev c x =>
      match c in Call X return X -> Prop with
      | VmGet r => fun vm => r = target_ref /\ vm_absent vm = true
      | VmTerminate r => fun stopped => r = target_ref /\ exists m, stopped = Err (ControlGone m)
      | _ => fun _ => False
      end x
  end.

Definition clock_read (now : Z) (e : HandEvent) : Prop :=
  match e with
  | Ev c x => match c in Call X return X -> Prop with Now => fun t => t = now | _ => fun _ => False end x
  end.

Definition acquired (lease : MaterializationLease) (e : HandEvent) : Prop :=
  match e with
  | Ev c x =>
      match c in Call X return X -> Prop with
      | RegAcquire _ => fun out => out = Ok (AcqAcquired lease)
      | _ => fun _ => False
      end x
  end.

(** No launch, or one the provider attests created nothing. *)
Definition created_nothing (e : HandEvent) : Prop :=
  match e with
  | Ev c x =>
      match c in Call X return X -> Prop with
      | VmRun _ => fun ran => exists e, ran = Err e /\ forall m, launch_failure e <> OutcomeUnknown m
      | _ => fun _ => True
      end x
  end.

Definition empty_root (root_id : string) (e : HandEvent) : Prop :=
  match e with
  | Ev c x =>
      match c in Call X return X -> Prop with
      | RegList root None _ => fun out => root = root_id /\ exists page, out = Ok page /\ items page = []
      | _ => fun _ => False
      end x
  end.

Definition definitions_gone (root_id : string) (e : HandEvent) : Prop :=
  match e with
  | Ev c x =>
      match c in Call X return X -> Prop with
      | DefPurge root _ => fun out => root = root_id /\ out = Ok true
      | _ => fun _ => False
      end x
  end.

(** The guest answered this claim, and had not started the effect. *)
Definition claimed (identity : FileEffectIdentity) (e : HandEvent) : Prop :=
  match e with
  | Ev c x =>
      match c in Call X return X -> Prop with
      | Socket _ frame => fun run =>
          rf_call frame = CallClaimFileEffect identity /\ socket_result frame run = Ok (ReplyClaimFileEffect ReservationNew)
      | _ => fun _ => False
      end x
  end.

Definition consumed (session_id capability_ref : string) (e : HandEvent) : Prop :=
  match e with
  | Ev (CacheConsume session capability) _ => session = session_id /\ capability = capability_ref
  | _ => False
  end.

(** The newest event of a history. *)
Definition last_event (P : HandEvent -> Prop) (h : HandTrace) : Prop := match h with e :: _ => P e | [] => False end.

(** ** What justifies a call *)
Definition refund_justified (h : HandTrace) (lease : MaterializationLease) (now : Z) : Prop :=
  (l_lease_expires_at_ms lease <= now /\ Exists (clock_read now) h)
  \/ (recovery_attempt lease = false
      /\ exists newer older, h = newer ++ older /\ last_event (acquired lease) older /\ Forall created_nothing newer).

Definition launch_justified (h : HandTrace) (request : ExactRunMicrovmRequest) : Prop :=
  exists lease sealed payload now,
    decode_launch lease = Ok (sealed, payload) /\ request = sl_request sealed
    /\ Exists (acquired lease) h /\ last_event (clock_read now) h /\ now <= sl_dispatch_deadline_at_ms sealed.

Definition put_justified (rq : HandRequest) (h : HandTrace) (authority : ObjectTransferAuthority) : Prop :=
  match rq with
  | HandTransfer request =>
      authority = cq_transfer request /\ last_event (claimed (file_effect_identity request CopyExport)) h
  | _ => False
  end.

Definition redeem_justified (rq : HandRequest) (h : HandTrace) (delivery : SecretDeliveryRequest) : Prop :=
  match rq with
  | HandSubmit request =>
      sd_session_id delivery = env_session_id (sq_envelope request) /\ sd_root_id delivery = env_root_id (sq_envelope request)
      /\ last_event (consumed (sd_session_id delivery) (sd_capability_ref delivery)) h
  | _ => False
  end.

Definition justified (rq : HandRequest) (h : HandTrace) (e : HandEvent) : Prop :=
  match e with
  | Ev c _ =>
      match c with
      | RegClose target _ _ _ => Exists (proves_absence (i_target_ref target)) h
      | RegExpire lease now => refund_justified h lease now
      | VmRun request => launch_justified h request
      | PutObject authority _ => put_justified rq h authority
      | SecretRedeem delivery => redeem_justified rq h delivery
      | DefPurge root_id _ => rq = HandPurge root_id /\ last_event (empty_root root_id) h
      | CachePurge root_id _ => rq = HandPurge root_id /\ last_event (definitions_gone root_id) h
      | _ => True
      end
  end.

Definition is_submit (request : RequestCall) : bool := match request with CallSubmit _ => true | _ => false end.
Definition submit_sent (e : HandEvent) : bool := match e with Ev (Socket _ frame) _ => is_submit (rf_call frame) | _ => false end.

(** ** Every handler is justified

    For any guard that allows at least the justified calls other than the submissions. *)
Section handlers.
Context (rq : HandRequest) (ok : HandTrace -> HandEvent -> Prop).
Context (ok_justified : forall h e, justified rq h e -> submit_sent e = false -> ok h e).

Notation allows p := (always ok p).

#[local] Hint Extern 1 (is_submit _ = false) => reflexivity : handlers.
#[local] Hint Extern 1 (ok _ _) => (apply ok_justified; [exact I | reflexivity]) : handlers.

Lemma discover_always it : allows (discover it).
Proof. unfold discover, remember. always_tac. Qed.
#[local] Hint Resolve discover_always : handlers.

Lemma endpoint_always it : allows (endpoint it).
Proof. unfold endpoint. always_tac. Qed.
#[local] Hint Resolve endpoint_always : handlers.

Lemma application_failure_always {A} it attempt seen : allows (application_failure (A := A) it attempt seen).
Proof. unfold application_failure, record_application_failure. always_tac. Qed.
#[local] Hint Resolve application_failure_always : handlers.

Lemma ladder_always {A} (turn : Z -> bool -> Prog Call (Turn A)) attempts seen :
  (forall attempt seen, allows (turn attempt seen)) -> allows (ladder turn attempts seen).
Proof. intros Ht. revert seen. induction attempts as [|a l IH]; intros seen; cbn; always_tac. Qed.

Lemma attempts_of_always {A} (turn : Z -> bool -> Prog Call (Turn A)) :
  (forall attempt seen, allows (turn attempt seen)) -> allows (attempts_of turn).
Proof. intros Ht. unfold attempts_of. apply always_bind; [by apply ladder_always|]. always_tac. Qed.

Lemma rpc_always it request : (forall h hand frame run, rf_call frame = request -> ok h (Ev (Socket hand frame) run)) -> allows (rpc it request).
Proof.
  intros Hs. unfold rpc. always_tac. apply attempts_of_always. intros attempt seen. unfold rpc_turn, with_endpoint, frame_of.
  apply always_bind; [apply endpoint_always|]. intros [hand|e]; [|apply always_ret].
  apply always_do; [by intros; apply Hs|]. always_tac.
Qed.

Lemma rpc_other_always it request : is_submit request = false -> allows (rpc it request).
Proof. intros Hr. apply rpc_always. intros h hand frame run <-. by apply ok_justified. Qed.
#[local] Hint Resolve rpc_other_always : handlers.

Lemma endpoint_request_always it send : (forall hand, allows (send hand)) -> allows (endpoint_request it send).
Proof.
  intros Hs. apply attempts_of_always. intros attempt seen. unfold http_turn, with_endpoint.
  apply always_bind; [apply endpoint_always|]. always_tac.
Qed.

Lemma http_send_always it path body timeout hand : allows (http_send it path body timeout hand).
Proof. unfold http_send. always_tac. Qed.
#[local] Hint Resolve http_send_always : handlers.

Lemma post_bytes_always it path body : allows (post_bytes it path body).
Proof. unfold post_bytes. always_tac. apply endpoint_request_always. always_tac. Qed.
#[local] Hint Resolve post_bytes_always : handlers.

Lemma post_json_always it path body : allows (post_json it path body).
Proof. unfold post_json. always_tac. Qed.
Lemma post_blob_always it path metadata bytes : allows (post_blob it path metadata bytes).
Proof. unfold post_blob. always_tac. Qed.
Lemma post_file_always it path metadata staged : allows (post_file it path metadata staged).
Proof. unfold post_file. always_tac. apply endpoint_request_always. always_tac. Qed.
Lemma export_file_always it request : allows (export_file it request).
Proof. unfold export_file. always_tac. apply endpoint_request_always. always_tac. Qed.
#[local] Hint Resolve post_json_always post_blob_always post_file_always export_file_always : handlers.

(** *** Closures *)
Notation run_ok m h Q := (wpe ok m h Q (fun _ _ => True)).
Notation absent it h := (Exists (proves_absence (i_target_ref it)) h).

Lemma always_of_run {E A} (m : ProgM Call E A) (Q : A -> HandTrace -> Prop) :
  (forall h, wpe ok m h Q (fun _ _ => True)) -> allows m.
Proof. intros Hm h. eapply wp_mono; [apply Hm|]. done. Qed.

Lemma provider_liveness_absent ref h :
  run_ok (provider_liveness ref) h (fun l h' => h `suffix_of` h' /\ (l = Absent -> Exists (proves_absence ref) h')).
Proof.
  intros x. split; [by apply ok_justified|]. cbn. unfold wpe.
  assert (Hs : h `suffix_of` Ev (VmGet ref) x :: h) by (by exists [Ev (VmGet ref) x]).
  destruct x as [vm|[]]; cbn; repeat case_match; cbn; try done; split; try done; intros _; left; cbn; by rewrite ?H.
Qed.

Lemma confirm_absent it h :
  run_ok (confirm_provider_termination it) h (fun _ h' => h `suffix_of` h' /\ absent it h').
Proof.
  unfold confirm_provider_termination. apply wpe_bind. eapply wpe_mono; [apply provider_liveness_absent| |done].
  intros [| |] h1 [Hs1 Ha]; [split; [done | by apply Ha] | done|].
  intros x. split; [by apply ok_justified|]. cbn.
  assert (Hs2 : h `suffix_of` Ev (VmTerminate (i_target_ref it)) x :: h1) by (by apply suffix_cons_r).
  assert (Hagain : run_ok (liveness ← provider_liveness (i_target_ref it);
      match liveness with Absent => mret tt | LiveTerminating | Live => prog_throw temporary end)
      (Ev (VmTerminate (i_target_ref it)) x :: h1) (fun _ h' => h `suffix_of` h' /\ absent it h')).
  { apply wpe_bind. eapply wpe_mono; [apply provider_liveness_absent| |done].
    intros [| |] h2 [Hs3 Ha2]; [|done..]. split; [by etrans | by apply Ha2]. }
  destruct x as [[]|[]]; try done. split; [done|]. left. split; [done|]. eauto.
Qed.

Lemma close_target_ok it d reason h : absent it h -> run_ok (close_target it d reason) h (fun _ _ => True).
Proof.
  intros Ha now. split; [by apply ok_justified|]. cbn. intros x.
  split; [apply ok_justified; [by right | done]|]. cbn. destruct x; [|done]. apply wpe_always. unfold forget_target. always_tac.
Qed.

Lemma confirm_then_close {A} it (m : HandM A) :
  (forall h, absent it h -> run_ok m h (fun _ _ => True)) -> allows (_ ← confirm_provider_termination it; m).
Proof.
  intros Hm. apply (always_of_run _ (fun _ _ => True)). intros h. apply wpe_bind.
  eapply wpe_mono; [apply confirm_absent| |done]. intros [] h' [_ Ha]. by apply Hm.
Qed.

Lemma terminate_target_always it reason : allows (terminate_target it reason).
Proof. apply confirm_then_close. intros h. apply close_target_ok. Qed.
Lemma retire_always it : allows (retire_endpoint_lost_target it).
Proof. apply confirm_then_close. intros h. apply close_target_ok. Qed.
#[local] Hint Resolve terminate_target_always retire_always : handlers.

Lemma settled_always {A} it (m : HandM A) : allows m -> allows (settled it m).
Proof. intros Hm. unfold settled, settle_guest_result. apply always_mbind; [by apply always_observe|]. always_tac. Qed.

Lemma guest_ask_always {A} it request (project : ResponseReply -> option A) : is_submit request = false -> allows (guest_ask it request project).
Proof. intros Hr. unfold guest_ask, guest_rpc. apply always_mbind; [apply settled_always; by apply rpc_other_always|]. always_tac. Qed.
#[local] Hint Resolve guest_ask_always : handlers.

Lemma record_gone_then {A} it reason (m : HandM A) h :
  absent it h -> allows m -> run_ok (_ ← record_gone it reason; m) h (fun _ _ => True).
Proof.
  intros Ha Hm. apply wpe_bind. eapply wpe_mono; [by apply close_target_ok| |done]. intros [] h' _. by apply wpe_always.
Qed.

Lemma expired_always {A} it reason (m : HandM A) :
  allows m -> allows (_ ← confirm_provider_termination it; _ ← record_gone it reason; m).
Proof. intros Hm. apply confirm_then_close. intros h Ha. by apply record_gone_then. Qed.
#[local] Hint Resolve expired_always always_throw : handlers.

Lemma resolve_target_always target generation : allows (resolve_target target generation).
Proof. unfold resolve_target, reg. always_tac. Qed.
#[local] Hint Resolve resolve_target_always : handlers.

Lemma status_always target : allows (status target).
Proof.
  unfold status, reg. apply always_mbind; [always_tac|]. intros key. apply always_mbind; [always_tac|]. intros record.
  destruct record as [record|]; [|always_tac]. destruct (installed record) as [it|]; [|always_tac].
  assert (Htail : forall reason, allows (now ← call Now; mret (gone_status target it reason now) : HandM SandboxStatus))
    by (intros; always_tac).
  cbv zeta. apply always_mbind; [always_tac|]. intros now. destruct (_ <=? _); [by apply expired_always|].
  apply (always_of_run _ (fun _ _ => True)). intros h. apply wpe_bind, wpe_observe. intros x. split; [by apply ok_justified|].
  destruct x as [vm|[]]; try done; [destruct (is_terminated (mv_state vm)) eqn:Ht|].
  - apply wpe_bind, wpe_ret, record_gone_then; [left; by split | done].
  - apply wpe_always. always_tac.
  - apply wpe_bind, wpe_ret, record_gone_then; [left; by split | done].
Qed.
#[local] Hint Resolve status_always : handlers.

(** *** Launches *)
Lemma launch_ok lease h :
  Exists (acquired lease) h ->
  wpe ok (launch lease) h (fun _ _ => True)
    (fun e h' => exists newer, h' = newer ++ h /\ (Forall created_nothing newer \/ exists m, e = OutcomeUnknown m)).
Proof.
  intros Ha. unfold launch. apply wpe_bind, wpe_lift; [|intros e _; exists []; split; [done | by left; constructor]].
  intros [sealed payload] Hd. apply wpe_bind, wpe_call. intros now. split; [by apply ok_justified|].
  assert (Hnow : Forall created_nothing [Ev Now now]) by (by constructor).
  apply wpe_bind, wpe_lift; [|intros e _; exists [Ev Now now]; by split; [|left]].
  intros [] Hadmit. apply admit_Ok in Hadmit. apply wpe_bind, wpe_try. intros ran. split.
  { apply ok_justified; [|done]. exists lease, sealed, payload, now. do 2 (split; [done|]). split; [by right | done]. }
  destruct ran as [id|e].
  - apply wpe_lift; [done|]. intros e He. exists [Ev (VmRun (sl_request sealed)) (Ok id); Ev Now now]. split; [done|]. right.
    destruct (PhysicalTarget_new _ _ _); cbn in He; [done|]. injection He as <-. eauto.
  - exists [Ev (VmRun (sl_request sealed)) (Err e); Ev Now now]. split; [done|].
    destruct (launch_failure e) eqn:He; [left..|right; eauto]; (constructor; [|done]); exists e; (split; [done|]); intros m; by rewrite He.
Qed.

Lemma mat_launch_failed_ok lease now e h :
  refund_justified h lease now \/ recovery_attempt lease = true \/ (exists m, e = OutcomeUnknown m) ->
  run_ok (mat_launch_failed lease now e) h (fun _ _ => True).
Proof.
  intros Hr.
  assert (Hexpire : forall (m : ProgM Call MaterializationError InstalledTarget), allows m -> refund_justified h lease now ->
    run_ok (_ ← mat_call (RegExpire lease now); m) h (fun _ _ => True)).
  { intros m Hm Hj. apply wpe_bind, wpe_try. intros x. split; [by apply ok_justified|]. destruct x; [by apply wpe_always | done]. }
  unfold mat_launch_failed. destruct e; destruct (recovery_attempt lease) eqn:Hre; cbn [negb];
    try (by apply wpe_always; always_tac); try (apply Hexpire; [apply always_throw|]); naive_solver.
Qed.

Lemma mat_materialize_ok lease now h : last_event (acquired lease) h -> run_ok (mat_materialize lease now) h (fun _ _ => True).
Proof.
  intros Ha. unfold mat_materialize. apply wpe_bind, wpe_observed. eapply wpe_mono; [apply launch_ok| |].
  - destruct h as [|e h]; [done|]. by left.
  - intros physical h' _. apply wpe_always. unfold mat_call, terminate_stale. always_tac.
  - intros e h' (newer & -> & Hn). apply mat_launch_failed_ok. destruct (recovery_attempt lease) eqn:Hr; [auto|].
    destruct Hn as [Hn | Hn]; [left; right | by right; right]. split; [done|]. by exists newer, h.
Qed.

Lemma mat_ensure_always request : allows (mat_ensure request).
Proof.
  apply (always_of_run _ (fun _ _ => True)). intros h. unfold mat_ensure. apply wpe_bind, wpe_try. intros out.
  split; [by apply ok_justified|]. destruct out as [[]|]; try done. by apply mat_materialize_ok.
Qed.
#[local] Hint Resolve mat_ensure_always : handlers.

Lemma seal_launch_always self lease : allows (seal_launch self lease).
Proof. unfold seal_launch, allowlist_proxy, sign_capability, image_arn, expected. always_tac. Qed.
#[local] Hint Resolve seal_launch_always : handlers.

Lemma materialize_always key owner resources network class mode : allows (materialize key owner resources network class mode).
Proof. unfold materialize. always_tac. Qed.
#[local] Hint Resolve materialize_always : handlers.

Lemma preparation_always session : allows (preparation session).
Proof. unfold preparation. always_tac. Qed.
#[local] Hint Resolve preparation_always : handlers.

Lemma route_for_submit_always request : allows (route_for_submit request).
Proof. unfold route_for_submit, preparation_for_root. always_tac. Qed.
#[local] Hint Resolve route_for_submit_always : handlers.

(** *** Installations and object authorities *)
Lemma deliver_secrets_always route request : rq = HandSubmit request -> allows (deliver_secrets route (sq_envelope request)).
Proof.
  intros Hrq. unfold deliver_secrets. do 4 (apply always_mbind; [always_tac|]; intros ?).
  apply (always_of_run _ (fun _ _ => True)). intros h. apply wpe_bind, wpe_call. intros []. split; [by apply ok_justified|].
  apply wpe_bind, wpe_lift; [|done]. intros _ _. apply wpe_bind, wpe_try. intros values. split.
  { apply ok_justified; [|done]. cbn. rewrite Hrq. done. }
  destruct values; [|done]. apply wpe_always. always_tac.
Qed.

Lemma guarded_always {A} g (m : HandM A) : allows m -> allows (locked g m) /\ allows (permitted g m).
Proof. intros Hm. unfold locked, permitted, holding. split; always_tac. Qed.

Lemma install_for_operation_always route request : rq = HandSubmit request -> allows (install_for_operation route request).
Proof.
  intros Hrq. unfold install_for_operation, binding_, install_secrets, already_installed. always_tac.
  - apply guarded_always. unfold install_bundle_artifacts. always_tac.
  - apply guarded_always. always_tac. apply guarded_always. by apply deliver_secrets_always.
Qed.
#[local] Hint Resolve install_for_operation_always : handlers.

Lemma stage_object_always it object authority : allows (stage_object it object authority).
Proof. unfold stage_object. always_tac. apply settled_always. unfold install_object. always_tac. Qed.
#[local] Hint Resolve stage_object_always : handlers.

Lemma write_always request : allows (write request).
Proof. unfold write. always_tac. apply guarded_always. unfold reserve_file_effect. always_tac. Qed.

(** A successful request ends on the socket event of its answer. *)
Lemma rpc_answered it request h :
  is_submit request = false ->
  run_ok (rpc it request) h (fun reply => last_event (fun e => match e with
    | Ev c x => match c in Call X return X -> Prop with
                | Socket _ frame => fun run => rf_call frame = request /\ socket_result frame run = Ok reply
                | _ => fun _ => False
                end x
    end)).
Proof.
  intros Hr. unfold rpc. apply wpe_bind, wpe_call. intros id. split; [by apply ok_justified|].
  apply wpe_bind, wpe_lift; [|done]. intros encoded _. destruct (_ <? _); [done|].
  assert (Hturn : forall attempt seen h, wp ok (rpc_turn it (frame_of id request) attempt seen) h (fun t => match t with
    | Return (Ok reply) => last_event (fun e => match e with
        | Ev c x => match c in Call X return X -> Prop with
                    | Socket _ frame => fun run => rf_call frame = request /\ socket_result frame run = Ok reply
                    | _ => fun _ => False
                    end x
        end)
    | _ => fun _ => True
    end)).
  { intros attempt seen h1. unfold rpc_turn, with_endpoint. apply wp_bind. eapply wp_mono; [apply endpoint_always|].
    intros [hand|e] h2 _; [|done]. intros run. split; [by apply ok_justified|]. destruct (socket_result _ run) as [reply|[|e]] eqn:Hs.
    - cbn. done.
    - unfold application_failure, record_application_failure. destruct (_ && _); [done|]. destruct (_ =? _); [|done].
      intros x. split; [by apply ok_justified | done].
    - destruct (_ && _); [|done]. intros x. split; [by apply ok_justified | done]. }
  unfold attempts_of. cbn [ladder]. apply wp_bind, wp_bind. eapply wp_mono; [apply Hturn|].
  intros [[reply|e]|seen] h1 Hh1; [done..|]. apply wp_bind. eapply wp_mono; [apply Hturn|]. by intros [[reply|e]|seen'] h2 Hh2.
Qed.

Lemma settled_error_fails {A} it e h : run_ok (settle_guest_result it (Err e) : HandM A) h (fun _ _ => False).
Proof.
  unfold settle_guest_result. case_decide; [|done]. apply wpe_bind. eapply wpe_mono; [by apply wpe_always, retire_always | |]; done.
Qed.

Lemma claim_file_effect_ok it identity h :
  run_ok (claim_file_effect it identity) h (fun v h' => v = ReservationNew -> last_event (claimed identity) h').
Proof.
  unfold claim_file_effect, guest_ask, guest_rpc, settled. do 2 apply wpe_bind. apply wpe_observed.
  eapply wpe_mono; [by apply rpc_answered| |].
  - intros reply h1 Hh1. apply wpe_ret, wpe_lift; [|done]. intros v Hv ->. destruct reply; try done. cbn in Hv. injection Hv as ->.
    destruct h1 as [|[X c x] h1]; [done|]. cbn in *. destruct c; try done.
  - intros e h1 _. eapply wpe_mono; [by apply settled_error_fails | done | done].
Qed.

Lemma transfer_export_always request it :
  rq = HandTransfer request -> allows (transfer_export request it (file_effect_identity request CopyExport)).
Proof.
  intros Hrq. unfold transfer_export. apply always_mbind; [always_tac|]. intros _. apply always_mbind; [always_tac|]. intros now.
  apply always_mbind; [always_tac|]. intros _. apply always_mbind; [apply settled_always; always_tac|]. intros [file response].
  apply always_mbind; [always_tac|]. intros staged. apply (always_of_run _ (fun _ _ => True)). intros h. apply wpe_bind.
  eapply wpe_mono; [apply claim_file_effect_ok| |done]. intros [|result] h' Hh'; [|by apply wpe_always; always_tac].
  apply wpe_bind, wpe_try. intros put. split.
  { apply ok_justified; [|done]. cbn. rewrite Hrq. split; [done | by apply Hh']. }
  destruct put; [|done]. apply wpe_always. always_tac.
Qed.

Lemma transfer_always request : rq = HandTransfer request -> allows (transfer request).
Proof.
  intros Hrq. unfold transfer. always_tac. apply guarded_always. unfold reserve_file_effect. cbv zeta.
  apply always_mbind; [always_tac|]. intros it. apply always_mbind; [always_tac|]. intros [|result]; [|always_tac].
  destruct (cq_direction request); [unfold transfer_import; always_tac | by apply transfer_export_always].
Qed.

(** *** Purge *)
Lemma purge_installed_always it : allows (purge_installed it).
Proof. unfold purge_installed, purge_row, reg. always_tac. Qed.
#[local] Hint Resolve purge_installed_always : handlers.

Lemma relaunch_ok lease h : Exists (acquired lease) h -> run_ok (relaunch_and_purge lease) h (fun _ _ => True).
Proof.
  intros Ha. unfold relaunch_and_purge. apply wpe_bind, wpe_lift; [|done]. intros _ _. apply wpe_bind, wpe_map_err.
  eapply wpe_mono; [by apply launch_ok| |done]. intros physical h' _. apply wpe_always. unfold reg, terminate_stale. always_tac.
Qed.

Lemma recover_materializing_always record : allows (recover_materializing record).
Proof.
  apply (always_of_run _ (fun _ _ => True)). intros h. unfold recover_materializing, reg.
  apply wpe_bind, wpe_call. intros now. split; [by apply ok_justified|]. apply wpe_bind, wpe_lift; [|done]. intros lease _.
  assert (Hexpire : forall l h', refund_justified h' l now ->
    run_ok (_ ← try_call materialization_error (RegExpire l now); mret Unresolved) h' (fun _ _ => True)).
  { intros l h' Hj. apply wpe_bind, wpe_try. intros x. split; [by apply ok_justified|]. by destruct x. }
  destruct (Z.leb_spec (l_lease_expires_at_ms lease) now); [apply Hexpire; left; split; [done | by left]|].
  destruct (_ || _); [done|]. apply wpe_bind, wpe_call. intros attempt_id. split; [by apply ok_justified|].
  apply wpe_bind, wpe_try. intros out. split; [by apply ok_justified|]. destruct out as [[recovered|g ms|it| |]|e]; try done.
  - destruct (recovery_attempt recovered) eqn:Hr; [apply relaunch_ok; by left|]. apply Hexpire. right. split; [done|].
    by eexists [], _.
  - apply wpe_always. always_tac.
Qed.
#[local] Hint Resolve recover_materializing_always : handlers.

Lemma purge_one_target_always record : allows (purge_one_target record).
Proof. unfold purge_one_target, purge_row, reg. always_tac. Qed.
#[local] Hint Resolve purge_one_target_always : handlers.

Lemma purge_all_always records unresolved : allows (purge_all records unresolved).
Proof. revert unresolved. induction records; intros unresolved; cbn; always_tac. Qed.

(** The events that end a complete purge, newest first. *)
Definition purge_ended (root : string) (h : HandTrace) : Prop :=
  exists limit dlimit page rest,
    h = Ev (CachePurge root limit) true :: Ev (DefPurge root dlimit) (Ok true) :: Ev (RegList root None 1) (Ok page) :: rest
    /\ items page = [].

Lemma purge_tree_ok root h : rq = HandPurge root -> run_ok (purge_tree root) h (fun _ => purge_ended root).
Proof.
  intros Hrq. unfold purge_tree, reg. apply wpe_bind, wpe_try. intros page. split; [by apply ok_justified|].
  destruct page as [page|]; [|done]. apply wpe_bind. eapply wpe_mono; [apply wpe_always, purge_all_always| |done].
  intros unresolved h1 _. apply wpe_bind, wpe_try. intros rest. split; [by apply ok_justified|]. destruct rest as [rest|]; [|done].
  destruct unresolved; [done|]. case_bool_decide as Hempty; [|done]. cbn [orb negb]. apply wpe_bind, wpe_try. intros gone. split.
  { apply ok_justified; [|done]. split; [done|]. split; [done|]. eauto. }
  destruct gone as [[|]|]; [|done..]. apply wpe_bind, wpe_call. intros purged. split; [by apply ok_justified|].
  destruct purged; [|done]. by repeat eexists.
Qed.

(** *** Every request *)
Lemma materialize_default_always request : allows (materialize_default request).
Proof. unfold materialize_default, preparation_for_root. always_tac. Qed.
Lemma create_always request : allows (create request).
Proof. unfold create. always_tac. Qed.
Lemma end_target_always target reason : allows (end_target target reason).
Proof. unfold end_target. always_tac. Qed.
Lemma resolve_operation_target_always operation : allows (resolve_operation_target operation).
Proof. unfold resolve_operation_target. always_tac. Qed.
#[local] Hint Resolve materialize_default_always create_always end_target_always resolve_operation_target_always : handlers.

Context (ok_submit : forall h hand frame run, is_submit (rf_call frame) = true -> ok h (Ev (Socket hand frame) run)).

Lemma submit_always request : rq = HandSubmit request -> allows (submit request).
Proof.
  intros Hrq. unfold submit. apply always_mbind; [always_tac|]. intros _. destruct (negb _); [always_tac|].
  apply always_mbind; [always_tac|]. intros route. apply always_mbind; [by apply settled_always, install_for_operation_always|].
  intros _. apply always_mbind; [|always_tac]. apply always_map_err, rpc_always. intros h hand frame run Hf. apply ok_submit. by rewrite Hf.
Qed.

Lemma completed_always {A} (m : HandM A) : allows m -> allows (completed m).
Proof. intros Hm. apply always_mbind; [done|]. always_tac. Qed.

Lemma handle_always request : rq = request -> allows (handle request).
Proof.
  intros Hrq. destruct request; cbn [handle]; try apply completed_always.
  - unfold resolve_binding. always_tac.
  - by apply submit_always.
  - unfold observe. always_tac.
  - unfold cancel. always_tac.
  - unfold acknowledge_terminal. always_tac.
  - always_tac.
  - unfold list_. always_tac.
  - unfold stat. always_tac.
  - unfold read. always_tac.
  - apply write_always.
  - unfold find. always_tac.
  - unfold grep. always_tac.
  - by apply transfer_always.
  - always_tac.
  - unfold inspect. always_tac.
  - unfold execute. always_tac.
  - unfold write_stdin. always_tac.
  - unfold terminate. always_tac.
  - always_tac.
  - unfold dematerialize_default. always_tac.
  - apply (always_of_run _ (fun _ => purge_ended root_id)). intros h. by apply purge_tree_ok.
Qed.
End handlers.

(** *** One guest request

    What the calls of a request to the guest are, apart from the sockets they open. *)
Definition guest_event (e : HandEvent) : Prop :=
  match e with
  | Ev c _ =>
      match c with
      | VmGet _ | VmWait _ _ _ | VmToken _ | Instant | EndpointGet _ | EndpointRemember _ _ | EndpointForget _ | NextRequest => True
      | _ => False
      end
  end.

(** The socket of this request. *)
Definition request_socket (request : RequestCall) (e : HandEvent) : Prop :=
  match e with Ev (Socket _ frame) _ => rf_call frame = request | _ => guest_event e end.

Definition socket_event (e : HandEvent) : bool := match e with Ev (Socket _ _) _ => true | _ => false end.

(** The provider, or the guest itself, said the generation is gone. *)
Definition attests_gone (e : HandEvent) : Prop :=
  match e with
  | Ev c x =>
      match c in Call X return X -> Prop with
      | VmGet _ => fun vm => vm_absent vm = true
      | VmWait _ _ _ => fun vm => vm_absent (map_err (fun _ => Fatal "") vm) = true
      | VmToken _ => fun token => exists m, token = Err (ControlGone m)
      | Socket _ frame => fun run => exists e, socket_result frame run = Err (AttemptHand e) /\ ae_code e = SandboxGone
      | _ => fun _ => False
      end x
  end.

(** The endpoint answered the handshake with 502. *)
Definition bad_gateway (e : HandEvent) : bool :=
  match e with
  | Ev c x =>
      match c in Call X return X -> bool with
      | Socket _ _ => fun run => match run with ConnectFailed (Some status) => status =? 502 | _ => false end
      | _ => fun _ => false
      end x
  end.

Definition is_gone_error {A} (r : result AwsError A) : Prop := match r with Err e => ae_code e = SandboxGone | Ok _ => False end.

Section one_request.
Context (ok : HandTrace -> HandEvent -> Prop) (request : RequestCall) (P : HandEvent -> bool).
Context (ok_request : forall h e, request_socket request e -> ok h e).
Context (P_guest : forall e, guest_event e -> P e = false).

(** Neither a counted event nor a 502 since [h]. *)
Definition unsent (h h' : HandTrace) : Prop := count P h' = count P h /\ count bad_gateway h' = count bad_gateway h.

Definition gone_attested {A} (r : result AwsError A) (h : HandTrace) : Prop := is_gone_error r -> Exists attests_gone h.

Lemma unsent_cons e h h' : guest_event e -> unsent h h' -> unsent h (e :: h').
Proof. intros He [HP Hb]. unfold unsent. cbn [count]. rewrite (P_guest e He). by destruct e as [X []]. Qed.

Lemma unsent_refl h : unsent h h.
Proof. done. Qed.
#[local] Hint Extern 0 (guest_event _) => exact I : core.
#[local] Hint Resolve unsent_cons unsent_refl : core.

Lemma remember_unsent hand h h' : unsent h h' ->
  wpe ok (remember hand) h' (fun _ => unsent h) (fun e h'' => unsent h h'' /\ (ae_code e = SandboxGone -> Exists attests_gone h'')).
Proof.
  intros Hu. apply wpe_bind, wpe_call. intros now. split; [by apply ok_request|]. apply wpe_call. intros [].
  split; [by apply ok_request | auto].
Qed.

Lemma control_error_gone e : ae_code (control_error e) = SandboxGone -> exists m, e = ControlGone m.
Proof. destruct e; cbn; (discriminate || eauto). Qed.

Lemma discover_unsent it h h' : unsent h h' ->
  wpe ok (discover it) h' (fun _ => unsent h) (fun e h'' => unsent h h'' /\ (ae_code e = SandboxGone -> Exists attests_gone h'')).
Proof.
  intros Hu. unfold discover. apply wpe_bind, wpe_try. intros vm. split; [by apply ok_request|].
  assert (Hu1 : unsent h (Ev (VmGet (i_target_ref it)) vm :: h')) by auto.
  destruct vm as [vm|e]; [|split; [done|]; intros [m ->]%control_error_gone; by left].
  set (h1 := Ev (VmGet (i_target_ref it)) (Ok vm) :: h') in *. apply wpe_bind.
  apply (wpe_mono _ _ _ (fun vm' h2 => unsent h h2 /\ (is_terminated (mv_state vm') = true -> Exists attests_gone h2))
    _ (fun e h2 => unsent h h2 /\ (ae_code e = SandboxGone -> Exists attests_gone h2))); [| |done].
  { case_decide as Hp; [|apply wpe_ret; split; [done|]; intros Ht; by left].
    apply wpe_try. intros vm'. split; [by apply ok_request|]. destruct vm' as [vm'|e]; [|split; [auto | done]].
    split; [auto|]. intros Ht. left. cbn. done. }
  intros vm' h2 [Hu2 Ht]. destruct (is_terminated (mv_state vm')); [apply wpe_throw; auto|].
  case_decide; [by apply wpe_throw|]. apply wpe_bind, wpe_lift; [|by intros e; destruct (mv_endpoint vm'); intros [= <-]].
  intros ep _. apply wpe_bind, wpe_try. intros token. split; [by apply ok_request|].
  destruct token as [token|e]; [|split; [auto|]; intros [m ->]%control_error_gone; left; cbn; eauto].
  cbv zeta. apply wpe_bind. eapply wpe_mono; [apply (remember_unsent _ h); auto| |].
  - intros [] h3 Hu3. by apply wpe_ret.
  - intros e h3 He. exact He.
Qed.

Lemma endpoint_unsent it h :
  wpe ok (endpoint it) h (fun _ => unsent h) (fun e h' => unsent h h' /\ (ae_code e = SandboxGone -> Exists attests_gone h')).
Proof.
  unfold endpoint. apply wpe_bind, wpe_call. intros cached. split; [by apply ok_request|].
  destruct cached as [ce|]; [|apply discover_unsent; auto]. apply wpe_bind, wpe_call. intros now. split; [by apply ok_request|].
  destruct (fresh ce now); [apply wpe_ret; auto | apply discover_unsent; auto].
Qed.

(** What one attempt leaves: at most one counted event, and a loss or a 502 flag only with its evidence. *)
Definition turn_evidence (seen : bool) (h : HandTrace) (t : Turn ResponseReply) (h' : HandTrace) : Prop :=
  (count P h' <= S (count P h))%nat /\ (count bad_gateway h <= count bad_gateway h')%nat
  /\ match t with
     | Return (Err e) =>
         ae_code e = SandboxGone -> Exists attests_gone h' \/ (seen = true /\ count bad_gateway h' = S (count bad_gateway h))
     | Return (Ok _) => True
     | Again seen' => seen' = true -> seen = true \/ count bad_gateway h' = S (count bad_gateway h)
     end.

Lemma bad_gateway_run frame run hand :
  socket_result frame run = Err EndpointApplicationUnavailable -> bad_gateway (Ev (Socket hand frame) run) = true.
Proof.
  destruct run as [status| | |l]; cbn; try done.
  - case_decide as Hs; [by subst | done].
  - induction l as [|m l IH]; cbn; [done|]. destruct m as [text|bytes|[]| | | |]; try done.
    + destruct (decode_response text) as [r|]; [|done]. unfold reply_of. destruct (negb _); [done|].
      destruct (rs_result r) as [reply|]; [|done]. by destruct (negb _).
    + destruct (from_utf8 bytes) as [text|]; [|done]. destruct (decode_response text) as [r|]; [|done].
      unfold reply_of. destruct (negb _); [done|]. destruct (rs_result r) as [reply|]; [|done]. by destruct (negb _).
Qed.

Lemma rpc_turn_evidence it frame attempt seen h :
  rf_call frame = request -> wp ok (rpc_turn it frame attempt seen) h (turn_evidence seen h).
Proof.
  intros Hf. unfold rpc_turn, with_endpoint. apply wp_bind.
  eapply wp_mono; [apply endpoint_unsent|]. intros [hand|e] h1.
  2:{ intros [[HP Hb] Hg]. split; [lia|]. split; [lia|]. auto. }
  intros [HP Hb] run. split; [by apply ok_request|].
  set (e := Ev (Socket hand frame) run). assert (Hle : (count P (e :: h1) <= S (count P h))%nat) by (cbn [count]; destruct (P e); lia).
  assert (Hforget : forall x, P (Ev (EndpointForget (i_target_ref it)) x) = false) by (intros; by apply P_guest).
  assert (Hge : (count bad_gateway h <= count bad_gateway (e :: h1))%nat) by (cbn [count]; destruct (bad_gateway e); lia).
  destruct (socket_result frame run) as [reply|[|err]] eqn:Hs; [done| |].
  - assert (Hbad : count bad_gateway (e :: h1) = S (count bad_gateway h))
      by (cbn [count]; unfold e; rewrite (bad_gateway_run _ _ _ Hs); lia).
    unfold application_failure, record_application_failure. destruct seen, (0 <? attempt); cbn [andb].
    1: by split; [|split; [|right]].
    all: destruct (attempt =? 0); [|done]; intros x; (split; [by apply ok_request|]); unfold wp, turn_evidence; cbn [count] in *;
      rewrite Hforget; (split; [done|]); (split; [done|]); auto.
  - destruct (_ && _).
    + intros x. split; [by apply ok_request|]. unfold wp, turn_evidence. cbn [count] in *. rewrite Hforget. auto.
    + split; [done|]. split; [done|]. intros Hg. left. left. exists err. done.
Qed.

(** At most two counted events, and a loss that the provider, the guest or two handshakes attest. *)
Lemma rpc_evidence it h :
  wp ok (rpc it request) h (fun r h' =>
    (count P h' <= count P h + 2)%nat
    /\ (is_gone_error r -> Exists attests_gone h' \/ (count bad_gateway h + 2 <= count bad_gateway h')%nat)).
Proof.
  unfold rpc, call, prog_lift, mbind, ProgM_bind. cbn [prog_bind wp]. intros id. split; [by apply ok_request|].
  assert (HP0 : count P (Ev NextRequest id :: h) = count P h) by (cbn [count]; by rewrite P_guest).
  destruct (encode_frame _) as [encoded|]; cbn [ok_or prog_bind wp]; [|split; [lia | done]].
  destruct (_ <? _); [cbn [wp prog_throw]; split; [lia | done]|].
  unfold attempts_of. cbn [ladder]. apply wp_bind, wp_bind. eapply wp_mono; [by apply rpc_turn_evidence|].
  intros [r|seen] h1 (HP1 & Hb1 & Ht1).
  { cbn in *. destruct r as [reply|e]; (split; [lia|]); [done|]. intros Hg. destruct (Ht1 Hg) as [He|[Hseen _]]; [auto | done]. }
  apply wp_bind. eapply wp_mono; [by apply rpc_turn_evidence|]. intros [r|seen'] h2 (HP2 & Hb2 & Ht2); cbn in *.
  - destruct r as [reply|e]; (split; [lia|]); [done|]. intros Hg. destruct (Ht2 Hg) as [He|[Hseen Hc]]; [auto|].
    destruct (Ht1 Hseen) as [|Hc1]; [done|]. right. lia.
  - split; [lia | done].
Qed.
End one_request.
End traces.
