(* ===== verification/AwsSafety.v ===== *)
(** * hand-brain-aws: safety of every request

    The properties of the handlers, stated over their traces in the order of the calls, from the guards and the
    program logic of [AwsTraces]. *)
From S2P Require Import Prelude Policy Page Connector Target MemoryRegistry Launcher Control Wire EgressPolicy GuestErrors GuestTarget GuestFiles GuestInstall GuestOperations GuestStdin Definitions AwsErrors AwsSeals Cache Transfer Prog AwsCalls AwsClient AwsLaunch AwsHand AwsPorts AwsTraces.

Section safety.
Context {B : BrainTypes} {O : HandOps}.

Lemma handle_justified rq tr r before e after :
  runs (handle rq) tr r -> tr = before ++ e :: after -> justified rq (rev before) e.
Proof.
  intros Hr Htr. apply (always_sound (justified rq) (handle rq) tr r before e after); [|done..].
  by apply (handle_always rq (justified rq)).
Qed.

(** ** Capacity *)


(** C5: a microVM is launched only as sealed, under a lease the run acquired, and in time. In every run of every
    request, each RunMicrovm sends exactly the request sealed in an acquired lease, under the reservation's
    idempotency token, and the clock read just before it leaves a whole provider lifetime before the lease ends. *)
Theorem launches_are_sealed_leased_and_timely rq tr r before request x after :
  runs (handle rq) tr r -> tr = before ++ Ev (VmRun request) x :: after ->
  exists lease sealed payload now earlier,
    decode_launch lease = Ok (sealed, payload) /\ request = sl_request sealed
    /\ client_token request = l_reservation_id lease /\ pay_generation payload = l_generation lease
    /\ Exists (acquired lease) before /\ before = earlier ++ [Ev Now now]
    /\ now + TARGET_LIFETIME_MS <= l_lease_expires_at_ms lease.
Proof.
  intros Hr Htr. destruct (handle_justified rq tr r before _ after Hr Htr) as (lease & sealed & payload & now & Hd & -> & Ha & Hn & Hle).
  apply decode_launch_Ok in Hd as Hd'. destruct Hd' as (_ & _ & (rd & nd & _ & _ & Hdl & Hm) & _).
  apply dispatch_deadline_fits in Hdl as [_ Hfit]. unfold launch_matches in Hm. repeat (apply andb_true_iff in Hm as [Hm ?]).
  destruct (rev before) as [|[Y c y] older] eqn:Hb; [done|]. cbn in Hn. destruct c; try done. subst y.
  exists lease, sealed, payload, now, (rev older). split; [done|]. split; [done|].
  split; [by apply str_eqb_eq|]. split; [by apply str_eqb_eq|]. split; [apply exists_rev; by rewrite Hb|].
  split; [by rewrite <- (rev_involutive before), Hb | lia].
Qed.

(** ** One-purpose authorities *)

(** C7: the bearer of an export is spent only by the guest's claim. In every run of every request, an upload uses
    the authority of a transfer, and the call just before it is the guest answering that transfer's own claim with
    the news that the effect had not been started: a replayed or lost transfer never uploads again. *)
Theorem object_authority_is_spent_by_the_claim rq tr r before authority staged x after :
  runs (handle rq) tr r -> tr = before ++ Ev (PutObject authority staged) x :: after ->
  exists request earlier claim,
    rq = HandTransfer request /\ authority = cq_transfer request /\ before = earlier ++ [claim]
    /\ claimed (file_effect_identity request CopyExport) claim.
Proof.
  intros Hr Htr. pose proof (handle_justified rq tr r before _ after Hr Htr) as Hj. cbn in Hj.
  destruct rq as [| | | | | | | | | | | |request| | | | | | | |]; try done. destruct Hj as [-> Hl].
  destruct (rev before) as [|e older] eqn:Hb; [done|]. exists request, (rev older), e.
  split; [done|]. split; [done|]. split; [|done]. by rewrite <- (rev_involutive before), Hb.
Qed.

(** C6: a secret capability is removed from the process before it is redeemed. In every run of every request, a
    redemption belongs to a submission, is for its session and root, and the call just before it took that very
    capability out of the cached preparation: no retry, cancellation or lost answer can present it twice. *)
Theorem secret_capability_is_removed_before_redemption rq tr r before delivery x after :
  runs (handle rq) tr r -> tr = before ++ Ev (SecretRedeem delivery) x :: after ->
  exists request earlier,
    rq = HandSubmit request
    /\ sd_session_id delivery = env_session_id (sq_envelope request) /\ sd_root_id delivery = env_root_id (sq_envelope request)
    /\ before = earlier ++ [Ev (CacheConsume (sd_session_id delivery) (sd_capability_ref delivery)) tt].
Proof.
  intros Hr Htr. pose proof (handle_justified rq tr r before _ after Hr Htr) as Hj. cbn in Hj.
  destruct rq as [|request| | | | | | | | | | | | | | | | | | |]; try done. destruct Hj as (Hs & Hroot & Hl).
  destruct (rev before) as [|[Y c y] older] eqn:Hb; [done|]. cbn in Hl. destruct c; try done. destruct Hl as [-> ->], y.
  exists request, (rev older). split; [done|]. split; [done|]. split; [done|]. by rewrite <- (rev_involutive before), Hb.
Qed.

(** ** Purge *)

(** C9: a purge that reports success leaves nothing behind. The run ends with the registry answering that the root
    has no target left, then the definitions answering that none of the root's are left, then the same for the
    cached preparations; definitions and preparations are never touched before the targets are gone. *)
Theorem complete_purge_leaves_nothing root tr :
  runs (purge_tree root) tr (Ok tt) ->
  exists before page definition_limit limit,
    tr = before ++ [Ev (RegList root None 1) (Ok page); Ev (DefPurge root definition_limit) (Ok true);
                    Ev (CachePurge root limit) true]
    /\ items page = [].
Proof.
  intros Hr. destruct (wp_sound (justified (HandPurge root)) (purge_tree root)
    (fun r h => match r with Ok _ => purge_ended root h | Err _ => True end) tr (Ok tt)) as [HQ _]; [|done|].
  - apply (purge_tree_ok (HandPurge root) (justified (HandPurge root))); [done | done].
  - destruct HQ as (limit & dlimit & page & rest & Hb & Hp). exists (rev rest), page, dlimit, limit. split; [|done].
    rewrite <- (rev_involutive tr), Hb. cbn. by rewrite <- !app_assoc.
Qed.

(** ** Sealed launches *)
Lemma target_spec_fields resources network class spec :
  target_spec MAX_TOOL_TERMINAL_INLINE_BYTES digest_resources digest_network cfg_image cfg_image_version resources network class = Ok spec ->
  digest_resources resources = Some (resource_policy_digest spec) /\ digest_network network = Some (network_policy_digest spec)
  /\ connector spec = connector_class network /\ resource_class spec = class.
Proof.
  unfold target_spec. destruct (_ || _); [done|]. destruct (digest_resources _); [|done]. destruct (digest_network _); [|done]. cbn.
  intros H. apply map_err_Ok in H. unfold TargetSpec_new in H. ok_steps. done.
Qed.

(** C8: what [materialize] seals, a replay accepts. When the encodings round-trip and the deployment's names are
    present, the launch sealed before the reservation decodes under the very lease the reservation creates, whatever
    the time, the identifiers and the signing gave; and a recovery in another process rebuilds the same launcher, so
    the same request is replayed under the same idempotency token. *)
Theorem sealed_launch_replays key owner resources network class mode spec rid generation att fenced now preview tr sealed lease :
  (forall s text, sealed_to_json s = Some text -> sealed_of_json text = Some s) ->
  (forall p text, payload_to_json p = Some text -> payload_of_json text = Some p /\ text <> EmptyString) ->
  cfg_image_version <> EmptyString -> (forall c ref, resolve cfg_connectors c = Some ref -> ref_str ref <> EmptyString) ->
  target_spec MAX_TOOL_TERMINAL_INLINE_BYTES digest_resources digest_network cfg_image cfg_image_version resources network class = Ok spec ->
  let request launch := plane_request key spec rid generation att launch fenced (Cache.replace_after_loss mode) now in
  let launcher := mkGenerationLauncher key owner resources network class in
  AcquireTarget_lease spec_digest (request (mkDurableLaunchRequest "unsealed")) = Ok preview ->
  runs (seal_launch launcher preview) tr (Ok sealed) -> Forall named_image tr ->
  AcquireTarget_lease spec_digest (request sealed) = Ok lease ->
  from_durable lease = Ok launcher
  /\ exists s p, decode_launch lease = Ok (s, p) /\ client_token (sl_request s) = rid /\ pay_generation p = generation.
Proof.
  intros Hsealed Hpayload Hversion Hrefs Hspec request launcher Hpreview Hr Hnamed Hlease.
  apply MemoryRegistry.AcquireTarget_lease_Ok in Hpreview as (_ & _ & _ & _ & -> & _).
  apply MemoryRegistry.AcquireTarget_lease_Ok in Hlease as (_ & Hrid & _ & _ & -> & _).
  apply seal_launch_Ok in Hr as (token & proxy & image & text & ref & d & Himage & Href & Htext & Hd & Hs); [|done].
  apply Hsealed in Hs. apply Hpayload in Htext as [Htext Hne]. apply target_spec_fields in Hspec as (Hrd & Hnd & Hconn & Hclass).
  cbn in *. split; [unfold from_durable; cbn; rewrite Hs; cbn; by rewrite Htext|].
  eexists _, _. split; [apply decode_launch_Ok; cbn; split; [exact Hs|]; cbn; split; [exact Htext|]; cbn; split|done].
  - eexists _, _. split; [exact Hrd|]. split; [exact Hnd|]. split; [exact Hd|]. unfold launch_matches. cbn.
    rewrite !str_eqb_refl, !Z.eqb_refl, Hconn, Hclass, !bool_decide_true, str_eqb_refl by done. by destruct image.
  - apply built_request_is_valid; [done..| by eapply Hrefs|]. by destruct Hrid.
Qed.

(** ** The guest *)


(** *** Submissions *)
Definition submission_guard (request : SubmitRequest) (h : HandTrace) (e : HandEvent) : Prop :=
  (submit_sent e = true -> request_socket (CallSubmit request) e)
  /\ ((0 < count submit_sent h)%nat -> request_socket (CallSubmit request) e).

Lemma nothing_submitted {A} rq (p : Prog Call A) h :
  (forall ok, (forall h e, justified rq h e -> submit_sent e = false -> ok h e) -> always ok p) ->
  count submit_sent h = 0%nat ->
  forall request, wp (submission_guard request) p h (fun _ h' => count submit_sent h' = 0%nat).
Proof.
  intros Hp Hh request. apply (wp_uncounted _ submit_sent); [|intros h' e Hh' He; split; [congruence | lia]|done].
  apply (Hp (fun _ e => submit_sent e = false)). by intros h' e _.
Qed.

Lemma submit_guarded request :
  wp (submission_guard request) (submit request) [] (fun r h =>
    (count submit_sent h <= 2)%nat /\ ((0 < count submit_sent h)%nat -> ~ is_gone_error r)).
Proof.
  set (rq := HandSubmit request).
  assert (Hdone : forall (r : result AwsError Receipt) h, count submit_sent h = 0%nat ->
    (count submit_sent h <= 2)%nat /\ ((0 < count submit_sent h)%nat -> ~ is_gone_error r)) by (intros r h ->; lia).
  unfold submit, prog_lift. cbn [mbind ProgM_bind prog_bind]. destruct (validate_inline_input _ _ _) as [[]|]; cbn [prog_bind wp]; [|by apply Hdone].
  destruct (negb _); [by apply Hdone|]. apply wp_bind.
  eapply wp_mono; [apply (nothing_submitted rq); [|done]; intros ok Hok; by apply (route_for_submit_always rq)|].
  intros [route|e] h1 Hh1; [|by apply Hdone]. apply wp_bind.
  eapply wp_mono; [apply (nothing_submitted rq); [|done]; intros ok Hok; apply (settled_always rq ok Hok); by apply (install_for_operation_always rq ok Hok)|].
  intros [[]|e] h2 Hh2; [|by apply Hdone]. unfold guest_submit_rpc, prog_map_err. do 2 apply wp_bind.
  eapply wp_mono; [apply (rpc_evidence (submission_guard request) (CallSubmit (T := hand_wire) request) submit_sent
    (fun h e He => conj (fun _ => He) (fun _ => He)) ltac:(by intros [X []]))|].
  - intros r h3 [Hc _]. rewrite Hh2 in Hc. cbn [wp]. destruct r as [[]|e]; (split; [cbn in *; lia|]); intros _;
      first [exact (submit_never_gone e) | intros Hx; cbn in Hx; done].
Qed.

End safety.

(** ** Witnesses

    A small plane: one installed target of one root, a guest that answers every request, and components that
    succeed; the requests that launch find the provider's refusal instead of a target. *)
Module Sample.
#[local] Instance brain : BrainTypes := {
  BindingRest := unit; HandCapability := string; capability_eq_dec := _; InputPayload := unit; ObserveRest := unit;
  CancelRest := unit; AcknowledgeRest := unit; ListRest := unit; SearchRest := unit; Receipt := string; Observation := string;
  Cancellation := string; Acknowledgement := string; StatusReply := string; FileList := string; FileContent := string;
  StdinReceipt := string }.

Definition root : string := "root-1".
Definition key : TargetKey := mkTargetKey root DEFAULT_TARGET_KEY.
Definition spec : TargetSpec := mkTargetSpec ConnPublic "image@1" RESOURCE_CLASS 1024 digest_a digest_a.
Definition token : ControlToken := mkControlToken ("control-" +:+ digest_a).
Definition resources : ResourceCeiling := mkResourceCeiling 60000 65536.
Definition target : SandboxTarget := mkSandboxTarget "binding-1" DefaultTarget root None "session-1".
Definition record : DurableTargetRecord :=
  mkDurableTargetRecord key spec digest_a "generation-1" (Installed "vm-1" token 0 1000000) 0.
Definition descriptor : BundleDescriptor unit := mkBundleDescriptor Node22 1 1 digest_a digest_a ["API_KEY"] "contract" tt.
Definition binding : SealedBinding unit := mkSealedBinding root "session-1" "capability" AexManaged (Some descriptor) "contract" tt.
Definition entry : FileEntry := mkFileEntry 1 EntryFile 0 "out.txt" None.
Definition authority : ObjectTransferAuthority := mkObjectTransferAuthority "object-1" MethodPut 900000 1024 "https://bucket" [].
Definition staged : StagedObject := mkStagedObject ["x"%char] 1 digest_a.
Definition copy : SandboxCopyRequest :=
  mkSandboxCopyRequest "copy-1" digest_a target "generation-1" false "out.txt" CopyDirExport None authority.
Definition envelope : @OperationEnvelope (list NetworkItem) :=
  mkOperationEnvelope "operation-1" digest_a root (Some "generation-1") (Some "vm-1") resources NetPublic "binding-1" "session-1" "capability".
Definition submission : SubmitRequest := mkSubmitRequest envelope (mkOperationInput (Some "inline") tt) 0.
Definition creation : CreateSandboxRequest := mkCreateSandboxRequest target RESOURCE_CLASS resources NetPublic "generation-2".
Definition prepared : Cache.Preparation :=
  Cache.mkPreparation (mkPrepareSessionRequest "session-1" root [] [] NetPublic resources (Some (mkSecretCapability "secret-1" ["API_KEY"])))
    digest_a 0 0.
Definition catalog : ConnectorCatalog :=
  ConnectorCatalog_new (mkConnectorRef "NONE") (mkConnectorRef "PUBLIC") (mkConnectorRef "ALLOWLIST").
Definition payload : @RunPayload (list NetworkItem) :=
  mkRunPayload "contract" "generation-2" (1000 + TARGET_LIFETIME_MS) root "session-1" ConnPublic RESOURCE_CLASS resources NetPublic token None None.
Definition sealed : SealedProviderLaunch :=
  mkSealedProviderLaunch "image@1" (1000 + TARGET_DISPATCH_WINDOW_MS)
    (exact_run_request "us-east-1" "arn:image" "1" "payload" "reservation-1" (mkConnectorRef "PUBLIC")).

#[local] Instance resources_eq_dec : EqDecision ResourceCeiling.
Proof. solve_decision. Defined.
#[local] Instance network_eq_dec : EqDecision Network.
Proof. assert (EqDecision NetworkItem) by solve_decision. solve_decision. Defined.
#[local] Instance payload_eq_dec : EqDecision (@RunPayload (list NetworkItem)).
Proof. assert (EqDecision AllowlistProxy) by solve_decision. solve_decision. Defined.
#[local] Instance sealed_eq_dec : EqDecision SealedProviderLaunch.
Proof. assert (EqDecision ExactRunMicrovmRequest) by solve_decision. solve_decision. Defined.

(** The replies are named by their method. *)
Definition reply_named (text : string) : option (ResponseFrame AwsError) :=
  let answer reply := Some (mkResponseFrame "request-1" (Ok reply)) in
  if str_eqb text "submit" then answer (ReplySubmit "receipt")
  else if str_eqb text "reserve_file_effect" then answer (ReplyReserveFileEffect ReservationNew)
  else if str_eqb text "claim_file_effect" then answer (ReplyClaimFileEffect ReservationNew)
  else if str_eqb text "complete_file_effect" then answer (ReplyCompleteFileEffect (StoredCopy (exported copy entry staged)))
  else None.

(** The deployment, with the codec of the guest's socket. *)
Definition ops_with (frame_text : RequestFrame -> option string) (response_of : string -> option (ResponseFrame AwsError)) : HandOps := {|
  HAND_CONTRACT_DIGEST := "contract"; MAX_TOOL_TERMINAL_INLINE_BYTES := 65536; MAX_MANAGED_TOOL_INPUT_BYTES := 1024;
  MAX_TOOL_BUNDLE_BYTES := 1024; MAX_SESSION_BUNDLE_BYTES := 1024; MAX_WRITE_STDIN_BYTES := 1024; MAX_SESSION_SECRET_NAMES := 8;
  MAX_SESSION_SECRET_NAME_BYTES := 64; MAX_SESSION_SECRET_VALUE_UTF8_BYTES := 64; MAX_SESSION_SECRET_DOCUMENT_BYTES := 64;
  operation_request_digest _ := digest_a; sandbox_execution_request_digest _ := digest_a; write_stdin_request_digest _ := digest_a;
  sandbox_file_write_request_digest _ := digest_a; sandbox_copy_request_digest _ := digest_a;
  digest_resources _ := Some digest_a; digest_network _ := Some digest_a; spec_digest _ := digest_a; digest_binding _ := Some digest_a;
  network_ceiling_is_subset _ _ := true; required_capabilities _ := []; sha256 l := l; sha256_hex _ := digest_a;
  jcs_input _ := Some []; jcs_values _ := Some "{}"; jcs_binding _ := Ok []; binding_of_json _ := Ok binding;
  encode_frame := frame_text; decode_response := response_of;
  json_bundle_metadata _ := Some []; json_install_binding _ _ := Some []; json_install_secrets _ _ _ _ := Some [];
  json_object_metadata _ := Some []; json_file_request _ := Some []; file_entry_of_json _ := Some entry;
  b64_encode _ := "e30"; b64_decode _ := Some []; parse_url u := Some (mkUrl "https" "" None (Some "bucket") None u);
  path_parses _ := true; identifier_parses _ := true; Net := Z; net_eq_dec := _; Signature := unit; parse_net _ := None;
  domain_to_ascii_strict _ := None; destination_json _ := ""; capability_to_json _ := None; signature_of_der _ := None;
  payload_to_json p := if decide (p = payload) then Some "payload" else None; payload_of_json _ := Some payload;
  sealed_to_json s := if decide (s = sealed) then Some "sealed" else None;
  sealed_of_json _ := Some sealed; cfg_region := "us-east-1"; cfg_image := "image"; cfg_image_version := "1";
  cfg_connectors := catalog; cfg_gateway := mkGatewayAuthority "gateway" 443; cfg_signing_key := "key" |}.
#[local] Instance ops : HandOps := ops_with (fun f => Some (request_method (rf_call f))) reply_named.

(** The provider reports [vm] for every target; a launch is refused. *)
Definition answers (vm : result ControlError Microvm) (rows : list DurableTargetRecord) (X : Type) (c : Call X) (w : unit) : X * unit :=
  (match c in Call X return X with
   | Now => 1000
   | Instant => 0
   | RandomIdentifier prefix => prefix +:+ "-1"
   | RandomToken => digest_a
   | Enter _ => true
   | Leave _ => tt
   | RegGet _ => Ok (Some record)
   | RegAcquire request => AcqAcquired <$> AcquireTarget_lease spec_digest request
   | RegInstall _ _ _ => Ok InstReservationLost
   | RegExpire _ _ => Ok tt
   | RegClose _ _ _ _ => Ok tt
   | RegPurge _ _ => Ok tt
   | RegList _ _ _ => Ok (mkPage rows None)
   | DefGet _ _ _ => Ok (Some (mkDefinitionRecord root Binding "binding-1" digest_a [] 0))
   | DefInstall _ => Ok DefInstalled
   | DefPurge _ _ => Ok true
   | CachePreparation _ => Some prepared
   | CacheBundle _ => Some ["x"%char]
   | CacheConsume _ _ => tt
   | CachePurge _ _ => true
   | ArtifactHas _ _ => false
   | ArtifactAdd _ _ => tt
   | ArtifactForget _ => tt
   | SecretPort => Ok true
   | SecretRedeem _ => Ok {["API_KEY" := "value"]}
   | VmRun _ => Err (Fatal "refused")
   | VmGet _ => vm
   | VmTerminate _ => Ok tt
   | VmToken _ => Ok "jwe"
   | VmWait _ _ _ => Err NotReached
   | ImageCached => Some "arn:image"
   | ImageFind _ => None
   | ImageStore _ => tt
   | KmsSign _ _ => None
   | NextRequest => 1
   | EndpointGet _ => None
   | EndpointRemember _ _ => tt
   | EndpointForget _ => tt
   | Socket _ frame => SocketMessages [MsgText (request_method (rf_call frame))]
   | StagedOpen _ => true
   | HttpPost _ _ _ _ _ => Some (mkHttpResponse 200 (Some "e30") (mkResponse true None []))
   | FetchObject _ _ => Ok staged
   | StageResponse _ _ _ => Ok staged
   | PutObject _ _ => Ok tt
   end, w).

Definition running : result ControlError Microvm := Ok (mkMicrovm "vm-1" VmRunning (Some "endpoint")).
Definition lost : result ControlError Microvm := Err (ControlGone "vm-1").

Definition run {A} vm rows (p : Prog Call A) : A * HandTrace * unit := exec (answers vm rows) p tt.

Lemma run_splits {A} vm rows (p : Prog Call A) n e :
  (run vm rows p).1.2 !! n = Some e -> (run vm rows p).1.2 = take n (run vm rows p).1.2 ++ e :: drop (S n) (run vm rows p).1.2.
Proof. intros He. by rewrite take_drop_middle. Qed.

Definition installed_target : InstalledTarget := mkInstalledTarget key spec digest_a "vm-1" "generation-1" token 0 1000000.


Lemma launches_are_sealed_leased_and_timely_witness :
  (run running [] (handle (HandMaterialize creation))).1.2 !! 8%nat = Some (Ev (VmRun (sl_request sealed)) (Err (Fatal "refused")))
  /\ exists lease sealed' payload now earlier,
       decode_launch lease = Ok (sealed', payload) /\ sl_request sealed = sl_request sealed'
       /\ client_token (sl_request sealed) = l_reservation_id lease /\ pay_generation payload = l_generation lease
       /\ Exists (acquired lease) (take 8 (run running [] (handle (HandMaterialize creation))).1.2)
       /\ take 8 (run running [] (handle (HandMaterialize creation))).1.2 = earlier ++ [Ev Now now]
       /\ now + TARGET_LIFETIME_MS <= l_lease_expires_at_ms lease.
Proof.
  assert (He : (run running [] (handle (HandMaterialize creation))).1.2 !! 8%nat = Some (Ev (VmRun (sl_request sealed)) (Err (Fatal "refused"))))
    by (vm_compute; reflexivity).
  split; [exact He|].
  exact (launches_are_sealed_leased_and_timely (HandMaterialize creation) _ _ _ _ _ _
    (exec_runs (answers running []) (handle (HandMaterialize creation)) tt) (run_splits _ _ _ _ _ He)).
Defined.

Lemma object_authority_is_spent_by_the_claim_witness :
  (run running [] (handle (HandTransfer copy))).1.2 !! 25%nat = Some (Ev (PutObject authority staged) (Ok tt))
  /\ exists request earlier claim,
       HandTransfer copy = HandTransfer request /\ authority = cq_transfer request
       /\ take 25 (run running [] (handle (HandTransfer copy))).1.2 = earlier ++ [claim]
       /\ claimed (file_effect_identity request CopyExport) claim.
Proof.
  assert (He : (run running [] (handle (HandTransfer copy))).1.2 !! 25%nat = Some (Ev (PutObject authority staged) (Ok tt)))
    by (vm_compute; reflexivity).
  split; [exact He|].
  exact (object_authority_is_spent_by_the_claim (HandTransfer copy) _ _ _ _ _ _ _
    (exec_runs (answers running []) (handle (HandTransfer copy)) tt) (run_splits _ _ _ _ _ He)).
Defined.

Definition delivery : SecretDeliveryRequest := mkSecretDeliveryRequest "secret-1" "generation-1" HAND_ID root "session-1" target.

Lemma secret_capability_is_removed_before_redemption_witness :
  (run running [] (handle (HandSubmit submission))).1.2 !! 28%nat = Some (Ev (SecretRedeem delivery) (Ok {["API_KEY" := "value"]}))
  /\ exists request earlier,
       HandSubmit submission = HandSubmit request
       /\ sd_session_id delivery = env_session_id (sq_envelope request) /\ sd_root_id delivery = env_root_id (sq_envelope request)
       /\ take 28 (run running [] (handle (HandSubmit submission))).1.2
          = earlier ++ [Ev (CacheConsume (sd_session_id delivery) (sd_capability_ref delivery)) tt].
Proof.
  assert (He : (run running [] (handle (HandSubmit submission))).1.2 !! 28%nat = Some (Ev (SecretRedeem delivery) (Ok {["API_KEY" := "value"]})))
    by (vm_compute; reflexivity).
  split; [exact He|].
  exact (secret_capability_is_removed_before_redemption (HandSubmit submission) _ _ _ _ _ _
    (exec_runs (answers running []) (handle (HandSubmit submission)) tt) (run_splits _ _ _ _ _ He)).
Defined.

Lemma complete_purge_leaves_nothing_witness :
  exists before page definition_limit limit,
    (run running [] (purge_tree root)).1.2 = before ++ [Ev (RegList root None 1) (Ok page);
      Ev (DefPurge root definition_limit) (Ok true); Ev (CachePurge root limit) true]
    /\ items page = [].
Proof. exact (complete_purge_leaves_nothing root _ (exec_runs (answers running []) (purge_tree root) tt)). Defined.

Definition asked : RequestCall (T := hand_wire) := CallSubmit (T := hand_wire) submission.



Definition launcher : GenerationLauncher := mkGenerationLauncher key "session-1" resources NetPublic RESOURCE_CLASS.
Definition launch_request_of (launch : DurableLaunchRequest) : AcquireTarget :=
  plane_request key spec "reservation-1" "generation-2" "attempt-1" launch true true 1000.
Definition lease_of (launch : DurableLaunchRequest) : MaterializationLease :=
  mkMaterializationLease key spec digest_a "reservation-1" "generation-2" launch "attempt-1" (1000 + TARGET_ATTEMPT_MS)
    (1000 + TARGET_LIFETIME_MS) (1000 + TARGET_LEASE_MS) false.
Definition preview : MaterializationLease := lease_of (mkDurableLaunchRequest "unsealed").

Lemma sealed_launch_replays_witness :
  (run running [] (seal_launch launcher preview)).1.1 = Ok (mkDurableLaunchRequest "sealed")
  /\ from_durable (lease_of (mkDurableLaunchRequest "sealed")) = Ok launcher.
Proof.
  split; [vm_compute; reflexivity|].
  refine (proj1 (sealed_launch_replays key "session-1" resources NetPublic RESOURCE_CLASS (ExplicitDefault "generation-2") spec
    "reservation-1" "generation-2" "attempt-1" true 1000 preview (run running [] (seal_launch launcher preview)).1.2
    (mkDurableLaunchRequest "sealed") (lease_of (mkDurableLaunchRequest "sealed")) _ _ _ _ _ _ _ _ _)).
  - intros s text. cbn. case_decide as Hs; [|done]. by intros _; rewrite Hs.
  - intros p text. cbn. case_decide as Hp; [|done]. intros [= <-]. by rewrite Hp.
  - done.
  - intros [] ref H; vm_compute in H; by injection H as <-.
  - vm_compute. reflexivity.
  - vm_compute. reflexivity.
  - assert (Hr : (run running [] (seal_launch launcher preview)).1.1 = Ok (mkDurableLaunchRequest "sealed")) by (vm_compute; reflexivity).
    rewrite <- Hr. apply exec_runs.
  - vm_compute. repeat constructor; discriminate.
  - vm_compute. reflexivity.
Defined.
End Sample.
