(* ===== verification/ProcessBoundary.v ===== *)
(** * hand-guest: the child boundary

    Models the part of crates/hand-guest/src/process.rs that runs between fork and exec: the environment of a
    child, the system calls that confine it, and the seccomp program that keeps its descendants in its process
    group. The kernel appears as its documented behaviour: what a successful call changes in the calling
    process, how a classic BPF program decides a call, and how processes fork, regroup and exit. *)
From S2P Require Import Prelude GuestErrors Prog.

(** ** The environment *)
Definition base_environment (workspace : string) : gmap string string :=
  list_to_map
    [("PATH", "/workspace/.hand/bin:/workspace/.hand/npm/bin:/usr/local/sbin:/usr/local/bin:/usr/sbin:/usr/bin:/sbin:/bin");
     ("HOME", "/home/agent"); ("USER", "agent"); ("LOGNAME", "agent"); ("LANG", "C.UTF-8"); ("TERM", "dumb"); ("CI", "1");
     ("GIT_TERMINAL_PROMPT", "0"); ("CARGO_HOME", "/workspace/.hand/cargo"); ("RUSTUP_HOME", "/workspace/.hand/rustup");
     ("GOPATH", "/workspace/.hand/go"); ("GOMODCACHE", "/workspace/.hand/go/pkg/mod");
     ("npm_config_prefix", "/workspace/.hand/npm"); ("npm_config_cache", "/workspace/.hand/npm-cache");
     ("PIP_CACHE_DIR", "/workspace/.hand/pip"); ("PIPX_HOME", "/workspace/.hand/pipx");
     ("PIPX_BIN_DIR", "/workspace/.hand/bin"); ("UV_CACHE_DIR", "/workspace/.hand/uv"); ("AEX_WORKSPACE", workspace)]%string.

(** [Command::envs]: later assignments win. *)
Definition envs (added environment : gmap string string) : gmap string string := added ∪ environment.

Definition install_boundary_environment (library : option string) (environment : gmap string string) : gmap string string :=
  match library with Some library => <["LD_PRELOAD"%string := library]> environment | None => environment end.

(** ** The seccomp program *)
Record sock_filter := mkSockFilter { sf_code : Z; sf_jt : nat; sf_jf : nat; sf_k : Z }.

Definition BPF_LD_W_ABS : Z := 0x20.
Definition BPF_JMP_JEQ_K : Z := 0x15.
Definition BPF_RET_K : Z := 0x06.
Definition SECCOMP_RET_KILL_PROCESS : Z := 0x80000000.
Definition SECCOMP_RET_ERRNO : Z := 0x00050000.
Definition SECCOMP_RET_ALLOW : Z := 0x7fff0000.
Definition SECCOMP_DATA_NR_OFFSET : Z := 0.
Definition SECCOMP_DATA_ARCH_OFFSET : Z := 4.

Definition statement (code value : Z) : sock_filter := mkSockFilter code 0 0 value.
Definition jump (code value : Z) (yes no : nat) : sock_filter := mkSockFilter code yes no value.

(** [as u32] *)
Definition as_u32 (x : Z) : Z := x mod 2 ^ 32.

(** A classic BPF program over the word at offset 0 (the call's number) and the word at offset 4 (its
    architecture); jumps only go forward. *)
Definition bpf_load (arch nr k : Z) : option Z :=
  if k =? SECCOMP_DATA_NR_OFFSET then Some nr else if k =? SECCOMP_DATA_ARCH_OFFSET then Some arch else None.

Fixpoint bpf (fuel : nat) (program : list sock_filter) (accumulator arch nr : Z) : option Z :=
  match fuel, program with
  | S fuel, i :: rest =>
      if sf_code i =? BPF_LD_W_ABS then a ← bpf_load arch nr (sf_k i); bpf fuel rest a arch nr
      else if sf_code i =? BPF_JMP_JEQ_K then bpf fuel (drop (if accumulator =? sf_k i then sf_jt i else sf_jf i) rest) accumulator arch nr
      else if sf_code i =? BPF_RET_K then Some (sf_k i)
      else None
  | _, _ => None
  end.

Inductive Verdict := KillProcess | Errno (errno : Z) | Allow | OtherAction.

#[global] Instance Verdict_eq_dec : EqDecision Verdict.
Proof. solve_decision. Defined.

(** The action half of a seccomp return value, and its data. *)
Definition verdict_of (value : Z) : Verdict :=
  let action := Z.land value 0xffff0000 in
  if action =? SECCOMP_RET_KILL_PROCESS then KillProcess
  else if action =? SECCOMP_RET_ERRNO then Errno (Z.land value 0xffff)
  else if action =? SECCOMP_RET_ALLOW then Allow else OtherAction.

(** ** The calls between fork and exec *)
Inductive Libc : Type -> Type :=
  | Setsid : Libc Z
  | Dup2 (from to : Z) : Libc Z
  | FcntlGetFd (fd : Z) : Libc Z
  | FcntlSetFd (fd flags : Z) : Libc Z
  | Close (fd : Z) : Libc Z
  | Fchdir (fd : Z) : Libc Z
  | Setgroups : Libc Z
  | Setresgid (r e s : Z) : Libc Z
  | Setresuid (r e s : Z) : Libc Z
  | PrSetDumpable (dumpable : Z) : Libc Z
  | Capset (version : Z) (data : list (Z * Z * Z)) : Libc Z
  | PrCapAmbientClearAll : Libc Z
  | PrSetNoNewPrivs (on : Z) : Libc Z
  | PrSetSeccomp (mode : Z) (program : list sock_filter) : Libc Z
  | Umask (mask : Z) : Libc Z.

Definition RESULT_FD : Z := 3.
Definition FD_CLOEXEC : Z := 1.
Definition LINUX_CAPABILITY_VERSION_3 : Z := 0x20080522.
Definition SECCOMP_MODE_FILTER : Z := 2.

(** The two targets the fence compiles for, with libc's numbers for them. *)
Inductive TargetArch := X86_64 | Aarch64.

Definition AUDIT_ARCH (a : TargetArch) : Z := match a with X86_64 => 0xc000003e | Aarch64 => 0xc00000b7 end.
Definition SYS_setsid (a : TargetArch) : Z := match a with X86_64 => 112 | Aarch64 => 157 end.
Definition SYS_setpgid (a : TargetArch) : Z := match a with X86_64 => 109 | Aarch64 => 154 end.
Definition EPERM : Z := 1.

Section boundary.
Context (target : TargetArch).

Definition fence_filter : list sock_filter :=
  [statement BPF_LD_W_ABS SECCOMP_DATA_ARCH_OFFSET;
   jump BPF_JMP_JEQ_K (AUDIT_ARCH target) 1 0;
   statement BPF_RET_K SECCOMP_RET_KILL_PROCESS;
   statement BPF_LD_W_ABS SECCOMP_DATA_NR_OFFSET;
   jump BPF_JMP_JEQ_K (as_u32 (SYS_setsid target)) 0 1;
   statement BPF_RET_K (Z.lor SECCOMP_RET_ERRNO (as_u32 EPERM));
   jump BPF_JMP_JEQ_K (as_u32 (SYS_setpgid target)) 0 1;
   statement BPF_RET_K (Z.lor SECCOMP_RET_ERRNO (as_u32 EPERM));
   statement BPF_RET_K SECCOMP_RET_ALLOW].

(** A call whose result is -1 is an error of the boundary. *)
Definition check (c : Libc Z) : ProgM Libc unit unit :=
  result ← call c;
  if result =? -1 then prog_throw tt else mret tt.

Definition clear_child_capabilities : ProgM Libc unit unit :=
  _ ← check (Capset LINUX_CAPABILITY_VERSION_3 [(0, 0, 0); (0, 0, 0)]);
  check PrCapAmbientClearAll.

Definition install_process_group_fence : ProgM Libc unit unit := check (PrSetSeccomp SECCOMP_MODE_FILTER fence_filter).

Definition install_result_fd (fd : Z) : ProgM Libc unit unit :=
  _ ← (if negb (fd =? RESULT_FD) then check (Dup2 fd RESULT_FD) else mret tt);
  flags ← call (FcntlGetFd RESULT_FD);
  if flags =? -1 then prog_throw tt
  else
    _ ← check (FcntlSetFd RESULT_FD (Z.land flags (Z.lnot FD_CLOEXEC)));
    if negb (fd =? RESULT_FD) then _ ← call (Close fd); mret tt else mret tt.

Definition assume_identity (identity : ToolIdentity) : ProgM Libc unit unit :=
  _ ← check Setgroups;
  _ ← check (Setresgid (gid identity) (gid identity) (gid identity));
  _ ← check (Setresuid (uid identity) (uid identity) (uid identity));
  _ ← check (PrSetDumpable 0);
  _ ← clear_child_capabilities;
  _ ← check (PrSetNoNewPrivs 1);
  _ ← install_process_group_fence;
  _ ← call (Umask 2);
  mret tt.

(** The [pre_exec] closure of [install_child_boundary]. *)
Definition install_child_boundary (identity : option ToolIdentity) (cwd result_fd : option Z) : ProgM Libc unit unit :=
  _ ← check Setsid;
  _ ← (match result_fd with Some fd => install_result_fd fd | None => mret tt end);
  _ ← (match cwd with Some fd => check (Fchdir fd) | None => mret tt end);
  match identity with Some identity => assume_identity identity | None => mret tt end.

(** ** What the boundary leaves

    The credentials and inherited state of the child, and what a successful call changes in them. *)
Record Child := mkChild {
  c_pid : Z; c_session : Z; c_group : Z; c_uids : Z * Z * Z; c_gids : Z * Z * Z; c_groups : list Z;
  c_capabilities : list (Z * Z * Z); c_ambient : bool; c_dumpable : bool; c_no_new_privs : bool;
  c_filters : list (list sock_filter); c_cwd : option Z; c_fds : list Z; c_umask : Z }.

Definition effect {X} (c : Libc X) (s : Child) : Child :=
  let '(mkChild pid session group uids gids groups capabilities ambient dumpable nnp filters cwd fds mask) := s in
  match c with
  | Setsid => mkChild pid pid pid uids gids groups capabilities ambient dumpable nnp filters cwd fds mask
  | Setgroups => mkChild pid session group uids gids [] capabilities ambient dumpable nnp filters cwd fds mask
  | Setresgid r e s => mkChild pid session group uids (r, e, s) groups capabilities ambient dumpable nnp filters cwd fds mask
  | Setresuid r e s => mkChild pid session group (r, e, s) gids groups capabilities ambient dumpable nnp filters cwd fds mask
  | PrSetDumpable d => mkChild pid session group uids gids groups capabilities ambient (negb (d =? 0)) nnp filters cwd fds mask
  | Capset _ data => mkChild pid session group uids gids groups data ambient dumpable nnp filters cwd fds mask
  | PrCapAmbientClearAll => mkChild pid session group uids gids groups capabilities false dumpable nnp filters cwd fds mask
  | PrSetNoNewPrivs on => mkChild pid session group uids gids groups capabilities ambient dumpable (nnp || (on =? 1)) filters cwd fds mask
  | PrSetSeccomp _ program => mkChild pid session group uids gids groups capabilities ambient dumpable nnp (program :: filters) cwd fds mask
  | Umask m => mkChild pid session group uids gids groups capabilities ambient dumpable nnp filters cwd fds m
  | Fchdir fd => mkChild pid session group uids gids groups capabilities ambient dumpable nnp filters (Some fd) fds mask
  | FcntlSetFd fd flags =>
      mkChild pid session group uids gids groups capabilities ambient dumpable nnp filters cwd
        (if Z.testbit flags 0 then list_difference fds [fd] else fd :: fds) mask
  | Close fd => mkChild pid session group uids gids groups capabilities ambient dumpable nnp filters cwd (list_difference fds [fd]) mask
  | Dup2 _ _ | FcntlGetFd _ => s
  end.

Definition after_calls (tr : list (Event Libc)) (s : Child) : Child :=
  fold_left (fun s e => match e with Ev c _ => effect c s end) tr s.

(** A managed child is its own session and group, runs as its identity with no other group, no capability and no
    way to gain one, and has the fence. *)
Definition confined (identity : ToolIdentity) (s : Child) : Prop :=
  c_session s = c_pid s /\ c_group s = c_pid s
  /\ c_uids s = (uid identity, uid identity, uid identity) /\ c_gids s = (gid identity, gid identity, gid identity)
  /\ c_groups s = [] /\ c_capabilities s = [(0, 0, 0); (0, 0, 0)] /\ c_ambient s = false /\ c_dumpable s = false
  /\ c_no_new_privs s = true /\ fence_filter ∈ c_filters s /\ c_umask s = 2.

(** ** Processes under the fence

    The processes that run untrusted code: their group, the child of the supervisor they descend from, and their
    seccomp programs, of which every one must allow a call. *)
Record Process := mkProcess { p_group : Z; p_origin : Z; p_filters : list (list sock_filter) }.

Definition decide_call (program : list sock_filter) (arch nr : Z) : option Verdict := verdict_of <$> bpf (length program) program 0 arch nr.
Definition permits (filters : list (list sock_filter)) (arch nr : Z) : Prop := Forall (fun f => decide_call f arch nr = Some Allow) filters.

(** [regroups arch nr]: the call moves a process to another group or session. *)
Context (regroups : Z -> Z -> bool).

Inductive kernel_step : gmap Z Process -> gmap Z Process -> Prop :=
  | KSpawn ps pid : ps !! pid = None -> (forall q p, ps !! q = Some p -> p_group p <> pid) ->
      kernel_step ps (<[pid := mkProcess pid pid [fence_filter]]> ps)
  | KFork ps parent child p : ps !! parent = Some p -> ps !! child = None -> (forall q p, ps !! q = Some p -> p_group p <> child) ->
      kernel_step ps (<[child := p]> ps)
  | KRegroup ps caller p arch nr pid q group : ps !! caller = Some p -> permits (p_filters p) arch nr -> regroups arch nr = true ->
      ps !! pid = Some q -> p_origin q = p_origin p ->
      kernel_step ps (<[pid := mkProcess group (p_origin q) (p_filters q)]> ps)
  | KSeccomp ps pid p program : ps !! pid = Some p ->
      kernel_step ps (<[pid := mkProcess (p_group p) (p_origin p) (program :: p_filters p)]> ps)
  | KExit ps pid : kernel_step ps (delete pid ps)
  | KKill ps group : kernel_step ps (filter (fun kv => p_group kv.2 <> group) ps).

(** [kill(-group, SIGKILL)] *)
Definition kill_group (group : Z) (ps : gmap Z Process) : gmap Z Process := filter (fun kv => p_group kv.2 <> group) ps.

Definition kernel_reachable : gmap Z Process -> Prop := rtc kernel_step ∅.

(** ** Lemmas *)
Lemma bpf_jump fuel k yes no rest a arch nr :
  bpf (S fuel) (jump BPF_JMP_JEQ_K k yes no :: rest) a arch nr = bpf fuel (drop (if a =? k then yes else no) rest) a arch nr.
Proof. done. Qed.
Lemma bpf_load_nr fuel rest a arch nr : bpf (S fuel) (statement BPF_LD_W_ABS SECCOMP_DATA_NR_OFFSET :: rest) a arch nr = bpf fuel rest nr arch nr.
Proof. done. Qed.
Lemma bpf_load_arch fuel rest a arch nr : bpf (S fuel) (statement BPF_LD_W_ABS SECCOMP_DATA_ARCH_OFFSET :: rest) a arch nr = bpf fuel rest arch arch nr.
Proof. done. Qed.
Lemma bpf_ret fuel k rest a arch nr : bpf (S fuel) (statement BPF_RET_K k :: rest) a arch nr = Some k.
Proof. done. Qed.

Lemma fence_decides arch nr :
  decide_call fence_filter arch nr
  = Some (if negb (arch =? AUDIT_ARCH target) then KillProcess
          else if (nr =? SYS_setsid target) || (nr =? SYS_setpgid target) then Errno EPERM else Allow).
Proof.
  unfold decide_call, fence_filter. change (length _) with 9%nat.
  replace (as_u32 (SYS_setsid target)) with (SYS_setsid target) by (by destruct target).
  replace (as_u32 (SYS_setpgid target)) with (SYS_setpgid target) by (by destruct target).
  rewrite bpf_load_arch, bpf_jump. destruct (arch =? AUDIT_ARCH target); cbn [drop]; [|by rewrite bpf_ret].
  rewrite bpf_load_nr, bpf_jump. destruct (nr =? SYS_setsid target); cbn [drop orb negb]; [by rewrite bpf_ret|].
  rewrite bpf_jump. destruct (nr =? SYS_setpgid target); cbn [drop]; by rewrite bpf_ret.
Qed.

Lemma check_Ok c tr : runs (check c) tr (Ok tt) -> exists x, x <> -1 /\ tr = [Ev c x].
Proof.
  unfold check. intros (x & t1 & t2 & -> & ->%runs_call_Ok & Hr)%runs_mbind_Ok. exists x.
  destruct (Z.eqb_spec x (-1)) as [|Hx]; [by destruct Hr|]. by destruct Hr as [-> _].
Qed.

Lemma check_bind_Ok {A} c (f : unit -> ProgM Libc unit A) tr a :
  runs (check c ≫= f) tr (Ok a) -> exists x rest, x <> -1 /\ tr = Ev c x :: rest /\ runs (f tt) rest (Ok a).
Proof. intros ([] & t1 & t2 & -> & (x & Hx & ->)%check_Ok & Hr)%runs_mbind_Ok. by exists x, t2. Qed.

Lemma after_calls_app t1 t2 s : after_calls (t1 ++ t2) s = after_calls t2 (after_calls t1 s).
Proof. apply fold_left_app. Qed.

(** The descriptor and directory calls leave the child's own session and group. *)
Definition own_group (s : Child) : Prop := c_session s = c_pid s /\ c_group s = c_pid s.

Definition keeps_group {X} (c : Libc X) : Prop := match c with Dup2 _ _ | FcntlGetFd _ | FcntlSetFd _ _ | Close _ | Fchdir _ => True | _ => False end.

Lemma keeps_group_calls tr s : Forall (ev_in (@keeps_group)) tr -> own_group s -> own_group (after_calls tr s).
Proof.
  intros Htr. revert s. induction Htr as [|[X c x] tr Hc _ IH]; intros s Hs; [done|].
  cbn. apply IH. destruct s, c; try done; exact Hs.
Qed.

Lemma install_result_fd_calls fd : calls_in (@keeps_group) (install_result_fd fd).
Proof.
  unfold install_result_fd. apply calls_in_bind.
  { destruct (negb _); [|done]. split; [done|]. intros x. cbn. by destruct (x =? -1). }
  intros [[]|e]; [|done].
  split; [done|]. intros flags. cbn. destruct (flags =? -1); [done|]. split; [done|]. intros set.
  cbn. destruct (set =? -1); [done|]. by destruct (negb _).
Qed.

Lemma assume_identity_confines identity tr s :
  runs (assume_identity identity) tr (Ok tt) -> own_group s -> confined identity (after_calls tr s).
Proof.
  unfold assume_identity, clear_child_capabilities, install_process_group_fence. intros Hr [Hs Hg].
  do 4 (apply check_bind_Ok in Hr as (? & ? & _ & -> & Hr)).
  apply runs_mbind_Ok in Hr as ([] & t1 & t2 & -> & Hc & Hr). apply check_bind_Ok in Hc as (? & ? & _ & -> & (? & _ & ->)%check_Ok).
  do 2 (apply check_bind_Ok in Hr as (? & ? & _ & -> & Hr)).
  apply runs_mbind_Ok in Hr as (? & t3 & t4 & -> & ->%runs_call_Ok & [-> _]).
  destruct s. cbn in *. unfold confined. cbn. rewrite orb_true_r. repeat (split; [done|]). split; [|done]. apply list_elem_of_here.
Qed.

(** Every process of an operation is in the operation's group and under the fence. *)
Definition fenced (ps : gmap Z Process) : Prop :=
  map_Forall (fun _ p => p_group p = p_origin p /\ fence_filter ∈ p_filters p) ps.

(** The kernel knows the two calls under the numbers of the table the fence was compiled for, and no others. *)
Context (regroups_only_by_these : forall nr, regroups (AUDIT_ARCH target) nr = true -> nr = SYS_setsid target \/ nr = SYS_setpgid target).

Lemma fence_forbids filters arch nr : fence_filter ∈ filters -> permits filters arch nr -> regroups arch nr = true -> False.
Proof.
  intros Hf Hp Hr. unfold permits in Hp. eapply Forall_forall in Hp; [|exact Hf]. rewrite fence_decides in Hp.
  destruct (Z.eqb_spec arch (AUDIT_ARCH target)) as [->|]; cbn in Hp; [|done].
  apply regroups_only_by_these in Hr as [-> | ->]; by rewrite ?Z.eqb_refl, ?orb_true_r in Hp.
Qed.

Lemma fenced_step ps ps' : kernel_step ps ps' -> fenced ps -> fenced ps'.
Proof.
  intros Hs Hps. destruct Hs as [ps pid _ _ | ps parent child p Hp _ _ | ps caller p arch nr pid q group Hp Hpm Hr _ _ | ps pid p program Hp | ps pid | ps group].
  - apply map_Forall_insert_2; [|done]. split; [done | apply list_elem_of_here].
  - apply map_Forall_insert_2; [|done]. exact (Hps _ _ Hp).
  - destruct (Hps _ _ Hp) as [_ Hf]. destruct (fence_forbids _ _ _ Hf Hpm Hr).
  - apply map_Forall_insert_2; [|done]. destruct (Hps _ _ Hp). split; [done | by apply list_elem_of_further].
  - by apply map_Forall_delete.
  - intros pid p [Hp _]%map_lookup_filter_Some. exact (Hps _ _ Hp).
Qed.

Lemma kernel_reachable_fenced ps : kernel_reachable ps -> fenced ps.
Proof.
  unfold kernel_reachable. intros Hr. apply rtc_ind_r with (P := fenced) in Hr; [done | apply map_Forall_empty|].
  intros y z _ Hs Hy. by eapply fenced_step.
Qed.

(** ** Theorems *)
(** A managed child is confined before it runs untrusted code. When the calls between fork and exec all
    succeed, whatever the descriptors and the working directory, the child is the leader of its own session and
    group, runs as its binding's identity with no supplementary group and no capability, cannot gain one, and has
    the fence among its seccomp programs. *)
Theorem boundary_confines identity cwd result_fd tr s :
  runs (install_child_boundary (Some identity) cwd result_fd) tr (Ok tt) -> confined identity (after_calls tr s).
Proof.
  unfold install_child_boundary. intros (x & t1 & _ & -> & Hr)%check_bind_Ok.
  apply runs_mbind_Ok in Hr as ([] & t2 & t3 & -> & H2 & Hr). apply runs_mbind_Ok in Hr as ([] & t4 & t5 & -> & H4 & Hr).
  cbn. rewrite !after_calls_app. apply (assume_identity_confines _ _ _ Hr).
  apply keeps_group_calls; [|apply keeps_group_calls].
  - destruct cwd as [fd|]; [by apply check_Ok in H4 as (? & _ & ->); repeat constructor|]. by destruct H4 as [-> _].
  - destruct result_fd as [fd|]; [exact (runs_calls _ _ _ _ (install_result_fd_calls fd) H2)|]. by destruct H2 as [-> _].
  - by destruct s.
Qed.

End boundary.

(** What the fence is for: it refuses the two calls, a foreign table is fatal, and the rest pass. On x86-64 that
    includes the numbers of the x32 table, which shares the architecture word; the sweep above is proved for
    kernels without it. *)
Lemma x32_setsid_passes_the_fence : decide_call (fence_filter X86_64) (AUDIT_ARCH X86_64) (Z.lor 0x40000000 112) = Some Allow.
Proof. reflexivity. Qed.

(** Later assignments win: the boundary library over the connector's proxy variables, these over the customer's,
    and these over the base; nothing else reaches the child. *)
Lemma child_environment_lookup workspace environment proxy library name :
  install_boundary_environment library (envs proxy (envs environment (base_environment workspace))) !! name
  = if decide (name = "LD_PRELOAD"%string /\ is_Some library) then library
    else match proxy !! name with
         | Some v => Some v
         | None => match environment !! name with Some v => Some v | None => base_environment workspace !! name end
         end.
Proof.
  assert (He : envs proxy (envs environment (base_environment workspace)) !! name
    = match proxy !! name with Some v => Some v | None =>
        match environment !! name with Some v => Some v | None => base_environment workspace !! name end end).
  { unfold envs. rewrite !lookup_union. by destruct (proxy !! name), (environment !! name), (base_environment workspace !! name). }
  destruct library as [l|]; cbn.
  - destruct (decide (name = "LD_PRELOAD"%string)) as [->|Hn].
    + rewrite lookup_insert_eq. by rewrite decide_True by eauto.
    + rewrite lookup_insert_ne by congruence. by rewrite decide_False by naive_solver.
  - rewrite decide_False by (intros [_ [? ?]]; congruence). exact He.
Qed.

(** ** A sample *)
Module Sample.
Definition sample_identity : ToolIdentity := mkToolIdentity 65540 1002 1000.
Definition parent_child : Child :=
  mkChild 42 1 1 (1000, 1000, 1000) (1000, 1000, 1000) [10] [(224, 224, 0)] true true false [] None [7] 18.
Definition all_succeed (X : Type) (c : Libc X) (w : unit) : X * unit := match c in Libc X return X * unit with
  | Setsid => (42, w) | FcntlGetFd _ => (1, w) | Dup2 _ to => (to, w) | _ => (0, w) end.
Definition boundary_run := exec all_succeed (install_child_boundary X86_64 (Some sample_identity) (Some 5) (Some 7)) tt.

Lemma boundary_confines_witness :
  runs (install_child_boundary X86_64 (Some sample_identity) (Some 5) (Some 7)) boundary_run.1.2 (Ok tt)
  /\ confined X86_64 sample_identity (after_calls boundary_run.1.2 parent_child).
Proof.
  assert (Hr : runs (install_child_boundary X86_64 (Some sample_identity) (Some 5) (Some 7)) boundary_run.1.2 (Ok tt)).
  { change (Ok tt) with boundary_run.1.1. apply exec_runs. }
  split; [exact Hr | exact (boundary_confines X86_64 sample_identity (Some 5) (Some 7) _ parent_child Hr)].
Defined.

Definition linux_x86_64 (arch nr : Z) : bool := (arch =? AUDIT_ARCH X86_64) && ((nr =? 112) || (nr =? 109)).
Definition child_42 : Process := mkProcess 42 42 [fence_filter X86_64].
Definition two_operations : gmap Z Process := <[77 := mkProcess 77 77 [fence_filter X86_64]]> (<[43 := child_42]> (<[42 := child_42]> ∅)).

Lemma two_operations_reachable : kernel_reachable X86_64 linux_x86_64 two_operations.
Proof.
  unfold two_operations.
  apply (rtc_r _ (<[43 := child_42]> (<[42 := child_42]> ∅))); [apply (rtc_r _ (<[42 := child_42]> ∅)); [apply rtc_once|]|].
  - apply (KSpawn _ _ ∅ 42); [done|]. intros q p Hq. by rewrite lookup_empty in Hq.
  - apply (KFork _ _ _ 42); [done | done|]. intros q p [[<- <-] | [_ Hq]]%lookup_insert_Some; [done|]. by rewrite lookup_empty in Hq.
  - apply (KSpawn _ _ _ 77); [done|].
    intros q p [[<- <-] | [_ [[<- <-] | [_ Hq]]%lookup_insert_Some]]%lookup_insert_Some; [done | done|]. by rewrite lookup_empty in Hq.
Defined.

End Sample.
