(* ===== verification/Process.v ===== *)
(** * hand-guest: process supervision

    Models crates/hand-guest/src/process.rs but for the child's boundary (ProcessBoundary): how a managed Tool
    and a sandbox shell are started, supervised against cancellation and a wall-clock deadline, swept and turned
    into a terminal result. The supervisor is a program over its system calls and clocks; the tasks that move the
    child's input and output appear as the bytes the streams deliver and how they settle. The loops that poll a
    clock or reap children take fuel, and running out of it is an outcome of its own. *)
From S2P Require Import Prelude GuestErrors GuestTarget GuestInstall GuestOperations Prog ProcessBoundary.

Notation bytes := (list Ascii.ascii).

Definition MAX_DIAGNOSTIC_BYTES : Z := 64 * 1024.
Definition MAX_TOOL_RUNNER_REQUEST_BYTES : Z := 256 * 1024.
Definition RESULT_ENVELOPE_HEADROOM_BYTES : Z := 4096.
Definition POST_CHILD_IO_TIMEOUT : Z := 1000.

(** Brain's outcomes that the supervisor gives. *)
Inductive TerminalOutcome := Completed | OutcomeFailed | OutcomeCancelled | DeadlineExceeded.

Inductive Failure :=
  | Cancelled
  | Deadline
  | Message (message : bytes) (exit_code : option Z).

Definition failure_message (message : bytes) : Failure := Message message None.
Definition with_exit_code (f : Failure) (exit_code : option Z) : Failure :=
  match f with Message message _ => Message message exit_code | other => other end.

(** An exit status: the code, or none for a signal. *)
Record ExitStatus := mkExitStatus { status_code : option Z }.
Definition status_success (s : ExitStatus) : bool := bool_decide (status_code s = Some 0).

(** The bytes a stream delivers to its reader, and whether reading then fails, and how. *)
Record Stream := mkStream { st_bytes : bytes; st_error : option bytes }.

Inductive Settled (T : Type) := SettledDone (value : T) | SettledStopped | SettledUnsettled.
Arguments SettledDone {T} value.
Arguments SettledStopped {T}.
Arguments SettledUnsettled {T}.

Record ChildCommand := mkChildCommand {
  cc_program : string; cc_args : list string; cc_current_dir : option string; cc_environment : gmap string string;
  cc_piped_stdin : bool; cc_identity : option ToolIdentity; cc_cwd : option Z; cc_result_fd : option Z }.

(** The first ready branch of the supervisor's [select!]. *)
Inductive Ready := ReadyChild (status : result bytes ExitStatus) | ReadyCancelled | ReadyTimer.

Inductive Signal := SIGTERM | SIGKILL.
Inductive Waited := WaitedChild | WaitedNone | WaitedInterrupted | WaitedError.

(** The calls of the supervisor. Descriptors and process ids are numbers, durations are milliseconds and the
    monotonic clock reads nanoseconds. *)
Inductive Sys : Type -> Type :=
  | WallMs : Sys Z
  | MonoNow : Sys Z
  | ChannelPair : Sys (result bytes Z)
  | ChannelArm : Sys (result bytes unit)
  | ChannelAttach : Sys (result bytes unit)
  | CloneCwd : Sys (result bytes Z)
  | Spawn (command : ChildCommand) : Sys (result bytes (option Z))
  | TakeStdin : Sys bool
  | ControlInstall : Sys unit
  | ControlClose : Sys unit
  | StartWriter (request : bytes) : Sys unit
  | StartResultReader (max_bytes : Z) : Sys unit
  | StartReaders (limit : Z) : Sys unit
  | Race (sleep : Z) : Sys Ready
  | Kill (target : Z) (signal : Signal) : Sys unit
  | ChildKill : Sys unit
  | WaitFor (timeout : Z) : Sys bool
  | WaitLeader : Sys unit
  | WaitPid (target : Z) : Sys Waited
  | Sleep (duration : Z) : Sys unit
  | AbortTasks : Sys unit
  | SettleWriter (timeout : Z) : Sys (Settled (bool * bool))
  | SettleResult (timeout : Z) : Sys (Settled bytes)
  | SettleStdout (timeout : Z) : Sys (Settled (option Stream))
  | SettleStderr (timeout : Z) : Sys (Settled (option Stream)).

Inductive Stop := Failed (f : Failure) | OutOfFuel.
Notation SysM := (ProgM Sys Stop).

Definition fail {A} (message : bytes) : SysM A := prog_throw (Failed (failure_message message)).
(** [map_err] of a call whose error is reported after a prefix. *)
Definition reported {A} (prefix : string) (c : Sys (result bytes A)) : SysM A :=
  try_call (fun e => Failed (failure_message (bytes_of prefix ++ e))) c.
Definition failing {A} (r : result Failure A) : SysM A := prog_lift (map_err Failed r).

(** ** Bounded input and output *)
Definition be_u32 (header : bytes) : Z := fold_left (fun n c => n * 256 + byte_val c) header 0.

Definition read_framed_result (stream : bytes) (max_bytes : Z) : result Failure bytes :=
  if (length stream <? 4)%nat then Err (failure_message (bytes_of "Tool runner produced no complete result frame"))
  else
    let declared := be_u32 (take 4 stream) in
    if (declared =? 0) || (max_bytes <? declared) then Err (failure_message (bytes_of "Tool result frame exceeds the sealed output ceiling"))
    else if len (drop 4 stream) <? declared then Err (failure_message (bytes_of "Tool runner produced a truncated result frame"))
    else Ok (take (Z.to_nat declared) (drop 4 stream)).

(** [take(limit).read_to_end]: an error is only met before the limit is. *)
Definition read_bounded (reader : option Stream) (limit : Z) : result bytes bytes :=
  match reader with
  | None => Ok []
  | Some s =>
      if limit <=? len (st_bytes s) then Ok (take (Z.to_nat limit) (st_bytes s))
      else match st_error s with Some e => Err e | None => Ok (st_bytes s) end
  end.

(** Both steps of [write_runner_request]. *)
Definition write_runner_request (written shut : bool) : result Failure unit :=
  if negb written then Err (failure_message (bytes_of "Tool request channel closed before the bounded request"))
  else if negb shut then Err (failure_message (bytes_of "Tool request channel could not be closed")) else Ok tt.

Definition settle_request_writer (s : Settled (bool * bool)) : result Failure unit :=
  match s with
  | SettledDone (written, shut) => write_runner_request written shut
  | SettledStopped => Err (failure_message (bytes_of "Tool request writer stopped unexpectedly"))
  | SettledUnsettled => Err (failure_message (bytes_of "Tool request writer did not settle"))
  end.

Definition settle_result_reader (max_bytes : Z) (s : Settled bytes) : result Failure bytes :=
  match s with
  | SettledDone stream => read_framed_result stream max_bytes
  | SettledStopped => Err (failure_message (bytes_of "Tool result reader stopped unexpectedly"))
  | SettledUnsettled => Err (failure_message (bytes_of "Tool runner produced no complete result frame"))
  end.

Definition settle_bounded_reader (limit : Z) (s : Settled (option Stream)) : option (result bytes bytes) :=
  match s with SettledDone reader => Some (read_bounded reader limit) | SettledStopped | SettledUnsettled => None end.

Definition newline : Ascii.ascii := "010"%char.
Definition labelled (name : string) (text : bytes) : bytes :=
  match text with [] => [] | _ => [newline] ++ bytes_of name ++ bytes_of ": " ++ from_utf8_lossy text end.
Definition diagnostic (prefix : bytes) (stdout stderr : bytes) : bytes :=
  truncate_utf8 (prefix ++ labelled "stderr" stderr ++ labelled "stdout" stdout) (Z.to_nat MAX_DIAGNOSTIC_BYTES).

(** ** Deadlines *)
Definition execution_deadline_at (now_ms absolute_deadline_at_ms timeout_ms : Z) : result Failure Z :=
  let deadline_at_ms := Z.min absolute_deadline_at_ms (saturating_add now_ms timeout_ms) in
  if deadline_at_ms <=? now_ms then Err Deadline else Ok deadline_at_ms.

(** [as i32] *)
Definition as_i32 (x : Z) : Z := (x + 2 ^ 31) mod 2 ^ 32 - 2 ^ 31.

(** ** Supervision *)
Inductive Raced := RacedExit (status : result bytes ExitStatus) | RacedCancelled | RacedDeadline.

(** The [select!] of a child's exit, its cancellation and [wait_for_wall_deadline]: the deadline branch reads the
    wall clock, is ready once nothing remains, and otherwise sleeps for at most a second and reads it again. *)
Fixpoint supervise (fuel : nat) (deadline_at_ms : Z) : SysM Raced :=
  match fuel with
  | O => prog_throw OutOfFuel
  | S fuel =>
      now ← call WallMs;
      let remaining := saturating_sub deadline_at_ms now in
      ready ← call (Race (Z.min remaining 1000));
      match ready with
      | ReadyChild status => mret (RacedExit status)
      | ReadyCancelled => mret RacedCancelled
      | ReadyTimer => if remaining =? 0 then mret RacedDeadline else supervise fuel deadline_at_ms
      end
  end.

Fixpoint reap_loop (fuel : nat) (deadline process_id : Z) : SysM unit :=
  match fuel with
  | O => prog_throw OutOfFuel
  | S fuel =>
      waited ← call (WaitPid (- as_i32 process_id));
      match waited with
      | WaitedChild | WaitedInterrupted => reap_loop fuel deadline process_id
      | WaitedError => mret tt
      | WaitedNone =>
          now ← call MonoNow;
          if deadline <=? now then mret tt else _ ← call (Sleep 5); reap_loop fuel deadline process_id
      end
  end.

Definition reap_process_group (fuel : nat) (process_id : Z) : SysM unit :=
  now ← call MonoNow;
  reap_loop fuel (now + 1000000000) process_id.

Definition sweep_process_group (fuel : nat) (process_id : option Z) : SysM unit :=
  match process_id with
  | Some pid => _ ← call (Kill (- as_i32 pid) SIGKILL); reap_process_group fuel pid
  | None => mret tt
  end.

Definition terminate_process_group (fuel : nat) (process_id : option Z) : SysM unit :=
  match process_id with
  | Some pid =>
      _ ← call (Kill (- as_i32 pid) SIGTERM);
      leader_reaped ← call (WaitFor 2000);
      _ ← call (Kill (- as_i32 pid) SIGKILL);
      _ ← (if negb leader_reaped then call WaitLeader else mret tt);
      reap_process_group fuel pid
  | None => call ChildKill
  end.

Definition teardown (fuel : nat) (process_id : option Z) (control : bool) : SysM unit :=
  _ ← terminate_process_group fuel process_id;
  _ ← call AbortTasks;
  if control then call ControlClose else mret tt.

Section executors.
Context {R Json : Type} (json_null : Json) (json_error : bytes -> Json) (json_streams : bytes -> bytes -> Json).
Context (json_inline : Json) `{EqDecision Json}.
(** Brain's bounds, its measure of a terminal's inline value, and the serializers. *)
Context (MAX_TOOL_TERMINAL_INLINE_BYTES MAX_MANAGED_TOOL_INPUT_BYTES : Z) (terminal_inline_bytes : Json -> option Z).
Context (tool_name : R -> string) (description : R -> option string).

(** The envelope's input; its [kind] is any JSON value. *)
Record ManagedInput := mkManagedInput { in_kind : Json; in_value : Json }.
Context (jcs_input : ManagedInput -> option bytes).

Record RunnerRequest := mkRunnerRequest {
  rr_operation_id : string; rr_session_id : string; rr_name : string; rr_description : option string;
  rr_contract_digest : string; rr_bundle_digest : string; rr_required_env : list string; rr_input : Json;
  rr_workspace : string; rr_deadline_ms : Z; rr_max_output_bytes : Z }.
Context (encode_runner_request : RunnerRequest -> result bytes bytes).

Record RunnerResult := mkRunnerResult { rn_ok : bool; rn_output : option Json; rn_error : option bytes }.
Context (runner_result_of_json : bytes -> result bytes RunnerResult).

Notation ExecutionResult := (@GuestOperations.ExecutionResult Json TerminalOutcome).

Record BundleExecution := mkBundleExecution {
  be_bundle_path : string; be_descriptor : BundleDescriptor R; be_operation_id : string; be_session_id : string;
  be_input : ManagedInput; be_deadline_at_ms : Z; be_resources : ResourceCeiling; be_workspace : string; be_runner : string;
  be_environment : gmap string string; be_proxy_environment : gmap string string; be_identity : option ToolIdentity;
  be_boundary_library : option string; be_target_expires_at_ms : Z }.

Record ShellExecution := mkShellExecution {
  se_command : string; se_workspace : string; se_timeout_ms : Z; se_max_output_bytes : Z; se_interactive : bool;
  se_proxy_environment : gmap string string; se_identity : option ToolIdentity; se_boundary_library : option string;
  se_target_expires_at_ms : Z; se_control : bool }.

Definition enforce_inline_bound (value : Json) (sealed_max_bytes : Z) (executor : string) : result Failure unit :=
  inline_bytes ← ok_or (failure_message (bytes_of executor ++ bytes_of " result cannot be canonicalized")) (terminal_inline_bytes value);
  let effective_max := Z.min sealed_max_bytes MAX_TOOL_TERMINAL_INLINE_BYTES in
  if effective_max <? inline_bytes
  then Err (failure_message (bytes_of executor ++ bytes_of " may have completed, but its inline result exceeds the sealed "
         ++ bytes_of (print_uint effective_max)
         ++ bytes_of "-byte output ceiling; store large data in session storage or the sandbox and return a key/path"))
  else Ok tt.

(** ** Tools *)
Definition bundle_command (request : BundleExecution) (result_fd : Z) : ChildCommand :=
  mkChildCommand "node" [be_runner request; be_bundle_path request] (Some (be_workspace request))
    (install_boundary_environment (be_boundary_library request)
       (envs (be_proxy_environment request) (envs (be_environment request) (base_environment (be_workspace request)))))
    true (be_identity request) None (Some result_fd).

Definition runner_request (request : BundleExecution) : RunnerRequest :=
  let d := be_descriptor request in
  mkRunnerRequest (be_operation_id request) (be_session_id request) (tool_name (bd_rest d)) (description (bd_rest d))
    (bd_contract_digest d) (bd_bundle_digest d) (bd_required_env d) (in_value (be_input request)) "/workspace"
    (be_deadline_at_ms request) (rc_max_output_bytes (be_resources request)).

(** The checks before anything is started: the deadline and the bytes for the runner. *)
Definition prepare_bundle (request : BundleExecution) : SysM (Z * bytes) :=
  if negb (bool_decide (in_kind (be_input request) = json_inline)) then fail (bytes_of "managed Tool input kind must be inline")
  else
    canonical_input ← prog_lift (ok_or (Failed (failure_message (bytes_of "managed Tool input cannot be canonicalized"))) (jcs_input (be_input request)));
    if MAX_MANAGED_TOOL_INPUT_BYTES <? len canonical_input
    then fail (bytes_of "managed Tool input exceeds the " ++ bytes_of (print_uint MAX_MANAGED_TOOL_INPUT_BYTES) ++ bytes_of "-byte canonical bound")
    else
      now ← call WallMs;
      deadline_at_ms ← failing (execution_deadline_at now (Z.min (be_deadline_at_ms request) (be_target_expires_at_ms request))
                                  (rc_timeout_ms (be_resources request)));
      request_bytes ← failing (map_err (fun e => failure_message (bytes_of "could not encode Tool request: " ++ e))
                                 (encode_runner_request (runner_request request)));
      if MAX_TOOL_RUNNER_REQUEST_BYTES <? len request_bytes
      then fail (bytes_of "Tool runner request exceeds the " ++ bytes_of (print_uint MAX_TOOL_RUNNER_REQUEST_BYTES) ++ bytes_of "-byte transport bound")
      else mret (deadline_at_ms, request_bytes).

(** Diagnostics degrade to empty; the framed result is authoritative. *)
Definition diagnostic_stream (s : Settled (option Stream)) : bytes :=
  match settle_bounded_reader MAX_DIAGNOSTIC_BYTES s with Some (Ok bytes) => bytes | _ => [] end.

Definition tool_result (request : BundleExecution) (exit_code : option Z) (output : Json) : result Failure ExecutionResult :=
  _ ← enforce_inline_bound output (rc_max_output_bytes (be_resources request)) "Tool";
  Ok (mkExecutionResult Completed output false exit_code 0).

Definition bundle_result (request : BundleExecution) (status : ExitStatus) (result_bytes : result Failure bytes) (stdout stderr : bytes)
    : result Failure ExecutionResult :=
  let exit_code := status_code status in
  let message prefix := Message (diagnostic prefix stdout stderr) exit_code in
  result_bytes ← map_err (fun _ => message (bytes_of "Tool runner produced no result")) result_bytes;
  runner ← map_err (fun e => message (bytes_of "Tool result is invalid: " ++ e)) (runner_result_of_json result_bytes);
  if rn_ok runner && status_success status then
    tool_result request exit_code (default json_null (rn_output runner))
  else Err (message (default (bytes_of "Tool execution failed") (rn_error runner))).

Definition execute_bundle_inner (fuel : nat) (request : BundleExecution) : SysM ExecutionResult :=
  '(deadline_at_ms, request_bytes) ← prepare_bundle request;
  let result_limit := saturating_add (rc_max_output_bytes (be_resources request)) RESULT_ENVELOPE_HEADROOM_BYTES in
  result_fd ← reported "could not create Tool result channel: " ChannelPair;
  _ ← reported "could not arm Tool result channel: " ChannelArm;
  _ ← reported "could not attach Tool result channel: " ChannelAttach;
  process_id ← reported "could not start Node22 Tool: " (Spawn (bundle_command request result_fd));
  stdin ← call TakeStdin;
  _ ← (if (stdin : bool) then mret tt else fail (bytes_of "Tool request channel was not created"));
  _ ← call (StartWriter request_bytes);
  _ ← call (StartResultReader result_limit);
  _ ← call (StartReaders MAX_DIAGNOSTIC_BYTES);
  raced ← supervise fuel deadline_at_ms;
  match raced with
  | RacedCancelled => _ ← teardown fuel process_id false; prog_throw (Failed Cancelled)
  | RacedDeadline => _ ← teardown fuel process_id false; prog_throw (Failed Deadline)
  | RacedExit status =>
      status ← failing (map_err (fun e => failure_message (bytes_of "Tool wait failed: " ++ e)) status);
      _ ← sweep_process_group fuel process_id;
      _ ← call (SettleWriter POST_CHILD_IO_TIMEOUT);
      frame ← call (SettleResult POST_CHILD_IO_TIMEOUT);
      stdout ← call (SettleStdout POST_CHILD_IO_TIMEOUT);
      stderr ← call (SettleStderr POST_CHILD_IO_TIMEOUT);
      failing (bundle_result request status (settle_result_reader result_limit frame) (diagnostic_stream stdout) (diagnostic_stream stderr))
  end.

(** ** Shells *)
Definition shell_command (request : ShellExecution) (cwd : Z) : ChildCommand :=
  mkChildCommand "/bin/bash" ["-lc"%string; se_command request] None
    (install_boundary_environment (se_boundary_library request)
       (envs (se_proxy_environment request) (base_environment (se_workspace request))))
    (se_interactive request) (se_identity request) (Some cwd) None.

Definition output_limit (request : ShellExecution) : Z := Z.min (se_max_output_bytes request) MAX_TOOL_TERMINAL_INLINE_BYTES.

Definition shell_stream (name : string) (exit_code : option Z) (stream : result bytes bytes) : result Failure bytes :=
  map_err (fun e => Message (bytes_of "sandbox " ++ bytes_of name ++ bytes_of " stream failed: " ++ e) exit_code) stream.

Definition sandbox_result (request : ShellExecution) (status : ExitStatus) (inline : Json) : result Failure ExecutionResult :=
  _ ← map_err (fun f => with_exit_code f (status_code status)) (enforce_inline_bound inline (output_limit request) "sandbox");
  Ok (mkExecutionResult (if status_success status then Completed else OutcomeFailed) inline (negb (status_success status))
        (status_code status) 0).

Definition shell_result (request : ShellExecution) (status : ExitStatus) (stdout stderr : option (result bytes bytes))
    : result Failure ExecutionResult :=
  let exit_code := status_code status in
  match stdout, stderr with
  | Some stdout, Some stderr =>
      stdout ← shell_stream "stdout" exit_code stdout;
      stderr ← shell_stream "stderr" exit_code stderr;
      if output_limit request <? saturating_add (len stdout) (len stderr)
      then Err (Message (bytes_of "sandbox output exceeds the sealed output ceiling") exit_code)
      else
        sandbox_result request status (json_streams (from_utf8_lossy stdout) (from_utf8_lossy stderr))
  | _, _ => Err (Message (bytes_of "sandbox output streams remained open after the command exited") exit_code)
  end.

Definition close_control (request : ShellExecution) : SysM unit := if se_control request then call ControlClose else mret tt.

Definition execute_shell_inner (fuel : nat) (request : ShellExecution) : SysM ExecutionResult :=
  now ← call WallMs;
  deadline_at_ms ← failing (execution_deadline_at now (se_target_expires_at_ms request) (se_timeout_ms request));
  cwd ← reported "could not clone sandbox cwd: " CloneCwd;
  process_id ← reported "could not start sandbox shell: " (Spawn (shell_command request cwd));
  _ ← (if se_control request then call ControlInstall else mret tt);
  _ ← call (StartReaders (output_limit request + 1));
  raced ← supervise fuel deadline_at_ms;
  match raced with
  | RacedCancelled => _ ← teardown fuel process_id (se_control request); prog_throw (Failed Cancelled)
  | RacedDeadline => _ ← teardown fuel process_id (se_control request); prog_throw (Failed Deadline)
  | RacedExit status =>
      status ← failing (map_err (fun e => failure_message (bytes_of "sandbox wait failed: " ++ e)) status);
      _ ← sweep_process_group fuel process_id;
      _ ← close_control request;
      stdout ← call (SettleStdout POST_CHILD_IO_TIMEOUT);
      stderr ← call (SettleStderr POST_CHILD_IO_TIMEOUT);
      failing (shell_result request status (settle_bounded_reader (output_limit request + 1) stdout)
                                           (settle_bounded_reader (output_limit request + 1) stderr))
  end.

(** ** One terminal projection *)
Definition failure (outcome : TerminalOutcome) (message : bytes) (exit_code : option Z) (duration_ms : Z) : ExecutionResult :=
  mkExecutionResult outcome (json_error message) true exit_code duration_ms.

Definition terminal_of (subject : string) (run : result Failure ExecutionResult) (duration_ms : Z) : ExecutionResult :=
  match run with
  | Ok r => mkExecutionResult (x_outcome r) (x_inline r) (x_is_error r) (x_exit_code r) duration_ms
  | Err Cancelled => failure OutcomeCancelled (bytes_of subject ++ bytes_of " was cancelled") None duration_ms
  | Err Deadline => failure DeadlineExceeded (bytes_of subject ++ bytes_of " exceeded its deadline") None duration_ms
  | Err (Message message exit_code) => failure OutcomeFailed message exit_code duration_ms
  end.

(** [None] is out of fuel. *)
Definition report (subject : string) (started : Z) (r : result Stop ExecutionResult) : Prog Sys (option ExecutionResult) :=
  match r with
  | Err OutOfFuel => Ret None
  | Ok r => Do MonoNow (fun now => Ret (Some (terminal_of subject (Ok r) (saturating_sub now started / 1000000))))
  | Err (Failed f) => Do MonoNow (fun now => Ret (Some (terminal_of subject (Err f) (saturating_sub now started / 1000000))))
  end.

Definition run_execution (subject : string) (run : SysM ExecutionResult) : Prog Sys (option ExecutionResult) :=
  Do MonoNow (fun started => prog_bind run (report subject started)).

Definition execute_bundle (fuel : nat) (request : BundleExecution) : Prog Sys (option ExecutionResult) :=
  run_execution "Tool execution" (execute_bundle_inner fuel request).
Definition execute_shell (fuel : nat) (request : ShellExecution) : Prog Sys (option ExecutionResult) :=
  run_execution "sandbox execution" (execute_shell_inner fuel request).
End executors.

(** ** Interactive input (InteractiveControl) *)
Inductive Locked := LockTimedOut | LockedEmpty | LockedOpen.

(** One deadline bounds every wait of a call; a write that fails or times out answers nothing. *)
Inductive Ctl : Type -> Type :=
  | LockStdin : Ctl Locked
  | PipeWrite (text : bytes) : Ctl (option Z)
  | TakeSlot : Ctl unit
  | FillSlot (stdin : bool) : Ctl unit
  | NotifyWaiters : Ctl unit
  | AwaitNotified : Ctl bool.

Section control.
Context (MAX_WRITE_STDIN_BYTES : Z).

Fixpoint send_loop (fuel : nat) (text : bytes) (eof : bool) : Prog Ctl (option bool) :=
  match fuel with
  | O => Ret None
  | S fuel =>
      Do LockStdin (fun locked =>
        match locked with
        | LockTimedOut => Ret (Some false)
        | LockedOpen =>
            let finish := if eof then Do TakeSlot (fun _ => Do NotifyWaiters (fun _ => Ret (Some true))) else Ret (Some true) in
            if bool_decide (text = []) then finish
            else Do (PipeWrite text) (fun written => if bool_decide (written = Some (len text)) then finish else Ret (Some false))
        | LockedEmpty => Do AwaitNotified (fun notified : bool => if notified then send_loop fuel text eof else Ret (Some false))
        end)
  end.

Definition send_atomic (fuel : nat) (text : bytes) (eof : bool) : Prog Ctl (option bool) :=
  if MAX_WRITE_STDIN_BYTES <? len text then Ret (Some false) else send_loop fuel text eof.
End control.

Definition control_install (stdin : bool) : Prog Ctl unit :=
  Do LockStdin (fun _ => Do (FillSlot stdin) (fun _ => Do NotifyWaiters (fun _ => Ret tt))).
Definition control_close : Prog Ctl unit :=
  Do LockStdin (fun _ => Do TakeSlot (fun _ => Do NotifyWaiters (fun _ => Ret tt))).

(** ** Lemmas *)
Definition anywhere (_ : list (Event Sys)) (_ : Event Sys) : Prop := True.
Notation after := (wpe anywhere).

(** *** Sweeping *)
Definition spawned (pid : Z) (e : Event Sys) : Prop := match e with Ev (Spawn _) (Ok p) => p = Some pid | _ => False end.
Definition killed (pid : Z) (e : Event Sys) : Prop := match e with Ev (Kill target SIGKILL) _ => target = - as_i32 pid | _ => False end.
(** What ends the reaping: no child of the group is left, or a second has passed. *)
Definition reaping_over (pid : Z) (e : Event Sys) : Prop :=
  match e with Ev (WaitPid target) WaitedError => target = - as_i32 pid | Ev MonoNow _ => True | _ => False end.

(** A SIGKILL of the group of a child already started, and the end of the reaping after it. *)
Definition swept (pid : Z) (h : list (Event Sys)) : Prop :=
  exists newer kill older, h = newer ++ kill :: older /\ killed pid kill /\ Exists (spawned pid) older /\ Exists (reaping_over pid) newer.

Definition wait_failed (e : Event Sys) : Prop := match e with Ev (Race _) (ReadyChild (Err _)) => True | _ => False end.
Definition stdin_missing (e : Event Sys) : Prop := match e with Ev TakeStdin false => True | _ => False end.
Definition accounted (h : list (Event Sys)) : Prop :=
  forall pid, Exists (spawned pid) h -> swept pid h \/ Exists wait_failed h \/ Exists stdin_missing h.

(** The children a history knows of. *)
Definition quiet (e : Event Sys) : Prop := forall pid, ~ spawned pid e.
Definition running (process_id : option Z) (h : list (Event Sys)) : Prop := forall pid, Exists (spawned pid) h <-> process_id = Some pid.

Lemma running_more process_id t h : Forall quiet t -> running process_id h -> running process_id (t ++ h).
Proof.
  intros Ht Hh pid. rewrite Exists_app, (Hh pid). split; [|by right]. intros [He|]; [|done].
  apply Exists_exists in He as (e & He & Hs). rewrite Forall_forall in Ht. by destruct (Ht e He pid).
Qed.

Lemma running_cons process_id e h : quiet e -> running process_id h -> running process_id (e :: h).
Proof. intros He. apply (running_more process_id [e]). by repeat constructor. Qed.

Lemma running_none_accounted h : running None h -> accounted h.
Proof. intros Hh pid Hp%Hh. done. Qed.

Lemma swept_accounted pid h : running (Some pid) h -> swept pid h -> accounted h.
Proof. intros Hh Hs p [= <-]%Hh. by left. Qed.

Lemma swept_cons pid e h : swept pid h -> swept pid (e :: h).
Proof.
  intros (n & k & o & -> & Hk & Ho & Hn). exists (e :: n), k, o. repeat (split; [done|]). by right.
Qed.

Lemma accounted_cons e h : quiet e -> accounted h -> accounted (e :: h).
Proof.
  intros He Hh pid [Hs|Hs]%Exists_cons; [by destruct (He pid)|].
  destruct (Hh pid Hs) as [Hk | [Hw|Hw]]; [left; by apply swept_cons | right; left; by right | right; right; by right].
Qed.

Create HintDb supervised.
#[export] Hint Extern 1 (quiet _) => (intros ?; cbn; tauto) : supervised.
#[export] Hint Resolve running_cons accounted_cons running_none_accounted : supervised.

(** The loop that reaps: it ends only when it may, and starts nothing. *)
Definition reaped (pid : Z) (h h' : list (Event Sys)) : Prop := exists t, h' = t ++ h /\ Exists (reaping_over pid) t /\ Forall quiet t.

Lemma reaped_step pid e h h' : reaped pid (e :: h) h' -> quiet e -> reaped pid h h'.
Proof.
  intros (t & -> & Ht & Hq) He. exists (t ++ [e]). rewrite <- app_assoc. split; [done|].
  split; [apply Exists_app; by left | apply Forall_app; split; [done | by repeat constructor]].
Qed.
#[export] Hint Resolve reaped_step : supervised.

Lemma reap_loop_over fuel deadline pid h : after (reap_loop fuel deadline pid) h (fun _ h' => reaped pid h h') (fun e _ => e = OutOfFuel).
Proof.
  revert h. induction fuel as [|fuel IH]; intros h; [done|]. cbn [reap_loop]. apply wpe_bind, wpe_call. intros w. split; [done|].
  destruct w.
  - eapply wpe_mono; [apply IH | cbv beta; eauto with supervised | done].
  - apply wpe_bind, wpe_call. intros now. split; [done|]. destruct (deadline <=? now).
    + apply wpe_ret. exists [Ev MonoNow now; Ev (WaitPid (- as_i32 pid)) WaitedNone]. split; [done|].
      split; [by left | repeat constructor; auto with supervised].
    + apply wpe_bind, wpe_call. intros []. split; [done|]. eapply wpe_mono; [apply IH | cbv beta; eauto 6 with supervised | done].
  - eapply wpe_mono; [apply IH | cbv beta; eauto with supervised | done].
  - apply wpe_ret. exists [Ev (WaitPid (- as_i32 pid)) WaitedError]. split; [done|]. split; [by left | repeat constructor; auto with supervised].
Qed.

Definition swept_now (pid : Z) (h : list (Event Sys)) : Prop := running (Some pid) h /\ swept pid h.

Lemma reap_swept fuel pid h t : running (Some pid) h -> Forall quiet t ->
  after (reap_process_group fuel pid) (t ++ Ev (Kill (- as_i32 pid) SIGKILL) tt :: h) (fun _ h' => swept_now pid h') (fun e _ => e = OutOfFuel).
Proof.
  intros Hh Ht. unfold reap_process_group. apply wpe_bind, wpe_call. intros now. split; [done|].
  eapply wpe_mono; [apply reap_loop_over | | done]. intros _ h' (t' & -> & He & Hq). split.
  - apply running_more, running_cons, running_more; auto with supervised.
  - exists (t' ++ Ev MonoNow now :: t), (Ev (Kill (- as_i32 pid) SIGKILL) tt), h. rewrite <- app_assoc.
    repeat (split; [done|]). split; [by apply Hh | apply Exists_app; by left].
Qed.

Lemma sweep_swept fuel pid h : running (Some pid) h ->
  after (sweep_process_group fuel (Some pid)) h (fun _ h' => swept_now pid h') (fun e _ => e = OutOfFuel).
Proof. intros Hh. apply wpe_bind, wpe_call. intros []. split; [done|]. by apply (reap_swept fuel pid h []). Qed.

Lemma teardown_swept fuel pid control h : running (Some pid) h ->
  after (teardown fuel (Some pid) control) h (fun _ h' => swept_now pid h') (fun e _ => e = OutOfFuel).
Proof.
  intros Hh. unfold teardown, terminate_process_group. apply wpe_bind.
  apply (wpe_mono _ _ _ (fun _ h' => swept_now pid h') _ (fun e _ => e = OutOfFuel) _); [| |done].
  - apply wpe_bind, wpe_call. intros []. split; [done|]. apply wpe_bind, wpe_call. intros leader_reaped. split; [done|].
    apply wpe_bind, wpe_call. intros []. split; [done|].
    assert (Hr : running (Some pid) (Ev (WaitFor 2000) leader_reaped :: Ev (Kill (- as_i32 pid) SIGTERM) tt :: h)) by auto with supervised.
    apply wpe_bind. destruct leader_reaped; cbn [negb]; [by apply (reap_swept fuel pid _ [])|].
    apply wpe_call. intros []. split; [done|]. apply (reap_swept fuel pid _ [_]); [done | repeat constructor; auto with supervised].
  - intros [] h' [Hr Hs]. apply wpe_bind, wpe_call. intros []. split; [done|].
    destruct control; [apply wpe_call; intros []; split; [done|] | apply wpe_ret]; split; auto using swept_cons with supervised.
Qed.

(** A child's end, whether it is known by a process id or not. *)
Lemma sweep_accounted fuel process_id h : running process_id h ->
  after (sweep_process_group fuel process_id) h (fun _ h' => accounted h') (fun e _ => e = OutOfFuel).
Proof.
  intros Hh. destruct process_id as [pid|]; [|apply wpe_ret; auto with supervised].
  eapply wpe_mono; [by apply sweep_swept | | done]. intros _ h' [Hr Hs]. by eapply swept_accounted.
Qed.

Lemma teardown_accounted fuel process_id control h : running process_id h ->
  after (teardown fuel process_id control) h (fun _ h' => accounted h') (fun e _ => e = OutOfFuel).
Proof.
  intros Hh. destruct process_id as [pid|].
  - eapply wpe_mono; [by apply teardown_swept | | done]. intros _ h' [Hr Hs]. by eapply swept_accounted.
  - apply wpe_bind, wpe_call. intros []. split; [done|]. apply wpe_bind, wpe_call. intros []. split; [done|].
    destruct control; [apply wpe_call; intros []; split; [done|] | apply wpe_ret]; auto with supervised.
Qed.

(** *** Supervising *)
Definition reached (deadline : Z) (e : Event Sys) : Prop := match e with Ev WallMs now => deadline <= now | _ => False end.
Definition cancel_seen (e : Event Sys) : Prop := match e with Ev (Race _) ReadyCancelled => True | _ => False end.

Definition raced_after (deadline : Z) (r : Raced) (t : list (Event Sys)) : Prop :=
  Forall quiet t /\
  match r with
  | RacedExit (Ok _) => True
  | RacedExit (Err _) => Exists wait_failed t
  | RacedCancelled => Exists cancel_seen t
  | RacedDeadline => Exists (reached deadline) t
  end.

Lemma supervise_raced fuel deadline h :
  after (supervise fuel deadline) h (fun r h' => exists t, h' = t ++ h /\ raced_after deadline r t) (fun e _ => e = OutOfFuel).
Proof.
  revert h. induction fuel as [|fuel IH]; intros h; [done|]. cbn [supervise]. apply wpe_bind, wpe_call. intros now. split; [done|].
  apply wpe_bind, wpe_call. intros ready. split; [done|].
  set (r := Ev (Race _) ready). assert (Hq : Forall quiet [r; Ev WallMs now]) by (repeat constructor; auto with supervised).
  destruct ready as [status| |].
  - apply wpe_ret. exists [r; Ev WallMs now]. split; [done|]. split; [done|]. destruct status; [done | by left].
  - apply wpe_ret. exists [r; Ev WallMs now]. split; [done|]. split; [done | by left].
  - destruct (Z.eqb_spec (saturating_sub deadline now) 0) as [Hd|].
    + apply wpe_ret. exists [r; Ev WallMs now]. split; [done|]. split; [done|]. right. left. cbn. unfold saturating_sub in Hd. lia.
    + eapply wpe_mono; [apply IH | | done]. intros raced h' (t & -> & Ht & Hr). exists (t ++ [r; Ev WallMs now]).
      rewrite <- app_assoc. split; [done|]. split; [by apply Forall_app|].
      destruct raced as [[]| |]; try done; apply Exists_app; by left.
Qed.

(** *** The executors *)
Lemma running_spawned process_id c h : running None h -> running process_id (Ev (Spawn c) (Ok process_id) :: h).
Proof. intros Hh pid. rewrite Exists_cons, (Hh pid). cbn. naive_solver. Qed.

Lemma accounted_not_spawned c e h : running None h -> accounted (Ev (Spawn c) (Err e) :: h).
Proof. intros Hh. apply running_none_accounted, running_cons; [|done]. intros pid. cbn. tauto. Qed.

Lemma accounted_more t h : Forall quiet t -> accounted h -> accounted (t ++ h).
Proof. induction 1; [done|]. intros Hh. apply accounted_cons; auto. Qed.

Lemma wait_failed_accounted t h : Exists wait_failed t -> accounted (t ++ h).
Proof. intros Ht pid _. right. left. apply Exists_app. by left. Qed.

Definition stopped (e : Stop) (h : list (Event Sys)) : Prop := e = OutOfFuel \/ accounted h.
#[export] Hint Unfold stopped : supervised.

(** A call that cannot fail and starts nothing keeps what is known of the children. *)
Lemma after_quiet {A X} process_id (c : Sys X) (k : X -> SysM A) h Q :
  (forall x, quiet (Ev c x)) -> running process_id h ->
  (forall x h', running process_id h' -> after (k x) h' Q stopped) -> after (call c ≫= k) h Q stopped.
Proof. intros Hc Hh Hk. apply wpe_bind, wpe_call. intros x. split; [done|]. apply Hk. by apply running_cons. Qed.

Lemma after_accounted {A X} (c : Sys X) (k : X -> SysM A) h Q :
  (forall x, quiet (Ev c x)) -> accounted h -> (forall x h', accounted h' -> after (k x) h' Q stopped) -> after (call c ≫= k) h Q stopped.
Proof. intros Hc Hh Hk. apply wpe_bind, wpe_call. intros x. split; [done|]. apply Hk. by apply accounted_cons. Qed.

(** What must happen before anything is started. *)
Lemma after_failing {A B} (r : result Failure A) (k : A -> SysM B) h Q :
  accounted h -> (forall a, r = Ok a -> after (k a) h Q stopped) -> after (failing r ≫= k) h Q stopped.
Proof.
  intros Hh Hk. apply wpe_bind, wpe_lift; [|auto with supervised]. intros a Ha. apply Hk. destruct r; cbn in Ha; congruence.
Qed.

Lemma after_reported {A B} prefix (c : Sys (result bytes A)) (k : A -> SysM B) h Q :
  (forall x, quiet (Ev c x)) -> running None h ->
  (forall a h', running None h' -> after (k a) h' Q stopped) -> after (reported prefix c ≫= k) h Q stopped.
Proof.
  intros Hc Hh Hk. apply wpe_bind, wpe_try. intros [a|e]; (split; [done|]); [apply Hk | right]; auto with supervised.
Qed.

Lemma after_spawn {B} prefix c (k : option Z -> SysM B) h Q :
  running None h -> (forall p h', running p h' -> after (k p) h' Q stopped) -> after (reported prefix (Spawn c) ≫= k) h Q stopped.
Proof.
  intros Hh Hk. apply wpe_bind, wpe_try. intros [p|e]; (split; [done|]).
  - apply Hk. by apply running_spawned.
  - right. by apply accounted_not_spawned.
Qed.

(** The end every executor shares: race, then tear down or sweep and settle. *)
Lemma after_race {B} fuel deadline process_id control (k : ExitStatus -> SysM B) prefix h Q :
  running process_id h -> (forall status h', accounted h' -> after (k status) h' Q stopped) ->
  after (raced ← supervise fuel deadline;
         match raced with
         | RacedCancelled => _ ← teardown fuel process_id control; prog_throw (Failed Cancelled)
         | RacedDeadline => _ ← teardown fuel process_id control; prog_throw (Failed Deadline)
         | RacedExit status =>
             status ← failing (map_err prefix status);
             _ ← sweep_process_group fuel process_id;
             k status
         end) h Q stopped.
Proof.
  intros Hh Hk. apply wpe_bind. eapply wpe_mono; [apply supervise_raced | cbv beta | by left].
  intros raced h' (t & -> & Hq & Hr). assert (Hrun : running process_id (t ++ h)) by by apply running_more.
  assert (Hdown : forall f, after (_ ← teardown fuel process_id control; prog_throw (Failed f) : SysM B) (t ++ h) Q stopped).
  { intros f. apply wpe_bind. eapply wpe_mono; [by apply teardown_accounted | cbv beta | by left]. intros _ h'' Ha. by right. }
  destruct raced as [[status|e]| |]; [|right; by apply wait_failed_accounted|apply Hdown|apply Hdown].
  apply wpe_bind, wpe_ret, wpe_bind. eapply wpe_mono; [by apply sweep_accounted | cbv beta | by left]. intros _ h'' Ha. by apply Hk.
Qed.

Section theorems.
Context {R Json : Type} (json_null : Json) (json_error : bytes -> Json) (json_streams : bytes -> bytes -> Json).
Context (json_inline : Json) `{EqDecision Json}.
Context (MAX_INLINE MAX_INPUT : Z) (inline_bytes : Json -> option Z) (tool_name : R -> string) (description : R -> option string).
Context (jcs_input : @ManagedInput Json -> option bytes) (encode : @RunnerRequest Json -> result bytes bytes).
Context (decode : bytes -> result bytes (@RunnerResult Json)).

Local Notation bundle_inner :=
  (execute_bundle_inner json_null json_inline MAX_INLINE MAX_INPUT inline_bytes tool_name description jcs_input encode decode).
Local Notation bundle :=
  (execute_bundle json_null json_error json_inline MAX_INLINE MAX_INPUT inline_bytes tool_name description jcs_input encode decode).
Local Notation shell_inner := (execute_shell_inner json_streams MAX_INLINE inline_bytes).
Local Notation shell := (execute_shell json_error json_streams MAX_INLINE inline_bytes).

Lemma shell_accounted fuel request h : running None h -> after (shell_inner fuel request) h (fun _ h' => accounted h') stopped.
Proof.
  intros Hh. unfold execute_shell_inner. apply (after_quiet None); [auto with supervised | done|]. intros now h1 H1.
  apply after_failing; [auto with supervised|]. intros deadline _.
  apply after_reported; [auto with supervised | done|]. intros cwd h2 H2.
  apply after_spawn; [done|]. intros process_id h3 H3. apply wpe_bind.
  apply (wpe_mono _ _ _ (fun _ h' => running process_id h') _ stopped _); [|cbv beta|done].
  { destruct (se_control request); [apply wpe_call; intros []; split; [done|] | apply wpe_ret]; auto with supervised. }
  intros _ h4 H4. apply (after_quiet process_id); [auto with supervised | done|]. intros _ h5 H5.
  apply after_race; [done|]. intros status h6 H6. apply wpe_bind.
  apply (wpe_mono _ _ _ (fun _ h' => accounted h') _ stopped _); [|cbv beta|done].
  { unfold close_control. destruct (se_control request); [apply wpe_call; intros []; split; [done|] | apply wpe_ret]; auto with supervised. }
  intros _ h7 H7. do 2 (apply after_accounted; [auto with supervised | done|]; clear H7; intros ? ? H7).
  apply wpe_lift; [done | by right].
Qed.

Lemma bundle_accounted fuel request h : running None h -> after (bundle_inner fuel request) h (fun _ h' => accounted h') stopped.
Proof.
  intros Hh. unfold execute_bundle_inner. apply wpe_bind.
  apply (wpe_mono _ _ _ (fun _ h' => running None h') _ stopped _); [|cbv beta|done].
  { unfold prepare_bundle. destruct (negb _); [right; auto with supervised|]. apply wpe_bind, wpe_lift; [|auto with supervised].
    intros canonical _. destruct (_ <? _); [right; auto with supervised|].
    apply wpe_bind, wpe_call. intros now. split; [done|]. assert (H1 : running None (Ev WallMs now :: h)) by auto with supervised.
    apply wpe_bind, wpe_lift; [intros deadline _ | auto with supervised].
    apply wpe_bind, wpe_lift; [intros text _ | auto with supervised]. destruct (_ <? _); [right; auto with supervised | done]. }
  intros [deadline request_bytes] h1 H1.
  do 3 (apply after_reported; [auto with supervised | done|]; clear H1; intros ? ? H1).
  apply after_spawn; [done|]. intros process_id h2 H2. apply wpe_bind, wpe_call. intros stdin. split; [done|].
  destruct stdin; [|apply wpe_bind; right; intros pid _; by do 2 right; left].
  apply (running_cons _ (Ev TakeStdin true)) in H2; [|auto with supervised]. apply wpe_bind, wpe_ret.
  do 3 (apply (after_quiet process_id); [auto with supervised | done|]; clear H2; intros ? ? H2).
  apply (after_race _ _ _ false (fun status => _)); [done|]. intros status h3 H3.
  do 4 (apply after_accounted; [auto with supervised | done|]; clear H3; intros ? ? H3).
  apply wpe_lift; [done | by right].
Qed.


(** *** Results *)
Lemma run_execution_Some subject (inner : SysM (@ExecutionResult Json TerminalOutcome)) tr r :
  runs (run_execution json_error subject inner) tr (Some r) ->
  exists started t now d f, tr = Ev MonoNow started :: t ++ [Ev MonoNow now] /\ r = terminal_of json_error subject f d
    /\ runs inner t (map_err Failed f).
Proof.
  intros (started & t & -> & Hr). apply runs_bind in Hr as (res & t1 & t2 & -> & Hi & Hr).
  destruct res as [x|[f|]]; [| |by destruct Hr]; destruct Hr as (now & t3 & -> & -> & [= ->]);
    [exists started, t1, now, (saturating_sub now started / 1000000), (Ok x) | exists started, t1, now, (saturating_sub now started / 1000000), (Err f)]; done.
Qed.

Lemma terminal_completed subject f d :
  x_outcome (terminal_of json_error subject f d) = Completed ->
  exists x, f = Ok x /\ x_outcome x = Completed /\ x_inline (terminal_of json_error subject f d) = x_inline x
    /\ x_exit_code (terminal_of json_error subject f d) = x_exit_code x /\ x_is_error (terminal_of json_error subject f d) = x_is_error x.
Proof. destruct f as [x | [ | | message code]]; cbn; [|done|done|done]. intros Hx. by exists x. Qed.

Lemma runs_failing_Ok {A} (r : result Failure A) tr a : runs (failing r) tr (Ok a) <-> tr = [] /\ r = Ok a.
Proof. unfold failing. rewrite runs_lift_Ok. destruct r; cbn; split; intros [-> Hr]; (split; [done|]); congruence. Qed.

(** A run that gives a value took the exit branch of the race. *)
Lemma raced_Ok {B} fuel deadline process_id control prefix (k : ExitStatus -> SysM B) tr b :
  runs (raced ← supervise fuel deadline;
        match raced with
        | RacedCancelled => _ ← teardown fuel process_id control; prog_throw (Failed Cancelled)
        | RacedDeadline => _ ← teardown fuel process_id control; prog_throw (Failed Deadline)
        | RacedExit status =>
            status ← failing (map_err prefix status);
            _ ← sweep_process_group fuel process_id;
            k status
        end) tr (Ok b) ->
  exists status t1 t2, tr = t1 ++ t2 /\ runs (k status) t2 (Ok b).
Proof.
  intros ([status| |] & t1 & t2 & -> & _ & Hr)%runs_mbind_Ok.
  - apply runs_mbind_Ok in Hr as (st & t3 & t4 & -> & _ & Hr). apply runs_mbind_Ok in Hr as ([] & t5 & t6 & -> & _ & Hr).
    exists st, (t1 ++ t3 ++ t5), t6. by rewrite <- !app_assoc.
  - apply runs_mbind_Ok in Hr as ([] & t3 & t4 & -> & _ & Hr). by destruct Hr.
  - apply runs_mbind_Ok in Hr as ([] & t3 & t4 & -> & _ & Hr). by destruct Hr.
Qed.

(** All a reader delivered, without a failure. *)
Definition whole (reader : option Stream) (text : bytes) : Prop :=
  match reader with Some s => st_bytes s = text /\ st_error s = None | None => text = [] end.

Lemma read_bounded_whole reader limit text : read_bounded reader (limit + 1) = Ok text -> 0 <= limit -> len text <= limit -> whole reader text.
Proof.
  unfold read_bounded, whole. destruct reader as [s|]; [|by intros [= <-]]. unfold len.
  destruct (Z.leb_spec (limit + 1) (Z.of_nat (length (st_bytes s)))); [|destruct (st_error s); [done|]; by intros [= <-]].
  intros [= <-]. rewrite length_take. lia.
Qed.

Lemma enforce_inline_bound_Ok value sealed executor u :
  enforce_inline_bound MAX_INLINE inline_bytes value sealed executor = Ok u -> exists n, inline_bytes value = Some n /\ n <= Z.min sealed MAX_INLINE.
Proof.
  unfold enforce_inline_bound. destruct (inline_bytes value) as [n|]; cbn; [|done].
  destruct (Z.ltb_spec (Z.min sealed MAX_INLINE) n); [done|]. intros _. by exists n.
Qed.

Lemma shell_result_Ok request status out err x :
  shell_result json_streams MAX_INLINE inline_bytes request status out err = Ok x ->
  exists stdout stderr n, out = Some (Ok stdout) /\ err = Some (Ok stderr)
    /\ saturating_add (len stdout) (len stderr) <= output_limit MAX_INLINE request
    /\ x_inline x = json_streams (from_utf8_lossy stdout) (from_utf8_lossy stderr)
    /\ inline_bytes (x_inline x) = Some n /\ n <= output_limit MAX_INLINE request
    /\ x_exit_code x = status_code status /\ x_is_error x = negb (status_success status)
    /\ x_outcome x = (if status_success status then Completed else OutcomeFailed).
Proof.
  unfold shell_result. destruct out as [[stdout|]|], err as [[stderr|]|]; try done. cbn.
  destruct (Z.ltb_spec (output_limit MAX_INLINE request) (saturating_add (len stdout) (len stderr))); [done|].
  unfold sandbox_result. destruct (enforce_inline_bound _ _ _ _ _) as [u|] eqn:E; cbn; [|done]. intros [= <-]. cbn.
  apply enforce_inline_bound_Ok in E as (n & Hn & Hle). exists stdout, stderr, n. repeat (split; [done || lia|]). done.
Qed.

(** C19: a shell result is never silently truncated. When a sandbox execution is reported as completed, its exit code
    is 0 and its inline value is made of everything its two streams delivered until both ended without an error, the
    two fit the sealed output limit together, and so does the canonical form of the value. *)
Theorem shell_output_is_whole fuel request tr r :
  0 <= output_limit MAX_INLINE request < U64_MAX ->
  runs (shell fuel request) tr (Some r) -> x_outcome r = Completed ->
  exists out err stdout stderr n,
    Ev (SettleStdout POST_CHILD_IO_TIMEOUT) (SettledDone out) ∈ tr /\ Ev (SettleStderr POST_CHILD_IO_TIMEOUT) (SettledDone err) ∈ tr
    /\ whole out stdout /\ whole err stderr
    /\ x_inline r = json_streams (from_utf8_lossy stdout) (from_utf8_lossy stderr)
    /\ len stdout + len stderr <= output_limit MAX_INLINE request
    /\ inline_bytes (x_inline r) = Some n /\ n <= output_limit MAX_INLINE request
    /\ x_exit_code r = Some 0 /\ x_is_error r = false.
Proof.
  clear decode json_inline.
  intros Hl (started & t & now & d & f & -> & -> & Hi)%run_execution_Some (x & -> & Hx & -> & -> & ->)%terminal_completed.
  unfold execute_shell_inner in Hi. apply runs_mbind_Ok in Hi as (wall & ? & t1 & -> & _ & Hi).
  do 5 (apply runs_mbind_Ok in Hi as (? & ? & ? & -> & _ & Hi)).
  apply raced_Ok in Hi as (status & t2 & t3 & -> & Hi). apply runs_mbind_Ok in Hi as ([] & t4 & t5 & -> & _ & Hi).
  apply runs_mbind_Ok in Hi as (out & ? & t6 & -> & ->%runs_call_Ok & Hi).
  apply runs_mbind_Ok in Hi as (err & ? & t7 & -> & ->%runs_call_Ok & Hi). apply runs_failing_Ok in Hi as [-> Hi].
  apply shell_result_Ok in Hi as (stdout & stderr & n & Ho & He & Hsum & Hin & Hn & Hle & Hcode & Herr & Hout).
  unfold settle_bounded_reader in Ho, He. destruct out as [out| |]; [|done|done]. destruct err as [err| |]; [|done|done].
  injection Ho as Ho. injection He as He. rewrite Hx in Hout. destruct (status_success status) eqn:Hs; [|done].
  unfold saturating_add in Hsum. pose proof (Nat2Z.is_nonneg (length stdout)). pose proof (Nat2Z.is_nonneg (length stderr)).
  assert (Hsum' : len stdout + len stderr <= output_limit MAX_INLINE request) by (unfold len in *; lia).
  exists out, err, stdout, stderr, n. split; [set_solver|]. split; [set_solver|].
  split; [eapply read_bounded_whole; [exact Ho | lia | unfold len in *; lia]|].
  split; [eapply read_bounded_whole; [exact He | lia | unfold len in *; lia]|].
  repeat (split; [done|]). rewrite Hcode, Herr. split; [by apply bool_decide_eq_true in Hs | done].
Qed.

Lemma read_framed_result_Ok stream max frame :
  read_framed_result stream max = Ok frame ->
  exists header rest, stream = header ++ frame ++ rest /\ length header = 4%nat /\ be_u32 header = len frame /\ 0 < len frame <= max.
Proof.
  unfold read_framed_result. destruct (Nat.ltb_spec (length stream) 4) as [|Hs]; [done|].
  destruct (Z.eqb_spec (be_u32 (take 4 stream)) 0) as [|Hz]; [done|]. cbn [orb].
  destruct (Z.ltb_spec max (be_u32 (take 4 stream))) as [|Hm]; [done|]. unfold len.
  destruct (Z.ltb_spec (Z.of_nat (length (drop 4 stream))) (be_u32 (take 4 stream))) as [|Hl]; [done|]. intros [= <-].
  set (n := be_u32 (take 4 stream)) in *.
  assert (Hpos : 0 <= n).
  { unfold n, be_u32. assert (Hgen : forall l a, 0 <= a -> 0 <= fold_left (fun n c => n * 256 + byte_val c) l a).
    { induction l as [|c l IH]; intros a Ha; cbn; [done|]. apply IH. pose proof (byte_val_range c). lia. }
    by apply Hgen. }
  exists (take 4 stream), (drop (Z.to_nat n) (drop 4 stream)). rewrite take_drop, take_drop. split; [done|].
  rewrite !length_take. split; [lia|]. split; lia.
Qed.

(** A Tool's result is exactly the frame it wrote. When a managed Tool is reported as completed, the result stream
    began with the four-byte big-endian length of a non-empty frame within the limit, the frame decodes to a success,
    the process exited with 0, and the inline value is the output of that frame, within the sealed and the global
    bound; what the Tool printed has no part in it. *)
Theorem tool_output_is_its_frame fuel request tr r :
  runs (bundle fuel request) tr (Some r) -> x_outcome r = Completed ->
  exists stream header frame rest runner n,
    Ev (SettleResult POST_CHILD_IO_TIMEOUT) (SettledDone stream) ∈ tr /\ stream = header ++ frame ++ rest
    /\ length header = 4%nat /\ be_u32 header = len frame
    /\ 0 < len frame <= saturating_add (rc_max_output_bytes (be_resources request)) RESULT_ENVELOPE_HEADROOM_BYTES
    /\ decode frame = Ok runner /\ rn_ok runner = true /\ x_inline r = default json_null (rn_output runner)
    /\ inline_bytes (x_inline r) = Some n /\ n <= Z.min (rc_max_output_bytes (be_resources request)) MAX_INLINE
    /\ x_exit_code r = Some 0 /\ x_is_error r = false.
Proof.
  clear json_streams.
  intros (started & t & now & d & f & -> & -> & Hi)%run_execution_Some (x & -> & Hx & -> & -> & ->)%terminal_completed.
  unfold execute_bundle_inner in Hi. apply runs_mbind_Ok in Hi as ([deadline text] & ? & t1 & -> & _ & Hi).
  do 9 (apply runs_mbind_Ok in Hi as (? & ? & ? & -> & _ & Hi)).
  apply (raced_Ok _ _ _ false _ (fun status => _)) in Hi as (status & t2 & t3 & -> & Hi).
  apply runs_mbind_Ok in Hi as (? & t4 & t5 & -> & _ & Hi). apply runs_mbind_Ok in Hi as (settled & ? & t6 & -> & ->%runs_call_Ok & Hi).
  do 2 (apply runs_mbind_Ok in Hi as (? & ? & ? & -> & _ & Hi)). apply runs_failing_Ok in Hi as [-> Hi].
  unfold bundle_result in Hi. destruct settled as [stream| |]; [|done|done]. cbn [settle_result_reader] in Hi.
  destruct (read_framed_result _ _) as [frame|] eqn:Hf; [|done]. cbn in Hi. destruct (decode frame) as [runner|] eqn:Hd; [|done]. cbn in Hi.
  destruct (rn_ok runner && status_success status) eqn:Hok; [|done]. apply andb_true_iff in Hok as [Hrn Hs%bool_decide_eq_true].
  unfold tool_result in Hi. destruct (enforce_inline_bound _ _ _ _ _) as [u|] eqn:He; cbn in Hi; [|done]. injection Hi as <-. cbn.
  apply enforce_inline_bound_Ok in He as (n & Hn & Hle). apply read_framed_result_Ok in Hf as (header & rest & -> & Hh & Hb & Hlen).
  exists (header ++ frame ++ rest), header, frame, rest, runner, n. split; [set_solver|]. repeat (split; [done|]). done.
Qed.
End theorems.

(** *** Termination *)

(** A machine: its clocks never go back and advance by what is slept, and the reaping of a group ends, because its
    processes and the interruptions of the supervisor are bounded. *)
Class Machine (W : Type) (answer : forall X, Sys X -> W -> X * W) := {
  wall : W -> Z; mono : W -> Z; members : W -> nat; most_members : nat;
  wall_now w : (answer _ WallMs w).1 = wall w;
  mono_now w : (answer _ MonoNow w).1 = mono w;
  wall_forward X (c : Sys X) w : wall w <= wall (answer _ c w).2;
  mono_forward X (c : Sys X) w : mono w <= mono (answer _ c w).2;
  wall_slept s w : (answer _ (Race s) w).1 = ReadyTimer -> wall w + s <= wall (answer _ (Race s) w).2;
  mono_slept d w : mono w + d * 1000000 <= mono (answer _ (Sleep d) w).2;
  members_bound w : (members w <= most_members)%nat;
  members_reaped t w : ((answer _ (WaitPid t) w).1 = WaitedChild \/ (answer _ (WaitPid t) w).1 = WaitedInterrupted) ->
    (members (answer _ (WaitPid t) w).2 < members w)%nat;
  members_waited X (c : Sys X) w : (match c with WaitPid _ | MonoNow | Sleep _ => True | _ => False end) ->
    (members (answer _ c w).2 <= members w)%nat }.

Section termination.
Context {W : Type} (answer : forall X, Sys X -> W -> X * W) `{!Machine W answer}.

Definition ends {A} (p : SysM A) (w : W) : Prop := (exec answer p w).1.1 <> Err OutOfFuel.

Lemma exec_forward {A} (p : Prog Sys A) w : wall w <= wall (exec answer p w).2.
Proof.
  revert w. induction p as [a | X c k IH]; intros w; cbn; [done|].
  pose proof (wall_forward X c w) as Hc. destruct (answer X c w) as [x w1]. specialize (IH x w1).
  destruct (exec answer (k x) w1) as [[a t] w2]. cbn in *. lia.
Qed.

Lemma ends_bind_result {A B} (m : SysM A) (f : A -> SysM B) w :
  ends m w -> (forall a w', (exec answer m w).1.1 = Ok a -> wall w <= wall w' -> ends (f a) w') -> ends (m ≫= f) w.
Proof.
  unfold ends, mbind, ProgM_bind. intros Hm Hf. rewrite exec_bind.
  pose proof (exec_forward m w). destruct (exec answer m w) as [[[a|e] t] w']; cbn in *; [by apply Hf | intros [= ->]; by apply Hm].
Qed.

Lemma ends_bind {A B} (m : SysM A) (f : A -> SysM B) w :
  ends m w -> (forall a w', wall w <= wall w' -> ends (f a) w') -> ends (m ≫= f) w.
Proof. intros Hm Hf. apply ends_bind_result; [done|]. intros a w' _. by apply Hf. Qed.

Lemma ends_do {A X} (c : Sys X) (k : X -> SysM A) w :
  ends (k (answer _ c w).1) (answer _ c w).2 -> ends (call c ≫= k) w.
Proof.
  unfold ends, mbind, ProgM_bind, call. cbn [prog_bind]. by rewrite exec_do.
Qed.

Lemma ends_call {X} (c : Sys X) w : ends (call c) w.
Proof. unfold ends, call. cbn. by destruct (answer X c w). Qed.
Lemma ends_ret {A} (a : A) w : ends (mret a) w.
Proof. done. Qed.
Lemma ends_failing {A} (r : result Failure A) w : ends (failing r) w.
Proof. unfold ends, failing. cbn. by destruct r. Qed.
Lemma ends_reported {A} prefix (c : Sys (result bytes A)) w : ends (reported prefix c) w.
Proof. unfold ends, reported, try_call. cbn. destruct (answer _ c w) as [x w']. cbn. by destruct x. Qed.

Lemma supervise_ends fuel deadline w : (0 < fuel)%nat -> deadline - wall w <= 1000 * (Z.of_nat fuel - 1) -> ends (supervise fuel deadline) w.
Proof.
  revert w. induction fuel as [|fuel IH]; intros w Hf Hd; [lia|]. cbn [supervise]. apply ends_do. rewrite wall_now.
  pose proof (wall_forward _ WallMs w) as Hw. set (w1 := (answer _ WallMs w).2) in *. apply ends_do.
  set (remaining := saturating_sub deadline (wall w)). pose proof (wall_slept (Z.min remaining 1000) w1) as Hs.
  destruct (answer _ (Race (Z.min remaining 1000)) w1) as [ready w2]. cbn in *. destruct ready; [done | done|]. specialize (Hs eq_refl).
  destruct (Z.eqb_spec remaining 0) as [|Hr]; [done|]. unfold remaining, saturating_sub in *. apply IH; lia.
Qed.

Lemma reap_loop_ends fuel deadline pid w (sleeps : nat) :
  deadline - mono w <= 5000000 * Z.of_nat sleeps -> (members w + sleeps < fuel)%nat -> ends (reap_loop fuel deadline pid) w.
Proof.
  revert w sleeps. induction fuel as [|fuel IH]; intros w sleeps Hd Hf; [lia|]. cbn [reap_loop]. apply ends_do.
  set (c := WaitPid (- as_i32 pid)). pose proof (members_reaped (- as_i32 pid) w) as Hr. fold c in Hr.
  pose proof (members_waited _ c w I) as Hm. pose proof (mono_forward _ c w) as Hw.
  destruct (answer _ c w) as [waited w1]. cbn in *. destruct waited; [| | |done].
  - apply (IH _ sleeps); [lia|]. specialize (Hr (or_introl eq_refl)). lia.
  - apply ends_do. rewrite mono_now. pose proof (members_waited _ MonoNow w1 I). pose proof (mono_forward _ MonoNow w1).
    destruct (answer _ MonoNow w1) as [now w2]. cbn in *. destruct (Z.leb_spec deadline (mono w1)); [done|]. apply ends_do.
    pose proof (members_waited _ (Sleep 5) w2 I). pose proof (mono_slept 5 w2). destruct (answer _ (Sleep 5) w2) as [[] w3]. cbn in *.
    apply (IH _ (pred sleeps)); lia.
  - apply (IH _ sleeps); [lia|]. specialize (Hr (or_intror eq_refl)). lia.
Qed.

(** At most 200 naps of 5 ms in a second. *)
Definition reap_fuel : nat := S (most_members + 200).

Lemma reap_ends fuel pid w : (reap_fuel <= fuel)%nat -> ends (reap_process_group fuel pid) w.
Proof.
  intros Hf. unfold reap_process_group. apply ends_do. rewrite mono_now. pose proof (mono_forward _ MonoNow w).
  set (w1 := (answer _ MonoNow w).2) in *. pose proof (members_bound w1). apply (reap_loop_ends _ _ _ _ 200); [lia|]. unfold reap_fuel in Hf. lia.
Qed.

Lemma sweep_ends fuel process_id w : (reap_fuel <= fuel)%nat -> ends (sweep_process_group fuel process_id) w.
Proof. intros Hf. destruct process_id; [|done]. apply ends_do. by apply reap_ends. Qed.

Lemma teardown_ends fuel process_id control w : (reap_fuel <= fuel)%nat -> ends (teardown fuel process_id control) w.
Proof.
  intros Hf. apply ends_bind.
  - destruct process_id; [|apply ends_call]. do 3 apply ends_do. apply ends_bind; [|intros; by apply reap_ends].
    destruct (negb _); [apply ends_call | apply ends_ret].
  - intros _ w' _. apply ends_do. destruct control; [apply ends_call | apply ends_ret].
Qed.

Lemma race_ends {B} fuel deadline process_id control prefix (k : ExitStatus -> SysM B) w :
  (reap_fuel <= fuel)%nat -> deadline - wall w <= 1000 * (Z.of_nat fuel - 1) -> (forall status w', ends (k status) w') ->
  ends (raced ← supervise fuel deadline;
        match raced with
        | RacedCancelled => _ ← teardown fuel process_id control; prog_throw (Failed Cancelled)
        | RacedDeadline => _ ← teardown fuel process_id control; prog_throw (Failed Deadline)
        | RacedExit status =>
            status ← failing (map_err prefix status);
            _ ← sweep_process_group fuel process_id;
            k status
        end) w.
Proof.
  intros Hf Hd Hk. apply ends_bind; [apply supervise_ends; [unfold reap_fuel in Hf; lia | done]|]. intros raced w' _.
  destruct raced as [status| |]; (apply ends_bind; [|intros ? ? _]);
    [apply ends_failing | apply ends_bind; [by apply sweep_ends | intros _ ? _; apply Hk] | by apply teardown_ends | done | by apply teardown_ends | done].
Qed.
(** **** The executors end *)
Context {R Json : Type} (json_null : Json) (json_error : bytes -> Json) (json_streams : bytes -> bytes -> Json).
Context (json_inline : Json) `{EqDecision Json}.
Context (MAX_INLINE MAX_INPUT : Z) (inline_bytes : Json -> option Z) (tool_name : R -> string) (description : R -> option string).
Context (jcs_input : @ManagedInput Json -> option bytes) (encode : @RunnerRequest Json -> result bytes bytes).
Context (decode : bytes -> result bytes (@RunnerResult Json)).

Local Notation bundle :=
  (execute_bundle json_null json_error json_inline MAX_INLINE MAX_INPUT inline_bytes tool_name description jcs_input encode decode).
Local Notation shell := (execute_shell json_error json_streams MAX_INLINE inline_bytes).

Lemma deadline_near now absolute timeout deadline : execution_deadline_at now absolute timeout = Ok deadline -> deadline - now <= timeout.
Proof. unfold execution_deadline_at, saturating_add. destruct (_ <=? now); [done|]. intros [= <-]. lia. Qed.

Lemma ends_deadline {A} now absolute timeout (k : Z -> SysM A) w :
  (forall deadline, deadline - now <= timeout -> ends (k deadline) w) -> ends (failing (execution_deadline_at now absolute timeout) ≫= k) w.
Proof.
  intros Hk. pose proof (deadline_near now absolute timeout) as Hd.
  destruct (execution_deadline_at now absolute timeout) as [deadline|f]; [exact (Hk _ (Hd _ eq_refl)) | done].
Qed.

Lemma shell_ends fuel request w :
  (reap_fuel <= fuel)%nat -> se_timeout_ms request <= 1000 * (Z.of_nat fuel - 1) ->
  ends (execute_shell_inner json_streams MAX_INLINE inline_bytes fuel request) w.
Proof.
  intros Hf Ht. unfold execute_shell_inner. apply ends_do. rewrite wall_now. set (w1 := (answer _ WallMs w).2).
  pose proof (wall_forward _ WallMs w : wall w <= wall w1). apply ends_deadline. intros deadline Hd.
  apply ends_bind; [apply ends_reported | intros cwd w2 H2]. apply ends_bind; [apply ends_reported | intros process_id w3 H3].
  apply ends_bind; [destruct (se_control request); [apply ends_call | apply ends_ret] | intros _ w4 H4].
  apply ends_bind; [apply ends_call | intros _ w5 H5]. apply race_ends; [done | lia|]. intros status w6.
  apply ends_bind; [unfold close_control; destruct (se_control request); [apply ends_call | apply ends_ret] | intros _ w7 _].
  do 2 (apply ends_bind; [apply ends_call | intros ? ? _]). apply ends_failing.
Qed.

Lemma prepared_deadline request w deadline text :
  (exec answer (prepare_bundle json_inline MAX_INPUT tool_name description jcs_input encode request) w).1.1 = Ok (deadline, text) ->
  deadline - wall w <= rc_timeout_ms (be_resources request).
Proof.
  unfold prepare_bundle. destruct (negb _); [done|]. destruct (jcs_input _) as [canonical|]; [|done]. cbn [ok_or].
  change (prog_lift (Ok canonical) ≫= ?k) with (k canonical). cbv beta. destruct (_ <? _); [done|]. cbn.
  pose proof (wall_now w) as Hnow. destruct (answer Z WallMs w) as [now w1]. cbn in Hnow. subst now.
  pose proof (deadline_near (wall w) (Z.min (be_deadline_at_ms request) (be_target_expires_at_ms request)) (rc_timeout_ms (be_resources request))) as Hd.
  destruct (execution_deadline_at _ _ _) as [d|f]; [|done]. cbn. destruct (encode _) as [encoded|e]; [|done]. cbn.
  destruct (_ <? len encoded); [done|]. cbn. intros [= <- <-]. by apply Hd.
Qed.

Lemma prepare_ends request w : ends (prepare_bundle json_inline MAX_INPUT tool_name description jcs_input encode request) w.
Proof.
  unfold prepare_bundle. destruct (negb _); [done|]. apply ends_bind; [by destruct (jcs_input _)|]. intros canonical w1 _.
  destruct (_ <? _); [done|]. apply ends_do, ends_bind; [apply ends_failing|]. intros deadline w2 _.
  apply ends_bind; [apply ends_failing|]. intros text w3 _. by destruct (_ <? _).
Qed.

Lemma bundle_ends fuel request w :
  (reap_fuel <= fuel)%nat -> rc_timeout_ms (be_resources request) <= 1000 * (Z.of_nat fuel - 1) ->
  ends (execute_bundle_inner json_null json_inline MAX_INLINE MAX_INPUT inline_bytes tool_name description jcs_input encode decode fuel request) w.
Proof.
  intros Hf Ht. unfold execute_bundle_inner. apply ends_bind_result; [apply prepare_ends|].
  intros [deadline text] w1 Hp%prepared_deadline H1.
  do 4 (apply ends_bind; [apply ends_reported | intros ? ? ?]). apply ends_bind; [apply ends_call | intros stdin w9 H9].
  apply ends_bind; [by destruct stdin | intros _ w8 H8]. do 3 (apply ends_bind; [apply ends_call | intros ? ? ?]).
  apply (race_ends _ _ _ false _ (fun status => _)); [done | lia|]. intros status w7.
  do 4 (apply ends_bind; [apply ends_call | intros ? ? ?]). apply ends_failing.
Qed.

(** C20: every execution gives a result. On a machine whose clocks do not go back and advance by what is slept, a
    managed Tool and a sandbox shell end with a terminal result whatever else the system answers: polling the wall
    clock takes one turn a second of the sealed timeout, and reaping one per process left and 200 naps. *)
Theorem executions_end fuel w :
  (reap_fuel <= fuel)%nat ->
  (forall request, rc_timeout_ms (be_resources request) <= 1000 * (Z.of_nat fuel - 1) -> exists r, (exec answer (bundle fuel request) w).1.1 = Some r)
  /\ (forall request, se_timeout_ms request <= 1000 * (Z.of_nat fuel - 1) -> exists r, (exec answer (shell fuel request) w).1.1 = Some r).
Proof.
  intros Hf.
  assert (Hrun : forall subject (inner : SysM (@ExecutionResult Json TerminalOutcome)), (forall w, ends inner w) ->
    exists r, (exec answer (run_execution json_error subject inner) w).1.1 = Some r).
  { intros subject inner Hi. unfold run_execution. rewrite exec_do, exec_bind. specialize (Hi (answer _ MonoNow w).2). unfold ends in Hi.
    destruct (exec answer inner _) as [[[x|[f|]] t'] w3]; cbn [fst snd report] in *; [| |done]; rewrite exec_do; cbn; eauto. }
  split; intros request Ht; apply Hrun; intros w'; [by apply bundle_ends | by apply shell_ends].
Qed.
End termination.

(** *** Interactive input *)
Definition is_write (e : Event Ctl) : bool := match e with Ev (PipeWrite _) _ => true | _ => false end.
Definition writes (text : bytes) (e : Event Ctl) : Prop := match e with Ev (PipeWrite t) n => t = text /\ n = Some (len text) | _ => False end.
Definition closes (e : Event Ctl) : Prop := match e with Ev TakeSlot _ => True | _ => False end.

(** What a send that gave [r] did to the pipe. *)
Definition sent (text : bytes) (eof : bool) (r : bool) (tr : list (Event Ctl)) : Prop :=
  (count is_write tr <= 1)%nat
  /\ if r then (text = [] /\ count is_write tr = 0%nat \/ Exists (writes text) tr) /\ (Exists closes tr <-> eof = true)
     else ~ Exists closes tr.

Lemma sent_waited text eof r tr locked notified : sent text eof r tr -> sent text eof r (Ev LockStdin locked :: Ev AwaitNotified notified :: tr).
Proof.
  intros [Hc Hr]. split; [exact Hc|]. destruct r.
  - destruct Hr as [Hw He]. split; [destruct Hw as [?|Hw]; [by left | right; by do 2 right]|]. rewrite <- He. rewrite !Exists_cons. cbn. tauto.
  - rewrite !Exists_cons. cbn. tauto.
Qed.

Lemma send_loop_sent fuel text eof tr r : runs (send_loop fuel text eof) tr (Some r) -> sent text eof r tr.
Proof.
  revert tr. induction fuel as [|fuel IH]; intros tr Hr; [by destruct Hr|]. cbn [send_loop runs] in Hr.
  destruct Hr as (locked & t & -> & Hr). destruct locked.
  - destruct Hr as [-> [= ->]]. split; [cbn; lia|]. rewrite Exists_cons, Exists_nil. cbn. tauto.
  - cbn in Hr. destruct Hr as ([] & t' & -> & Hr); [apply sent_waited; eauto|].
    destruct Hr as [-> [= ->]]. split; [cbn; lia|]. rewrite !Exists_cons, Exists_nil. cbn. tauto.
  - assert (Hfin : forall t, runs (if eof then Do TakeSlot (fun _ => Do NotifyWaiters (fun _ => Ret (Some true))) else Ret (Some true)) t (Some r) ->
      r = true /\ count is_write t = 0%nat /\ (Exists closes t <-> eof = true)).
    { intros t'. destruct eof; cbn.
      - intros ([] & ? & -> & [] & ? & -> & -> & [= ->]). split; [done|]. split; [done|]. split; [done|]. intros _. by left.
      - intros [-> [= ->]]. split; [done|]. split; [done|]. by rewrite Exists_nil. }
    cbn zeta in Hr. destruct (bool_decide_reflect (text = [])) as [->|Ht].
    + apply Hfin in Hr as (-> & Hc & He). split; [cbn; lia|]. split; [by left|]. rewrite Exists_cons, He. cbn. tauto.
    + cbn [runs] in Hr. destruct Hr as (written & t' & -> & Hr). destruct (bool_decide_reflect (written = Some (len text))) as [->|Hw].
      * apply Hfin in Hr as (-> & Hc & He). split; [cbn; lia|]. split; [right; right; by left|]. rewrite !Exists_cons, He. cbn. tauto.
      * destruct Hr as [-> [= ->]]. split; [cbn; lia|]. rewrite !Exists_cons, Exists_nil. cbn. tauto.
Qed.

(** One send touches the pipe at most once and tells the truth about it. Whatever the locks, the notifications
    and the pipe answer, a send writes at most once, and never more than the bound; it answers true only when the
    whole text was written, or there was none, and closes the pipe exactly when it answers true and was asked to. *)
Theorem send_atomic_is_truthful max fuel text eof tr r :
  runs (send_atomic max fuel text eof) tr (Some r) ->
  sent text eof r tr /\ (Exists (fun e => is_write e = true) tr -> len text <= max).
Proof.
  unfold send_atomic. destruct (Z.ltb_spec max (len text)).
  - intros [-> [= ->]]. split; [split; [cbn; lia|] |]; by intros ?%Exists_nil.
  - intros Hr. split; [by eapply send_loop_sent | lia].
Qed.

(** A send answers within one turn per notification. *)
Lemma send_loop_answers {W} (answer : forall X, Ctl X -> W -> X * W) (pending : W -> nat) fuel text eof w :
  (forall X (c : Ctl X) w, (pending (answer _ c w).2 <= pending w)%nat) ->
  (forall w, (answer _ AwaitNotified w).1 = true -> (pending (answer _ AwaitNotified w).2 < pending w)%nat) ->
  (pending w < fuel)%nat -> exists r, (exec answer (send_loop fuel text eof) w).1.1 = Some r.
Proof.
  intros Hle Hlt. revert w. induction fuel as [|fuel IH]; intros w Hf; [lia|]. cbn [send_loop]. rewrite exec_do.
  pose proof (Hle _ LockStdin w) as H1. destruct (answer _ LockStdin w) as [locked w1]. cbn [fst snd] in *.
  assert (Hfin : forall w', exists r, (exec answer (if eof then Do TakeSlot (fun _ => Do NotifyWaiters (fun _ => Ret (Some true))) else Ret (Some true)) w').1.1
    = Some r) by (intros w'; destruct eof; [rewrite !exec_do|]; by exists true).
  destruct locked; [by exists false| |].
  - rewrite exec_do. pose proof (Hle _ AwaitNotified w1). pose proof (Hlt w1) as Hn. destruct (answer _ AwaitNotified w1) as [[] w2]; cbn [fst snd] in *; [|by exists false].
    apply IH. specialize (Hn eq_refl). lia.
  - destruct (bool_decide (text = [])); [apply Hfin|]. rewrite exec_do. destruct (bool_decide _); [apply Hfin | by exists false].
Qed.

(** ** A sample *)
Module Sample.
Inductive Json := JNull | JInline | JText (text : bytes) | JError (message : bytes) | JStreams (stdout stderr : bytes).
#[global] Instance Json_eq_dec : EqDecision Json.
Proof. solve_decision. Defined.

Definition sample_inline_bytes (v : Json) : option Z :=
  match v with
  | JNull => Some 4 | JInline => Some 8 | JText t => Some (len t + 2) | JError m => Some (len m + 12)
  | JStreams out err => Some (len out + len err + 25)
  end.
Definition sample_decode (frame : bytes) : result bytes (@RunnerResult Json) := Ok (mkRunnerResult true (Some (JText frame)) None).
Definition sample_encode (r : @RunnerRequest Json) : result bytes bytes := Ok (bytes_of (rr_operation_id r)).
Definition sample_jcs (i : @ManagedInput Json) : option bytes := Some (bytes_of "{}").

Definition shell_request : ShellExecution := mkShellExecution "echo hi" "/workspace" 5000 4096 false ∅ None None 1000000 false.
Definition bundle_request : @BundleExecution unit Json :=
  mkBundleExecution "d1.mjs" (mkBundleDescriptor Node22 2 2 "d1" "d1" ["API_KEY"%string] "c1" tt) "op-1" "session-1"
    (mkManagedInput JInline JNull) 900000 (mkResourceCeiling 5000 4096) "/workspace" "/runner.mjs" ∅ ∅ None None 1000000.

(** A machine whose child 42 exits with 0 after some polls, having written ["hi"]; the group is empty at once. *)
Record Machine42 := mkMachine42 { m_wall : Z; m_mono : Z; m_polls : nat }.
Definition frame_hi : bytes := ["000"; "000"; "000"; "002"]%char ++ bytes_of "hi".

Definition sample_answer (X : Type) (c : Sys X) (w : Machine42) : X * Machine42 :=
  match c in Sys X return X * Machine42 with
  | WallMs => (m_wall w, w)
  | MonoNow => (m_mono w, w)
  | Race s => match m_polls w with
              | O => (ReadyChild (Ok (mkExitStatus (Some 0))), w)
              | S n => (ReadyTimer, mkMachine42 (m_wall w + Z.max 0 s) (m_mono w) n)
              end
  | Sleep d => (tt, mkMachine42 (m_wall w) (m_mono w + Z.max 0 d * 1000000) (m_polls w))
  | ChannelPair => (Ok 7, w) | ChannelArm => (Ok tt, w) | ChannelAttach => (Ok tt, w) | CloneCwd => (Ok 5, w)
  | Spawn _ => (Ok (Some 42), w)
  | TakeStdin => (true, w) | ControlInstall => (tt, w) | ControlClose => (tt, w)
  | StartWriter _ => (tt, w) | StartResultReader _ => (tt, w) | StartReaders _ => (tt, w)
  | Kill _ _ => (tt, w) | ChildKill => (tt, w) | WaitFor _ => (true, w) | WaitLeader => (tt, w) | WaitPid _ => (WaitedError, w)
  | AbortTasks => (tt, w)
  | SettleWriter _ => (SettledDone (true, true), w)
  | SettleResult _ => (SettledDone frame_hi, w)
  | SettleStdout _ => (SettledDone (Some (mkStream (bytes_of "hi") None)), w)
  | SettleStderr _ => (SettledDone (Some (mkStream [] None)), w)
  end.

#[global] Instance sample_machine : Machine Machine42 sample_answer.
Proof.
  refine {| wall := m_wall; mono := m_mono; members := fun _ => O; most_members := O |};
    try (intros; done); try (intros; cbn; lia).
  - intros X c w. destruct c; cbn; try lia. destruct (m_polls w); cbn; lia.
  - intros X c w. destruct c; cbn; try lia. destruct (m_polls w); cbn; lia.
  - intros s w. cbn. destruct (m_polls w); cbn; [done|]. lia.
  - intros t w [|]; done.
Defined.

Definition sample_world : Machine42 := mkMachine42 1000 0 2.
Definition sample_shell fuel := execute_shell JError JStreams 65536 sample_inline_bytes fuel shell_request.
Definition sample_bundle fuel :=
  execute_bundle JNull JError JInline 65536 65536 sample_inline_bytes (fun _ : unit => "tool"%string) (fun _ => None) sample_jcs sample_encode sample_decode fuel bundle_request.
Definition shell_run := exec sample_answer (sample_shell 201) sample_world.
Definition bundle_run := exec sample_answer (sample_bundle 201) sample_world.
Definition completed_hi : @GuestOperations.ExecutionResult Json TerminalOutcome := mkExecutionResult Completed (JStreams (bytes_of "hi") []) false (Some 0) 0.
Definition tool_hi : @GuestOperations.ExecutionResult Json TerminalOutcome := mkExecutionResult Completed (JText (bytes_of "hi")) false (Some 0) 0.

Example shell_run_completes : shell_run.1.1 = Some completed_hi.
Proof. vm_compute. reflexivity. Qed.
Example bundle_run_completes : bundle_run.1.1 = Some tool_hi.
Proof. vm_compute. reflexivity. Qed.

Lemma shell_runs : runs (sample_shell 201) shell_run.1.2 (Some completed_hi).
Proof. rewrite <- shell_run_completes. apply exec_runs. Qed.
Lemma bundle_runs : runs (sample_bundle 201) bundle_run.1.2 (Some tool_hi).
Proof. rewrite <- bundle_run_completes. apply exec_runs. Qed.


Lemma shell_output_is_whole_witness : whole (Some (mkStream (bytes_of "hi") None)) (bytes_of "hi") /\ x_inline completed_hi = JStreams (bytes_of "hi") [].
Proof.
  destruct (shell_output_is_whole JError JStreams 65536 sample_inline_bytes 201 shell_request shell_run.1.2 completed_hi
    ltac:(vm_compute; split; [discriminate | reflexivity]) shell_runs eq_refl) as (out & err & stdout & stderr & n & Ho & He & Hwo & Hwe & Hi & _).
  split; [split; reflexivity | reflexivity].
Defined.

Definition frame_settled (e : Event Sys) : Prop := match e with Ev (SettleResult _) s => s = SettledDone frame_hi | _ => True end.

Lemma tool_output_is_its_frame_witness : exists header frame rest,
  frame_hi = header ++ frame ++ rest /\ be_u32 header = len frame /\ JText frame = x_inline tool_hi.
Proof.
  destruct (tool_output_is_its_frame JNull JError JInline 65536 65536 sample_inline_bytes (fun _ : unit => "tool"%string) (fun _ => None)
    sample_jcs sample_encode sample_decode 201 bundle_request bundle_run.1.2 tool_hi bundle_runs eq_refl)
    as (stream & header & frame & rest & runner & n & Hin & Hs & Hh & Hb & _ & Hd & _ & Hi & _).
  assert (Hall : Forall frame_settled bundle_run.1.2)
    by (vm_compute; repeat constructor).
  rewrite Forall_forall in Hall. specialize (Hall _ Hin). cbn in Hall. injection Hall as ->.
  exists header, frame, rest. injection Hd as <-. split; [exact Hs | split; [exact Hb | exact (eq_sym Hi)]].
Defined.

Lemma executions_end_witness :
  (exists r, (exec sample_answer (sample_bundle 201) sample_world).1.1 = Some r) /\ (exists r, (exec sample_answer (sample_shell 201) sample_world).1.1 = Some r).
Proof.
  destruct (executions_end (R := unit) (Machine0 := sample_machine) sample_answer JNull JError JStreams JInline 65536 65536 sample_inline_bytes (fun _ => "tool"%string) (fun _ => None)
    sample_jcs sample_encode sample_decode 201 sample_world (le_n 201)) as [Hb Hs].
  split; [apply (Hb bundle_request); vm_compute; discriminate | apply (Hs shell_request); vm_compute; discriminate].
Defined.

(** When waiting for the child fails, its group is left alone. *)
Definition wait_error_answer (X : Type) (c : Sys X) (w : Machine42) : X * Machine42 :=
  match c in Sys X return X * Machine42 -> X * Machine42 with Race _ => fun _ => (ReadyChild (Err (bytes_of "ECHILD")), w) | _ => fun r => r end
    (sample_answer X c w).

Example wait_error_leaves_the_group :
  let run := exec wait_error_answer (sample_shell 201) sample_world in
  x_outcome <$> run.1.1 = Some OutcomeFailed /\ Exists (spawned 42) run.1.2 /\ ~ Exists (killed 42) run.1.2.
Proof.
  vm_compute. split; [reflexivity|]. split; [repeat (first [left; reflexivity | right])|].
  intros Hk. repeat (apply Exists_cons in Hk as [[]|Hk]). by apply Exists_nil in Hk.
Qed.

Definition open_pipe (X : Type) (c : Ctl X) (w : unit) : X * unit :=
  match c in Ctl X return X * unit with
  | LockStdin => (LockedOpen, w) | PipeWrite t => (Some (len t), w) | TakeSlot => (tt, w) | FillSlot _ => (tt, w)
  | NotifyWaiters => (tt, w) | AwaitNotified => (true, w)
  end.
Definition send_run := exec open_pipe (send_atomic 4096 1 (bytes_of "hi") true) tt.

Lemma send_atomic_is_truthful_witness : send_run.1.1 = Some true /\ sent (bytes_of "hi") true true send_run.1.2.
Proof.
  split; [reflexivity|].
  exact (proj1 (send_atomic_is_truthful 4096 1 (bytes_of "hi") true send_run.1.2 true (exec_runs open_pipe (send_atomic 4096 1 (bytes_of "hi") true) tt))).
Defined.
End Sample.
