(* ===== verification/GuestServer.v ===== *)
(** * hand-guest: the server

    Models crates/hand-guest/src/server.rs: the control bearer of a request, the socket that answers framed
    requests, and the install and export routes, as programs over the guest's handlers (GuestOperations,
    GuestStdin, GuestFiles, GuestInstall, GuestTarget), the socket and the staging files. What the web framework
    does before a handler (routing, upgrades, body limits, JSON extraction) is outside. *)
From S2P Require Import Prelude Policy Wire GuestErrors GuestInstall Prog.

Definition CONTROL_AUTH_PROTOCOL_PREFIX : string := "aex-hand-control.".
Definition CONTROL_AUTH_HEADER : string := "x-aex-hand-control".
Definition OBJECT_METADATA_HEADER : string := "x-aex-object-metadata".
Definition SEC_WEBSOCKET_PROTOCOL : string := "sec-websocket-protocol".
Definition CONTENT_LENGTH : string := "content-length".

(** A header's first value, when it is visible ASCII. *)
Notation HeaderMap := (gmap string (option string)).
Definition header (headers : HeaderMap) (name : string) : option string := mjoin (headers !! name).

Definition protocols (headers : HeaderMap) : option (list string) :=
  (fun value => map trim (split_on ","%char value)) <$> header headers SEC_WEBSOCKET_PROTOCOL.

Definition control_candidate (headers : HeaderMap) : option string :=
  match header headers CONTROL_AUTH_HEADER with
  | Some value => Some value
  | None => l ← protocols headers; find_map (strip_prefix CONTROL_AUTH_PROTOCOL_PREFIX) l
  end.

Definition control_protocol (headers : HeaderMap) : option string :=
  l ← protocols headers; find_map (fun p => if starts_with CONTROL_AUTH_PROTOCOL_PREFIX p then Some p else None) l.

(** What the socket delivers. *)
Inductive Incoming := InText (text : string) | InBinary (data : list Ascii.ascii) | InPing | InPong | InClose | InError.

(** The steps that commit the canary's receipt; each may fail. *)
Inductive CanaryStep :=
  | CanaryOpen | CanaryWrite (text : string) | CanaryFlush | CanarySync | CanaryRename | CanarySyncDirectory.

(** Object metadata: the digest and the size of the reference. *)
Record InstallObjectMetadata := mkInstallObjectMetadata { om_sha256 : string; om_bytes : Z }.

Section server.
Context {T : WireTypes} {Descriptor Binding Secrets ExportRequest Entry : Type}.

Inductive Srv : Type -> Type :=
  | ControlAuthorized (candidate : option string) : Srv bool
  (* the handlers *)
  | HSubmit (p : TSubmit) : Srv (result HandError TReceipt)
  | HObserve (p : TObserve) : Srv (result HandError TObservation)
  | HCancel (p : TCancel) : Srv (result HandError TCancellation)
  | HAcknowledge (p : TAcknowledge) : Srv (result HandError TAcknowledgement)
  | HRuntimeStatus : Srv (option TStatus)
  | HList (p : TList) : Srv (result HandError TFileList)
  | HStat (p : TStat) : Srv (result HandError TFileEntry)
  | HRead (p : TRead) : Srv (result HandError TContent)
  | HWrite (p : TWriteFile) : Srv (result HandError TStored)
  | HReserve (i : FileEffectIdentity) : Srv (result HandError (FileEffectReservation TStored))
  | HClaim (i : FileEffectIdentity) : Srv (result HandError (FileEffectReservation TStored))
  | HComplete (p : TStored) : Srv (result HandError TStored)
  | HFind (p : TSearch) : Srv (result HandError TFileList)
  | HGrep (p : TSearch) : Srv (result HandError TFileList)
  | HExecute (p : TExecute) : Srv (result HandError TReceipt)
  | HStdin (p : TStdin) : Srv (result HandError TStdinReceipt)
  | HInstallBundle (descriptor : Descriptor) (content : list Ascii.ascii) : Srv (result HandError InstallReceipt)
  | HInstallBinding (binding : Binding) : Srv (result HandError InstallReceipt)
  | HInstallSecrets (secrets : Secrets) : Srv (result HandError InstallReceipt)
  | HInstallObject (metadata : InstallObjectMetadata) (temporary : string) (count : Z) (digest : string) : Srv (result HandError InstallReceipt)
  | HOpenExport (request : ExportRequest) : Srv (result HandError Entry)
  (* the socket *)
  | SendText (text : string) : Srv bool
  | SendPong : Srv unit
  | ShouldExitAfter (operation_id : string) : Srv bool
  | Canary (step : CanaryStep) : Srv bool
  | Grace (duration_ms : Z) : Srv unit
  | AbortProcess : Srv unit
  (* staging *)
  | RandomName : Srv string
  | StagingCreate (name : string) : Srv bool
  | StagingWrite (name : string) (chunk : list Ascii.ascii) : Srv bool
  | StagingFlush (name : string) : Srv bool
  | StagingSync (name : string) : Srv bool
  | StagingRemove (name : string) : Srv unit.

(** What Brain, the encodings and the bundle's identity supply. *)
Class ServerOps := {
  CONTRACT_DIGEST : string;
  decode_request : string -> option RequestFrame;
  encode_response : ResponseFrame HandError -> option string;
  receipt_observation : TReceipt -> TObservation;
  observation_terminal : TObservation -> bool;
  observation_operation_id : TObservation -> string;
  bundle_metadata_of_json : list Ascii.ascii -> option Descriptor;
  descriptor_digest : Descriptor -> string;
  object_metadata_of_json : list Ascii.ascii -> option InstallObjectMetadata;
  base64_decode : string -> option (list Ascii.ascii);
  base64_encode : list Ascii.ascii -> string;
  entry_bytes : Entry -> Z;
  entry_to_json : Entry -> option (list Ascii.ascii);
  hex_sha256 : list Ascii.ascii -> string;
}.
Context {O : ServerOps}.

(** ** The socket *)
Definition asked {X} (c : Srv (result HandError X)) (reply : X -> ResponseReply) : Prog Srv (result HandError ResponseReply) :=
  Do c (fun r => Ret (match r with Ok x => Ok (reply x) | Err e => Err e end)).

Definition dispatch (c : RequestCall) : Prog Srv (result HandError ResponseReply) :=
  match c with
  | CallSubmit p => asked (HSubmit p) ReplySubmit
  | CallObserve p => asked (HObserve p) ReplyObserve
  | CallCancel p => asked (HCancel p) ReplyCancel
  | CallAcknowledgeTerminal p => asked (HAcknowledge p) ReplyAcknowledgeTerminal
  | CallStatus => Do HRuntimeStatus (fun s => Ret (match s with Some s => Ok (ReplyStatus s) | None => Err invalid end))
  | CallListFiles p => asked (HList p) ReplyListFiles
  | CallStatFile p => asked (HStat p) ReplyStatFile
  | CallReadFile p => asked (HRead p) ReplyReadFile
  | CallWriteFile p => asked (HWrite p) ReplyWriteFile
  | CallReserveFileEffect i => asked (HReserve i) ReplyReserveFileEffect
  | CallClaimFileEffect i => asked (HClaim i) ReplyClaimFileEffect
  | CallCompleteFileEffect p => asked (HComplete p) ReplyCompleteFileEffect
  | CallFindFiles p => asked (HFind p) ReplyFindFiles
  | CallGrepFiles p => asked (HGrep p) ReplyGrepFiles
  | CallExecuteSandbox p => asked (HExecute p) ReplyExecuteSandbox
  | CallWriteStdin p => asked (HStdin p) ReplyWriteStdin
  end.

Definition terminal_operation_id (response : ResponseFrame HandError) : option string :=
  observation ← match rs_result response with
                | Ok (ReplySubmit receipt) | Ok (ReplyExecuteSandbox receipt) => Some (receipt_observation receipt)
                | Ok (ReplyObserve observation) => Some observation
                | _ => None
                end;
  if observation_terminal observation then Some (observation_operation_id observation) else None.

(** Every step must succeed. *)
Fixpoint commit_steps (steps : list CanaryStep) : Prog Srv bool :=
  match steps with
  | [] => Ret true
  | step :: steps => Do (Canary step) (fun done : bool => if done then commit_steps steps else Ret false)
  end.
Definition commit_canary_terminal_receipt (text : string) : Prog Srv bool :=
  commit_steps [CanaryOpen; CanaryWrite text; CanaryFlush; CanarySync; CanaryRename; CanarySyncDirectory].

Definition canary_exit (response : ResponseFrame HandError) (text : string) : Prog Srv bool :=
  match terminal_operation_id response with
  | Some operation_id => Do (ShouldExitAfter operation_id) (fun exit : bool => if exit then commit_canary_terminal_receipt text else Ret false)
  | None => Ret false
  end.

(** How the connection goes on after a message. *)
Inductive Served := Serving | Closed | Aborted.

Definition respond (response : ResponseFrame HandError) : Prog Srv Served :=
  let withhold :=
    match encode_response (mkResponseFrame (rs_request_id response) (Err (hand_error ResourceExhausted false))) with
    | Some text => Do (SendText text) (fun sent : bool => Ret (if sent then Serving else Closed))
    | None => Ret Closed
    end in
  match encode_response response with
  | Some text =>
      if str_len text <=? MAX_WIRE_FRAME_BYTES then
        prog_bind (canary_exit response text) (fun exit : bool =>
          Do (SendText text) (fun sent : bool =>
            if negb sent then Ret Closed
            else if exit then Do (Grace 250) (fun _ => Do AbortProcess (fun _ => Ret Aborted)) else Ret Serving))
      else withhold
  | None => withhold
  end.

Definition answer_frame (frame : RequestFrame) : Prog Srv Served :=
  prog_bind (if negb (str_eqb (rf_contract_digest frame) CONTRACT_DIGEST) then Ret (Err invalid) else dispatch (rf_call frame))
    (fun result => respond (mkResponseFrame (rf_request_id frame) result)).

Definition serve_message (message : Incoming) : Prog Srv Served :=
  let answered text := match decode_request text with Some frame => answer_frame frame | None => Ret Serving end in
  match message with
  | InText text => answered text
  | InBinary data => match from_utf8 data with Some text => answered text | None => Ret Serving end
  | InPing => Do SendPong (fun _ => Ret Serving)
  | InPong => Ret Serving
  | InClose | InError => Ret Closed
  end.

Fixpoint serve_connection (messages : list Incoming) : Prog Srv Served :=
  match messages with
  | [] => Ret Closed
  | message :: messages =>
      prog_bind (serve_message message) (fun served => match served with Serving => serve_connection messages | ended => Ret ended end)
  end.

(** ** The routes *)
Inductive Answer :=
  | AnswerStatus (status : Z)
  | AnswerError (status : Z) (error : string)
  | AnswerHand (status : Z) (e : HandError)
  | AnswerReceipt (receipt : InstallReceipt)
  | AnswerExport (metadata : string) (limit : Z).

Definition reply (r : result HandError InstallReceipt) : Answer :=
  match r with Ok receipt => AnswerReceipt receipt | Err e => AnswerHand (status_for (code e)) e end.

Definition require_control (headers : HeaderMap) (next : Prog Srv Answer) : Prog Srv Answer :=
  Do (ControlAuthorized (control_candidate headers)) (fun authorized : bool => if authorized then next else Ret (AnswerStatus 401)).

(** The metadata line and the bytes after it. *)
Fixpoint split_line (body : list Ascii.ascii) : option (list Ascii.ascii * list Ascii.ascii) :=
  match body with
  | [] => None
  | c :: body => if Ascii.eqb c "010"%char then Some ([], body)
                 else match split_line body with Some (l, r) => Some (c :: l, r) | None => None end
  end.

Definition install_bundle (digest : string) (body : list Ascii.ascii) : Prog Srv Answer :=
  match split_line body with
  | None => Ret (AnswerError 400 "missing metadata")
  | Some (line, content) =>
      match bundle_metadata_of_json line with
      | None => Ret (AnswerError 400 "invalid metadata")
      | Some descriptor =>
          if negb (str_eqb (descriptor_digest descriptor) digest) then Ret (AnswerError 400 "digest mismatch")
          else Do (HInstallBundle descriptor content) (fun r => Ret (reply r))
      end
  end.

Definition install_binding (binding : Binding) : Prog Srv Answer := Do (HInstallBinding binding) (fun r => Ret (reply r)).
Definition install_secrets (secrets : Secrets) : Prog Srv Answer := Do (HInstallSecrets secrets) (fun r => Ret (reply r)).

Definition discard (temporary : string) (status : Z) (error : string) : Prog Srv (result Answer (Z * list Ascii.ascii)) :=
  Do (StagingRemove temporary) (fun _ => Ret (Err (AnswerError status error))).

(** The body's chunks, a failed read being [None]: the bytes counted and the bytes hashed. *)
Fixpoint stage_chunks (temporary : string) (sealed : Z) (chunks : list (option (list Ascii.ascii))) (count : Z) (hashed : list Ascii.ascii)
    : Prog Srv (result Answer (Z * list Ascii.ascii)) :=
  match chunks with
  | [] => Ret (Ok (count, hashed))
  | None :: _ => discard temporary 400 "object stream failed"
  | Some chunk :: chunks =>
      let count := saturating_add count (len chunk) in
      if (sealed <? count) || (MAX_OBJECT_BYTES <? count) then discard temporary 413 "object exceeds sealed size"
      else Do (StagingWrite temporary chunk) (fun written : bool =>
        if negb written then discard temporary 503 "staging failed"
        else stage_chunks temporary sealed chunks count (hashed ++ chunk))
  end.

(** The metadata header, and the checks on it before anything is staged. *)
Definition object_metadata (headers : HeaderMap) : option InstallObjectMetadata :=
  value ← header headers OBJECT_METADATA_HEADER; decoded ← base64_decode value; object_metadata_of_json decoded.

Definition length_mismatch (headers : HeaderMap) (bytes : Z) : bool :=
  match (value ← header headers CONTENT_LENGTH; parse_uint U64_MAX value) with Some n => negb (n =? bytes) | None => false end.

Definition stage_object (digest : string) (metadata : InstallObjectMetadata) (chunks : list (option (list Ascii.ascii))) : Prog Srv Answer :=
  Do RandomName (fun random =>
    let temporary := ("." +:+ digest +:+ ".install-" +:+ random)%string in
    Do (StagingCreate temporary) (fun created : bool =>
      if negb created then Ret (AnswerError 503 "staging unavailable")
      else prog_bind (stage_chunks temporary (om_bytes metadata) chunks 0 []) (fun staged =>
        match staged with
        | Err answer => Ret answer
        | Ok (count, hashed) =>
            let failed := Do (StagingRemove temporary) (fun _ => Ret (AnswerError 503 "staging sync failed")) in
            Do (StagingFlush temporary) (fun flushed : bool =>
              if negb flushed then failed
              else Do (StagingSync temporary) (fun synced : bool =>
                if negb synced then failed
                else Do (HInstallObject metadata temporary count (hex_sha256 hashed)) (fun r => Ret (reply r))))
        end))).

Definition install_object (digest : string) (headers : HeaderMap) (chunks : list (option (list Ascii.ascii))) : Prog Srv Answer :=
  match object_metadata headers with
  | None => Ret (AnswerError 400 "invalid metadata")
  | Some metadata =>
      if negb (str_eqb (om_sha256 metadata) digest) then Ret (AnswerError 400 "digest mismatch")
      else if MAX_OBJECT_BYTES <? om_bytes metadata then Ret (AnswerError 413 "object too large")
      else if length_mismatch headers (om_bytes metadata) then Ret (AnswerError 400 "length mismatch")
      else stage_object digest metadata chunks
  end.

Definition export_file (request : ExportRequest) : Prog Srv Answer :=
  Do (HOpenExport request) (fun r =>
    Ret (match r with
         | Err e => AnswerHand (status_for (code e)) e
         | Ok entry =>
             if MAX_OBJECT_BYTES <? entry_bytes entry then AnswerError 413 "file exceeds object bound"
             else match entry_to_json entry with
                  | None => AnswerStatus 500
                  | Some metadata => AnswerExport (base64_encode metadata) (saturating_add MAX_OBJECT_BYTES 1)
                  end
         end)).

(** ** Lemmas *)

(** Every reply carries the method of its request. *)
Lemma dispatch_method c tr r : runs (dispatch c) tr (Ok r) -> reply_method r = request_method c.
Proof. destruct c; cbn; intros (x & tr' & -> & -> & Hr); destruct x; by simplify_eq. Qed.

(** *** Staging *)
Definition creates (temporary : string) (e : Event Srv) : Prop := match e with Ev (StagingCreate name) true => name = temporary | _ => False end.
Definition removes (temporary : string) (e : Event Srv) : Prop := match e with Ev (StagingRemove name) _ => name = temporary | _ => False end.
Definition hands_over (temporary : string) (e : Event Srv) : Prop := match e with Ev (HInstallObject _ name _ _) _ => name = temporary | _ => False end.
Definition writes_of (temporary : string) (body : list (list Ascii.ascii)) : list (Event Srv) :=
  map (fun chunk => Ev (StagingWrite temporary chunk) true) body.

Lemma stage_chunks_runs temporary sealed chunks count hashed tr r :
  sealed <= MAX_OBJECT_BYTES -> count <= sealed ->
  runs (stage_chunks temporary sealed chunks count hashed) tr r ->
  match r with
  | Ok (n, all) => exists body, chunks = map Some body /\ all = hashed ++ mjoin body /\ tr = writes_of temporary body
                     /\ n = count + len (mjoin body) /\ n <= sealed
  | Err _ => exists body, tr = writes_of temporary body ++ [Ev (StagingRemove temporary) tt]
               \/ exists chunk, tr = writes_of temporary body ++ [Ev (StagingWrite temporary chunk) false; Ev (StagingRemove temporary) tt]
  end.
Proof.
  assert (HM : MAX_OBJECT_BYTES < U64_MAX) by done. intros Hs. revert count hashed tr. induction chunks as [|[chunk|] chunks IH]; intros count hashed tr Hc Hr; cbn [stage_chunks] in Hr.
  - destruct Hr as [-> ->]. exists []. rewrite app_nil_r. unfold len. cbn. repeat (split; [done || lia|]). lia.
  - destruct (Z.ltb_spec sealed (saturating_add count (len chunk))) as [|Hle]; cbn [orb] in Hr.
    { destruct Hr as ([] & ? & -> & -> & ->). exists []. by left. }
    destruct (Z.ltb_spec MAX_OBJECT_BYTES (saturating_add count (len chunk))); cbn [orb] in Hr.
    { destruct Hr as ([] & ? & -> & -> & ->). exists []. by left. }
    assert (Hsat : saturating_add count (len chunk) = count + len chunk) by (unfold saturating_add in *; lia). rewrite Hsat in *.
    destruct Hr as ([] & t & -> & Hr); cbn [negb] in Hr.
    + apply IH in Hr; [|lia]. destruct r as [[n all]|a].
      * destruct Hr as (body & -> & -> & -> & -> & Hn). exists (chunk :: body). change (mjoin (chunk :: body)) with (chunk ++ mjoin body). split; [done|].
        split; [by rewrite app_assoc|]. split; [done|]. pose proof (length_app chunk (mjoin body)) as Hl. unfold len in *. rewrite Hl. lia.
      * destruct Hr as (body & [-> | (c & ->)]); exists (chunk :: body); [by left | right; by exists c].
    + destruct Hr as ([] & ? & -> & -> & ->). exists []. right. by exists chunk.
  - destruct Hr as ([] & ? & -> & -> & ->). exists []. by left.
Qed.

Definition handed_over (e : Event Srv) : bool := match e with Ev (HInstallObject _ _ _ _) _ => true | _ => false end.

(** Before the end of a staging: nothing is handed over, and only its own file is created. *)
Definition preparing (temporary : string) (e : Event Srv) : Prop := handed_over e = false /\ forall name, creates name e -> name = temporary.

Lemma writes_of_preparing temporary body : Forall (preparing temporary) (writes_of temporary body).
Proof. apply Forall_forall. by intros e (chunk & -> & _)%list_elem_of_fmap. Qed.

(** The one call of a kind, when it comes last. *)
Lemma last_call_split (P : Event Srv -> bool) pre e before e' after :
  Forall (fun e => P e = false) pre -> P e' = true -> pre ++ [e] = before ++ e' :: after -> before = pre /\ e' = e.
Proof.
  revert before. induction pre as [|d pre IH]; intros before Hp He Heq.
  - destruct before as [|b before]; [by injection Heq as -> _|]. injection Heq as _ Heq. by destruct before.
  - apply Forall_cons in Hp as [Hd Hp]. destruct before as [|b before].
    + injection Heq as -> _. congruence.
    + injection Heq as -> Heq. by destruct (IH _ Hp He Heq) as [-> ->].
Qed.

(** How a staging ends: not begun, removed, or handed over whole. *)
Inductive staging (metadata : InstallObjectMetadata) (chunks : list (option (list Ascii.ascii))) (temporary : string) : list (Event Srv) -> Prop :=
  | StagingNotCreated random : staging metadata chunks temporary [Ev RandomName random; Ev (StagingCreate temporary) false]
  | StagingRemoved pre : Forall (preparing temporary) pre -> staging metadata chunks temporary (pre ++ [Ev (StagingRemove temporary) tt])
  | StagingDone random body x : chunks = map Some body -> len (mjoin body) <= om_bytes metadata ->
      staging metadata chunks temporary
        (([Ev RandomName random; Ev (StagingCreate temporary) true] ++ writes_of temporary body
          ++ [Ev (StagingFlush temporary) true; Ev (StagingSync temporary) true])
         ++ [Ev (HInstallObject metadata temporary (len (mjoin body)) (hex_sha256 (mjoin body))) x]).

Lemma staging_removed metadata chunks temporary random body rest :
  Forall (preparing temporary) rest ->
  staging metadata chunks temporary
    (Ev RandomName random :: Ev (StagingCreate temporary) true :: writes_of temporary body ++ rest ++ [Ev (StagingRemove temporary) tt]).
Proof.
  intros Hr.
  pose proof (StagingRemoved metadata chunks temporary (Ev RandomName random :: Ev (StagingCreate temporary) true :: writes_of temporary body ++ rest)) as H.
  cbn [app] in H. rewrite <- app_assoc in H. apply H. constructor; [by split|]. constructor; [by split|].
  apply Forall_app. split; [apply writes_of_preparing | done].
Qed.

Lemma stage_object_runs digest metadata chunks tr answer :
  0 <= om_bytes metadata <= MAX_OBJECT_BYTES ->
  runs (stage_object digest metadata chunks) tr answer -> exists temporary, staging metadata chunks temporary tr.
Proof.
  intros Hs (random & t & -> & Hr). cbn zeta in Hr. set (temporary := _ +:+ _) in Hr. exists temporary.
  destruct Hr as ([] & t1 & -> & Hr); cbn [negb] in Hr; [|destruct Hr as [-> ->]; constructor].
  apply runs_bind in Hr as ([[count hashed]|a] & t2 & t3 & -> & Hc%stage_chunks_runs & Hr); try lia.
  - destruct Hc as (body & -> & -> & -> & -> & Hle). cbn [app] in *.
    destruct Hr as ([] & t4 & -> & Hr); cbn [negb] in Hr; [|destruct Hr as ([] & t6 & -> & -> & ->); by apply (staging_removed _ _ _ _ _ [_]); repeat constructor].
    destruct Hr as ([] & t5 & -> & Hr); cbn [negb] in Hr; [|destruct Hr as ([] & t6 & -> & -> & ->); by apply (staging_removed _ _ _ _ _ [_; _]); repeat constructor].
    destruct Hr as (x & t6 & -> & -> & ->). pose proof (StagingDone metadata (map Some body) temporary random body x eq_refl Hle) as H.
    cbn [app] in H. rewrite <- !app_assoc in H. exact H.
  - destruct Hr as [-> ->]. rewrite app_nil_r. destruct Hc as (body & [-> | (chunk & ->)]);
      [apply (staging_removed _ _ _ _ _ []); constructor | by apply (staging_removed _ _ _ _ _ [_]); repeat constructor].
Qed.

(** What a request does with an object and with its staging file. *)
Definition handed_over_whole (digest : string) (headers : HeaderMap) (chunks : list (option (list Ascii.ascii))) (tr : list (Event Srv)) : Prop :=
  forall before metadata temporary count hex x after, tr = before ++ Ev (HInstallObject metadata temporary count hex) x :: after ->
    exists random body, chunks = map Some body /\ object_metadata headers = Some metadata /\ om_sha256 metadata = digest
      /\ before = [Ev RandomName random; Ev (StagingCreate temporary) true] ++ writes_of temporary body
                    ++ [Ev (StagingFlush temporary) true; Ev (StagingSync temporary) true]
      /\ count = len (mjoin body) /\ hex = hex_sha256 (mjoin body) /\ count <= om_bytes metadata <= MAX_OBJECT_BYTES.
Definition leaves_no_file (tr : list (Event Srv)) : Prop :=
  forall temporary, Exists (creates temporary) tr -> Exists (hands_over temporary) tr \/ Exists (removes temporary) tr.

Lemma no_hand_over digest headers chunks tr : Forall (fun e => handed_over e = false) tr -> handed_over_whole digest headers chunks tr.
Proof. intros Hf before metadata temporary count hex x after ->. apply Forall_app in Hf as [_ Hf]. by apply Forall_cons in Hf as [Hf _]. Qed.

Lemma creates_own temporary name l : Forall (preparing temporary) l -> Exists (creates name) l -> name = temporary.
Proof. intros Hl He. apply Exists_exists in He as (e & He & Hc). rewrite Forall_forall in Hl. by apply (Hl e He). Qed.

Lemma staging_good digest headers metadata chunks temporary tr :
  object_metadata headers = Some metadata -> om_sha256 metadata = digest -> om_bytes metadata <= MAX_OBJECT_BYTES ->
  staging metadata chunks temporary tr -> handed_over_whole digest headers chunks tr /\ leaves_no_file tr.
Proof.
  intros Hm Hd Hle [random | pre Hpre | random body x Hb Hlen].
  - split; [apply no_hand_over; by repeat constructor|]. intros name He. apply Exists_cons in He as [[]|He]. apply Exists_cons in He as [[]|He].
    by apply Exists_nil in He.
  - split.
    + apply no_hand_over, Forall_app. split; [|by repeat constructor]. eapply Forall_impl; [exact Hpre|]. by intros e [He _].
    + intros name [He|He]%Exists_app; [|apply Exists_cons in He as [[]|He]; by apply Exists_nil in He].
      right. apply Exists_app. right. left. by rewrite (creates_own _ _ _ Hpre He).
  - assert (Hp : Forall (preparing temporary) ([Ev RandomName random; Ev (StagingCreate temporary) true] ++ writes_of temporary body
          ++ [Ev (StagingFlush temporary) true; Ev (StagingSync temporary) true])).
    { repeat (apply Forall_app; split); [by repeat constructor | apply writes_of_preparing | by repeat constructor]. }
    split.
    + intros before metadata' temporary' count hex y after Heq. symmetry in Heq. symmetry in Heq.
      eapply (last_call_split handed_over) in Heq as [-> He]; [|eapply Forall_impl; [exact Hp|]; by intros e [He _] | done].
      injection He as -> -> -> -> _. exists random, body. repeat (split; [done|]). lia.
    + intros name [He|He]%Exists_app; [|apply Exists_cons in He as [[]|He]; by apply Exists_nil in He].
      left. apply Exists_app. right. left. by rewrite (creates_own _ _ _ Hp He).
Qed.

(** C23: an object is installed only as the whole of a sealed, durable file, and no file is left behind. When a
    request hands an object over, its body was read to the end, every chunk was written in order and the file synced
    just before, the count and the digest are those of exactly these bytes, within the sealed size and the global
    bound; and a staging file that was created is handed over or removed, whatever fails. *)
Theorem objects_are_staged_whole digest headers chunks tr answer :
  (forall metadata, object_metadata headers = Some metadata -> 0 <= om_bytes metadata) ->
  runs (install_object digest headers chunks) tr answer -> handed_over_whole digest headers chunks tr /\ leaves_no_file tr.
Proof.
  intros Hpos Hr. unfold install_object in Hr.
  assert (Hnone : tr = [] -> handed_over_whole digest headers chunks tr /\ leaves_no_file tr).
  { intros ->. split; [by apply no_hand_over|]. by intros name He%Exists_nil. }
  destruct (object_metadata headers) as [metadata|] eqn:Em; [|by destruct Hr as [Hr _]; apply Hnone].
  destruct (str_eqb (om_sha256 metadata) digest) eqn:Ed; cbn [negb] in Hr; [|by destruct Hr as [Hr _]; apply Hnone].
  destruct (Z.ltb_spec MAX_OBJECT_BYTES (om_bytes metadata)); [by destruct Hr as [Hr _]; apply Hnone|].
  destruct (length_mismatch _ _); [by destruct Hr as [Hr _]; apply Hnone|].
  apply stage_object_runs in Hr as (temporary & Hs); [|split; [by apply Hpos | done]].
  eapply staging_good; eauto. by apply str_eqb_eq.
Qed.
End server.

(** ** A sample upload *)
Module Sample.
#[local] Instance wire : WireTypes := {
  TSubmit := unit; TObserve := unit; TCancel := unit; TAcknowledge := unit; TList := unit; TStat := unit; TRead := unit;
  TWriteFile := unit; TSearch := unit; TExecute := unit; TStdin := unit; TStored := unit; TReceipt := unit; TObservation := unit;
  TCancellation := unit; TAcknowledgement := unit; TStatus := unit; TFileList := unit; TFileEntry := unit; TContent := unit;
  TStdinReceipt := unit }.

Definition metadata : InstallObjectMetadata := mkInstallObjectMetadata "abc" 3.
#[local] Instance ops : @ServerOps wire unit unit := {
  CONTRACT_DIGEST := "contract"; decode_request _ := None; encode_response _ := None;
  receipt_observation o := o; observation_terminal _ := false; observation_operation_id _ := "operation-1";
  bundle_metadata_of_json _ := None; descriptor_digest _ := "abc"; object_metadata_of_json _ := Some metadata;
  base64_decode _ := Some []; base64_encode _ := ""; entry_bytes _ := 0; entry_to_json _ := None;
  hex_sha256 := String.string_of_list_ascii }.

Definition headers : HeaderMap := {[OBJECT_METADATA_HEADER := Some "metadata"; CONTENT_LENGTH := Some "3"]}.
Definition chunks : list (option (list Ascii.ascii)) := [Some ["a"%char]; Some ["b"%char; "c"%char]].
Definition temporary : string := ".abc.install-1".
Definition upload : list (Event (@Srv wire unit unit unit unit unit)) :=
  [Ev RandomName "1"; Ev (StagingCreate temporary) true; Ev (StagingWrite temporary ["a"%char]) true;
   Ev (StagingWrite temporary ["b"%char; "c"%char]) true; Ev (StagingFlush temporary) true; Ev (StagingSync temporary) true;
   Ev (HInstallObject metadata temporary 3 "abc") (Ok ReceiptNew)].

Lemma objects_are_staged_whole_witness :
  runs (install_object "abc" headers chunks) upload (AnswerReceipt ReceiptNew)
  /\ handed_over_whole "abc" headers chunks upload /\ leaves_no_file upload.
Proof.
  assert (Hr : runs (install_object "abc" headers chunks) upload (AnswerReceipt ReceiptNew)) by (repeat eexists).
  split; [exact Hr|]. apply (objects_are_staged_whole "abc" headers chunks upload (AnswerReceipt ReceiptNew)); [|exact Hr].
  intros m Hm. vm_compute in Hm. by injection Hm as <-.
Defined.
End Sample.
