(* ===== verification/Session.v ===== *)
(** * The guest client and the guest server over one socket

    The two ends of the private transport together: crates/hand-brain-aws/src/client.rs ([AwsClient]) sends framed
    requests and reads replies, crates/hand-guest/src/server.rs ([GuestServer]) dispatches and answers them. *)
From S2P Require Import Prelude Wire GuestErrors Prog AwsErrors AwsCalls AwsClient AwsSafety GuestServer.

Section session.
Context {B : BrainTypes} {O : HandOps} {Descriptor Binding Secrets ExportRequest Entry : Type}.
Notation ServerOps := (@ServerOps hand_wire Descriptor Entry).
Context {S : ServerOps}.
Notation Srv := (@Srv hand_wire Descriptor Binding Secrets ExportRequest Entry).
Notation serve := (serve_connection (T := hand_wire) (Descriptor := Descriptor) (Binding := Binding) (Secrets := Secrets)
  (ExportRequest := ExportRequest) (Entry := Entry)).
Notation dispatch := (dispatch (T := hand_wire) (Descriptor := Descriptor) (Binding := Binding) (Secrets := Secrets)
  (ExportRequest := ExportRequest) (Entry := Entry)).

(** The guest's error as the client reads it: no detail is added on the way. *)
Definition public_error (e : HandError) : AwsError := error (code e) (retryable e).
Definition public_response (r : ResponseFrame HandError) : ResponseFrame AwsError :=
  mkResponseFrame (rs_request_id r) (map_err public_error (rs_result r)).

(** The two codecs agree, and every refusal can be encoded. *)
Context (same_contract : CONTRACT_DIGEST = HAND_CONTRACT_DIGEST).
Context (requests_roundtrip : forall f text, encode_frame f = Some text -> decode_request text = Some f).
Context (responses_roundtrip : forall r text, encode_response r = Some text -> decode_response text = Some (public_response r)).
Context (refusals_encode : forall id e, is_Some (encode_response (mkResponseFrame id (Err e)))).

(** What the server puts on the wire for a result. *)
Definition answered (id : string) (r : result HandError ResponseReply) : result HandError ResponseReply :=
  match encode_response (mkResponseFrame id r) with
  | Some text => if str_len text <=? MAX_WIRE_FRAME_BYTES then r else Err (hand_error ResourceExhausted false)
  | None => Err (hand_error ResourceExhausted false)
  end.

Definition attempt_of (r : result HandError ResponseReply) : result RpcAttemptError ResponseReply :=
  match r with Ok reply => Ok reply | Err e => Err (AttemptHand (public_error e)) end.

Definition sent_texts (tr : list (Event Srv)) : list string :=
  List.flat_map (fun e => match e with Ev (SendText text) _ => [text] | _ => [] end) tr.

(** The connection stays up, and no image canary exits. *)
Definition up (e : Event Srv) : Prop := match e with Ev (SendText _) false => False | Ev (ShouldExitAfter _) true => False | _ => True end.

Lemma sent_texts_app t1 t2 : sent_texts (t1 ++ t2) = sent_texts t1 ++ sent_texts t2.
Proof. apply List.flat_map_app. Qed.

Lemma dispatch_sends_nothing c tr r : runs (dispatch c) tr r -> sent_texts tr = [].
Proof. destruct c; cbn; by intros (x & tr' & -> & -> & _). Qed.

Lemma canary_exit_up response text tr exit : runs (canary_exit response text) tr exit -> Forall up tr -> exit = false /\ sent_texts tr = [].
Proof.
  unfold canary_exit. destruct (terminal_operation_id response) as [id|]; [|by intros [-> ->]].
  intros ([] & t & -> & Hr) Hu; [by apply Forall_cons in Hu as [[] _]|]. by destruct Hr as [-> ->].
Qed.

(** One response: one text, which decodes to the answer. *)
Lemma respond_sends id r tr served :
  runs (respond (mkResponseFrame id r) : Prog Srv Served) tr served -> Forall up tr ->
  served = Serving /\ exists text, sent_texts tr = [text] /\ decode_response text = Some (public_response (mkResponseFrame id (answered id r))).
Proof.
  assert (Hw : forall t, runs (match encode_response (mkResponseFrame id (Err (hand_error ResourceExhausted false))) with
      | Some text => Do (SendText text) (fun sent : bool => Ret (if sent then Serving else Closed)) | None => Ret Closed end : Prog Srv Served) t served ->
    Forall up t -> served = Serving /\ exists text, sent_texts t = [text]
      /\ decode_response text = Some (public_response (mkResponseFrame id (Err (hand_error ResourceExhausted false))))).
  { intros t Hr Hu. destruct (refusals_encode id (hand_error ResourceExhausted false)) as [text Ht]. rewrite Ht in Hr.
    destruct Hr as ([] & t' & -> & -> & ->); [|by apply Forall_cons in Hu as [[] _]]. split; [done|]. exists text. split; [done | by apply responses_roundtrip]. }
  unfold respond, answered. cbn [rs_request_id]. cbv zeta. destruct (encode_response (mkResponseFrame id r)) as [text|] eqn:He; [|apply Hw].
  destruct (str_len text <=? MAX_WIRE_FRAME_BYTES); [|apply Hw].
  intros (exit & t1 & t2 & -> & Hc & Hr)%runs_bind [Hu1 Hu2]%Forall_app. apply (canary_exit_up _ _ _ _ Hc) in Hu1 as [-> Hs1].
  destruct Hr as ([] & t3 & -> & Hr); [|by apply Forall_cons in Hu2 as [[] _]]. cbn [negb] in Hr. destruct Hr as [-> ->].
  split; [done|]. exists text. rewrite sent_texts_app, Hs1. split; [done | by apply responses_roundtrip].
Qed.

Lemma receipt_own f text messages r :
  decode_response text = Some (public_response (mkResponseFrame (rf_request_id f) r)) ->
  (forall reply, r = Ok reply -> reply_method reply = request_method (rf_call f)) ->
  receipt f (MsgText text :: messages) = attempt_of r.
Proof.
  intros Hd Hm. cbn [receipt]. rewrite Hd. unfold reply_of, public_response. cbn [rs_request_id rs_result]. rewrite str_eqb_refl. cbn [negb].
  destruct r as [reply|e]; cbn [map_err]; [|done]. by rewrite (Hm reply eq_refl), str_eqb_refl.
Qed.

Lemma receipt_other f id text messages r :
  decode_response text = Some (public_response (mkResponseFrame id r)) -> id <> rf_request_id f ->
  receipt f (MsgText text :: messages) = receipt f messages.
Proof. intros Hd Hid. cbn [receipt]. rewrite Hd. unfold reply_of, public_response. cbn [rs_request_id]. by rewrite (proj2 (str_eqb_neq _ _) Hid). Qed.

End session.

(** ** A sample session: two requests, one answered and one refused *)
Module Sample.
Definition identity : FileEffectIdentity := mkFileEffectIdentity Write "operation-1" "digest".
#[local] Instance brain : BrainTypes := AwsSafety.Sample.brain.

(** A frame is its method's letter and its identifier. *)
Definition frame_text (f : RequestFrame) : option string :=
  if str_eqb (rf_contract_digest f) "contract" then
    match rf_call f with
    | CallStatus => Some (String "S" (rf_request_id f))
    | CallReserveFileEffect i => if decide (i = identity) then Some (String "R" (rf_request_id f)) else None
    | _ => None
    end
  else None.
Definition frame_of (text : string) : option RequestFrame :=
  match text with
  | String "S" id => Some (mkRequestFrame id "contract" CallStatus)
  | String "R" id => Some (mkRequestFrame id "contract" (CallReserveFileEffect identity))
  | _ => None
  end.

(** A response is the letter of its reply, or of its error, and the identifier. *)
Definition code_letter (c : HandErrorCode) : Ascii.ascii :=
  match c with
  | InvalidRequest => "a" | FileNotFound => "b" | OperationUnknown => "c" | BindingConflict => "d" | OperationConflict => "e"
  | GenerationConflict => "f" | SandboxNotMaterialized => "g" | SandboxGone => "h" | ResourceExhausted => "i"
  | CapabilityUnavailable => "j" | TemporarilyUnavailable => "k"
  end.
Definition letter_code (a : Ascii.ascii) : option HandErrorCode :=
  match a with
  | "a" => Some InvalidRequest | "b" => Some FileNotFound | "c" => Some OperationUnknown | "d" => Some BindingConflict
  | "e" => Some OperationConflict | "f" => Some GenerationConflict | "g" => Some SandboxNotMaterialized | "h" => Some SandboxGone
  | "i" => Some ResourceExhausted | "j" => Some CapabilityUnavailable | "k" => Some TemporarilyUnavailable | _ => None
  end%char.
Definition response_text (r : ResponseFrame HandError) : option string :=
  match rs_result r with
  | Ok (ReplyStatus s) => if str_eqb s "idle" then Some (String "S" (rs_request_id r)) else None
  | Err (mkHandError c retryable) => Some (String (if retryable then "T" else "E") (String (code_letter c) (rs_request_id r)))
  | _ => None
  end.
Definition response_of (text : string) : option (ResponseFrame AwsError) :=
  match text with
  | String "S" id => Some (mkResponseFrame id (Ok (ReplyStatus "idle")))
  | String "T" (String a id) => c ← letter_code a; Some (mkResponseFrame id (Err (error c true)))
  | String "E" (String a id) => c ← letter_code a; Some (mkResponseFrame id (Err (error c false)))
  | _ => None
  end.

#[local] Instance hand : HandOps := AwsSafety.Sample.ops_with frame_text response_of.
#[local] Instance server : @ServerOps hand_wire unit unit := {
  CONTRACT_DIGEST := "contract"; decode_request := frame_of; encode_response := response_text;
  receipt_observation o := o; observation_terminal _ := false; observation_operation_id o := o;
  bundle_metadata_of_json _ := None; descriptor_digest _ := "digest"; object_metadata_of_json _ := None;
  base64_decode _ := None; base64_encode _ := ""; entry_bytes _ := 0; entry_to_json _ := None; hex_sha256 _ := "digest" }.

Lemma frames_roundtrip f text : frame_text f = Some text -> frame_of text = Some f.
Proof.
  unfold frame_text. destruct f as [id digest c]. cbn [rf_contract_digest rf_call rf_request_id].
  destruct (str_eqb digest "contract") eqn:Ed; [|done]. apply str_eqb_eq in Ed as ->.
  destruct c; try done; [by intros [= <-]|]. destruct (decide _) as [->|]; [by intros [= <-] | done].
Qed.

Lemma responses_decode r text : response_text r = Some text -> response_of text = Some (public_response r).
Proof.
  unfold response_text. destruct r as [id [reply | [c []]]]; cbn [rs_result rs_request_id].
  - destruct reply as [| | | |s| | | | | | | | | | |]; try done. destruct (str_eqb s "idle") eqn:Es; [|done]. apply str_eqb_eq in Es as ->. by intros [= <-].
  - intros [= <-]. by destruct c.
  - intros [= <-]. by destruct c.
Qed.

Definition frames : list RequestFrame :=
  [mkRequestFrame "1" "contract" CallStatus; mkRequestFrame "2" "contract" (CallReserveFileEffect identity)].
Definition refused : HandError := hand_error BindingConflict false.
Definition exchange : list (Event (@Srv hand_wire unit unit unit unit unit)) :=
  [Ev HRuntimeStatus (Some "idle"); Ev (SendText "S1") true; Ev (HReserve identity) (Err refused); Ev (SendText "Ed2") true].

End Sample.
