(* ===== verification/Image.v ===== *)
(** * hand-lambda: the image pipeline

    Models crates/hand-lambda/src/image.rs: the identity of a publication (its digest, tokens, description and
    artifact key), the checks on its inputs, and the publication itself, the wait for the build and the expiry
    check as programs over the calls on the image service, the bucket and the clock. SHA-256 is a parameter; the
    generated Dockerfile, the boot script and the packing of the archive are data and the zip writer's; the printed
    rows of versions are in Operator.v. *)
From S2P Require Import Prelude Policy Page Connector Launcher Control GuestErrors AwsErrors AwsSeals Prog.

Definition AGENT_PORT : Z := 8080.
Definition BUILD_WAIT_MS : Z := 30 * 60 * 1000.
Definition BUILD_POLL_MS : Z := 15 * 1000.
Definition PUBLISH_REQUEST_TOKEN_SCHEMA : string := "hand-lambda-publish-request-v5".

Definition base_image_arn (region : string) : string := "arn:aws:lambda:" +:+ region +:+ ":aws:microvm-image:al2023-1".
Definition image_build_egress_connector (region : string) : string :=
  "arn:aws:lambda:" +:+ region +:+ ":aws:network-connector:aws-network-connector:INTERNET_EGRESS".

Record PublishConfig := mkPublishConfig {
  source_sha : string; image_name : string; bucket : string; build_role_arn : string; log_group : string;
  egress_connectors : list string }.
Record PublishedImage := mkPublishedImage { image_arn : string; published_version : string }.

Inductive PublishError :=
  | InvalidSourceSha | InvalidConnector | ConnectorCount | PubControl (e : ControlError) | UploadFailed
  | WrongDescription | BuildFailed | BuildTimeout
  (* the model's bound on the pages of a listing and on polling; no error of the code *)
  | OutOfFuel.

(** ** Checks on the inputs *)
Definition validate_source_sha (source_sha : string) : result PublishError unit :=
  ensure ((str_len source_sha =? 40) && forallb is_lower_hex (bytes_of source_sha)) InvalidSourceSha.

Definition connector_name_byte (c : Ascii.ascii) : bool := is_ascii_alphanumeric c || Ascii.eqb c "-" || Ascii.eqb c "_".
Definition is_account (account : string) : bool := (str_len account =? 12) && forallb is_ascii_digit (bytes_of account).
Definition is_connector_name (name : string) : bool :=
  negb (is_empty name) && (str_len name <=? 64) && forallb connector_name_byte (bytes_of name).
Definition is_connector_version (version : string) : bool :=
  negb (is_empty version) && forallb is_ascii_digit (bytes_of version) && negb (str_eqb version "0").

(** The parts are read one after the other; a missing account or name is empty. *)
Fixpoint expect_parts (fixed parts : list string) : result PublishError (list string) :=
  match fixed with
  | [] => Ok parts
  | expected :: fixed =>
      match parts with
      | part :: parts => if str_eqb part expected then expect_parts fixed parts else Err InvalidConnector
      | [] => Err InvalidConnector
      end
  end.

Definition validate_network_connector_arn (connector region : string) : result PublishError unit :=
  parts ← expect_parts ["arn"; "aws"; "lambda"; region] (split_on ":" connector);
  _ ← ensure (is_account (default "" (head parts))) InvalidConnector;
  parts ← expect_parts ["network-connector"] (tail parts);
  _ ← ensure (is_connector_name (default "" (head parts))) InvalidConnector;
  match tail parts with
  | [] => Ok tt
  | version :: rest =>
      _ ← ensure (is_connector_version version) InvalidConnector;
      match rest with [] => Ok tt | _ => Err InvalidConnector end
  end.

Definition validated_connectors (connectors : list string) (region : string) : result PublishError (list string) :=
  let connectors := dedup (sort_by str_leb connectors) in
  _ ← ensure (len connectors =? 3) ConnectorCount;
  _ ← mapM_result (fun connector => validate_network_connector_arn connector region) connectors;
  Ok connectors.

Definition ELF_MAGIC : list Ascii.ascii := map Ascii.ascii_of_N [127; 69; 76; 70]%N.
Definition EM_AARCH64 : Z := 183.
Definition validate_aarch64_elf (bytes : list Ascii.ascii) : bool :=
  (19 <? len bytes) && bool_decide (take 4 bytes = ELF_MAGIC) && bool_decide (byte_val <$> bytes !! 18%nat = Some EM_AARCH64).

(** ** Versions: [3.0] before [10.0] *)
Definition version_part (part : option string) : Z := default 0 (p ← part; parse_uint U64_MAX p).
Definition version_ord (v : string) : Z * Z :=
  let parts := split_on "." v in (version_part (head parts), version_part (parts !! 1%nat)).
Definition ord_leb (a b : Z * Z) : bool := (a.1 <? b.1) || ((a.1 =? b.1) && (a.2 <=? b.2)).
Definition ord_ltb (a b : Z * Z) : bool := negb (ord_leb b a).

(** [max_by_key]: the last of the greatest. *)
Definition later {A} (key : A -> Z * Z) (best : option A) (x : A) : option A :=
  match best with Some b => if ord_leb (key b) (key x) then Some x else Some b | None => Some x end.
Definition newest {A} (key : A -> Z * Z) (l : list A) : option A := fold_left (later key) l None.

(** ** The identity of a publication *)
Definition hex_char (d : Z) : Ascii.ascii := Ascii.ascii_of_N (Z.to_N (if d <? 10 then 48 + d else 87 + d)).
Definition hex_encode (bytes : list Ascii.ascii) : string :=
  String.string_of_list_ascii (concat (map (fun c => [hex_char (byte_val c / 16); hex_char (byte_val c mod 16)]) bytes)).

Inductive PublishOperation := Create | Update.
Definition operation_str (o : PublishOperation) : string := match o with Create => "create" | Update => "update" end.

Section image.
Context (sha256 : list Ascii.ascii -> list Ascii.ascii).

Definition artifact_key (zip : list Ascii.ascii) : string := "hands/images/" +:+ hex_encode (sha256 zip) +:+ ".zip".

Definition publish_request_fields (identity : list string) (cfg : PublishConfig) (artifact_key : string) : list string :=
  [PUBLISH_REQUEST_TOKEN_SCHEMA] ++ identity
  ++ [source_sha cfg; image_name cfg; bucket cfg; build_role_arn cfg; log_group cfg; artifact_key].
Definition publish_request_preimage (identity : list string) (cfg : PublishConfig) (artifact_key : string) : list Ascii.ascii :=
  length_prefixed (publish_request_fields identity cfg artifact_key) ++ length_prefixed (sort_by str_leb (egress_connectors cfg)).
Definition publish_request_digest (identity : list string) (cfg : PublishConfig) (artifact_key : string) : string :=
  hex_encode (take 16 (sha256 (publish_request_preimage identity cfg artifact_key))).

Definition publish_client_token (operation : PublishOperation) (region image_identifier : string) (cfg : PublishConfig)
    (artifact_key : string) : string :=
  publish_request_digest [operation_str operation; region; image_identifier] cfg artifact_key.
Definition publish_request_fingerprint (region : string) (cfg : PublishConfig) (artifact_key : string) : string :=
  publish_request_digest [region] cfg artifact_key.
Definition publish_description (source_sha request_fingerprint : string) : string :=
  "Aex Hand source " +:+ source_sha +:+ " request " +:+ request_fingerprint +:+ " (" +:+ print_uint MVP_TARGET_MEMORY_MIB +:+ " MiB shape)".

(** ** The calls *)
Inductive ImageState := BuildSuccessful | BuildHasFailed | BuildOther (name : string).
Record ImageVersion := mkImageVersion {
  iv_version : string; iv_description : option string; iv_state : ImageState;
  iv_base_image_arn : string; iv_base_image_version : option string }.

(** Hooks: the timeout in seconds of an enabled one. *)
Record ImageHooks := mkImageHooks {
  hk_port : Z; hk_run : option Z; hk_resume : option Z; hk_suspend : option Z; hk_terminate : option Z;
  hk_ready : option Z; hk_validate : option Z }.
Definition publish_hooks : ImageHooks := mkImageHooks AGENT_PORT (Some 60) None None None (Some 300) (Some 120).

Record ImageSpec := mkImageSpec {
  is_base_image_arn : string; is_build_role_arn : string; is_description : string; is_code_uri : string;
  is_log_group : string; is_log_stream : string; is_egress_connector : string; is_minimum_memory_mib : Z;
  is_hooks : ImageHooks; is_client_token : string }.

Inductive Pub : Type -> Type :=
  | ListImages (next : option string) : Pub (result ProviderError (list (string * string) * option string))
  | ListVersions (arn : string) : Pub (result ProviderError (list ImageVersion))
  | GetVersion (arn version : string) : Pub (result ProviderError ImageVersion)
  | ListManaged (base_arn : string) : Pub (result ProviderError (list string))
  | PutContext (bucket key : string) (zip : list Ascii.ascii) : Pub bool
  | CreateImage (name : string) (spec : ImageSpec) : Pub (result ProviderError (string * string))
  | UpdateImage (arn : string) (spec : ImageSpec) : Pub (result ProviderError (string * string))
  | PubInstant : Pub Z
  | PubSleep (duration_ms : Z) : Pub unit.

Definition read_failed (e : ProviderError) : PublishError := PubControl (read_error e).
Notation PubM := (ProgM Pub PublishError).

(** ** The wait for a build *)
Definition poll_again (deadline : Z) (next : PubM PublishedImage) : PubM PublishedImage :=
  Do PubInstant (fun now => if deadline <? now then Ret (Err BuildTimeout) else Do (PubSleep BUILD_POLL_MS) (fun _ => next)).

Definition build_state (description : string) (image : PublishedImage) (v : ImageVersion) (wait : PubM PublishedImage) : PubM PublishedImage :=
  if negb (bool_decide (iv_description v = Some description)) then Ret (Err WrongDescription)
  else match iv_state v with
       | BuildSuccessful => Ret (Ok image)
       | BuildHasFailed => Ret (Err BuildFailed)
       | BuildOther _ => wait
       end.

Fixpoint wait_loop (fuel : nat) (image : PublishedImage) (description : string) (deadline : Z) : PubM PublishedImage :=
  match fuel with
  | O => Ret (Err OutOfFuel)
  | S fuel =>
      let wait := poll_again deadline (wait_loop fuel image description deadline) in
      Do (GetVersion (image_arn image) (published_version image)) (fun r =>
        match map_err read_error r with
        | Ok v => build_state description image v wait
        | Err (Retryable _) | Err (Throttled _) => wait
        | Err e => Ret (Err (PubControl e))
        end)
  end.

(** A turn more than the polls that fit in the wait. *)
Definition BUILD_TURNS : nat := Z.to_nat (BUILD_WAIT_MS / BUILD_POLL_MS + 2).

Definition wait_for_build (arn version description : string) : PubM PublishedImage :=
  Do PubInstant (fun start => wait_loop BUILD_TURNS (mkPublishedImage arn version) description (start + BUILD_WAIT_MS)).

(** ** Publication *)
Definition image_named (name : string) (item : string * string) : bool := str_eqb item.1 name.

Fixpoint find_loop (fuel : nat) (name : string) (next : option string) : PubM (option string) :=
  match fuel with
  | O => prog_throw OutOfFuel
  | S fuel =>
      out ← try_call read_failed (ListImages next);
      match List.find (image_named name) out.1 with
      | Some item => mret (Some item.2)
      | None => match out.2 with None => mret None | next => find_loop fuel name next end
      end
  end.
Definition find_image_arn (fuel : nat) (name : string) : PubM (option string) :=
  if starts_with "arn:" name then mret (Some name) else find_loop fuel name None.

Definition resumable (description : string) (versions : list ImageVersion) : option string :=
  match newest (fun v => version_ord (iv_version v)) versions with
  | Some v => if bool_decide (iv_description v = Some description) then Some (iv_version v) else None
  | None => None
  end.
Definition resumable_version (arn description : string) : PubM (option string) :=
  versions ← try_call read_failed (ListVersions arn); mret (resumable description versions).

Definition upload_context (cfg : PublishConfig) (key : string) (zip : list Ascii.ascii) : PubM string :=
  Do (PutContext (bucket cfg) key zip) (fun stored : bool =>
    Ret (if stored then Ok ("s3://" +:+ bucket cfg +:+ "/" +:+ key) else Err UploadFailed)).

Definition image_spec (region : string) (cfg : PublishConfig) (description uri client_token : string) : ImageSpec :=
  mkImageSpec (base_image_arn region) (build_role_arn cfg) description uri (log_group cfg) (image_name cfg)
    (image_build_egress_connector region) MVP_TARGET_MEMORY_MIB publish_hooks client_token.

Definition register_image (region : string) (existing_arn : option string) (cfg : PublishConfig) (description uri key : string)
    : PubM (string * string) :=
  match existing_arn with
  | Some arn =>
      try_call read_failed (UpdateImage arn (image_spec region cfg description uri (publish_client_token Update region arn cfg key)))
  | None =>
      try_call read_failed (CreateImage (image_name cfg)
        (image_spec region cfg description uri (publish_client_token Create region (image_name cfg) cfg key)))
  end.

Definition register_and_wait (region : string) (existing_arn : option string) (cfg : PublishConfig) (description key : string)
    (zip : list Ascii.ascii) : PubM PublishedImage :=
  uri ← upload_context cfg key zip;
  registered ← register_image region existing_arn cfg description uri key;
  wait_for_build registered.1 registered.2 description.

(** [pages]: how many pages of images are read at most. *)
Definition publish (pages : nat) (region : string) (cfg : PublishConfig) (zip : list Ascii.ascii) : PubM PublishedImage :=
  _ ← prog_lift (validate_source_sha (source_sha cfg));
  _ ← prog_lift (validated_connectors (egress_connectors cfg) region);
  let key := artifact_key zip in
  let description := publish_description (source_sha cfg) (publish_request_fingerprint region cfg key) in
  existing_arn ← find_image_arn pages (image_name cfg);
  match existing_arn with
  | Some arn =>
      resumed ← resumable_version arn description;
      match resumed with
      | Some version => wait_for_build arn version description
      | None => register_and_wait region existing_arn cfg description key zip
      end
  | None => register_and_wait region existing_arn cfg description key zip
  end.

(** ** The expiry check *)
Definition rebuild_due (arn version : string) : PubM (option string) :=
  ours ← try_call read_failed (GetVersion arn version);
  managed ← try_call read_failed (ListManaged (iv_base_image_arn ours));
  mret (match newest version_ord managed with
        | Some latest => if ord_ltb (version_ord (default "0" (iv_base_image_version ours))) (version_ord latest) then Some latest else None
        | None => None
        end).

(** ** Lemmas *)

(** *** The identity *)
Definition representable (l : list string) : Prop := Forall (fun s => str_len s <= U64_MAX) l.

Lemma length_prefixed_whole_inj l1 l2 :
  representable l1 -> representable l2 -> length_prefixed l1 = length_prefixed l2 -> l1 = l2.
Proof.
  assert (Hcons : forall a l, length_prefixed (a :: l) <> []).
  { intros a l H. apply (f_equal length) in H. unfold length_prefixed in H. cbn [map concat] in H.
    rewrite !length_app, length_be_bytes in H. cbn in H. lia. }
  revert l2. induction l1 as [|a l1 IH]; intros [|b l2] H1 H2 H; [done | by symmetry in H; apply Hcons in H | by apply Hcons in H|].
  apply Forall_cons in H1 as [Ha H1], H2 as [Hb H2]. change (a :: l1) with ([a] ++ l1) in H. change (b :: l2) with ([b] ++ l2) in H.
  assert (Happ : forall x l, length_prefixed ([x] ++ l) = length_prefixed [x] ++ length_prefixed l).
  { intros x l. unfold length_prefixed. cbn. by rewrite app_nil_r. }
  rewrite !Happ in H. apply length_prefixed_inj in H as [[= ->] H]; [|done|by constructor|by constructor]. by rewrite (IH l2).
Qed.

Lemma representable_perm l l' : l ≡ₚ l' -> representable l -> representable l'.
Proof. intros Hp. unfold representable. by rewrite Hp. Qed.

(** Every identity of a publication. *)
Definition same_publication (id1 id2 : list string) (cfg1 cfg2 : PublishConfig) (key1 key2 : string) : Prop :=
  id1 = id2 /\ source_sha cfg1 = source_sha cfg2 /\ image_name cfg1 = image_name cfg2 /\ bucket cfg1 = bucket cfg2
  /\ build_role_arn cfg1 = build_role_arn cfg2 /\ log_group cfg1 = log_group cfg2 /\ key1 = key2
  /\ egress_connectors cfg1 ≡ₚ egress_connectors cfg2.

(** Two publications have the same token exactly when they are the same publication. Digests of the same kind
    hash the same bytes exactly when the operation and the image, the source, the name, the bucket, the role, the
    log group and the artifact are the same and the connectors are the same up to their order: no field can be
    shifted into another, and the order in which connectors are given never changes the token. *)
Theorem publication_identity_is_exact id1 id2 cfg1 cfg2 key1 key2 :
  length id1 = length id2 ->
  representable (publish_request_fields id1 cfg1 key1 ++ egress_connectors cfg1) ->
  representable (publish_request_fields id2 cfg2 key2 ++ egress_connectors cfg2) ->
  publish_request_preimage id1 cfg1 key1 = publish_request_preimage id2 cfg2 key2
  <-> same_publication id1 id2 cfg1 cfg2 key1 key2.
Proof.
  intros Hlen [Hf1 Hc1]%Forall_app [Hf2 Hc2]%Forall_app. unfold publish_request_preimage, same_publication. split.
  - intros H. apply length_prefixed_inj in H as [Hf H]; [|unfold publish_request_fields; rewrite !length_app; cbn; lia|done|done].
    unfold publish_request_fields in Hf. apply app_inj_1 in Hf as [_ Hf]; [|done].
    apply app_inj_1 in Hf as [-> Hf]; [|done]. simplify_eq.
    apply length_prefixed_whole_inj in H; [|by eapply representable_perm; [symmetry; apply sort_by_Permutation|]..].
    apply sort_str_perm in H. done.
  - intros (-> & Hs & Hn & Hb & Hr & Hl & -> & Hc). unfold publish_request_fields.
    apply sort_str_perm in Hc. by rewrite Hs, Hn, Hb, Hr, Hl, Hc.
Qed.

(** *** Effects *)
Definition effect_call {X} (c : Pub X) : bool :=
  match c with PutContext _ _ _ | CreateImage _ _ | UpdateImage _ _ => true | _ => false end.
Definition effect (e : Event Pub) : bool := match e with Ev c _ => effect_call c end.
Definition effects (tr : list (Event Pub)) : list (Event Pub) := List.filter effect tr.

Lemma effects_app t1 t2 : effects (t1 ++ t2) = effects t1 ++ effects t2.
Proof. apply List.filter_app. Qed.

Lemma effects_none {A} (p : Prog Pub A) tr a : calls_in (fun X (c : Pub X) => effect_call c = false) p -> runs p tr a -> effects tr = [].
Proof.
  intros Hp Hr. pose proof (runs_calls _ p tr a Hp Hr) as Hf. clear -Hf. induction Hf as [|[X c x] tr He _ IH]; [done|]. cbn in *. by rewrite He.
Qed.

Lemma find_image_arn_reads fuel name : calls_in (fun X (c : Pub X) => effect_call c = false) (find_image_arn fuel name).
Proof.
  unfold find_image_arn. destruct (starts_with _ _); [done|]. generalize (@None string).
  induction fuel as [|fuel IH]; intros next; [done|]. cbn [find_loop]. split; [done|]. intros [[items more]|e]; cbn; [|done].
  destruct (List.find _ _); [done|]. destruct more; [apply IH | done].
Qed.

Lemma resumable_version_reads arn description : calls_in (fun X (c : Pub X) => effect_call c = false) (resumable_version arn description).
Proof. split; [done|]. by intros [versions|e]. Qed.

Lemma wait_loop_reads fuel image description deadline :
  calls_in (fun X (c : Pub X) => effect_call c = false) (wait_loop fuel image description deadline).
Proof.
  induction fuel as [|fuel IH]; [done|]. cbn [wait_loop]. set (wait := poll_again deadline _).
  assert (Hw : calls_in (fun X (c : Pub X) => effect_call c = false) wait).
  { split; [done|]. intros now. by destruct (deadline <? now). }
  clearbody wait. split; [done|]. intros r. destruct (map_err read_error r) as [v|e]; [|by destruct e].
  unfold build_state. destruct (negb _); [done|]. by destruct (iv_state v).
Qed.
Lemma wait_for_build_reads arn version description : calls_in (fun X (c : Pub X) => effect_call c = false) (wait_for_build arn version description).
Proof. split; [done|]. intros start. apply wait_loop_reads. Qed.

(** *** The wait *)
Definition built (image : PublishedImage) (description : string) (tr : list (Event Pub)) : Prop :=
  exists earlier v, tr = earlier ++ [Ev (GetVersion (image_arn image) (published_version image)) (Ok v)]
    /\ iv_state v = BuildSuccessful /\ iv_description v = Some description.

Lemma built_cons image description e tr : built image description tr -> built image description (e :: tr).
Proof. intros (earlier & v & -> & H). by exists (e :: earlier), v. Qed.

Lemma poll_again_runs deadline next tr r :
  runs (poll_again deadline next) tr r ->
  exists now, (deadline < now /\ tr = [Ev PubInstant now] /\ r = Err BuildTimeout)
    \/ (now <= deadline /\ exists tr', tr = Ev PubInstant now :: Ev (PubSleep BUILD_POLL_MS) tt :: tr' /\ runs next tr' r).
Proof.
  intros (now & t & -> & Hr). exists now. destruct (Z.ltb_spec deadline now); [left | right]; (split; [lia|]).
  - by destruct Hr as [-> ->].
  - destruct Hr as ([] & t' & -> & Hr). eauto.
Qed.

(** One turn: an answer that ends the wait, or another poll. *)
Lemma wait_loop_turn fuel image description deadline tr r :
  runs (wait_loop (S fuel) image description deadline) tr r ->
  exists x t, tr = Ev (GetVersion (image_arn image) (published_version image)) x :: t
    /\ (runs (poll_again deadline (wait_loop fuel image description deadline)) t r
        \/ (t = [] /\ r <> Err OutOfFuel
            /\ forall image', r = Ok image' -> image' = image
                 /\ exists v, x = Ok v /\ iv_state v = BuildSuccessful /\ iv_description v = Some description)).
Proof.
  intros (x & t & -> & Hr). exists x, t. split; [done|]. destruct x as [v|e]; cbn [map_err] in Hr.
  - unfold build_state in Hr. destruct (bool_decide_reflect (iv_description v = Some description)); cbn [negb] in Hr.
    + destruct (iv_state v) eqn:Es; [right; destruct Hr as [-> ->]..|by left]; (split; [done|]; split; [done|]; intros image' [=]).
      subst image'. split; [done|]. by exists v.
    + right. by destruct Hr as [-> ->].
  - destruct (read_error e); first [by left | right; by destruct Hr as [-> ->]].
Qed.

Lemma wait_for_build_Ok arn version description tr image :
  runs (wait_for_build arn version description) tr (Ok image) ->
  image = mkPublishedImage arn version /\ built image description tr.
Proof.
  intros (start & t & -> & Hr). set (deadline := start + BUILD_WAIT_MS) in Hr. clearbody deadline. revert t Hr.
  induction BUILD_TURNS as [|fuel IH]; intros t Hr; [by destruct Hr|].
  apply wait_loop_turn in Hr as (x & t' & -> & [(now & [(_ & _ & ?)|(_ & tr & -> & Hr)])%poll_again_runs | (-> & _ & Hr)]); [done| |].
  - apply IH in Hr as [-> Hb]. split; [done|]. destruct Hb as (earlier & v & Heq & Hv). destruct earlier as [|e earlier]; [done|].
    injection Heq as _ ->. do 4 apply built_cons. by exists earlier, v.
  - destruct (Hr image eq_refl) as (-> & v & -> & Hs & Hd). split; [done|]. by exists [Ev PubInstant start], v.
Qed.

(** The clock of a publication. *)
Definition pub_reads (e : Event Pub) : option Z :=
  match e with Ev c x => match c in Pub X return X -> option Z with PubInstant => fun t => Some t | _ => fun _ => None end x end.
Definition pub_sleeps (e : Event Pub) : Z := match e with Ev (PubSleep duration) _ => duration | _ => 0 end.
Notation advances := (advances pub_reads pub_sleeps).

Lemma build_turns_end fuel image description deadline now tr r :
  (1 <= fuel)%nat -> deadline < now + BUILD_POLL_MS * (Z.of_nat fuel - 1) -> advances now tr ->
  runs (wait_loop fuel image description deadline) tr r -> r <> Err OutOfFuel.
Proof.
  revert now tr. induction fuel as [|fuel IH]; intros now tr Hf Hd Ha Hr; [lia|].
  apply wait_loop_turn in Hr as (x & t & -> & [(i & [(_ & _ & ->)|(Hi & t' & -> & Hr)])%poll_again_runs | (_ & Hr & _)]); [done| |done].
  cbn in Ha. rewrite Z.add_0_r in Ha. destruct Ha as [Hn Ha]. unfold BUILD_POLL_MS in *.
  destruct fuel as [|fuel]; [lia|]. eapply (IH (i + 15 * 1000)); [lia | lia | exact Ha | exact Hr].
Qed.

(** The wait for a build ends: when the clock does not go back and advances by what is slept, polling stops within
    the turns of the model, whatever the service answers. *)
Theorem build_wait_ends arn version description now tr r :
  advances now tr -> runs (wait_for_build arn version description) tr r -> r <> Err OutOfFuel.
Proof.
  intros Ha (start & t & -> & Hr). destruct Ha as [_ Ha].
  eapply build_turns_end; [| |exact Ha|exact Hr]; [|unfold BUILD_WAIT_MS, BUILD_POLL_MS]; change BUILD_TURNS with 122%nat; lia.
Qed.

(** *** Publication *)
Definition description_of (region : string) (cfg : PublishConfig) (zip : list Ascii.ascii) : string :=
  publish_description (source_sha cfg) (publish_request_fingerprint region cfg (artifact_key zip)).

(** The one registration of a publication, and its answer. *)
Inductive registers (region : string) (cfg : PublishConfig) (zip : list Ascii.ascii) :
    result ProviderError (string * string) -> Event Pub -> Prop :=
  | RegistersNew out :
      registers region cfg zip out
        (Ev (CreateImage (image_name cfg)
               (image_spec region cfg (description_of region cfg zip) ("s3://" +:+ bucket cfg +:+ "/" +:+ artifact_key zip)
                  (publish_client_token Create region (image_name cfg) cfg (artifact_key zip)))) out)
  | RegistersVersion arn out :
      registers region cfg zip out
        (Ev (UpdateImage arn
               (image_spec region cfg (description_of region cfg zip) ("s3://" +:+ bucket cfg +:+ "/" +:+ artifact_key zip)
                  (publish_client_token Update region arn cfg (artifact_key zip)))) out).

(** What a publication changed: nothing, the upload alone, or the upload and then the registration. *)
Inductive changed (region : string) (cfg : PublishConfig) (zip : list Ascii.ascii) :
    list (Event Pub) -> result PublishError PublishedImage -> Prop :=
  | ChangedNothing r : changed region cfg zip [] r
  | ChangedUpload : changed region cfg zip [Ev (PutContext (bucket cfg) (artifact_key zip) zip) false] (Err UploadFailed)
  | ChangedRefused e reg : registers region cfg zip (Err e) reg ->
      changed region cfg zip [Ev (PutContext (bucket cfg) (artifact_key zip) zip) true; reg] (Err (read_failed e))
  | ChangedRegistered arn version reg r : registers region cfg zip (Ok (arn, version)) reg ->
      (forall image, r = Ok image -> image = mkPublishedImage arn version) ->
      changed region cfg zip [Ev (PutContext (bucket cfg) (artifact_key zip) zip) true; reg] r.

Lemma register_and_wait_runs region existing cfg zip tr r :
  runs (register_and_wait region existing cfg (description_of region cfg zip) (artifact_key zip) zip) tr r ->
  changed region cfg zip (effects tr) r /\ effects tr <> []
  /\ forall image, r = Ok image -> built image (description_of region cfg zip) tr.
Proof.
  unfold register_and_wait. intros (u & t1 & t & -> & (stored & t1' & -> & -> & ->) & Hr)%runs_bind. destruct stored.
  2: { destruct Hr as [-> ->]. split; [constructor|]. by split. }
  apply runs_bind in Hr as (reg & t2 & t3 & -> & Hreg & Hr).
  assert (exists out e, t2 = [e] /\ registers region cfg zip out e /\ reg = map_err read_failed out /\ effects [e] = [e]) as (out & e & -> & Hreg' & -> & He).
  { unfold register_image in Hreg. destruct existing as [arn|]; destruct Hreg as (out & t & -> & -> & ->); eexists out, _; repeat split; constructor. }
  rewrite (effects_app [_] ([e] ++ t3)), (effects_app [e] t3), He. destruct out as [[arn version]|e']; cbn [map_err] in Hr.
  - rewrite (effects_none _ _ _ (wait_for_build_reads _ _ _) Hr). split; [|split; [done|]].
    + apply (ChangedRegistered _ _ _ arn version); [done|]. intros image ->. by apply wait_for_build_Ok in Hr as [-> _].
    + intros image ->. apply wait_for_build_Ok in Hr as [_ Hb]. by do 2 apply built_cons.
  - destruct Hr as [-> ->]. split; [by apply ChangedRefused|]. by split.
Qed.

Lemma built_app image description t tr : built image description tr -> built image description (t ++ tr).
Proof. intros Hb. induction t as [|e t IH]; [done|]. by apply built_cons. Qed.


(** *** Versions *)
Lemma ord_leb_refl a : ord_leb a a = true.
Proof. unfold ord_leb. rewrite Z.eqb_refl, Z.leb_refl. by rewrite orb_true_r. Qed.
Lemma ord_leb_le a b : ord_leb a b = true <-> a.1 < b.1 \/ (a.1 = b.1 /\ a.2 <= b.2).
Proof. unfold ord_leb. rewrite orb_true_iff, andb_true_iff, Z.ltb_lt, Z.eqb_eq, Z.leb_le. done. Qed.

Lemma newest_spec {A} (key : A -> Z * Z) l :
  match newest key l with Some x => x ∈ l /\ Forall (fun y => ord_leb (key y) (key x) = true) l | None => l = [] end.
Proof.
  induction l as [|x l IH] using rev_ind; [done|]. unfold newest in *. rewrite fold_left_app. cbn [fold_left].
  destruct (fold_left (later key) l None) as [b|]; cbn [later]; [|subst l; split; [by left | repeat constructor; apply ord_leb_refl]].
  destruct IH as [Hb Hl]. destruct (ord_leb (key b) (key x)) eqn:E; (split; [apply elem_of_app|apply Forall_app; split]).
  - right. by left.
  - eapply Forall_impl; [exact Hl|]. intros y Hy. apply ord_leb_le in E, Hy. apply ord_leb_le. lia.
  - repeat constructor. apply ord_leb_refl.
  - by left.
  - done.
  - repeat constructor. apply ord_leb_le. apply not_true_iff_false in E. rewrite ord_leb_le in E. lia.
Qed.

(** A rebuild is due exactly when a managed base newer than the recorded one exists, and the newest is named. *)
Theorem rebuild_due_is_exact arn version tr due :
  runs (rebuild_due arn version) tr (Ok due) ->
  exists ours managed,
    tr = [Ev (GetVersion arn version) (Ok ours); Ev (ListManaged (iv_base_image_arn ours)) (Ok managed)]
    /\ let recorded := version_ord (default "0" (iv_base_image_version ours)) in
       match due with
       | Some latest => latest ∈ managed /\ Forall (fun m => ord_leb (version_ord m) (version_ord latest) = true) managed
                        /\ ord_ltb recorded (version_ord latest) = true
       | None => Forall (fun m => ord_leb (version_ord m) recorded = true) managed
       end.
Proof.
  unfold rebuild_due. intros (ours & t1 & t2 & -> & (r1 & t1' & -> & -> & H1) & Hr)%runs_mbind_Ok. destruct r1; simplify_eq/=.
  apply (runs_mbind_Ok (try_call read_failed (ListManaged _))) in Hr as (managed & t3 & t4 & -> & (r2 & t3' & -> & -> & H2) & [-> Hr]).
  destruct r2 as [l|]; [|done]. injection H2 as <-. injection Hr as ->. eexists _, managed. split; [done|]. cbn zeta. pose proof (newest_spec version_ord managed) as Hn.
  destruct (newest version_ord managed) as [latest|]; [|by subst; constructor]. destruct Hn as [Hin Hall].
  unfold ord_ltb. destruct (ord_leb (version_ord latest) _) eqn:E; cbn [negb]; [|by rewrite E].
  eapply Forall_impl; [exact Hall|]. intros m Hm. apply ord_leb_le in E, Hm. apply ord_leb_le. cbn in *. lia.
Qed.
End image.

(** ** A sample publication *)
Module Sample.
Definition connector (name : string) : string := "arn:aws:lambda:us-east-1:123456789012:network-connector:" +:+ name.
Definition sha : string := "0123456789012345678901234567890123456789".
Definition config (connectors : list string) : PublishConfig := mkPublishConfig sha "hands" "bucket" "role" "logs" connectors.
Definition given : PublishConfig := config [connector "none"; connector "public"; connector "allow"].
Definition reordered : PublishConfig := config [connector "allow"; connector "none"; connector "public"].
Definition sum (l : list Ascii.ascii) : list Ascii.ascii := take 16 l.
Definition description : string := description_of sum "us-east-1" given ["z"%char].
Definition version : ImageVersion := mkImageVersion "1.0" (Some description) BuildSuccessful "base" None.

Definition answers (X : Type) (c : Pub X) (w : Z) : X * Z :=
  (match c in Pub X return X with
   | ListImages _ => Ok ([], None)
   | ListVersions _ => Ok []
   | GetVersion _ _ => Ok version
   | ListManaged _ => Ok []
   | PutContext _ _ _ => true
   | CreateImage _ _ => Ok ("arn:image", "1.0")
   | UpdateImage _ _ => Err ProviderConstruction
   | PubInstant => w
   | PubSleep _ => tt
   end, w).

Lemma publication_identity_is_exact_witness :
  publish_request_preimage ["create"; "us-east-1"; "hands"] given "key" = publish_request_preimage ["create"; "us-east-1"; "hands"] reordered "key"
  <-> same_publication ["create"; "us-east-1"; "hands"] ["create"; "us-east-1"; "hands"] given reordered "key" "key".
Proof. apply publication_identity_is_exact; [done | repeat constructor; done..]. Defined.

Definition published : result PublishError PublishedImage * list (Event Pub) * Z := exec answers (publish sum 1 "us-east-1" given ["z"%char]) 0.

End Sample.
