(* ===== verification/Settings.v ===== *)
(** * Settings: what the processes read from their environment

    Models crates/hand-brain-aws/src/config.rs (the AWS plane), the configuration of the guest
    (crates/hand-guest/src/config.rs, whose validation is in GuestErrors.v) and
    crates/hand-egress-gateway/src/config.rs. An environment gives each variable as [std::env::var] reports it.
    Parsing a socket address, keys and networks, the resolver's construction and the files read are parameters.
    The theorems say what every accepted configuration guarantees to the components that run under it: the
    launches they seal, the identities they keep apart, and the hosts a sandbox never reaches. *)
From S2P Require Import Prelude Policy Connector Target EgressPolicy Capability Proxy GuestErrors GuestInstall DynamoTable AwsSeals Control Image.

(** ** The environment *)
Inductive EnvVar := VarValue (value : string) | NotPresent | NotUnicode.
Definition Environment := string -> EnvVar.

(** [std::env::var(name).ok()] *)
Definition env_ok (env : Environment) (name : string) : option string :=
  match env name with VarValue value => Some value | _ => None end.

(** [PathBuf::join] with a relative path. *)
Definition path_join (base path : string) : string :=
  if str_len base =? 0 then path else if ends_with "/" base then base +:+ path else base +:+ "/" +:+ path.

(** ** The AWS plane *)
Inductive SettingsError :=
  | Required (name : string) | Blank (name : string) | Unparsable (name : string) | WrongRegion
  | ConnectorRefused (e : ConnectorError) | ArnRefused (e : PublishError) | MemoryMultiple
  | MibUnicode (name : string) | MibRange (name : string) | BoundOverflow
  (* the panic of [ConnectorCatalog::resolve] *)
  | NoSuchClass.

Definition MIB : Z := 1024 * 1024.
Definition DEFAULT_BUNDLE_CACHE_MAX_MIB : Z := 128.
Definition DEFAULT_BUNDLE_FETCH_MAX_MIB : Z := 32.
Definition MAX_CONFIGURED_BUNDLE_CACHE_MIB : Z := 512.

Record HandPlaneConfig := mkHandPlaneConfig {
  region : string; image : string; image_version : string; registry_table : string;
  max_materialized_mib : Z; bundle_cache_max_bytes : Z; bundle_fetch_max_bytes : Z;
  connectors : ConnectorCatalog; capability_signing_key_id : string; egress_gateway_authority : GatewayAuthority }.

Definition required (env : Environment) (name : string) : result SettingsError string :=
  value ← ok_or (Required name) (env_ok env name);
  _ ← ensure (negb (str_len (trim value) =? 0)) (Blank name);
  Ok value.

Definition connector_variable (class : ConnectorClass) : string :=
  match class with
  | ConnNone => "HAND_NETWORK_CONNECTOR_NONE"
  | ConnAllowlist => "HAND_NETWORK_CONNECTOR_ALLOWLIST"
  | ConnPublic => "HAND_NETWORK_CONNECTOR_PUBLIC"
  end.

Definition optional_mib (env : Environment) (name : string) (default min max : Z) : result SettingsError Z :=
  value ← match env name with
          | VarValue value => ok_or (Unparsable name) (parse_uint U64_MAX value)
          | NotPresent => Ok default
          | NotUnicode => Err (MibUnicode name)
          end;
  _ ← ensure ((min <=? value) && (value <=? max)) (MibRange name);
  Ok value.

(** [usize::try_from] accepts every [u64] on the 64-bit targets of the repository. *)
Definition mib_bytes (value : Z) : result SettingsError Z := ok_or BoundOverflow (checked_mul value MIB).

Definition validate_class (catalog : ConnectorCatalog) (region : string) (class : ConnectorClass) : result SettingsError unit :=
  reference ← ok_or NoSuchClass (resolve catalog class);
  map_err ArnRefused (validate_network_connector_arn (ref_str reference) region).

(** [HandPlaneConfig::from_env]; a field is read where the code reads it. *)
Definition plane_from_env (env : Environment) : result SettingsError HandPlaneConfig :=
  let region := default "us-east-1" (env_ok env "AWS_REGION") in
  _ ← ensure (str_eqb region "us-east-1") WrongRegion;
  connectors ← map_err ConnectorRefused (from_lookup (fun class => env_ok env (connector_variable class)));
  _ ← mapM_result (validate_class connectors region) [ConnNone; ConnAllowlist; ConnPublic];
  text ← required env "HAND_MAX_MATERIALIZED_MIB";
  max_materialized_mib ← ok_or (Unparsable "HAND_MAX_MATERIALIZED_MIB") (parse_uint U64_MAX text);
  _ ← ensure ((TARGET_MEMORY_MIB <=? max_materialized_mib) && (max_materialized_mib mod TARGET_MEMORY_MIB =? 0)) MemoryMultiple;
  cache_mib ← optional_mib env "HAND_BUNDLE_CACHE_MAX_MIB" DEFAULT_BUNDLE_CACHE_MAX_MIB 16 MAX_CONFIGURED_BUNDLE_CACHE_MIB;
  fetch_mib ← optional_mib env "HAND_BUNDLE_FETCH_MAX_MIB" DEFAULT_BUNDLE_FETCH_MAX_MIB 16 cache_mib;
  image ← required env "HAND_IMAGE";
  image_version ← required env "HAND_IMAGE_VERSION";
  registry_table ← required env "HAND_REGISTRY_TABLE";
  cache_bytes ← mib_bytes cache_mib;
  fetch_bytes ← mib_bytes fetch_mib;
  signing_key ← required env "HAND_CAPABILITY_SIGNING_KEY_ID";
  authority ← required env "HAND_EGRESS_GATEWAY_AUTHORITY";
  authority ← map_err ConnectorRefused (GatewayAuthority_parse authority);
  Ok (mkHandPlaneConfig region image image_version registry_table max_materialized_mib cache_bytes fetch_bytes connectors
        signing_key authority).

(** ** The guest *)
Inductive GuestConfigError := BadListen | MissingId (name : string) | BadId (name : string) | InvalidConfig.

Section guest.
Context {SocketAddr : Type} (parse_addr : string -> option SocketAddr).
(** What the process sees: regular files, and its effective user. *)
Context (is_file : string -> bool) (euid : Z).

Record GuestConfig := mkGuestConfig {
  gc_listen : SocketAddr; workspace : string; state_dir : string; tool_dir : string; object_dir : string;
  tool_runner : string; sandboxing : Sandboxing }.

Definition parse_id (env : Environment) (name : string) : result GuestConfigError Z :=
  value ← ok_or (MissingId name) (env_ok env name);
  ok_or (BadId name) (parse_uint U32_MAX value).

Definition guest_from_env (env : Environment) : result GuestConfigError GuestConfig :=
  let read name fallback := default fallback (env_ok env name) in
  listen ← ok_or BadListen (parse_addr (read "HAND_LISTEN" "0.0.0.0:8080"));
  let state_dir := read "HAND_STATE_DIR" "/var/hand" in
  supervisor ← parse_id env "HAND_SUPERVISOR_UID";
  tool ← parse_id env "HAND_TOOL_UID";
  group ← parse_id env "HAND_TOOL_GID";
  let config := mkGuestConfig listen (read "HAND_WORKSPACE" "/workspace") state_dir (read "HAND_TOOL_DIR" "/var/hand/tools")
    (path_join state_dir "objects") (read "HAND_TOOL_RUNNER" "/usr/local/lib/hand/tool-runner.mjs")
    (Enforced (mkToolIdentity tool group supervisor)
       (read "HAND_TOOL_BOUNDARY_LIBRARY" "/usr/local/lib/hand/tool-boundary.so")) in
  _ ← ensure (validate_config is_file euid (sandboxing config)) InvalidConfig;
  Ok config.
End guest.

(** ** The egress gateway *)
Inductive ConfigError :=
  | PublicKeySource | Missing (name : string) | Invalid (name : string) | PublicKey | Resolver
  (* the panic of [builtin_deny_hosts] *)
  | BuiltinHosts.

(** A value that is present but not UTF-8 is refused, not taken for an absent one. *)
Definition optional_env (env : Environment) (name : string) : result ConfigError (option string) :=
  match env name with
  | VarValue value => Ok (Some value)
  | NotPresent => Ok None
  | NotUnicode => Err (Invalid name)
  end.

(** [usize_env] and [u64_env]: the default is checked like a value. *)
Definition u64_env (env : Environment) (name : string) (default min max : Z) : result ConfigError Z :=
  value ← optional_env env name;
  value ← match value with Some text => ok_or (Invalid name) (parse_uint U64_MAX text) | None => Ok default end;
  _ ← ensure ((min <=? value) && (value <=? max)) (Invalid name);
  Ok value.

Definition split_values (value : string) : list string :=
  List.filter (fun v => negb (str_len v =? 0)) (map trim (split_on ","%char value)).

Section gateway.
Context {SocketAddr Net VerifyingKey TokioResolver : Type} `{!EqDecision SocketAddr}.
Context (parse_addr : string -> option SocketAddr) (parse_cidr : string -> option Net).
Context (domain_to_ascii_strict : string -> option string).
(** Keys: decoding them, and the file that may hold one. *)
Context (from_pem : string -> option VerifyingKey) (from_der : list Ascii.ascii -> option VerifyingKey).
Context (decode_base64 : string -> option (list Ascii.ascii)) (read_file : string -> option (list Ascii.ascii)).
(** The resolver built with IPv4 lookups and its intermediate aliases kept. *)
Context (build_resolver : option TokioResolver).

(** A duration is its milliseconds. *)
Record GatewayConfig := mkGatewayConfig {
  gw_listen : SocketAddr; health_listen : SocketAddr; public_key : VerifyingKey; resolver : TokioResolver;
  deny : DenyPolicy Net; gw_limits : GatewayLimits; setup_timeout : Z; idle_timeout : Z }.

Definition read_public_key (path : string) : result ConfigError VerifyingKey :=
  bytes ← ok_or PublicKey (read_file path);
  if starts_with "-----BEGIN" (String.string_of_list_ascii bytes)
  then pem ← ok_or PublicKey (from_utf8 bytes); ok_or PublicKey (from_pem pem)
  else ok_or PublicKey (from_der bytes).

Definition public_key_from_env (env : Environment) : result ConfigError VerifyingKey :=
  let present (o : option string) : nat := match o with Some _ => 1%nat | None => 0%nat end in
  let file := env_ok env "AEX_GATEWAY_PUBLIC_KEY_FILE" in
  let pem := env_ok env "AEX_GATEWAY_PUBLIC_KEY_PEM" in
  let der := env_ok env "AEX_GATEWAY_PUBLIC_KEY_DER_BASE64" in
  _ ← ensure (Nat.eqb (present file + present pem + present der) 1) PublicKeySource;
  match file, pem, der with
  | Some file, _, _ => read_public_key file
  | None, Some pem, _ => ok_or PublicKey (from_pem pem)
  | None, None, Some der => bytes ← ok_or PublicKey (decode_base64 der); ok_or PublicKey (from_der bytes)
  (* the [expect]: exactly one source is present *)
  | None, None, None => Err PublicKeySource
  end.

(** [None]: the [expect] of a built-in host. *)
Definition builtin_deny_hosts : option (list string) :=
  match mapM_result (normalize_host_pattern domain_to_ascii_strict) ["aex.dev"; "*.aex.dev"] with
  | Ok hosts => Some hosts
  | Err _ => None
  end.

Definition configured_deny (env : Environment) : result ConfigError (DenyPolicy Net) :=
  let hosts_name := "AEX_GATEWAY_DENY_HOSTS" in
  text ← ok_or (Missing hosts_name) (env_ok env hosts_name);
  configured ← map_err (fun _ => Invalid hosts_name)
    (mapM_result (normalize_host_pattern domain_to_ascii_strict) (split_values text));
  _ ← ensure (negb (len configured =? 0)) (Invalid hosts_name);
  builtin ← ok_or BuiltinHosts builtin_deny_hosts;
  cidrs ← optional_env env "AEX_GATEWAY_DENY_CIDRS";
  cidrs ← match cidrs with
          | Some value => ok_or (Invalid "AEX_GATEWAY_DENY_CIDRS") (mapM parse_cidr (split_values value))
          | None => Ok []
          end;
  Ok (mkDenyPolicy (builtin ++ configured) cidrs).

Definition gateway_limits (env : Environment) : result ConfigError GatewayLimits :=
  connections ← u64_env env "AEX_GATEWAY_MAX_CONNECTIONS" 1024 1 100000;
  per_root ← u64_env env "AEX_GATEWAY_MAX_CONNECTIONS_PER_ROOT" 16 1 1024;
  pending ← u64_env env "AEX_GATEWAY_MAX_PENDING_SETUPS" 256 1 4096;
  relay_bytes ← u64_env env "AEX_GATEWAY_MAX_RELAY_BYTES" (2 * 1024 * 1024 * 1024) (1024 * 1024) (16 * 1024 * 1024 * 1024);
  Ok (mkGatewayLimits connections per_root pending relay_bytes).

Definition listen_address (env : Environment) (name fallback : string) : result ConfigError SocketAddr :=
  ok_or (Invalid name) (parse_addr (default fallback (env_ok env name))).

Definition gateway_from_env (env : Environment) : result ConfigError GatewayConfig :=
  listen ← listen_address env "AEX_GATEWAY_LISTEN" "0.0.0.0:8080";
  health ← listen_address env "AEX_GATEWAY_HEALTH_LISTEN" "0.0.0.0:8081";
  _ ← ensure (negb (bool_decide (listen = health))) (Invalid "AEX_GATEWAY_HEALTH_LISTEN");
  public_key ← public_key_from_env env;
  resolver ← ok_or Resolver build_resolver;
  deny ← configured_deny env;
  limits ← gateway_limits env;
  setup ← u64_env env "AEX_GATEWAY_SETUP_TIMEOUT_MS" 10000 100 60000;
  idle ← u64_env env "AEX_GATEWAY_IDLE_TIMEOUT_MS" 300000 1000 3600000;
  Ok (mkGatewayConfig listen health public_key resolver deny limits setup idle).
End gateway.

(** ** The AWS plane: what an accepted configuration guarantees *)
Lemma required_Ok env name value :
  required env name = Ok value <-> env name = VarValue value /\ str_len (trim value) <> 0.
Proof.
  unfold required, env_ok. destruct (env name) as [v| |]; cbn; [|naive_solver..]. unfold ensure.
  destruct (Z.eqb_spec (str_len (trim v)) 0); cbn; naive_solver.
Qed.

Lemma required_named env name value : required env name = Ok value -> value <> EmptyString.
Proof. intros [_ H]%required_Ok ->. by vm_compute in H. Qed.

Lemma optional_mib_Ok env name d lo hi value : optional_mib env name d lo hi = Ok value -> lo <= value <= hi.
Proof. unfold optional_mib. intros H. ok_steps. match goal with H : ensure _ _ = Ok _ |- _ => apply ensure_Ok in H end. by bool_hyps. Qed.

(** No accepted number of MiB overflows a [usize]: the two errors of [mib_bytes] are never seen. *)
Lemma mib_bytes_total value : 0 <= value <= MAX_CONFIGURED_BUNDLE_CACHE_MIB -> mib_bytes value = Ok (value * MIB).
Proof.
  unfold mib_bytes, checked_mul, MIB, MAX_CONFIGURED_BUNDLE_CACHE_MIB, U64_MAX. intros H.
  by rewrite (proj2 (Z.leb_le _ _)) by lia.
Qed.

(** What the components under an accepted configuration rely on. *)
Record plane_ok (env : Environment) (c : HandPlaneConfig) : Prop := {
  po_region : region c = "us-east-1";
  po_named : Forall (fun s => s <> EmptyString) [image c; image_version c; registry_table c; capability_signing_key_id c];
  po_memory : TARGET_MEMORY_MIB <= max_materialized_mib c <= U64_MAX /\ (TARGET_MEMORY_MIB | max_materialized_mib c);
  po_bundles : 16 * MIB <= bundle_fetch_max_bytes c <= bundle_cache_max_bytes c
               /\ bundle_cache_max_bytes c <= MAX_CONFIGURED_BUNDLE_CACHE_MIB * MIB;
  po_classes : forall class, exists reference, resolve (connectors c) class = Some reference
    /\ env (connector_variable class) = VarValue (ref_str reference) /\ ref_str reference <> EmptyString
    /\ validate_network_connector_arn (ref_str reference) "us-east-1" = Ok tt;
  po_gateway : GatewayAuthority_parse (as_authority (egress_gateway_authority c)) = Ok (egress_gateway_authority c) }.

Lemma classes_ok env catalog units :
  from_lookup (fun class => env_ok env (connector_variable class)) = Ok catalog ->
  mapM_result (validate_class catalog "us-east-1") [ConnNone; ConnAllowlist; ConnPublic] = Ok units ->
  forall class, exists reference, resolve catalog class = Some reference
    /\ env (connector_variable class) = VarValue (ref_str reference) /\ ref_str reference <> EmptyString
    /\ validate_network_connector_arn (ref_str reference) "us-east-1" = Ok tt.
Proof.
  intros (Hall & _ & Hres)%connector_catalog_never_falls_back Hv class. apply mapM_result_Forall2 in Hv.
  destruct (Hall class) as (v & Hl & Ht). exists (mkConnectorRef v). rewrite Hres, Hl. cbn. split; [done|].
  split; [unfold env_ok in Hl; destruct (env _); naive_solver|].
  split; [by intros ->|]. assert (Hc : class ∈ [ConnNone; ConnAllowlist; ConnPublic]) by (destruct class; set_solver).
  apply list_elem_of_lookup_1 in Hc as [i Hi]. destruct (Forall2_lookup_l _ _ _ _ _ Hv Hi) as ([] & _ & H).
  unfold validate_class in H. rewrite Hres, Hl in H. by apply map_err_Ok in H.
Qed.

(** An accepted configuration of the plane is pinned to its region, names every class by a connector of that
    region of its own, bounds the materialized memory by whole targets and the bundles in flight by the bundle
    cache, and leaves no name empty: what sealing a launch, the plane counter and the caches rely on. *)
Theorem plane_settings_are_sound env c : plane_from_env env = Ok c -> plane_ok env c.
Proof.
  unfold plane_from_env. intros H. ok_steps.
  repeat match goal with
    | H : ensure _ _ = Ok _ |- _ => apply ensure_Ok in H; bool_hyps
    | H : optional_mib _ _ _ _ _ = Ok _ |- _ => apply optional_mib_Ok in H
    | H : required _ _ = Ok _ |- _ => apply required_named in H
    end.
  match goal with
  | Hr : default _ _ = "us-east-1", Hn : mapM_result _ _ = Ok _, Hc : from_lookup _ = Ok _, Hp : parse_uint _ _ = Some _ |- _ =>
      rewrite Hr in *; pose proof (classes_ok _ _ _ Hc Hn); apply parse_uint_bounds in Hp; [|unfold U64_MAX; lia]
  end.
  repeat match goal with
    | H : mib_bytes _ = Ok _ |- _ => rewrite mib_bytes_total in H by lia; injection H as <-
    | H : GatewayAuthority_parse _ = Ok _ |- _ => apply gateway_authority_roundtrip in H as [H _]
    end.
  constructor; cbn [region image image_version registry_table capability_signing_key_id max_materialized_mib
    bundle_fetch_max_bytes bundle_cache_max_bytes connectors egress_gateway_authority]; try done.
  - by repeat constructor.
  - split; [lia|]. apply Z.mod_divide; [unfold TARGET_MEMORY_MIB, MVP_TARGET_MEMORY_MIB; lia | done].
  - unfold MIB. lia.
Qed.

(** ** The guest *)
(** An accepted configuration of the guest enforces the Tool boundary: the supervisor runs as its own user, which is
    neither the Tool's nor a binding's, the Tool is not root, and whatever bindings are installed later, each has a
    kernel user apart from both. *)
Theorem guest_identities_are_apart {SocketAddr} (parse_addr : string -> option SocketAddr) is_file euid env c :
  guest_from_env parse_addr is_file euid env = Ok c ->
  exists identity library, sandboxing c = Enforced identity library /\ is_file library = true
    /\ supervisor_uid identity = euid /\ uid identity <> euid /\ uid identity <> 0
    /\ forall g ref i, identities_inv (sandboxing_identity (sandboxing c)) g -> by_ref g !! ref = Some i ->
       exists own, i = Some own /\ uid own <> uid identity /\ uid own <> supervisor_uid identity /\ uid own <> 0.
Proof.
  unfold guest_from_env. intros H. ok_steps. eexists _, _. split; [done|].
  match goal with H : ensure _ _ = Ok _ |- _ => apply ensure_Ok in H; cbn in H; bool_hyps end. cbn. split_and!; try done; try lia.
  intros g ref [own|] [_ Huid Hnone] Hg; [|by apply Hnone in Hg]. exists own. split; [done|]. cbn.
  destruct (Huid ref own Hg) as [_ Hr]. unfold MANAGED_BINDING_UID_MIN in *. split_and!; lia.
Qed.

(** ** The egress gateway *)
Lemma u64_env_Ok env name d lo hi value : u64_env env name d lo hi = Ok value -> lo <= value <= hi.
Proof.
  unfold u64_env. intros H. ok_steps. match goal with H : ensure _ _ = Ok _ |- _ => apply ensure_Ok in H end. by bool_hyps.
Qed.

Section gateway_facts.
Context {SocketAddr Net VerifyingKey TokioResolver : Type} `{!EqDecision SocketAddr}.
Context (parse_addr : string -> option SocketAddr) (parse_cidr : string -> option Net).
Context (domain_to_ascii_strict : string -> option string).
Context (from_pem : string -> option VerifyingKey) (from_der : list Ascii.ascii -> option VerifyingKey).
Context (decode_base64 : string -> option (list Ascii.ascii)) (read_file : string -> option (list Ascii.ascii)).
Context (build_resolver : option TokioResolver).
Notation from_env := (gateway_from_env parse_addr parse_cidr domain_to_ascii_strict from_pem from_der decode_base64 read_file build_resolver).

Lemma configured_deny_Ok env d :
  configured_deny parse_cidr domain_to_ascii_strict env = Ok d ->
  exists builtin configured, builtin_deny_hosts domain_to_ascii_strict = Some builtin /\ configured <> []
    /\ hosts d = builtin ++ configured.
Proof.
  unfold configured_deny. intros H. ok_steps. match goal with H : ensure _ _ = Ok _ |- _ => apply ensure_Ok in H; bool_hyps end.
  eexists _, _. split; [done|]. split; [|done]. by intros ->.
Qed.

(** An accepted configuration of the gateway listens apart from its health endpoint, denies at least one host of its
    own besides the built-in ones, and bounds every capacity and wait. *)
Theorem gateway_settings_are_sound env c :
  from_env env = Ok c ->
  gw_listen c <> health_listen c
  /\ public_key_from_env from_pem from_der decode_base64 read_file env = Ok (public_key c)
  /\ (exists builtin configured, builtin_deny_hosts domain_to_ascii_strict = Some builtin /\ configured <> []
        /\ hosts (deny c) = builtin ++ configured)
  /\ 1 <= max_connections (gw_limits c) <= 100000 /\ 1 <= max_connections_per_root (gw_limits c) <= 1024
  /\ 1 <= max_pending_setups (gw_limits c) <= 4096 /\ 1048576 <= max_relay_bytes (gw_limits c) <= 17179869184
  /\ 100 <= setup_timeout c <= 60000 /\ 1000 <= idle_timeout c <= 3600000.
Proof.
  unfold gateway_from_env, gateway_limits. intros H. ok_steps.
  repeat match goal with
    | H : u64_env _ _ _ _ _ = Ok _ |- _ => apply u64_env_Ok in H
    | H : configured_deny _ _ _ = Ok _ |- _ => apply configured_deny_Ok in H
    | H : ensure _ _ = Ok _ |- _ => apply ensure_Ok in H; bool_hyps
    end.
  cbn. split_and!; try done; lia.
Qed.

(** The product's own control plane: its domain and every host below it. *)
Definition own_host (h : string) : Prop := h = "aex.dev" \/ exists pre, pre <> EmptyString /\ h = pre +:+ ".aex.dev".

Lemma own_host_denied env d h :
  domain_to_ascii_strict "aex.dev" = Some "aex.dev" -> configured_deny parse_cidr domain_to_ascii_strict env = Ok d ->
  own_host h -> denies_host d h = true.
Proof.
  intros Hidna (builtin & configured & Hb & _ & Hd)%configured_deny_Ok Hh. unfold denies_host. rewrite Hd.
  assert (Hn : normalize_host domain_to_ascii_strict "aex.dev" = Ok "aex.dev").
  { unfold normalize_host. rewrite Hidna. vm_compute. reflexivity. }
  unfold builtin_deny_hosts in Hb. cbn in Hb. rewrite Hn in Hb. cbn in Hb. injection Hb as <-.
  cbn [existsb app]. destruct Hh as [->|(pre & Hp & ->)]; [done|].
  rewrite orb_true_iff. right. rewrite orb_true_iff. left. apply (host_matches_suffix "aex.dev"). by exists pre.
Qed.

(** What IDNA's strict mapping documents, as in EgressPolicy.v. *)
Context (idna_std3 : forall v a, domain_to_ascii_strict v = Some a -> Forall (fun c => host_alphabet c = true) (bytes_of a)).
Context (idna_length : forall v a, domain_to_ascii_strict v = Some a -> str_len a <= 253).
Context (idna_stable : forall v a, domain_to_ascii_strict v = Some a ->
  domain_to_ascii_strict (to_ascii_lowercase a) = Some (to_ascii_lowercase a)).

(** Under an accepted configuration no sandbox reaches the product's own control plane by name, whatever the signed
    policy permits and whatever the resolver answers: neither the requested host nor an alias of it, and so no name a
    TLS tunnel is pinned to, is a host of the plane. *)
Theorem own_plane_is_unreachable (cidr_contains : Net -> Z -> bool) is_public_unicast lookup_ip env c policy authority port t :
  domain_to_ascii_strict "aex.dev" = Some "aex.dev" -> from_env env = Ok c -> parse_ip authority = None ->
  authorize cidr_contains domain_to_ascii_strict is_public_unicast lookup_ip policy (deny c) authority port = Ok t ->
  exists host records, normalize_host domain_to_ascii_strict authority = Ok host /\ ~ own_host host
    /\ lookup_ip (host +:+ ".") = Some records
    /\ (forall alias, CNAME alias ∈ records ->
        exists name, normalize_dns_name domain_to_ascii_strict alias = Ok name /\ ~ own_host name)
    /\ (forall sni, expected_sni t = Some sni -> ~ own_host sni).
Proof.
  intros Hidna Hc Hip Ha. unfold authorize in Ha. rewrite Hip in Ha. destruct (port =? 0); [done|].
  assert (Hd : configured_deny parse_cidr domain_to_ascii_strict env = Ok (deny c)).
  { unfold gateway_from_env in Hc. ok_steps. done. }
  assert (Hown : forall h, denies_host (deny c) h = false -> ~ own_host h).
  { intros h Hh Ho. by rewrite (own_host_denied _ _ _ Hidna Hd Ho) in Hh. }
  apply (authorize_name_exact domain_to_ascii_strict idna_std3 idna_length idna_stable) in Ha as (_ & host & records & Hn & Hden & Hl & Hr & _ & _ & Hs).
  exists host, records. split; [done|]. split; [by apply Hown|]. split; [done|]. split.
  - intros alias Hin. rewrite Forall_forall in Hr. destruct (Hr _ Hin) as (name & Hname & Hdn). exists name. split; [done|]. by apply Hown.
  - intros sni Hsni. destruct (existsb _ _); [|by destruct Hs; congruence]. rewrite Hs in Hsni. injection Hsni as <-. by apply Hown.
Qed.
End gateway_facts.

(** ** Witnesses *)
Module Sample.
Definition connector (name : string) : string := "arn:aws:lambda:us-east-1:123456789012:network-connector:" +:+ name.

(** The environments of three deployments. *)
Definition variables : list (string * string) :=
  [("HAND_NETWORK_CONNECTOR_NONE", connector "none"); ("HAND_NETWORK_CONNECTOR_ALLOWLIST", connector "allowlist:1");
   ("HAND_NETWORK_CONNECTOR_PUBLIC", connector "public:2"); ("HAND_MAX_MATERIALIZED_MIB", "4096");
   ("HAND_BUNDLE_CACHE_MAX_MIB", "64"); ("HAND_IMAGE", "hand"); ("HAND_IMAGE_VERSION", "3.0");
   ("HAND_REGISTRY_TABLE", "hands"); ("HAND_CAPABILITY_SIGNING_KEY_ID", "key-1");
   ("HAND_EGRESS_GATEWAY_AUTHORITY", "gateway.internal:8443");
   ("HAND_SUPERVISOR_UID", "1001"); ("HAND_TOOL_UID", "1000"); ("HAND_TOOL_GID", "1000");
   ("AEX_GATEWAY_PUBLIC_KEY_PEM", "pem"); ("AEX_GATEWAY_DENY_HOSTS", " api.example.com, ,"); ("AEX_GATEWAY_MAX_CONNECTIONS", "+64")].

Definition env (name : string) : EnvVar :=
  match List.find (fun v => str_eqb (fst v) name) variables with Some v => VarValue (snd v) | None => NotPresent end.

Definition plane : HandPlaneConfig :=
  mkHandPlaneConfig "us-east-1" "hand" "3.0" "hands" 4096 (64 * MIB) (32 * MIB)
    (ConnectorCatalog_new (mkConnectorRef (connector "none")) (mkConnectorRef (connector "public:2"))
       (mkConnectorRef (connector "allowlist:1"))) "key-1" (mkGatewayAuthority "gateway.internal" 8443).

Lemma plane_settings_are_sound_witness : plane_from_env env = Ok plane /\ plane_ok env plane.
Proof.
  assert (H : plane_from_env env = Ok plane) by (vm_compute; reflexivity).
  split; [exact H | exact (plane_settings_are_sound env plane H)].
Defined.

(** What the plane refuses: another region, a missing or blank name, a value that is not UTF-8, part of a target. *)
Definition changed (name : string) (v : EnvVar) (n : string) : EnvVar := if str_eqb n name then v else env n.
Example refused_planes :
  map (fun c => plane_from_env (changed (fst c) (snd c)))
    [("AWS_REGION", VarValue "eu-west-1"); ("HAND_IMAGE", VarValue " "); ("HAND_IMAGE_VERSION", NotPresent);
     ("HAND_MAX_MATERIALIZED_MIB", VarValue "1536"); ("HAND_BUNDLE_CACHE_MAX_MIB", VarValue "15");
     ("HAND_BUNDLE_FETCH_MAX_MIB", VarValue "65"); ("HAND_BUNDLE_FETCH_MAX_MIB", NotUnicode);
     ("HAND_NETWORK_CONNECTOR_NONE", VarValue "arn:aws:lambda:eu-west-1:123456789012:network-connector:none")]
  = [Err WrongRegion; Err (Blank "HAND_IMAGE"); Err (Required "HAND_IMAGE_VERSION"); Err MemoryMultiple;
     Err (MibRange "HAND_BUNDLE_CACHE_MAX_MIB"); Err (MibRange "HAND_BUNDLE_FETCH_MAX_MIB");
     Err (MibUnicode "HAND_BUNDLE_FETCH_MAX_MIB"); Err (ArnRefused InvalidConnector)].
Proof. vm_compute. reflexivity. Qed.

Definition guest : GuestConfig :=
  mkGuestConfig "0.0.0.0:8080" "/workspace" "/var/hand" "/var/hand/tools" "/var/hand/objects" "/usr/local/lib/hand/tool-runner.mjs"
    (Enforced (mkToolIdentity 1000 1000 1001) "/usr/local/lib/hand/tool-boundary.so").

Lemma guest_identities_are_apart_witness :
  guest_from_env Some (fun _ => true) 1001 env = Ok guest
  /\ exists identity library, sandboxing guest = Enforced identity library /\ true = true
    /\ supervisor_uid identity = 1001 /\ uid identity <> 1001 /\ uid identity <> 0
    /\ forall g ref i, identities_inv (sandboxing_identity (sandboxing guest)) g -> by_ref g !! ref = Some i ->
       exists own, i = Some own /\ uid own <> uid identity /\ uid own <> supervisor_uid identity /\ uid own <> 0.
Proof.
  assert (H : guest_from_env Some (fun _ => true) 1001 env = Ok guest) by (vm_compute; reflexivity).
  split; [exact H | exact (guest_identities_are_apart Some (fun _ => true) 1001 env guest H)].
Defined.

(** A host the policy permits, resolved directly; one that is an alias of the plane's own is refused. *)
Definition lookup (name : string) : option (list RData) :=
  if str_eqb name "www.example.com." then Some [A 134744072]
  else if str_eqb name "alias.example.com." then Some [CNAME "api.aex.dev."; A 134744072] else None.

Definition from_env := gateway_from_env (Net := Z) Some (fun _ => None) sample_idna Some (fun _ => None) (fun _ => None) (fun _ => None) (Some tt).
Definition gateway : GatewayConfig (Net := Z) :=
  mkGatewayConfig "0.0.0.0:8080" "0.0.0.0:8081" "pem" tt (mkDenyPolicy ["aex.dev"; "*.aex.dev"; "api.example.com"] [])
    (mkGatewayLimits 64 16 256 2147483648) 10000 300000.

Lemma gateway_settings_are_sound_witness : from_env env = Ok gateway /\ gw_listen gateway <> health_listen gateway.
Proof.
  assert (H : from_env env = Ok gateway) by (vm_compute; reflexivity).
  split; [exact H|]. exact (proj1 (gateway_settings_are_sound Some (fun _ => None) sample_idna Some (fun _ => None) (fun _ => None) (fun _ => None) (Some tt) env gateway H)).
Defined.

Definition policy : list (ValidatedDestination Z) := [HostRule "*.example.com" 443; HostRule "aex.dev" 443].
Definition reach (authority : string) : result PolicyError AuthorizedTarget :=
  authorize sample_contains sample_idna (fun _ => true) lookup policy (deny gateway) authority 443.

Lemma own_plane_is_unreachable_witness :
  reach "www.example.com" = Ok (mkAuthorizedTarget 134744072 443 (Some "www.example.com"))
  /\ reach "alias.example.com" = Err PermanentDeny /\ reach "aex.dev" = Err PermanentDeny
  /\ exists host records, normalize_host sample_idna "www.example.com" = Ok host /\ ~ own_host host
    /\ lookup (host +:+ ".") = Some records
    /\ (forall alias, CNAME alias ∈ records -> exists name, normalize_dns_name sample_idna alias = Ok name /\ ~ own_host name)
    /\ (forall sni, Some "www.example.com" = Some sni -> ~ own_host sni).
Proof.
  split; [vm_compute; reflexivity|]. split; [vm_compute; reflexivity|]. split; [vm_compute; reflexivity|].
  refine (own_plane_is_unreachable Some (fun _ => None) sample_idna Some (fun _ => None) (fun _ => None) (fun _ => None) (Some tt)
    sample_idna_std3 sample_idna_length sample_idna_stable sample_contains (fun _ => true) lookup env gateway policy "www.example.com" 443
    (mkAuthorizedTarget 134744072 443 (Some "www.example.com")) _ _ _ _); vm_compute; reflexivity.
Defined.
End Sample.
