(* ===== verification/GuestLife.v ===== *)
(** * hand-guest: supervised executions and shutdown

    Models the supervision of executions in crates/hand-guest/src/hand/operations.rs ([spawn_execution]) over the
    operation lifecycle of GuestOperations.v, the shutdown of crates/hand-guest/src/hand/mod.rs, and the build hooks
    of crates/hand-guest/src/hooks.rs. An admitted execution is a task that waits for one of a bounded number of
    slots, runs, records its terminal and gives its slot back; a task that dies gives its slot back at once and its
    supervisor records an interruption. Tasks and requests interleave in any order. A slot semaphore that is closed
    refuses every waiting task. *)
From S2P Require Import Prelude Policy Operation AppendLog Acks GuestErrors GuestTarget GuestInstall GuestOperations Prog.

(** ** Tasks *)
Inductive Task :=
  | Queued       (* waiting for a slot *)
  | Executing    (* holds a slot; the execution runs *)
  | Recorded     (* holds a slot; [finish] has returned *)
  | Faulted      (* died and gave its slot back; its supervisor is yet to record it *)
  | Ended.

#[global] Instance Task_eq_dec : EqDecision Task.
Proof. solve_decision. Defined.

Definition holds_slot (t : Task) : bool := match t with Executing | Recorded => true | _ => false end.

(** Where [shutdown] is: before it, after closing the slots, cancelling the tokens it collected, and waiting. *)
Inductive Phase := Serving | Closed | Cancelling (todo : list string) | Draining.

Definition closed (p : Phase) : bool := match p with Serving => false | _ => true end.

Section life.
Context {Inline Outcome : Type}.
Context (MAX_TOOL_TERMINAL_INLINE_BYTES : Z) (terminal_inline_fits : Inline -> bool) (Failed Interrupted : Outcome).
Context (oversize_note capacity_note fault_note : Inline).
Context (terminal_result_digest : @TerminalResult Inline Outcome -> string).
Context (encode_observation : @OperationObservation Inline Outcome -> option string).
Context (jcs_operation : OperationRef -> option (list Ascii.ascii)).
Context (ack_to_json : AcknowledgedOperation -> option (list Ascii.ascii)) (canonical_digest : OperationRef -> option string).

Notation Hand := (@Hand Inline Outcome).
Notation HandSystem := (@HandSystem Inline Outcome).
Notation ExecutionResult := (@ExecutionResult Inline Outcome).
Notation finish := (finish terminal_inline_fits Failed Interrupted oversize_note capacity_note terminal_result_digest encode_observation).
Notation faulted := (faulted Interrupted fault_note).
Notation cancel_section := (cancel_section jcs_operation).
Notation admit_and_spawn := (admit_and_spawn MAX_TOOL_TERMINAL_INLINE_BYTES jcs_operation).
Notation holds_live := (holds_live MAX_TOOL_TERMINAL_INLINE_BYTES).
Notation hand_step := (hand_step MAX_TOOL_TERMINAL_INLINE_BYTES terminal_inline_fits Failed Interrupted oversize_note
  capacity_note terminal_result_digest encode_observation jcs_operation ack_to_json canonical_digest).

(** The tasks in the order they were spawned, with the slots that are free. [started]: the executions begun. *)
Record Supervised := mkSupervised {
  sv_system : HandSystem; sv_tasks : list (string * Task); sv_permits : Z; sv_started : list string; sv_phase : Phase }.

Definition sv_hand (y : Supervised) : Hand := sy_hand (sv_system y).
Definition with_hand (h : Hand) (s : HandSystem) : HandSystem := mkHandSystem h (sy_pending s).

(** Every execution handed over since is a new task. *)
Definition spawn_tasks (tasks : list (string * Task)) (h : Hand) : list (string * Task) :=
  tasks ++ map (fun id => (id, Queued)) (drop (length tasks) (rev (h_spawned h))).

(** [metadata.values()]: a cancellation token per operation in the book. *)
Definition collected (h : Hand) : list string := (map_to_list (h_metadata h)).*1.

Inductive sup_step : Supervised -> Supervised -> Prop :=
  (* a section of a request *)
  | SupRequest s s' tasks permits started phase :
      hand_step true (fun _ => False) (fun _ _ => True) s s' ->
      sup_step (mkSupervised s tasks permits started phase)
        (mkSupervised s' (spawn_tasks tasks (sy_hand s')) permits started phase)
  (* [acquire_owned] *)
  | SupAcquire s l1 id l2 permits started :
      0 < permits ->
      sup_step (mkSupervised s (l1 ++ (id, Queued) :: l2) permits started Serving)
        (mkSupervised s (l1 ++ (id, Executing) :: l2) (permits - 1) (id :: started) Serving)
  | SupRefused s l1 id l2 permits started phase :
      closed phase = true ->
      sup_step (mkSupervised s (l1 ++ (id, Queued) :: l2) permits started phase)
        (mkSupervised s (l1 ++ (id, Ended) :: l2) permits started phase)
  | SupFinish s l1 id l2 permits started phase (result : ExecutionResult) :
      sup_step (mkSupervised s (l1 ++ (id, Executing) :: l2) permits started phase)
        (mkSupervised (with_hand (finish id result (sy_hand s)).2 s) (l1 ++ (id, Recorded) :: l2) permits started phase)
  | SupRelease s l1 id l2 permits started phase :
      sup_step (mkSupervised s (l1 ++ (id, Recorded) :: l2) permits started phase)
        (mkSupervised s (l1 ++ (id, Ended) :: l2) (permits + 1) started phase)
  (* a panic of the executor, or of [finish]; unwinding gives the slot back *)
  | SupFault s l1 id t l2 permits started phase :
      holds_slot t = true ->
      sup_step (mkSupervised s (l1 ++ (id, t) :: l2) permits started phase)
        (mkSupervised s (l1 ++ (id, Faulted) :: l2) (permits + 1) started phase)
  | SupRecord s l1 id l2 permits started phase :
      sup_step (mkSupervised s (l1 ++ (id, Faulted) :: l2) permits started phase)
        (mkSupervised (with_hand (finish id faulted (sy_hand s)).2 s) (l1 ++ (id, Ended) :: l2) permits started phase)
  (* [shutdown] *)
  | SupClose s tasks permits started :
      sup_step (mkSupervised s tasks permits started Serving) (mkSupervised s tasks permits started Closed)
  | SupCollect s tasks permits started :
      sup_step (mkSupervised s tasks permits started Closed)
        (mkSupervised s tasks permits started (Cancelling (collected (sy_hand s))))
  | SupCancel s tasks permits started id todo :
      sup_step (mkSupervised s tasks permits started (Cancelling (id :: todo)))
        (mkSupervised (with_hand (set_cancelled (id :: h_cancelled (sy_hand s)) (sy_hand s)) s) tasks permits started (Cancelling todo))
  | SupDrain s tasks permits started :
      sup_step (mkSupervised s tasks permits started (Cancelling [])) (mkSupervised s tasks permits started Draining).

Definition sup_new (acks : AckStore) : Supervised :=
  mkSupervised (mkHandSystem (hand_new acks) []) [] MAX_CONCURRENT_OPERATIONS [] Serving.

(** *** What a section of a request keeps *)
(** Nothing is spawned, tokens stay cancelled, and the registry stays well formed. *)
Record keeps_tasks (h h' : Hand) : Prop := {
  kt_spawned : h_spawned h' = h_spawned h;
  kt_cancelled : forall id, id ∈ h_cancelled h -> id ∈ h_cancelled h';
  kt_registry : registry_inv (h_registry h) -> registry_inv (h_registry h') }.

Lemma keeps_tasks_refl h : keeps_tasks h h.
Proof. by constructor. Qed.
Lemma keeps_tasks_trans h1 h2 h3 : keeps_tasks h1 h2 -> keeps_tasks h2 h3 -> keeps_tasks h1 h3.
Proof. intros [] []. constructor; [congruence | auto..]. Qed.

Lemma retain_terminal_keeps_tasks id m t h :
  keeps_tasks h (retain_terminal (Inline := Inline) (Outcome := Outcome) encode_observation id m t h).2.
Proof.
  unfold retain_terminal. destruct (encode_observation _) as [pl|]; [|apply keeps_tasks_refl].
  rewrite M_bind_run. unfold observed. rewrite hand_registry_run. constructor; cbn; [done..|]. intros Hg.
  pose proof (proj1 (run_call_sim (CComplete id (t_digest t) pl) _ Hg I)) as H. cbn in H. by destruct (complete _ _ _ _).
Qed.

Lemma finish_keeps_tasks id result h : keeps_tasks h (finish id result h).2.
Proof.
  unfold finish. cbv zeta. rewrite M_bind_run, get_run. destruct (h_metadata h !! id) as [m|]; [|apply keeps_tasks_refl].
  rewrite M_bind_run. match goal with |- context [retain_terminal _ id m ?t h] => pose proof (retain_terminal_keeps_tasks id m t h) as H1 end.
  destruct (retain_terminal _ _ _ _ h) as [[[]|e] h1]; cbn in H1; [done| |done]. rewrite M_bind_run.
  match goal with |- context [retain_terminal _ id m ?t h1] => pose proof (retain_terminal_keeps_tasks id m t h1) as H2 end.
  destruct (retain_terminal _ _ _ _ h1) as [[b|e] h2]; exact (keeps_tasks_trans _ _ _ H1 H2).
Qed.

Lemma cancel_keeps_tasks op (h : Hand) : keeps_tasks h (cancel_section op h).2.
Proof.
  unfold cancel_section. rewrite M_bind_run, get_run, M_bind_run, lift_run.
  destruct (validate_operation_ref _ _) as [[]|]; [|apply keeps_tasks_refl]. rewrite M_bind_run, hand_registry_run.
  assert (Hr : registry_inv (h_registry h) -> registry_inv (request_cancel (or_operation_id op) (h_registry h)).2).
  { intros Hg. pose proof (proj1 (run_call_sim (CRequestCancel (or_operation_id op)) _ Hg I)) as H. cbn in H. by destruct (request_cancel _ _). }
  destruct (request_cancel _ _) as [[b|e] g]; cbn in Hr |- *; [|by constructor]. rewrite M_bind_run.
  destruct (b && _); constructor; cbn; try done. intros id. set_solver.
Qed.

Lemma release_keeps_tasks op dg (h : Hand) : keeps_tasks h (release_acknowledged_terminal op dg h).2.
Proof.
  unfold release_acknowledged_terminal. cbv zeta. rewrite M_bind_run. unfold observed, on_registry'.
  assert (Hr : registry_inv (h_registry h) -> registry_inv (acknowledge_terminal (or_operation_id op) dg (h_registry h)).2).
  { intros Hg. pose proof (proj1 (run_call_sim (CAcknowledge (or_operation_id op) dg) _ Hg I)) as H. cbn in H. by destruct (acknowledge_terminal _ _ _). }
  destruct (acknowledge_terminal _ _ _) as [r g]. cbn in Hr. rewrite M_bind_run. destruct r as [[]|[]]; by constructor.
Qed.

(** An admission spawns its operation, live, or nothing. *)
Lemma admit_and_spawn_tasks id dg op tgt stdin (h : Hand) :
  u64 (TERMINAL_ENVELOPE_BYTES MAX_TOOL_TERMINAL_INLINE_BYTES) -> registry_inv (h_registry h) ->
  let h' := (admit_and_spawn id dg op tgt stdin h).2 in
  registry_inv (h_registry h') /\ (forall i, i ∈ h_cancelled h -> i ∈ h_cancelled h')
  /\ (h_spawned h' = h_spawned h \/ h_spawned h' = id :: h_spawned h /\ holds_live id dg (mkOperationMeta op tgt stdin) h').
Proof.
  intros Hb Hg. pose proof (admitted_is_live MAX_TOOL_TERMINAL_INLINE_BYTES jcs_operation id dg op tgt stdin h) as Hlive.
  specialize (fun h' => Hlive h' Hb Hg). revert Hlive. unfold admit_and_spawn, admit_operation. rewrite !M_bind_run, hand_registry_run.
  pose proof (proj1 (run_call_sim (CReserve id dg (TERMINAL_ENVELOPE_BYTES MAX_TOOL_TERMINAL_INLINE_BYTES)) _ Hg Hb)) as H1.
  cbn [run_call] in H1. destruct (reserve _ _ _ (h_registry h)) as [[[]|e] g]; cbn [fst snd map_err] in *; [| |by intros _; cbn; auto].
  - rewrite M_bind_run. cbn [modify]. rewrite M_bind_run, hand_registry_run. cbn [h_registry set_registry set_metadata].
    pose proof (proj1 (run_call_sim (CMarkRunning id) g H1 I)) as H2. cbn [run_call] in H2.
    destruct (mark_running id g) as [[[]|e] g2]; cbn [map_err fst snd] in *; rewrite ?M_ret_run; unfold spawn_execution; rewrite ?M_bind_run; cbn.
    + intros Hlive. split; [done|]. split; [done|]. right. split; [done|]. by apply Hlive.
    + auto.
  - intros _. rewrite M_bind_run, get_run, M_bind_run, lift_run. destruct (validate_operation_ref _ _) as [[]|]; cbn; auto.
Qed.

Lemma hand_step_mono quiet (P P' : string -> Prop) R s s' : (forall id, P id -> P' id) -> hand_step quiet P R s s' -> hand_step quiet P' R s s'.
Proof. intros HP. destruct 1; econstructor; eauto. Qed.

(** A section of a request: the registry stays well formed, tokens stay cancelled, and what is spawned is one live
    operation at most. *)
Lemma request_tasks quiet may_release s s' :
  u64 (TERMINAL_ENVELOPE_BYTES MAX_TOOL_TERMINAL_INLINE_BYTES) -> registry_inv (h_registry (sy_hand s)) ->
  hand_step quiet (fun _ => False) may_release s s' ->
  registry_inv (h_registry (sy_hand s')) /\ (forall i, i ∈ h_cancelled (sy_hand s) -> i ∈ h_cancelled (sy_hand s'))
  /\ (h_spawned (sy_hand s') = h_spawned (sy_hand s)
      \/ exists id dg meta, h_spawned (sy_hand s') = id :: h_spawned (sy_hand s) /\ holds_live id dg meta (sy_hand s')).
Proof.
  intros Hb Hg Hs. assert (Hk : forall h', keeps_tasks (sy_hand s) h' -> registry_inv (h_registry h')
    /\ (forall i, i ∈ h_cancelled (sy_hand s) -> i ∈ h_cancelled h') /\ (h_spawned h' = h_spawned (sy_hand s)
      \/ exists id dg meta, h_spawned h' = id :: h_spawned (sy_hand s) /\ holds_live id dg meta h')).
  { intros h' [H1 H2 H3]. split; [by apply H3|]. split; [done|]. by left. }
  destruct Hs; cbn [sy_hand] in *; try (by apply Hk, keeps_tasks_refl).
  - destruct (admit_and_spawn_tasks id digest operation target stdin h Hb Hg) as (? & ? & [?|[? ?]]); split_and!; eauto 10.
  - done.
  - by apply Hk, cancel_keeps_tasks.
  - apply Hk. unfold on_acks. destruct (acknowledgement_exists _ _ _ _ _ _ _). by constructor.
  - apply Hk. unfold on_acks. destruct (retain _ _ _ _ _ _ _ _). by constructor.
  - apply Hk, release_keeps_tasks.
Qed.

(** *** The invariant of the supervised tasks *)
Fixpoint held (tasks : list (string * Task)) : Z :=
  match tasks with [] => 0 | (_, t) :: tasks => (if holds_slot t then 1 else 0) + held tasks end.

Lemma held_app l1 l2 : held (l1 ++ l2) = held l1 + held l2.
Proof. induction l1 as [|[id t] l1 IH]; cbn; [done|]. rewrite IH. lia. Qed.
Lemma held_nonneg l : 0 <= held l.
Proof. induction l as [|[id t] l IH]; cbn; [done|]. destruct (holds_slot t); lia. Qed.
Lemma held_none l id t : held l = 0 -> (id, t) ∈ l -> holds_slot t = false.
Proof.
  induction l as [|[id' t'] l IH]; cbn; [set_solver|]. pose proof (held_nonneg l). intros Hl [[= -> ->]|Hin]%elem_of_cons;
    [by destruct (holds_slot t'); [lia|]|]. apply IH; [|done]. destruct (holds_slot t'); lia.
Qed.
Lemma held_queued ids : held (map (fun id => (id, Queued)) ids) = 0.
Proof. by induction ids. Qed.

(** An execution whose terminal is not yet recorded. *)
Definition unrecorded (t : Task) : Prop := t = Queued \/ t = Executing.

(** Past the collection of the tokens, each running execution is cancelled or about to be. *)
Definition phase_ok (phase : Phase) (tasks : list (string * Task)) (h : Hand) : Prop :=
  match phase with
  | Serving | Closed => True
  | Cancelling todo => forall id, (id, Executing) ∈ tasks -> id ∈ todo \/ id ∈ h_cancelled h
  | Draining => forall id, (id, Executing) ∈ tasks -> id ∈ h_cancelled h
  end.

Record sup_inv (y : Supervised) : Prop := {
  si_once : once_inv (sv_system y);
  si_registry : registry_inv (h_registry (sv_hand y));
  si_tasks : (sv_tasks y).*1 = rev (h_spawned (sv_hand y));
  si_slots : sv_permits y + held (sv_tasks y) = MAX_CONCURRENT_OPERATIONS /\ 0 <= sv_permits y;
  si_live : forall id t, (id, t) ∈ sv_tasks y -> unrecorded t -> exists dg meta, holds_live id dg meta (sv_hand y);
  si_started : NoDup (sv_started y)
    /\ (forall id, id ∈ sv_started y -> id ∈ (sv_tasks y).*1 /\ (id, Queued) ∉ sv_tasks y)
    /\ (forall id t, (id, t) ∈ sv_tasks y -> holds_slot t = true -> id ∈ sv_started y);
  si_phase : phase_ok (sv_phase y) (sv_tasks y) (sv_hand y) }.

Lemma elem_of_rev {A} (x : A) l : x ∈ rev l <-> x ∈ l.
Proof. by rewrite !list_elem_of_In, <- in_rev. Qed.

Lemma sup_distinct y : sup_inv y -> NoDup (sv_tasks y).*1.
Proof. intros Hy. rewrite (si_tasks y Hy). apply NoDup_ListNoDup, NoDup_rev, NoDup_ListNoDup, (oi_once _ (si_once y Hy)). Qed.

(** What is in the list after one task of it changed. *)
Lemma replaced (id : string) (t t' : Task) l1 l2 i u :
  NoDup (fst <$> l1 ++ (id, t) :: l2) -> (i, u) ∈ l1 ++ (id, t') :: l2 -> (i = id /\ u = t') \/ (i <> id /\ (i, u) ∈ l1 ++ (id, t) :: l2).
Proof.
  rewrite fmap_app. cbn. intros (_ & Hn1 & [Hn2 _]%NoDup_cons)%NoDup_app.
  rewrite !elem_of_app, !elem_of_cons. intros [Hin|[[= -> ->]|Hin]]; [|by left|]; right; (split; [|tauto]); intros ->.
  - apply (Hn1 id); [by apply (list_elem_of_fmap_2 fst _ (id, u))|]. apply elem_of_cons. by left.
  - apply Hn2. by apply (list_elem_of_fmap_2 fst _ (id, u)).
Qed.

(** One task changes, and with it at most the record of its own operation. *)
Lemma move_task s s' l1 l2 id t t' permits permits' started started' phase :
  sup_inv (mkSupervised s (l1 ++ (id, t) :: l2) permits started phase) ->
  once_inv s' -> keeps_tasks (sy_hand s) (sy_hand s') ->
  (forall i dg meta, i <> id -> holds_live i dg meta (sy_hand s) -> holds_live i dg meta (sy_hand s')) ->
  (unrecorded t' -> unrecorded t /\ s' = s) ->
  0 <= permits' -> permits' + (if holds_slot t' then 1 else 0) = permits + (if holds_slot t then 1 else 0) ->
  t' <> Queued -> (t' = Executing -> phase = Serving) ->
  (started' = started /\ (holds_slot t' = true -> holds_slot t = true) \/ started' = id :: started /\ t = Queued) ->
  sup_inv (mkSupervised s' (l1 ++ (id, t') :: l2) permits' started' phase).
Proof.
  intros Hy Honce [Hk1 Hk2 Hk3] Hlive Hun Hp Hpermits Hq Hph Hst. pose proof (sup_distinct _ Hy) as Hnd.
  destruct Hy as [_ Hg Ht [Hs _] Hl (Hs1 & Hs2 & Hs3) Hphase]. unfold sv_hand in *. cbn in *.
  assert (Hfst : (l1 ++ (id, t') :: l2).*1 = (l1 ++ (id, t) :: l2).*1) by (by rewrite !fmap_app).
  constructor; unfold sv_hand; cbn; rewrite ?Hk1, ?Hfst; auto.
  - rewrite held_app in *. cbn in *. lia.
  - intros i u Hin Hu. apply (replaced id t t') in Hin as [[-> ->]|[Hne Hin]]; [|destruct (Hl i u Hin Hu) as (dg & meta & H); eauto|done].
    destruct (Hun Hu) as [Hut ->]. apply (Hl id t); [|done]. apply elem_of_app. right. apply elem_of_cons. by left.
  - assert (Hid : id ∈ (l1 ++ (id, t) :: l2).*1) by (rewrite fmap_app; set_solver).
    assert (Hnew : forall i, (i, Queued) ∈ l1 ++ (id, t') :: l2 -> i <> id /\ (i, Queued) ∈ l1 ++ (id, t) :: l2).
    { intros i Hin. by apply (replaced id t t') in Hin as [[-> <-]|]. }
    assert (Hheld : forall i u, (i, u) ∈ l1 ++ (id, t') :: l2 -> holds_slot u = true -> i = id /\ u = t' \/ i ∈ started).
    { intros i u Hin Hu. apply (replaced id t t') in Hin as [?|[_ Hin]]; [by left | right; by eapply Hs3 | done]. }
    assert (Htask : (id, t) ∈ l1 ++ (id, t) :: l2) by (apply elem_of_app; right; apply elem_of_cons; by left).
    destruct Hst as [[-> Hh]|[-> ->]]; split_and!; try done.
    + intros i Hi. destruct (Hs2 i Hi) as [H1 H2]. split; [done|]. by intros [_ ?]%Hnew.
    + intros i u Hin Hu. destruct (Hheld i u Hin Hu) as [[-> ->]|]; [|done]. apply (Hs3 id t); auto.
    + constructor; [|done]. intros Hin. by apply Hs2 in Hin as [_ []].
    + intros i [->|Hi]%elem_of_cons; [|destruct (Hs2 i Hi) as [H1 H2]]; (split; [done|]); intros [? ?]%Hnew; done.
    + intros i u Hin Hu. apply elem_of_cons. destruct (Hheld i u Hin Hu) as [[-> _]|]; [by left | by right].
  - assert (Hold : forall i, (i, Executing) ∈ l1 ++ (id, t') :: l2 -> phase = Serving \/ (i, Executing) ∈ l1 ++ (id, t) :: l2).
    { intros i Hin. apply (replaced id t t') in Hin as [[-> <-]|[_ ?]]; [left; auto | by right | done]. }
    destruct phase; cbn in *; try done; intros i Hin; destruct (Hold i Hin) as [|Hin']; try done; destruct (Hphase i Hin'); auto.
Qed.

Lemma spawn_nothing tasks (h : Hand) : tasks.*1 = rev (h_spawned h) -> spawn_tasks tasks h = tasks.
Proof.
  intros Ht. unfold spawn_tasks. rewrite <- Ht, drop_ge; [apply app_nil_r|]. by rewrite length_fmap.
Qed.
Lemma spawn_one tasks (h : Hand) id spawned :
  tasks.*1 = rev spawned -> h_spawned h = id :: spawned -> spawn_tasks tasks h = tasks ++ [(id, Queued)].
Proof.
  intros Ht Hs. unfold spawn_tasks. rewrite Hs. cbn [rev]. rewrite <- Ht, drop_app_length'; [done|]. by rewrite length_fmap.
Qed.

Context (envelope_u64 : u64 (TERMINAL_ENVELOPE_BYTES MAX_TOOL_TERMINAL_INLINE_BYTES)).

Notation step_once := (hand_step_once MAX_TOOL_TERMINAL_INLINE_BYTES terminal_inline_fits Failed Interrupted oversize_note
  capacity_note fault_note terminal_result_digest encode_observation (fun _ => None) (fun _ => true) jcs_operation ack_to_json canonical_digest).

Lemma request_inv s s' tasks permits started phase :
  hand_step true (fun _ => False) (fun _ _ => True) s s' -> sup_inv (mkSupervised s tasks permits started phase) ->
  sup_inv (mkSupervised s' (spawn_tasks tasks (sy_hand s')) permits started phase).
Proof.
  intros Hstep Hy. pose proof (sup_distinct _ Hy) as Hnd. destruct Hy as [Ho Hg Ht [Hs Hp] Hl (Hs1 & Hs2 & Hs3) Hphase].
  unfold sv_hand in *. cbn in *. destruct (request_tasks _ _ _ _ envelope_u64 Hg Hstep) as (Hg' & Hc & Hsp).
  pose proof (step_once _ _ _ _ Hstep Ho) as Ho'.
  assert (Hlive : forall i dg meta, holds_live i dg meta (sy_hand s) -> holds_live i dg meta (sy_hand s')).
  { intros i dg meta. eapply hand_step_live; [exact envelope_u64|]. by eapply hand_step_mono; [|exact Hstep]. }
  assert (Hphase' : phase_ok phase tasks (sy_hand s')).
  { destruct phase; cbn in *; try done; intros i Hi; destruct (Hphase i Hi); auto. }
  destruct Hsp as [Hsame|(id & dg & meta & Hnew & Hid)].
  - rewrite spawn_nothing by congruence. constructor; unfold sv_hand; cbn; rewrite ?Hsame; auto.
    intros i u Hi Hu. destruct (Hl i u Hi Hu) as (? & ? & ?). eauto.
  - rewrite (spawn_one _ _ id (h_spawned (sy_hand s))) by done.
    assert (Hfresh : id ∉ tasks.*1).
    { rewrite Ht. destruct Ho' as [Hnd' _ _]. rewrite Hnew in Hnd'. apply NoDup_cons in Hnd' as [Hn _]. by rewrite elem_of_rev. }
    constructor; unfold sv_hand; cbn; auto.
    + rewrite fmap_app, Hnew. cbn. by rewrite Ht.
    + rewrite held_app. cbn. lia.
    + intros i u [Hi|[= -> ->]%list_elem_of_singleton]%elem_of_app Hu; [|eauto]. destruct (Hl i u Hi Hu) as (? & ? & ?). eauto.
    + split; [done|]. split.
      * intros i Hi. destruct (Hs2 i Hi) as [H1 H2]. rewrite fmap_app, !elem_of_app. split; [by left|].
        intros [?|[= ->]%list_elem_of_singleton]; done.
      * intros i u [Hi|[= -> ->]%list_elem_of_singleton]%elem_of_app Hu; [by eapply Hs3 | done].
    + assert (Hold : forall i, (i, Executing) ∈ tasks ++ [(id, Queued)] -> (i, Executing) ∈ tasks)
        by (intros i [?|[=]%list_elem_of_singleton]%elem_of_app; done).
      destruct phase; cbn in *; auto.
Qed.

Lemma finish_task s l1 id t l2 permits started phase result t' :
  sup_inv (mkSupervised s (l1 ++ (id, t) :: l2) permits started phase) -> holds_slot t' = holds_slot t -> ~ unrecorded t' ->
  sup_inv (mkSupervised (with_hand (finish id result (sy_hand s)).2 s) (l1 ++ (id, t') :: l2) permits started phase).
Proof.
  intros Hy Hh Hu. apply (move_task s _ l1 l2 id t t' permits permits started started phase Hy).
  - assert (Hid : id ∈ h_spawned (sy_hand s)).
    { pose proof (si_tasks _ Hy) as Htasks. unfold sv_hand in Htasks. cbn in Htasks. apply elem_of_rev.
      rewrite <- Htasks, fmap_app. cbn. set_solver. }
    destruct s as [h ps]. apply (step_once (fun _ => True) (fun _ _ => True) (mkHandSystem h ps)); [|exact (si_once _ Hy)].
    by constructor.
  - apply finish_keeps_tasks.
  - intros i dg meta Hi. by apply finish_live.
  - done.
  - apply (si_slots _ Hy).
  - by rewrite Hh.
  - intros ->. by destruct Hu; left.
  - intros ->. by destruct Hu; right.
  - left. split; [done|]. by rewrite Hh.
Qed.

Lemma sup_step_inv y y' : sup_step y y' -> sup_inv y -> sup_inv y'.
Proof.
  destruct 1 as [s s' tasks permits started phase Hs|s l1 id l2 permits started Hp|s l1 id l2 permits started phase Hc
    |s l1 id l2 permits started phase result|s l1 id l2 permits started phase|s l1 id t l2 permits started phase Ht
    |s l1 id l2 permits started phase|s tasks permits started|s tasks permits started|s tasks permits started id todo
    |s tasks permits started]; intros Hy; try (by eapply finish_task; [exact Hy | done | intros []]); [by eapply request_inv|..].
  1-4: pose proof (si_slots _ Hy) as [_ Hpos]; cbn in Hpos;
    eapply move_task; [exact Hy | exact (si_once _ Hy) | apply keeps_tasks_refl | done | ..]; try done; try (by intros [?|?]); try (cbn; lia).
  - intros _. by split; [left|].
  - by right.
  - by left.
  - by left.
  - rewrite Ht. cbn. lia.
  - by left.
  - by destruct Hy; constructor.
  - destruct Hy as [H1 H2 H3 H4 H5 H6 _]. constructor; try done. cbn. intros id Hin. left. unfold collected.
    destruct (H5 id Executing Hin ltac:(by right)) as (dg & meta & _ & Hm). apply (list_elem_of_fmap_2 fst _ (id, meta)). by apply elem_of_map_to_list.
  - destruct Hy as [H1 H2 H3 H4 H5 H6 H7]. constructor; try done; [by destruct H1; constructor|]. cbn in *. intros i Hi.
    destruct (H7 i Hi) as [[->|?]%elem_of_cons|?]; [right; set_solver | by left | right; set_solver].
  - destruct Hy as [H1 H2 H3 H4 H5 H6 H7]. constructor; try done. cbn in *. intros i Hi. destruct (H7 i Hi) as [?%elem_of_nil|?]; done.
Qed.

(** *** Shutdown *)
Lemma closed_stays y y' : sup_step y y' -> closed (sv_phase y) = true -> closed (sv_phase y') = true /\ sv_started y' = sv_started y.
Proof. by destruct 1. Qed.

(** Once the slots are closed and all of them are free, no task holds one again. *)
Lemma drained_stays y y' : sup_step y y' -> closed (sv_phase y) = true -> held (sv_tasks y) = 0 -> held (sv_tasks y') = 0.
Proof.
  destruct 1 as [s s' tasks ? ? ?| | |s l1 id l2|s l1 id l2|s l1 id t l2 ? ? ? Ht| | | | |]; cbn; try done; intros _.
  - intros Hh. unfold spawn_tasks. rewrite held_app, held_queued. lia.
  - by rewrite !held_app.
  - rewrite !held_app. cbn. pose proof (held_nonneg l1). pose proof (held_nonneg l2). lia.
  - rewrite !held_app. cbn. pose proof (held_nonneg l1). pose proof (held_nonneg l2). lia.
  - rewrite !held_app. cbn. rewrite Ht. pose proof (held_nonneg l1). pose proof (held_nonneg l2). lia.
  - by rewrite !held_app.
Qed.

Lemma sup_new_inv acks : sup_inv (sup_new acks).
Proof.
  constructor; cbn; try done.
  - constructor; cbn; [constructor | set_solver..].
  - by intros id t ?%elem_of_nil.
  - split; [constructor|]. split; [by intros id ?%elem_of_nil | by intros id t ?%elem_of_nil].
Qed.

Lemma sup_steps_inv acks y : rtc sup_step (sup_new acks) y -> sup_inv y.
Proof.
  intros Hr. pose proof (sup_new_inv acks) as Hi. induction Hr as [|y1 y2 y3 Hs _ IH]; [done|]. by eapply IH, sup_step_inv.
Qed.

End life.

(** ** The driver of a shutdown

    [LifePermits] reads the free slots, [LifeCollect] the tokens under the lock of the book. Nanoseconds. *)
Inductive Life : Type -> Type :=
  | LifeStop : Life unit
  | LifeClose : Life unit
  | LifeCollect : Life (list string)
  | LifeCancel (id : string) : Life unit
  | LifePermits : Life Z
  | LifeInstant : Life Z
  | LifeSleep (duration : Z) : Life unit.

Definition DRAIN_NS : Z := 4 * 1000000000.
Definition DRAIN_POLL_NS : Z := 10 * 1000000.

Fixpoint cancel_all (ids : list string) : Prog Life unit :=
  match ids with [] => Ret tt | id :: ids => Do (LifeCancel id) (fun _ => cancel_all ids) end.

(** Whether every slot was seen free; [None] is the bound of the model. *)
Fixpoint drain (fuel : nat) (deadline : Z) : Prog Life (option bool) :=
  match fuel with
  | O => Ret None
  | S fuel =>
      Do LifePermits (fun permits =>
        if permits =? MAX_CONCURRENT_OPERATIONS then Ret (Some true)
        else Do LifeInstant (fun now =>
          if now <? deadline then Do (LifeSleep DRAIN_POLL_NS) (fun _ => drain fuel deadline) else Ret (Some false)))
  end.

Definition DRAIN_TURNS : nat := 402.

Definition shutdown : Prog Life (option bool) :=
  Do LifeStop (fun _ => Do LifeClose (fun _ => Do LifeCollect (fun ids => prog_bind (cancel_all ids) (fun _ =>
    Do LifeInstant (fun now => drain DRAIN_TURNS (now + DRAIN_NS)))))).

Definition life_reads (e : Event Life) : option Z :=
  match e with Ev c x => match c in Life X return X -> option Z with LifeInstant => fun t => Some t | _ => fun _ => None end x end.
Definition life_sleeps (e : Event Life) : Z := match e with Ev (LifeSleep duration) _ => duration | _ => 0 end.
Notation advances := (advances life_reads life_sleeps).

Lemma cancel_all_runs ids tr r : runs (cancel_all ids) tr r -> tr = map (fun id => Ev (LifeCancel id) tt) ids.
Proof.
  revert tr. induction ids as [|id ids IH]; cbn; intros tr; [by intros [-> _]|]. intros ([] & t & -> & Hr). by rewrite (IH t).
Qed.

Lemma cancels_advance ids tr now : advances now (map (fun id => Ev (LifeCancel id) tt) ids ++ tr) -> advances now tr.
Proof. revert now. induction ids as [|id ids IH]; intros now; cbn; [done|]. rewrite Z.add_0_r. apply IH. Qed.

Lemma drain_ends fuel deadline now tr r :
  (1 <= fuel)%nat -> deadline <= now + DRAIN_POLL_NS * (Z.of_nat fuel - 1) -> advances now tr -> runs (drain fuel deadline) tr r ->
  (r = Some true /\ exists t, tr = t ++ [Ev LifePermits MAX_CONCURRENT_OPERATIONS])
  \/ (r = Some false /\ exists t i, tr = t ++ [Ev LifeInstant i] /\ deadline <= i).
Proof.
  revert now tr. induction fuel as [|fuel IH]; intros now tr Hf Hd Ha Hr; [lia|]. destruct Hr as (permits & t & -> & Hr). cbn in Ha.
  rewrite Z.add_0_r in Ha. destruct (Z.eqb_spec permits MAX_CONCURRENT_OPERATIONS) as [->|_].
  { destruct Hr as [-> ->]. left. split; [done|]. by exists []. }
  destruct Hr as (i & t' & -> & Hr). destruct Ha as [Hn Ha]. destruct (Z.ltb_spec i deadline).
  - destruct Hr as ([] & t'' & -> & Hr). cbn in Ha. unfold DRAIN_POLL_NS in *.
    destruct (IH (i + 10 * 1000000) t'') as [[-> [u ->]]|[-> (u & j & -> & Hj)]]; [lia | lia | exact Ha | exact Hr | |].
    + left. split; [done|]. by eexists ([_; _; _] ++ u).
    + right. split; [done|]. eexists ([_; _; _] ++ u), j. by split.
  - destruct Hr as [-> ->]. right. split; [done|]. by eexists [_], i.
Qed.

(** A shutdown returns. On a clock that does not go back and advances by what is slept, it closes the slots before it
    reads the tokens, cancels every token it read before it waits, and stops waiting when it sees every slot free or
    four seconds have passed. *)
Theorem shutdown_ends now tr r :
  advances now tr -> runs shutdown tr r ->
  exists ids start rest,
    tr = [Ev LifeStop tt; Ev LifeClose tt; Ev LifeCollect ids] ++ map (fun id => Ev (LifeCancel id) tt) ids ++ Ev LifeInstant start :: rest
    /\ ((r = Some true /\ exists t, rest = t ++ [Ev LifePermits MAX_CONCURRENT_OPERATIONS])
        \/ (r = Some false /\ exists t i, rest = t ++ [Ev LifeInstant i] /\ start + DRAIN_NS <= i)).
Proof.
  intros Ha ([] & t1 & -> & [] & t2 & -> & ids & t3 & -> & Hr).
  apply runs_bind in Hr as ([] & t4 & t5 & -> & Hc%cancel_all_runs & start & t6 & -> & Hr). subst t4.
  exists ids, start, t6. split; [done|]. cbn in Ha. rewrite !Z.add_0_r in Ha. apply cancels_advance in Ha as [_ Ha].
  eapply drain_ends; [| |exact Ha|exact Hr]; unfold DRAIN_TURNS; [lia|]. unfold DRAIN_NS, DRAIN_POLL_NS. lia.
Qed.

(** ** The hooks of an image build

    They probe the root file system and the tool chain of the image, and disappear once the guest is armed. Texts of
    errors and of exit codes are the ones the calls report. *)
Inductive ToolOutcome := ToolSucceeded | ToolExited (code : string) | ToolFailed (error : string) | ToolTimedOut.

Inductive Hook : Type -> Type :=
  | HookArmed : Hook bool
  | HookIsDir (path : string) : Hook bool
  | HookWriteProbe (path : string) : Hook (result string unit)
  | HookRemoveProbe (path : string) : Hook unit
  | HookRunTool (tool : string) (args : list string) : Hook ToolOutcome.

Definition hook_reply (failures : list string) : Z * list string := (match failures with [] => 200 | _ => 503 end, failures).

(** [probe]: the file written in a directory to see that it is writable. *)
Fixpoint probe_directories (join : string -> string -> string) (failures : list string) (directories : list (string * string))
    : Prog Hook (list string) :=
  match directories with
  | [] => Ret failures
  | (name, directory) :: rest =>
      Do (HookIsDir directory) (fun is_dir : bool =>
        if is_dir then
          let probe := join directory ".hand-ready-probe" in
          Do (HookWriteProbe probe) (fun written =>
            match written with
            | Ok _ => Do (HookRemoveProbe probe) (fun _ => probe_directories join failures rest)
            | Err error => probe_directories join (failures ++ [name +:+ " is not writable: " +:+ error]) rest
            end)
        else probe_directories join (failures ++ [name +:+ " is not a directory"]) rest)
  end.

(** The workspace, state, tool and object directories of the configuration. *)
Definition ready (join : string -> string -> string) (workspace state tools objects : string) : Prog Hook (Z * list string) :=
  Do HookArmed (fun armed : bool =>
    if armed then Ret (404, [])
    else prog_bind (probe_directories join [] [("workspace", workspace); ("state", state); ("tools", tools); ("objects", objects)])
           (fun failures => Ret (hook_reply failures))).

Definition curated_tools : list string := ["bash"; "python3"; "node"; "git"; "rg"].

Definition tool_failure (tool : string) (outcome : ToolOutcome) : list string :=
  match outcome with
  | ToolSucceeded => []
  | ToolExited code => [tool +:+ ": exit " +:+ code]
  | ToolFailed error => [tool +:+ ": " +:+ error]
  | ToolTimedOut => [tool +:+ ": timed out"]
  end.

Fixpoint probe_tools (failures : list string) (tools : list string) : Prog Hook (list string) :=
  match tools with
  | [] => Ret failures
  | tool :: tools =>
      Do (HookRunTool tool ["--version"]) (fun outcome => probe_tools (failures ++ tool_failure tool outcome) tools)
  end.

Definition validate : Prog Hook (Z * list string) :=
  Do HookArmed (fun armed : bool =>
    if armed then Ret (404, [])
    else prog_bind (probe_tools [] curated_tools) (fun failures => Ret (hook_reply failures))).

(** What one directory answered, and whether it passed. *)
Inductive directory_probed (join : string -> string -> string) (directory : string) : bool -> list (Event Hook) -> Prop :=
  | NotDirectory : directory_probed join directory false [Ev (HookIsDir directory) false]
  | NotWritable error : directory_probed join directory false
      [Ev (HookIsDir directory) true; Ev (HookWriteProbe (join directory ".hand-ready-probe")) (Err error)]
  | Writable x : directory_probed join directory true
      [Ev (HookIsDir directory) true; Ev (HookWriteProbe (join directory ".hand-ready-probe")) (Ok x);
       Ev (HookRemoveProbe (join directory ".hand-ready-probe")) tt].

Definition probed join (directory : string) (p : bool * list (Event Hook)) : Prop := directory_probed join directory p.1 p.2.

Lemma probe_directories_runs join directories : forall failures tr r,
  runs (probe_directories join failures directories) tr r ->
  exists passed traces, length passed = length directories /\ tr = concat traces
    /\ Forall2 (probed join ∘ snd) directories (zip passed traces)
    /\ length traces = length directories /\ (r = [] <-> failures = [] /\ forallb id passed = true).
Proof.
  induction directories as [|[name d] rest IH]; intros failures tr r Hr.
  { destruct Hr as [-> ->]. exists [], []. split_and!; try done. by split; [|intros []]. }
  assert (Hstep : forall ok t tr' failures', directory_probed join d ok t -> (failures' = [] <-> failures = [] /\ ok = true) ->
    runs (probe_directories join failures' rest) tr' r ->
    exists passed traces, length passed = length ((name, d) :: rest) /\ t ++ tr' = concat traces
      /\ Forall2 (probed join ∘ snd) ((name, d) :: rest) (zip passed traces)
      /\ length traces = length ((name, d) :: rest) /\ (r = [] <-> failures = [] /\ forallb id passed = true)).
  { intros ok t tr' failures' Hp Hf (passed & traces & Hl & -> & Hall & Hl' & Hiff)%IH. exists (ok :: passed), (t :: traces).
    split_and!; cbn; try congruence; [by constructor|]. rewrite Hiff, Hf, andb_true_iff. unfold id. tauto. }
  destruct Hr as (is_dir & t & -> & Hr). destruct is_dir.
  - destruct Hr as (written & t' & -> & Hr). destruct written as [x|error].
    + destruct Hr as ([] & t'' & -> & Hr). eapply (Hstep true _ _ _ (Writable _ _ x)); [|exact Hr]. tauto.
    + eapply (Hstep false _ _ _ (NotWritable _ _ error)); [|exact Hr]. split; [by intros [_ [=]]%app_nil | by intros []].
  - eapply (Hstep false _ _ _ (NotDirectory _ _)); [|exact Hr]. split; [by intros [_ [=]]%app_nil | by intros []].
Qed.

Lemma probe_tools_runs tools : forall failures tr r,
  runs (probe_tools failures tools) tr r ->
  exists outcomes, Forall2 (fun tool e => exists o, o ∈ outcomes /\ e = Ev (HookRunTool tool ["--version"]) o) tools tr
    /\ (r = [] <-> failures = [] /\ Forall (eq ToolSucceeded) outcomes).
Proof.
  induction tools as [|tool tools IH]; intros failures tr r Hr; [destruct Hr as [-> ->]; exists []; split; [done | naive_solver]|].
  destruct Hr as (o & t & -> & (outcomes & Hall & Hiff)%IH). exists (o :: outcomes). split.
  - constructor; [exists o; by split; [left|]|]. eapply Forall2_impl; [exact Hall|]. intros tool' e (o' & Ho & ->). exists o'. by split; [right|].
  - rewrite Hiff, Forall_cons, app_nil. destruct o; cbn; naive_solver.
Qed.

(** The build hooks vanish once the guest is armed: nothing is probed and nothing is found. Before, the image is ready
    exactly when each of its four directories takes and gives back a probe file, and valid exactly when every curated
    tool answers; a probe file that was written is removed. *)
Theorem build_hooks_probe_the_image join workspace state tools objects tr status failures :
  runs (ready join workspace state tools objects) tr (status, failures) ->
  (tr = [Ev HookArmed true] /\ status = 404)
  \/ exists passed traces, tr = Ev HookArmed false :: concat traces /\ length passed = 4%nat /\ length traces = 4%nat
     /\ Forall2 (probed join) [workspace; state; tools; objects] (zip passed traces)
     /\ status = (if forallb id passed then 200 else 503).
Proof.
  intros (armed & t & -> & Hr). destruct armed; [left; destruct Hr as [-> [= -> ->]]; done|]. right.
  apply runs_bind in Hr as (fs & t1 & t2 & -> & Hp & [-> [= -> ->]]).
  apply probe_directories_runs in Hp as (passed & traces & Hl & -> & Hall & Hl' & Hiff). exists passed, traces.
  rewrite app_nil_r. split_and!; try done.
  - exact (proj2 (Forall2_fmap_l snd (probed join) [(_, workspace); (_, state); (_, tools); (_, objects)] _) Hall).
  - unfold hook_reply. destruct fs; cbn.
    + by rewrite (proj2 (proj1 Hiff eq_refl)).
    + destruct (forallb id passed) eqn:Hb; [|done]. by pose proof (proj2 Hiff (conj eq_refl eq_refl)).
Qed.

Theorem curated_tools_are_probed tr status failures :
  runs validate tr (status, failures) ->
  (tr = [Ev HookArmed true] /\ status = 404)
  \/ exists outcomes answers, tr = Ev HookArmed false :: answers
     /\ Forall2 (fun tool e => exists o, o ∈ outcomes /\ e = Ev (HookRunTool tool ["--version"]) o) curated_tools answers
     /\ (status = 200 <-> Forall (eq ToolSucceeded) outcomes).
Proof.
  intros (armed & t & -> & Hr). destruct armed; [left; destruct Hr as [-> [= -> ->]]; done|]. right.
  apply runs_bind in Hr as (fs & t1 & t2 & -> & Hp & [-> [= -> ->]]).
  apply probe_tools_runs in Hp as (outcomes & Hall & Hiff). exists outcomes, t1. rewrite app_nil_r. split_and!; [done..|].
  unfold hook_reply. destruct fs; cbn; [tauto|]. split; [done|]. intros Ho. by pose proof (proj2 Hiff (conj eq_refl Ho)).
Qed.

(** ** Witnesses

    One operation is running when a shutdown begins; it is cancelled, its terminal is recorded and its slot comes back.
    A second one, still waiting, is refused. *)
Module Sample.
Notation step := (sup_step 64 sample_fits "failed" "interrupted" "too long" "no room" "fault" sample_result_digest sample_encode
  sample_jcs_operation sample_to_json sample_canonical_ref).

Definition other_op : OperationRef :=
  mkOperationRef "gen-1" "op-2" digest_a digest_b (or_target sample_op) "vm-1".
Definition hand_a : @Hand string string := hand_1.
Definition hand_b : @Hand string string := (sample_admit "op-2" digest_b other_op sample_receipt false hand_a).2.

Definition hand_c : @Hand string string := set_cancelled ["op-2"; "op-1"] hand_b.
Definition hand_d : @Hand string string := (sample_finish "op-1" sample_result hand_c).2.

Definition state h pending tasks permits started phase : @Supervised string string :=
  mkSupervised (mkHandSystem h pending) tasks permits started phase.
Definition running h phase := state h [] [("op-1", Executing); ("op-2", Queued)] 63 ["op-1"] phase.
Definition drained := state hand_d [] [("op-1", Ended); ("op-2", Ended)] 64 ["op-1"] Draining.

Lemma request s s' tasks tasks' permits started phase :
  hand_step 64 sample_fits "failed" "interrupted" "too long" "no room" sample_result_digest sample_encode sample_jcs_operation
    sample_to_json sample_canonical_ref true (fun _ => False) (fun _ _ => True) s s' ->
  spawn_tasks tasks (sy_hand s') = tasks' ->
  step (mkSupervised s tasks permits started phase) (mkSupervised s' tasks' permits started phase).
Proof. intros Hs <-. by apply SupRequest. Qed.

#[local] Ltac by_step y tac := apply (rtc_l _ _ y); [tac|].
#[local] Ltac admitted h id digest op := eapply request; [exact (StepAdmit _ _ _ _ _ _ _ _ _ _ _ _ _ _ h [] id digest [] op sample_receipt false) | vm_compute; reflexivity].
#[local] Ltac fenced := eapply request; [apply StepFence; vm_compute; reflexivity | vm_compute; reflexivity].

Lemma sample_draining : rtc step (sup_new sample_ack_store) (running hand_c Draining).
Proof.
  by_step (state hand_0 [("op-1", digest_a)] [] 64 [] Serving) fenced.
  by_step (state hand_1 [] [("op-1", Queued)] 64 [] Serving) ltac:(admitted hand_0 "op-1" digest_a sample_op).
  by_step (state hand_1 [("op-2", digest_b)] [("op-1", Queued)] 64 [] Serving) fenced.
  by_step (state hand_b [] [("op-1", Queued); ("op-2", Queued)] 64 [] Serving) ltac:(admitted hand_1 "op-2" digest_b other_op).
  by_step (running hand_b Serving) ltac:(by apply (SupAcquire _ _ _ _ _ _ _ _ _ _ _ _ _ [] "op-1" [("op-2", Queued)])).
  by_step (running hand_b Closed) ltac:(apply SupClose).
  by_step (running hand_b (Cancelling ["op-1"; "op-2"])) ltac:(change ["op-1"; "op-2"] with (collected hand_b); apply SupCollect).
  by_step (running (set_cancelled ["op-1"] hand_b) (Cancelling ["op-2"])) ltac:(apply SupCancel).
  by_step (running hand_c (Cancelling [])) ltac:(apply SupCancel).
  by_step (running hand_c Draining) ltac:(apply SupDrain).
  apply rtc_refl.
Qed.

Lemma sample_shutdown : rtc step (sup_new sample_ack_store) drained.
Proof.
  etransitivity; [exact sample_draining|].
  by_step (state hand_c [] [("op-1", Executing); ("op-2", Ended)] 63 ["op-1"] Draining) ltac:(by apply (SupRefused _ _ _ _ _ _ _ _ _ _ _ _ _ [("op-1", Executing)] "op-2" [])).
  by_step (state hand_d [] [("op-1", Recorded); ("op-2", Ended)] 63 ["op-1"] Draining)
    ltac:(exact (SupFinish 64 sample_fits "failed" "interrupted" "too long" "no room" "fault" sample_result_digest sample_encode
      sample_jcs_operation sample_to_json sample_canonical_ref (mkHandSystem hand_c []) [] "op-1" [("op-2", Ended)] 63 ["op-1"] Draining sample_result)).
  by_step drained ltac:(apply (SupRelease _ _ _ _ _ _ _ _ _ _ _ _ _ [] "op-1" [("op-2", Ended)])).
  apply rtc_refl.
Qed.

(** A slot comes back before the terminal it stood for when the execution dies: a shutdown can see every slot free while
    the interruption is yet to be recorded. *)
Lemma slot_returns_before_the_interruption :
  exists y, rtc step (sup_new sample_ack_store) y /\ sv_phase y = Draining /\ sv_permits y = MAX_CONCURRENT_OPERATIONS
    /\ ("op-1", Faulted) ∈ sv_tasks y /\ exists r, records (h_registry (sv_hand y)) !! "op-1" = Some r /\ is_terminal (Operation.state r) = false.
Proof.
  exists (state hand_c [] [("op-1", Faulted); ("op-2", Queued)] 64 ["op-1"] Draining). split.
  - etransitivity; [exact sample_draining|]. apply rtc_once.
    by apply (SupFault _ _ _ _ _ _ _ _ _ _ _ _ _ [] "op-1" Executing [("op-2", Queued)]).
  - split; [done|]. split; [done|]. split; [set_solver|]. eexists. split; vm_compute; reflexivity.
Qed.


(** A shutdown that finds one slot taken and, ten milliseconds later, none. *)
Definition quick : list (Event Life) :=
  [Ev LifeStop tt; Ev LifeClose tt; Ev LifeCollect ["op-1"]; Ev (LifeCancel "op-1") tt; Ev LifeInstant 5; Ev LifePermits 63;
   Ev LifeInstant 6; Ev (LifeSleep DRAIN_POLL_NS) tt; Ev LifePermits 64].

Lemma shutdown_ends_witness :
  advances 0 quick /\ runs shutdown quick (Some true)
  /\ exists ids start rest, quick = [Ev LifeStop tt; Ev LifeClose tt; Ev LifeCollect ids] ++ map (fun id => Ev (LifeCancel id) tt) ids ++ Ev LifeInstant start :: rest.
Proof.
  assert (Ha : advances 0 quick) by (cbn; repeat split; lia).
  assert (Hr : runs shutdown quick (Some true)) by (cbn; repeat eexists).
  split; [exact Ha|]. split; [exact Hr|]. destruct (shutdown_ends 0 quick (Some true) Ha Hr) as (ids & start & rest & H & _). by exists ids, start, rest.
Defined.

(** A tool directory that is not writable. *)
Definition join (base path : string) : string := base +:+ "/" +:+ path.
Definition build : list (Event Hook) :=
  [Ev HookArmed false; Ev (HookIsDir "/w") true; Ev (HookWriteProbe "/w/.hand-ready-probe") (Ok tt); Ev (HookRemoveProbe "/w/.hand-ready-probe") tt;
   Ev (HookIsDir "/s") true; Ev (HookWriteProbe "/s/.hand-ready-probe") (Ok tt); Ev (HookRemoveProbe "/s/.hand-ready-probe") tt;
   Ev (HookIsDir "/t") true; Ev (HookWriteProbe "/t/.hand-ready-probe") (Err "read-only"); Ev (HookIsDir "/o") false].

Lemma build_hooks_probe_the_image_witness :
  runs (ready join "/w" "/s" "/t" "/o") build (503, ["tools is not writable: read-only"; "objects is not a directory"])
  /\ exists passed : list bool, length passed = 4%nat /\ 503 = (if forallb id passed then 200 else 503).
Proof.
  assert (Hr : runs (ready join "/w" "/s" "/t" "/o") build (503, ["tools is not writable: read-only"; "objects is not a directory"]))
    by (cbn; repeat eexists).
  split; [exact Hr|]. destruct (build_hooks_probe_the_image join "/w" "/s" "/t" "/o" build _ _ Hr) as [[H _]|(passed & traces & _ & Hl & _ & _ & Hs)];
    [by apply (f_equal length) in H|]. by exists passed.
Defined.

Definition probes : list (Event Hook) := Ev HookArmed false :: map (fun tool => Ev (HookRunTool tool ["--version"]) ToolSucceeded) curated_tools.

Lemma curated_tools_are_probed_witness : runs validate probes (200, []) /\ exists outcomes, Forall (eq ToolSucceeded) outcomes.
Proof.
  assert (Hr : runs validate probes (200, [])) by (cbn; repeat eexists). split; [exact Hr|].
  destruct (curated_tools_are_probed probes 200 [] Hr) as [[H _]|(outcomes & _ & _ & _ & Hs)]; [by apply (f_equal length) in H|]. exists outcomes. by apply Hs.
Defined.
End Sample.
