(* ===== verification/Canary.v ===== *)
(** * hand-lambda: the live canaries

    Models crates/hand-lambda/src/canary.rs: the release proofs that run against one live microVM each, as
    programs over the lifecycle calls, the endpoint, the socket, the clocks and the random source. Brain's request
    types are records of the fields the canaries set, its fixture addresses and digests, the JSON encodings and
    the embedded node scripts are parameters. The fields every execution of a canary sets to the same constant (its
    directory, its resources, no input) are left out, and so is the failure to encode such a request. *)
From S2P Require Import Prelude Policy Page Connector Launcher Control GuestErrors GuestTarget AwsErrors AwsSeals AwsCalls Prog.

Definition CANARY_LIFETIME_MS : Z := 10 * 60 * 1000.
Definition STATE_TIMEOUT_MS : Z := 120 * 1000.
Definition PROBE_TIMEOUT_MS : Z := 15 * 1000.
Definition REQUIRED_CONSECUTIVE_502 : Z := 3.

Inductive GuestConnectError := ConnectHttp (status : Z) | ConnectTransport | ConnectInvalidRequest.

(** Failures; texts are left out. *)
Inductive Failure :=
  | CanControl (e : ControlError) | CanWait (e : WaitFailure) | CanConnect (e : GuestConnectError) | CanRefused (e : HandError)
  | CanBail (reason : string)
  | CanPassedUncleaned (cleanup : Failure) | CanFailedUncleaned (canary cleanup : Failure)
  (* the model's bound on the turns of a loop; no failure of the code *)
  | CanOutOfFuel.

Inductive RestrictedClass := RestrictedNone | RestrictedAllowlist.
Definition class_label (c : RestrictedClass) : string := match c with RestrictedNone => "none" | RestrictedAllowlist => "allowlist" end.
Definition class_connector (c : RestrictedClass) : ConnectorClass :=
  match c with RestrictedNone => ConnNone | RestrictedAllowlist => ConnAllowlist end.

Record NoRespawnCanaryConfig := mkNoRespawnCanaryConfig {
  nr_image_arn : string; nr_image_version : string; nr_none_connector : ConnectorRef }.
Record NetworkBoundaryCanaryConfig := mkNetworkBoundaryCanaryConfig {
  nb_image_arn : string; nb_image_version : string; nb_connectors : ConnectorCatalog;
  nb_gateway : GatewayAuthority; nb_customer_hand_hosts : string * string }.

Record KnownTargetSeal := mkKnownTargetSeal {
  ks_target_id : string; ks_generation : string; ks_root_id : string; ks_session_id : string; ks_operation_id : string;
  ks_control_token : ControlToken }.
Definition set_target (id : string) (s : KnownTargetSeal) : KnownTargetSeal :=
  mkKnownTargetSeal id (ks_generation s) (ks_root_id s) (ks_session_id s) (ks_operation_id s) (ks_control_token s).

(** The execution a canary asks for. *)
Record CanaryExecution := mkCanaryExecution {
  cx_execution_id : string; cx_generation : string; cx_command : string; cx_network : Network; cx_digest : string;
  cx_binding_ref : string; cx_root_id : string; cx_sandbox_id : string; cx_session_id : string }.

(** A terminal receipt: [ct_inline] holds the string fields of its inline value. *)
Record CanaryTerminal := mkCanaryTerminal { ct_completed : bool; ct_exit_code : option Z; ct_inline : gmap string string }.

Section canary.
(** [Operation]: the reference a receipt carries. *)
Context {Operation : Type}.

Inductive CanaryCall := ExecuteSandbox (request : CanaryExecution) | Observe (operation : Operation) (wait_ms : Z).
Inductive CanaryReply := Executed (operation : Operation) | Observed (terminal : option CanaryTerminal) | OtherReply.
Record CanaryFrame := mkCanaryFrame { cf_request_id : string; cf_contract_digest : string; cf_call : CanaryCall }.
Record CanaryResponse := mkCanaryResponse { cr_request_id : string; cr_result : result HandError CanaryReply }.

Inductive Can : Type -> Type :=
  | CanInstant : Can Z
  | CanSleep (duration_ms : Z) : Can unit
  | SystemNow : Can (option Z)
  | RandomHex (bytes : Z) : Can string
  | CanRun (request : ExactRunMicrovmRequest) : Can (result ControlError Microvm)
  | CanGet (id : string) : Can (result ControlError Microvm)
  | CanSuspend (id : string) : Can (result ControlError unit)
  | CanResume (id : string) : Can (result ControlError unit)
  | CanTerminate (id : string) : Can (result ControlError unit)
  | CanToken (id : string) : Can (result ControlError string)
  | CanWaitState (id : string) (want : MicrovmState) (timeout_ms : Z) : Can (result WaitFailure Microvm)
  | CanConnectSocket (hand : LaunchedHand) : Can (result GuestConnectError unit)
  | SendFrame (frame : CanaryFrame) : Can bool
  (* what the socket delivers until the call that reads it returns *)
  | ReadSocket : Can (list SocketMessage)
  | ProbeEndpoint (url token : string) (timeout_ms : Z) : Can (option Z).
Notation CanM := (ProgM Can Failure).

(** What Brain, the encodings and the repository's scripts supply. *)
Class CanaryOps := {
  HAND_CONTRACT : string;
  SPECIAL_USE_FIXTURES : list string; PUBLIC_UNICAST_FIXTURES : list string;
  PROBE_SCRIPT : string; RESTRICTED_SCRIPT : string; PUBLIC_SCRIPT : string;
  json_str : string -> string; json_list : list string -> string; json_gateway : GatewayAuthority -> string;
  HTTP_SURFACES : string;
  execution_digest : CanaryExecution -> string;
  json_payload : @RunPayload (list NetworkItem) -> option string;
  response_of : string -> option CanaryResponse;
}.
Context {CO : CanaryOps} (region : string).

(** ** The call on the guest *)
Definition CALL_ENDED : Failure := CanBail "connection ended".

Fixpoint receive (request_id : string) (messages : list SocketMessage) : result Failure CanaryReply :=
  let read text rest :=
    match response_of text with
    | None => Err (CanBail "undecodable response")
    | Some response =>
        if negb (str_eqb (cr_request_id response) request_id) then rest
        else map_err CanRefused (cr_result response)
    end in
  match messages with
  | [] => Err CALL_ENDED
  | MsgText text :: messages => read text (receive request_id messages)
  | MsgBinary bytes :: messages =>
      match from_utf8 bytes with Some text => read text (receive request_id messages) | None => Err (CanBail "invalid text") end
  | MsgPing pong :: messages => if pong then receive request_id messages else Err (CanBail "pong failed")
  | (MsgPong | MsgFrame) :: messages => receive request_id messages
  | MsgClose :: _ => Err (CanBail "closed")
  | MsgError :: _ => Err (CanBail "socket failed")
  end.

Definition canary_call (request_number : Z) (c : CanaryCall) : CanM CanaryReply :=
  let request_id := "image-canary-request-" +:+ print_uint request_number in
  Do (SendFrame (mkCanaryFrame request_id HAND_CONTRACT c)) (fun sent : bool =>
    if sent then Do ReadSocket (fun messages => Ret (receive request_id messages)) else Ret (Err (CanBail "send failed"))).

(** The request numbers are consecutive from [request_number]. *)
Definition execute_and_observe (request_number : Z) (request : CanaryExecution) : CanM CanaryTerminal :=
  reply ← canary_call request_number (ExecuteSandbox request);
  match reply with
  | Executed operation =>
      reply ← canary_call (request_number + 1) (Observe operation 30000);
      match reply with
      | Observed (Some terminal) => mret terminal
      | Observed None => prog_throw (CanBail "no terminal receipt")
      | _ => prog_throw (CanBail "wrong observe response")
      end
  | _ => prog_throw (CanBail "wrong execute response")
  end.

Definition terminal_diagnostic (terminal : CanaryTerminal) : string :=
  match find_map (fun field => ct_inline terminal !! field) ["error"; "stderr"; "stdout"] with
  | Some value => if is_empty value then "no terminal detail" else value
  | None => "no terminal detail"
  end.

Definition require_completed_stdout (terminal : CanaryTerminal) : result Failure string :=
  if negb (ct_completed terminal) then Err (CanBail (terminal_diagnostic terminal))
  else ok_or (CanBail "no stdout") (ct_inline terminal !! "stdout").

(** ** One target *)
Definition seal_canary_run (label : string) (connector : ConnectorClass) (network : Network) (proxy : option AllowlistProxy)
    (canary_exit : bool) : CanM (KnownTargetSeal * @RunPayload (list NetworkItem)) :=
  Do (RandomHex 12) (fun nonce => Do SystemNow (fun now =>
    match now with
    | None => Ret (Err (CanBail "clock precedes the epoch"))
    | Some now_ms => Do (RandomHex 32) (fun token =>
        let seal := mkKnownTargetSeal "" (label +:+ "-canary-generation-" +:+ nonce) (label +:+ "-canary-root-" +:+ nonce)
          (label +:+ "-canary-session-" +:+ nonce) (label +:+ "-canary-" +:+ nonce) (mkControlToken ("control-" +:+ token)) in
        Ret (Ok (seal, mkRunPayload HAND_CONTRACT (ks_generation seal) (saturating_add now_ms CANARY_LIFETIME_MS) (ks_root_id seal)
          (ks_session_id seal) connector RESOURCE_CLASS (mkResourceCeiling 30000 4096) network (ks_control_token seal) proxy
          (if canary_exit then Some (ks_operation_id seal) else None))))
    end)).

(** An exact replay after a lost answer, until the deadline. *)
Fixpoint launch_loop (fuel : nat) (request : ExactRunMicrovmRequest) (deadline : Z) : CanM Microvm :=
  match fuel with
  | O => Ret (Err CanOutOfFuel)
  | S fuel =>
      Do (CanRun request) (fun r =>
        match r with
        | Ok vm => Ret (Ok vm)
        | Err ((UnknownOutcome _ | Retryable _ | Throttled _) as e) =>
            Do CanInstant (fun now =>
              if now <? deadline then Do (CanSleep 250) (fun _ => launch_loop fuel request deadline) else Ret (Err (CanControl e)))
        | Err e => Ret (Err (CanControl e))
        end)
  end.
Definition turns (sleep_ms : Z) : nat := Z.to_nat (STATE_TIMEOUT_MS / sleep_ms + 2).

Definition launch_canary_target (image_arn image_version payload client_token : string) (connector : ConnectorRef) : CanM Microvm :=
  Do CanInstant (fun start =>
    launch_loop (turns 250) (exact_run_request region image_arn image_version payload client_token connector) (start + STATE_TIMEOUT_MS)).

Fixpoint terminate_loop (fuel : nat) (id : string) (deadline : Z) : CanM unit :=
  match fuel with
  | O => Ret (Err CanOutOfFuel)
  | S fuel =>
      let again := Do (CanSleep 500) (fun _ => terminate_loop fuel id deadline) in
      Do CanInstant (fun now =>
        if deadline <=? now then Ret (Err (CanBail "termination not confirmed"))
        else Do (CanGet id) (fun r =>
          match r with
          | Ok vm =>
              if is_terminated (mv_state vm) then Ret (Ok tt)
              else if decide (mv_state vm = VmTerminating) then again
              else Do (CanTerminate id) (fun t =>
                match t with
                | Ok _ | Err (ControlGone _ | UnknownOutcome _ | Retryable _ | Throttled _) => again
                | Err e => Ret (Err (CanControl e))
                end)
          | Err (ControlGone _) => Ret (Ok tt)
          | Err (Retryable _ | Throttled _) => again
          | Err e => Ret (Err (CanControl e))
          end))
  end.
Definition terminate_known_target (id : string) : CanM unit :=
  Do CanInstant (fun start => terminate_loop (turns 500) id (start + STATE_TIMEOUT_MS)).

Definition merge (canary cleanup : result Failure unit) : result Failure unit :=
  match canary, cleanup with
  | Ok _, Ok _ => Ok tt
  | Err canary, Ok _ => Err canary
  | Ok _, Err cleanup => Err (CanPassedUncleaned cleanup)
  | Err canary, Err cleanup => Err (CanFailedUncleaned canary cleanup)
  end.

Definition with_canary_target (image_arn image_version : string) (connector : ConnectorRef) (seal : KnownTargetSeal)
    (payload : @RunPayload (list NetworkItem)) (body : KnownTargetSeal -> CanM unit) : CanM unit :=
  payload ← prog_lift (ok_or (CanBail "payload") (json_payload payload));
  vm ← launch_canary_target image_arn image_version payload ("hands-" +:+ ks_operation_id seal) connector;
  prog_bind (body (set_target (mv_id vm) seal)) (fun canary =>
    prog_bind (terminate_known_target (mv_id vm)) (fun cleanup => Ret (merge canary cleanup))).

Definition connect_to_target (seal : KnownTargetSeal) : CanM LaunchedHand :=
  vm ← try_call CanWait (CanWaitState (ks_target_id seal) VmRunning STATE_TIMEOUT_MS);
  endpoint ← prog_lift (ok_or (CanBail "no endpoint") (mv_endpoint vm));
  token ← try_call CanControl (CanToken (ks_target_id seal));
  let hand := mkLaunchedHand (ks_target_id seal) (normalise_endpoint endpoint) token (ks_control_token seal) in
  _ ← try_call CanConnect (CanConnectSocket hand);
  mret hand.

(** ** The executions *)
Definition NL : string := String (Ascii.ascii_of_N 10) EmptyString.
Definition QUOTE : string := String (Ascii.ascii_of_N 34) EmptyString.
Definition ZERO_DIGEST : string := String.string_of_list_ascii (repeat "0"%char 64).

Definition sealed_execution (seal : KnownTargetSeal) (command : string) (network : Network) (binding_ref sandbox_id : string) : CanaryExecution :=
  let request digest := mkCanaryExecution (ks_operation_id seal) (ks_generation seal) command network digest binding_ref
    (ks_root_id seal) sandbox_id (ks_session_id seal) in
  request (execution_digest (request ZERO_DIGEST)).

Definition MARKER_COMMAND : string :=
  "printf 'marker\n' >> /workspace/image-canary-effect; sync /workspace/image-canary-effect; printf 'marker_count=%s\n' "
  +:+ QUOTE +:+ "$(wc -l < /workspace/image-canary-effect)" +:+ QUOTE.
Definition canary_execution (seal : KnownTargetSeal) : CanaryExecution :=
  sealed_execution seal MARKER_COMMAND NetNone "image-canary-binding" "image-canary-sandbox".

Definition is_ipv4 (address : string) : bool := bool_decide (is_Some (parse_ipv4 address)).
Definition is_routed (address : string) : bool :=
  match parse_ipv4 address with
  | Some (a, b, c, d) => negb (a =? 127) && negb (bool_decide ((a, b, c, d) = (169, 254, 169, 254)))
  | None => false
  end.
Definition connector_routed_special_use_ipv4_fixtures : list string := List.filter is_routed SPECIAL_USE_FIXTURES.
Definition public_controls : list string := List.filter is_ipv4 PUBLIC_UNICAST_FIXTURES.

Definition canary_node_command (marker script : string) : string :=
  "node --input-type=module <<'" +:+ marker +:+ "'" +:+ NL
  +:+ trim_end (str_replace "__PROBE__" (trim_end PROBE_SCRIPT) script) +:+ NL +:+ marker.

Definition EXAMPLE_ALLOWLIST : Network := NetAllowlist [ItemTls "example.com"].

Definition restricted_network_execution (seal : KnownTargetSeal) (gateway : GatewayAuthority) (class : RestrictedClass)
    : result Failure CanaryExecution :=
  _ ← ensure (is_ipv4 (host gateway)) (CanBail "gateway is not a fixed IPv4 authority");
  let denied := List.filter (fun address => negb (str_eqb address (host gateway))) connector_routed_special_use_ipv4_fixtures in
  _ ← ensure (negb (len denied =? 0)) (CanBail "no denied fixtures");
  _ ← ensure (negb (len public_controls =? 0)) (CanBail "no public controls");
  let label := class_label class in
  let '(network, require_gateway) :=
    match class with RestrictedNone => (NetNone, "false") | RestrictedAllowlist => (EXAMPLE_ALLOWLIST, "true") end in
  let script :=
    str_replace "__REQUIRE_GATEWAY__" require_gateway
      (str_replace "__GATEWAY__" (json_gateway gateway)
        (str_replace "__CONTROLS__" (json_list public_controls)
          (str_replace "__DENIED__" (json_list denied)
            (str_replace "__CLASS__" (json_str label) RESTRICTED_SCRIPT)))) in
  Ok (sealed_execution seal (canary_node_command "AEX_RESTRICTED_NETWORK_CANARY" script) network
        (label +:+ "-network-canary-binding") (label +:+ "-network-canary-sandbox")).

Definition public_network_execution (seal : KnownTargetSeal) (customer_hand_hosts : string * string) : result Failure CanaryExecution :=
  let denied := connector_routed_special_use_ipv4_fixtures in
  _ ← ensure (negb (len denied =? 0)) (CanBail "no denied fixtures");
  _ ← ensure (negb (len public_controls =? 0)) (CanBail "no public controls");
  let script :=
    str_replace "__CUSTOMER_HAND_HOSTS__" (json_list [customer_hand_hosts.1; customer_hand_hosts.2])
      (str_replace "__HTTP_SURFACES__" HTTP_SURFACES
        (str_replace "__CONTROLS__" (json_list public_controls)
          (str_replace "__DENIED__" (json_list denied) PUBLIC_SCRIPT))) in
  Ok (sealed_execution seal (canary_node_command "AEX_NETWORK_CANARY" script) NetPublic "network-canary-binding" "network-canary-sandbox").

Definition host_byte (c : Ascii.ascii) : bool := is_ascii_lower c || is_ascii_digit c || Ascii.eqb c "." || Ascii.eqb c "-".
Definition edge_is_alphanumeric (c : option Ascii.ascii) : bool := match c with Some c => is_ascii_alphanumeric c | None => false end.
Definition valid_host_label (label : string) : bool :=
  negb (is_empty label) && (str_len label <=? 63)
  && edge_is_alphanumeric (head (bytes_of label)) && edge_is_alphanumeric (last (bytes_of label)).
Definition valid_customer_host (host : string) : bool :=
  (str_len host <=? 253) && str_eqb host (trim host) && forallb host_byte (bytes_of host)
  && ends_with (".execute-api." +:+ region +:+ ".amazonaws.com") host && forallb valid_host_label (split_on "." host).
Definition validate_customer_hand_hosts (hosts : string * string) : result Failure unit :=
  _ ← ensure (negb (str_eqb hosts.1 hosts.2)) (CanBail "hosts are not distinct");
  _ ← ensure (valid_customer_host hosts.1) (CanBail "invalid host");
  ensure (valid_customer_host hosts.2) (CanBail "invalid host").

(** ** The network canaries *)
Definition require_stdout (terminal : CanaryTerminal) (prefix : string) : result Failure unit :=
  stdout ← require_completed_stdout terminal; ensure (starts_with prefix stdout) (CanBail "unexpected result").

Definition run_restricted_network_on_known_target (seal : KnownTargetSeal) (gateway : GatewayAuthority) (class : RestrictedClass) : CanM unit :=
  _ ← connect_to_target seal;
  request ← prog_lift (restricted_network_execution seal gateway class);
  terminal ← execute_and_observe 1 request;
  prog_lift (require_stdout terminal ("restricted_network_canary=ok class=" +:+ class_label class +:+ " ")).

Definition run_restricted_network_canary (cfg : NetworkBoundaryCanaryConfig) (class : RestrictedClass) : CanM unit :=
  connector ← prog_lift (ok_or (CanBail "missing connector") (resolve (nb_connectors cfg) (class_connector class)));
  let network := match class with RestrictedNone => NetNone | RestrictedAllowlist => EXAMPLE_ALLOWLIST end in
  let proxy := match class with
               | RestrictedNone => None
               | RestrictedAllowlist => Some (mkAllowlistProxy (as_authority (nb_gateway cfg)) "invalid-release-canary-capability")
               end in
  sealed ← seal_canary_run (class_label class +:+ "-network") (class_connector class) network proxy false;
  with_canary_target (nb_image_arn cfg) (nb_image_version cfg) connector sealed.1 sealed.2
    (fun seal => run_restricted_network_on_known_target seal (nb_gateway cfg) class).

Definition run_public_network_on_known_target (seal : KnownTargetSeal) (customer_hand_hosts : string * string) : CanM unit :=
  _ ← connect_to_target seal;
  request ← prog_lift (public_network_execution seal customer_hand_hosts);
  terminal ← execute_and_observe 1 request;
  prog_lift (require_stdout terminal "network_canary=ok ").

Definition run_public_network_canary (cfg : NetworkBoundaryCanaryConfig) : CanM unit :=
  sealed ← seal_canary_run "network" ConnPublic NetPublic None false;
  connector ← prog_lift (ok_or (CanBail "missing connector") (resolve (nb_connectors cfg) ConnPublic));
  with_canary_target (nb_image_arn cfg) (nb_image_version cfg) connector sealed.1 sealed.2
    (fun seal => run_public_network_on_known_target seal (nb_customer_hand_hosts cfg)).

Definition run_network_boundary_canary (cfg : NetworkBoundaryCanaryConfig) : CanM unit :=
  _ ← prog_lift (validate_customer_hand_hosts (nb_customer_hand_hosts cfg));
  _ ← run_restricted_network_canary cfg RestrictedNone;
  _ ← run_restricted_network_canary cfg RestrictedAllowlist;
  run_public_network_canary cfg.

(** ** The no-respawn canary *)
Definition is_success (status : Z) : bool := (200 <=? status) && (status <? 300).

Fixpoint probe_loop (fuel : nat) (hand : LaunchedHand) (deadline consecutive : Z) : CanM unit :=
  match fuel with
  | O => Ret (Err CanOutOfFuel)
  | S fuel =>
      Do CanInstant (fun now =>
        if deadline <=? now then Ret (Err (CanBail "no repeated 502"))
        else Do (CanGet (lh_microvm_id hand)) (fun state =>
          let probe :=
            Do (ProbeEndpoint (lh_endpoint hand +:+ "/") (lh_auth_token hand) PROBE_TIMEOUT_MS) (fun status =>
              let again consecutive := Do (CanSleep 2000) (fun _ => probe_loop fuel hand deadline consecutive) in
              match status with
              | None => again 0
              | Some status =>
                  if status =? 502 then
                    if consecutive + 1 =? REQUIRED_CONSECUTIVE_502 then Ret (Ok tt) else again (consecutive + 1)
                  else if is_success status then Ret (Err (CanBail "endpoint rearmed")) else again 0
              end) in
          match state with
          | Ok _ | Err (Retryable _ | Throttled _) => probe
          | Err e => Ret (Err (CanControl e))
          end))
  end.
Definition assert_persistent_502 (hand : LaunchedHand) : CanM unit :=
  Do CanInstant (fun start => probe_loop (turns 2000) hand (start + STATE_TIMEOUT_MS) 0).

(** [wanted]: Suspended or Running. *)
Inductive Transition := ToSuspended | ToRunning.
Definition transition_state (t : Transition) : MicrovmState := match t with ToSuspended => VmSuspended | ToRunning => VmRunning end.

Definition confirm_wait (id : string) (t : Transition) : CanM bool :=
  Do (CanWaitState id (transition_state t) STATE_TIMEOUT_MS) (fun waited =>
    match waited with
    | Ok _ => Ret (Ok true)
    | Err wait_error => Do (CanGet id) (fun r =>
        match r with
        | Ok vm => if is_gone (mv_state vm) then Ret (Ok false) else Ret (Err (CanWait wait_error))
        | Err (ControlGone _) => Ret (Ok false)
        | Err _ => Ret (Err (CanWait wait_error))
        end)
    end).

Definition transition_and_wait_or_confirm_gone (id : string) (t : Transition) : CanM bool :=
  Do (match t with ToSuspended => CanSuspend id | ToRunning => CanResume id end) (fun effect =>
    match effect with
    | Ok _ | Err (UnknownOutcome _) => confirm_wait id t
    | Err (ControlGone _) => Ret (Ok false)
    | Err e => Ret (Err (CanControl e))
    end).

(** The exact operation once more: the handshake must be refused. *)
Definition exact_replay (hand : LaunchedHand) (request : CanaryExecution) : CanM unit :=
  Do (CanConnectSocket hand) (fun connected =>
    match connected with
    | Err (ConnectHttp status) => if status =? 502 then Ret (Ok tt) else Ret (Err (CanConnect (ConnectHttp status)))
    | Err e => Ret (Err (CanConnect e))
    | Ok _ => prog_bind (canary_call 3 (ExecuteSandbox request)) (fun _ => Ret (Err (CanBail "exact replay accepted")))
    end).

Definition require_single_marker (terminal : CanaryTerminal) : result Failure unit :=
  _ ← ensure (ct_completed terminal) (CanBail (terminal_diagnostic terminal));
  ensure (bool_decide (ct_inline terminal !! "stdout" = Some ("marker_count=1" +:+ NL))) (CanBail "marker was not written exactly once").

Definition replay_after_resume (hand : LaunchedHand) (request : CanaryExecution) : CanM unit :=
  token ← try_call CanControl (CanToken (lh_microvm_id hand));
  let hand := mkLaunchedHand (lh_microvm_id hand) (lh_endpoint hand) token (lh_control_token hand) in
  _ ← assert_persistent_502 hand;
  exact_replay hand request.

Definition run_on_known_target (seal : KnownTargetSeal) : CanM unit :=
  hand ← connect_to_target seal;
  let request := canary_execution seal in
  terminal ← execute_and_observe 1 request;
  _ ← prog_lift (require_single_marker terminal);
  _ ← assert_persistent_502 hand;
  suspended ← transition_and_wait_or_confirm_gone (ks_target_id seal) ToSuspended;
  if negb (suspended : bool) then mret tt
  else
    resumed ← transition_and_wait_or_confirm_gone (ks_target_id seal) ToRunning;
    if negb (resumed : bool) then mret tt else replay_after_resume hand request.

Definition run_no_respawn_canary (cfg : NoRespawnCanaryConfig) : CanM unit :=
  sealed ← seal_canary_run "image" ConnNone NetNone None true;
  with_canary_target (nr_image_arn cfg) (nr_image_version cfg) (nr_none_connector cfg) sealed.1 sealed.2 run_on_known_target.

(** ** No canary leaves or overlaps a microVM *)
Notation CanTrace := (list (Event Can)).

Definition launched_as (id : string) (e : Event Can) : Prop := match e with Ev (CanRun _) (Ok vm) => mv_id vm = id | _ => False end.
Definition is_launch (e : Event Can) : bool := match e with Ev (CanRun _) _ => true | _ => false end.
(** The provider said that the target is terminated or unknown. *)
Definition confirms_end (id : string) (e : Event Can) : Prop :=
  match e with
  | Ev (CanGet id') (Ok vm) => id' = id /\ is_terminated (mv_state vm) = true
  | Ev (CanGet id') (Err (ControlGone _)) => id' = id
  | _ => False
  end.
Definition settled (h : CanTrace) : Prop := forall id, Exists (launched_as id) h -> Exists (confirms_end id) h.

(** A launch is attempted only when every earlier target has ended. *)
Definition launch_alone (h : CanTrace) (e : Event Can) : Prop := is_launch e = true -> settled h.

(** Programs that launch nothing only extend the history. *)
Definition launches_nothing {A} (p : Prog Can A) : Prop := always (fun _ e => is_launch e = false) p.

Lemma launches_nothing_wp {A} (p : Prog Can A) h :
  launches_nothing p -> wp launch_alone p h (fun _ h' => exists t, h' = t ++ h /\ Forall (fun e => is_launch e = false) t).
Proof.
  intros Hp. specialize (Hp h). revert h Hp. induction p as [a | X c k IH]; cbn; intros h Hp; [by exists []|].
  intros x. destruct (Hp x) as [Hc Hk]. split; [by intros Hl; cbn in Hl; rewrite Hl in Hc|]. eapply wp_mono; [by apply IH|].
  cbv beta. intros a h' (t & -> & Ht). exists (t ++ [Ev c x]). rewrite <- app_assoc. split; [done|].
  apply Forall_app. split; [done|]. by constructor.
Qed.

Lemma launched_app id t h : Forall (fun e => is_launch e = false) t -> Exists (launched_as id) (t ++ h) -> Exists (launched_as id) h.
Proof.
  intros Ht [He|He]%Exists_app; [|done]. apply Exists_exists in He as (e & Hin & He). rewrite Forall_forall in Ht.
  specialize (Ht e Hin). destruct e as [X c x]. by destruct c.
Qed.

Lemma settled_app t h : Forall (fun e => is_launch e = false) t -> settled h -> settled (t ++ h).
Proof. intros Ht Hh id Hl%launched_app; [|done]. apply Exists_app. right. by apply Hh. Qed.

(** Every launched target but [id] has ended. *)
Definition settled_but (id : string) (h : CanTrace) : Prop :=
  forall id', Exists (launched_as id') h -> id' = id \/ Exists (confirms_end id') h.

Lemma settled_but_app id t h : Forall (fun e => is_launch e = false) t -> settled_but id h -> settled_but id (t ++ h).
Proof. intros Ht Hh id' Hl%launched_app; [|done]. destruct (Hh id' Hl) as [->|Hc]; [by left|]. right. apply Exists_app. by right. Qed.

Lemma launch_loop_ok fuel request deadline h :
  settled h -> wp launch_alone (launch_loop fuel request deadline) h (fun r h' => match r with Ok vm => settled_but (mv_id vm) h' | Err _ => settled h' end).
Proof.
  assert (Hskip : forall e h, is_launch e = false -> settled h -> settled (e :: h)).
  { intros e h0 He Hs. apply (settled_app [e]); [by constructor | done]. }
  revert h. induction fuel as [|fuel IH]; intros h Hs; [done|]. cbn [launch_loop wp]. intros x.
  split; [by intros _|]. destruct x as [vm|e].
  - intros id [Hl|Hl]%Exists_cons; [by left | right; apply Exists_cons; right; by apply Hs].
  - assert (Hs' : settled (Ev (CanRun request) (Err e) :: h)).
    { intros id [[]|Hl]%Exists_cons. apply Exists_cons. right. by apply Hs. }
    destruct e; try exact Hs'; (intros now; split; [done|]; destruct (now <? deadline); [|by apply Hskip]; intros []; split; [done|];
      apply IH; by do 2 (apply Hskip; [done|])).
Qed.

(** The end of the loop that terminates a target. *)
Lemma terminate_loop_ok fuel id deadline h :
  settled_but id h -> wp launch_alone (terminate_loop fuel id deadline) h (fun r h' => settled_but id h' /\ (is_ok r = true -> settled h')).
Proof.
  assert (Hskip : forall e h, is_launch e = false -> settled_but id h -> settled_but id (e :: h)).
  { intros e h0 He Hs. apply (settled_but_app id [e]); [by constructor | done]. }
  assert (Hend : forall e h, is_launch e = false -> confirms_end id e -> settled_but id h ->
    settled_but id (e :: h) /\ settled (e :: h)).
  { intros e h0 He Hc Hs. split; [by apply Hskip|]. intros id' Hl. destruct (Hskip e h0 He Hs id' Hl) as [->|]; [|done]. by left. }
  revert h. induction fuel as [|fuel IH]; intros h Hs; [done|]. cbn [terminate_loop wp]. intros now. split; [done|].
  assert (Hs1 := Hskip (Ev CanInstant now) h eq_refl Hs).
  destruct (deadline <=? now); [done|]. intros r. split; [done|]. assert (Hs2 := Hskip (Ev (CanGet id) r) _ eq_refl Hs1).
  assert (Hagain : forall h', settled_but id h' -> wp launch_alone (Do (CanSleep 500) (fun _ => terminate_loop fuel id deadline)) h'
    (fun r h' => settled_but id h' /\ (is_ok r = true -> settled h'))).
  { intros h' Hh' []. split; [done|]. apply IH. by apply Hskip. }
  destruct r as [vm|e].
  - destruct (is_terminated (mv_state vm)) eqn:Et.
    { cbn [wp]. destruct (Hend (Ev (CanGet id) (Ok vm)) (Ev CanInstant now :: h) eq_refl (conj eq_refl Et) Hs1). done. }
    destruct (decide _); [by apply Hagain|]. intros t. split; [done|].
    assert (Hs3 := Hskip (Ev (CanTerminate id) t) _ eq_refl Hs2). destruct t as [[]|e]; [by apply Hagain|].
    destruct e; first [by apply Hagain | done].
  - destruct e; first [by apply Hagain | done | cbn [wp]; destruct (Hend (Ev (CanGet id) (Err (ControlGone message))) (Ev CanInstant now :: h) eq_refl eq_refl Hs1); done].
Qed.

(** A canary that starts when all earlier targets have ended, and passes, has ended its own. *)
Definition canary_ok {A} (p : CanM A) : Prop :=
  forall h, settled h -> wp launch_alone p h (fun r h' => is_ok r = true -> settled h').

Lemma canary_ok_bind {A B} (m : CanM A) (f : A -> CanM B) : canary_ok m -> (forall a, canary_ok (f a)) -> canary_ok (m ≫= f).
Proof.
  intros Hm Hf h Hs. apply wp_bind. eapply wp_mono; [by apply Hm|]. intros [a|e] h' Hh'; [apply Hf; by apply Hh' | done].
Qed.

Lemma canary_ok_nothing {A} (m : CanM A) : launches_nothing m -> canary_ok m.
Proof. intros Hm h Hs. eapply wp_mono; [by apply launches_nothing_wp|]. intros r h' (t & -> & Ht) _. by apply settled_app. Qed.

Lemma with_canary_target_ok arn version connector seal payload body :
  (forall seal, launches_nothing (body seal)) -> canary_ok (with_canary_target arn version connector seal payload body).
Proof.
  intros Hb. apply canary_ok_bind; [by apply canary_ok_nothing|]. intros p h Hs. unfold launch_canary_target. apply wp_bind.
  intros start. split; [done|]. eapply wp_mono; [apply launch_loop_ok; apply (settled_app [_]); [by constructor | exact Hs]|].
  cbv beta. intros [vm|e] h1 Hh1; [|done]. apply wp_bind. eapply wp_mono; [by apply launches_nothing_wp|]. cbv beta.
  intros canary h2 (t & -> & Ht). apply wp_bind. intros start'. split; [done|].
  eapply wp_mono; [apply terminate_loop_ok; apply (settled_but_app _ [_]); [by constructor|]; by apply settled_but_app|].
  cbv beta. intros cleanup h3 [_ Hc] Hok. apply Hc. by destruct canary, cleanup.
Qed.

(** *** The proofs on a target launch nothing *)
Lemma canary_call_quiet (ok : CanTrace -> Event Can -> Prop) n c :
  (forall h f x, cf_call f = c -> ok h (Ev (SendFrame f) x)) -> (forall h x, ok h (Ev ReadSocket x)) -> always ok (canary_call n c).
Proof. intros Hs Hr. unfold canary_call. intros h x. split; [by apply Hs|]. destruct x; [|done]. intros messages. split; [apply Hr | done]. Qed.

Lemma execute_and_observe_quiet (ok : CanTrace -> Event Can -> Prop) n request :
  (forall h f x, ok h (Ev (SendFrame f) x)) -> (forall h x, ok h (Ev ReadSocket x)) -> always ok (execute_and_observe n request).
Proof.
  intros Hs Hr. unfold execute_and_observe. apply always_mbind; [by apply canary_call_quiet; auto|]. intros []; try done.
  apply always_mbind; [by apply canary_call_quiet; auto|]. by intros [|[]|].
Qed.

Lemma probe_loop_quiet (ok : CanTrace -> Event Can -> Prop) fuel hand deadline n :
  (forall h X (c : Can X) x, match c with CanInstant | CanGet _ | ProbeEndpoint _ _ _ | CanSleep _ => True | _ => False end -> ok h (Ev c x)) ->
  always ok (probe_loop fuel hand deadline n).
Proof.
  intros Hok. revert n. induction fuel as [|fuel IH]; intros n; [done|]. cbn [probe_loop].
  apply always_do; [intros; by apply Hok|]. intros now. destruct (deadline <=? now); [done|].
  apply always_do; [intros; by apply Hok|]. intros state. set (probe := Do (ProbeEndpoint _ _ _) _).
  assert (Hp : always ok probe).
  { apply always_do; [intros; by apply Hok|].
    assert (Ha : forall m, always ok (Do (CanSleep 2000) (fun _ => probe_loop fuel hand deadline m)))
      by (intros m; apply always_do; [intros; by apply Hok | intros []; apply IH]).
    intros [status|]; [|apply Ha]. destruct (status =? 502); [by destruct (_ =? REQUIRED_CONSECUTIVE_502); [|apply Ha]|].
    destruct (is_success status); [done | apply Ha]. }
  clearbody probe. destruct state as [vm|e]; [done|]. by destruct e.
Qed.
#[local] Hint Resolve canary_call_quiet execute_and_observe_quiet probe_loop_quiet : handlers.

Lemma restricted_body_quiet seal gateway class : launches_nothing (run_restricted_network_on_known_target seal gateway class).
Proof. unfold run_restricted_network_on_known_target, connect_to_target, launches_nothing. always_tac; by auto with handlers. Qed.
Lemma public_body_quiet seal hosts : launches_nothing (run_public_network_on_known_target seal hosts).
Proof. unfold run_public_network_on_known_target, connect_to_target, launches_nothing. always_tac; by auto with handlers. Qed.

Lemma transition_quiet id t : launches_nothing (transition_and_wait_or_confirm_gone id t).
Proof. unfold transition_and_wait_or_confirm_gone, confirm_wait, launches_nothing. destruct t; always_tac; done. Qed.
Lemma no_respawn_body_quiet seal : launches_nothing (run_on_known_target seal).
Proof.
  unfold run_on_known_target, connect_to_target, replay_after_resume, assert_persistent_502, exact_replay, launches_nothing.
  pose proof (transition_quiet (ks_target_id seal)). unfold launches_nothing in *. always_tac; try (by auto with handlers).
  all: apply probe_loop_quiet; by intros ? ? [].
Qed.

Lemma seal_canary_run_quiet label connector network proxy exits : launches_nothing (seal_canary_run label connector network proxy exits).
Proof. unfold seal_canary_run, launches_nothing. always_tac; done. Qed.

(** ** The canaries as they are run *)
Inductive Canary := NetworkBoundary (cfg : NetworkBoundaryCanaryConfig) | NoRespawn (cfg : NoRespawnCanaryConfig).
Definition run_canary (c : Canary) : CanM unit :=
  match c with NetworkBoundary cfg => run_network_boundary_canary cfg | NoRespawn cfg => run_no_respawn_canary cfg end.

Lemma run_canary_ok c : canary_ok (run_canary c).
Proof.
  assert (Hseal : forall l cc n p x, canary_ok (seal_canary_run l cc n p x)) by (intros; apply canary_ok_nothing, seal_canary_run_quiet).
  assert (Hlift : forall A (r : result Failure A), canary_ok (prog_lift r)) by (intros; by apply canary_ok_nothing).
  assert (Hrestricted : forall cfg class, canary_ok (run_restricted_network_canary cfg class)).
  { intros cfg class. apply canary_ok_bind; [apply Hlift|]. intros connector. apply canary_ok_bind; [apply Hseal|].
    intros sealed. apply with_canary_target_ok. intros seal. apply restricted_body_quiet. }
  destruct c as [cfg|cfg]; cbn [run_canary].
  - apply canary_ok_bind; [apply Hlift|]. intros _. apply canary_ok_bind; [apply Hrestricted|]. intros _.
    apply canary_ok_bind; [apply Hrestricted|]. intros _. apply canary_ok_bind; [apply Hseal|]. intros sealed.
    apply canary_ok_bind; [apply Hlift|]. intros connector. apply with_canary_target_ok. intros seal. apply public_body_quiet.
  - apply canary_ok_bind; [apply Hseal|]. intros sealed. apply with_canary_target_ok, no_respawn_body_quiet.
Qed.


(** ** What a passing no-respawn canary witnessed *)
Definition probes (tr : CanTrace) : list (option Z) :=
  List.flat_map (fun e => match e with Ev c x => match c in Can X return X -> list (option Z) with ProbeEndpoint _ _ _ => fun s => [s] | _ => fun _ => [] end x end) tr.
Definition executes (e : Event Can) : bool :=
  match e with Ev (SendFrame f) _ => match cf_call f with ExecuteSandbox _ => true | _ => false end | _ => false end.
(** The provider said that the target is going or gone. *)
Definition says_gone (id : string) (e : Event Can) : Prop :=
  match e with
  | Ev (CanSuspend id') (Err (ControlGone _)) | Ev (CanResume id') (Err (ControlGone _)) | Ev (CanGet id') (Err (ControlGone _)) => id' = id
  | Ev (CanGet id') (Ok vm) => id' = id /\ is_gone (mv_state vm) = true
  | _ => False
  end.
Definition rearmed (status : option Z) : Prop := match status with Some s => is_success s = true | None => False end.

Lemma probes_app t1 t2 : probes (t1 ++ t2) = probes t1 ++ probes t2.
Proof. apply List.flat_map_app. Qed.

(** Three answers of 502 in a row, and no answer of an endpoint that serves again. *)
Definition dead_endpoint (statuses : list (option Z)) : Prop :=
  (exists l, statuses = l ++ [Some 502; Some 502; Some 502]) /\ Forall (fun s => ~ rearmed s) statuses.

(** One turn of a loop that succeeds. *)
Inductive probe_turn (fuel : nat) (hand : LaunchedHand) (deadline : Z) (n : nat) (status : option Z) : CanTrace -> Prop :=
  | ProbeThird : status = Some 502 -> n = 2%nat -> probe_turn fuel hand deadline n status []
  | ProbeNext t : status = Some 502 -> n <> 2%nat -> runs (probe_loop fuel hand deadline (Z.of_nat (S n))) t (Ok tt) ->
      probe_turn fuel hand deadline n status (Ev (CanSleep 2000) tt :: t)
  | ProbeReset t : ~ rearmed status -> runs (probe_loop fuel hand deadline (Z.of_nat 0)) t (Ok tt) ->
      probe_turn fuel hand deadline n status (Ev (CanSleep 2000) tt :: t).

Lemma probe_loop_turn fuel hand deadline n tr :
  runs (probe_loop (S fuel) hand deadline (Z.of_nat n)) tr (Ok tt) ->
  exists now state status t,
    tr = Ev CanInstant now :: Ev (CanGet (lh_microvm_id hand)) state
         :: Ev (ProbeEndpoint (lh_endpoint hand +:+ "/") (lh_auth_token hand) PROBE_TIMEOUT_MS) status :: t
    /\ probe_turn fuel hand deadline n status t.
Proof.
  intros (now & t & -> & Hr). destruct (deadline <=? now); [by destruct Hr|]. destruct Hr as (state & t1 & -> & Hr).
  assert (Hreset : forall status t2, ~ rearmed status ->
    runs (Do (CanSleep 2000) (fun _ => probe_loop fuel hand deadline 0)) t2 (Ok tt) -> probe_turn fuel hand deadline n status t2).
  { intros status t2 Hq ([] & t3 & -> & Hr3). by apply ProbeReset. }
  destruct state as [vm|[]]; try (by destruct Hr); destruct Hr as (status & t2 & -> & Hr);
    exists now; eexists _, status, t2; (split; [done|]); (destruct status as [s|]; [|by apply Hreset; [intros []|]]);
    (destruct (Z.eqb_spec s 502) as [->|Hne];
      [ destruct (Z.eqb_spec (Z.of_nat n + 1) REQUIRED_CONSECUTIVE_502) as [He|He]; unfold REQUIRED_CONSECUTIVE_502 in He;
        [ destruct Hr as [-> _]; apply ProbeThird; [done | lia]
        | destruct Hr as ([] & t3 & -> & Hr); apply ProbeNext; [done | lia | by replace (Z.of_nat (S n)) with (Z.of_nat n + 1) by lia] ]
      | destruct (is_success s) eqn:Eq; [by destruct Hr | apply Hreset; [cbn; by rewrite Eq | exact Hr]] ]).
Qed.

Lemma probe_loop_Ok fuel hand deadline n tr :
  (n < 3)%nat -> runs (probe_loop fuel hand deadline (Z.of_nat n)) tr (Ok tt) -> dead_endpoint (repeat (Some 502) n ++ probes tr).
Proof.
  revert n tr. induction fuel as [|fuel IH]; intros n tr Hn Hr; [by destruct Hr|].
  apply probe_loop_turn in Hr as (now & state & status & t & -> & Ht). change (probes _) with (status :: probes t).
  destruct Ht as [-> -> | t -> Hne Hr | t Hq Hr].
  - split; [by exists []|]. by repeat constructor.
  - apply IH in Hr; [|lia]. change (probes (Ev (CanSleep 2000) tt :: t)) with (probes t). cbn [repeat app] in Hr.
    by rewrite app_comm_cons, repeat_cons, <- app_assoc in Hr.
  - destruct (IH 0%nat t ltac:(lia) Hr) as [[l Hl] Hf]. cbn [repeat app] in Hl, Hf. change (probes (Ev (CanSleep 2000) tt :: t)) with (probes t).
    split; [exists (repeat (Some 502) n ++ status :: l); rewrite <- app_assoc; cbn; by rewrite Hl|].
    apply Forall_app. split; [apply Forall_forall; by intros s ->%list_elem_of_In%repeat_spec | by constructor].
Qed.

(** A phase: how many executions it sent, and what it saw at the endpoint. *)
Definition phase (tr : CanTrace) (sent : nat) (statuses : list (option Z)) : Prop := count executes tr = sent /\ probes tr = statuses.

Lemma phase_app t1 t2 n1 n2 s1 s2 : phase t1 n1 s1 -> phase t2 n2 s2 -> phase (t1 ++ t2) (n1 + n2) (s1 ++ s2).
Proof. intros [<- <-] [<- <-]. split; [apply count_events_app | apply probes_app]. Qed.

Lemma connect_to_target_Ok seal tr hand :
  runs (connect_to_target seal) tr (Ok hand) -> lh_microvm_id hand = ks_target_id seal /\ phase tr 0 [].
Proof.
  unfold connect_to_target. intros (vm & t1 & t2 & -> & (w & t1' & -> & -> & _) & Hr)%runs_mbind_Ok.
  apply runs_mbind_Ok in Hr as (endpoint & t3 & t4 & -> & [-> _] & Hr).
  apply (runs_mbind_Ok (try_call CanControl _)) in Hr as (token & t5 & t6 & -> & (k & t5' & -> & -> & _) & Hr).
  apply (runs_mbind_Ok (try_call CanConnect _)) in Hr as ([] & t7 & t8 & -> & (c & t7' & -> & -> & _) & [-> Hr]). by injection Hr as ->.
Qed.

Lemma canary_call_Ok n c tr reply :
  runs (canary_call n c) tr (Ok reply) ->
  exists frame messages, tr = [Ev (SendFrame frame) true; Ev ReadSocket messages] /\ cf_call frame = c
    /\ receive (cf_request_id frame) messages = Ok reply.
Proof. intros ([] & t & -> & Hr); [|by destruct Hr]. destruct Hr as (messages & t' & -> & -> & Hr). by eexists _, messages. Qed.

Lemma execute_and_observe_Ok n request tr terminal :
  runs (execute_and_observe n request) tr (Ok terminal) ->
  phase tr 1 [] /\ exists id messages, Ev ReadSocket messages ∈ tr /\ receive id messages = Ok (Observed (Some terminal)).
Proof.
  unfold execute_and_observe.
  intros (reply & t1 & t2 & -> & (f1 & m1 & -> & Hf1 & H1)%canary_call_Ok & Hr)%runs_mbind_Ok. destruct reply as [operation| |]; [|by destruct Hr..].
  apply runs_mbind_Ok in Hr as (reply & t3 & t4 & -> & (f2 & m2 & -> & Hf2 & H2)%canary_call_Ok & Hr).
  destruct reply as [| [t|] |]; try (by destruct Hr). destruct Hr as [-> [= ->]]. split.
  - unfold phase. cbn. by rewrite Hf1, Hf2.
  - exists (cf_request_id f2), m2. split; [|done]. cbn. set_solver.
Qed.

Lemma assert_persistent_502_Ok hand tr :
  runs (assert_persistent_502 hand) tr (Ok tt) -> exists statuses, phase tr 0 statuses /\ dead_endpoint statuses.
Proof.
  intros (start & t & -> & Hr). exists (probes t). split; [split; [|done]|].
  - cbn [count]. eapply always_count; [|exact Hr]. apply probe_loop_quiet. by intros ? ? [].
  - by apply (probe_loop_Ok _ _ _ 0) in Hr; [|lia].
Qed.

Lemma transition_Ok id t tr b :
  runs (transition_and_wait_or_confirm_gone id t) tr (Ok b) -> phase tr 0 [] /\ (b = false -> Exists (says_gone id) tr).
Proof.
  assert (Hwait : forall tr, runs (confirm_wait id t) tr (Ok b) -> phase tr 0 [] /\ (b = false -> Exists (says_gone id) tr)).
  { intros tr' (w & t1 & -> & Hr). destruct w as [vm|e]; [by destruct Hr as [-> [= ->]]|]. destruct Hr as (r & t2 & -> & Hr).
    destruct r as [vm|e']; [destruct (is_gone (mv_state vm)) eqn:Eg; [|by destruct Hr]; destruct Hr as [-> [= ->]]
      | destruct e'; try (by destruct Hr); destruct Hr as [-> [= ->]]]; (split; [done|]); intros _; apply Exists_cons; right; by left. }
  unfold transition_and_wait_or_confirm_gone. destruct t.
  all: intros (x & t1 & -> & Hr); destruct x as [[]|e].
  1,3: apply Hwait in Hr as [Hp Hg]; split; [exact Hp | intros Hb; apply Exists_cons; right; by apply Hg].
  all: destruct e; try (by destruct Hr);
    first [ apply Hwait in Hr as [Hp Hg]; split; [exact Hp | intros Hb; apply Exists_cons; right; by apply Hg]
          | destruct Hr as [-> [= ->]]; split; [done|]; intros _; by left ].
Qed.

(** The endpoint refused the exact operation with a 502 handshake, as the last thing that happened. *)
Definition replay_refused (id : string) (tr : CanTrace) : Prop :=
  exists earlier hand, tr = earlier ++ [Ev (CanConnectSocket hand) (Err (ConnectHttp 502))] /\ lh_microvm_id hand = id.

Lemma replay_after_resume_Ok hand request tr :
  runs (replay_after_resume hand request) tr (Ok tt) ->
  exists statuses, phase tr 0 statuses /\ dead_endpoint statuses /\ replay_refused (lh_microvm_id hand) tr.
Proof.
  unfold replay_after_resume. intros (token & t1 & t2 & -> & (k & t1' & -> & -> & _) & Hr)%runs_mbind_Ok.
  apply runs_mbind_Ok in Hr as ([] & t3 & t4 & -> & (statuses & Hp & Hd)%assert_persistent_502_Ok & (c & t5 & -> & Hr)).
  exists statuses. destruct c as [[]|e].
  { apply runs_bind in Hr as (? & ? & ? & -> & _ & [_ ?]). done. }
  destruct e as [status| |]; [|by destruct Hr..]. destruct (Z.eqb_spec status 502) as [->|]; [|by destruct Hr]. destruct Hr as [-> _].
  split; [|split; [done|]].
  - destruct Hp as [Hc <-]. split; [by rewrite !count_events_app, Hc | by rewrite !probes_app; cbn; rewrite app_nil_r].
  - eexists (Ev (CanToken (lh_microvm_id hand)) k :: t3), _. by split.
Qed.

(** A passing no-respawn canary has seen the generation stay dead. The run sent the marker execution exactly
    once, read a completed terminal saying that the marker was written exactly once, then saw the endpoint answer
    502 three times in a row and never serve again; and at the end either the provider said that the target is
    going or gone, or the handshake of the exact replay was refused with 502. *)
Theorem no_respawn_is_witnessed seal tr :
  runs (run_on_known_target seal) tr (Ok tt) ->
  count executes tr = 1%nat
  /\ (exists id messages terminal, Ev ReadSocket messages ∈ tr /\ receive id messages = Ok (Observed (Some terminal))
        /\ ct_completed terminal = true /\ ct_inline terminal !! "stdout" = Some ("marker_count=1" +:+ NL))
  /\ (exists l l', probes tr = l ++ [Some 502; Some 502; Some 502] ++ l') /\ Forall (fun s => ~ rearmed s) (probes tr)
  /\ (Exists (says_gone (ks_target_id seal)) tr \/ replay_refused (ks_target_id seal) tr).
Proof.
  unfold run_on_known_target. intros (hand & t1 & t2 & -> & [Hid H1]%connect_to_target_Ok & Hr)%runs_mbind_Ok. cbv zeta in Hr.
  apply runs_mbind_Ok in Hr as (terminal & t3 & t4 & -> & [H3 (id & messages & Hin & Hread)]%execute_and_observe_Ok & Hr).
  apply runs_mbind_Ok in Hr as ([] & t5 & t6 & -> & [-> Hm] & Hr).
  apply runs_mbind_Ok in Hr as ([] & t7 & t8 & -> & (s1 & H7 & [[l Hl] Hq])%assert_persistent_502_Ok & Hr).
  assert (Hmark : ct_completed terminal = true /\ ct_inline terminal !! "stdout" = Some ("marker_count=1" +:+ NL)).
  { symmetry in Hm. apply result_bind_Ok in Hm as ([] & Hc%ensure_Ok & Hs%ensure_Ok). by apply bool_decide_eq_true in Hs. }
  assert (Hall : forall s2, phase t8 0 s2 -> Forall (fun s => ~ rearmed s) s2 ->
    (Exists (says_gone (ks_target_id seal)) t8 \/ replay_refused (ks_target_id seal) t8) ->
    count executes (t1 ++ t3 ++ [] ++ t7 ++ t8) = 1%nat
    /\ (exists id messages terminal, Ev ReadSocket messages ∈ t1 ++ t3 ++ [] ++ t7 ++ t8 /\ receive id messages = Ok (Observed (Some terminal))
          /\ ct_completed terminal = true /\ ct_inline terminal !! "stdout" = Some ("marker_count=1" +:+ NL))
    /\ (exists l l', probes (t1 ++ t3 ++ [] ++ t7 ++ t8) = l ++ [Some 502; Some 502; Some 502] ++ l')
    /\ Forall (fun s => ~ rearmed s) (probes (t1 ++ t3 ++ [] ++ t7 ++ t8))
    /\ (Exists (says_gone (ks_target_id seal)) (t1 ++ t3 ++ [] ++ t7 ++ t8) \/ replay_refused (ks_target_id seal) (t1 ++ t3 ++ [] ++ t7 ++ t8))).
  { intros s2 H8 Hq2 Hend. destruct (phase_app _ _ _ _ _ _ H1 (phase_app _ _ _ _ _ _ H3 (phase_app [] _ 0 _ [] _ ltac:(done) (phase_app _ _ _ _ _ _ H7 H8)))) as [-> ->].
    split; [done|]. split; [exists id, messages, terminal; split; [|done]; rewrite !elem_of_app; tauto|]. cbn [app].
    split; [exists l, s2; by rewrite Hl, <- app_assoc|]. split; [by apply Forall_app|]. rewrite !app_assoc.
    destruct Hend as [Hg|(earlier & hand' & -> & He)]; [left; apply Exists_app; by right | right].
    eexists _, hand'. rewrite !app_assoc. done. }
  apply runs_mbind_Ok in Hr as (b & t9 & t10 & -> & [H9 Hg9]%transition_Ok & Hr).
  destruct b; cbn [negb] in Hr; [|destruct Hr as [-> _]; rewrite app_nil_r in *; apply (Hall []); auto].
  apply runs_mbind_Ok in Hr as (b & t11 & t12 & -> & [H11 Hg11]%transition_Ok & Hr).
  destruct b; cbn [negb] in Hr; [|destruct Hr as [-> _]; rewrite app_nil_r in *; apply (Hall []);
    [by apply (phase_app _ _ 0 0 [] []) | done | left; apply Exists_app; auto]].
  apply replay_after_resume_Ok in Hr as (s2 & H12 & [_ Hq2] & (earlier & hand' & -> & He)).
  apply (Hall s2); [by apply (phase_app _ _ 0 0 [] s2 H9), (phase_app _ _ 0 0 [] s2) | done|]. right.
  eexists _, hand'. rewrite !app_assoc. rewrite <- Hid, <- He. done.
Qed.

(** ** The canaries end *)
Definition can_reads (e : Event Can) : option Z :=
  match e with Ev c x => match c in Can X return X -> option Z with CanInstant => fun t => Some t | _ => fun _ => None end x end.
Definition can_sleeps (e : Event Can) : Z := match e with Ev (CanSleep duration) _ => duration | _ => 0 end.
Notation advances := (advances can_reads can_sleeps).

(** The bound of the model was met, in the canary or in its cleanup. *)
Fixpoint out_of_turns (f : Failure) : Prop :=
  match f with
  | CanOutOfFuel => True
  | CanPassedUncleaned cleanup => out_of_turns cleanup
  | CanFailedUncleaned canary cleanup => out_of_turns canary \/ out_of_turns cleanup
  | _ => False
  end.
Definition unfinished {A} (r : result Failure A) : Prop := match r with Ok _ => False | Err f => out_of_turns f end.
Notation finishes := (averts can_reads can_sleeps unfinished).

Lemma finishes_mbind {A B} (m : CanM A) (f : A -> CanM B) : finishes m -> (forall a, finishes (f a)) -> finishes (m ≫= f).
Proof. intros Hm Hf. eapply averts_bind; [exact Hm|]. intros [a|e] Hn; [apply Hf | by apply averts_ret]. Qed.

(** A loop whose every turn but the last sleeps [s], and that stops at its deadline. *)
Definition in_time (s : Z) (fuel : nat) (now deadline : Z) : Prop := (1 <= fuel)%nat /\ deadline <= now + s * (Z.of_nat fuel - 1).

Lemma in_time_turns s now : 0 < s -> STATE_TIMEOUT_MS <= s * (STATE_TIMEOUT_MS / s + 1) -> in_time s (turns s) now (now + STATE_TIMEOUT_MS).
Proof.
  intros Hs Ht. unfold in_time, turns. assert (0 <= STATE_TIMEOUT_MS / s) by (apply Z.div_pos; [by unfold STATE_TIMEOUT_MS | lia]).
  split; [lia|]. rewrite Z2Nat.id by lia. replace (_ + 2 - 1) with (STATE_TIMEOUT_MS / s + 1) by lia. lia.
Qed.

(** A turn that returned. *)
#[local] Ltac returned H := destruct H as [_ ->]; by intros [].

Lemma launch_loop_ends fuel request deadline now tr r :
  in_time 250 fuel now deadline -> advances now tr -> runs (launch_loop fuel request deadline) tr r -> ~ unfinished r.
Proof.
  revert now tr. induction fuel as [|fuel IH]; intros now tr [Hf Hd] Ha Hr; [lia|]. destruct Hr as (x & t & -> & Hr). cbn in Ha. rewrite Z.add_0_r in Ha.
  destruct x as [vm|e]; [returned Hr|].
  destruct e; try (returned Hr); destruct Hr as (i & t2 & -> & Hr); destruct Ha as [Hn Ha];
    (destruct (Z.ltb_spec i deadline); [|returned Hr]); destruct Hr as ([] & t3 & -> & Hr); cbn in Ha; (eapply IH; [|exact Ha|exact Hr]);
    unfold in_time; nia.
Qed.

Lemma terminate_loop_ends fuel id deadline now tr r :
  in_time 500 fuel now deadline -> advances now tr -> runs (terminate_loop fuel id deadline) tr r -> ~ unfinished r.
Proof.
  revert now tr. induction fuel as [|fuel IH]; intros now tr [Hf Hd] Ha Hr; [lia|]. destruct Hr as (i & t & -> & Hr). destruct Ha as [Hn Ha].
  destruct (Z.leb_spec deadline i); [returned Hr|]. destruct Hr as (x & t2 & -> & Hr). cbn in Ha. rewrite Z.add_0_r in Ha.
  assert (Hagain : forall t, advances i t -> runs (Do (CanSleep 500) (fun _ => terminate_loop fuel id deadline)) t r -> ~ unfinished r).
  { intros t3 Ha3 ([] & t4 & -> & Hr4). cbn in Ha3. eapply IH; [|exact Ha3|exact Hr4]. unfold in_time. nia. }
  destruct x as [vm|e].
  - destruct (is_terminated _); [returned Hr|]. destruct (decide _); [by eapply Hagain|].
    destruct Hr as (x & t3 & -> & Hr). cbn in Ha. rewrite Z.add_0_r in Ha. destruct x as [[]|e]; [by eapply Hagain|].
    destruct e; first [by eapply Hagain | returned Hr].
  - destruct e; first [by eapply Hagain | returned Hr].
Qed.

Lemma probe_loop_ends fuel hand deadline n now tr r :
  in_time 2000 fuel now deadline -> advances now tr -> runs (probe_loop fuel hand deadline n) tr r -> ~ unfinished r.
Proof.
  revert n now tr. induction fuel as [|fuel IH]; intros n now tr [Hf Hd] Ha Hr; [lia|]. destruct Hr as (i & t & -> & Hr). destruct Ha as [Hn Ha].
  destruct (Z.leb_spec deadline i); [returned Hr|]. destruct Hr as (x & t2 & -> & Hr). cbn in Ha. rewrite Z.add_0_r in Ha.
  assert (Hagain : forall m t, advances i t -> runs (Do (CanSleep 2000) (fun _ => probe_loop fuel hand deadline m)) t r -> ~ unfinished r).
  { intros m t3 Ha3 ([] & t4 & -> & Hr4). cbn in Ha3. eapply IH; [|exact Ha3|exact Hr4]. unfold in_time. nia. }
  destruct x as [vm|[]]; try (returned Hr); destruct Hr as (status & t3 & -> & Hr); cbn in Ha; rewrite Z.add_0_r in Ha;
    (destruct status as [s|]; [|by eapply Hagain]); (destruct (s =? 502); [destruct (_ =? REQUIRED_CONSECUTIVE_502) | destruct (is_success s)]);
    first [by eapply Hagain | returned Hr].
Qed.

Lemma launch_ends arn version payload token connector : finishes (launch_canary_target arn version payload token connector).
Proof.
  intros now tr r Ha (start & t & -> & Hr). destruct Ha as [_ Ha]. eapply launch_loop_ends; [|exact Ha|exact Hr]. by apply in_time_turns.
Qed.
Lemma terminate_ends id : finishes (terminate_known_target id).
Proof.
  intros now tr r Ha (start & t & -> & Hr). destruct Ha as [_ Ha]. eapply terminate_loop_ends; [|exact Ha|exact Hr]. by apply in_time_turns.
Qed.
Lemma probe_ends hand : finishes (assert_persistent_502 hand).
Proof.
  intros now tr r Ha (start & t & -> & Hr). destruct Ha as [_ Ha]. eapply probe_loop_ends; [|exact Ha|exact Hr]. by apply in_time_turns.
Qed.

Lemma receive_finishes id messages : ~ unfinished (receive id messages).
Proof.
  induction messages as [|m messages IH]; [by intros []|].
  assert (Hread : forall text, ~ unfinished (match response_of text with None => Err (CanBail "undecodable response")
    | Some response => if negb (str_eqb (cr_request_id response) id) then receive id messages else map_err CanRefused (cr_result response) end)).
  { intros text. destruct (response_of text) as [response|]; [|by intros []]. destruct (negb _); [done|]. destruct (cr_result response); by intros []. }
  destruct m as [text|bytes|[]| | | |]; cbn [receive]; first [exact IH | apply Hread | by intros [] | destruct (from_utf8 bytes); [apply Hread | by intros []]].
Qed.

(** One step through a program whose loops are known to end. *)
Create HintDb canary_ends.
#[local] Hint Resolve launch_ends terminate_ends probe_ends : canary_ends.
#[local] Ltac finish_step :=
  first
    [ solve [eauto 2 with canary_ends nocore]
    | match goal with
      | |- finishes (_ ≫= _) => apply finishes_mbind
      | |- finishes (prog_bind _ _) => eapply averts_bind
      | |- finishes (mret _) => apply averts_ret; by intros []
      | |- finishes (Ret (receive _ _)) => apply averts_ret, receive_finishes
      | |- finishes (Ret _) => apply averts_ret; by intros []
      | |- finishes (prog_throw _) => apply averts_ret; by intros []
      | |- finishes (Do _ _) => apply averts_do
      | |- finishes (match ?x with _ => _ end) => destruct x
      | |- forall _, _ => intros ?
      end ].
#[local] Ltac finish_tac := repeat (cbv zeta; finish_step).

Lemma try_finishes {F X} (f : F -> Failure) (c : Can (result F X)) : (forall e, ~ out_of_turns (f e)) -> finishes (try_call f c).
Proof. intros Hf. apply averts_do. intros [x|e]; apply averts_ret; [by intros [] | apply Hf]. Qed.
Lemma lift_finishes {A} (r : result Failure A) : ~ unfinished r -> finishes (prog_lift r).
Proof. apply averts_ret. Qed.
Lemma canary_call_finishes n c : finishes (canary_call n c).
Proof. unfold canary_call. finish_tac. Qed.
#[local] Hint Resolve canary_call_finishes : canary_ends.
Lemma execute_and_observe_finishes n request : finishes (execute_and_observe n request).
Proof. unfold execute_and_observe. finish_tac. Qed.
Lemma connect_finishes seal : finishes (connect_to_target seal).
Proof.
  unfold connect_to_target. repeat (apply finishes_mbind; [try (apply try_finishes; by intros ? [])|intros ?]); [|finish_tac].
  apply lift_finishes. destruct (mv_endpoint _); by intros [].
Qed.
Lemma seal_finishes label connector network proxy exits : finishes (seal_canary_run label connector network proxy exits).
Proof. unfold seal_canary_run. finish_tac. Qed.
Lemma transition_finishes id t : finishes (transition_and_wait_or_confirm_gone id t).
Proof. unfold transition_and_wait_or_confirm_gone, confirm_wait. finish_tac. Qed.
#[local] Hint Resolve execute_and_observe_finishes connect_finishes seal_finishes transition_finishes : canary_ends.

(** Checks never run out of turns. *)
Lemma ensure_bails b reason : ~ unfinished (ensure b (CanBail reason)).
Proof. destruct b; by intros []. Qed.
Lemma bind_bails {A B} (r : result Failure A) (f : A -> result Failure B) :
  ~ unfinished r -> (forall a, ~ unfinished (f a)) -> ~ unfinished (r ≫= f).
Proof. destruct r as [a|e]; cbn; auto. Qed.
Lemma ok_or_bails {A} reason (o : option A) : ~ unfinished (ok_or (CanBail reason) o).
Proof. destruct o; by intros []. Qed.
#[local] Hint Resolve ensure_bails bind_bails ok_or_bails : canary_ends.
Lemma require_completed_bails terminal : ~ unfinished (require_completed_stdout terminal).
Proof. unfold require_completed_stdout. destruct (negb _); [by intros [] | apply ok_or_bails]. Qed.
#[local] Ltac bails := repeat (apply bind_bails; [|intros ?]); try apply ensure_bails; try apply ok_or_bails; try apply require_completed_bails.

(** A target's canary and its cleanup both end. *)
Lemma with_canary_target_finishes arn version connector seal payload body :
  (forall seal, finishes (body seal)) -> finishes (with_canary_target arn version connector seal payload body).
Proof.
  intros Hb. unfold with_canary_target. apply finishes_mbind; [apply lift_finishes, ok_or_bails|]. intros p.
  apply finishes_mbind; [apply launch_ends|]. intros vm. eapply averts_bind; [apply Hb|]. intros canary Hc.
  eapply averts_bind; [apply terminate_ends|]. intros cleanup Hcl. apply averts_ret.
  destruct canary, cleanup; cbn in *; by intuition.
Qed.

Lemma replay_finishes hand request : finishes (exact_replay hand request).
Proof. unfold exact_replay. finish_tac. Unshelve. all: exact unfinished. Qed.
#[local] Hint Resolve replay_finishes : canary_ends.
Lemma run_on_known_target_finishes seal : finishes (run_on_known_target seal).
Proof.
  unfold run_on_known_target. apply finishes_mbind; [finish_tac|]. intros hand. cbv zeta. apply finishes_mbind; [finish_tac|]. intros terminal.
  apply finishes_mbind; [apply lift_finishes; unfold require_single_marker; bails|]. intros [].
  unfold replay_after_resume. repeat (finish_step; try (apply try_finishes; by intros ? [])).
Qed.

Lemma network_bodies_finish :
  (forall seal gateway class, finishes (run_restricted_network_on_known_target seal gateway class))
  /\ (forall seal hosts, finishes (run_public_network_on_known_target seal hosts)).
Proof.
  split; [intros seal gateway class | intros seal hosts]; (apply finishes_mbind; [finish_tac|]; intros hand; apply finishes_mbind;
    [apply lift_finishes; unfold restricted_network_execution, public_network_execution; bails; try destruct class; by intros []|]; intros request;
    apply finishes_mbind; [finish_tac|]; intros terminal; apply lift_finishes; unfold require_stdout; bails).
Qed.

(** Every canary ends. On a clock that does not go back and advances by what is slept, the retries of a launch,
    the probes of an endpoint and the confirmation of a termination all stop within two minutes' worth of turns,
    whatever the provider, the endpoint and the guest answer. *)
Theorem canaries_end c now tr r : advances now tr -> runs (run_canary c) tr r -> ~ unfinished r.
Proof.
  revert now tr r. change (finishes (run_canary c)). destruct network_bodies_finish as [Hrestricted Hpublic].
  assert (Hclass : forall cfg class, finishes (run_restricted_network_canary cfg class)).
  { intros cfg class. apply finishes_mbind; [apply lift_finishes, ok_or_bails|]. intros connector. cbv zeta.
    apply finishes_mbind; [finish_tac|]. intros sealed. by apply with_canary_target_finishes. }
  destruct c as [cfg|cfg]; cbn [run_canary].
  - apply finishes_mbind; [apply lift_finishes; unfold validate_customer_hand_hosts; bails|]. intros [].
    do 2 (apply finishes_mbind; [apply Hclass|]; intros []). apply finishes_mbind; [finish_tac|]. intros sealed.
    apply finishes_mbind; [apply lift_finishes, ok_or_bails|]. intros connector. by apply with_canary_target_finishes.
  - apply finishes_mbind; [finish_tac|]. intros sealed. apply with_canary_target_finishes, run_on_known_target_finishes.
Qed.
End canary.

(** ** A sample run: the endpoint dies, and a resumed target refuses the replay *)
Module Sample.
Definition terminal : CanaryTerminal := mkCanaryTerminal true (Some 0) {["stdout" := "marker_count=1" +:+ NL]}.
#[local] Instance ops : @CanaryOps unit := {
  HAND_CONTRACT := "contract"; SPECIAL_USE_FIXTURES := ["10.0.0.1"; "127.0.0.1"]; PUBLIC_UNICAST_FIXTURES := ["1.1.1.1"];
  PROBE_SCRIPT := "probe"; RESTRICTED_SCRIPT := "__PROBE__ __CLASS__"; PUBLIC_SCRIPT := "__PROBE__";
  json_str s := s; json_list _ := "[]"; json_gateway _ := "{}"; HTTP_SURFACES := "[]"; execution_digest _ := "digest";
  json_payload _ := Some "{}";
  response_of text :=
    if str_eqb text "executed" then Some (mkCanaryResponse "image-canary-request-1" (Ok (Executed tt)))
    else if str_eqb text "observed" then Some (mkCanaryResponse "image-canary-request-2" (Ok (Observed (Some terminal))))
    else None }.

(** The world: the time, and whether the target was suspended. *)
Definition answers (X : Type) (c : @Can unit X) (w : Z * bool) : X * (Z * bool) :=
  match c in @Can _ X return X * (Z * bool) with
  | CanInstant => (w.1, w)
  | CanSleep d => (tt, (w.1 + d, w.2))
  | SystemNow => (Some 1000, w)
  | RandomHex _ => ("ab", w)
  | CanRun _ => (Ok (mkMicrovm "vm-1" VmPending None), w)
  | CanGet _ => (Ok (mkMicrovm "vm-1" VmTerminated None), w)
  | CanSuspend _ => (Ok tt, (w.1, true))
  | CanResume _ => (Ok tt, w)
  | CanTerminate _ => (Ok tt, w)
  | CanToken _ => (Ok "jwe", w)
  | CanWaitState _ want _ => (Ok (mkMicrovm "vm-1" want (Some "endpoint")), w)
  | CanConnectSocket _ => (if w.2 then Err (ConnectHttp 502) else Ok tt, w)
  | SendFrame _ => (true, w)
  | ReadSocket => ([MsgText "executed"; MsgText "observed"], w)
  | ProbeEndpoint _ _ _ => (Some 502, w)
  end.

Definition canary : Canary := NoRespawn (mkNoRespawnCanaryConfig "arn:image" "1.0" (mkConnectorRef "NONE")).
Definition trace : list (Event (@Can unit)) := (exec answers (run_canary "us-east-1" canary) (0, false)).1.2.
Definition seal : KnownTargetSeal := mkKnownTargetSeal "vm-1" "generation" "root" "session" "operation" (mkControlToken "control").

Lemma trace_runs : runs (run_canary "us-east-1" canary) trace (Ok tt).
Proof. exact (exec_runs answers (run_canary "us-east-1" canary) (0, false)). Defined.


Lemma canaries_end_witness : advances can_reads can_sleeps 0 trace /\ ~ unfinished (Ok tt : result Failure unit).
Proof.
  assert (Ha : advances can_reads can_sleeps 0 trace) by (vm_compute; repeat (split; [discriminate|]); done).
  split; [exact Ha|]. exact (canaries_end "us-east-1" canary 0 trace (Ok tt) Ha trace_runs).
Defined.

Definition proof_trace : list (Event (@Can unit)) := (exec answers (run_on_known_target seal) (0, false)).1.2.
Lemma no_respawn_is_witnessed_witness :
  length (probes proof_trace) = 6%nat
  /\ (Exists (says_gone (ks_target_id seal)) proof_trace \/ replay_refused (ks_target_id seal) proof_trace).
Proof.
  split; [by vm_compute|].
  exact (proj2 (proj2 (proj2 (proj2 (no_respawn_is_witnessed seal proof_trace (exec_runs answers (run_on_known_target seal) (0, false))))))).
Defined.
End Sample.
