(* ===== verification/Operator.v ===== *)
(** * hand-lambda: the operator's commands

    Models crates/hand-lambda/src/bin/hand-lambda.rs: publishing an image from a guest binary, the state and the due
    rebuild of an image, the two release canaries, and the listing and the lifecycle of a microVM. A command is a
    program over its own calls and those of the publication (Image.v) and of the canaries (Canary.v), which it runs
    as they are. Parsing the command line is outside the repository; [pack_zip] and the generated recipe are
    parameters. *)
From S2P Require Import Prelude Connector Target Control Prog Image Canary.

(** ** Running a program over more calls *)
Section embed.
Context {C D : Type -> Type} (f : forall X, C X -> D X).

Fixpoint embed {A} (p : Prog C A) : Prog D A :=
  match p with Ret a => Ret a | Do c k => Do (f _ c) (fun x => embed (k x)) end.
Definition embedded (e : Event C) : Event D := match e with Ev c x => Ev (f _ c) x end.

Lemma embed_runs {A} (p : Prog C A) tr r : runs (embed p) tr r <-> exists t, tr = map embedded t /\ runs p t r.
Proof.
  revert tr. induction p as [a | X c k IH]; intros tr; cbn.
  - split; [intros [-> ->]; by exists [] | by intros (t & -> & -> & ->)].
  - split.
    + intros (x & tr' & -> & (t & -> & Hr)%IH). exists (Ev c x :: t). split; [done|]. by exists x, t.
    + intros (t & -> & x & t' & -> & Hr). exists x, (map embedded t'). split; [done|]. apply IH. by exists t'.
Qed.
End embed.

(** ** Commands *)
Inductive ImageCommand :=
  | Publish (source_sha binary name bucket build_role log_group : string) (egress_connectors : list string)
  | Status (name : string)
  | RebuildDue (arn version : string)
  | Dockerfile
  | RunCanary (arn version none_connector : string)
  | NetworkCanary (arn version none_connector allowlist_connector public_connector gateway_authority : string)
      (customer_hand_hosts : list string).

Inductive Command :=
  | CmdImage (command : ImageCommand) | CmdList | CmdGet (id : string) | CmdSuspend (id : string) | CmdResume (id : string)
  | CmdTerminate (id : string).

(** One row per registered version. *)
Record VersionSummary := mkVersionSummary {
  vs_version : string; vs_state : string; vs_status : string; vs_base_version : string }.

Inductive OperatorError :=
  | OperControl (e : ControlError) | OperReading | OperNotElf | OperPacking | OperPublish (e : PublishError)
  | OperConnector (e : ConnectorError) | OperHosts | OperCanary (e : Failure) | OperNoImage (name : string)
  | OperRebuildDue (newest : string).

Section operator.
Context {Operation : Type} {CO : @CanaryOps Operation} (region : string) (pages : nat).
Context (sha256 : list Ascii.ascii -> list Ascii.ascii) (dockerfile : string) (pack_zip : list Ascii.ascii -> option (list Ascii.ascii)).
Context (debug_state : MicrovmState -> string).

Inductive Oper : Type -> Type :=
  | OperRead (path : string) : Oper (option (list Ascii.ascii))
  | OperPrint (text : string) : Oper unit
  | OperPub {X} (c : Pub X) : Oper X
  | OperCan {X} (c : @Can Operation X) : Oper X
  | OperVersions (arn : string) : Oper (result ProviderError (list (string * string * string * option string)))
  | OperList : Oper (result ControlError (list Microvm))
  | OperGet (id : string) : Oper (result ControlError Microvm)
  | OperSuspend (id : string) : Oper (result ControlError unit)
  | OperResume (id : string) : Oper (result ControlError unit)
  | OperTerminate (id : string) : Oper (result ControlError unit).

Notation OperM := (ProgM Oper OperatorError).

Definition publishing {A} (p : ProgM Pub PublishError A) : OperM A := prog_map_err OperPublish (embed (@OperPub) p).
Definition canarying {A} (p : ProgM (@Can Operation) Failure A) : OperM A := prog_map_err OperCanary (embed (@OperCan) p).
Definition print_line (text : string) : OperM unit := call (OperPrint text).

Definition TAB : string := String (Ascii.ascii_of_N 9) EmptyString.

Fixpoint print_all (lines : list string) : OperM unit :=
  match lines with [] => mret tt | line :: lines => _ ← print_line line; print_all lines end.

Definition version_summaries (arn : string) : OperM (list VersionSummary) :=
  versions ← try_call (fun e => OperControl (read_error e)) (OperVersions arn);
  mret (map (fun '(version, state, status, base) => mkVersionSummary version state status (default "?" base)) versions).
Definition version_row (v : VersionSummary) : string :=
  vs_version v +:+ TAB +:+ vs_state v +:+ TAB +:+ vs_status v +:+ TAB +:+ "base=" +:+ vs_base_version v.
Definition vm_row (vm : Microvm) : string := mv_id vm +:+ TAB +:+ debug_state (mv_state vm).

Definition parsed {A} (r : result ConnectorError A) : OperM A := prog_lift (map_err OperConnector r).

Definition publish_command (source_sha binary name bucket build_role log_group : string) (egress_connectors : list string) : OperM unit :=
  read ← call (OperRead binary);
  bytes ← prog_lift (ok_or OperReading read);
  _ ← prog_lift (ensure (validate_aarch64_elf bytes) OperNotElf);
  zip ← prog_lift (ok_or OperPacking (pack_zip bytes));
  published ← publishing (publish sha256 pages region (mkPublishConfig source_sha name bucket build_role log_group egress_connectors) zip);
  print_line (image_arn published +:+ TAB +:+ published_version published).

Definition network_canary (arn version none allowlist public gateway : string) (hosts : list string) : OperM unit :=
  hosts ← prog_lift (match hosts with [dev; production] => Ok (dev, production) | _ => Err OperHosts end);
  none ← parsed (ConnectorRef_parse none);
  public ← parsed (ConnectorRef_parse public);
  allowlist ← parsed (ConnectorRef_parse allowlist);
  gateway ← parsed (GatewayAuthority_parse gateway);
  canarying (run_network_boundary_canary region
    (mkNetworkBoundaryCanaryConfig arn version (ConnectorCatalog_new none public allowlist) gateway hosts)).

Definition image_command (c : ImageCommand) : OperM unit :=
  match c with
  | Dockerfile => print_line dockerfile
  | RunCanary arn version none =>
      none ← parsed (ConnectorRef_parse none);
      canarying (run_no_respawn_canary region (mkNoRespawnCanaryConfig arn version none))
  | NetworkCanary arn version none allowlist public gateway hosts => network_canary arn version none allowlist public gateway hosts
  | Publish sha binary name bucket build_role log_group connectors => publish_command sha binary name bucket build_role log_group connectors
  | RebuildDue arn version =>
      due ← publishing (rebuild_due arn version);
      match due with Some newest => prog_throw (OperRebuildDue newest) | None => print_line "current" end
  | Status name =>
      arn ← publishing (find_image_arn pages name);
      arn ← prog_lift (ok_or (OperNoImage name) arn);
      versions ← version_summaries arn;
      print_all (map version_row versions)
  end.

Definition run_command (c : Command) : OperM unit :=
  match c with
  | CmdImage c => image_command c
  | CmdList => vms ← try_call OperControl OperList; print_all (map vm_row vms)
  | CmdGet id => vm ← try_call OperControl (OperGet id); print_line (vm_row vm +:+ TAB +:+ default "" (mv_endpoint vm))
  | CmdSuspend id => try_call OperControl (OperSuspend id)
  | CmdResume id => try_call OperControl (OperResume id)
  | CmdTerminate id => try_call OperControl (OperTerminate id)
  end.

(** ** What a command does *)
Lemma publishing_runs {A} (p : ProgM Pub PublishError A) tr r :
  runs (publishing p) tr r <-> exists t r0, runs p t r0 /\ tr = map (embedded (@OperPub)) t /\ r = map_err OperPublish r0.
Proof.
  unfold publishing, prog_map_err. rewrite runs_bind. split.
  - intros (r0 & t1 & t2 & -> & (t & -> & Hr)%embed_runs & [-> ->]). exists t, r0. by rewrite app_nil_r.
  - intros (t & r0 & Hr & -> & ->). exists r0, (map (embedded (@OperPub)) t), []. rewrite app_nil_r. split; [done|].
    split; [|by split]. apply embed_runs. by exists t.
Qed.

(** A publication ships only what it read, and only if it is an aarch64 binary. Until the binary has been read, checked
    and packed nothing is asked of the provider; then the calls are those of the publication of exactly that archive,
    and the published version is printed when and only when the publication reports one. *)
Theorem published_binaries_are_checked sha binary name bucket build_role log_group connectors tr r :
  runs (publish_command sha binary name bucket build_role log_group connectors) tr r ->
  exists read rest, tr = Ev (OperRead binary) read :: rest
    /\ ((rest = [] /\ r <> Ok tt
         /\ forall bytes, read = Some bytes -> validate_aarch64_elf bytes = false \/ pack_zip bytes = None)
        \/ exists bytes zip t outcome,
             read = Some bytes /\ validate_aarch64_elf bytes = true /\ pack_zip bytes = Some zip
             /\ runs (publish sha256 pages region (mkPublishConfig sha name bucket build_role log_group connectors) zip) t outcome
             /\ match outcome with
                | Ok image => r = Ok tt /\ rest = map (embedded (@OperPub)) t ++ [Ev (OperPrint (image_arn image +:+ TAB +:+ published_version image)) tt]
                | Err e => r = Err (OperPublish e) /\ rest = map (embedded (@OperPub)) t
                end).
Proof.
  intros (read & rest & -> & Hr). exists read, rest. split; [done|]. cbn in Hr.
  destruct read as [bytes|]; cbn in Hr; [|left; by destruct Hr as [-> ->]].
  destruct (validate_aarch64_elf bytes) eqn:Helf; cbn in Hr; [|left; destruct Hr as [-> ->]; split_and!; try done; intros ? [= <-]; by left].
  destruct (pack_zip bytes) as [zip|] eqn:Hzip; cbn in Hr; [|left; destruct Hr as [-> ->]; split_and!; try done; intros ? [= <-]; by right].
  right. apply runs_bind in Hr as (out & t1 & t2 & -> & (t & outcome & Hp & -> & ->)%publishing_runs & Hr).
  exists bytes, zip, t, outcome. split_and!; try done. destruct outcome as [image|e]; cbn in Hr.
  - by destruct Hr as ([] & t' & -> & [-> ->]).
  - destruct Hr as [-> ->]. by rewrite app_nil_r.
Qed.

(** The expiry gate fails exactly when a rebuild is due, naming the newer base; an unreadable answer fails it too. *)
Theorem rebuild_gate_is_exact arn version tr r :
  runs (image_command (RebuildDue arn version)) tr r ->
  exists t outcome, runs (rebuild_due arn version) t outcome
    /\ match outcome with
       | Ok None => r = Ok tt /\ tr = map (embedded (@OperPub)) t ++ [Ev (OperPrint "current") tt]
       | Ok (Some newest) => r = Err (OperRebuildDue newest) /\ tr = map (embedded (@OperPub)) t
       | Err e => r = Err (OperPublish e) /\ tr = map (embedded (@OperPub)) t
       end.
Proof.
  cbn [image_command]. intros (out & t1 & t2 & -> & (t & outcome & Hp & -> & ->)%publishing_runs & Hr)%runs_bind.
  exists t, outcome. split; [done|]. destruct outcome as [[newest|]|e]; cbn in Hr.
  - destruct Hr as [-> ->]. by rewrite app_nil_r.
  - by destruct Hr as ([] & t' & -> & [-> ->]).
  - destruct Hr as [-> ->]. by rewrite app_nil_r.
Qed.

(** A network canary that is not given one development and one production host launches nothing. *)
Theorem network_canary_needs_two_hosts arn version none allowlist public gateway hosts tr r :
  length hosts <> 2%nat -> runs (image_command (NetworkCanary arn version none allowlist public gateway hosts)) tr r ->
  tr = [] /\ r = Err OperHosts.
Proof.
  intros Hn Hr. destruct hosts as [|h1 [|h2 [|h3 hosts]]]; cbn in Hn; try lia; destruct Hr as [-> ->]; by split.
Qed.
End operator.

(** ** Witnesses *)
Module Sample.
Definition elf : list Ascii.ascii := ELF_MAGIC ++ repeat Ascii.zero 14 ++ map Ascii.ascii_of_N [183; 0]%N.
Definition operate := publish_command (Operation := unit) "us-east-1" 5 (fun l => l) Some.
Definition refused : list (Event (@Oper unit)) := [Ev (OperRead "hand-guest") (Some [])].

Lemma published_binaries_are_checked_witness :
  validate_aarch64_elf elf = true
  /\ runs (operate "sha" "hand-guest" "hand" "bucket" "role" "logs" []) refused (Err OperNotElf)
  /\ exists read rest, refused = Ev (OperRead "hand-guest") read :: rest.
Proof.
  assert (Hr : runs (operate "sha" "hand-guest" "hand" "bucket" "role" "logs" []) refused (Err OperNotElf)).
  { eexists _, _. split; [reflexivity|]. split; reflexivity. }
  split; [vm_compute; reflexivity|]. split; [exact Hr|].
  destruct (published_binaries_are_checked "us-east-1" 5 (fun l => l) Some "sha" "hand-guest" "hand" "bucket" "role" "logs" [] refused (Err OperNotElf) Hr)
    as (read & rest & H & _). by exists read, rest.
Defined.

Notation Oper := (@Oper unit).
Definition base : ImageVersion := mkImageVersion "1.0" None BuildSuccessful "base" (Some "9.0").
Definition due : list (Event Oper) := [Ev (OperPub (GetVersion "arn" "1.0")) (Ok base); Ev (OperPub (ListManaged "base")) (Ok ["10.0"; "9.0"])].
#[local] Existing Instance Canary.Sample.ops.
Definition gate := image_command "us-east-1" 5 (fun l => l) "FROM" Some (RebuildDue "arn" "1.0").

Lemma rebuild_gate_is_exact_witness :
  runs gate due (Err (OperRebuildDue "10.0")) /\ exists t outcome, runs (rebuild_due "arn" "1.0") t outcome.
Proof.
  assert (Hr : runs gate due (Err (OperRebuildDue "10.0"))).
  { eexists _, _. split; [reflexivity|]. eexists _, _. split; [reflexivity|]. split; vm_compute; reflexivity. }
  split; [exact Hr|]. destruct (rebuild_gate_is_exact "us-east-1" 5 (fun l => l) "FROM" Some "arn" "1.0" due _ Hr) as (t & outcome & H & _). by exists t, outcome.
Defined.

Lemma network_canary_needs_two_hosts_witness : ([] : list (Event Oper)) = [] /\ Err OperHosts = Err OperHosts :> result OperatorError unit.
Proof.
  apply (network_canary_needs_two_hosts "us-east-1" 5 (fun l => l) "FROM" Some "arn" "1.0" "none" "allow" "public" "gateway:1" ["one.example.com"]); [discriminate|].
  split; reflexivity.
Defined.
End Sample.
